(* ===== verification/_CoqProject ===== *)
-Q . S2P
Prelude.v
LibC.v
QString.v
QDict.v
QObject.v
QHeap.v
JsonLexer.v
JsonLexerFacts.v
JsonStreamer.v
JsonParser.v
QJson.v
JsonText.v
JsonRoundTrip.v
JsonSafety.v
JsonTrace.v
InsnMap.v
Variability.v
PowerModel.v
Energy.v
VarMod.v
ErrorModel.v
CpuExec.v
VarConfig.v
VarMonitor.v
Pl190.v
Pl190Facts.v
IrqBoard.v
PTimer.v
ArmTimer.v
Pl011.v
TimerList.v
Ssys.v
Gptm.v
Adc.v
Gic.v
GicFacts.v
Nvic.v
V7m.v
V7mExec.v
Stellaris.v
I2c.v
Display.v
Ssd0303.v
Ssi.v
Ssd0323.v
Pl061.v
Evb6965.v
Enet.v
TimerCpu.v
HostUtils.v
ArmHelper.v
ArmSimd.v
Sd.v
SdFacts.v
SsiSd.v
SpiSafe.v
