(* ===== verification/Prelude.v ===== *)
(** * The variability testbed: a verification of its core

    The repository is QEMU 0.15.1 with extensions that make the emulated machine
    report, to its guest and to its user, how many cycles of which class of
    instruction were executed and how much energy that took under a power model,
    and that can inject errors into the emulated registers.  All paths below are
    under [src/qemu-0.15.1/].

    ** How the parts interact

    - At start [vl.c] ([parse_variability_file], option [-variability]) reads a
      configuration file line by line; each line is a JSON object, read with
      QEMU's JSON library ([json-lexer.c], [json-streamer.c], [json-parser.c],
      [qjson.c]) into QObjects ([qdict.c], [qlist.c], [qstring.c], ...).  It
      declares the instruction classes, the class of each instruction and the
      errors.
    - The instruction table ([target-arm/arm_instruction_map.c]) gets the cycle
      counts of the board ([hw/versatilepb_instruction_map.h],
      [hw/stellaris_instruction_map.h]).
    - The translator ([target-arm/translate.c]) looks each instruction up and adds
      its cycles to the counters of the translation block; the execution loop
      ([cpu-exec.c]) adds the counters of the block to the totals of
      [qemu-variability.c].  WFI and [cpu_has_work] delimit sleep.
    - A frequency change checkpoints the totals and accumulates the energy of the
      interval with the power model ([first-power-model.c]).
    - The guest reads the figures from the registers of the variability module
      ([hw/variability_module.c], and [hw/stellaris.c] on the Stellaris boards);
      the user reads them with the monitor commands of [qemu-variability.c].
    - A sleeping CPU is woken through the interrupt path of the Versatile board:
      timers ([hw/ptimer.c], [hw/arm_timer.c]), UARTs ([hw/pl011.c]) and other sources, the secondary
      controller of [hw/versatilepb.c], the PL190 ([hw/pl190.c]) and the CPU's
      inputs ([hw/arm_pic.c]).
    - On the Stellaris boards ([hw/stellaris.c]) the system controller's RCC register
      sets the clock: a write is the frequency change of the accounting and gives
      [system_clock_scale], with which the general purpose timers and SysTick count.
      They run on the emulator's timer list ([qemu-timer.c]); a timer can trigger the
      ADC; their interrupts go to the NVIC ([hw/armv7m_nvic.c] over [hw/arm_gic.c]),
      and the processor takes them between two blocks ([cpu-exec.c]) and enters and
      leaves the handlers in [target-arm/helper.c].
    - The Stellaris boards show the figures to a user: the I2C controller of
      [hw/stellaris.c] reaches the SSD0303 display over the bus of [hw/i2c.c], the PL022
      port ([hw/pl022.c]) the SSD0323 display over the bus of [hw/ssi.c] and a
      multiplexer; GPIO pins ([hw/pl061.c]) select the slave and tell commands from
      pixels, and are the inputs of the buttons ([hw/stellaris_input.c]).  The ethernet
      controller ([hw/stellaris_enet.c]) exchanges packets with the network layer.  Behind the
      multiplexer there is also an SD card ([hw/sd.c]) with its adapter ([hw/ssi-sd.c]).
    - The instructions whose cycles are counted compute with the helpers of
      [target-arm/op_helper.c], [target-arm/helper.c] and [target-arm/op_addsub.h] and with
      [host-utils.h].

    ** The files

    - [Prelude] (this file): machine integers ([u32], [s64], ...: a C integer is
      its value in [Z], and every conversion that can change it is written out),
      bytes and C strings, the error monad [res] with its [fault]s (a failed
      assertion, an abort, and what C leaves undefined: NULL and out-of-bounds
      accesses, reads of uninitialised memory, bad shifts, division by zero),
      arrays ([aread], [awrite]), counting loops with their rules, and tactics.
      [LibC]: what the code uses of the C library ([strtoll], [strtod], [snprintf]
      for the formats that occur).
    - [QString] (qstring.c), [QDict] (qdict.c: the table of 512 buckets with
      newest-first chains) and [QObject] (QObject as an inductive type; qlist.c,
      qint.c, qbool.c, qfloat.c; the typed getters of qdict.c); [QHeap] (the same
      objects as counted cells of a heap, with the destructors).
    - [JsonLexer] (json-lexer.c: the transition table of the source as data, and
      the loop that interprets it), [JsonStreamer], [JsonParser], [QJson]; and
      their theory: [JsonLexerFacts], [JsonText] (the text the printer makes and
      the tokens the lexer finds in it), [JsonRoundTrip], [JsonSafety], [JsonTrace]
      (a parse as the messages the streamer emits).
    - [InsnMap] (the instruction table and the two boards), [Variability]
      (qemu-variability.c: the record [var_state] holds its file-scope variables,
      one definition per function), [PowerModel] (the [PowerModel] record of
      operations; its laws are the class [PowerModelLaws], of which the first power
      model is an instance), [Energy] (the specification of the accounting and the
      refinement), [VarMod] (the guest registers), [ErrorModel] (error_model.c),
      [CpuExec] (translation, block pool, execution, single stepping, sleep),
      [VarConfig] (the configuration file, with [FILE] and [fgets]), [VarMonitor]
      (the monitor commands).
    - [Pl190], [Pl190Facts] (the vectored interrupt controller), [IrqBoard] (the
      secondary controller, the CPU inputs and the wiring; a component that takes
      interrupts is an instance of the class [IrqSink]), [PTimer] (ptimer.c) and
      [ArmTimer] (arm_timer.c); [Pl011] (pl011.c, the UART).
    - [TimerList] (qemu-timer.c: the active timers of a clock; a device is an instance
      of the class [TimerClient], and its promises are the class [TimerLaws]), [Ssys]
      (the system controller with the accounting behind it), [Gptm] (the timer modules,
      an instance of [TimerClient]), [Adc], [Gic] and [GicFacts] (arm_gic.c as the NVIC
      compiles it), [Nvic] (armv7m_nvic.c: vector numbers, SysTick, the system control
      registers), [V7m] (exception entry and return over any memory that is an instance
      of [PhysMem]), [V7mExec] (the execution loop around it: when an interrupt is taken,
      and the special registers), [Stellaris] (the clock and the timers of a started board
      together).
    - [I2c] (bus and controller; a slave is an instance of [I2CSlave], its promises are
      [I2CSlaveLaws]), [Display] (what the displays share), [Ssd0303] (an instance),
      [Ssi] (bus, PL022 and multiplexer; a slave is an instance of [SSISlave] with
      [SSISlaveLaws], the multiplexer one that holds two), [Ssd0323] (an instance),
      [Pl061] (GPIO port and gamepad), [Evb6965] (these parts of the board together).
    - [Enet] (the ethernet controller), [TimerCpu] (a timer module, the NVIC and the
      processor together), [HostUtils] (host-utils.h and host-utils.c), [ArmHelper] and
      [ArmSimd] (the arithmetic of the ARM helpers).
    - [Sd] (the SD card, over any block layer that is an instance of [BlockDriver]),
      [SdFacts] (the laws [BlockLaws] of a block layer, an instance of them, and the card
      as an array of bytes), [SsiSd] (the adapter, an instance of [SSISlave]), [SpiSafe]
      (its invariant).

    ** What the theorems show

    - Accounting.  The specification keeps one meter per counter: an energy total
      and the cycles of the current interval.  [accounting_refines_meters]: for any
      lawful power model and any sequence of events, the code never faults and
      reports the readings of the meters.  [legacy_energy_conserved] and
      [class_energy_forgets] draw the consequences for the first power model
      (the class figures lose all but the last interval, because of an assignment
      where an addition was meant), and [class_loops_in_bounds] bounds the arrays.
    - What is reported.  [guest_reads_executed_cycles], [varmod_registers],
      [varmod_error_switch], [stellaris_serves_counters] for the guest;
      [info_cyclecount_reports_legacy], [info_energy_answer] for the user.
    - Translation and execution.  [get_map_entry_correct], [board_maps_correct],
      [translation_adds_block_cost], [reused_slot_keeps_counts],
      [singlestep_privilege], [singlestep_transparent],
      [sleep_ends_at_first_poll], [error_model_has_no_effect],
      [error_model_empty_list_faults].
    - Configuration.  [configuration_keeps_accounting] (reading any file
      terminates, and an accepted one leaves a state that the accounting theorems
      apply to), [class_assignment], [error_window_read] (from the text on),
      [last_line_processed_twice], [class_count_unchecked].
    - JSON and containers.  [qdict_implements_map] (the hash table is a finite
      map), [qdict_walk_is_iter], [qstring_appends_concat],
      [json_lexer_feed_total], [qobject_from_json_total] (every text is answered:
      no fault, no endless loop), [json_round_trip] (what [qobject_to_json] prints
      is read back as an equal object), [to_json_four_bytes_collide],
      [single_quote_escape_lost].  [qobject_clients_safe]: a client that keeps to the
      rules of ownership, in any order of operations, meets no freed object, and an object
      lives exactly as long as it is referred to (by rule induction on its steps);
      [qobject_decref_exact]: dropping a reference frees exactly what is no longer
      reachable.
    - Interrupts and timers.  [pl190_runs_safe], [pl190_outputs],
      [pl190_nesting] (levels entered and left form a stack, by rule induction on
      the ways interrupts preempt), [pl190_vectaddr_next_slot];
      [board_wires_agree] (at every point of every run the wires carry what the
      registers say), [sic_source_wakes_cpu], [sic_softint_changes_mask],
      [sic_passthrough_sticks]; [ptimer_count_rounds_down],
      [ptimer_count_monotone], [ptimer_count_goes_back], [ptimer_no_drift],
      [ptimer_set_get_count]; [sp804_output], [sp804_periodic_interrupt],
      [icp_pit_fourth_timer]; [pl011_fifo_is_queue] (the receive ring is a queue),
      [pl011_break_overflows], [pl011_read_without_backend].
    - The Stellaris boards.  [run_timers_complete]: for any devices that keep the laws
      of [TimerLaws], running the timers of a clock ends, and no expired timer is left.
      [ssys_runs_correct]: writes to the system controller are the frequency changes of
      the accounting, and the clock is that of the last RCC.  [gptm_registers_typed],
      [gptm_periodic_on_time] (a periodic timer expires at the multiples of its period,
      without drift), [adc_fifo_is_queue].  [gic_active_is_stack] (the active
      interrupts, kept as links in an array, are a stack: by rule induction on its
      steps), [gic_delivers_best] (at every point of every run the interrupt offered is
      the best one), [nvic_enter_leave], [systick_counts_cycles_left],
      [systick_expiry_interrupts], [v7m_interrupt_transparent] (an interrupt and its
      return give back the interrupted program), and through the execution loop
      [interrupt_cycle_transparent] and [systick_wakes_cpu]; [msr_mrs].  What the code gets
      wrong there: [masks_do_not_mask], [interrupt_at_magic_address],
      [iepsr_hides_it_bit],
      [stellaris_boots_with_garbage], [stellaris_timer_hangs], [gptm_zero_period_hangs],
      [adc_drained_not_empty], [adc_pulse_samples_twice],
      [gic_self_preemption_never_ends], [systick_start_is_late],
      [systick_zero_clock_divides], [nvic_soft_irq_out_of_bounds],
      [nvic_vectpending_off_by_16], [nvic_cpuid_unreadable], [v7m_handler_inherits_it].
    - Displays, buttons and ports.  [i2c_controller_safe] and [pl022_port_safe]: for any
      accesses and any lawful slaves, no fault but the hardware error of an access that
      does not exist, and registers and interrupt lines that agree; [send_transaction] and
      [i2c_no_slave]; [i2c_bus_migrates]; [pl022_full_duplex] (words and answers are queues,
      nothing is lost); [pl061_is_pins] (the port refines a set of pins);
      [gamepad_follows_keys], [evb_buttons_read].  [guest_draws_on_panel] and
      [evb_guest_draws] go from the writes of the guest to the registers to the pixels on
      the surface, through controller, bus, device and refresh.  What the code gets wrong
      there: [repeated_start_ignored], [skipped_argument_swallows],
      [inverse_is_not_shown], [masked_status_is_union], [evb_first_select_lost].
    - Network and wires.  [enet_is_queues]: within the sizes that its buffers hold, the
      controller is a queue of received packets and one frame that is being put together.
      [enet_delivers_frame]: a frame that the guest of one controller writes word by word is
      what the guest of another reads.  [gptm_wakes_cpu]: a timer that the guest starts with
      a write to its control register brings the sleeping processor into its handler.
      Outside of the sizes: [enet_refused_overflows], [enet_buffers_overflow]; and
      [enet_padding_not_sent].
    - Arithmetic.  [arith_cc_exact], [shifts_exact], [saturation_exact], [simd_exact] and
      [word_helpers_exact] compare the helpers, bit tricks included, with the exact integer
      operations that the architecture manual defines; [mul64_exact] and [bit_counts_exact]
      do so for the host utilities; [double_saturate_flag] is the exception.
    - The SD card.  [sd_card_is_array]: for any lawful block layer, reads and writes of
      blocks, command by command and byte by byte, are those of an array of bytes, from the
      state to which the identification of a card leads ([identified]).
      [spi_reads_blocks] says so for the bytes on the serial bus, from a fresh card on;
      [ssi_sd_safe]: no bytes that a guest sends there lead to a fault, but for three kinds
      that do ([stop_reads_out_of_bounds], [serial_faults]).  [csd_reports_capacity],
      [sd_crc7_is_remainder], [ssi_sd_save_load].  What the code gets wrong:
      [write_protection_not_enforced], [lock_is_inverted], [unlock_impossible],
      [last_block_hangs], [erase_out_of_bounds], [write_beyond_out_of_bounds],
      [if_cond_bad_shift], [csd_small_image], [stop_transmission_is_ignored].

    ** Fuel and bounds

    Recursion that is not structural has fuel, and the fuel is shown to be enough:
    the lexer's loop over lookahead takes at most two rounds per character
    ([json_lexer_feed_total]); the parser consumes a token per level, so that the
    number of tokens bounds its depth ([qobject_from_json_total]); the
    configuration loop reads at least one byte per line
    ([configuration_keeps_accounting]); a run of the timers ends after a number of
    callbacks bounded by the time to catch up with ([run_timers_complete]); the chain
    of active interrupts has at most 96 links ([gic_active_is_stack]); dropping a
    reference nests at most as deep as there are objects ([qobject_decref_exact]); the
    transfer loop of the PL022 moves at most the 8 words of its FIFO
    ([pl022_port_safe]).  Running out of fuel is the fault
    [Out_of_fuel], which none of the theorems about a result leaves open; where the code
    does loop for ever, the theorem says so for every amount of fuel.  Counters
    wrap at 64 bits as in the code; where a statement needs the absence of overflow
    (timer deadlines below [2^63] ns) it says so.

    ** What is not modelled

    Device registration, migration tables (but for the I2C bus) and debug output; the
    decoder and code generator, of which only the reports to the extension are modelled; of
    the loop of [cpu_exec] what the extension adds and what decides on interrupts on
    ARMv7-M; the JSON and configuration code works on objects as values, and the
    references behind them are modelled on their own; the host alarm and the clocks behind
    the timer list; of [cpu_interrupt] only the request bits (not the unlinking of the
    running block, nor instruction counting mode); the GIC in configurations other than the
    NVIC's; semihosting; the saving and loading of the devices that have no migration
    table (but for the SD card's adapter); the floating point and NEON helpers.  The rest of QEMU (block layer, network layer, user interface, other targets
    and devices) is outside the development. *)

From stdpp Require Export base list gmap strings.
From Stdlib Require Export ZArith Lia.
From Stdlib Require Strings.Byte.
From Stdlib Require Export Init.Byte.

#[global] Set Default Goal Selector "!".

(** ** Scope, hint databases *)

Declare Scope c_scope.
Delimit Scope c_scope with c.
Create Rewrite HintDb cint.
Create HintDb varsim.

(** ** Machine integers

    A C integer is its mathematical value in [Z]; [uN z] and [sN z] are the
    conversions to the unsigned and (two's complement) signed type of [N] bits. *)

Definition u8 (z : Z) : Z := (z mod 2 ^ 8)%Z.
Definition u16 (z : Z) : Z := (z mod 2 ^ 16)%Z.
Definition u32 (z : Z) : Z := (z mod 2 ^ 32)%Z.
Definition u64 (z : Z) : Z := (z mod 2 ^ 64)%Z.
Definition s8 (z : Z) : Z := ((z + 2 ^ 7) mod 2 ^ 8 - 2 ^ 7)%Z.
Definition s32 (z : Z) : Z := ((z + 2 ^ 31) mod 2 ^ 32 - 2 ^ 31)%Z.
Definition s64 (z : Z) : Z := ((z + 2 ^ 63) mod 2 ^ 64 - 2 ^ 63)%Z.

Definition is_u32 (z : Z) : Prop := (0 <= z < 2 ^ 32)%Z.
Definition is_u64 (z : Z) : Prop := (0 <= z < 2 ^ 64)%Z.
Definition is_s64 (z : Z) : Prop := (- 2 ^ 63 <= z < 2 ^ 63)%Z.

Lemma u8_range z : (0 <= u8 z < 2 ^ 8)%Z.
Proof. apply Z.mod_pos_bound. lia. Qed.
Lemma u32_range z : (0 <= u32 z < 2 ^ 32)%Z.
Proof. apply Z.mod_pos_bound. lia. Qed.
Lemma u64_range z : (0 <= u64 z < 2 ^ 64)%Z.
Proof. apply Z.mod_pos_bound. lia. Qed.
Lemma u8_small z : (0 <= z < 2 ^ 8)%Z → u8 z = z.
Proof. apply Z.mod_small. Qed.
Lemma u32_small z : (0 <= z < 2 ^ 32)%Z → u32 z = z.
Proof. apply Z.mod_small. Qed.
Lemma u64_small z : (0 <= z < 2 ^ 64)%Z → u64 z = z.
Proof. apply Z.mod_small. Qed.
Lemma s32_small z : (- 2 ^ 31 <= z < 2 ^ 31)%Z → s32 z = z.
Proof. intros ?. unfold s32. rewrite Z.mod_small; lia. Qed.
Lemma s64_small z : is_s64 z → s64 z = z.
Proof. unfold is_s64, s64. intros ?. rewrite Z.mod_small; lia. Qed.
Lemma s64_range z : is_s64 (s64 z).
Proof. unfold s64, is_s64. pose proof (Z.mod_pos_bound (z + 2 ^ 63) (2 ^ 64)). lia. Qed.

Lemma u64_u64 z : u64 (u64 z) = u64 z.
Proof. apply Z.mod_mod. lia. Qed.
Lemma u64_add_l a b : u64 (u64 a + b) = u64 (a + b).
Proof. apply Zplus_mod_idemp_l. Qed.
Lemma u64_add_r a b : u64 (a + u64 b) = u64 (a + b).
Proof. apply Zplus_mod_idemp_r. Qed.
Lemma u64_sub_l a b : u64 (u64 a - b) = u64 (a - b).
Proof. apply Zminus_mod_idemp_l. Qed.
Lemma u64_sub_r a b : u64 (a - u64 b) = u64 (a - b).
Proof. apply Zminus_mod_idemp_r. Qed.

#[export] Hint Rewrite u64_u64 u64_add_l u64_add_r u64_sub_l u64_sub_r : cint.

(** The 64-bit value put together from its 32-bit halves. *)
Lemma u64_halves z : is_u64 z → (u32 z + 2 ^ 32 * u32 (Z.shiftr z 32) = z)%Z.
Proof.
  unfold is_u64, u32. intros Hz. rewrite Z.shiftr_div_pow2 by lia.
  rewrite (Z.mod_small (z / 2 ^ 32)).
  - pose proof (Z.div_mod z (2 ^ 32) ltac:(lia)). lia.
  - split; [apply Z.div_pos; lia | apply Z.div_lt_upper_bound; lia].
Qed.

(** Bit operations on values that do not overlap. *)
Lemma lor_add a b k : (0 <= k)%Z → (0 <= b < 2 ^ k)%Z → Z.lor (a * 2 ^ k) b = (a * 2 ^ k + b)%Z.
Proof.
  intros Hk Hb. rewrite <- Z.add_lor_land.
  assert (Z.land (a * 2 ^ k) b = 0)%Z as ->; [|lia].
  rewrite <- Z.shiftl_mul_pow2 by done. apply Z.bits_inj'. intros n Hn.
  rewrite Z.land_spec, Z.bits_0. destruct (Z.ltb_spec n k).
  - by rewrite Z.shiftl_spec_low.
  - rewrite <- (Z.mod_small b (2 ^ k)) by done. by rewrite Z.mod_pow2_bits_high, andb_false_r by lia.
Qed.
Lemma land_mod a k : (0 <= k)%Z → Z.land a (2 ^ k - 1) = (a mod 2 ^ k)%Z.
Proof. intros. rewrite <- Z.land_ones by done. f_equal. rewrite Z.ones_equiv. lia. Qed.

(** ** Bytes and C strings *)

#[global] Instance byte_eq_dec : EqDecision byte := Byte.byte_eq_dec.
#[global] Instance byte_countable : Countable byte :=
  inj_countable Byte.to_N Byte.of_N Byte.of_to_N.
#[global] Instance byte_inhabited : Inhabited byte := populate x00.

Abbreviation bytes := (list byte).

(** The value of a byte as an [unsigned char] and as a [char] (signed on the
    hosts QEMU runs on), and the byte a value is stored as. *)
Definition bz (b : byte) : Z := Z.of_N (Byte.to_N b).
Definition sbz (b : byte) : Z := s8 (bz b).
Definition zb (z : Z) : byte := default x00 (Byte.of_N (Z.to_N (z mod 256))).

Definition bs (s : string) : bytes := String.list_byte_of_string s.
Arguments bs _%_string_scope.

Lemma bz_range b : (0 <= bz b < 256)%Z.
Proof.
  unfold bz. pose proof (Byte.to_N_bounded b). lia.
Qed.
Lemma zb_bz b : zb (bz b) = b.
Proof.
  unfold zb. rewrite Z.mod_small by apply bz_range. unfold bz.
  by rewrite N2Z.id, Byte.of_to_N.
Qed.
Lemma bz_inj a b : bz a = bz b → a = b.
Proof. intros H. by rewrite <- (zb_bz a), <- (zb_bz b), H. Qed.
Lemma bz_zb z : (0 <= z < 256)%Z → bz (zb z) = z.
Proof.
  intros Hz. unfold zb, bz. rewrite Z.mod_small by lia.
  destruct (Byte.of_N (Z.to_N z)) eqn:E; simpl.
  - apply Byte.to_of_N in E. lia.
  - apply Byte.of_N_None_iff in E. lia.
Qed.

(** Every byte, for properties decided by computation. *)
Definition all_bytes : list byte := map (λ n, zb (Z.of_nat n)) (seq 0 256).

Lemma all_bytes_complete b : b ∈ all_bytes.
Proof.
  apply list_elem_of_In, in_map_iff. exists (Z.to_nat (bz b)).
  pose proof (bz_range b). rewrite Z2Nat.id by lia.
  split; [apply zb_bz | apply in_seq; lia].
Qed.
Lemma byte_forallb (P : byte → bool) :
  forallb P all_bytes = true → ∀ b, P b = true.
Proof.
  rewrite forallb_forall. intros H b. apply H, list_elem_of_In, all_bytes_complete.
Qed.

(** The C string held by a buffer: the bytes before the first NUL. *)
Fixpoint c_str (s : bytes) : bytes :=
  match s with
  | [] => []
  | c :: s => if decide (c = x00) then [] else c :: c_str s
  end.

Definition no_nul (s : bytes) : Prop := x00 ∉ s.

Lemma c_str_no_nul s : no_nul s → c_str s = s.
Proof.
  unfold no_nul. induction s as [|c s IH]; simpl; [done|]. intros H.
  rewrite not_elem_of_cons in H. destruct H as [H1 H2].
  rewrite decide_False by congruence. by rewrite IH.
Qed.
Lemma c_str_has_no_nul s : no_nul (c_str s).
Proof.
  unfold no_nul. induction s as [|c s IH]; simpl; [set_solver|].
  case_decide; set_solver.
Qed.

(** [strcmp(a, b) == 0] on C strings. *)
Definition streq (a b : bytes) : bool := bool_decide (c_str a = c_str b).

Lemma streq_true a b : no_nul a → no_nul b → streq a b = true ↔ a = b.
Proof.
  intros. unfold streq. rewrite !c_str_no_nul by done. apply bool_decide_eq_true.
Qed.

(** ** Faults and the error monad

    A run of the modelled code either returns or stops with a fault: a failed
    [assert], an [exit], or an operation whose behaviour C leaves undefined
    (a null or out-of-bounds access, a read of memory that was not written, a shift
    by a negative or too large amount, a division by zero, a
    [va_arg] of the wrong type), or with [hw_error], which aborts the emulator.
    [Out_of_fuel] is the model's own: the theorems about a loop show that it is
    not reached. *)

Inductive fault :=
| Assert_failed
| Null_deref
| Out_of_bounds
| Uninit_read
| Freed_access
| Bad_va_arg
| Bad_shift
| Div_by_zero
| Hw_error
| Exit (code : Z)
| Out_of_fuel.

#[global] Instance fault_eq_dec : EqDecision fault.
Proof. solve_decision. Defined.

Inductive res (A : Type) :=
| Ok (a : A)
| Err (e : fault).
Arguments Ok {A} _.
Arguments Err {A} _.

#[global] Instance res_ret : MRet res := @Ok.
#[global] Instance res_bind : MBind res := λ A B f m,
  match m with Ok a => f a | Err e => Err e end.

Definition assertb (b : bool) : res unit := if b then Ok tt else Err Assert_failed.

(** Dereferencing a pointer that may be NULL. *)
Definition deref {A} (p : option A) : res A :=
  match p with Some a => Ok a | None => Err Null_deref end.

(** [1u << k]: shifting a 32-bit value by 32 or more is undefined. *)
Definition bit32 (k : Z) : res Z :=
  if ((0 <=? k) && (k <? 32))%Z then Ok (Z.shiftl 1 k) else Err Bad_shift.

(** C truth values, and the integer of a comparison. *)
Definition truth (z : Z) : bool := negb (z =? 0)%Z.
Definition flag (b : bool) : Z := if b then 1%Z else 0%Z.

Definition is_ok {A} (r : res A) : bool := match r with Ok _ => true | Err _ => false end.

Lemma bind_Ok {A B} (m : res A) (f : A → res B) b :
  (m ≫= f) = Ok b → ∃ a, m = Ok a ∧ f a = Ok b.
Proof. destruct m; simpl; [eauto | discriminate]. Qed.

(** Decompose every bind in the hypotheses that returned normally. *)
Ltac inv_bind :=
  repeat match goal with
  | H : (_ ≫= _) = Ok _ |- _ =>
      let a := fresh "a" in let E := fresh "E" in
      apply bind_Ok in H as (a & E & H)
  | H : Ok _ = Ok _ |- _ => injection H as H; try subst
  | H : mret _ = Ok _ |- _ => unfold mret, res_ret in H
  | H : Err _ = Ok _ |- _ => discriminate H
  | H : Ok _ = Err _ |- _ => discriminate H
  end.

(** ** Arrays

    A C array is the list of its cells; an access out of its bounds is a fault. *)

Section arrays.
Context {A : Type}.
Implicit Types (l : list A) (i : Z).

Definition aread (l : list A) (i : Z) : res A :=
  if (0 <=? i)%Z then
    match l !! Z.to_nat i with Some a => Ok a | None => Err Out_of_bounds end
  else Err Out_of_bounds.

Definition awrite (l : list A) (i : Z) (a : A) : res (list A) :=
  if ((0 <=? i) && (i <? Z.of_nat (length l)))%Z
  then Ok (<[Z.to_nat i := a]> l) else Err Out_of_bounds.

Lemma aread_lookup l i a :
  aread l i = Ok a ↔ (0 <= i)%Z ∧ l !! Z.to_nat i = Some a.
Proof.
  unfold aread. destruct (Z.leb_spec 0 i); destruct (l !! Z.to_nat i);
    naive_solver lia.
Qed.
Lemma aread_nat l (i : nat) a : l !! i = Some a → aread l (Z.of_nat i) = Ok a.
Proof. intros. apply aread_lookup. rewrite Nat2Z.id. split; [lia|done]. Qed.
Lemma aread_oob l i : (Z.of_nat (length l) <= i)%Z → aread l i = Err Out_of_bounds.
Proof.
  intros H. unfold aread. destruct (Z.leb_spec 0 i); [|done].
  by rewrite lookup_ge_None_2 by lia.
Qed.
Lemma awrite_nat l (i : nat) a :
  i < length l → awrite l (Z.of_nat i) a = Ok (<[i:=a]> l).
Proof.
  intros H. unfold awrite. rewrite Nat2Z.id.
  destruct (Z.leb_spec 0 (Z.of_nat i)), (Z.ltb_spec (Z.of_nat i) (Z.of_nat (length l)));
    simpl; try lia; done.
Qed.
Lemma awrite_length l i a l' : awrite l i a = Ok l' → length l' = length l.
Proof.
  unfold awrite. destruct (_ && _); [|discriminate]. intros [= <-].
  apply length_insert.
Qed.
Lemma awrite_oob l i a :
  (i < 0 ∨ Z.of_nat (length l) <= i)%Z → awrite l i a = Err Out_of_bounds.
Proof.
  intros H. unfold awrite.
  destruct (Z.leb_spec 0 i), (Z.ltb_spec i (Z.of_nat (length l))); simpl; lia || done.
Qed.
End arrays.

(** ** Counting loops: [for (i = 0; i < n; ++i) body] *)

Section for_loop.
Context {S : Type}.
Implicit Types (body : Z → S → res S) (s : S).

Fixpoint for_from (i : nat) (n : nat) (body : Z → S → res S) (s : S) : res S :=
  match n with
  | O => Ok s
  | Datatypes.S n => s' ← body (Z.of_nat i) s; for_from (Datatypes.S i) n body s'
  end.

Definition for_upto (n : Z) (body : Z → S → res S) (s : S) : res S :=
  for_from 0 (Z.to_nat n) body s.

(** Rule for a loop whose body never faults: the state after [i] rounds is [g i]. *)
Lemma for_from_spec body (g : nat → S) n i :
  (∀ j, i ≤ j < i + n → body (Z.of_nat j) (g j) = Ok (g (Datatypes.S j))) →
  for_from i n body (g i) = Ok (g (i + n)).
Proof.
  revert i. induction n as [|n IH]; intros i H; simpl.
  - by rewrite Nat.add_0_r.
  - rewrite H by lia. simpl. rewrite IH by (intros; apply H; lia).
    by rewrite Nat.add_succ_r.
Qed.
Lemma for_upto_spec body (g : nat → S) n :
  (∀ j, j < Z.to_nat n → body (Z.of_nat j) (g j) = Ok (g (Datatypes.S j))) →
  for_upto n body (g 0) = Ok (g (Z.to_nat n)).
Proof. intros H. apply (for_from_spec body g). intros; apply H; lia. Qed.

(** Rule for an invariant of the state. *)
Lemma for_from_inv body (P : S → Prop) n i s :
  (∀ j s, i ≤ j < i + n → P s → ∃ s', body (Z.of_nat j) s = Ok s' ∧ P s') → P s →
  ∃ s', for_from i n body s = Ok s' ∧ P s'.
Proof.
  revert i s. induction n as [|n IH]; intros i s H Hs; [by exists s|]. simpl.
  destruct (H i s ltac:(lia) Hs) as (s1 & -> & H1). simpl. apply IH; [|done]. intros j s2 Hj. apply H. lia.
Qed.
Lemma for_upto_inv body (P : S → Prop) n s :
  (∀ j s, j < Z.to_nat n → P s → ∃ s', body (Z.of_nat j) s = Ok s' ∧ P s') → P s →
  ∃ s', for_upto n body s = Ok s' ∧ P s'.
Proof. intros H. apply for_from_inv. intros j s1 Hj. apply H. lia. Qed.

(** A loop whose body faults at round [k] and not before faults. *)
Lemma for_from_fault body (g : nat → S) n i k e :
  (∀ j, i ≤ j < k → body (Z.of_nat j) (g j) = Ok (g (Datatypes.S j))) →
  i ≤ k < i + n → body (Z.of_nat k) (g k) = Err e →
  for_from i n body (g i) = Err e.
Proof.
  revert i. induction n as [|n IH]; intros i H Hk Hf; simpl; [lia|].
  destruct (decide (i = k)) as [->|].
  - by rewrite Hf.
  - rewrite H by lia. simpl. apply IH; [intros; apply H; lia|lia|done].
Qed.
End for_loop.

(** The prefix of [f 0, f 1, ...] written over the first [n] cells of [l]. *)
Definition overwrite {A} (n : nat) (f : nat → A) (l : list A) : list A :=
  map f (seq 0 n) ++ drop n l.

Lemma overwrite_length {A} n (f : nat → A) l : n ≤ length l → length (overwrite n f l) = length l.
Proof. intros. unfold overwrite. rewrite length_app, length_map, length_seq, length_drop. lia. Qed.
Lemma overwrite_0 {A} (f : nat → A) l : overwrite 0 f l = l.
Proof. done. Qed.
Lemma overwrite_S {A} n (f : nat → A) l :
  n < length l → <[n := f n]> (overwrite n f l) = overwrite (S n) f l.
Proof.
  intros H. unfold overwrite. rewrite seq_S, map_app. simpl.
  replace n with (length (map f (seq 0 n)) + 0) at 1 by (rewrite length_map, length_seq; lia).
  rewrite insert_app_r. rewrite <- app_assoc. f_equal.
  destruct (lookup_lt_is_Some_2 l n H) as [x Hx].
  by rewrite (drop_S _ _ _ Hx).
Qed.
Lemma overwrite_lookup {A} n (f : nat → A) l i :
  n ≤ length l → overwrite n f l !! i = if decide (i < n) then Some (f i) else l !! i.
Proof.
  intros H. unfold overwrite. case_decide.
  - rewrite lookup_app_l by (rewrite length_map, length_seq; lia).
    rewrite list_lookup_fmap, lookup_seq_lt by lia. done.
  - rewrite lookup_app_r by (rewrite length_map, length_seq; lia).
    rewrite lookup_drop, length_map, length_seq. f_equal. lia.
Qed.
Lemma overwrite_ext {A} n (f g : nat → A) l :
  (∀ i, i < n → f i = g i) → overwrite n f l = overwrite n g l.
Proof.
  intros H. unfold overwrite. f_equal. apply map_ext_in.
  intros i Hi%in_seq. apply H. lia.
Qed.

(** ** Tactics of the development *)

Ltac bool_to_prop :=
  repeat match goal with
  | H : bool_decide _ = true |- _ => apply bool_decide_eq_true in H
  | H : bool_decide _ = false |- _ => apply bool_decide_eq_false in H
  | H : _ && _ = true |- _ => apply andb_prop in H as [??]
  | H : negb _ = true |- _ => apply negb_true_iff in H
  | H : negb _ = false |- _ => apply negb_false_iff in H
  | H : (_ =? _)%Z = true |- _ => apply Z.eqb_eq in H
  | H : (_ =? _)%Z = false |- _ => apply Z.eqb_neq in H
  | H : (_ <=? _)%Z = true |- _ => apply Z.leb_le in H
  | H : (_ <=? _)%Z = false |- _ => apply Z.leb_gt in H
  | H : (_ <? _)%Z = true |- _ => apply Z.ltb_lt in H
  | H : (_ <? _)%Z = false |- _ => apply Z.ltb_ge in H
  end.

(** Solve [∀ b : byte, P b = true] by computation. *)
Ltac all_bytes := apply byte_forallb; vm_compute; reflexivity.

(** ** Bits and register windows *)

Section bits.
Local Open Scope Z_scope.

Lemma truth_bits z : 0 <= z → truth z = true ↔ ∃ n, 0 <= n ∧ Z.testbit z n = true.
Proof.
  intros Hz. unfold truth. rewrite negb_true_iff, Z.eqb_neq. split.
  - intros Hne. exists (Z.log2 z). split; [apply Z.log2_nonneg|]. apply Z.bit_log2. lia.
  - intros (n & _ & Hn) ->. by rewrite Z.bits_0 in Hn.
Qed.
Lemma u32_bits_small z n : is_u32 z → Z.testbit z n = true → 0 <= n < 32.
Proof.
  intros Hz Hb. destruct (Z.ltb_spec n 0); [by rewrite Z.testbit_neg_r in Hb|].
  split; [done|]. destruct (Z.ltb_spec n 32); [done|].
  rewrite Z.bits_above_log2 in Hb; [done|unfold is_u32 in Hz; lia|].
  destruct (decide (z = 0)) as [->|]; [simpl; lia|].
  apply Z.log2_lt_pow2; [unfold is_u32 in Hz; lia|].
  pose proof (Z.pow_le_mono_r 2 32 n). unfold is_u32 in Hz. lia.
Qed.
Lemma is_u32_bits z : 0 <= z → (∀ n, 32 <= n → Z.testbit z n = false) → is_u32 z.
Proof.
  intros Hz H. split; [done|].
  destruct (decide (z = 0)) as [->|]; [lia|].
  destruct (Z.lt_ge_cases z (2 ^ 32)) as [|Hge]; [done|].
  assert (32 <= Z.log2 z) by (apply Z.log2_le_pow2; lia).
  pose proof (Z.bit_log2 z ltac:(lia)). rewrite H in *; done.
Qed.
Lemma is_u32_high z n : is_u32 z → 32 <= n → Z.testbit z n = false.
Proof.
  intros Hz Hn. destruct (Z.testbit z n) eqn:E; [|done].
  apply u32_bits_small in E; [lia|done].
Qed.
Lemma is_u32_lor a b : is_u32 a → is_u32 b → is_u32 (Z.lor a b).
Proof.
  intros Ha Hb. apply is_u32_bits; [apply Z.lor_nonneg; split; [apply Ha|apply Hb]|].
  intros n Hn. rewrite Z.lor_spec, !is_u32_high; done.
Qed.
Lemma is_u32_land a b : is_u32 a → 0 <= b → is_u32 (Z.land a b).
Proof.
  intros Ha Hb. apply is_u32_bits; [apply Z.land_nonneg; by right|].
  intros n Hn. rewrite Z.land_spec, is_u32_high; done.
Qed.
Lemma is_u32_ldiff a b : is_u32 a → 0 <= b → is_u32 (Z.ldiff a b).
Proof.
  intros Ha Hb. apply is_u32_bits; [apply Z.ldiff_nonneg; left; apply Ha|].
  intros n Hn. rewrite Z.ldiff_spec, is_u32_high; done.
Qed.
Lemma is_u32_bit k : 0 <= k < 32 → is_u32 (Z.shiftl 1 k).
Proof.
  intros Hk. rewrite Z.shiftl_1_l. split; [lia|]. apply Z.pow_lt_mono_r; lia.
Qed.
Lemma bit32_Ok k : 0 <= k < 32 → bit32 k = Ok (Z.shiftl 1 k).
Proof.
  intros. unfold bit32. by rewrite (proj2 (Z.leb_le 0 k)), (proj2 (Z.ltb_lt k 32)) by lia.
Qed.
Lemma testbit_bit k n : 0 <= k → Z.testbit (Z.shiftl 1 k) n = (n =? k).
Proof. intros. rewrite Z.shiftl_1_l, Z.pow2_bits_eqb by done. apply Z.eqb_sym. Qed.

Lemma truth_flag b : truth (flag b) = b.
Proof. by destruct b. Qed.

Lemma truth_land_bit z k : 0 <= k → truth (Z.land z (Z.shiftl 1 k)) = Z.testbit z k.
Proof.
  intros Hk. destruct (Z.testbit z k) eqn:E.
  - unfold truth. apply negb_true_iff, Z.eqb_neq. intros H.
    assert (Z.testbit (Z.land z (Z.shiftl 1 k)) k = false) by (rewrite H; apply Z.bits_0).
    rewrite Z.land_spec, E, testbit_bit, Z.eqb_refl in *; done.
  - unfold truth. apply negb_false_iff, Z.eqb_eq, Z.bits_inj'. intros n Hn.
    rewrite Z.land_spec, testbit_bit, Z.bits_0 by done.
    destruct (Z.eqb_spec n k) as [->|]; [by rewrite E|apply andb_false_r].
Qed.

(** Bounds of bitwise operations. *)
Lemma land_low v k : 0 <= k → 0 <= Z.land v (2 ^ k - 1) < 2 ^ k.
Proof. intros. rewrite land_mod by done. apply Z.mod_pos_bound. lia. Qed.
Lemma land_le v m : 0 <= m → 0 <= Z.land v m <= m.
Proof.
  intros Hm. split; [apply Z.land_nonneg; by right|].
  assert (Z.ldiff (Z.land v m) m = 0) as H.
  { apply Z.bits_inj'. intros n _. rewrite Z.ldiff_spec, Z.land_spec, Z.bits_0. by destruct (Z.testbit v n), (Z.testbit m n). }
  apply Z.sub_nocarry_ldiff in H. pose proof (proj2 (Z.ldiff_nonneg m (Z.land v m)) (or_introl Hm)). lia.
Qed.
Lemma lor_le a b : 0 <= a → 0 <= b → 0 <= Z.lor a b <= a + b.
Proof.
  intros Ha Hb. split; [by apply Z.lor_nonneg|]. rewrite <- Z.add_lor_land. pose proof (proj2 (Z.land_nonneg a b) (or_introl Ha)). lia.
Qed.

(** Accesses within the bounds of an array. *)
Lemma aread_in {A} (l : list A) i : 0 <= i < Z.of_nat (length l) → ∃ a, aread l i = Ok a.
Proof.
  intros Hi. destruct (lookup_lt_is_Some_2 l (Z.to_nat i) ltac:(lia)) as [a Ha].
  exists a. apply aread_lookup. split; [lia|done].
Qed.
Lemma awrite_in {A} (l : list A) i a :
  0 <= i < Z.of_nat (length l) → awrite l i a = Ok (<[Z.to_nat i := a]> l).
Proof. intros Hi. rewrite <- (Z2Nat.id i) at 1 by lia. apply awrite_nat. lia. Qed.

(** ** Ring buffers

    An array of [m] cells used as a ring holds the queue [q] from the position [pos] on. *)

Definition ring_holds {A} (m : Z) (f : list A) (pos : Z) (q : list A) : Prop :=
  ∀ k x, q !! k = Some x → f !! Z.to_nat ((pos + Z.of_nat k) mod m) = Some x.

Lemma mod_differ m a b : 0 < b - a < m → a mod m ≠ b mod m.
Proof.
  intros H E. assert ((m | b - a)) as Hd. { apply Z.mod_divide; [lia|]. rewrite Zminus_mod, E, Z.sub_diag. apply Z.mod_0_l. lia. }
  apply Z.divide_pos_le in Hd; lia.
Qed.

(** Adding a word to a ring that is not full. *)
Lemma ring_put {A} m pos (q f : list A) v :
  Z.of_nat (length f) = m → Z.of_nat (length q) < m → ring_holds m f pos q →
  ring_holds m (<[Z.to_nat ((pos + Z.of_nat (length q)) mod m) := v]> f) pos (q ++ [v]).
Proof.
  intros Hf Hn Hq k x Hk. pose proof (Z.mod_pos_bound (pos + Z.of_nat (length q)) m ltac:(lia)).
  pose proof (Z.mod_pos_bound (pos + Z.of_nat k) m ltac:(lia)).
  apply lookup_app_Some in Hk as [Hk|[Hge Hk]].
  - pose proof (lookup_lt_Some _ _ _ Hk). rewrite list_lookup_insert_ne; [by apply Hq|].
    pose proof (mod_differ m (pos + Z.of_nat k) (pos + Z.of_nat (length q))). lia.
  - apply list_lookup_singleton_Some in Hk as [Hk0 <-]. replace k with (length q) by lia.
    apply list_lookup_insert_eq. lia.
Qed.
Lemma ring_head {A} m pos (q f : list A) x : 0 < m → ring_holds m f pos (x :: q) → aread f (pos mod m) = Ok x.
Proof.
  intros Hm Hq. pose proof (Hq O x eq_refl) as H0. rewrite Z.add_0_r in H0. apply aread_lookup. split; [|done].
  apply Z.mod_pos_bound. lia.
Qed.
Lemma ring_tail {A} m pos (q f : list A) x : ring_holds m f pos (x :: q) → ring_holds m f ((pos + 1) mod m) q.
Proof.
  intros Hq k y Hk. rewrite Zplus_mod_idemp_l. rewrite <- (Hq (S k) y Hk). do 2 f_equal. f_equal. lia.
Qed.
Lemma ring_mod {A} m pos (q f : list A) : ring_holds m f pos q ↔ ring_holds m f (pos mod m) q.
Proof. by split; intros Hq k y Hk; pose proof (Hq k y Hk) as H; rewrite Zplus_mod_idemp_l in *. Qed.
Lemma ring_empty {A} m pos (f : list A) : ring_holds m f pos [].
Proof. by intros k x Hk. Qed.

(** An offset in the window of registers from [lo] to [hi], 4 bytes each. *)
Definition in_window (lo hi offset : Z) : bool := (lo <=? offset) && (offset <? hi).

Lemma window_index lo hi offset : in_window lo hi offset = true → 0 <= Z.shiftr (offset - lo) 2 < (hi - lo + 3) / 4.
Proof.
  unfold in_window. intros H. bool_to_prop. rewrite Z.shiftr_div_pow2 by lia.
  change (2 ^ 2) with 4. split; [apply Z.div_pos; lia|].
  apply Z.div_lt_upper_bound; [lia|]. pose proof (Z.mod_pos_bound (hi - lo + 3) 4).
  pose proof (Z.div_mod (hi - lo + 3) 4). lia.
Qed.
Lemma window_not_reg lo hi offset k :
  in_window lo hi offset = true → 0 <= lo → 4 * k + 4 <= lo → (Z.shiftr offset 2 =? k) = false.
Proof.
  unfold in_window. intros H ? ?. bool_to_prop. rewrite Z.shiftr_div_pow2 by lia. change (2 ^ 2) with 4.
  apply Z.eqb_neq. intros <-. pose proof (Z.div_mod offset 4). pose proof (Z.mod_pos_bound offset 4). lia.
Qed.

End bits.

#[export] Hint Resolve is_u32_lor is_u32_land is_u32_ldiff is_u32_bit : varsim.
