(* ===== verification/LibC.v ===== *)
(** * LibC: the C library functions the QObject code calls

    [strtoll], [strtod], [isspace], [qemu_isxdigit] and the conversions of
    [snprintf] the code uses ("%lld", "%04X", "%f"), as functions on byte lists.
    A [double] is an IEEE 754 binary64 value ([spec_float] at precision 53 and
    maximal exponent 1024); [strtod] is given for the decimal syntax, which is
    the only one the JSON lexer lets through. *)

From S2P Require Import Prelude.
From Stdlib Require Import SpecFloat.
Local Open Scope Z_scope.

(** ** Characters *)

Definition is_digit (c : byte) : bool := (48 <=? bz c) && (bz c <=? 57).
Definition is_lower_af (c : byte) : bool := (97 <=? bz c) && (bz c <=? 102).
Definition is_upper_af (c : byte) : bool := (65 <=? bz c) && (bz c <=? 70).
Definition qemu_isxdigit (c : byte) : bool := is_digit c || is_lower_af c || is_upper_af c.
Definition is_space (c : byte) : bool := (bz c =? 32) || ((9 <=? bz c) && (bz c <=? 13)).

Definition digit_char (d : Z) : byte := zb (48 + d).
Definition hex_char (d : Z) : byte := if d <? 10 then zb (48 + d) else zb (55 + d).

(** ** "%lld" *)

(** The digits of [n >= 0], most significant first, in front of [acc];
    [fuel] bounds their number. *)
Fixpoint dec_digits (fuel : nat) (n : Z) (acc : bytes) : bytes :=
  match fuel with
  | O => acc
  | S fuel =>
      let acc := digit_char (n mod 10) :: acc in
      if n <? 10 then acc else dec_digits fuel (n / 10) acc
  end.

(** 20 digits are enough for the 64-bit integers. *)
Definition print_lld (z : Z) : bytes :=
  if z <? 0 then "-"%byte :: dec_digits 20 (- z) [] else dec_digits 20 z [].

(** ** "%04X" of an [unsigned int] *)

Fixpoint hex_digits (fuel : nat) (n : Z) (acc : bytes) : bytes :=
  match fuel with
  | O => acc
  | S fuel =>
      let acc := hex_char (n mod 16) :: acc in
      if n <? 16 then acc else hex_digits fuel (n / 16) acc
  end.

Definition print_04X (z : Z) : bytes :=
  let h := hex_digits 8 (u32 z) [] in
  replicate (4 - length h) "0"%byte ++ h.

(** [snprintf(buf, size, ...)]: at most [size - 1] characters are kept. *)
Definition snprintf (size : nat) (text : bytes) : bytes := take (size - 1) text.

(** ** [strtoll(s, NULL, 10)] *)

Definition LLONG_MAX : Z := 2 ^ 63 - 1.
Definition LLONG_MIN : Z := - 2 ^ 63.

Fixpoint skip_spaces (s : bytes) : bytes :=
  match s with
  | c :: s' => if is_space c then skip_spaces s' else s
  | [] => []
  end.

Fixpoint read_digits (acc : Z) (s : bytes) : Z :=
  match s with
  | c :: s => if is_digit c then read_digits (acc * 10 + (bz c - 48)) s else acc
  | [] => acc
  end.

Definition strtoll (s : bytes) : Z :=
  let v :=
    match skip_spaces (c_str s) with
    | "-"%byte :: s => - read_digits 0 s
    | "+"%byte :: s => read_digits 0 s
    | s => read_digits 0 s
    end in
  Z.max LLONG_MIN (Z.min LLONG_MAX v).

(** ** [double]: [strtod] and "%f" *)

Definition double := spec_float.

(** The leading digits of [s] as a number, how many there are, and the rest. *)
Fixpoint take_digits (acc : Z) (n : Z) (s : bytes) : Z * Z * bytes :=
  match s with
  | c :: s' => if is_digit c then take_digits (acc * 10 + (bz c - 48)) (n + 1) s' else (acc, n, s)
  | [] => (acc, n, [])
  end.

Definition read_exponent (s : bytes) : Z :=
  match s with
  | ("e" | "E")%byte :: "-"%byte :: s => - read_digits 0 s
  | ("e" | "E")%byte :: "+"%byte :: s => read_digits 0 s
  | ("e" | "E")%byte :: s => read_digits 0 s
  | _ => 0
  end.

(** The double nearest to [d * 10 ^ e], ties to even. *)
Definition double_of_decimal (neg : bool) (d e : Z) : double :=
  match d with
  | Zpos m =>
      match e with
      | Zneg k =>
          SFdiv 53 1024 (S754_finite neg m 0) (S754_finite false (Z.to_pos (10 ^ Zpos k)) 0)
      | _ => binary_normalize 53 1024 ((if neg then - d else d) * 10 ^ e) 0 neg
      end
  | _ => S754_zero neg
  end.

Definition strtod (s : bytes) : double :=
  let '(neg, s) := match c_str s with "-"%byte :: s => (true, s) | s => (false, s) end in
  let '(ip, _, s) := take_digits 0 0 s in
  let '(d, k, s) := match s with "."%byte :: s => take_digits ip 0 s | s => (ip, 0, s) end in
  double_of_decimal neg d (read_exponent s - k).

(** [num / den] rounded to an integer, ties to even. *)
Definition round_half_even (num den : Z) : Z :=
  let q := num / den in
  let r := num mod den in
  if 2 * r <? den then q
  else if den <? 2 * r then q + 1
  else if Z.even q then q else q + 1.

Definition print_f (x : double) : bytes :=
  let sgn (b : bool) := if b then bs "-" else [] in
  let fixed (s : bool) (micros : Z) :=
    let frac := dec_digits 6 (micros mod 1000000) [] in
    sgn s ++ dec_digits 400 (micros / 1000000) [] ++ bs "." ++
      replicate (6 - length frac) "0"%byte ++ frac in
  match x with
  | S754_zero s => fixed s 0
  | S754_infinity s => sgn s ++ bs "inf"
  | S754_nan => bs "nan"
  | S754_finite s m e =>
      fixed s (match e with
               | Zneg k => round_half_even (Zpos m * 1000000) (2 ^ Zpos k)
               | _ => Zpos m * 2 ^ e * 1000000
               end)
  end.

(** ** Facts *)

Lemma bz_digit_char d : 0 <= d < 10 → bz (digit_char d) = 48 + d.
Proof. intros. apply bz_zb. lia. Qed.

Lemma digit_char_is_digit d : 0 <= d < 10 → is_digit (digit_char d) = true.
Proof. intros. unfold is_digit. rewrite bz_digit_char by done. lia. Qed.

Lemma read_digits_dec fuel n acc :
  0 <= n < 10 ^ Z.of_nat fuel → read_digits 0 (dec_digits fuel n acc) = read_digits n acc.
Proof.
  revert n acc. induction fuel as [|fuel IH]; intros n acc Hn.
  - simpl in *. by replace n with 0 by lia.
  - cbn [dec_digits]. pose proof (Z.mod_pos_bound n 10 ltac:(lia)).
    destruct (Z.ltb_spec n 10).
    + cbn [read_digits]. rewrite digit_char_is_digit, bz_digit_char by lia.
      f_equal. rewrite Z.mod_small by lia. lia.
    + rewrite IH.
      * cbn [read_digits]. rewrite digit_char_is_digit, bz_digit_char by lia.
        f_equal. pose proof (Z.div_mod n 10). lia.
      * split; [apply Z.div_pos; lia|]. apply Z.div_lt_upper_bound; [lia|].
        rewrite Nat2Z.inj_succ, Z.pow_succ_r in Hn; lia.
Qed.

Lemma dec_digits_Forall fuel n acc :
  0 <= n → Forall (λ c, is_digit c = true) acc → Forall (λ c, is_digit c = true) (dec_digits fuel n acc).
Proof.
  revert n acc. induction fuel as [|fuel IH]; intros n acc Hn Hacc; [done|].
  cbn [dec_digits]. pose proof (Z.mod_pos_bound n 10 ltac:(lia)).
  assert (Forall (λ c, is_digit c = true) (digit_char (n mod 10) :: acc)).
  { constructor; [by apply digit_char_is_digit | done]. }
  destruct (n <? 10); [done|]. apply IH; [apply Z.div_pos; lia | done].
Qed.

(** The first digit of a positive number is not a zero. *)
Lemma dec_digits_head fuel n acc :
  0 < n < 10 ^ Z.of_nat fuel →
  ∃ d rest, 1 <= d < 10 ∧ dec_digits fuel n acc = digit_char d :: rest.
Proof.
  revert n acc. induction fuel as [|fuel IH]; intros n acc Hn; [simpl in Hn; lia|].
  cbn [dec_digits]. destruct (Z.ltb_spec n 10).
  - exists n, acc. rewrite Z.mod_small by lia. split; [lia|done].
  - apply IH. split.
    + apply Z.div_str_pos. lia.
    + apply Z.div_lt_upper_bound; [lia|]. rewrite Nat2Z.inj_succ, Z.pow_succ_r in Hn; lia.
Qed.

Lemma digits_no_nul s : Forall (λ c, is_digit c = true) s → no_nul s.
Proof. intros H Hin. rewrite Forall_forall in H. by specialize (H _ Hin). Qed.

Lemma print_lld_no_nul z : no_nul (print_lld z).
Proof.
  unfold print_lld. destruct (Z.ltb_spec z 0).
  - intros [?|Hin]%elem_of_cons; [discriminate|].
    eapply digits_no_nul; [|done]. apply dec_digits_Forall; [lia|constructor].
  - apply digits_no_nul, dec_digits_Forall; [lia|constructor].
Qed.

Lemma skip_spaces_digit c s : is_digit c = true → skip_spaces (c :: s) = c :: s.
Proof.
  intros H. simpl. assert (is_space c = false) as ->; [|done].
  unfold is_digit, is_space in *. lia.
Qed.

(** A string of digits is neither spaces nor a sign to [strtoll]. *)
Lemma strtoll_digits s :
  Forall (λ c, is_digit c = true) s →
  strtoll s = Z.max LLONG_MIN (Z.min LLONG_MAX (read_digits 0 s)).
Proof.
  intros Hs. unfold strtoll. rewrite c_str_no_nul by by apply digits_no_nul.
  destruct s as [|c s]; [done|]. apply Forall_cons in Hs as [Hc _].
  rewrite skip_spaces_digit by done. destruct c; try discriminate Hc; reflexivity.
Qed.

(** "%lld" and [strtoll] are inverse on the 64-bit integers. *)
Lemma strtoll_print_lld z : is_s64 z → strtoll (print_lld z) = z.
Proof.
  unfold is_s64. intros Hz. pose proof (print_lld_no_nul z) as Hn. unfold print_lld in *.
  destruct (Z.ltb_spec z 0).
  - unfold strtoll. rewrite c_str_no_nul by done.
    change (skip_spaces ("-"%byte :: dec_digits 20 (- z) [])) with ("-"%byte :: dec_digits 20 (- z) []).
    cbv iota beta. rewrite read_digits_dec by lia. simpl read_digits.
    unfold LLONG_MIN, LLONG_MAX. lia.
  - rewrite strtoll_digits by (apply dec_digits_Forall; [lia|constructor]).
    rewrite read_digits_dec by lia. simpl read_digits. unfold LLONG_MIN, LLONG_MAX. lia.
Qed.

Lemma dec_digits_length fuel n acc : (length (dec_digits fuel n acc) ≤ fuel + length acc)%nat.
Proof.
  revert n acc. induction fuel as [|fuel IH]; intros n acc; simpl; [lia|].
  destruct (n <? 10); simpl; [lia|]. etrans; [apply IH|]. simpl. lia.
Qed.

Lemma print_lld_length z : (length (print_lld z) ≤ 21)%nat.
Proof.
  unfold print_lld. destruct (z <? 0).
  - pose proof (dec_digits_length 20 (- z) []). cbn [length] in *. lia.
  - pose proof (dec_digits_length 20 z []). cbn [length] in *. lia.
Qed.

Example print_f_half : print_f (strtod (bs "-0.5")) = bs "-0.500000".
Proof. vm_compute. reflexivity. Qed.
Example print_f_exp : print_f (strtod (bs "12.5e2")) = bs "1250.000000".
Proof. vm_compute. reflexivity. Qed.
