(* ===== verification/QString.v ===== *)
(** * QString: the growable string buffer of qstring.c

    A [QString] owns a heap buffer of [capacity + 1] bytes that holds [length]
    characters and a terminating NUL.  The buffer is modelled as the array of
    its cells, a cell that was never written being [None]; every write is
    checked against the end of the buffer, every read against unwritten cells.

    The theorem shows that no sequence of appends writes outside the buffer or
    reads an unwritten cell, and that the C string a client sees is the
    concatenation of what it appended: the clients (json-lexer.c, json-parser.c,
    qjson.c) are therefore modelled with a [QString] being its contents. *)

From S2P Require Import Prelude LibC.
Local Open Scope Z_scope.

Record QString := mkQString {
  qs_string : list (option byte);
  qs_length : Z;
  qs_capacity : Z;
}.

(** [qemu_malloc] and [qemu_realloc]: fresh cells are unwritten. *)
Definition qemu_malloc (size : Z) : list (option byte) := replicate (Z.to_nat size) None.
Definition qemu_realloc (buf : list (option byte)) (size : Z) : list (option byte) :=
  take (Z.to_nat size) buf ++ replicate (Z.to_nat size - length buf) None.

(** [memcpy(buf + off, src, strlen(src))] and [buf[off] = c]. *)
Definition memcpy_to (buf : list (option byte)) (off : Z) (src : bytes) : res (list (option byte)) :=
  if (0 <=? off) && (off + Z.of_nat (length src) <=? Z.of_nat (length buf))
  then Ok (take (Z.to_nat off) buf ++ (Some <$> src) ++ drop (Z.to_nat off + length src) buf)
  else Err Out_of_bounds.

(** [size] bytes of the array [str] from [start] on. *)
Definition read_range (str : bytes) (start size : Z) : res bytes :=
  if (0 <=? start) && (0 <=? size) && (start + size <=? Z.of_nat (length str))
  then Ok (take (Z.to_nat size) (drop (Z.to_nat start) str)) else Err Out_of_bounds.

(** The array a string literal or a C string occupies, with its NUL. *)
Definition c_array (s : bytes) : bytes := c_str s ++ [x00].

Definition strlen (s : bytes) : Z := Z.of_nat (length (c_str s)).

Definition qstring_from_substr (str : bytes) (start end_ : Z) : res QString :=
  let len := u64 (s32 (end_ - start + 1)) in
  let buf := qemu_malloc (u64 (len + 1)) in
  src ← read_range str start len;
  buf ← memcpy_to buf 0 src;
  buf ← awrite buf len (Some x00);
  Ok (mkQString buf len len).

Definition qstring_from_str (str : bytes) : res QString :=
  qstring_from_substr (c_array str) 0 (s32 (u64 (strlen str - 1))).

Definition qstring_new : res QString := qstring_from_str [].

Definition capacity_increase (q : QString) (len : Z) : QString :=
  if qs_capacity q <? u64 (qs_length q + len) then
    let capacity := u64 (qs_capacity q + len) in
    let capacity := u64 (capacity * 2) in
    mkQString (qemu_realloc (qs_string q) (u64 (capacity + 1))) (qs_length q) capacity
  else q.

Definition qstring_append (q : QString) (str : bytes) : res QString :=
  let len := strlen str in
  let q := capacity_increase q len in
  buf ← memcpy_to (qs_string q) (qs_length q) (c_str str);
  let length' := u64 (qs_length q + len) in
  buf ← awrite buf length' (Some x00);
  Ok (mkQString buf length' (qs_capacity q)).

Definition qstring_append_int (q : QString) (value : Z) : res QString :=
  qstring_append q (snprintf 32 (print_lld value)).

Definition qstring_append_chr (q : QString) (c : Z) : res QString :=
  let q := capacity_increase q 1 in
  buf ← awrite (qs_string q) (qs_length q) (Some (zb c));
  let length' := u64 (qs_length q + 1) in
  buf ← awrite buf length' (Some x00);
  Ok (mkQString buf length' (qs_capacity q)).

(** [qstring_get_str] returns the buffer; what the caller reads from it is the
    C string up to the first NUL. *)
Fixpoint read_c_string (buf : list (option byte)) : res bytes :=
  match buf with
  | [] => Err Out_of_bounds
  | None :: _ => Err Uninit_read
  | Some c :: buf =>
      if decide (c = x00) then Ok [] else s ← read_c_string buf; Ok (c :: s)
  end.

Definition qstring_get_str (q : QString) : res bytes := read_c_string (qs_string q).

(** ** The invariant: [q] holds the characters [s] *)

Record holds (q : QString) (s : bytes) : Prop := {
  h_length : qs_length q = Z.of_nat (length s);
  h_capacity : qs_length q <= qs_capacity q <= 4 * qs_length q;
  h_bound : qs_length q < 2 ^ 60;
  h_buf : ∃ rest, qs_string q = (Some <$> s) ++ Some x00 :: rest ∧
            Z.of_nat (length (qs_string q)) = qs_capacity q + 1;
}.

Lemma memcpy_end (s : bytes) (tail : list (option byte)) (src : bytes) :
  (length src ≤ length tail)%nat →
  memcpy_to ((Some <$> s) ++ tail) (Z.of_nat (length s)) src =
  Ok ((Some <$> (s ++ src)) ++ drop (length src) tail).
Proof.
  intros H. unfold memcpy_to.
  assert (((0 <=? Z.of_nat (length s)) && (Z.of_nat (length s) + Z.of_nat (length src) <=?
    Z.of_nat (length ((Some <$> s) ++ tail)))) = true) as ->.
  { apply andb_true_intro. rewrite length_app, length_fmap, Nat2Z.inj_add. split; apply Z.leb_le; lia. }
  rewrite Nat2Z.id, take_app_length' by by rewrite length_fmap.
  rewrite <- drop_drop, drop_app_length' by by rewrite length_fmap.
  by rewrite fmap_app, <- app_assoc.
Qed.

Lemma awrite_end (s : bytes) (tail : list (option byte)) c :
  (0 < length tail)%nat →
  awrite ((Some <$> s) ++ tail) (Z.of_nat (length s)) (Some c) =
  Ok ((Some <$> s) ++ Some c :: drop 1 tail).
Proof.
  intros H. rewrite awrite_nat by (rewrite length_app, length_fmap; lia).
  f_equal. replace (length s) with (length (Some <$> s) + 0)%nat by (rewrite length_fmap; lia).
  rewrite insert_app_r. f_equal. by destruct tail; simpl in *; [lia|].
Qed.

(** After [capacity_increase] the buffer has room for [len] more characters. *)
Lemma capacity_increase_room q s len :
  holds q s → 0 <= len → qs_length q + len < 2 ^ 60 →
  let q' := capacity_increase q len in
  qs_length q' = Z.of_nat (length s) ∧
  qs_length q + len <= qs_capacity q' <= 4 * (qs_length q + len) ∧
  ∃ tail, qs_string q' = (Some <$> s) ++ tail ∧
    Z.of_nat (length s + length tail)%nat = qs_capacity q' + 1.
Proof.
  intros [Hl Hc Hb (rest & Hr & Hn)] Hlen Hsum. unfold capacity_increase.
  rewrite (u64_small (qs_length q + len)) by lia.
  assert (length (qs_string q) = (length s + S (length rest))%nat) as Hlr
    by (rewrite Hr, length_app, length_fmap; done).
  destruct (Z.ltb_spec (qs_capacity q) (qs_length q + len)); cbn [qs_length qs_capacity qs_string].
  - rewrite !(u64_small (qs_capacity q + len)), !(u64_small ((qs_capacity q + len) * 2)) by lia.
    rewrite u64_small by lia. split; [done|]. split; [lia|].
    exists (Some x00 :: rest ++ replicate (Z.to_nat ((qs_capacity q + len) * 2 + 1) - length (qs_string q)) None).
    split.
    + unfold qemu_realloc. rewrite take_ge by lia. rewrite Hr at 1. by rewrite <- app_assoc.
    + simpl. rewrite length_app, length_replicate. lia.
  - split; [done|]. split; [lia|]. exists (Some x00 :: rest). split; [done|]. simpl. lia.
Qed.

Lemma qstring_append_holds q s str :
  holds q s → qs_length q + strlen str < 2 ^ 60 →
  ∃ q', qstring_append q str = Ok q' ∧ holds q' (s ++ c_str str).
Proof.
  intros H Hsum. unfold strlen in *.
  destruct (capacity_increase_room q s (Z.of_nat (length (c_str str))) H ltac:(lia) Hsum)
    as (Hl & Hc & tail & Hs & Hn).
  unfold qstring_append, strlen. rewrite Hs, Hl, memcpy_end by (pose proof (h_length _ _ H); lia).
  pose proof (h_length _ _ H) as Hq. simpl.
  rewrite u64_small by lia.
  replace (Z.of_nat (length s) + Z.of_nat (length (c_str str))) with (Z.of_nat (length (s ++ c_str str)))
    by (rewrite length_app; lia).
  rewrite awrite_end by (rewrite length_drop; lia). simpl. eexists. split; [done|].
  rewrite length_app in *. split; cbn [qs_length qs_capacity qs_string]; try lia.
  - rewrite length_app. lia.
  - eexists. split; [done|]. rewrite !length_app, length_fmap. simpl.
    rewrite !length_drop, length_app. lia.
Qed.

Lemma qstring_append_chr_holds q s c :
  holds q s → qs_length q + 1 < 2 ^ 60 →
  ∃ q', qstring_append_chr q c = Ok q' ∧ holds q' (s ++ [zb c]).
Proof.
  intros H Hsum.
  destruct (capacity_increase_room q s 1 H ltac:(lia) Hsum) as (Hl & Hc & tail & Hs & Hn).
  unfold qstring_append_chr. pose proof (h_length _ _ H) as Hq.
  rewrite Hs, Hl, awrite_end by lia. simpl. rewrite u64_small by lia.
  replace ((Some <$> s) ++ Some (zb c) :: drop 1 tail)
    with ((Some <$> (s ++ [zb c])) ++ drop 1 tail) by by rewrite fmap_app, <- app_assoc.
  replace (Z.of_nat (length s) + 1) with (Z.of_nat (length (s ++ [zb c])))
    by (rewrite length_app; simpl; lia).
  rewrite awrite_end by (rewrite length_drop; lia). simpl. eexists. split; [done|].
  rewrite length_app in *. simpl in *.
  split; cbn [qs_length qs_capacity qs_string]; rewrite ?length_app; simpl; try lia.
  eexists. split; [done|]. rewrite ?length_app, ?length_fmap, ?length_app. simpl.
  rewrite !length_drop. lia.
Qed.

Lemma read_c_string_holds s rest :
  read_c_string ((Some <$> s) ++ Some x00 :: rest) = Ok (c_str s).
Proof.
  induction s as [|c s IH]; csimpl; [done|]. case_decide; [done|]. by rewrite IH.
Qed.

Lemma qstring_get_str_holds q s : holds q s → qstring_get_str q = Ok (c_str s).
Proof.
  intros [_ _ _ (rest & Hr & _)]. unfold qstring_get_str. rewrite Hr. apply read_c_string_holds.
Qed.

Lemma qstring_new_holds : ∃ q, qstring_new = Ok q ∧ holds q [].
Proof.
  eexists. split; [vm_compute; reflexivity|]. split; cbn; try lia. by exists [].
Qed.

(** ** Any sequence of appends *)

Inductive str_op :=
| Append (s : bytes)
| Append_int (z : Z)
| Append_chr (c : Z).

Definition run_str_op (q : QString) (op : str_op) : res QString :=
  match op with
  | Append s => qstring_append q s
  | Append_int z => qstring_append_int q z
  | Append_chr c => qstring_append_chr q c
  end.

Fixpoint run_str_ops (ops : list str_op) (q : QString) : res QString :=
  match ops with
  | [] => Ok q
  | op :: ops => q' ← run_str_op q op; run_str_ops ops q'
  end.

(** What an operation appends: "%lld" of a 64-bit integer has at most 20
    characters, so the [num[32]] of [qstring_append_int] does not cut it. *)
Definition op_text (op : str_op) : bytes :=
  match op with
  | Append s => c_str s
  | Append_int z => print_lld z
  | Append_chr c => [zb c]
  end.

Lemma snprintf_lld z : snprintf 32 (print_lld z) = print_lld z.
Proof. unfold snprintf. apply take_ge. pose proof (print_lld_length z). lia. Qed.

Lemma run_str_op_holds q s op :
  holds q s → qs_length q + Z.of_nat (length (op_text op)) < 2 ^ 60 →
  ∃ q', run_str_op q op = Ok q' ∧ holds q' (s ++ op_text op).
Proof.
  intros H Hb. destruct op as [t|z|c]; simpl in *.
  - by apply qstring_append_holds.
  - unfold qstring_append_int. rewrite snprintf_lld.
    destruct (qstring_append_holds q s (print_lld z) H) as (q' & ? & Hq').
    + unfold strlen. by rewrite c_str_no_nul by apply print_lld_no_nul.
    + exists q'. by rewrite c_str_no_nul in Hq' by apply print_lld_no_nul.
  - by apply qstring_append_chr_holds.
Qed.

Lemma run_str_ops_holds ops q s :
  holds q s →
  qs_length q + Z.of_nat (length (concat (op_text <$> ops))) < 2 ^ 60 →
  ∃ q', run_str_ops ops q = Ok q' ∧ holds q' (s ++ concat (op_text <$> ops)).
Proof.
  revert q s. induction ops as [|op ops IH]; intros q s H Hb; csimpl in *.
  - exists q. by rewrite app_nil_r.
  - rewrite length_app in Hb. destruct (run_str_op_holds q s op H ltac:(lia)) as (q' & -> & H').
    simpl. destruct (IH q' _ H') as (q'' & ? & H'').
    + rewrite (h_length _ _ H'), length_app. rewrite (h_length _ _ H) in Hb. lia.
    + exists q''. by rewrite app_assoc.
Qed.

(** Starting from [qstring_new], any sequence of [qstring_append],
    [qstring_append_int] and [qstring_append_chr] calls that appends fewer than
    2^60 characters succeeds without an access outside the buffer, keeps
    [length <= capacity <= 4 * length], and leaves a buffer from which
    [qstring_get_str] reads the concatenation of the appended texts (as a C
    string) with [length] its number of characters. *)
Theorem qstring_appends_concat (ops : list str_op) :
  let text := concat (op_text <$> ops) in
  Z.of_nat (length text) < 2 ^ 60 →
  ∃ q, (qstring_new ≫= run_str_ops ops) = Ok q ∧
    qstring_get_str q = Ok (c_str text) ∧
    qs_length q = Z.of_nat (length text) ∧
    qs_length q <= qs_capacity q <= 4 * qs_length q.
Proof.
  intros text Hb. destruct qstring_new_holds as (q0 & -> & H0). simpl.
  destruct (run_str_ops_holds ops q0 [] H0) as (q & -> & H).
  - rewrite (h_length _ _ H0). done.
  - exists q. split; [done|]. split; [by apply qstring_get_str_holds|].
    split; apply H.
Qed.

Lemma qstring_appends_concat_witness :
  ∃ q, (qstring_new ≫= run_str_ops [Append (bs "x = "); Append_int (-42); Append_chr 59]) = Ok q ∧
    qstring_get_str q = Ok (bs "x = -42;").
Proof.
  destruct (qstring_appends_concat [Append (bs "x = "); Append_int (-42); Append_chr 59])
    as (q & Hq & Hs & _).
  - vm_compute. reflexivity.
  - exists q. split; [exact Hq | exact Hs].
Defined.
