(* ===== verification/QDict.v ===== *)
(** * QDict: the hash table of qdict.c

    A [QDict] is an array of [QDICT_BUCKET_MAX] = 512 singly linked buckets of
    [QDictEntry] nodes and a [size] counter (qdict.h, qdict.c).  A bucket is the
    list of its entries, head first; a pointer to an entry is the node with the
    rest of its bucket behind it ([QDictEntry], the [next] link), so that
    [QLIST_NEXT] is a projection.  The file is generic in the type [V] of the
    stored [QObject]s; ownership of the objects is the caller's.

    The theorems show that, on tables that satisfy [qdict_wf], the operations
    implement a finite map ([qdict_map], a [gmap] from C strings), and that
    walking a dictionary with [qdict_first]/[qdict_next] visits what
    [qdict_iter] visits, in the same order. *)

From S2P Require Import Prelude.

Definition QDICT_BUCKET_MAX : Z := 512.

Record QDict (V : Type) := mkQDict {
  qdict_table : list (list (bytes * V));
  qdict_sz : Z;
}.
Arguments mkQDict {V} _ _.
Arguments qdict_table {V} _.
Arguments qdict_sz {V} _.

Record QDictEntry (V : Type) := mkQDictEntry {
  entry_key : bytes;
  entry_value : V;
  entry_next : list (bytes * V);
}.
Arguments mkQDictEntry {V} _ _ _.
Arguments entry_key {V} _.
Arguments entry_value {V} _.
Arguments entry_next {V} _.

(** [tdb_hash]: [i * 5 % 24] is computed on [unsigned], the sum and the final
    product wrap at 32 bits, the product with [strlen] at 64 and then 32. *)
Fixpoint tdb_hash_loop (name : bytes) (i value : Z) : Z :=
  match name with
  | [] => value
  | c :: name =>
      tdb_hash_loop name (u32 (i + 1))
        (u32 (value + Z.shiftl (bz c) (u32 (i * 5) mod 24)))
  end.

Definition tdb_hash (name : bytes) : Z :=
  let name := c_str name in
  let value := u32 (u64 (0x238F13AF * Z.of_nat (length name))) in
  u32 (1103515243 * tdb_hash_loop name 0 value + 12345).

Definition bucket_of (key : bytes) : nat := Z.to_nat (tdb_hash key mod QDICT_BUCKET_MAX).

Section QDict.
Context {V : Type}.
Implicit Types (d : QDict V) (key : bytes) (value : V) (l : list (bytes * V)).

Definition qdict_new : QDict V :=
  mkQDict (replicate (Z.to_nat QDICT_BUCKET_MAX) []) 0.

Definition alloc_entry key value : bytes * V := (c_str key, value).

Definition qdict_entry_value (e : QDictEntry V) : V := entry_value e.
Definition qdict_entry_key (e : QDictEntry V) : bytes := entry_key e.

(** The node a non-empty bucket (or the rest of one) starts with. *)
Definition first_entry l : option (QDictEntry V) :=
  match l with
  | [] => None
  | (k, v) :: rest => Some (mkQDictEntry k v rest)
  end.

Definition bucket d (i : nat) : list (bytes * V) := default [] (qdict_table d !! i).

Fixpoint find_in l key : option (QDictEntry V) :=
  match l with
  | [] => None
  | (k, v) :: rest =>
      if streq k key then Some (mkQDictEntry k v rest) else find_in rest key
  end.

Definition qdict_find d key (b : nat) : option (QDictEntry V) := find_in (bucket d b) key.

(** The bucket with the value of the first entry for [key] replaced. *)
Fixpoint replace_value l key value : list (bytes * V) :=
  match l with
  | [] => []
  | (k, v) :: rest =>
      if streq k key then (k, value) :: rest else (k, v) :: replace_value rest key value
  end.

Definition qdict_put_obj d key value : QDict V :=
  let b := bucket_of key in
  match qdict_find d key b with
  | Some _ => mkQDict (<[b := replace_value (bucket d b) key value]> (qdict_table d)) (qdict_sz d)
  | None => mkQDict (<[b := alloc_entry key value :: bucket d b]> (qdict_table d))
              (u64 (qdict_sz d + 1))
  end.

Definition qdict_get d key : option V := entry_value <$> qdict_find d key (bucket_of key).

Definition qdict_haskey d key : bool :=
  match qdict_find d key (bucket_of key) with None => false | Some _ => true end.

Definition qdict_size d : Z := qdict_sz d.

Definition qdict_iter {S} (iter : bytes → V → S → S) d (opaque : S) : S :=
  fold_left (λ s b, fold_left (λ s e, iter e.1 e.2 s) b s) (qdict_table d) opaque.

Fixpoint next_entry_in (buckets : list (list (bytes * V))) : option (QDictEntry V) :=
  match buckets with
  | [] => None
  | b :: rest => match b with [] => next_entry_in rest | _ => first_entry b end
  end.

Definition qdict_next_entry d (first_bucket : nat) : option (QDictEntry V) :=
  next_entry_in (drop first_bucket (qdict_table d)).

Definition qdict_first d : option (QDictEntry V) := qdict_next_entry d 0.

Definition qdict_next d (e : QDictEntry V) : option (QDictEntry V) :=
  match first_entry (entry_next e) with
  | Some ret => Some ret
  | None => qdict_next_entry d (S (bucket_of (entry_key e)))
  end.

(** The bucket without the first entry for [key] ([QLIST_REMOVE]). *)
Fixpoint remove_entry l key : list (bytes * V) :=
  match l with
  | [] => []
  | (k, v) :: rest => if streq k key then rest else (k, v) :: remove_entry rest key
  end.

Definition qdict_del d key : QDict V :=
  let b := bucket_of key in
  match qdict_find d key b with
  | Some _ => mkQDict (<[b := remove_entry (bucket d b) key]> (qdict_table d))
                (u64 (qdict_sz d - 1))
  | None => d
  end.

#[local] Arguments qdict_new : simpl never.

(** ** Abstraction and invariant *)

(** The entries in the order of a walk, and the finite map they stand for. *)
Definition qdict_entries d : list (bytes * V) := concat (qdict_table d).
Definition qdict_map d : gmap bytes V := list_to_map (qdict_entries d).

Record qdict_wf d : Prop := {
  wf_length : length (qdict_table d) = Z.to_nat QDICT_BUCKET_MAX;
  wf_hash : ∀ i b k v, qdict_table d !! i = Some b → (k, v) ∈ b → bucket_of k = i;
  wf_nodup : ∀ i b, qdict_table d !! i = Some b → NoDup b.*1;
  wf_no_nul : ∀ i b k v, qdict_table d !! i = Some b → (k, v) ∈ b → no_nul k;
  wf_size : qdict_sz d = u64 (Z.of_nat (length (qdict_entries d)));
}.

(** ** Lemmas on one bucket *)

Definition keys_ok l : Prop := ∀ k v, (k, v) ∈ l → no_nul k.

Lemma keys_ok_cons k v l : keys_ok ((k, v) :: l) ↔ no_nul k ∧ keys_ok l.
Proof. unfold keys_ok. set_solver. Qed.

Lemma streq_key k key : no_nul k → streq k key = bool_decide (k = c_str key).
Proof. intros. unfold streq. by rewrite (c_str_no_nul k). Qed.

Lemma find_in_map l key :
  keys_ok l → entry_value <$> find_in l key = (list_to_map l : gmap bytes V) !! c_str key.
Proof.
  induction l as [|[k v] l IH]; [done|]. rewrite keys_ok_cons. intros [Hk Hl]. simpl.
  rewrite streq_key by done. case_bool_decide as E.
  - by rewrite <- E, lookup_insert_eq.
  - rewrite lookup_insert_ne by done. auto.
Qed.

Lemma find_in_None l key :
  keys_ok l → find_in l key = None ↔ c_str key ∉ l.*1.
Proof.
  intros Hl. rewrite not_elem_of_list_to_map, <- find_in_map by done.
  destruct (find_in l key); simpl; naive_solver.
Qed.

Lemma replace_value_keys l key value : (replace_value l key value).*1 = l.*1.
Proof.
  induction l as [|[k v] l IH]; [done|]. simpl. destruct (streq k key); csimpl; [done|by rewrite IH].
Qed.

Lemma replace_value_map l key value :
  keys_ok l → find_in l key ≠ None →
  (list_to_map (replace_value l key value) : gmap bytes V) = <[c_str key := value]> (list_to_map l).
Proof.
  induction l as [|[k v] l IH]; [done|]. rewrite keys_ok_cons. intros [Hk Hl]. simpl.
  rewrite streq_key by done. case_bool_decide as E; simpl; intros H.
  - by rewrite <- E, insert_insert_eq.
  - rewrite IH by done. by rewrite insert_insert_ne by congruence.
Qed.

Lemma remove_entry_sublist l key : remove_entry l key `sublist_of` l.
Proof.
  induction l as [|[k v] l IH]; [done|]. simpl. destruct (streq k key).
  - by apply sublist_cons.
  - by apply sublist_skip.
Qed.

Lemma remove_entry_map l key :
  keys_ok l → NoDup l.*1 →
  (list_to_map (remove_entry l key) : gmap bytes V) = delete (c_str key) (list_to_map l).
Proof.
  induction l as [|[k v] l IH]; [simpl; by rewrite delete_empty|].
  rewrite keys_ok_cons. intros [Hk Hl]. simpl. rewrite NoDup_cons. intros [Hn Hd].
  rewrite streq_key by done. case_bool_decide as E; simpl.
  - rewrite <- E, delete_insert_eq, delete_id; [done|].
    by apply not_elem_of_list_to_map.
  - rewrite delete_insert_ne by congruence. by rewrite IH.
Qed.

Lemma remove_entry_length l key :
  find_in l key ≠ None → length l = S (length (remove_entry l key)).
Proof.
  induction l as [|[k v] l IH]; [done|]. simpl. destruct (streq k key); simpl; [done|].
  intros. by rewrite <- IH.
Qed.

(** ** Lemmas on the table *)

Lemma bucket_of_lt key : bucket_of key < Z.to_nat QDICT_BUCKET_MAX.
Proof.
  unfold bucket_of. apply Z2Nat.inj_lt.
  - apply Z.mod_pos_bound. done.
  - done.
  - apply Z.mod_pos_bound. done.
Qed.

Lemma bucket_of_c_str key : bucket_of (c_str key) = bucket_of key.
Proof.
  unfold bucket_of, tdb_hash. by rewrite (c_str_no_nul (c_str key)) by apply c_str_has_no_nul.
Qed.

Lemma table_bucket d key : qdict_wf d → qdict_table d !! bucket_of key = Some (bucket d (bucket_of key)).
Proof.
  intros H. unfold bucket.
  destruct (lookup_lt_is_Some_2 (qdict_table d) (bucket_of key)) as [b Hb].
  - rewrite (wf_length d H). apply bucket_of_lt.
  - by rewrite Hb.
Qed.

Lemma bucket_keys_ok d key : qdict_wf d → keys_ok (bucket d (bucket_of key)).
Proof. intros H k v Hin. eapply wf_no_nul; eauto using table_bucket. Qed.

Lemma bucket_nodup d key : qdict_wf d → NoDup (bucket d (bucket_of key)).*1.
Proof. intros H. eapply wf_nodup; eauto using table_bucket. Qed.

Lemma elem_of_entries d k v :
  qdict_wf d → (k, v) ∈ qdict_entries d ↔ (k, v) ∈ bucket d (bucket_of k).
Proof.
  intros H. unfold qdict_entries. rewrite list_elem_of_In, in_concat. split.
  - intros (b & Hb & Hkv). apply list_elem_of_In, list_elem_of_lookup in Hb as [i Hi].
    apply list_elem_of_In in Hkv.
    assert (bucket_of k = i) as <- by (eapply wf_hash; eauto).
    unfold bucket. by rewrite Hi.
  - intros Hin. exists (bucket d (bucket_of k)).
    split; [|by apply list_elem_of_In].
    apply list_elem_of_In, list_elem_of_lookup. exists (bucket_of k). by apply table_bucket.
Qed.

Lemma concat_keys_nodup (t : list (list (bytes * V))) n :
  (∀ i b, t !! i = Some b → NoDup b.*1) →
  (∀ i b k v, t !! i = Some b → (k, v) ∈ b → bucket_of k = n + i) →
  NoDup (concat t).*1.
Proof.
  revert n. induction t as [|b t IH]; intros n Hn Hh; simpl; [constructor|].
  rewrite fmap_app. apply NoDup_app. split; [by apply (Hn 0)|]. split.
  - intros k Hk Hk'. apply list_elem_of_fmap in Hk as ([k1 v1] & -> & Hk).
    apply list_elem_of_fmap in Hk' as ([k2 v2] & Heq & Hk'). simpl in *. subst k2.
    apply list_elem_of_In, in_concat in Hk' as (b' & Hb' & Hin).
    apply list_elem_of_In, list_elem_of_lookup in Hb' as [i Hi].
    apply list_elem_of_In in Hin.
    pose proof (Hh 0 b k1 v1 eq_refl Hk). pose proof (Hh (S i) b' k1 v2 Hi Hin). lia.
  - apply (IH (S n)); [intros i; apply (Hn (S i))|].
    intros i b' k v Hi Hin. rewrite (Hh (S i) b' k v Hi Hin). lia.
Qed.

Lemma qdict_entries_nodup d : qdict_wf d → NoDup (qdict_entries d).*1.
Proof. intros H. apply (concat_keys_nodup _ 0); [apply H|]. simpl. apply H. Qed.

Lemma qdict_map_bucket d k :
  qdict_wf d → qdict_map d !! k = (list_to_map (bucket d (bucket_of k)) : gmap bytes V) !! k.
Proof.
  intros H. apply option_eq. intros v. unfold qdict_map.
  rewrite <- !elem_of_list_to_map; eauto using qdict_entries_nodup, bucket_nodup.
  by apply elem_of_entries.
Qed.

(** Writing one bucket: the table afterwards. *)
Lemma table_insert_lookup d key (nb : list (bytes * V)) i b :
  qdict_wf d → <[bucket_of key := nb]> (qdict_table d) !! i = Some b →
  (i = bucket_of key ∧ b = nb) ∨ (i ≠ bucket_of key ∧ qdict_table d !! i = Some b).
Proof.
  intros H. rewrite list_lookup_insert. case_decide as E.
  - destruct E as [<- _]. naive_solver.
  - intros Hb. right. split; [|done]. intros ->. apply E. split; [done|].
    rewrite (wf_length d H). apply bucket_of_lt.
Qed.

Lemma entries_insert_length d key (nb : list (bytes * V)) :
  qdict_wf d →
  length (concat (<[bucket_of key := nb]> (qdict_table d))) + length (bucket d (bucket_of key)) =
  length (qdict_entries d) + length nb.
Proof.
  intros H. pose proof (table_bucket d key H) as Hb. unfold qdict_entries.
  revert Hb. generalize (qdict_table d) (bucket_of key) (bucket d (bucket_of key)).
  intros t n b. revert n. induction t as [|b' t IH]; intros [|n] Hb; simplify_eq/=.
  - rewrite !length_app. lia.
  - rewrite !length_app. specialize (IH n Hb). lia.
Qed.

Lemma qdict_wf_update d key (nb : list (bytes * V)) sz :
  qdict_wf d → NoDup nb.*1 → keys_ok nb →
  (∀ k v, (k, v) ∈ nb → bucket_of k = bucket_of key) →
  sz = u64 (Z.of_nat (length (concat (<[bucket_of key := nb]> (qdict_table d))))) →
  qdict_wf (mkQDict (<[bucket_of key := nb]> (qdict_table d)) sz).
Proof.
  intros H Hd Hk Hh Hs. split; simpl; [| | | |exact Hs].
  - rewrite length_insert. apply H.
  - intros i b k v Hi Hin. apply table_insert_lookup in Hi as [[-> ->]|[_ Hi]];
      [by eapply Hh | by eapply wf_hash | done].
  - intros i b Hi. apply table_insert_lookup in Hi as [[-> ->]|[_ Hi]];
      [done | by eapply wf_nodup | done].
  - intros i b k v Hi Hin. apply table_insert_lookup in Hi as [[-> ->]|[_ Hi]];
      [by eapply Hk | by eapply wf_no_nul | done].
Qed.

Lemma bucket_update d key (nb : list (bytes * V)) sz i :
  qdict_wf d →
  bucket (mkQDict (<[bucket_of key := nb]> (qdict_table d)) sz) i =
  if decide (i = bucket_of key) then nb else bucket d i.
Proof.
  intros H. unfold bucket. simpl. rewrite list_lookup_insert.
  destruct (decide (i = bucket_of key)) as [->|Hne].
  - rewrite decide_True; [done|]. split; [done|]. rewrite (wf_length d H). apply bucket_of_lt.
  - rewrite decide_False; [done|]. intros [? _]. congruence.
Qed.

Lemma bucket_hash d key k v :
  qdict_wf d → (k, v) ∈ bucket d (bucket_of key) → bucket_of k = bucket_of key.
Proof. intros H Hin. eapply wf_hash; eauto using table_bucket. Qed.

(** ** The operations implement a finite map *)

Lemma qdict_new_wf : qdict_wf qdict_new.
Proof.
  split; unfold qdict_new; cbn [qdict_table qdict_sz].
  - apply length_replicate.
  - intros i b k v [-> _]%lookup_replicate. set_solver.
  - intros i b [-> _]%lookup_replicate. constructor.
  - intros i b k v [-> _]%lookup_replicate. set_solver.
  - reflexivity.
Qed.

Lemma qdict_new_map : qdict_map qdict_new = ∅.
Proof. reflexivity. Qed.

Lemma qdict_find_map d key :
  qdict_wf d → entry_value <$> qdict_find d key (bucket_of key) = qdict_map d !! c_str key.
Proof.
  intros H. unfold qdict_find. rewrite find_in_map by by apply bucket_keys_ok.
  by rewrite qdict_map_bucket, bucket_of_c_str.
Qed.

Lemma qdict_find_None d key :
  qdict_wf d → qdict_find d key (bucket_of key) = None ↔ qdict_map d !! c_str key = None.
Proof.
  intros H. rewrite <- qdict_find_map by done. destruct (qdict_find _ _ _); naive_solver.
Qed.

Lemma qdict_put_wf d key value : qdict_wf d → qdict_wf (qdict_put_obj d key value).
Proof.
  intros H. unfold qdict_put_obj, qdict_find.
  pose proof (bucket_keys_ok d key H) as Hk. pose proof (bucket_nodup d key H) as Hn.
  destruct (find_in (bucket d (bucket_of key)) key) eqn:E; apply qdict_wf_update; try done.
  - by rewrite replace_value_keys.
  - intros k v Hin. assert (k ∈ (replace_value (bucket d (bucket_of key)) key value).*1) as Hin'
      by (apply list_elem_of_fmap; by exists (k, v)).
    rewrite replace_value_keys in Hin'. apply list_elem_of_fmap in Hin' as ([k' v'] & -> & ?).
    by eapply Hk.
  - intros k v Hin. assert (k ∈ (replace_value (bucket d (bucket_of key)) key value).*1) as Hin'
      by (apply list_elem_of_fmap; by exists (k, v)).
    rewrite replace_value_keys in Hin'. apply list_elem_of_fmap in Hin' as ([k' v'] & -> & ?).
    by eapply bucket_hash.
  - rewrite (wf_size d H). do 2 f_equal.
    pose proof (entries_insert_length d key (replace_value (bucket d (bucket_of key)) key value) H).
    rewrite <- (length_fmap fst (replace_value _ _ _)), replace_value_keys, length_fmap in *. lia.
  - apply find_in_None in E; [|done]. constructor; done.
  - apply keys_ok_cons. split; [apply c_str_has_no_nul | done].
  - intros k v [[= -> ->]|Hin]%elem_of_cons; [apply bucket_of_c_str | by eapply bucket_hash].
  - rewrite (wf_size d H), u64_add_l. f_equal.
    pose proof (entries_insert_length d key (alloc_entry key value :: bucket d (bucket_of key)) H).
    simpl in *. lia.
Qed.

Lemma qdict_put_map d key value :
  qdict_wf d → qdict_map (qdict_put_obj d key value) = <[c_str key := value]> (qdict_map d).
Proof.
  intros H. pose proof (qdict_put_wf d key value H) as H'. apply map_eq. intros k.
  rewrite qdict_map_bucket by done. revert H'. unfold qdict_put_obj, qdict_find.
  pose proof (bucket_keys_ok d key H) as Hk.
  destruct (find_in (bucket d (bucket_of key)) key) eqn:E; intros _;
    rewrite bucket_update by done; case_decide as Hb.
  - rewrite replace_value_map by (done || congruence).
    rewrite !lookup_insert. case_decide; [done|]. by rewrite qdict_map_bucket, Hb.
  - rewrite lookup_insert_ne by (intros <-; by rewrite bucket_of_c_str in Hb).
    by rewrite qdict_map_bucket.
  - simpl. rewrite !lookup_insert. case_decide; [done|]. by rewrite qdict_map_bucket, Hb.
  - rewrite lookup_insert_ne by (intros <-; by rewrite bucket_of_c_str in Hb).
    by rewrite qdict_map_bucket.
Qed.

Lemma qdict_del_wf d key : qdict_wf d → qdict_wf (qdict_del d key).
Proof.
  intros H. unfold qdict_del, qdict_find.
  pose proof (bucket_keys_ok d key H) as Hk. pose proof (bucket_nodup d key H) as Hn.
  destruct (find_in (bucket d (bucket_of key)) key) eqn:E; [|done].
  pose proof (remove_entry_sublist (bucket d (bucket_of key)) key) as Hs.
  apply qdict_wf_update; try done.
  - eapply sublist_NoDup; [done|]. by apply fmap_sublist.
  - intros k v Hin. eapply Hk. by eapply sublist_subseteq.
  - intros k v Hin. eapply bucket_hash; [done|]. by eapply sublist_subseteq.
  - rewrite (wf_size d H), u64_sub_l. f_equal.
    pose proof (entries_insert_length d key (remove_entry (bucket d (bucket_of key)) key) H).
    pose proof (remove_entry_length (bucket d (bucket_of key)) key ltac:(congruence)). lia.
Qed.

Lemma qdict_del_map d key :
  qdict_wf d → qdict_map (qdict_del d key) = delete (c_str key) (qdict_map d).
Proof.
  intros H. pose proof (qdict_del_wf d key H) as H'. apply map_eq. intros k.
  rewrite qdict_map_bucket by done. revert H'. unfold qdict_del, qdict_find.
  pose proof (bucket_keys_ok d key H) as Hk. pose proof (bucket_nodup d key H) as Hn.
  destruct (find_in (bucket d (bucket_of key)) key) eqn:E; intros _.
  - rewrite bucket_update by done. case_decide as Hb.
    + rewrite remove_entry_map by done. rewrite !lookup_delete. case_decide; [done|].
      by rewrite qdict_map_bucket, Hb.
    + rewrite lookup_delete_ne by (intros <-; by rewrite bucket_of_c_str in Hb).
      by rewrite qdict_map_bucket.
  - rewrite delete_id; [by rewrite qdict_map_bucket|]. apply qdict_find_None; done.
Qed.

Lemma qdict_size_map d : qdict_wf d → qdict_sz d = u64 (Z.of_nat (size (qdict_map d))).
Proof.
  intros H. rewrite (wf_size d H). do 2 f_equal. unfold qdict_map.
  rewrite map_size_list_to_map by by apply qdict_entries_nodup. done.
Qed.

Lemma qdict_entries_no_nul d k v : qdict_wf d → (k, v) ∈ qdict_entries d → no_nul k.
Proof. intros H Hin%elem_of_entries; [|done]. by eapply bucket_keys_ok. Qed.

Lemma qdict_get_map d key : qdict_wf d → qdict_get d key = qdict_map d !! c_str key.
Proof. apply qdict_find_map. Qed.

(** ** Any sequence of insertions and deletions *)

Inductive dict_op := Put (key : bytes) (value : V) | Del (key : bytes).

Definition run_op d (op : dict_op) : QDict V :=
  match op with Put k v => qdict_put_obj d k v | Del k => qdict_del d k end.
Definition spec_op (m : gmap bytes V) (op : dict_op) : gmap bytes V :=
  match op with Put k v => <[c_str k := v]> m | Del k => delete (c_str k) m end.

Lemma run_op_sim d op :
  qdict_wf d → qdict_wf (run_op d op) ∧ qdict_map (run_op d op) = spec_op (qdict_map d) op.
Proof.
  destruct op; simpl; auto using qdict_put_wf, qdict_put_map, qdict_del_wf, qdict_del_map.
Qed.

Lemma run_ops_sim ops d m :
  qdict_wf d → qdict_map d = m →
  qdict_wf (fold_left run_op ops d) ∧ qdict_map (fold_left run_op ops d) = fold_left spec_op ops m.
Proof.
  revert d m. induction ops as [|op ops IH]; intros d m H <-; simpl; [done|].
  destruct (run_op_sim d op H). by apply IH.
Qed.

(** [C22]: Whatever sequence of [qdict_put_obj] and [qdict_del] calls a fresh
    dictionary receives, the hash table answers like the finite map the same
    calls build: [qdict_get] and [qdict_haskey] look a key up in it (keys are
    C strings, cut at the first NUL), and [qdict_size] is its number of keys
    modulo 2^64. *)
Theorem qdict_implements_map (ops : list dict_op) :
  let d := fold_left run_op ops qdict_new in
  let m := fold_left spec_op ops ∅ in
  (∀ key, qdict_get d key = m !! c_str key) ∧
  (∀ key, qdict_haskey d key = bool_decide (is_Some (m !! c_str key))) ∧
  qdict_size d = u64 (Z.of_nat (size m)) ∧
  qdict_wf d.
Proof.
  intros d m. destruct (run_ops_sim ops qdict_new ∅ qdict_new_wf qdict_new_map) as [H Hm].
  fold d in H, Hm. fold m in Hm. split_and!.
  - intros key. by rewrite qdict_get_map, Hm.
  - intros key. unfold qdict_haskey. rewrite <- Hm, <- qdict_find_map by done.
    by destruct (qdict_find _ _ _).
  - unfold qdict_size. by rewrite qdict_size_map, Hm.
  - done.
Qed.

(** ** Iteration *)

(** The entries reached from [e] by [qdict_next], at most [fuel] of them. *)
Fixpoint qdict_walk (fuel : nat) d (e : option (QDictEntry V)) : list (bytes * V) :=
  match fuel, e with
  | S fuel, Some e =>
      (qdict_entry_key e, qdict_entry_value e) :: qdict_walk fuel d (qdict_next d e)
  | _, _ => []
  end.

Lemma next_entry_in_None bks : next_entry_in bks = None → concat bks = [].
Proof. induction bks as [|[|[]] bks IH]; simpl; auto; discriminate. Qed.

Lemma next_entry_in_Some bks e :
  next_entry_in bks = Some e →
  ∃ j b, bks !! j = Some b ∧ first_entry b = Some e ∧ concat bks = b ++ concat (drop (S j) bks).
Proof.
  induction bks as [|b bks IH]; simpl; [discriminate|]. destruct b as [|x b]; intros H.
  - destruct (IH H) as (j & b & ? & ? & ?). by exists (S j), b.
  - by exists 0, (x :: b).
Qed.

Lemma walk_from d i b l e fuel :
  qdict_wf d → qdict_table d !! i = Some b → l `suffix_of` b → first_entry l = Some e →
  length (l ++ concat (drop (S i) (qdict_table d))) ≤ fuel →
  qdict_walk fuel d (Some e) = l ++ concat (drop (S i) (qdict_table d)).
Proof.
  intros H. revert i b l e. induction fuel as [|fuel IH]; intros i b l e Hi Hl He Hf;
    destruct l as [|[k v] l]; simplify_eq/=; [lia|]. f_equal.
  unfold qdict_next. simpl. destruct l as [|[k' v'] l]; simpl.
  - assert (bucket_of k = i) as ->.
    { eapply (wf_hash d H _ _ k v); [done|]. destruct Hl as [l' ->]. set_solver. }
    unfold qdict_next_entry.
    destruct (next_entry_in (drop (S i) (qdict_table d))) as [e'|] eqn:E.
    + apply next_entry_in_Some in E as (j & b' & Hj & He' & Hc). rewrite Hc.
      rewrite lookup_drop in Hj. rewrite drop_drop in *.
      replace (S i + S j) with (S (S i + j)) in * by lia.
      eapply IH; [done..|]. rewrite <- Hc. rewrite app_nil_l in Hf. lia.
    + apply next_entry_in_None in E. rewrite E. by destruct fuel.
  - eapply (IH i b ((k', v') :: l)); [done| |done|].
    + destruct Hl as [l' ->]. exists (l' ++ [(k, v)]). by rewrite <- app_assoc.
    + simpl in *. lia.
Qed.

Lemma qdict_walk_entries d fuel :
  qdict_wf d → length (qdict_entries d) ≤ fuel →
  qdict_walk fuel d (qdict_first d) = qdict_entries d.
Proof.
  intros H Hf. unfold qdict_first, qdict_next_entry. rewrite drop_0.
  unfold qdict_entries in *. destruct (next_entry_in (qdict_table d)) as [e|] eqn:E.
  - apply next_entry_in_Some in E as (j & b & Hj & He & Hc). rewrite Hc in *.
    by eapply walk_from.
  - rewrite (next_entry_in_None _ E). by destruct fuel.
Qed.

Lemma qdict_iter_entries {S} (f : bytes → V → S → S) d s :
  qdict_iter f d s = fold_left (λ s e, f e.1 e.2 s) (qdict_entries d) s.
Proof.
  unfold qdict_iter, qdict_entries. revert s.
  induction (qdict_table d) as [|b t IH]; intros s; simpl; [done|].
  by rewrite fold_left_app, IH.
Qed.

(** Walking a dictionary with [qdict_first] and [qdict_next] visits
    every key of the map exactly once with its value, and calling [qdict_iter]
    with any callback runs it on the same entries in the same order. *)
Theorem qdict_walk_is_iter d :
  qdict_wf d →
  let visited := qdict_walk (length (qdict_entries d)) d (qdict_first d) in
  NoDup visited.*1 ∧
  (∀ k v, (k, v) ∈ visited ↔ qdict_map d !! k = Some v) ∧
  (∀ fuel, length (qdict_entries d) ≤ fuel → qdict_walk fuel d (qdict_first d) = visited) ∧
  (∀ S (f : bytes → V → S → S) s,
     qdict_iter f d s = fold_left (λ s e, f e.1 e.2 s) visited s).
Proof.
  intros H visited. subst visited. rewrite qdict_walk_entries by done. split_and!.
  - by apply qdict_entries_nodup.
  - intros k v. unfold qdict_map. apply elem_of_list_to_map. by apply qdict_entries_nodup.
  - intros. by rewrite qdict_walk_entries.
  - intros. apply qdict_iter_entries.
Qed.
End QDict.

(** The walk of a dictionary whose keys "a" and "b" are put in turn. *)
Lemma qdict_walk_is_iter_witness :
  let d := qdict_put_obj (qdict_put_obj qdict_new (bs "a") 1%Z) (bs "b") 2%Z in
  NoDup (qdict_walk (length (qdict_entries d)) d (qdict_first d)).*1.
Proof.
  intros d. apply (qdict_walk_is_iter d).
  apply qdict_put_wf, qdict_put_wf, qdict_new_wf.
Defined.
