(* ===== verification/QObject.v ===== *)
(** * QObject: the dynamically typed values of qobject.h

    [QObject] is the tree a [QObject *] points to: a [QInt], [QString], [QDict],
    [QList], [QFloat] or [QBool] with its [QType] tag (qint.c, qbool.c, qfloat.c,
    qlist.c, qdict.c; a [QError] only as its tag).  Objects are values here: a
    structure owns the objects stored in it, which is what the reference counts
    implement for the clients modelled in this library.

    The file also gives the meaning of an object: [jval], JSON values in which a
    dictionary is a finite map, and [denote], which forgets how the hash table
    of a [QDict] is laid out. *)

From S2P Require Import Prelude LibC QDict.
Local Open Scope Z_scope.

Inductive qtype_code :=
| QTYPE_NONE | QTYPE_QINT | QTYPE_QSTRING | QTYPE_QDICT
| QTYPE_QLIST | QTYPE_QFLOAT | QTYPE_QBOOL | QTYPE_QERROR.

#[global] Instance qtype_code_eq_dec : EqDecision qtype_code.
Proof. solve_decision. Defined.

Inductive QObject :=
| QOInt (value : Z)
| QOString (string : bytes)
| QODict (dict : QDict QObject)
| QOList (head : list QObject)
| QOFloat (value : double)
| QOBool (value : Z)
| QOError.

Definition qobject_type (obj : QObject) : qtype_code :=
  match obj with
  | QOInt _ => QTYPE_QINT
  | QOString _ => QTYPE_QSTRING
  | QODict _ => QTYPE_QDICT
  | QOList _ => QTYPE_QLIST
  | QOFloat _ => QTYPE_QFLOAT
  | QOBool _ => QTYPE_QBOOL
  | QOError => QTYPE_QERROR
  end.

Definition has_type (obj : QObject) (t : qtype_code) : bool := bool_decide (qobject_type obj = t).

(** ** Constructors, conversions and projections of the scalar types *)

Definition qint_from_int (value : Z) : QObject := QOInt (s64 value).
Definition qbool_from_int (value : Z) : QObject := QOBool (s32 value).
Definition qfloat_from_double (value : double) : QObject := QOFloat value.
Definition qstring_obj (str : bytes) : QObject := QOString (c_str str).

Definition qobject_to_qint (obj : QObject) : option Z :=
  match obj with QOInt v => Some v | _ => None end.
Definition qobject_to_qbool (obj : QObject) : option Z :=
  match obj with QOBool v => Some v | _ => None end.
Definition qobject_to_qfloat (obj : QObject) : option double :=
  match obj with QOFloat v => Some v | _ => None end.
Definition qobject_to_qstring (obj : QObject) : option bytes :=
  match obj with QOString s => Some s | _ => None end.
Definition qobject_to_qdict (obj : QObject) : option (QDict QObject) :=
  match obj with QODict d => Some d | _ => None end.
Definition qobject_to_qlist (obj : QObject) : option (list QObject) :=
  match obj with QOList l => Some l | _ => None end.

(** ** QList

    A [QList] is its objects in order; a pointer to an entry is the entry with
    the rest of the list behind it. *)

Definition QListEntry : Type := QObject * list QObject.

Definition qlist_new : list QObject := [].
Definition qlist_append_obj (qlist : list QObject) (value : QObject) : list QObject :=
  qlist ++ [value].
Definition qlist_iter {S} (iter : QObject → S → S) (qlist : list QObject) (opaque : S) : S :=
  fold_left (λ s v, iter v s) qlist opaque.
Definition qlist_copy_elem (obj : QObject) (dst : list QObject) : list QObject :=
  qlist_append_obj dst obj.
Definition qlist_copy (src : list QObject) : list QObject := qlist_iter qlist_copy_elem src qlist_new.

(** [qlist_pop] and [qlist_peek] also accept a NULL list. *)
Definition qlist_pop (qlist : option (list QObject)) : option QObject * option (list QObject) :=
  match qlist with
  | None => (None, None)
  | Some [] => (None, Some [])
  | Some (v :: l) => (Some v, Some l)
  end.
Definition qlist_peek (qlist : option (list QObject)) : option QObject := (qlist_pop qlist).1.
Definition qlist_empty (qlist : list QObject) : bool :=
  match qlist with [] => true | _ => false end.
Definition qlist_first (qlist : list QObject) : option QListEntry :=
  match qlist with [] => None | v :: l => Some (v, l) end.
Definition qlist_next (e : QListEntry) : option QListEntry := qlist_first e.2.

Lemma qlist_copy_id l : qlist_copy l = l.
Proof.
  unfold qlist_copy, qlist_iter, qlist_new. change l with ([] ++ l) at 2.
  generalize (@nil QObject). induction l as [|v l IH]; intros acc; simpl.
  - by rewrite app_nil_r.
  - rewrite IH. unfold qlist_copy_elem, qlist_append_obj. by rewrite <- app_assoc.
Qed.

(** ** Typed access to a QDict *)

Section getters.
Implicit Types (d : QDict QObject) (key : bytes).

Definition qdict_get_obj d key (t : qtype_code) : res QObject :=
  match qdict_get d key with
  | None => Err Assert_failed
  | Some obj => _ ← assertb (has_type obj t); Ok obj
  end.

(** The conversion of an [int64_t] to [double]. *)
Definition double_of_int (z : Z) : double :=
  double_of_decimal (z <? 0) (Z.abs z) 0.

Definition qdict_get_double d key : res double :=
  match qdict_get d key with
  | None => Err Assert_failed
  | Some (QOFloat v) => Ok v
  | Some (QOInt v) => Ok (double_of_int v)
  | Some _ => Err Assert_failed
  end.

Definition qdict_get_int d key : res Z :=
  obj ← qdict_get_obj d key QTYPE_QINT; deref (qobject_to_qint obj).
Definition qdict_get_bool d key : res Z :=
  obj ← qdict_get_obj d key QTYPE_QBOOL; deref (qobject_to_qbool obj).
Definition qdict_get_qlist d key : res (list QObject) :=
  obj ← qdict_get_obj d key QTYPE_QLIST; deref (qobject_to_qlist obj).
Definition qdict_get_qdict d key : res (QDict QObject) :=
  obj ← qdict_get_obj d key QTYPE_QDICT; deref (qobject_to_qdict obj).
Definition qdict_get_str d key : res bytes :=
  obj ← qdict_get_obj d key QTYPE_QSTRING; s ← deref (qobject_to_qstring obj); Ok (c_str s).

Definition qdict_get_try_int d key (def_value : Z) : Z :=
  match qdict_get d key with Some (QOInt v) => v | _ => def_value end.
Definition qdict_get_try_bool d key (def_value : Z) : Z :=
  match qdict_get d key with Some (QOBool v) => v | _ => def_value end.
Definition qdict_get_try_str d key : option bytes :=
  match qdict_get d key with Some (QOString s) => Some (c_str s) | _ => None end.
End getters.

(** ** Induction over objects *)

Section QObject_ind.
Variable P : QObject → Prop.
Hypothesis Hint : ∀ z, P (QOInt z).
Hypothesis Hstr : ∀ s, P (QOString s).
Hypothesis Hdict : ∀ d, (∀ k v, (k, v) ∈ qdict_entries d → P v) → P (QODict d).
Hypothesis Hlist : ∀ l, Forall P l → P (QOList l).
Hypothesis Hfloat : ∀ x, P (QOFloat x).
Hypothesis Hbool : ∀ b, P (QOBool b).
Hypothesis Herror : P QOError.

Lemma entries_ind (d : QDict QObject) :
  Forall (Forall (λ e : bytes * QObject, P e.2)) (qdict_table d) →
  ∀ k v, (k, v) ∈ qdict_entries d → P v.
Proof.
  intros H k v Hin. unfold qdict_entries in Hin.
  apply list_elem_of_In, in_concat in Hin as (b & Hb & Hkv).
  rewrite List.Forall_forall in H. specialize (H b Hb).
  rewrite List.Forall_forall in H. exact (H (k, v) Hkv).
Qed.

Fixpoint QObject_nested_ind (obj : QObject) : P obj :=
  let fix go_list (l : list QObject) : Forall P l :=
    match l with
    | [] => @List.Forall_nil _ _
    | v :: l => @List.Forall_cons _ _ v l (QObject_nested_ind v) (go_list l)
    end in
  let fix go_bucket (b : list (bytes * QObject)) : Forall (λ e, P e.2) b :=
    match b with
    | [] => @List.Forall_nil _ _
    | (k, v) :: b => @List.Forall_cons _ (λ e, P e.2) (k, v) b (QObject_nested_ind v) (go_bucket b)
    end in
  let fix go_table (t : list (list (bytes * QObject))) : Forall (Forall (λ e, P e.2)) t :=
    match t with
    | [] => @List.Forall_nil _ _
    | b :: t => @List.Forall_cons _ _ b t (go_bucket b) (go_table t)
    end in
  match obj with
  | QOInt z => Hint z
  | QOString s => Hstr s
  | QODict d => Hdict d (entries_ind d (go_table (qdict_table d)))
  | QOList l => Hlist l (go_list l)
  | QOFloat x => Hfloat x
  | QOBool b => Hbool b
  | QOError => Herror
  end.
End QObject_ind.

(** ** The JSON value an object stands for *)

Inductive jval :=
| JInt (z : Z)
| JString (s : bytes)
| JDict (m : gmap bytes jval)
| JList (l : list jval)
| JFloat (x : double)
| JBool (b : bool)
| JNone.

Fixpoint denote (obj : QObject) : jval :=
  match obj with
  | QOInt z => JInt z
  | QOString s => JString (c_str s)
  | QODict d =>
      JDict (list_to_map (concat (map (map (λ e, (e.1, denote e.2))) (qdict_table d))))
  | QOList l => JList (map denote l)
  | QOFloat x => JFloat x
  | QOBool b => JBool (negb (b =? 0))
  | QOError => JNone
  end.

(** Two objects are interchangeable when they denote the same value. *)
Definition qobject_equiv (a b : QObject) : Prop := denote a = denote b.

#[global] Instance qobject_equiv_equivalence : Equivalence qobject_equiv.
Proof. unfold qobject_equiv. split; [done | by intros ??? | by intros ??? -> ]. Qed.

Lemma denote_dict d :
  denote (QODict d) = JDict (denote <$> qdict_map d).
Proof.
  simpl. f_equal. unfold qdict_map. rewrite <- list_to_map_fmap. f_equal.
  unfold qdict_entries. induction (qdict_table d) as [|b t IH]; [done|].
  simpl. by rewrite fmap_app, <- IH.
Qed.

(** Storing equivalent objects gives equivalent structures. *)
#[global] Instance QOList_proper : Proper (Forall2 qobject_equiv ==> qobject_equiv) QOList.
Proof.
  intros l l' H. unfold qobject_equiv. simpl. f_equal.
  induction H as [|x y l l' Hxy H IH]; simpl; [done|]. by rewrite Hxy, IH.
Qed.

Lemma qdict_put_equiv d d' k v v' :
  qdict_wf d → qdict_wf d' → qobject_equiv (QODict d) (QODict d') → qobject_equiv v v' →
  qobject_equiv (QODict (qdict_put_obj d k v)) (QODict (qdict_put_obj d' k v')).
Proof.
  unfold qobject_equiv. rewrite !denote_dict. intros H H' [= Hd] Hv.
  rewrite !qdict_put_map by done. by rewrite !fmap_insert, Hd, Hv.
Qed.
