(* ===== verification/QHeap.v ===== *)
(** * QHeap: reference counts of QObjects (qobject.h, qlist.c, qdict.c)

    The objects of [QObject] as they lie in memory: a heap of cells with a reference
    count and a body, containers that hold pointers, and the operations that take, give
    away and drop references.  A pointer to a freed cell faults.  Containers hold non-NULL
    pointers, which is what all callers store.

    The invariant says that a count is the number of references: those that lie in cells
    and those that the client owns. *)

From stdpp Require Import gmultiset.
From S2P Require Import Prelude LibC QDict.
Local Open Scope Z_scope.

Notation loc := positive.

Inductive hbody :=
| HInt (value : Z)
| HString (string : bytes)
| HFloat (value : double)
| HBool (value : Z)
| HList (head : list loc)
| HDict (dict : QDict loc).

Record cell := mkCell { refcnt : Z; body : hbody }.
Notation heap := (gmap loc cell).

Definition children (b : hbody) : list loc :=
  match b with HList head => head | HDict d => (qdict_entries d).*2 | _ => [] end.

(** ** Memory *)

Definition hget (h : heap) (l : loc) : res cell :=
  match h !! l with Some c => Ok c | None => Err Freed_access end.

(** [qemu_malloc] and [QOBJECT_INIT]. *)
Definition qobject_alloc (b : hbody) (h : heap) : loc * heap :=
  let l := fresh (dom h) in (l, <[l := mkCell 1 b]> h).

Definition qemu_free (l : loc) (h : heap) : res heap := c ← hget h l; Ok (delete l h).

Definition qobject_incref (obj : option loc) (h : heap) : res heap :=
  match obj with
  | None => Ok h
  | Some l => c ← hget h l; Ok (<[l := mkCell (u64 (refcnt c + 1)) (body c)]> h)
  end.

(** ** Destruction *)

Section destroy.
(** [qobject_decref] on what the object holds. *)
Context (decref : loc → heap → res heap).

(** [qlist_destroy_obj]: each entry is taken out of the list, then its value dropped. *)
Fixpoint drop_list (l : loc) (head : list loc) (h : heap) : res heap :=
  match head with
  | [] => Ok h
  | v :: rest =>
      c ← hget h l;
      h ← decref v (<[l := mkCell (refcnt c) (HList rest)]> h);
      drop_list l rest h
  end.

Definition qlist_destroy_obj (l : loc) (h : heap) : res heap :=
  c ← hget h l;
  match body c with
  | HList head => h ← drop_list l head h; qemu_free l h
  | _ => Err Null_deref
  end.

(** [qdict_destroy_obj]: the same for the entries of a bucket, and for all buckets. *)
Fixpoint drop_bucket (l : loc) (i : nat) (b : list (bytes * loc)) (h : heap) : res heap :=
  match b with
  | [] => Ok h
  | (_, v) :: rest =>
      c ← hget h l;
      match body c with
      | HDict d =>
          h ← decref v (<[l := mkCell (refcnt c) (HDict (mkQDict (<[i := rest]> (qdict_table d)) (qdict_sz d)))]> h);
          drop_bucket l i rest h
      | _ => Err Null_deref
      end
  end.

Fixpoint drop_buckets (l : loc) (n i : nat) (h : heap) : res heap :=
  match n with
  | O => Ok h
  | S n =>
      c ← hget h l;
      match body c with
      | HDict d => h ← drop_bucket l i (bucket d i) h; drop_buckets l n (S i) h
      | _ => Err Null_deref
      end
  end.

Definition qdict_destroy_obj (l : loc) (h : heap) : res heap :=
  h ← drop_buckets l (Z.to_nat QDICT_BUCKET_MAX) 0 h; qemu_free l h.

(** The [destroy] function of the type. *)
Definition destroy_obj (l : loc) (h : heap) : res heap :=
  c ← hget h l;
  match body c with
  | HList _ => qlist_destroy_obj l h
  | HDict _ => qdict_destroy_obj l h
  | _ => qemu_free l h
  end.
End destroy.

Fixpoint decref (fuel : nat) (l : loc) (h : heap) : res heap :=
  match fuel with
  | O => Err Out_of_fuel
  | S fuel =>
      c ← hget h l;
      let n := u64 (refcnt c - 1) in
      let h := <[l := mkCell n (body c)]> h in
      if n =? 0 then destroy_obj (decref fuel) l h else Ok h
  end.

Definition qobject_decref (fuel : nat) (obj : option loc) (h : heap) : res heap :=
  match obj with None => Ok h | Some l => decref fuel l h end.

(** ** Containers *)

Definition heap_list (l : loc) (h : heap) : res (Z * list loc) :=
  c ← hget h l; match body c with HList head => Ok (refcnt c, head) | _ => Err Null_deref end.
Definition heap_dict (l : loc) (h : heap) : res (Z * QDict loc) :=
  c ← hget h l; match body c with HDict d => Ok (refcnt c, d) | _ => Err Null_deref end.

(** [qlist_append_obj]: the reference to the value goes to the list. *)
Definition heap_append (l v : loc) (h : heap) : res heap :=
  '(n, head) ← heap_list l h; Ok (<[l := mkCell n (HList (head ++ [v]))]> h).

(** [qlist_pop]: the reference goes to the caller. *)
Definition heap_pop (l : loc) (h : heap) : res (option loc * heap) :=
  '(n, head) ← heap_list l h;
  match head with
  | [] => Ok (None, h)
  | v :: rest => Ok (Some v, <[l := mkCell n (HList rest)]> h)
  end.

(** [qlist_copy]: a new list that shares the values. *)
Fixpoint copy_elems (dst : loc) (elems : list loc) (h : heap) : res heap :=
  match elems with
  | [] => Ok h
  | v :: elems => h ← qobject_incref (Some v) h; h ← heap_append dst v h; copy_elems dst elems h
  end.
Definition heap_copy (l : loc) (h : heap) : res (loc * heap) :=
  let '(dst, h) := qobject_alloc (HList []) h in
  '(_, head) ← heap_list l h;
  h ← copy_elems dst head h; Ok (dst, h).

(** [qdict_put_obj]: the reference to a value that is replaced is dropped first, and the
    entry overwritten after that. *)
Definition heap_put (fuel : nat) (l : loc) (key : bytes) (v : loc) (h : heap) : res heap :=
  '(_, d) ← heap_dict l h;
  h ← (match qdict_get d key with Some old => qobject_decref fuel (Some old) h | None => Ok h end);
  '(n, d) ← heap_dict l h;
  Ok (<[l := mkCell n (HDict (qdict_put_obj d key v))]> h).

(** [qdict_del]: the entry is unlinked, then its value dropped, then the size counted
    down. *)
Definition unlink_entry (d : QDict loc) (key : bytes) : QDict loc :=
  mkQDict (qdict_table (qdict_del d key)) (qdict_sz d).
Definition heap_del (fuel : nat) (l : loc) (key : bytes) (h : heap) : res heap :=
  '(n, d) ← heap_dict l h;
  match qdict_get d key with
  | Some old =>
      h ← qobject_decref fuel (Some old) (<[l := mkCell n (HDict (unlink_entry d key))]> h);
      '(n, d) ← heap_dict l h;
      Ok (<[l := mkCell n (HDict (mkQDict (qdict_table d) (u64 (qdict_sz d - 1))))]> h)
  | None => Ok h
  end.

(** ** The references in a heap *)

Notation refs := (gmultiset loc).

Definition kids (c : cell) : refs := list_to_set_disj (children (body c)).
Definition all_refs (h : heap) : refs := map_fold (λ _ c acc, kids c ⊎ acc) ∅ h.

Lemma all_refs_fresh h l c : h !! l = None → all_refs (<[l := c]> h) = kids c ⊎ all_refs h.
Proof. intros Hl. unfold all_refs. rewrite map_fold_insert_L; [done|intros; multiset_solver|done]. Qed.
Lemma all_refs_delete h l c : h !! l = Some c → all_refs h = kids c ⊎ all_refs (delete l h).
Proof. intros Hl. rewrite <- (all_refs_fresh (delete l h) l c) by apply lookup_delete_eq. by rewrite insert_delete_eq, insert_id. Qed.
Lemma all_refs_update h l c c' : h !! l = Some c → kids c ⊎ all_refs (<[l := c']> h) = kids c' ⊎ all_refs h.
Proof.
  intros Hl. rewrite (all_refs_delete h l c Hl), (all_refs_delete (<[l := c']> h) l c') by apply lookup_insert_eq.
  rewrite delete_insert_eq. multiset_solver.
Qed.
Lemma all_refs_same h l c c' : h !! l = Some c → kids c' = kids c → all_refs (<[l := c']> h) = all_refs h.
Proof. intros Hl Hk. pose proof (all_refs_update h l c c' Hl) as H. rewrite Hk in H. multiset_solver. Qed.
Lemma elem_of_all_refs h k : k ∈ all_refs h ↔ ∃ l c, h !! l = Some c ∧ k ∈ children (body c).
Proof.
  induction h as [|l c h Hl IH] using map_ind.
  - unfold all_refs. rewrite map_fold_empty. split; [multiset_solver|]. intros (l & c & Hl & _). by rewrite lookup_empty in Hl.
  - rewrite all_refs_fresh, gmultiset_elem_of_disj_union, IH by done. unfold kids. rewrite elem_of_list_to_set_disj. split.
    + intros [Hk|(l' & c' & Hl' & Hk)]; [exists l, c; by rewrite lookup_insert_eq|].
      exists l', c'. split; [|done]. rewrite lookup_insert_ne; [done|]. intros ->. congruence.
    + intros (l' & c' & Hl' & Hk). apply lookup_insert_Some in Hl' as [[<- <-]|[_ Hl']]; [by left|right; eauto].
Qed.

Definition table_ok (b : hbody) : Prop :=
  match b with HDict d => length (qdict_table d) = Z.to_nat QDICT_BUCKET_MAX | _ => True end.

(** A count is the number of references: those in cells and those in [R], the ones the
    client owns; and no reference dangles. *)
Record rc_inv (h : heap) (R : refs) : Prop := {
  rc_count l c : h !! l = Some c → refcnt c = Z.of_nat (multiplicity l (all_refs h ⊎ R));
  rc_alive l : l ∈ all_refs h ⊎ R → is_Some (h !! l);
  rc_bound : Z.of_nat (size (all_refs h ⊎ R)) < 2 ^ 64;
  rc_tables l c : h !! l = Some c → table_ok (body c);
}.

Lemma rc_transfer h R h' R' :
  all_refs h' ⊎ R' = all_refs h ⊎ R → dom h' = dom h →
  (∀ l c', h' !! l = Some c' → ∃ c, h !! l = Some c ∧ refcnt c' = refcnt c ∧ table_ok (body c')) →
  rc_inv h R → rc_inv h' R'.
Proof.
  intros E Hd Hc [C A B T]. constructor; rewrite ?E; [|intros l Hl; rewrite <- elem_of_dom, Hd, elem_of_dom; auto|done|].
  - intros l c' Hl. destruct (Hc l c' Hl) as (c & Hl' & -> & _). by apply C.
  - intros l c' Hl. by destruct (Hc l c' Hl) as (c & _ & _ & ?).
Qed.

(** The same, for a change of one cell that keeps its count. *)
Lemma rc_update h R R' l c b' :
  h !! l = Some c → table_ok b' → kids (mkCell (refcnt c) b') ⊎ R' = kids c ⊎ R →
  rc_inv h R → rc_inv (<[l := mkCell (refcnt c) b']> h) R'.
Proof.
  intros Hl Ht Hk I. apply (rc_transfer h R); [|by apply dom_insert_lookup_L| |done].
  - pose proof (all_refs_update h l c (mkCell (refcnt c) b') Hl). multiset_solver.
  - intros k c' Hc. apply lookup_insert_Some in Hc as [[<- <-]|[_ Hc]]; [by exists c|].
    exists c'. split_and!; [done|done|by apply (rc_tables h R I k)].
Qed.

(** ** Dropping a reference *)

(** What dropping references does to a heap: cells that are being destroyed (count 0) are
    left alone, bodies never change, and no cell is left with count 0. *)
Record evolves (h h' : heap) : Prop := {
  ev_frozen k c : h !! k = Some c → refcnt c = 0 → h' !! k = Some c;
  ev_from k c' : h' !! k = Some c' → ∃ c, h !! k = Some c ∧ body c' = body c ∧ (refcnt c' = 0 → refcnt c = 0);
}.

(** The same, but for the cell [l], which is being destroyed. *)
Record evolves_off (l : loc) (h h' : heap) : Prop := {
  eo_frozen k c : k ≠ l → h !! k = Some c → refcnt c = 0 → h' !! k = Some c;
  eo_from k c' : k ≠ l → h' !! k = Some c' → ∃ c, h !! k = Some c ∧ body c' = body c ∧ (refcnt c' = 0 → refcnt c = 0);
}.

Lemma evolves_off_refl l h : evolves_off l h h.
Proof. constructor; [done|]. intros k c' _ Hk. by exists c'. Qed.
Lemma evolves_off_trans l h1 h2 h3 : evolves_off l h1 h2 → evolves_off l h2 h3 → evolves_off l h1 h3.
Proof.
  intros [F1 G1] [F2 G2]. constructor.
  - intros k c Hk H1 Hz. apply F2; auto.
  - intros k c3 Hk H3. destruct (G2 k c3 Hk H3) as (c2 & H2 & B2 & Z2). destruct (G1 k c2 Hk H2) as (c1 & H1 & B1 & Z1).
    exists c1. split_and!; [done|congruence|auto].
Qed.
Lemma evolves_evolves_off l c h h' : evolves (<[l := c]> h) h' → evolves_off l h h'.
Proof.
  intros [F G]. constructor.
  - intros k c0 Hk Hl. apply F. by rewrite lookup_insert_ne.
  - intros k c' Hk Hl. destruct (G k c' Hl) as (c0 & H0 & HG). rewrite lookup_insert_ne in H0 by done. by exists c0.
Qed.

(** The number of cells that are not being destroyed. *)
Definition alive (h : heap) : gset loc := dom (filter (λ kc : loc * cell, refcnt kc.2 ≠ 0) h).

Lemma elem_of_alive h k : k ∈ alive h ↔ ∃ c, h !! k = Some c ∧ refcnt c ≠ 0.
Proof.
  unfold alive. rewrite elem_of_dom. split.
  - intros [c Hc]. apply map_lookup_filter_Some in Hc as [Hk Hn]. eauto.
  - intros (c & Hk & Hn). exists c. by apply map_lookup_filter_Some.
Qed.

Lemma alive_size h : (size (alive h) ≤ size h)%nat.
Proof.
  rewrite <- (size_dom (D := gset loc)). apply subseteq_size. intros k. rewrite elem_of_alive, elem_of_dom.
  intros (c & Hc & _). by exists c.
Qed.

Lemma alive_off l h h' c :
  evolves_off l h h' → h' !! l = Some c → refcnt c = 0 → alive h' ⊆ alive h.
Proof.
  intros [F G] Hl Hz k. rewrite !elem_of_alive. intros (c' & Hk & Hn).
  destruct (decide (k = l)) as [->|Hkl]; [congruence|]. destruct (G k c' Hkl Hk) as (c0 & H0 & _ & Hz0).
  exists c0. split; [done|]. intros Hz'. specialize (F k c0 Hkl H0 Hz'). congruence.
Qed.

(** What the theorem below says of [qobject_decref], for the loops of the destructors. *)
Definition drops (dec : loc → heap → res heap) (N : nat) : Prop :=
  ∀ h v R, rc_inv h ({[+ v +]} ⊎ R) → (size (alive h) < N)%nat → ∃ h', dec v h = Ok h' ∧ evolves h h' ∧ rc_inv h' R.

(** One entry of the container [l], which is being destroyed, is taken out and dropped. *)
Lemma drop_one dec N l b b' v h R :
  drops dec N → rc_inv h R → (size (alive h) < N)%nat →
  h !! l = Some (mkCell 0 b) → table_ok b' → children b ≡ₚ v :: children b' →
  ∃ h', dec v (<[l := mkCell 0 b']> h) = Ok h' ∧ h' !! l = Some (mkCell 0 b') ∧ evolves_off l h h' ∧ rc_inv h' R.
Proof.
  intros D I HN Hl Ht Hp. set (h1 := <[l := mkCell 0 b']> h).
  assert (kids (mkCell 0 b) = {[+ v +]} ⊎ kids (mkCell 0 b')) as Hk.
  { unfold kids. cbn [body]. rewrite Hp. apply list_to_set_disj_cons. }
  assert (rc_inv h1 ({[+ v +]} ⊎ R)) as I1.
  { apply (rc_update h R _ l (mkCell 0 b) b' Hl Ht); [|done]. rewrite Hk. cbn [refcnt]. multiset_solver. }
  assert (evolves_off l h h1) as E1.
  { constructor; intros k c Hkl; unfold h1; rewrite lookup_insert_ne by done; eauto. }
  assert (h1 !! l = Some (mkCell 0 b')) as Hl1 by apply lookup_insert_eq.
  destruct (D h1 v R I1) as (h2 & Hd & E2 & I2).
  { eapply Nat.le_lt_trans; [|exact HN]. by apply subseteq_size, (alive_off l h h1 _ E1 Hl1). }
  exists h2. split_and!; [done|by apply (ev_frozen _ _ E2)| |done]. by apply (evolves_evolves_off l (mkCell 0 b')).
Qed.

Lemma drop_list_ok dec N l head h R :
  drops dec N → rc_inv h R → (size (alive h) < N)%nat → h !! l = Some (mkCell 0 (HList head)) →
  ∃ h', drop_list dec l head h = Ok h' ∧ h' !! l = Some (mkCell 0 (HList [])) ∧ evolves_off l h h' ∧ rc_inv h' R.
Proof.
  intros D. revert h. induction head as [|v head IH]; intros h I HN Hl.
  { exists h. split_and!; auto using evolves_off_refl. }
  cbn [drop_list]. unfold hget. rewrite Hl. cbn [mbind res_bind refcnt].
  destruct (drop_one dec N l _ (HList head) v h R D I HN Hl) as (h1 & -> & Hl1 & E1 & I1); [done|done|]. cbn [mbind res_bind].
  destruct (IH h1 I1) as (h2 & -> & Hl2 & E2 & I2); [|done|].
  { eapply Nat.le_lt_trans; [|exact HN]. by apply subseteq_size, (alive_off l h h1 _ E1 Hl1). }
  exists h2. split_and!; eauto using evolves_off_trans.
Qed.

Lemma concat_insert {A} (t : list (list A)) i x rest :
  t !! i = Some (x :: rest) → concat t ≡ₚ x :: concat (<[i := rest]> t).
Proof.
  intros Hi. assert (i < length t)%nat as Hlt by by eapply lookup_lt_Some.
  rewrite <- (take_drop_middle t i _ Hi) at 1. rewrite insert_take_drop by done. rewrite !concat_app. cbn [concat].
  rewrite (Permutation_middle (concat (take i t)) (rest ++ concat (drop (S i) t)) x). done.
Qed.

Lemma drop_bucket_ok dec N l i t sz b h R :
  drops dec N → rc_inv h R → (size (alive h) < N)%nat →
  h !! l = Some (mkCell 0 (HDict (mkQDict t sz))) → t !! i = Some b →
  ∃ h', drop_bucket dec l i b h = Ok h' ∧ h' !! l = Some (mkCell 0 (HDict (mkQDict (<[i := []]> t) sz))) ∧
    evolves_off l h h' ∧ rc_inv h' R.
Proof.
  intros D. revert t h. induction b as [|[k v] b IH]; intros t h I HN Hl Hi.
  { exists h. split_and!; auto using evolves_off_refl. by rewrite list_insert_id. }
  cbn [drop_bucket]. unfold hget. rewrite Hl. cbn [mbind res_bind refcnt body qdict_table qdict_sz].
  destruct (drop_one dec N l _ (HDict (mkQDict (<[i := b]> t) sz)) v h R D I HN Hl) as (h1 & -> & Hl1 & E1 & I1).
  { pose proof (rc_tables h R I l _ Hl) as Ht. cbn in Ht |- *. by rewrite length_insert. }
  { cbn [children]. unfold qdict_entries. cbn [qdict_table]. by rewrite (concat_insert t i _ _ Hi). }
  cbn [mbind res_bind]. destruct (IH (<[i := b]> t) h1 I1) as (h2 & -> & Hl2 & E2 & I2); [|done| |].
  - eapply Nat.le_lt_trans; [|exact HN]. by apply subseteq_size, (alive_off l h h1 _ E1 Hl1).
  - apply list_lookup_insert_eq. by eapply lookup_lt_Some.
  - exists h2. rewrite list_insert_insert_eq in Hl2. split_and!; eauto using evolves_off_trans.
Qed.

Lemma drop_buckets_ok dec N l n i t sz h R :
  drops dec N → rc_inv h R → (size (alive h) < N)%nat →
  h !! l = Some (mkCell 0 (HDict (mkQDict t sz))) → length t = (i + n)%nat → concat (take i t) = [] →
  ∃ h' t', drop_buckets dec l n i h = Ok h' ∧ h' !! l = Some (mkCell 0 (HDict (mkQDict t' sz))) ∧ concat t' = [] ∧
    evolves_off l h h' ∧ rc_inv h' R.
Proof.
  intros D. revert i t h. induction n as [|n IH]; intros i t h I HN Hl Ht Hc.
  { exists h, t. rewrite take_ge in Hc by lia. split_and!; auto using evolves_off_refl. }
  destruct (lookup_lt_is_Some_2 t i ltac:(lia)) as [b Hb].
  cbn [drop_buckets]. unfold hget, bucket. rewrite Hl. cbn [mbind res_bind body qdict_table]. rewrite Hb. change (default [] (Some b)) with b.
  destruct (drop_bucket_ok dec N l i t sz b h R D I HN Hl Hb) as (h1 & -> & Hl1 & E1 & I1). cbn [mbind res_bind].
  destruct (IH (S i) (<[i := []]> t) h1 I1) as (h2 & t' & -> & Hl2 & Hc2 & E2 & I2); [|done| | |].
  - eapply Nat.le_lt_trans; [|exact HN]. by apply subseteq_size, (alive_off l h h1 _ E1 Hl1).
  - rewrite length_insert. lia.
  - rewrite (take_S_r _ i []) by (apply list_lookup_insert_eq; lia). rewrite take_insert_ge by lia.
    by rewrite concat_app, Hc.
  - exists h2, t'. split_and!; eauto using evolves_off_trans.
Qed.

(** A cell with count 0 and nothing left in it can go. *)
Lemma free_ok l b h R :
  rc_inv h R → h !! l = Some (mkCell 0 b) → children b = [] → qemu_free l h = Ok (delete l h) ∧ rc_inv (delete l h) R.
Proof.
  intros I Hl Hb. unfold qemu_free, hget. rewrite Hl. split; [done|].
  assert (all_refs (delete l h) = all_refs h) as Hr.
  { rewrite (all_refs_delete h l _ Hl). unfold kids. cbn [body]. rewrite Hb, list_to_set_disj_nil. multiset_solver. }
  destruct I as [C A B T]. constructor; rewrite ?Hr; [| |done|].
  - intros k c Hk. apply lookup_delete_Some in Hk as [_ Hk]. by apply C.
  - intros k Hk. rewrite lookup_delete_ne; [by apply A|]. intros <-. specialize (C l _ Hl). cbn [refcnt] in C.
    rewrite elem_of_multiplicity in Hk. lia.
  - intros k c Hk. apply lookup_delete_Some in Hk as [_ Hk]. by apply (T k).
Qed.

Lemma destroy_ok dec N l b h R :
  drops dec N → rc_inv h R → (size (alive h) < N)%nat → h !! l = Some (mkCell 0 b) →
  ∃ h', destroy_obj dec l h = Ok h' ∧ evolves_off l h h' ∧ h' !! l = None ∧ rc_inv h' R.
Proof.
  intros D I HN Hl. pose proof (rc_tables h R I l _ Hl) as Ht.
  assert (∀ h1 b', rc_inv h1 R → h1 !! l = Some (mkCell 0 b') → children b' = [] → evolves_off l h h1 →
    ∃ h', qemu_free l h1 = Ok h' ∧ evolves_off l h h' ∧ h' !! l = None ∧ rc_inv h' R) as Hfree.
  { intros h1 b' I1 Hl1 Hb' E1. destruct (free_ok l b' h1 R I1 Hl1 Hb') as [Hf I2]. exists (delete l h1).
    split_and!; [done| |apply lookup_delete_eq|done]. destruct E1 as [F G]. constructor.
    - intros k c Hk. rewrite lookup_delete_ne by done. by apply F.
    - intros k c Hk. rewrite lookup_delete_ne by done. by apply G. }
  unfold destroy_obj, hget. rewrite Hl. cbn [mbind res_bind body].
  destruct b as [x|x|x|x|head|[t sz]]; try (by eapply Hfree; [done|done|done|apply evolves_off_refl]).
  - unfold qlist_destroy_obj, hget. rewrite Hl. cbn [mbind res_bind body].
    destruct (drop_list_ok dec N l head h R D I HN Hl) as (h1 & -> & Hl1 & E1 & I1). by eapply Hfree.
  - unfold qdict_destroy_obj.
    destruct (drop_buckets_ok dec N l (Z.to_nat QDICT_BUCKET_MAX) 0 t sz h R D I HN Hl) as (h1 & t' & -> & Hl1 & Hc & E1 & I1);
      [exact Ht|done|]. cbn [mbind res_bind]. eapply Hfree; [done|done| |done]. cbn [children]. unfold qdict_entries. cbn. by rewrite Hc.
Qed.

Lemma multiplicity_size (X : refs) l : (multiplicity l X ≤ size X)%nat.
Proof.
  induction X as [|x X IH] using gmultiset_ind; [by rewrite multiplicity_empty; lia|].
  rewrite multiplicity_disj_union, gmultiset_size_disj_union, gmultiset_size_singleton, multiplicity_singleton.
  destruct (decide _); lia.
Qed.

(** The count of a cell after a reference to it was given up. *)
Lemma rc_decrement h l c R :
  rc_inv h ({[+ l +]} ⊎ R) → h !! l = Some c →
  1 <= refcnt c < 2 ^ 64 ∧ rc_inv (<[l := mkCell (refcnt c - 1) (body c)]> h) R.
Proof.
  intros [C A B T] Hl. pose proof (C l c Hl) as Hc. rewrite !multiplicity_disj_union, multiplicity_singleton_eq in Hc.
  assert (all_refs (<[l := mkCell (refcnt c - 1) (body c)]> h) = all_refs h) as Hr by by apply (all_refs_same h l c).
  assert (multiplicity l (all_refs h ⊎ ({[+ l +]} ⊎ R)) ≤ size (all_refs h ⊎ ({[+ l +]} ⊎ R)))%nat as Hm.
  { apply multiplicity_size. }
  rewrite !multiplicity_disj_union, multiplicity_singleton_eq in Hm. split; [lia|].
  constructor; rewrite ?Hr.
  - intros k c' Hk. apply lookup_insert_Some in Hk as [[<- <-]|[Hne Hk]]; cbn [refcnt].
    + rewrite multiplicity_disj_union. lia.
    + rewrite (C k c' Hk), !multiplicity_disj_union, multiplicity_singleton_ne by done. lia.
  - intros k Hk. rewrite lookup_insert_is_Some'. right. apply A. multiset_solver.
  - rewrite !gmultiset_size_disj_union, gmultiset_size_singleton in B. rewrite gmultiset_size_disj_union. lia.
  - intros k c' Hk. apply lookup_insert_Some in Hk as [[<- <-]|[_ Hk]]; cbn [body]; by eapply T.
Qed.

(** Dropping a reference keeps the invariant, with as much fuel as there are cells. *)
Lemma decref_ok fuel : drops (decref fuel) fuel.
Proof.
  induction fuel as [|fuel IH]; intros h l R I HN; [lia|].
  destruct (rc_alive _ _ I l ltac:(multiset_solver)) as [c Hl]. destruct (rc_decrement h l c R I Hl) as [Hn I1].
  cbn [decref]. unfold hget. rewrite Hl. cbn [mbind res_bind]. rewrite u64_small by (unfold is_u64; lia).
  set (h1 := <[l := mkCell (refcnt c - 1) (body c)]> h) in *. destruct (Z.eqb_spec (refcnt c - 1) 0) as [Hz|Hz].
  - assert (h1 !! l = Some (mkCell 0 (body c))) as Hl1 by (unfold h1; rewrite Hz; apply lookup_insert_eq).
    assert (alive h1 ⊂ alive h) as Hlt.
    { split.
      - intros k. rewrite !elem_of_alive. intros (c' & Hk & Hc). apply lookup_insert_Some in Hk as [[<- <-]|[_ Hk]]; [done|eauto].
      - intros Hsub. assert (l ∈ alive h) as Hal by (apply elem_of_alive; exists c; split; [done|lia]).
        apply Hsub, elem_of_alive in Hal as (c' & Hk & Hc). rewrite Hl1 in Hk. injection Hk as <-. done. }
    apply subset_size in Hlt.
    destruct (destroy_ok (decref fuel) fuel l (body c) h1 R IH I1) as (h2 & Hd & E & Hn2 & I2); [lia|done|].
    exists h2. split_and!; [done| |done]. destruct E as [F G]. constructor.
    + intros k c0 Hk Hz0. assert (k ≠ l) as Hkl by (intros ->; rewrite Hl in Hk; injection Hk as <-; lia).
      apply F; [done| |done]. unfold h1. by rewrite lookup_insert_ne.
    + intros k c' Hk. assert (k ≠ l) as Hkl by (intros ->; congruence). destruct (G k c' Hkl Hk) as (c0 & H0 & HG).
      unfold h1 in H0. rewrite lookup_insert_ne in H0 by done. by exists c0.
  - exists h1. split_and!; [done| |done]. constructor.
    + intros k c0 Hk Hz0. unfold h1. rewrite lookup_insert_ne; [done|]. intros ->. rewrite Hl in Hk. injection Hk as <-. lia.
    + intros k c' Hk. apply lookup_insert_Some in Hk as [[<- <-]|[_ Hk]]; [|by exists c'].
      exists c. split_and!; [done|done|]. cbn. lia.
Qed.

(** ** What is left is what can be reached *)

Inductive reach (h : heap) (R : refs) : loc → Prop :=
| reach_root k : k ∈ R → reach h R k
| reach_edge l c k : reach h R l → h !! l = Some c → k ∈ children (body c) → reach h R k.

(** No container holds itself, at any depth. *)
Definition acyclic (h : heap) : Prop :=
  ∃ rank : loc → nat, ∀ l c k, h !! l = Some c → k ∈ children (body c) → (rank k < rank l)%nat.

(** No cell is half destroyed. *)
Definition settled (h : heap) : Prop := ∀ l c, h !! l = Some c → refcnt c ≠ 0.

Lemma evolves_acyclic h h' : evolves h h' → acyclic h → acyclic h'.
Proof.
  intros E [rank Hr]. exists rank. intros l c k Hl Hk. destruct (ev_from _ _ E l c Hl) as (c0 & H0 & Hb & _).
  rewrite Hb in Hk. eauto.
Qed.
Lemma evolves_settled h h' : evolves h h' → settled h → settled h'.
Proof. intros E S l c Hl Hz. destruct (ev_from _ _ E l c Hl) as (c0 & H0 & _ & H1). exact (S l c0 H0 (H1 Hz)). Qed.

Lemma settled_reached h R : rc_inv h R → settled h → acyclic h → ∀ k, is_Some (h !! k) → reach h R k.
Proof.
  intros I Hset [rank Hr]. assert (∃ M : nat, ∀ k, is_Some (h !! k) → (rank k < M)%nat) as [M HM].
  { exists (S (max_list (rank <$> elements (dom h)))). intros k Hk. apply Nat.lt_succ_r, max_list_elem_of_le.
    apply list_elem_of_fmap. exists k. split; [done|]. by apply elem_of_elements, elem_of_dom. }
  assert (∀ n k, (M - rank k < n)%nat → is_Some (h !! k) → reach h R k) as Hind.
  2: { intros k Hk. apply (Hind (S (M - rank k))); [lia|done]. }
  induction n as [|n IH]; intros k Hk Hs; [lia|]. pose proof (HM k Hs). destruct Hs as [c Hc].
  pose proof (Hset k c Hc) as Hn. rewrite (rc_count h R I k c Hc) in Hn.
  assert (k ∈ all_refs h ⊎ R) as Hin by (rewrite elem_of_multiplicity; lia).
  apply gmultiset_elem_of_disj_union in Hin as [Hin|Hin]; [|by apply reach_root].
  apply elem_of_all_refs in Hin as (l & c' & Hl & Hk'). apply (reach_edge h R l c' k); [|done|done].
  pose proof (Hr l c' k Hl Hk'). apply IH; [|by eexists]. pose proof (HM l ltac:(by eexists)). lia.
Qed.

(** [C32]: Dropping a reference frees exactly what nothing refers to any more: on a heap
    whose counts are right, with no cycles, [qobject_decref] returns (the depth of its
    recursion is bounded by the number of objects), never touches freed memory, leaves the
    counts right, and afterwards the objects in memory are those that can be reached from
    the references that are left, with the contents they had. *)
Theorem qobject_decref_exact fuel h l R :
  rc_inv h ({[+ l +]} ⊎ R) → settled h → acyclic h → (size h < fuel)%nat →
  ∃ h', qobject_decref fuel (Some l) h = Ok h' ∧ rc_inv h' R ∧ settled h' ∧
    (∀ k, is_Some (h' !! k) ↔ reach h R k) ∧
    (∀ k c', h' !! k = Some c' → ∃ c, h !! k = Some c ∧ body c' = body c).
Proof.
  intros I Hset A Hf. destruct (decref_ok fuel h l R I) as (h' & Hd & E & I').
  { pose proof (alive_size h). lia. }
  pose proof (evolves_settled _ _ E Hset) as S'.
  exists h'. split_and!; [exact Hd|done|done| |].
  - intros k. split.
    + intros Hk. pose proof (settled_reached h' R I' S' (evolves_acyclic _ _ E A) k Hk) as Hr.
      induction Hr as [k Hin|a c k _ IH Ha Hc]; [by apply reach_root|].
      destruct (ev_from _ _ E a c Ha) as (c0 & H0 & Hb & _). rewrite Hb in Hc.
      apply (reach_edge h R a c0 k); [apply IH; by exists c|done|done].
    + induction 1 as [k Hin|a c k _ [c' Ha'] Ha Hc]; [apply (rc_alive h' R I'); multiset_solver|].
      apply (rc_alive h' R I'). apply gmultiset_elem_of_disj_union. left. apply elem_of_all_refs.
      destruct (ev_from _ _ E a c' Ha') as (c0 & H0 & Hb & _). exists a, c'. split; [done|]. congruence.
  - intros k c' Hk. destruct (ev_from _ _ E k c' Hk) as (c & Hc & Hb & _). by exists c.
Qed.

(** ** A cell that survives can have any body *)

(** [qdict_put_obj] drops the old value while the entry still points to it.  That this
    makes no difference rests on the fact that the body of a cell is read only when the
    cell is destroyed. *)
Definition with_body (l : loc) (b : hbody) (h : heap) : heap := alter (λ c, mkCell (refcnt c) b) l h.

Lemma with_body_same l b h : with_body l b h !! l = (λ c, mkCell (refcnt c) b) <$> h !! l.
Proof. apply lookup_alter_eq. Qed.
Lemma with_body_other l b h k : k ≠ l → with_body l b h !! k = h !! k.
Proof. intros Hk. by apply lookup_alter_ne. Qed.
Lemma with_body_insert l b h k c : k ≠ l → with_body l b (<[k := c]> h) = <[k := c]> (with_body l b h).
Proof. intros Hk. by apply alter_insert_ne. Qed.
Lemma with_body_count l b h n b' : with_body l b (<[l := mkCell n b']> h) = <[l := mkCell n b]> (with_body l b h).
Proof. unfold with_body. rewrite alter_insert_eq. cbn. apply map_eq. intros k. by destruct (decide (k = l)) as [->|];
  [rewrite !lookup_insert_eq|rewrite !lookup_insert_ne, lookup_alter_ne]. Qed.
Lemma with_body_twice l b b' h : with_body l b (with_body l b' h) = with_body l b h.
Proof.
  apply map_eq. intros k. destruct (decide (k = l)) as [->|]; [|by rewrite !with_body_other].
  rewrite !with_body_same. by destruct (h !! l).
Qed.
Lemma with_body_id l c h : h !! l = Some c → with_body l (body c) h = h.
Proof. intros Hl. unfold with_body. apply alter_id. intros c' Hc. rewrite Hl in Hc. injection Hc as <-. by destruct c. Qed.

Definition framed (dec : loc → heap → res heap) : Prop :=
  ∀ v h h', dec v h = Ok h' → dom h' ⊆ dom h ∧ ∀ l b, l ∈ dom h' → dec v (with_body l b h) = Ok (with_body l b h').

Lemma drop_list_framed dec m head h h' :
  framed dec → drop_list dec m head h = Ok h' →
  dom h' ⊆ dom h ∧ ∀ l b, l ≠ m → l ∈ dom h' → drop_list dec m head (with_body l b h) = Ok (with_body l b h').
Proof.
  intros D. revert h. induction head as [|v head IH]; intros h; [by intros [= <-]|]. cbn [drop_list]. unfold hget.
  destruct (h !! m) as [c|] eqn:Hm; [|done]. cbn [mbind res_bind].
  destruct (dec v _) as [h1|] eqn:Hv; [|done]. cbn [mbind res_bind]. intros Hd.
  destruct (D _ _ _ Hv) as [Hs1 F1]. destruct (IH h1 Hd) as [Hs2 F2]. rewrite dom_insert_lookup_L in Hs1 by done.
  split; [set_solver|]. intros l b Hl Hin. rewrite with_body_other, Hm by done. cbn [mbind res_bind].
  rewrite <- with_body_insert by done. rewrite F1 by set_solver. cbn [mbind res_bind]. by apply F2.
Qed.

Lemma drop_bucket_framed dec m i bk h h' :
  framed dec → drop_bucket dec m i bk h = Ok h' →
  dom h' ⊆ dom h ∧ ∀ l b, l ≠ m → l ∈ dom h' → drop_bucket dec m i bk (with_body l b h) = Ok (with_body l b h').
Proof.
  intros D. revert h. induction bk as [|[k v] bk IH]; intros h; [by intros [= <-]|]. cbn [drop_bucket]. unfold hget.
  destruct (h !! m) as [c|] eqn:Hm; [|done]. cbn [mbind res_bind]. destruct (body c) as [| | | | |d] eqn:Hb; try done.
  destruct (dec v _) as [h1|] eqn:Hv; [|done]. cbn [mbind res_bind]. intros Hd.
  destruct (D _ _ _ Hv) as [Hs1 F1]. destruct (IH h1 Hd) as [Hs2 F2]. rewrite dom_insert_lookup_L in Hs1 by done.
  split; [set_solver|]. intros l b Hl Hin. rewrite with_body_other, Hm by done. cbn [mbind res_bind]. rewrite Hb.
  rewrite <- with_body_insert by done. rewrite F1 by set_solver. cbn [mbind res_bind]. by apply F2.
Qed.

Lemma drop_buckets_framed dec m n i h h' :
  framed dec → drop_buckets dec m n i h = Ok h' →
  dom h' ⊆ dom h ∧ ∀ l b, l ≠ m → l ∈ dom h' → drop_buckets dec m n i (with_body l b h) = Ok (with_body l b h').
Proof.
  intros D. revert i h. induction n as [|n IH]; intros i h; [by intros [= <-]|]. cbn [drop_buckets]. unfold hget.
  destruct (h !! m) as [c|] eqn:Hm; [|done]. cbn [mbind res_bind]. destruct (body c) as [| | | | |d] eqn:Hb; try done.
  destruct (drop_bucket dec m i _ h) as [h1|] eqn:Hv; [|done]. cbn [mbind res_bind]. intros Hd.
  destruct (drop_bucket_framed _ _ _ _ _ _ D Hv) as [Hs1 F1]. destruct (IH (S i) h1 Hd) as [Hs2 F2].
  split; [set_solver|]. intros l b Hl Hin. rewrite with_body_other, Hm by done. cbn [mbind res_bind]. rewrite Hb.
  rewrite F1 by set_solver. cbn [mbind res_bind]. by apply F2.
Qed.

Lemma free_framed m h h' :
  qemu_free m h = Ok h' →
  dom h' = dom h ∖ {[ m ]} ∧ ∀ l b, l ≠ m → qemu_free m (with_body l b h) = Ok (with_body l b h').
Proof.
  unfold qemu_free, hget. destruct (h !! m) as [c|] eqn:Hm; [|done]. intros [= <-]. split; [apply dom_delete_L|].
  intros l b Hl. rewrite with_body_other, Hm by done. cbn [mbind res_bind]. f_equal. unfold with_body.
  by apply delete_alter_ne.
Qed.

Lemma destroy_framed dec m h h' :
  framed dec → destroy_obj dec m h = Ok h' →
  dom h' ⊆ dom h ∖ {[ m ]} ∧ ∀ l b, l ∈ dom h' → destroy_obj dec m (with_body l b h) = Ok (with_body l b h').
Proof.
  intros D. assert (∀ (f : heap → res heap), (∀ h1, f h = Ok h1 → dom h1 ⊆ dom h ∧
      ∀ l b, l ≠ m → l ∈ dom h1 → f (with_body l b h) = Ok (with_body l b h1)) →
    (h1 ← f h; qemu_free m h1) = Ok h' →
    dom h' ⊆ dom h ∖ {[ m ]} ∧ ∀ l b, l ≠ m → l ∈ dom h' → (h1 ← f (with_body l b h); qemu_free m h1) = Ok (with_body l b h')) as Hthen.
  { intros f Hf. destruct (f h) as [h1|] eqn:Hfh; [|done]. cbn [mbind res_bind]. intros Hfree.
    destruct (Hf h1 eq_refl) as [Hs F]. destruct (free_framed _ _ _ Hfree) as [Hd Fd]. split; [set_solver|].
    intros l b Hl Hin. rewrite F by set_solver. cbn [mbind res_bind]. by apply Fd. }
  unfold destroy_obj, hget. destruct (h !! m) as [c|] eqn:Hm; [|done]. cbn [mbind res_bind].
  intros Hd. assert (dom h' ⊆ dom h ∖ {[ m ]} ∧ ∀ l b, l ≠ m → l ∈ dom h' → destroy_obj dec m (with_body l b h) = Ok (with_body l b h')) as [Hs F].
  { unfold destroy_obj, hget. destruct (body c) as [x|x|x|x|head|d] eqn:Hb; revert Hd.
    1-4: intros Hd; destruct (Hthen Ok ltac:(intros h1 [= <-]; done) Hd) as [Hs F]; split; [done|]; intros l b Hl Hin;
      rewrite with_body_other, Hm by done; cbn [mbind res_bind]; rewrite Hb; by apply (F l b).
    - unfold qlist_destroy_obj, hget. rewrite Hm. cbn [mbind res_bind]. rewrite Hb. intros Hd.
      destruct (Hthen (drop_list dec m head) ltac:(intros h1; by apply drop_list_framed) Hd) as [Hs F]. split; [done|].
      intros l b Hl Hin. rewrite with_body_other, Hm by done. cbn [mbind res_bind]. rewrite Hb. by apply F.
    - intros Hd. destruct (Hthen (drop_buckets dec m (Z.to_nat QDICT_BUCKET_MAX) 0) ltac:(intros h1; by apply drop_buckets_framed) Hd) as [Hs F].
      split; [done|]. intros l b Hl Hin. rewrite with_body_other, Hm by done. cbn [mbind res_bind]. rewrite Hb. by apply F. }
  split; [done|]. intros l b Hin. apply F; [|done]. set_solver.
Qed.

Lemma decref_framed fuel : framed (decref fuel).
Proof.
  induction fuel as [|fuel IH]; intros v h h'; [done|]. cbn [decref]. unfold hget.
  destruct (h !! v) as [c|] eqn:Hv; [|done]. cbn [mbind res_bind].
  assert (∀ l b, (∃ c', with_body l b h !! v = Some c' ∧ refcnt c' = refcnt c ∧
    <[v := mkCell (u64 (refcnt c - 1)) (body c')]> (with_body l b h) = with_body l b (<[v := mkCell (u64 (refcnt c - 1)) (body c)]> h))) as Hw.
  { intros l b. destruct (decide (v = l)) as [->|Hne].
    - exists (mkCell (refcnt c) b). rewrite with_body_same, Hv, with_body_count. done.
    - exists c. by rewrite with_body_other, with_body_insert. }
  destruct (u64 (refcnt c - 1) =? 0) eqn:Hz.
  - intros Hd. destruct (destroy_framed _ _ _ _ IH Hd) as [Hs F]. rewrite dom_insert_lookup_L in Hs by done.
    split; [set_solver|]. intros l b Hin. destruct (Hw l b) as (c' & -> & Hr & Hi). cbn [mbind res_bind]. rewrite Hr, Hz, Hi. by apply F.
  - intros [= <-]. split; [by rewrite dom_insert_lookup_L|]. intros l b _. destruct (Hw l b) as (c' & -> & Hr & Hi).
    cbn [mbind res_bind]. by rewrite Hr, Hz, Hi.
Qed.

(** ** Clients *)

(** What a client does. *)
Inductive heap_op :=
| New (b : hbody)
| Incref (l : loc)
| Decref (l : loc)
| Append (l v : loc)
| Pop (l : loc)
| Copy (l : loc)
| Put (l : loc) (key : bytes) (v : loc)
| Del (l : loc) (key : bytes).

(** The operation, with the reference it returns. *)
Definition heap_step (fuel : nat) (op : heap_op) (h : heap) : res (option loc * heap) :=
  let void (r : res heap) := h ← r; Ok (None, h) in
  match op with
  | New b => let '(l, h) := qobject_alloc b h in Ok (Some l, h)
  | Incref l => void (qobject_incref (Some l) h)
  | Decref l => void (qobject_decref fuel (Some l) h)
  | Append l v => void (heap_append l v h)
  | Pop l => heap_pop l h
  | Copy l => '(dst, h) ← heap_copy l h; Ok (Some dst, h)
  | Put l key v => void (heap_put fuel l key v h)
  | Del l key => void (heap_del fuel l key h)
  end.

(** The references the client owns afterwards. *)
Definition owned_after (op : heap_op) (ret : option loc) (R : refs) : refs :=
  match op with
  | New _ | Copy _ | Pop _ => match ret with Some v => {[+ v +]} ⊎ R | None => R end
  | Incref l => {[+ l +]} ⊎ R
  | Decref v | Append _ v | Put _ _ v => R ∖ {[+ v +]}
  | Del _ _ => R
  end.

Definition is_list (h : heap) (l : loc) : Prop := ∃ n head, h !! l = Some (mkCell n (HList head)).
Definition is_dict (h : heap) (l : loc) : Prop := ∃ n d, h !! l = Some (mkCell n (HDict d)).

(** References the operation may add. *)
Definition op_room (op : heap_op) (h : heap) : nat :=
  match op with
  | New _ | Incref _ => 1
  | Copy l => match h !! l with Some c => S (length (children (body c))) | None => 1 end
  | _ => 0
  end.

(** The rules of ownership: what is given away or dropped must be owned, a dictionary that
    is changed must be owned, objects that are used must exist, and there are fewer
    references than a count can hold. *)
Definition owns (op : heap_op) (h : heap) (R : refs) : Prop :=
  Z.of_nat (size (all_refs h ⊎ R) + op_room op h) < 2 ^ 64 ∧
  match op with
  | New b => children b = [] ∧ table_ok b
  | Incref l => is_Some (h !! l)
  | Decref l => l ∈ R
  | Append l v => is_list h l ∧ v ∈ R
  | Pop l | Copy l => is_list h l
  | Put l key v => is_dict h l ∧ {[+ l; v +]} ⊆ R
  | Del l key => is_dict h l ∧ l ∈ R
  end.

Lemma owned_split (R : refs) l : l ∈ R → R = {[+ l +]} ⊎ (R ∖ {[+ l +]}).
Proof. intros Hl. apply gmultiset_disj_union_difference', Hl. Qed.

Lemma alloc_ok b h R :
  rc_inv h R → children b = [] → table_ok b → Z.of_nat (size (all_refs h ⊎ R)) + 1 < 2 ^ 64 →
  let l := fresh (dom h) in
  h !! l = None ∧ rc_inv (<[l := mkCell 1 b]> h) ({[+ l +]} ⊎ R) ∧ all_refs (<[l := mkCell 1 b]> h) = all_refs h.
Proof.
  intros I Hb Ht Hs l. assert (h !! l = None) as Hl by (apply not_elem_of_dom; apply is_fresh).
  assert (all_refs (<[l := mkCell 1 b]> h) = all_refs h) as Hr.
  { rewrite all_refs_fresh by done. unfold kids. cbn [body]. rewrite Hb, list_to_set_disj_nil. multiset_solver. }
  split; [done|]. split; [|done]. destruct I as [C A B T].
  assert (∀ k, k ∈ all_refs h ⊎ R → k ≠ l) as Hne by (intros k Hk ->; destruct (A l Hk); congruence).
  constructor; rewrite ?Hr.
  - intros k c Hk. apply lookup_insert_Some in Hk as [[<- <-]|[Hkl Hk]]; cbn [refcnt].
    + rewrite !multiplicity_disj_union, multiplicity_singleton_eq. assert (¬ l ∈ all_refs h ⊎ R) as Hnot by (intros Hin; by apply (Hne l Hin)).
      rewrite elem_of_multiplicity, multiplicity_disj_union in Hnot. lia.
    + rewrite (C k c Hk), !multiplicity_disj_union, multiplicity_singleton_ne by done. lia.
  - intros k Hk. rewrite lookup_insert_is_Some'. destruct (decide (k = l)) as [->|Hkl]; [by left|right]. apply A. multiset_solver.
  - rewrite !gmultiset_size_disj_union, gmultiset_size_singleton. rewrite gmultiset_size_disj_union in Hs. lia.
  - intros k c Hk. apply lookup_insert_Some in Hk as [[<- <-]|[_ Hk]]; [done|by apply (T k)].
Qed.

Lemma incref_ok l h R :
  rc_inv h R → is_Some (h !! l) → Z.of_nat (size (all_refs h ⊎ R)) + 1 < 2 ^ 64 →
  ∃ h' c, h !! l = Some c ∧ qobject_incref (Some l) h = Ok h' ∧ h' = <[l := mkCell (refcnt c + 1) (body c)]> h ∧
    rc_inv h' ({[+ l +]} ⊎ R) ∧ all_refs h' = all_refs h.
Proof.
  intros [C A B T] [c Hl] Hs. unfold qobject_incref, hget. rewrite Hl. cbn [mbind res_bind].
  pose proof (multiplicity_size (all_refs h ⊎ R) l) as Hm. pose proof (C l c Hl) as Hc.
  rewrite u64_small by (unfold is_u64; lia). set (h' := <[l := _]> h).
  assert (all_refs h' = all_refs h) as Hr by by apply (all_refs_same h l c).
  exists h', c. split_and!; try done. constructor; rewrite ?Hr.
  - intros k c' Hk. apply lookup_insert_Some in Hk as [[<- <-]|[Hkl Hk]]; cbn [refcnt].
    + rewrite Hc, !multiplicity_disj_union, multiplicity_singleton_eq. lia.
    + rewrite (C k c' Hk), !multiplicity_disj_union, multiplicity_singleton_ne by done. lia.
  - intros k Hk. unfold h'. rewrite lookup_insert_is_Some'. destruct (decide (l = k)) as [->|Hkl]; [by left|right]. apply A. multiset_solver.
  - rewrite !gmultiset_size_disj_union, gmultiset_size_singleton. rewrite gmultiset_size_disj_union in Hs. lia.
  - intros k c' Hk. apply lookup_insert_Some in Hk as [[<- <-]|[_ Hk]]; cbn [body]; by eapply T.
Qed.

Lemma settled_insert h l c : settled h → refcnt c ≠ 0 → settled (<[l := c]> h).
Proof. intros Hs Hc k c' Hk. apply lookup_insert_Some in Hk as [[<- <-]|[_ Hk]]; [done|by apply (Hs k)]. Qed.

Lemma append_ok l v h R n head :
  rc_inv h ({[+ v +]} ⊎ R) → h !! l = Some (mkCell n (HList head)) →
  heap_append l v h = Ok (<[l := mkCell n (HList (head ++ [v]))]> h) ∧ rc_inv (<[l := mkCell n (HList (head ++ [v]))]> h) R.
Proof.
  intros I Hl. unfold heap_append, heap_list, hget. rewrite Hl. split; [done|].
  apply (rc_update h ({[+ v +]} ⊎ R) R l (mkCell n (HList head)) _ Hl); [done| |done].
  unfold kids. cbn [body children]. rewrite list_to_set_disj_app, list_to_set_disj_cons, list_to_set_disj_nil. multiset_solver.
Qed.

Lemma pop_ok l h R n head :
  rc_inv h R → h !! l = Some (mkCell n (HList head)) → settled h →
  ∃ v h', heap_pop l h = Ok (v, h') ∧ rc_inv h' (match v with Some v => {[+ v +]} ⊎ R | None => R end) ∧ settled h'.
Proof.
  intros I Hl Hs. unfold heap_pop, heap_list, hget. rewrite Hl. cbn [mbind res_bind body refcnt].
  destruct head as [|v rest]; [by exists None, h|]. eexists _, _. split; [reflexivity|]. split.
  - apply (rc_update h R _ l (mkCell n (HList (v :: rest))) (HList rest) Hl); [done| |done].
    unfold kids. cbn [body children refcnt]. rewrite list_to_set_disj_cons. multiset_solver.
  - apply settled_insert; [done|]. exact (Hs l _ Hl).
Qed.

Lemma copy_elems_ok dst elems h R n pre :
  rc_inv h R → settled h → h !! dst = Some (mkCell n (HList pre)) →
  (∀ v, v ∈ elems → v ≠ dst ∧ is_Some (h !! v)) →
  Z.of_nat (size (all_refs h ⊎ R) + length elems) < 2 ^ 64 →
  ∃ h', copy_elems dst elems h = Ok h' ∧ rc_inv h' R ∧ settled h'.
Proof.
  revert h pre. induction elems as [|v elems IH]; intros h pre I Hs Hd Hal Hb; [by exists h|]. cbn [copy_elems].
  destruct (Hal v ltac:(left)) as [Hv Hva]. cbn [length] in Hb.
  destruct (incref_ok v h R I Hva ltac:(lia)) as (h1 & c & Hc & -> & -> & I1 & Hr1). cbn [mbind res_bind].
  set (h1 := <[v := _]> h) in *. assert (h1 !! dst = Some (mkCell n (HList pre))) as Hd1 by by (unfold h1; rewrite lookup_insert_ne).
  destruct (append_ok dst v h1 R n pre I1 Hd1) as [-> I2]. cbn [mbind res_bind]. set (h2 := <[dst := _]> h1) in *.
  assert (all_refs h2 = {[+ v +]} ⊎ all_refs h) as Hr2.
  { pose proof (all_refs_update h1 dst _ (mkCell n (HList (pre ++ [v]))) Hd1) as Hu. fold h2 in Hu. rewrite Hr1 in Hu. revert Hu.
    unfold kids. cbn [body children]. rewrite list_to_set_disj_app, list_to_set_disj_cons, list_to_set_disj_nil. multiset_solver. }
  apply (IH h2 (pre ++ [v])); [done| |apply lookup_insert_eq| |].
  - pose proof (Hs v c Hc). pose proof (rc_count h R I v c Hc). apply settled_insert; [apply settled_insert; [done|cbn; lia]|exact (Hs dst _ Hd)].
  - intros w Hw. destruct (Hal w ltac:(by right)) as [Hwd Hwa]. split; [done|]. unfold h2, h1.
    rewrite !lookup_insert_is_Some'. auto.
  - rewrite Hr2, !gmultiset_size_disj_union, gmultiset_size_singleton. rewrite gmultiset_size_disj_union in Hb. lia.
Qed.

Lemma copy_ok l h R n head :
  rc_inv h R → settled h → h !! l = Some (mkCell n (HList head)) →
  Z.of_nat (size (all_refs h ⊎ R) + S (length head)) < 2 ^ 64 →
  ∃ dst h', heap_copy l h = Ok (dst, h') ∧ rc_inv h' ({[+ dst +]} ⊎ R) ∧ settled h'.
Proof.
  intros I Hs Hl Hb. unfold heap_copy, qobject_alloc.
  destruct (alloc_ok (HList []) h R I eq_refl Logic.I ltac:(lia)) as (Hf & I1 & Hr). set (dst := fresh (dom h)) in *.
  set (h1 := <[dst := _]> h) in *. assert (dst ≠ l) as Hne by (intros E; rewrite E in Hf; congruence).
  unfold heap_list, hget, h1. rewrite lookup_insert_ne, Hl by done. cbn [mbind res_bind body]. fold h1.
  destruct (copy_elems_ok dst head h1 ({[+ dst +]} ⊎ R) 1 []) as (h' & -> & I2 & S2); [done| |apply lookup_insert_eq| | |].
  - by apply settled_insert.
  - intros v Hv. assert (is_Some (h !! v)) as Hva.
    { apply (rc_alive h R I), gmultiset_elem_of_disj_union. left. apply elem_of_all_refs. by eexists l, _. }
    split; [intros ->; destruct Hva; congruence|]. unfold h1. rewrite lookup_insert_is_Some'. auto.
  - rewrite Hr, !gmultiset_size_disj_union, gmultiset_size_singleton. rewrite gmultiset_size_disj_union in Hb. lia.
  - by exists dst, h'.
Qed.

(** ** Dictionaries *)

Lemma concat_split {A} (t : list (list A)) i b : t !! i = Some b → concat t ≡ₚ b ++ concat (<[i := []]> t).
Proof.
  intros Hi. assert (i < length t)%nat as Hlt by by eapply lookup_lt_Some.
  rewrite <- (take_drop_middle t i b Hi) at 1. rewrite insert_take_drop by done. rewrite !concat_app. cbn [concat].
  rewrite !app_assoc. by rewrite (Permutation_app_comm b), app_nil_r.
Qed.

(** The values of a table whose bucket [i] was replaced. *)
Lemma entries_bucket (d : QDict loc) i b b' sz :
  qdict_table d !! i = Some b →
  ∃ rest, (qdict_entries d).*2 ≡ₚ b.*2 ++ rest ∧ (qdict_entries (mkQDict (<[i := b']> (qdict_table d)) sz)).*2 ≡ₚ b'.*2 ++ rest.
Proof.
  intros Hi. exists (concat (<[i := []]> (qdict_table d))).*2. unfold qdict_entries. cbn [qdict_table]. split.
  - by rewrite (concat_split _ i b Hi), fmap_app.
  - rewrite (concat_split (<[i := b']> (qdict_table d)) i b'), list_insert_insert_eq, fmap_app; [done|].
    apply list_lookup_insert_eq. by eapply lookup_lt_Some.
Qed.

Lemma replace_values (l : list (bytes * loc)) key v e :
  find_in l key = Some e → entry_value e :: (replace_value l key v).*2 ≡ₚ v :: l.*2.
Proof.
  induction l as [|[k x] l IH]; [done|]. cbn [find_in replace_value]. destruct (streq k key).
  - intros [= <-]. cbn. apply Permutation_swap.
  - intros He. cbn. rewrite Permutation_swap, (IH He). apply Permutation_swap.
Qed.
Lemma remove_values (l : list (bytes * loc)) key e :
  find_in l key = Some e → l.*2 ≡ₚ entry_value e :: (remove_entry l key).*2.
Proof.
  induction l as [|[k x] l IH]; [done|]. cbn [find_in remove_entry]. destruct (streq k key).
  - by intros [= <-].
  - intros He. cbn. rewrite (IH He). apply Permutation_swap.
Qed.

Lemma table_bucket_at (d : QDict loc) key : table_ok (HDict d) → qdict_table d !! bucket_of key = Some (bucket d (bucket_of key)).
Proof.
  intros Ht. cbn in Ht. unfold bucket. destruct (lookup_lt_is_Some_2 (qdict_table d) (bucket_of key)) as [b Hb].
  - rewrite Ht. apply bucket_of_lt.
  - by rewrite Hb.
Qed.

Definition dict_refs (d : QDict loc) : refs := list_to_set_disj (children (HDict d)).

Lemma kids_dict n d : kids (mkCell n (HDict d)) = dict_refs d.
Proof. reflexivity. Qed.

Lemma put_refs d key v :
  table_ok (HDict d) →
  table_ok (HDict (qdict_put_obj d key v)) ∧
  match qdict_get d key with
  | Some old => {[+ old +]} ⊎ dict_refs (qdict_put_obj d key v) = {[+ v +]} ⊎ dict_refs d
  | None => dict_refs (qdict_put_obj d key v) = {[+ v +]} ⊎ dict_refs d
  end.
Proof.
  intros Ht. pose proof (table_bucket_at d key Ht) as Hb. unfold qdict_get, qdict_put_obj, qdict_find, dict_refs. cbn in Ht.
  destruct (find_in (bucket d (bucket_of key)) key) as [e|] eqn:He; cbn [fmap option_fmap option_map table_ok qdict_table children];
    rewrite length_insert; (split; [done|]).
  - destruct (entries_bucket d _ _ (replace_value (bucket d (bucket_of key)) key v) (qdict_sz d) Hb) as (rest & -> & ->).
    rewrite <- !list_to_set_disj_cons, !app_comm_cons. by rewrite (replace_values _ key v e He).
  - destruct (entries_bucket d _ _ (alloc_entry key v :: bucket d (bucket_of key)) (u64 (qdict_sz d + 1)) Hb) as (rest & -> & ->).
    by rewrite <- list_to_set_disj_cons.
Qed.

Lemma unlink_refs d key old :
  table_ok (HDict d) → qdict_get d key = Some old →
  table_ok (HDict (unlink_entry d key)) ∧ {[+ old +]} ⊎ dict_refs (unlink_entry d key) = dict_refs d.
Proof.
  intros Ht. pose proof (table_bucket_at d key Ht) as Hb. unfold qdict_get, unlink_entry, qdict_del, qdict_find, dict_refs. cbn in Ht.
  destruct (find_in (bucket d (bucket_of key)) key) as [e|] eqn:He; [|done]. intros [= <-]. cbn [table_ok qdict_table children].
  rewrite length_insert. split; [done|].
  destruct (entries_bucket d _ _ (remove_entry (bucket d (bucket_of key)) key) (qdict_sz d) Hb) as (rest & -> & ->).
  rewrite <- list_to_set_disj_cons. by rewrite (remove_values _ key e He).
Qed.

Lemma heap_dict_at l h n d : h !! l = Some (mkCell n (HDict d)) → heap_dict l h = Ok (n, d).
Proof. intros Hl. unfold heap_dict, hget. by rewrite Hl. Qed.

Lemma put_ok fuel l key v h R n d :
  rc_inv h ({[+ v +]} ⊎ R) → l ∈ R → settled h → h !! l = Some (mkCell n (HDict d)) → (size h < fuel)%nat →
  ∃ h', heap_put fuel l key v h = Ok h' ∧ rc_inv h' R ∧ settled h'.
Proof.
  intros I HlR Hs Hl Hf. pose proof (rc_tables _ _ I l _ Hl) as Ht. destruct (put_refs d key v Ht) as [Ht' Hk].
  set (b' := HDict (qdict_put_obj d key v)) in *.
  unfold heap_put. rewrite (heap_dict_at l h n d Hl). cbn [mbind res_bind].
  destruct (qdict_get d key) as [old|] eqn:Hg.
  - set (hb := <[l := mkCell n b']> h).
    assert (rc_inv hb ({[+ old +]} ⊎ R)) as Ib.
    { apply (rc_update h ({[+ v +]} ⊎ R) _ l (mkCell n (HDict d)) b' Hl Ht'); [|done].
      unfold b'. rewrite !kids_dict. multiset_solver. }
    assert (size hb = size h) as Hsz by (apply map_size_insert_Some; by eexists).
    destruct (decref_ok fuel hb old R Ib) as (hb' & Hd & E & I').
    { pose proof (alive_size hb). lia. }
    destruct (rc_alive hb' R I' l ltac:(multiset_solver)) as [c' Hc'].
    destruct (ev_from _ _ E l c' Hc') as (c0 & H0 & Hb0 & _). unfold hb in H0. rewrite lookup_insert_eq in H0. injection H0 as <-.
    destruct (decref_framed fuel old hb hb' Hd) as [_ F].
    assert (with_body l (HDict d) hb = h) as Hhb.
    { unfold hb, b'. rewrite with_body_count. rewrite <- (with_body_id l _ h Hl) at 2. apply map_eq. intros k.
      destruct (decide (k = l)) as [->|Hkl]; [by rewrite lookup_insert_eq, with_body_same, Hl|].
      by rewrite lookup_insert_ne, !with_body_other by done. }
    specialize (F l (HDict d) ltac:(apply elem_of_dom; by exists c')). rewrite Hhb in F.
    unfold qobject_decref. rewrite F. cbn [mbind res_bind].
    rewrite (heap_dict_at l _ (refcnt c') d) by by rewrite with_body_same, Hc'. cbn [mbind res_bind].
    assert (<[l := mkCell (refcnt c') (HDict (qdict_put_obj d key v))]> (with_body l (HDict d) hb') = hb') as ->.
    { apply map_eq. intros k. destruct (decide (k = l)) as [->|Hkl]; [|by rewrite lookup_insert_ne, with_body_other].
      rewrite lookup_insert_eq, Hc'. f_equal. destruct c' as [m bb]. cbn [body refcnt] in Hb0 |- *. by rewrite Hb0. }
    exists hb'. split_and!; [done|done|]. apply (evolves_settled hb hb' E). apply settled_insert; [done|]. exact (Hs l _ Hl).
  - cbn [mbind res_bind]. rewrite (heap_dict_at l h n d Hl). cbn [mbind res_bind]. eexists. split; [reflexivity|]. split.
    + apply (rc_update h ({[+ v +]} ⊎ R) _ l (mkCell n (HDict d)) b' Hl Ht'); [|done].
      unfold b'. rewrite !kids_dict. multiset_solver.
    + apply settled_insert; [done|]. exact (Hs l _ Hl).
Qed.

Lemma del_ok fuel l key h R n d :
  rc_inv h R → l ∈ R → settled h → h !! l = Some (mkCell n (HDict d)) → (size h < fuel)%nat →
  ∃ h', heap_del fuel l key h = Ok h' ∧ rc_inv h' R ∧ settled h'.
Proof.
  intros I HlR Hs Hl Hf. pose proof (rc_tables _ _ I l _ Hl) as Ht.
  unfold heap_del. rewrite (heap_dict_at l h n d Hl). cbn [mbind res_bind].
  destruct (qdict_get d key) as [old|] eqn:Hg; [|by exists h].
  destruct (unlink_refs d key old Ht Hg) as [Ht' Hk]. set (hb := <[l := _]> h).
  assert (rc_inv hb ({[+ old +]} ⊎ R)) as Ib.
  { apply (rc_update h R _ l (mkCell n (HDict d)) _ Hl Ht'); [|done].
    rewrite !kids_dict. multiset_solver. }
  assert (size hb = size h) as Hsz by (apply map_size_insert_Some; by eexists).
  destruct (decref_ok fuel hb old R Ib) as (h1 & Hd & E & I1).
  { pose proof (alive_size hb). lia. }
  destruct (rc_alive h1 R I1 l ltac:(multiset_solver)) as [c' Hc'].
  destruct (ev_from _ _ E l c' Hc') as (c0 & H0 & Hb0 & _). unfold hb in H0. rewrite lookup_insert_eq in H0. injection H0 as <-.
  assert (settled h1) as S1 by (apply (evolves_settled hb h1 E), settled_insert; [done|exact (Hs l _ Hl)]).
  cbn [body] in Hb0. unfold qobject_decref. rewrite Hd. cbn [mbind res_bind].
  rewrite (heap_dict_at l h1 (refcnt c') (unlink_entry d key)) by (rewrite Hc', <- Hb0; by destruct c').
  cbn [mbind res_bind]. eexists. split; [reflexivity|]. split.
  - apply (rc_update h1 R R l c' _ Hc'); [done| |done]. unfold kids. by rewrite Hb0.
  - apply settled_insert; [done|]. exact (S1 l _ Hc').
Qed.

(** ** Runs *)

(** Whatever the fuel, an operation within the rules that has enough of it. *)
Lemma heap_step_ok fuel op h R :
  rc_inv h R → settled h → owns op h R → (size h < fuel)%nat →
  ∃ ret h', heap_step fuel op h = Ok (ret, h') ∧ rc_inv h' (owned_after op ret R) ∧ settled h'.
Proof.
  intros I Hs [Hroom Ho] Hf. destruct op as [b|l|l|l v|l|l|l key v|l key]; cbn [heap_step owned_after op_room] in *.
  - destruct Ho as [Hb Ht]. destruct (alloc_ok b h R I Hb Ht ltac:(lia)) as (Hl & I' & _). unfold qobject_alloc.
    eexists _, _. split; [reflexivity|]. split; [done|]. by apply settled_insert.
  - destruct (incref_ok l h R I Ho ltac:(lia)) as (h' & c & Hc & -> & -> & I' & _). eexists _, _. split; [reflexivity|]. split; [done|].
    apply settled_insert; [done|]. pose proof (Hs l c Hc). pose proof (rc_count h R I l c Hc). cbn. lia.
  - rewrite (owned_split R l Ho) in I. destruct (decref_ok fuel h l _ I) as (h' & Hd & E & I').
    { pose proof (alive_size h). lia. }
    cbn [qobject_decref]. rewrite Hd. eexists _, _. split; [reflexivity|]. split; [done|]. by apply (evolves_settled h).
  - destruct Ho as [(n & head & Hl) Hv]. rewrite (owned_split R v Hv) in I.
    destruct (append_ok l v h _ n head I Hl) as [-> I']. eexists _, _. split; [reflexivity|]. split; [done|].
    apply settled_insert; [done|]. exact (Hs l _ Hl).
  - destruct Ho as (n & head & Hl). by apply (pop_ok l h R n head).
  - destruct Ho as (n & head & Hl). rewrite Hl in Hroom. cbn [body children] in Hroom.
    destruct (copy_ok l h R n head I Hs Hl Hroom) as (dst & h' & -> & I' & S'). by eexists _, _.
  - destruct Ho as [(n & d & Hl) HR]. assert (v ∈ R) as Hv by multiset_solver. rewrite (owned_split R v Hv) in I.
    destruct (put_ok fuel l key v h (R ∖ {[+ v +]}) n d I) as (h' & -> & I' & S'); [|done|done|done|by eexists _, _].
    rewrite (gmultiset_disj_union_difference {[+ l; v +]} R HR). multiset_solver.
  - destruct Ho as [(n & d & Hl) HR]. destruct (del_ok fuel l key h R n d I HR Hs Hl Hf) as (h' & -> & I' & S'). by eexists _, _.
Qed.

(** The states a client can reach that keeps to the rules. *)
Inductive heap_run : heap → refs → list heap_op → heap → refs → Prop :=
| run_nil h R : heap_run h R [] h R
| run_cons h R op ops fuel ret h1 h2 R2 :
    owns op h R → (size h < fuel)%nat → heap_step fuel op h = Ok (ret, h1) → heap_run h1 (owned_after op ret R) ops h2 R2 →
    heap_run h R (op :: ops) h2 R2.

Lemma heap_run_ok h R ops h' R' : heap_run h R ops h' R' → rc_inv h R → settled h → rc_inv h' R' ∧ settled h'.
Proof.
  induction 1 as [h R|h R op ops fuel ret h1 h2 R2 Ho Hf Hst Hrun IH]; intros I Hs; [done|].
  destruct (heap_step_ok fuel op h R I Hs Ho Hf) as (ret' & h1' & Hst' & I' & S').
  rewrite Hst in Hst'. injection Hst' as <- <-. auto.
Qed.

Lemma rc_inv_empty : rc_inv ∅ ∅.
Proof.
  assert (all_refs ∅ = ∅) as E by apply map_fold_empty. constructor; rewrite ?E.
  - intros l c Hl. by rewrite lookup_empty in Hl.
  - multiset_solver.
  - rewrite gmultiset_disj_union_left_id, gmultiset_size_empty. lia.
  - intros l c Hl. by rewrite lookup_empty in Hl.
Qed.

(** [C3]: A client that keeps the rules of ownership is memory safe and leaks nothing:
    starting from an empty heap, every next operation within the rules returns (no freed
    object is touched, no count wraps, and the recursion ends); every object in memory has
    the count of its references; and when the client owns nothing any more and has built
    no cycle, nothing is left in memory. *)
Theorem qobject_clients_safe ops h R :
  heap_run ∅ ∅ ops h R →
  (∀ op fuel, owns op h R → (size h < fuel)%nat → ∃ ret h', heap_step fuel op h = Ok (ret, h')) ∧
  (∀ l c, h !! l = Some c → refcnt c = Z.of_nat (multiplicity l (all_refs h ⊎ R)) ∧ refcnt c ≠ 0) ∧
  (R = ∅ → acyclic h → h = ∅).
Proof.
  intros Hrun. destruct (heap_run_ok _ _ _ _ _ Hrun rc_inv_empty) as [I Hs]; [by intros l c Hl; rewrite lookup_empty in Hl|]. split_and!.
  - intros op fuel Ho Hf. destruct (heap_step_ok fuel op h R I Hs Ho Hf) as (ret & h' & Hst & _). by exists ret, h'.
  - intros l c Hl. split; [by apply (rc_count h R I)|by apply (Hs l)].
  - intros -> Hac. apply map_empty. intros k. destruct (h !! k) as [c|] eqn:Hk; [|done].
    assert (∀ k, ¬ reach h ∅ k) as Hno by (induction 1; multiset_solver || done).
    destruct (Hno k). apply (settled_reached h ∅ I Hs Hac). by exists c.
Qed.

(** A list that holds an integer twice. *)
Definition example_heap : heap := <[1%positive := mkCell 1 (HList [2; 2]%positive)]> {[ 2%positive := mkCell 2 (HInt 5) ]}.

Lemma example_heap_inv : rc_inv example_heap ({[+ 1%positive +]} ⊎ ∅) ∧ settled example_heap ∧ acyclic example_heap.
Proof.
  assert (all_refs example_heap = {[+ 2%positive; 2%positive +]}) as E by (apply (bool_decide_unpack (_ = _)); by vm_compute).
  assert (∀ l c, example_heap !! l = Some c → (l = 1%positive ∧ c = mkCell 1 (HList [2; 2]%positive)) ∨ (l = 2%positive ∧ c = mkCell 2 (HInt 5))) as Hc.
  { intros l c Hl. unfold example_heap in Hl. apply lookup_insert_Some in Hl as [[<- <-]|[_ Hl]]; [by left|].
    apply lookup_singleton_Some in Hl as [<- <-]. by right. }
  split; [|split].
  - constructor; rewrite ?E.
    + intros l c Hl. destruct (Hc l c Hl) as [[-> ->]|[-> ->]]; by vm_compute.
    + intros l Hl. assert (l = 1%positive ∨ l = 2%positive) as [-> | ->] by multiset_solver; by eexists.
    + by vm_compute.
    + intros l c Hl. by destruct (Hc l c Hl) as [[-> ->]|[-> ->]].
  - intros l c Hl. by destruct (Hc l c Hl) as [[-> ->]|[-> ->]].
  - exists (λ l, if decide (l = 1%positive) then 1%nat else 0%nat). intros l c k Hl Hk.
    destruct (Hc l c Hl) as [[-> ->]|[-> ->]]; cbn in Hk; [|set_solver]. assert (k = 2%positive) as -> by set_solver. by vm_compute; lia.
Qed.

Lemma qobject_decref_exact_witness : ∃ h', qobject_decref 3 (Some 1%positive) example_heap = Ok h' ∧ h' !! 2%positive = None.
Proof.
  destruct example_heap_inv as (I & S & A).
  destruct (qobject_decref_exact 3 example_heap 1 ∅ I S A ltac:(by vm_compute; lia)) as (h' & Hd & _ & _ & Hr & _).
  exists h'. split; [exact Hd|]. destruct (h' !! 2%positive) eqn:E; [|done].
  assert (∀ k, ¬ reach example_heap ∅ k) as Hno by (induction 1; multiset_solver || done).
  destruct (Hno 2%positive). apply Hr. by eexists.
Defined.

(** A list is made, an integer is put into it, and the list is dropped. *)
Definition example_ops : list heap_op := [New (HList []); New (HInt 5); Append 1 2; Decref 1]%positive.

Lemma qobject_clients_safe_witness : ∃ h R, heap_run ∅ ∅ example_ops h R ∧ R = ∅ ∧ h = ∅.
Proof.
  assert (∃ h R, heap_run ∅ ∅ example_ops h R ∧ R = ∅ ∧ acyclic h) as (h & R & Hrun & HR & Hac).
  { eexists _, _. split; [|split].
    - unfold example_ops. eapply (run_cons _ _ _ _ 10); [split; [by vm_compute|done]|by vm_compute; lia|reflexivity|].
      eapply (run_cons _ _ _ _ 10); [split; [by vm_compute|done]|by vm_compute; lia|reflexivity|].
      eapply (run_cons _ _ _ _ 10); [split; [by vm_compute|split; [by eexists _, _|by apply (bool_decide_unpack (_ ∈ _)); vm_compute]]|by vm_compute; lia|reflexivity|].
      eapply (run_cons _ _ _ _ 10); [split; [by vm_compute|by apply (bool_decide_unpack (_ ∈ _)); vm_compute]|by vm_compute; lia|vm_compute; reflexivity|].
      apply run_nil.
    - apply (bool_decide_unpack (_ = _)). by vm_compute.
    - exists (λ _, 0%nat). intros l c k Hl. done. }
  exists h, R. split; [exact Hrun|]. split; [exact HR|]. destruct (qobject_clients_safe example_ops h R Hrun) as (_ & _ & Hend). by apply Hend.
Defined.
