(* ===== verification/JsonLexer.v ===== *)
(** * JsonLexer: the table-driven lexer of json-lexer.c

    The transition table [json_lexer] is given row by row as the C initialiser
    gives it: a list of designated ranges, later ones overriding earlier ones,
    everything else 0 = [IN_ERROR].  [json_lexer_feed_char] is the do-while loop
    over one character; the emitter callback is a parameter that updates a
    client state, so that the streamer can be plugged in. *)

From S2P Require Import Prelude.
Local Open Scope Z_scope.

Definition MAX_TOKEN_SIZE : Z := Z.shiftl 64 20.

Inductive json_lexer_state :=
| IN_ERROR
| IN_DQ_UCODE3 | IN_DQ_UCODE2 | IN_DQ_UCODE1 | IN_DQ_UCODE0
| IN_DQ_STRING_ESCAPE | IN_DQ_STRING
| IN_SQ_UCODE3 | IN_SQ_UCODE2 | IN_SQ_UCODE1 | IN_SQ_UCODE0
| IN_SQ_STRING_ESCAPE | IN_SQ_STRING
| IN_ZERO | IN_DIGITS | IN_DIGIT | IN_EXP_E | IN_MANTISSA | IN_MANTISSA_DIGITS
| IN_NONZERO_NUMBER | IN_NEG_NONZERO_NUMBER
| IN_KEYWORD
| IN_ESCAPE | IN_ESCAPE_L | IN_ESCAPE_LL | IN_ESCAPE_I | IN_ESCAPE_I6 | IN_ESCAPE_I64
| IN_WHITESPACE
| IN_START.

Inductive JSONTokenType :=
| JSON_OPERATOR | JSON_INTEGER | JSON_FLOAT | JSON_KEYWORD
| JSON_STRING | JSON_ESCAPE | JSON_SKIP | JSON_ERROR.

(** An entry of the table: a lexer state (below 100) or a token type (100 up). *)
Inductive table_entry :=
| ST (s : json_lexer_state)
| TOK (t : JSONTokenType).

#[global] Instance json_lexer_state_eq_dec : EqDecision json_lexer_state.
Proof. solve_decision. Defined.
#[global] Instance JSONTokenType_eq_dec : EqDecision JSONTokenType.
Proof. solve_decision. Defined.
#[global] Instance table_entry_eq_dec : EqDecision table_entry.
Proof. solve_decision. Defined.

(** The numbers of the two C enumerations. *)
Definition state_code (s : json_lexer_state) : Z :=
  match s with
  | IN_ERROR => 0 | IN_DQ_UCODE3 => 1 | IN_DQ_UCODE2 => 2 | IN_DQ_UCODE1 => 3
  | IN_DQ_UCODE0 => 4 | IN_DQ_STRING_ESCAPE => 5 | IN_DQ_STRING => 6
  | IN_SQ_UCODE3 => 7 | IN_SQ_UCODE2 => 8 | IN_SQ_UCODE1 => 9 | IN_SQ_UCODE0 => 10
  | IN_SQ_STRING_ESCAPE => 11 | IN_SQ_STRING => 12 | IN_ZERO => 13 | IN_DIGITS => 14
  | IN_DIGIT => 15 | IN_EXP_E => 16 | IN_MANTISSA => 17 | IN_MANTISSA_DIGITS => 18
  | IN_NONZERO_NUMBER => 19 | IN_NEG_NONZERO_NUMBER => 20 | IN_KEYWORD => 21
  | IN_ESCAPE => 22 | IN_ESCAPE_L => 23 | IN_ESCAPE_LL => 24 | IN_ESCAPE_I => 25
  | IN_ESCAPE_I6 => 26 | IN_ESCAPE_I64 => 27 | IN_WHITESPACE => 28 | IN_START => 29
  end.
Definition token_code (t : JSONTokenType) : Z :=
  match t with
  | JSON_OPERATOR => 100 | JSON_INTEGER => 101 | JSON_FLOAT => 102 | JSON_KEYWORD => 103
  | JSON_STRING => 104 | JSON_ESCAPE => 105 | JSON_SKIP => 106 | JSON_ERROR => 107
  end.
Definition entry_code (e : table_entry) : Z :=
  match e with ST s => state_code s | TOK t => token_code t end.

(** ** The table *)

(** [range lo hi e] is ['lo' ... 'hi'] = e, [chr c e] is ['c'] = e. *)
Definition range (lo hi : byte) (e : table_entry) : Z * Z * table_entry := (bz lo, bz hi, e).
Definition chr (c : byte) (e : table_entry) : Z * Z * table_entry := (bz c, bz c, e).
Definition TERMINAL (t : JSONTokenType) : Z * Z * table_entry := (0, 0x7F, TOK t).

Definition hex_row (next : json_lexer_state) : list (Z * Z * table_entry) :=
  [range "0" "9" (ST next); range "a" "f" (ST next); range "A" "F" (ST next)].

Definition dq : byte := x22.
Definition sq : byte := x27.
Definition backslash : byte := x5c.

Definition json_lexer_rows (s : json_lexer_state) : list (Z * Z * table_entry) :=
  match s with
  (* double quote string *)
  | IN_DQ_UCODE3 => hex_row IN_DQ_STRING
  | IN_DQ_UCODE2 => hex_row IN_DQ_UCODE3
  | IN_DQ_UCODE1 => hex_row IN_DQ_UCODE2
  | IN_DQ_UCODE0 => hex_row IN_DQ_UCODE1
  | IN_DQ_STRING_ESCAPE =>
      [chr "b" (ST IN_DQ_STRING); chr "f" (ST IN_DQ_STRING); chr "n" (ST IN_DQ_STRING);
       chr "r" (ST IN_DQ_STRING); chr "t" (ST IN_DQ_STRING); chr "/" (ST IN_DQ_STRING);
       chr backslash (ST IN_DQ_STRING); chr sq (ST IN_DQ_STRING); chr dq (ST IN_DQ_STRING);
       chr "u" (ST IN_DQ_UCODE0)]
  | IN_DQ_STRING =>
      [(1, 0xBF, ST IN_DQ_STRING); (0xC2, 0xF4, ST IN_DQ_STRING);
       chr backslash (ST IN_DQ_STRING_ESCAPE); chr dq (TOK JSON_STRING)]
  (* single quote string *)
  | IN_SQ_UCODE3 => hex_row IN_SQ_STRING
  | IN_SQ_UCODE2 => hex_row IN_SQ_UCODE3
  | IN_SQ_UCODE1 => hex_row IN_SQ_UCODE2
  | IN_SQ_UCODE0 => hex_row IN_SQ_UCODE1
  | IN_SQ_STRING_ESCAPE =>
      [chr "b" (ST IN_SQ_STRING); chr "f" (ST IN_SQ_STRING); chr "n" (ST IN_SQ_STRING);
       chr "r" (ST IN_SQ_STRING); chr "t" (ST IN_SQ_STRING); chr "/" (ST IN_DQ_STRING);
       chr backslash (ST IN_DQ_STRING); chr sq (ST IN_SQ_STRING); chr dq (ST IN_SQ_STRING);
       chr "u" (ST IN_SQ_UCODE0)]
  | IN_SQ_STRING =>
      [(1, 0xBF, ST IN_SQ_STRING); (0xC2, 0xF4, ST IN_SQ_STRING);
       chr backslash (ST IN_SQ_STRING_ESCAPE); chr sq (TOK JSON_STRING)]
  (* Zero *)
  | IN_ZERO => [TERMINAL JSON_INTEGER; range "0" "9" (ST IN_ERROR); chr "." (ST IN_MANTISSA)]
  (* Float *)
  | IN_DIGITS => [TERMINAL JSON_FLOAT; range "0" "9" (ST IN_DIGITS)]
  | IN_DIGIT => [range "0" "9" (ST IN_DIGITS)]
  | IN_EXP_E => [chr "-" (ST IN_DIGIT); chr "+" (ST IN_DIGIT); range "0" "9" (ST IN_DIGITS)]
  | IN_MANTISSA_DIGITS =>
      [TERMINAL JSON_FLOAT; range "0" "9" (ST IN_MANTISSA_DIGITS);
       chr "e" (ST IN_EXP_E); chr "E" (ST IN_EXP_E)]
  | IN_MANTISSA => [range "0" "9" (ST IN_MANTISSA_DIGITS)]
  (* Number *)
  | IN_NONZERO_NUMBER =>
      [TERMINAL JSON_INTEGER; range "0" "9" (ST IN_NONZERO_NUMBER);
       chr "e" (ST IN_EXP_E); chr "E" (ST IN_EXP_E); chr "." (ST IN_MANTISSA)]
  | IN_NEG_NONZERO_NUMBER => [chr "0" (ST IN_ZERO); range "1" "9" (ST IN_NONZERO_NUMBER)]
  (* keywords *)
  | IN_KEYWORD => [TERMINAL JSON_KEYWORD; range "a" "z" (ST IN_KEYWORD)]
  (* whitespace *)
  | IN_WHITESPACE =>
      [TERMINAL JSON_SKIP; chr " " (ST IN_WHITESPACE); chr x09 (ST IN_WHITESPACE);
       chr x0d (ST IN_WHITESPACE); chr x0a (ST IN_WHITESPACE)]
  (* escape *)
  | IN_ESCAPE_LL => [chr "d" (TOK JSON_ESCAPE)]
  | IN_ESCAPE_L => [chr "d" (TOK JSON_ESCAPE); chr "l" (ST IN_ESCAPE_LL)]
  | IN_ESCAPE_I64 => [chr "d" (TOK JSON_ESCAPE)]
  | IN_ESCAPE_I6 => [chr "4" (ST IN_ESCAPE_I64)]
  | IN_ESCAPE_I => [chr "6" (ST IN_ESCAPE_I6)]
  | IN_ESCAPE =>
      [chr "d" (TOK JSON_ESCAPE); chr "i" (TOK JSON_ESCAPE); chr "p" (TOK JSON_ESCAPE);
       chr "s" (TOK JSON_ESCAPE); chr "f" (TOK JSON_ESCAPE);
       chr "l" (ST IN_ESCAPE_L); chr "I" (ST IN_ESCAPE_I)]
  (* top level rule *)
  | IN_START =>
      [chr dq (ST IN_DQ_STRING); chr sq (ST IN_SQ_STRING); chr "0" (ST IN_ZERO);
       range "1" "9" (ST IN_NONZERO_NUMBER); chr "-" (ST IN_NEG_NONZERO_NUMBER);
       chr "{" (TOK JSON_OPERATOR); chr "}" (TOK JSON_OPERATOR);
       chr "[" (TOK JSON_OPERATOR); chr "]" (TOK JSON_OPERATOR);
       chr "," (TOK JSON_OPERATOR); chr ":" (TOK JSON_OPERATOR);
       range "a" "z" (ST IN_KEYWORD); chr "%" (ST IN_ESCAPE);
       chr " " (ST IN_WHITESPACE); chr x09 (ST IN_WHITESPACE);
       chr x0d (ST IN_WHITESPACE); chr x0a (ST IN_WHITESPACE)]
  | IN_ERROR => []
  end.

(** The last range that contains the byte wins. *)
Fixpoint row_lookup (row : list (Z * Z * table_entry)) (c : Z) (default : table_entry) : table_entry :=
  match row with
  | [] => default
  | (lo, hi, e) :: row => row_lookup row c (if (lo <=? c) && (c <=? hi) then e else default)
  end.

Definition json_lexer (s : json_lexer_state) (ch : byte) : table_entry :=
  row_lookup (json_lexer_rows s) (bz ch) (ST IN_ERROR).

Definition TERMINAL_NEEDED_LOOKAHEAD (old_state : json_lexer_state) (terminal : table_entry) : bool :=
  bool_decide (json_lexer old_state x00 = terminal).

(** ** The lexer *)

Record JSONLexer := mkLexer {
  lx_state : json_lexer_state;
  lx_token : bytes;
  lx_x : Z;
  lx_y : Z;
}.

Definition json_lexer_init : JSONLexer := mkLexer IN_START [] 0 0.

Section feed.
(** The emitter: [emit token type x y], as an update of a client state. *)
Context {P : Type} (emit : bytes → table_entry → Z → Z → P → res P).

(** One round of the do-while loop of [json_lexer_feed_char].  The result says
    whether the character was consumed and whether the function returned. *)
Definition json_lexer_round (lexer : JSONLexer) (ch : byte) (p : P)
  : res (JSONLexer * P * bool * bool) :=
  let new_state := json_lexer (lx_state lexer) ch in
  let char_consumed := negb (TERMINAL_NEEDED_LOOKAHEAD (lx_state lexer) new_state) in
  let token := if char_consumed then lx_token lexer ++ [ch] else lx_token lexer in
  let x := lx_x lexer in
  let y := lx_y lexer in
  match new_state with
  | TOK JSON_SKIP => Ok (mkLexer IN_START [] x y, p, char_consumed, false)
  | ST IN_ERROR =>
      p ← emit token (TOK JSON_ERROR) x y p;
      Ok (mkLexer IN_START [] x y, p, char_consumed, true)
  | ST s => Ok (mkLexer s token x y, p, char_consumed, false)
  | TOK JSON_ERROR => Err Out_of_bounds (* not in the table *)
  | TOK _ =>
      p ← emit token new_state x y p;
      Ok (mkLexer IN_START [] x y, p, char_consumed, false)
  end.

Fixpoint json_lexer_loop (fuel : nat) (lexer : JSONLexer) (ch : byte) (flush : bool) (p : P)
  : res (JSONLexer * P * bool) :=
  match fuel with
  | O => Err Out_of_fuel
  | S fuel =>
      '(lexer, p, char_consumed, returned) ← json_lexer_round lexer ch p;
      if returned : bool then Ok (lexer, p, true)
      else if negb char_consumed && negb flush then json_lexer_loop fuel lexer ch flush p
      else Ok (lexer, p, false)
  end.

Definition json_lexer_feed_char (lexer : JSONLexer) (ch : byte) (flush : bool) (p : P)
  : res (JSONLexer * P) :=
  let x := s32 (lx_x lexer + 1) in
  let y := lx_y lexer in
  let '(x, y) := if decide (ch = x0a) then (0, s32 (y + 1)) else (x, y) in
  let lexer := mkLexer (lx_state lexer) (lx_token lexer) x y in
  '(lexer, p, returned) ← json_lexer_loop 2 lexer ch flush p;
  if returned : bool then Ok (lexer, p)
  else if MAX_TOKEN_SIZE <? Z.of_nat (length (lx_token lexer)) then
    p ← emit (lx_token lexer) (ST (lx_state lexer)) (lx_x lexer) (lx_y lexer) p;
    Ok (mkLexer IN_START [] (lx_x lexer) (lx_y lexer), p)
  else Ok (lexer, p).

Fixpoint json_lexer_feed (lexer : JSONLexer) (buffer : bytes) (p : P) : res (JSONLexer * P) :=
  match buffer with
  | [] => Ok (lexer, p)
  | ch :: buffer =>
      '(lexer, p) ← json_lexer_feed_char lexer ch false p;
      json_lexer_feed lexer buffer p
  end.

Definition json_lexer_flush (lexer : JSONLexer) (p : P) : res (JSONLexer * P) :=
  if decide (lx_state lexer = IN_START) then Ok (lexer, p)
  else json_lexer_feed_char lexer x00 true p.
End feed.
