(* ===== verification/JsonLexerFacts.v ===== *)
(** * JsonLexerFacts: what the lexer does on a text

    [lexes] describes a run of [json_lexer_feed] independently of the emitter: it
    emits a list of tokens and ends in a lexer state.  [run] hides the line and
    column counters.  The file has the rules to put such runs together, the
    totality of [json_lexer_feed_char], and the lexing of the pieces the printer
    writes (operators, blanks, numbers, keywords, strings). *)

From S2P Require Import Prelude LibC JsonLexer.
Local Open Scope Z_scope.

(** A token as the emitter receives it: text, type, column, line. *)
Definition lex_token : Type := bytes * table_entry * Z * Z.
Definition token_view (t : lex_token) : table_entry * bytes := (t.1.1.2, t.1.1.1).

Fixpoint emit_all {P} (emit : bytes → table_entry → Z → Z → P → res P) (l : list lex_token) (p : P)
  : res P :=
  match l with
  | [] => Ok p
  | (b, t, x, y) :: l => p ← emit b t x y p; emit_all emit l p
  end.

Lemma emit_all_app {P} (emit : bytes → table_entry → Z → Z → P → res P) l1 l2 p :
  emit_all emit (l1 ++ l2) p = (p ← emit_all emit l1 p; emit_all emit l2 p).
Proof.
  revert p. induction l1 as [|[[[b t] x] y] l1 IH]; intros p; simpl; [done|].
  destruct (emit b t x y p); simpl; [apply IH | done].
Qed.

(** ** Totality *)

(** The second round of the do-while loop starts in [IN_START], whose row sends
    NUL to [IN_ERROR]: whatever is not an error there is consumed. *)
Lemma start_consumes ch :
  json_lexer IN_START ch = ST IN_ERROR ∨
  TERMINAL_NEEDED_LOOKAHEAD IN_START (json_lexer IN_START ch) = false.
Proof.
  unfold TERMINAL_NEEDED_LOOKAHEAD. change (json_lexer IN_START x00) with (ST IN_ERROR).
  case_bool_decide; auto.
Qed.

(** The table has no [JSON_ERROR] entry. *)
Lemma no_error_entry st ch : json_lexer st ch ≠ TOK JSON_ERROR.
Proof.
  assert (bool_decide (json_lexer st ch ≠ TOK JSON_ERROR) = true) as H; [|by case_bool_decide].
  revert ch. apply byte_forallb. destruct st; vm_compute; reflexivity.
Qed.

(** On NUL a row either ends the token or is an error. *)
Lemma nul_entry st s : json_lexer st x00 = ST s → s = IN_ERROR.
Proof. destruct st; vm_compute; congruence. Qed.

Section rounds.
Context {P : Type} (emit : bytes → table_entry → Z → Z → P → res P).

(** When a round does not consume its character, the next one starts in
    [IN_START] with an empty token. *)
Lemma round_unconsumed lexer ch p lexer' p' ret :
  json_lexer_round emit lexer ch p = Ok (lexer', p', false, ret) →
  lx_state lexer' = IN_START ∨ ret = true.
Proof.
  unfold json_lexer_round, TERMINAL_NEEDED_LOOKAHEAD.
  destruct (json_lexer (lx_state lexer) ch) as [s|t].
  - case_bool_decide as E; [apply nul_entry in E as ->|];
      [|destruct s]; intros H; inv_bind; simplify_eq/=; auto.
  - destruct t; intros H; inv_bind; simplify_eq/=; auto.
Qed.

Lemma round_start_done lexer ch p lexer' p' consumed ret :
  lx_state lexer = IN_START → json_lexer_round emit lexer ch p = Ok (lexer', p', consumed, ret) →
  consumed = true ∨ ret = true.
Proof.
  intros Hst. unfold json_lexer_round. rewrite Hst.
  destruct (start_consumes ch) as [E|E].
  - rewrite E. intros H; inv_bind; simplify_eq/=; auto.
  - rewrite E. destruct (json_lexer IN_START ch) as [s|t].
    + destruct s; intros H; inv_bind; simplify_eq/=; auto.
    + destruct t; intros H; inv_bind; simplify_eq/=; auto.
Qed.

(** Two rounds are enough: more fuel changes nothing. *)
Lemma loop_fuel lexer ch flush p n :
  json_lexer_loop emit (S (S n)) lexer ch flush p = json_lexer_loop emit 2 lexer ch flush p.
Proof.
  simpl. destruct (json_lexer_round emit lexer ch p) as [[[[l1 p1] c1] r1]|] eqn:E1; simpl; [|done].
  destruct r1; [done|]. destruct (negb c1 && negb flush) eqn:Ec; [|done].
  apply andb_true_iff in Ec as [Hc _]. apply negb_true_iff in Hc as ->.
  destruct (json_lexer_round emit l1 ch p1) as [[[[l2 p2] c2] r2]|] eqn:E2; simpl; [|done].
  destruct r2; [done|]. apply round_unconsumed in E1 as [E1|?]; [|done].
  apply round_start_done in E2 as [->|?]; [done..].
Qed.

Hypothesis emit_ok : ∀ b t x y p, ∃ p', emit b t x y p = Ok p'.

Lemma round_ok lexer ch p : ∃ r, json_lexer_round emit lexer ch p = Ok r.
Proof.
  unfold json_lexer_round. pose proof (no_error_entry (lx_state lexer) ch).
  destruct (json_lexer (lx_state lexer) ch) as [s|t].
  - destruct s; eauto. edestruct emit_ok as [? ->]. simpl. eauto.
  - destruct t; eauto; try done; edestruct emit_ok as [? ->]; simpl; eauto.
Qed.

Lemma feed_char_ok lexer ch flush p : ∃ r, json_lexer_feed_char emit lexer ch flush p = Ok r.
Proof.
  unfold json_lexer_feed_char.
  destruct (if decide (ch = x0a) then _ else _) as [x y].
  set (lx := mkLexer _ _ _ _).
  assert (∃ r, json_lexer_loop emit 2 lx ch flush p = Ok r) as [[[l' p'] ret] ->].
  { simpl. destruct (round_ok lx ch p) as [[[[l1 p1] c1] r1] E1]. rewrite E1. simpl.
    destruct r1; [eauto|]. destruct (negb c1 && negb flush) eqn:Ec; [|eauto].
    apply andb_true_iff in Ec as [Hc _]. apply negb_true_iff in Hc as ->.
    destruct (round_ok l1 ch p1) as [[[[l2 p2] c2] r2] E2]. rewrite E2. simpl.
    destruct r2; [eauto|]. apply round_unconsumed in E1 as [E1|?]; [|done].
    apply round_start_done in E2 as [->|?]; [|done..]. simpl. eauto. }
  simpl. destruct ret; [eauto|]. destruct (_ <? _); [|eauto].
  edestruct emit_ok as [? ->]. simpl. eauto.
Qed.
End rounds.

(** [json_lexer_feed_char] terminates: two rounds of its do-while loop are
    enough (any larger bound gives the same run), so when the emitter returns,
    feeding any buffer to the lexer in any state returns. *)
Theorem json_lexer_feed_total {P} (emit : bytes → table_entry → Z → Z → P → res P) :
  (∀ b t x y p, ∃ p', emit b t x y p = Ok p') →
  (∀ n lexer ch flush p,
     json_lexer_loop emit (S (S n)) lexer ch flush p = json_lexer_loop emit 2 lexer ch flush p) ∧
  (∀ buffer lexer p, ∃ r, json_lexer_feed emit lexer buffer p = Ok r) ∧
  (∀ lexer p, ∃ r, json_lexer_flush emit lexer p = Ok r).
Proof.
  intros He. split; [intros; apply loop_fuel|]. split.
  - induction buffer as [|ch buffer IH]; intros lexer p; simpl; [eauto|].
    destruct (feed_char_ok emit He lexer ch false p) as [[l' p'] ->]. simpl. apply IH.
  - intros lexer p. unfold json_lexer_flush. case_decide; [eauto|]. by apply feed_char_ok.
Qed.

Lemma json_lexer_feed_total_witness :
  ∃ r, json_lexer_feed (λ b t _ _ p, Ok ((b, t) :: p)) json_lexer_init (bs "[1, tru") [] = Ok r.
Proof.
  destruct (json_lexer_feed_total (P := list (bytes * table_entry)) (λ b t _ _ p, Ok ((b, t) :: p)))
    as (_ & H & _).
  - intros b t _ _ p. exists ((b, t) :: p). reflexivity.
  - exact (H (bs "[1, tru") json_lexer_init []).
Defined.

(** ** Runs *)

(** Feeding [buf] emits the tokens [toks] and leaves the lexer [lexer']. *)
Definition lexes (lexer : JSONLexer) (buf : bytes) (lexer' : JSONLexer) (toks : list lex_token) : Prop :=
  ∀ P (emit : bytes → table_entry → Z → Z → P → res P) p,
    json_lexer_feed emit lexer buf p = (p' ← emit_all emit toks p; Ok (lexer', p')).

Lemma lexes_nil lexer : lexes lexer [] lexer [].
Proof. intros P emit p. done. Qed.

Lemma lexes_app l1 b1 l2 t1 b2 l3 t2 :
  lexes l1 b1 l2 t1 → lexes l2 b2 l3 t2 → lexes l1 (b1 ++ b2) l3 (t1 ++ t2).
Proof.
  intros H1 H2 P emit p.
  assert (json_lexer_feed emit l1 (b1 ++ b2) p =
          ('(l, p) ← json_lexer_feed emit l1 b1 p; json_lexer_feed emit l b2 p)) as ->.
  { clear. revert l1 p. induction b1 as [|c b1 IH]; intros l1 p; simpl; [done|].
    destruct (json_lexer_feed_char emit l1 c false p) as [[l' p']|]; simpl; [apply IH | done]. }
  rewrite H1, emit_all_app. destruct (emit_all emit t1 p) as [p'|]; simpl; [apply H2 | done].
Qed.

(** The characters of a sequence of tokens. *)
Definition toks_length (E : list (table_entry * bytes)) : nat := length (concat (map snd E)).

Lemma toks_length_app E1 E2 : toks_length (E1 ++ E2) = (toks_length E1 + toks_length E2)%nat.
Proof. unfold toks_length. by rewrite map_app, concat_app, length_app. Qed.

(** The run on [buf] from state [st] with the token [tok] read so far: it emits
    tokens with types and texts [E] and ends in [st'] with [tok'] read; no
    character is counted twice. *)
Definition run (st : json_lexer_state) (tok buf : bytes) (E : list (table_entry * bytes))
  (st' : json_lexer_state) (tok' : bytes) : Prop :=
  (toks_length E + length tok' ≤ length tok + length buf)%nat ∧
  (Z.of_nat (length tok + length buf) <= MAX_TOKEN_SIZE →
   ∀ x y, ∃ x' y' toks,
     lexes (mkLexer st tok x y) buf (mkLexer st' tok' x' y') toks ∧ map token_view toks = E).

Lemma run_nil st tok : run st tok [] [] st tok.
Proof.
  split; [simpl; lia|]. intros _ x y. exists x, y, []. split; [apply lexes_nil | done].
Qed.

Lemma run_app st tok b1 E1 st1 tok1 b2 E2 st2 tok2 :
  run st tok b1 E1 st1 tok1 → run st1 tok1 b2 E2 st2 tok2 →
  run st tok (b1 ++ b2) (E1 ++ E2) st2 tok2.
Proof.
  intros [L1 H1] [L2 H2]. split; [rewrite toks_length_app, length_app; lia|]. rewrite length_app. intros Hm x y.
  destruct (H1 ltac:(lia) x y) as (x1 & y1 & t1 & Hl1 & <-).
  destruct (H2 ltac:(lia) x1 y1) as (x2 & y2 & t2 & Hl2 & <-).
  exists x2, y2, (t1 ++ t2). split; [by eapply lexes_app | apply map_app].
Qed.

(** A variant that leaves the concatenations to the caller. *)
Lemma run_seq st tok b1 E1 st1 tok1 b2 E2 st2 tok2 b E :
  run st tok b1 E1 st1 tok1 → run st1 tok1 b2 E2 st2 tok2 →
  b = b1 ++ b2 → E = E1 ++ E2 → run st tok b E st2 tok2.
Proof. intros H1 H2 -> ->. by eapply run_app. Qed.

Lemma feed_one {P} (emit : bytes → table_entry → Z → Z → P → res P) lexer ch p :
  json_lexer_feed emit lexer [ch] p = json_lexer_feed_char emit lexer ch false p.
Proof. simpl. by destruct (json_lexer_feed_char emit lexer ch false p) as [[]|]. Qed.

Lemma token_size_ok (tok : bytes) :
  Z.of_nat (length tok) <= MAX_TOKEN_SIZE → (MAX_TOKEN_SIZE <? Z.of_nat (length tok)) = false.
Proof. lia. Qed.

(** The column and line after a character. *)
Definition advance (ch : byte) (x y : Z) : Z * Z :=
  if decide (ch = x0a) then (0, s32 (y + 1)) else (s32 (x + 1), y).

Section chars.
Context {P : Type} (emit : bytes → table_entry → Z → Z → P → res P).

(** What [json_lexer_feed_char] does after its loop. *)
Definition after_loop (r : res (JSONLexer * P * bool)) : res (JSONLexer * P) :=
  '(lexer, p, returned) ← r;
  if returned : bool then Ok (lexer, p)
  else if MAX_TOKEN_SIZE <? Z.of_nat (length (lx_token lexer)) then
    p ← emit (lx_token lexer) (ST (lx_state lexer)) (lx_x lexer) (lx_y lexer) p;
    Ok (mkLexer IN_START [] (lx_x lexer) (lx_y lexer), p)
  else Ok (lexer, p).

Lemma feed_char_loop st tok x y ch flush p :
  json_lexer_feed_char emit (mkLexer st tok x y) ch flush p =
  after_loop (json_lexer_loop emit 2
    (mkLexer st tok (advance ch x y).1 (advance ch x y).2) ch flush p).
Proof. unfold json_lexer_feed_char, advance. cbn [lx_x lx_y lx_state lx_token]. by case_decide. Qed.

(** From [IN_START] one round is enough. *)
Lemma loop_start tok x y ch flush p :
  json_lexer_loop emit 2 (mkLexer IN_START tok x y) ch flush p =
  json_lexer_loop emit 1 (mkLexer IN_START tok x y) ch flush p.
Proof.
  cbn [json_lexer_loop].
  destruct (json_lexer_round emit (mkLexer IN_START tok x y) ch p) as [[[[l c] b] r]|] eqn:E;
    [|done]. simpl. apply round_start_done in E as [-> | ->]; [done..|done].
Qed.

Lemma loop_consumed st tok x y ch p s :
  json_lexer st ch = ST s → s ≠ IN_ERROR →
  json_lexer_loop emit 2 (mkLexer st tok x y) ch false p = Ok (mkLexer s (tok ++ [ch]) x y, p, false).
Proof.
  intros E Hs. cbn [json_lexer_loop]. unfold json_lexer_round, TERMINAL_NEEDED_LOOKAHEAD.
  cbn [lx_state lx_token lx_x lx_y]. rewrite E.
  rewrite bool_decide_false by (intros H%nul_entry; congruence). by destruct s.
Qed.

Lemma loop_token st tok x y ch p t :
  json_lexer st ch = TOK t → json_lexer st x00 ≠ TOK t → t ≠ JSON_SKIP → t ≠ JSON_ERROR →
  json_lexer_loop emit 2 (mkLexer st tok x y) ch false p =
  (p ← emit (tok ++ [ch]) (TOK t) x y p; Ok (mkLexer IN_START [] x y, p, false)).
Proof.
  intros E Hn Hs He. cbn [json_lexer_loop]. unfold json_lexer_round, TERMINAL_NEEDED_LOOKAHEAD.
  cbn [lx_state lx_token lx_x lx_y]. rewrite E, bool_decide_false by done.
  destruct t; try done; simpl; by destruct (emit _ _ _ _ p).
Qed.

Lemma loop_lookahead st tok x y ch flush p t :
  json_lexer st ch = TOK t → json_lexer st x00 = TOK t → t ≠ JSON_ERROR →
  json_lexer_loop emit 2 (mkLexer st tok x y) ch flush p =
  (p ← (if decide (t = JSON_SKIP) then Ok p else emit tok (TOK t) x y p);
   if flush then Ok (mkLexer IN_START [] x y, p, false)
   else json_lexer_loop emit 1 (mkLexer IN_START [] x y) ch flush p).
Proof.
  intros E E0 He.
  change (json_lexer_loop emit 2 (mkLexer st tok x y) ch flush p) with
    ('(lexer, p, char_consumed, returned) ← json_lexer_round emit (mkLexer st tok x y) ch p;
     if returned : bool then Ok (lexer, p, true)
     else if negb char_consumed && negb flush then json_lexer_loop emit 1 lexer ch flush p
     else Ok (lexer, p, false)).
  unfold json_lexer_round at 1, TERMINAL_NEEDED_LOOKAHEAD.
  cbn [lx_state lx_token lx_x lx_y]. rewrite E, E0, bool_decide_true by done.
  destruct t; try done; rewrite ?decide_True by done; rewrite ?decide_False by done; simpl negb;
    cbv iota; try (destruct (emit _ _ _ _ p) as [p'|]; [|done]); by destruct flush.
Qed.
End chars.

(** A character the state reads without ending the token. *)
Lemma run_char st tok ch s :
  json_lexer st ch = ST s → s ≠ IN_ERROR → run st tok [ch] [] s (tok ++ [ch]).
Proof.
  intros E Hs. split; [rewrite length_app; unfold toks_length; simpl; lia|]. intros Hm x y.
  exists (advance ch x y).1, (advance ch x y).2, []. split; [|done]. intros P emit p.
  rewrite feed_one, feed_char_loop, (loop_consumed _ _ _ _ _ _ _ s) by done. simpl.
  rewrite token_size_ok by (rewrite length_app; simpl in *; lia). done.
Qed.

(** A character that completes a token it belongs to. *)
Lemma run_token st tok ch t :
  json_lexer st ch = TOK t → json_lexer st x00 ≠ TOK t → t ≠ JSON_SKIP → t ≠ JSON_ERROR →
  run st tok [ch] [(TOK t, tok ++ [ch])] IN_START [].
Proof.
  intros E Hn Hs He. split.
  { unfold toks_length. simpl. rewrite app_nil_r, length_app. simpl. lia. }
  intros Hm x y.
  exists (advance ch x y).1, (advance ch x y).2,
    [(tok ++ [ch], TOK t, (advance ch x y).1, (advance ch x y).2)].
  split; [|done]. intros P emit p.
  rewrite feed_one, feed_char_loop, (loop_token _ _ _ _ _ _ _ t) by done. simpl.
  by destruct (emit _ _ _ _ p).
Qed.

(** The token read so far, emitted when the next character does not belong to it. *)
Definition ended (tok : bytes) (t : JSONTokenType) : list (table_entry * bytes) :=
  if decide (t = JSON_SKIP) then [] else [(TOK t, tok)].

(** A character that ends the token before it and starts afresh. *)
Lemma run_lookahead st tok ch t E st' tok' :
  json_lexer st ch = TOK t → json_lexer st x00 = TOK t → t ≠ JSON_ERROR →
  run IN_START [] [ch] E st' tok' →
  run st tok [ch] (ended tok t ++ E) st' tok'.
Proof.
  intros E1 E0 Hte [Hl Hrun]. split.
  { rewrite toks_length_app. unfold ended, toks_length in *. simpl in Hl.
    case_decide; simpl; rewrite ?app_nil_r; lia. }
  intros Hm x y. clear Hl.
  destruct (Hrun ltac:(simpl in *; lia) x y) as (x1 & y1 & toks & Hl & <-).
  exists x1, y1,
    ((if decide (t = JSON_SKIP) then [] else [(tok, TOK t, (advance ch x y).1, (advance ch x y).2)])
       ++ toks).
  split; [|unfold ended; by case_decide]. intros P emit p. specialize (Hl P emit).
  setoid_rewrite feed_one in Hl. setoid_rewrite feed_char_loop in Hl. setoid_rewrite loop_start in Hl.
  rewrite feed_one, feed_char_loop, (loop_lookahead _ _ _ _ _ _ _ _ t) by done.
  rewrite emit_all_app. case_decide; simpl; [apply Hl|].
  destruct (emit _ _ _ _ p) as [p'|]; simpl; [apply Hl | done].
Qed.
