(* ===== verification/JsonStreamer.v ===== *)
(** * JsonStreamer: grouping tokens into messages (json-streamer.c)

    [json_message_process_token] is the emitter the streamer gives to the lexer:
    it counts braces and brackets, appends each token as a [QDict] with the keys
    "type", "token", "x" and "y" to the list of the current message, and hands
    the list to its own callback when a message is complete, is too large or too
    deeply nested, or is broken off by a lexical error (a NULL list).  The
    callback is a parameter that updates a client state. *)

From S2P Require Import Prelude LibC QDict QObject JsonLexer.
Local Open Scope Z_scope.

Definition MAX_NESTING : Z := Z.shiftl 1 10.

Record JSONMessageParser := mkParser {
  brace_count : Z;
  bracket_count : Z;
  tokens : list QObject;
  token_size : Z;
}.

(** The token dictionary built by [json_message_process_token]. *)
Definition make_token (token : bytes) (type : table_entry) (x y : Z) : QObject :=
  let dict := qdict_new in
  let dict := qdict_put_obj dict (bs "type") (qint_from_int (entry_code type)) in
  let dict := qdict_put_obj dict (bs "token") (QOString token) in
  let dict := qdict_put_obj dict (bs "x") (qint_from_int x) in
  let dict := qdict_put_obj dict (bs "y") (qint_from_int y) in
  QODict dict.

Section streamer.
(** The callback: [emit tokens], as an update of a client state. *)
Context {R : Type} (emit : option (list QObject) → R → res R).

(** The two counters after a token (a [switch] on its first character). *)
Definition count_token (parser : JSONMessageParser) (token : bytes) (type : table_entry) : Z * Z :=
  let braces := brace_count parser in
  let brackets := bracket_count parser in
  if decide (type = TOK JSON_OPERATOR) then
    match c_str token with
    | "{"%byte :: _ => (s32 (braces + 1), brackets)
    | "}"%byte :: _ => (s32 (braces - 1), brackets)
    | "["%byte :: _ => (braces, s32 (brackets + 1))
    | "]"%byte :: _ => (braces, s32 (brackets - 1))
    | _ => (braces, brackets)
    end
  else (braces, brackets).

(** The labels [out_emit_bad] ([None]) and [out_emit]: send and reset. *)
Definition out_emit (toks : option (list QObject)) (r : R) : res (JSONMessageParser * R) :=
  r ← emit toks r;
  Ok (mkParser 0 0 qlist_new 0, r).

Definition json_message_process_token (token : bytes) (type : table_entry) (x y : Z)
  (st : JSONMessageParser * R) : res (JSONMessageParser * R) :=
  let '(parser, r) := st in
  let '(braces, brackets) := count_token parser token type in
  let dict := make_token token type x y in
  let size := u64 (token_size parser + Z.of_nat (length token)) in
  let toks := qlist_append_obj (tokens parser) dict in
  if decide (type = TOK JSON_ERROR) then out_emit None r
  else if (braces <? 0) || (brackets <? 0) || ((braces =? 0) && (brackets =? 0)) then
    out_emit (Some toks) r
  else if (MAX_TOKEN_SIZE <? size) || (MAX_NESTING <? u64 brackets) || (MAX_NESTING <? u64 braces) then
    out_emit (Some toks) r
  else Ok (mkParser braces brackets toks size, r).

Definition json_message_parser_init : JSONLexer * JSONMessageParser :=
  (json_lexer_init, mkParser 0 0 qlist_new 0).

Definition json_message_parser_feed (lexer : JSONLexer) (buffer : bytes) (st : JSONMessageParser * R)
  : res (JSONLexer * (JSONMessageParser * R)) :=
  json_lexer_feed json_message_process_token lexer buffer st.

Definition json_message_parser_flush (lexer : JSONLexer) (st : JSONMessageParser * R)
  : res (JSONLexer * (JSONMessageParser * R)) :=
  json_lexer_flush json_message_process_token lexer st.
End streamer.
