(* ===== verification/JsonParser.v ===== *)
(** * JsonParser: the recursive-descent parser of json-parser.c

    The parser works on the token list of one message.  A parse function takes
    the parsing context and the remaining tokens and gives back the context, the
    object (or NULL) and the tokens left; it works on a copy of the list, so
    that a failure leaves the caller's list as it was, except where the code
    itself commits before it knows the object ([parse_escape], [parse_literal]).

    The context holds the last error and the rest of the [va_list] from which
    "%d"-like escapes take their arguments; the arguments are consumed even when
    the parse is then abandoned, since the [va_list] is shared by pointer.

    [parse_value] recurses through the parameter [pv] of [parse_pair],
    [parse_object] and [parse_array]; [fuel] bounds the nesting and
    [parse_value_total] shows the bound the caller uses is enough. *)

From S2P Require Import Prelude LibC QDict QObject JsonLexer.
Local Open Scope Z_scope.

(** An argument of the [va_list]: its C type decides which [va_arg] may read it. *)
Inductive va_value :=
| VObject (obj : option QObject)
| VInt (z : Z)
| VLong (z : Z)
| VLongLong (z : Z)
| VString (s : bytes)
| VDouble (x : double).

Record JSONParserContext := mkCtxt {
  err : option bytes;               (* the message of the QERR_JSON_PARSE_ERROR *)
  ap : option (list va_value);      (* NULL when the caller passed no va_list *)
}.

Definition parse_result : Type := JSONParserContext * option QObject * list QObject.

(** ** Token manipulators *)

Definition token_dict (obj : QObject) : res (QDict QObject) := deref (qobject_to_qdict obj).

Definition token_get_value (obj : QObject) : res bytes :=
  d ← token_dict obj; qdict_get_str d (bs "token").

Definition token_get_type (obj : QObject) : res Z :=
  d ← token_dict obj; qdict_get_int d (bs "type").

Definition token_is_operator (obj : QObject) (op : byte) : res bool :=
  t ← token_get_type obj;
  if t =? token_code JSON_OPERATOR then
    val ← token_get_value obj;
    Ok (match val with c :: [] => bool_decide (c = op) | _ => false end)
  else Ok false.

Definition token_is_keyword (obj : QObject) (value : bytes) : res bool :=
  t ← token_get_type obj;
  if t =? token_code JSON_KEYWORD then val ← token_get_value obj; Ok (streq val value)
  else Ok false.

Definition token_is_escape (obj : QObject) (value : bytes) : res bool :=
  t ← token_get_type obj;
  if t =? token_code JSON_ESCAPE then val ← token_get_value obj; Ok (streq val value)
  else Ok false.

(** [parse_error]: the message, cut to the [message[1024]] buffer, replaces the
    error of the context. *)
Definition parse_error (ctxt : JSONParserContext) (msg : bytes) : JSONParserContext :=
  mkCtxt (Some (snprintf 1024 msg)) (ap ctxt).

(** ** String helpers *)

Definition wchar_to_utf8 (wchar : Z) : bytes :=
  if wchar <=? 0x007F then [zb (Z.land wchar 0x7F)]
  else if wchar <=? 0x07FF then
    [zb (Z.lor 0xC0 (Z.land (Z.shiftr wchar 6) 0x1F)); zb (Z.lor 0x80 (Z.land wchar 0x3F))]
  else
    [zb (Z.lor 0xE0 (Z.land (Z.shiftr wchar 12) 0x0F));
     zb (Z.lor 0x80 (Z.land (Z.shiftr wchar 6) 0x3F)); zb (Z.lor 0x80 (Z.land wchar 0x3F))].

Definition hex2decimal (ch : byte) : Z :=
  if is_digit ch then sbz ch - 48
  else if is_lower_af ch then 10 + (sbz ch - 97)
  else if is_upper_af ch then 10 + (sbz ch - 65)
  else -1.

(** The four hex digits of a \u escape: the code unit and the rest of the
    string, or nothing when one of the four is not a hex digit. *)
Fixpoint read_ucode (i : nat) (unicode_char : Z) (ptr : bytes) : option (Z * bytes) :=
  match i with
  | O => Some (unicode_char, ptr)
  | S i =>
      match ptr with
      | c :: ptr =>
          if qemu_isxdigit c
          then read_ucode i (u16 (Z.lor unicode_char (Z.shiftl (hex2decimal c) (Z.of_nat i * 4)))) ptr
          else None
      | [] => None
      end
  end.

Definition simple_escape (c : byte) : option byte :=
  match c with
  | x22 => Some x22
  | x27 => Some x27
  | x5c => Some x5c
  | "/" => Some "/"%byte
  | "b" => Some x08
  | "f" => Some x0c
  | "n" => Some x0a
  | "r" => Some x0d
  | "t" => Some x09
  | _ => None
  end%byte.

(** The loop of [qstring_from_escaped_str] after the opening quote: the
    characters are appended to [str]; [inl] is the error message. *)
Fixpoint unescape (fuel : nat) (double_quote : bool) (ptr : bytes) (str : bytes) : bytes + bytes :=
  match fuel with
  | O => inr str
  | S fuel =>
      match ptr with
      | [] => inr str
      | c :: ptr =>
          if (if double_quote then bool_decide (c = x22) else bool_decide (c = x27)) then inr str
          else if decide (c = x5c) then
            match ptr with
            | [] => inl (bs "invalid escape sequence in string")
            | e :: ptr =>
                match simple_escape e with
                | Some ch => unescape fuel double_quote ptr (str ++ [ch])
                | None =>
                    if decide (e = "u"%byte) then
                      match read_ucode 4 0 ptr with
                      | Some (wchar, ptr) =>
                          unescape fuel double_quote ptr (str ++ c_str (wchar_to_utf8 wchar))
                      | None => inl (bs "invalid hex escape sequence in string")
                      end
                    else inl (bs "invalid escape sequence in string")
                end
            end
          else unescape fuel double_quote ptr (str ++ [c])
      end
  end.

(** Each round of the loop reads at least one character, so the length of the
    token bounds the rounds. *)
Definition qstring_from_escaped_str (ctxt : JSONParserContext) (token : QObject)
  : res (JSONParserContext * option bytes) :=
  ptr ← token_get_value token;
  match ptr with
  | [] => Err Out_of_bounds (* the loop would start behind the NUL *)
  | q :: rest =>
      Ok (match unescape (S (length rest)) (bool_decide (q = x22)) rest [] with
          | inr str => (ctxt, Some str)
          | inl msg => (parse_error ctxt msg, None)
          end)
  end.

(** ** Parsing rules *)

Definition EOI : bytes := bs "premature EOI".

Definition parse_keyword (ctxt : JSONParserContext) (toks : list QObject) : res parse_result :=
  match toks with
  | [] => Ok (ctxt, None, toks)
  | token :: working =>
      t ← token_get_type token;
      if t =? token_code JSON_KEYWORD then
        is_true ← token_is_keyword token (bs "true");
        if is_true : bool then Ok (ctxt, Some (qbool_from_int 1), working) else
        is_false ← token_is_keyword token (bs "false");
        if is_false : bool then Ok (ctxt, Some (qbool_from_int 0), working) else
        val ← token_get_value token;
        Ok (parse_error ctxt (bs "invalid keyword `" ++ val ++ bs "'"), None, toks)
      else Ok (ctxt, None, toks)
  end.

(** The [va_arg] an escape performs: NULL when the token is not one of the
    escapes, a fault when the next argument has another type. *)
Definition take_arg (token : QObject) (args : list va_value)
  : res (option (option QObject * list va_value)) :=
  is_p ← token_is_escape token (bs "%p");
  is_i ← token_is_escape token (bs "%i");
  is_d ← token_is_escape token (bs "%d");
  is_ld ← token_is_escape token (bs "%ld");
  is_lld ← token_is_escape token (bs "%lld");
  is_I64d ← token_is_escape token (bs "%I64d");
  is_s ← token_is_escape token (bs "%s");
  is_f ← token_is_escape token (bs "%f");
  if is_p : bool then
    match args with VObject o :: args => Ok (Some (o, args)) | _ => Err Bad_va_arg end
  else if is_i : bool then
    match args with VInt z :: args => Ok (Some (Some (qbool_from_int z), args)) | _ => Err Bad_va_arg end
  else if is_d : bool then
    match args with VInt z :: args => Ok (Some (Some (qint_from_int z), args)) | _ => Err Bad_va_arg end
  else if is_ld : bool then
    match args with VLong z :: args => Ok (Some (Some (qint_from_int z), args)) | _ => Err Bad_va_arg end
  else if is_lld || is_I64d then
    match args with VLongLong z :: args => Ok (Some (Some (qint_from_int z), args)) | _ => Err Bad_va_arg end
  else if is_s : bool then
    match args with VString s :: args => Ok (Some (Some (qstring_obj s), args)) | _ => Err Bad_va_arg end
  else if is_f : bool then
    match args with VDouble x :: args => Ok (Some (Some (qfloat_from_double x), args)) | _ => Err Bad_va_arg end
  else Ok None.

Definition parse_escape (ctxt : JSONParserContext) (toks : list QObject) : res parse_result :=
  match ap ctxt with
  | None => Ok (ctxt, None, toks)
  | Some args =>
      match toks with
      | [] => Ok (ctxt, None, toks)
      | token :: working =>
          r ← take_arg token args;
          match r with
          | None => Ok (ctxt, None, toks)
          | Some (obj, args) => Ok (mkCtxt (err ctxt) (Some args), obj, working)
          end
      end
  end.

Definition parse_literal (ctxt : JSONParserContext) (toks : list QObject) : res parse_result :=
  match toks with
  | [] => Ok (ctxt, None, toks)
  | token :: working =>
      t ← token_get_type token;
      if t =? token_code JSON_STRING then
        '(ctxt, str) ← qstring_from_escaped_str ctxt token;
        Ok (ctxt, option_map QOString str, working)
      else if t =? token_code JSON_INTEGER then
        val ← token_get_value token; Ok (ctxt, Some (qint_from_int (strtoll val)), working)
      else if t =? token_code JSON_FLOAT then
        val ← token_get_value token; Ok (ctxt, Some (qfloat_from_double (strtod val)), working)
      else Ok (ctxt, None, toks)
  end.

Section rules.
Variable pv : JSONParserContext → list QObject → res parse_result.

(** [None] for the -1 of the C function. *)
Definition parse_pair (ctxt : JSONParserContext) (dict : QDict QObject) (toks : list QObject)
  : res (JSONParserContext * option (QDict QObject) * list QObject) :=
  match toks with
  | [] => Ok (parse_error ctxt EOI, None, toks)
  | _ :: _ =>
      '(ctxt, key, working) ← pv ctxt toks;
      match key with
      | Some (QOString k) =>
          match working with
          | [] => Ok (parse_error ctxt EOI, None, toks)
          | token :: working =>
              is_colon ← token_is_operator token ":";
              if is_colon : bool then
                '(ctxt, value, working) ← pv ctxt working;
                match value with
                | None => Ok (parse_error ctxt (bs "Missing value in dict"), None, toks)
                | Some v => Ok (ctxt, Some (qdict_put_obj dict (c_str k) v), working)
                end
              else Ok (parse_error ctxt (bs "missing : in object pair"), None, toks)
          end
      | _ => Ok (parse_error ctxt (bs "key is not a string in object"), None, toks)
      end
  end.

(** The while loop of [parse_object], with the token just popped; each round
    pops at least one token, and [fuel] is their number. *)
Fixpoint parse_object_loop (fuel : nat) (ctxt : JSONParserContext) (dict : QDict QObject)
  (token : QObject) (working : list QObject)
  : res (JSONParserContext * option (QDict QObject) * list QObject) :=
  match fuel with
  | O => Err Out_of_fuel
  | S fuel =>
      is_close ← token_is_operator token "}";
      if is_close : bool then Ok (ctxt, Some dict, working) else
      is_comma ← token_is_operator token ",";
      if is_comma : bool then
        '(ctxt, dict, working) ← parse_pair ctxt dict working;
        match dict with
        | None => Ok (ctxt, None, working)
        | Some dict =>
            match working with
            | [] => Ok (parse_error ctxt EOI, None, working)
            | token :: working => parse_object_loop fuel ctxt dict token working
            end
        end
      else Ok (parse_error ctxt (bs "expected separator in dict"), None, working)
  end.

Definition parse_object (ctxt : JSONParserContext) (toks : list QObject) : res parse_result :=
  match toks with
  | [] => Ok (ctxt, None, toks)
  | token :: working =>
      is_open ← token_is_operator token "{";
      if is_open : bool then
        let dict := qdict_new in
        match working with
        | [] => Ok (parse_error ctxt EOI, None, toks)
        | peek :: rest =>
            is_close ← token_is_operator peek "}";
            if is_close : bool then Ok (ctxt, Some (QODict dict), rest) else
            '(ctxt, dict, working) ← parse_pair ctxt dict working;
            match dict with
            | None => Ok (ctxt, None, toks)
            | Some dict =>
                match working with
                | [] => Ok (parse_error ctxt EOI, None, toks)
                | token :: working =>
                    '(ctxt, dict, working) ←
                       parse_object_loop (S (length working)) ctxt dict token working;
                    match dict with
                    | None => Ok (ctxt, None, toks)
                    | Some dict => Ok (ctxt, Some (QODict dict), working)
                    end
                end
            end
        end
      else Ok (ctxt, None, toks)
  end.

Fixpoint parse_array_loop (fuel : nat) (ctxt : JSONParserContext) (list_ : list QObject)
  (token : QObject) (working : list QObject)
  : res (JSONParserContext * option (list QObject) * list QObject) :=
  match fuel with
  | O => Err Out_of_fuel
  | S fuel =>
      is_close ← token_is_operator token "]";
      if is_close : bool then Ok (ctxt, Some list_, working) else
      is_comma ← token_is_operator token ",";
      if is_comma : bool then
        '(ctxt, obj, working) ← pv ctxt working;
        match obj with
        | None => Ok (parse_error ctxt (bs "expecting value"), None, working)
        | Some obj =>
            let list_ := qlist_append_obj list_ obj in
            match working with
            | [] => Ok (parse_error ctxt EOI, None, working)
            | token :: working => parse_array_loop fuel ctxt list_ token working
            end
        end
      else Ok (parse_error ctxt (bs "expected separator in list"), None, working)
  end.

Definition parse_array (ctxt : JSONParserContext) (toks : list QObject) : res parse_result :=
  match toks with
  | [] => Ok (ctxt, None, toks)
  | token :: working =>
      is_open ← token_is_operator token "[";
      if is_open : bool then
        let list_ := qlist_new in
        match working with
        | [] => Ok (parse_error ctxt EOI, None, toks)
        | peek :: rest =>
            is_close ← token_is_operator peek "]";
            if is_close : bool then Ok (ctxt, Some (QOList list_), rest) else
            '(ctxt, obj, working) ← pv ctxt working;
            match obj with
            | None => Ok (parse_error ctxt (bs "expecting value"), None, toks)
            | Some obj =>
                let list_ := qlist_append_obj list_ obj in
                match working with
                | [] => Ok (parse_error ctxt EOI, None, toks)
                | token :: working =>
                    '(ctxt, l, working) ←
                       parse_array_loop (S (length working)) ctxt list_ token working;
                    match l with
                    | None => Ok (ctxt, None, toks)
                    | Some l => Ok (ctxt, Some (QOList l), working)
                    end
                end
            end
        end
      else Ok (ctxt, None, toks)
  end.
End rules.

(** Try the next rule when the object is still NULL. *)
Definition or_else (r : res parse_result)
  (next : JSONParserContext → list QObject → res parse_result) : res parse_result :=
  '(ctxt, obj, toks) ← r;
  match obj with Some o => Ok (ctxt, Some o, toks) | None => next ctxt toks end.

Fixpoint parse_value (fuel : nat) (ctxt : JSONParserContext) (toks : list QObject) : res parse_result :=
  match fuel with
  | O => Err Out_of_fuel
  | S fuel =>
      or_else (or_else (or_else (or_else
        (parse_object (parse_value fuel) ctxt toks)
        (parse_array (parse_value fuel)))
        parse_escape)
        parse_keyword)
        parse_literal
  end.

(** [json_parser_parse_err]: the object and the error left in the context. *)
Definition json_parser_parse_err (toks : option (list QObject)) (ap : option (list va_value))
  : res (option QObject * option bytes * option (list va_value)) :=
  match toks with
  | None => Ok (None, None, ap)
  | Some toks =>
      let working := qlist_copy toks in
      '(ctxt, result, _) ← parse_value (S (length working)) (mkCtxt None ap) working;
      Ok (result, err ctxt, JsonParser.ap ctxt)
  end.

Definition json_parser_parse (toks : option (list QObject)) (ap : option (list va_value))
  : res (option QObject * option (list va_value)) :=
  '(result, _, ap) ← json_parser_parse_err toks ap; Ok (result, ap).
