(* ===== verification/QJson.v ===== *)
(** * QJson: text to objects and back (qjson.c)

    [qobject_from_jsonv] runs the lexer, the streamer and the parser over a C
    string; each message the streamer completes overwrites the result, so the
    last one counts.  [to_json] prints an object, on one line or (pretty) with
    a line per element. *)

From S2P Require Import Prelude LibC QDict QObject JsonLexer JsonStreamer JsonParser.
Local Open Scope Z_scope.

(** ** Reading *)

(** [JSONParsingState] without the message parser it contains. *)
Record JSONParsingState := mkParsing {
  ps_ap : option (list va_value);
  ps_result : option QObject;
}.

Definition parse_json (toks : option (list QObject)) (s : JSONParsingState) : res JSONParsingState :=
  '(result, ap) ← json_parser_parse toks (ps_ap s);
  Ok (mkParsing ap result).

Definition qobject_from_jsonv (string : bytes) (ap : option (list va_value)) : res (option QObject) :=
  let '(lexer, parser) := json_message_parser_init in
  '(lexer, st) ← json_message_parser_feed parse_json lexer (c_str string) (parser, mkParsing ap None);
  '(_, st) ← json_message_parser_flush parse_json lexer st;
  Ok (ps_result st.2).

Definition qobject_from_json (string : bytes) : res (option QObject) := qobject_from_jsonv string None.

(** [qobject_from_jsonf]: aborts when there is no result. *)
Definition qobject_from_jsonf (string : bytes) (args : list va_value) : res QObject :=
  r ← qobject_from_jsonv string (Some args);
  match r with Some obj => Ok obj | None => Err Assert_failed end.

(** ** Printing *)

Definition u_escape (z : Z) : bytes := snprintf 7 (bs "\u" ++ print_04X z).

(** One round of the loop over a string: the text for the character [c] with
    [rest] behind it, and how many characters of [rest] it takes with it. *)
Definition escape_step (c : byte) (rest : bytes) : bytes * nat :=
  let c1 := hd x00 rest in
  let c2 := hd x00 (tail rest) in
  if (Z.land (bz c) 0xE0 =? 0xE0) && negb (Z.land (bz c1) 0x80 =? 0) && negb (Z.land (bz c2) 0x80 =? 0)
  then
    let wchar := u16 (Z.shiftl (Z.land (bz c) 0x0F) 12) in
    let wchar := Z.lor wchar (Z.shiftl (Z.land (bz c1) 0x3F) 6) in
    let wchar := Z.lor wchar (Z.land (bz c2) 0x3F) in
    (u_escape wchar, 2%nat)
  else if (Z.land (bz c) 0xE0 =? 0xC0) && negb (Z.land (bz c1) 0x80 =? 0) then
    let wchar := u16 (Z.shiftl (Z.land (bz c) 0x1F) 6) in
    let wchar := Z.lor wchar (Z.land (bz c1) 0x3F) in
    (u_escape wchar, 1%nat)
  else
    (match c with
     | x22 => [x5c; x22]
     | x5c => [x5c; x5c]
     | x08 => bs "\b"
     | x0c => bs "\f"
     | x0a => bs "\n"
     | x0d => bs "\r"
     | x09 => bs "\t"
     | _ => if sbz c <=? 0x1F then u_escape (sbz c) else [c]
     end, O).

Fixpoint to_json_chars (skip : nat) (ptr : bytes) : bytes :=
  match ptr with
  | [] => []
  | c :: rest =>
      match skip with
      | S skip => to_json_chars skip rest
      | O => let '(text, skip) := escape_step c rest in text ++ to_json_chars skip rest
      end
  end.

Definition to_json_string (s : bytes) : bytes := [dq] ++ to_json_chars 0 (c_str s) ++ [dq].

(** Trailing zeros of "%f" are removed, and then a trailing point. *)
Fixpoint strip_zeros (r : bytes) : bytes :=
  match r with
  | "0"%byte :: r => strip_zeros r
  | _ => r
  end.
Definition to_json_float (x : double) : bytes :=
  let r := strip_zeros (rev (snprintf 1024 (print_f x))) in
  rev (match r with "."%byte :: r => r | _ => r end).

Definition newline_indent (indent : nat) : bytes :=
  [x0a] ++ concat (replicate indent (bs "    ")).

(** The state the two iterators share: [count] and [str]. *)
Record ToJsonIterState := mkIter { it_count : nat; it_str : bytes }.

(** What both iterators print in front of an element. *)
Definition iter_prefix (s : ToJsonIterState) (pretty : bool) (indent : nat) : bytes :=
  it_str s ++ (if Nat.eqb (it_count s) 0 then [] else bs ", ") ++
  (if pretty then newline_indent indent else []).

Fixpoint to_json (obj : QObject) (str : bytes) (pretty : bool) (indent : nat) : bytes :=
  match obj with
  | QOInt v => str ++ snprintf 1024 (print_lld v)
  | QOString s => str ++ to_json_string s
  | QODict d =>
      let to_json_dict_iter (key : bytes) (v : QObject) (s : ToJsonIterState) :=
        let str := iter_prefix s pretty (S indent) in
        let str := str ++ to_json_string key in
        mkIter (S (it_count s)) (to_json v (str ++ bs ": ") pretty (S indent)) in
      let s := qdict_iter to_json_dict_iter d (mkIter 0 (str ++ bs "{")) in
      it_str s ++ (if pretty then newline_indent indent else []) ++ bs "}"
  | QOList l =>
      let to_json_list_iter (v : QObject) (s : ToJsonIterState) :=
        mkIter (S (it_count s)) (to_json v (iter_prefix s pretty (S indent)) pretty (S indent)) in
      let s := qlist_iter to_json_list_iter l (mkIter 0 (str ++ bs "[")) in
      it_str s ++ (if pretty then newline_indent indent else []) ++ bs "]"
  | QOFloat x => str ++ to_json_float x
  | QOBool v => str ++ (if v =? 0 then bs "false" else bs "true")
  | QOError => str
  end.

Definition qobject_to_json (obj : QObject) : bytes := to_json obj [] false 0.
Definition qobject_to_json_pretty (obj : QObject) : bytes := to_json obj [] true 0.

(** ** Examples *)

Definition sample : QObject :=
  QOList [QOInt (-7); QOString [x61; x22; x5c; xc3; xa9; xe2; x82; xac]; QOBool 1;
          QODict (qdict_put_obj (qdict_put_obj qdict_new (bs "k") (QOInt 0)) (bs "") (QOList []))].

Example sample_json :
  c_str (qobject_to_json sample) =
  bs "[-7, " ++ [x22; x61; x5c; x22; x5c; x5c] ++ bs "\u00E9\u20AC" ++ [x22] ++ bs ", true, {"
  ++ [x22; x22] ++ bs ": [], " ++ [x22; x6b; x22] ++ bs ": 0}]".
Proof. vm_compute. reflexivity. Qed.

Example sample_back :
  (r ← qobject_from_json (qobject_to_json_pretty sample); Ok (option_map qobject_to_json r)) =
  Ok (Some (qobject_to_json sample)).
Proof. vm_compute. reflexivity. Qed.
