(* ===== verification/JsonText.v ===== *)
(** * JsonText: the lexer on the text the printer writes

    The text of an object is put together from pieces; a piece is lexed from a
    [boundary] (a state in which at most one token is pending, to be emitted by
    the next character) to a boundary.  [lexes_text] concludes that the lexer
    reads the text of an object as the token sequence [jtoks] of the object. *)

From S2P Require Import Prelude LibC QDict QObject JsonLexer JsonLexerFacts JsonParser QJson.
Local Open Scope Z_scope.

Definition toks_t : Type := list (table_entry * bytes).

(** ** Boundaries *)

Inductive boundary : json_lexer_state → bytes → toks_t → Prop :=
| B_start : boundary IN_START [] []
| B_blank tok : boundary IN_WHITESPACE tok []
| B_zero tok : boundary IN_ZERO tok [(TOK JSON_INTEGER, tok)]
| B_number tok : boundary IN_NONZERO_NUMBER tok [(TOK JSON_INTEGER, tok)]
| B_keyword tok : boundary IN_KEYWORD tok [(TOK JSON_KEYWORD, tok)].

Definition is_op (c : byte) : bool :=
  match c with "{" | "}" | "[" | "]" | "," | ":" => true | _ => false end%byte.
Definition is_blank (c : byte) : bool :=
  match c with " " | x0a => true | _ => false end%byte.

Definition op_tok (c : byte) : table_entry * bytes := (TOK JSON_OPERATOR, [c]).

Lemma run_op st tok pend c :
  boundary st tok pend → is_op c = true → run st tok [c] (pend ++ [op_tok c]) IN_START [].
Proof.
  intros Hb Hc.
  assert (run IN_START [] [c] [op_tok c] IN_START []) as Hs.
  { apply (run_token IN_START []); destruct c; try discriminate Hc; done. }
  destruct Hb; [exact Hs|..];
    [ apply (run_lookahead _ tok c JSON_SKIP [op_tok c])
    | apply (run_lookahead _ tok c JSON_INTEGER [op_tok c])
    | apply (run_lookahead _ tok c JSON_INTEGER [op_tok c])
    | apply (run_lookahead _ tok c JSON_KEYWORD [op_tok c]) ];
    try done; destruct c; try discriminate Hc; done.
Qed.

Lemma run_blank st tok pend c :
  boundary st tok pend → is_blank c = true →
  ∃ tok', run st tok [c] pend IN_WHITESPACE tok'.
Proof.
  intros Hb Hc.
  assert (run IN_START [] [c] [] IN_WHITESPACE [c]) as Hs.
  { apply (run_char IN_START []); destruct c; try discriminate Hc; done. }
  destruct Hb; [by exists [c] | exists (tok ++ [c]) | exists [c].. ].
  - apply run_char; destruct c; try discriminate Hc; done.
  - rewrite <- (app_nil_r [_]). apply (run_lookahead _ tok c JSON_INTEGER []);
      try done; destruct c; try discriminate Hc; done.
  - rewrite <- (app_nil_r [_]). apply (run_lookahead _ tok c JSON_INTEGER []);
      try done; destruct c; try discriminate Hc; done.
  - rewrite <- (app_nil_r [_]). apply (run_lookahead _ tok c JSON_KEYWORD []);
      try done; destruct c; try discriminate Hc; done.
Qed.

(** ** Pieces *)

(** From any boundary to a boundary with nothing pending. *)
Definition closing (txt : bytes) (toks : toks_t) : Prop :=
  ∀ st tok pend, boundary st tok pend →
  ∃ st' tok', run st tok txt (pend ++ toks) st' tok' ∧ boundary st' tok' [].

(** From any boundary to any boundary. *)
Definition extending (txt : bytes) (toks : toks_t) : Prop :=
  ∀ st tok pend, boundary st tok pend →
  ∃ st' tok' E pend', run st tok txt E st' tok' ∧ boundary st' tok' pend' ∧ E ++ pend' = pend ++ toks.

(** From a boundary with nothing pending to any boundary. *)
Definition valued (txt : bytes) (toks : toks_t) : Prop :=
  ∀ st tok, boundary st tok [] →
  ∃ st' tok' E pend', run st tok txt E st' tok' ∧ boundary st' tok' pend' ∧ E ++ pend' = toks.

Lemma closing_op c : is_op c = true → closing [c] [op_tok c].
Proof. intros Hc st tok pend Hb. exists IN_START, []. split; [by apply run_op | constructor]. Qed.

Lemma closing_blank txt toks b :
  closing txt toks → Forall (λ c, is_blank c = true) b → closing (txt ++ b) toks.
Proof.
  intros Ht Hb st tok pend Hbd. destruct (Ht _ _ _ Hbd) as (st1 & tok1 & Hr & Hb1).
  clear Ht Hbd. revert st1 tok1 txt Hr Hb1. induction Hb as [|c b Hc Hb IH]; intros st1 tok1 txt Hr Hb1.
  - rewrite app_nil_r. eauto.
  - destruct (run_blank st1 tok1 [] c Hb1 Hc) as [tok2 Hr2].
    replace (txt ++ c :: b) with ((txt ++ [c]) ++ b) by by rewrite <- app_assoc.
    eapply IH; [|apply B_blank]. eapply run_seq; [exact Hr|exact Hr2|done|by rewrite app_nil_r].
Qed.

Lemma closing_closing t1 k1 t2 k2 : closing t1 k1 → closing t2 k2 → closing (t1 ++ t2) (k1 ++ k2).
Proof.
  intros H1 H2 st tok pend Hb. destruct (H1 _ _ _ Hb) as (st1 & tok1 & Hr1 & Hb1).
  destruct (H2 _ _ _ Hb1) as (st2 & tok2 & Hr2 & Hb2). exists st2, tok2. split; [|done].
  eapply run_seq; [exact Hr1|exact Hr2|done|by rewrite app_assoc].
Qed.

Lemma closing_valued t1 k1 t2 k2 : closing t1 k1 → valued t2 k2 → extending (t1 ++ t2) (k1 ++ k2).
Proof.
  intros H1 H2 st tok pend Hb. destruct (H1 _ _ _ Hb) as (st1 & tok1 & Hr1 & Hb1).
  destruct (H2 _ _ Hb1) as (st2 & tok2 & E & pend' & Hr2 & Hb2 & <-).
  exists st2, tok2, ((pend ++ k1) ++ E), pend'. split; [by eapply run_app|]. split; [done|].
  by rewrite !app_assoc.
Qed.

Lemma extending_closing t1 k1 t2 k2 : extending t1 k1 → closing t2 k2 → closing (t1 ++ t2) (k1 ++ k2).
Proof.
  intros H1 H2 st tok pend Hb. destruct (H1 _ _ _ Hb) as (st1 & tok1 & E & pend' & Hr1 & Hb1 & HE).
  destruct (H2 _ _ _ Hb1) as (st2 & tok2 & Hr2 & Hb2). exists st2, tok2. split; [|done].
  eapply run_seq; [exact Hr1|exact Hr2|done|]. by rewrite !app_assoc, HE.
Qed.

Lemma extending_valued t1 k1 t2 k2 t3 k3 :
  extending t1 k1 → closing t2 k2 → valued t3 k3 → extending (t1 ++ t2 ++ t3) (k1 ++ k2 ++ k3).
Proof.
  intros H1 H2 H3. rewrite !app_assoc. apply closing_valued; [|done]. by apply extending_closing.
Qed.

Lemma closing_is_valued t k : closing t k → valued t k.
Proof.
  intros H st tok Hb. destruct (H _ _ _ Hb) as (st1 & tok1 & Hr & Hb1).
  exists st1, tok1, k, []. split; [done|]. split; [done|]. apply app_nil_r.
Qed.

(** ** Reading the first character of a value *)

(** The characters that start a value and are not blank. *)
Definition starts (c : byte) (s : json_lexer_state) : bool :=
  bool_decide (json_lexer IN_START c = ST s) && bool_decide (s ≠ IN_ERROR) &&
  bool_decide (json_lexer IN_WHITESPACE c = TOK JSON_SKIP).

Lemma run_first st tok c s : boundary st tok [] → starts c s = true → run st tok [c] [] s [c].
Proof.
  unfold starts. intros Hb H. bool_to_prop.
  assert (run IN_START [] [c] [] s [c]) as Hs by by apply (run_char IN_START []).
  inversion Hb; subst; [exact Hs|].
  apply (run_lookahead _ tok c JSON_SKIP []); try done; simpl; lia.
Qed.

(** A run of characters that stay in one state. *)
Lemma run_loop st tok cs :
  Forall (λ c, json_lexer st c = ST st) cs → st ≠ IN_ERROR → run st tok cs [] st (tok ++ cs).
Proof.
  intros H Hst. revert tok. induction H as [|c cs Hc H IH]; intros tok.
  - rewrite app_nil_r. apply run_nil.
  - replace (tok ++ c :: cs) with ((tok ++ [c]) ++ cs) by by rewrite <- app_assoc.
    by eapply run_seq; [by eapply run_char | apply IH | |].
Qed.

(** ** Numbers and keywords *)

Lemma digit_stays c : is_digit c = true → json_lexer IN_NONZERO_NUMBER c = ST IN_NONZERO_NUMBER.
Proof.
  intros H.
  assert (∀ c, implb (is_digit c)
            (bool_decide (json_lexer IN_NONZERO_NUMBER c = ST IN_NONZERO_NUMBER)) = true) as Hb
    by all_bytes.
  specialize (Hb c). rewrite H in Hb. by apply bool_decide_eq_true in Hb.
Qed.

Lemma digits_stay cs :
  Forall (λ c, is_digit c = true) cs → Forall (λ c, json_lexer IN_NONZERO_NUMBER c = ST IN_NONZERO_NUMBER) cs.
Proof. intros H. eapply Forall_impl; [exact H | apply digit_stays]. Qed.

Lemma nonzero_digit d :
  1 <= d < 10 → starts (digit_char d) IN_NONZERO_NUMBER = true ∧
  json_lexer IN_NEG_NONZERO_NUMBER (digit_char d) = ST IN_NONZERO_NUMBER.
Proof.
  intros H. assert (d = 1 ∨ d = 2 ∨ d = 3 ∨ d = 4 ∨ d = 5 ∨ d = 6 ∨ d = 7 ∨ d = 8 ∨ d = 9) as Hd by lia.
  repeat destruct Hd as [->|Hd]; [split; reflexivity..|]. subst. split; reflexivity.
Qed.

Lemma valued_int z : is_s64 z → valued (print_lld z) [(TOK JSON_INTEGER, print_lld z)].
Proof.
  unfold is_s64. intros Hz st tok Hb. unfold print_lld. destruct (Z.ltb_spec z 0) as [Hneg|Hpos].
  - destruct (dec_digits_head 20 (- z) []) as (d & rest & Hd & E); [lia|].
    pose proof (dec_digits_Forall 20 (- z) [] ltac:(lia) ltac:(constructor)) as Hall.
    rewrite E in *. apply Forall_cons in Hall as [_ Hall].
    destruct (nonzero_digit d Hd) as [_ Hd2].
    exists IN_NONZERO_NUMBER, ("-"%byte :: digit_char d :: rest), [], [(TOK JSON_INTEGER, "-"%byte :: digit_char d :: rest)].
    split; [|split; [constructor|done]].
    eapply run_seq; [apply (run_first _ _ "-"%byte IN_NEG_NONZERO_NUMBER Hb); reflexivity| |
      instantiate (1 := digit_char d :: rest); done | done].
    eapply run_seq; [by eapply run_char|
      apply (run_loop IN_NONZERO_NUMBER ["-"%byte; digit_char d] rest); [by apply digits_stay|done]|
      done | done].
  - destruct (decide (z = 0)) as [->|Hz0].
    + exists IN_ZERO, (bs "0"), [], [(TOK JSON_INTEGER, bs "0")].
      split; [|split; [constructor|done]].
      apply (run_first _ _ "0"%byte IN_ZERO Hb). reflexivity.
    + destruct (dec_digits_head 20 z []) as (d & rest & Hd & E); [lia|].
      pose proof (dec_digits_Forall 20 z [] ltac:(lia) ltac:(constructor)) as Hall.
      rewrite E in *. apply Forall_cons in Hall as [_ Hall].
      destruct (nonzero_digit d Hd) as [Hd1 _].
      exists IN_NONZERO_NUMBER, (digit_char d :: rest), [], [(TOK JSON_INTEGER, digit_char d :: rest)].
      split; [|split; [constructor|done]].
      eapply run_seq; [by apply (run_first _ _ (digit_char d) IN_NONZERO_NUMBER Hb)|
        apply (run_loop IN_NONZERO_NUMBER [digit_char d] rest); [by apply digits_stay|done]|
        done | done].
Qed.

Lemma valued_keyword c cs :
  starts c IN_KEYWORD = true → Forall (λ c, json_lexer IN_KEYWORD c = ST IN_KEYWORD) cs →
  valued (c :: cs) [(TOK JSON_KEYWORD, c :: cs)].
Proof.
  intros Hc Hcs st tok Hb.
  exists IN_KEYWORD, (c :: cs), [], [(TOK JSON_KEYWORD, c :: cs)].
  split; [|split; [constructor|done]].
  eapply run_seq; [by apply (run_first _ _ c IN_KEYWORD Hb)|
    apply (run_loop IN_KEYWORD [c] cs); done | done | done].
Qed.

Lemma valued_bool (b : bool) :
  let text := if b then bs "false" else bs "true" in valued text [(TOK JSON_KEYWORD, text)].
Proof. destruct b; apply valued_keyword; repeat constructor. Qed.

(** ** Strings

    The strings that survive printing and reading: UTF-8 with one, two or three
    bytes per character (the code points of [uint16_t]), without NUL. *)

Definition cont (c : byte) : bool := (0x80 <=? bz c) && (bz c <=? 0xBF).
Definition ascii_char (c : byte) : bool := (1 <=? bz c) && (bz c <=? 0x7F).
Definition two_bytes (c c1 : byte) : bool := (0xC2 <=? bz c) && (bz c <=? 0xDF) && cont c1.
Definition three_bytes (c c1 c2 : byte) : bool :=
  (0xE0 <=? bz c) && (bz c <=? 0xEF) && cont c1 && cont c2 && ((0xE0 <? bz c) || (0xA0 <=? bz c1)).

Fixpoint bmp_utf8 (s : bytes) : bool :=
  match s with
  | [] => true
  | c :: s =>
      if ascii_char c then bmp_utf8 s
      else match s with
           | [] => false
           | c1 :: s =>
               if two_bytes c c1 then bmp_utf8 s
               else match s with
                    | [] => false
                    | c2 :: s => three_bytes c c1 c2 && bmp_utf8 s
                    end
           end
  end.

(** [txt] is the escaped form of the characters [s]: a plain character, a
    two-character escape or a \u escape. *)
Definition chunk_form (txt s : bytes) : bool :=
  match txt with
  | [c] => bool_decide (json_lexer IN_DQ_STRING c = ST IN_DQ_STRING) &&
           bool_decide (c ≠ x22) && bool_decide (c ≠ x5c) && bool_decide (s = [c])
  | [b; e] => bool_decide (b = x5c) && bool_decide (json_lexer IN_DQ_STRING_ESCAPE e = ST IN_DQ_STRING) &&
              bool_decide ((λ ch, [ch]) <$> simple_escape e = Some s)
  | [b; u; h0; h1; h2; h3] =>
      bool_decide (b = x5c) && bool_decide (u = "u"%byte) &&
      (qemu_isxdigit h0 && qemu_isxdigit h1 && qemu_isxdigit h2 && qemu_isxdigit h3) &&
      match read_ucode 4 0 [h0; h1; h2; h3] with
      | Some (w, []) => bool_decide (c_str (wchar_to_utf8 w) = s)
      | _ => false
      end
  | _ => false
  end.

Inductive chunks : bytes → bytes → Prop :=
| chunks_nil : chunks [] []
| chunks_cons t c txt s : chunk_form t c = true → chunks txt s → chunks (t ++ txt) (c ++ s).

(** *** The printer writes chunks *)

Definition step_is (c : byte) (rest : bytes) (k : nat) (s : bytes) : bool :=
  Nat.eqb (escape_step c rest).2 k && chunk_form (escape_step c rest).1 s.

Lemma ascii_step c rest : ascii_char c = true → step_is c rest 0 [c] = true.
Proof.
  intros Hc. assert (escape_step c rest = escape_step c []) as E.
  { unfold escape_step.
    assert (∀ c, implb (ascii_char c) (negb (Z.land (bz c) 0xE0 =? 0xE0) &&
       negb (Z.land (bz c) 0xE0 =? 0xC0)) = true) as Hb by all_bytes.
    specialize (Hb c). rewrite Hc in Hb. simpl in Hb.
    apply andb_true_iff in Hb as [->%negb_true_iff ->%negb_true_iff]. done. }
  unfold step_is. rewrite E.
  assert (∀ c, implb (ascii_char c) (step_is c [] 0 [c]) = true) as Hb by all_bytes.
  specialize (Hb c). by rewrite Hc in Hb.
Qed.

Lemma hex_char_ok n :
  0 <= n < 16 → qemu_isxdigit (hex_char n) = true ∧ hex2decimal (hex_char n) = n.
Proof.
  intros Hn. assert (forallb (λ k, qemu_isxdigit (hex_char (Z.of_nat k)) &&
    (hex2decimal (hex_char (Z.of_nat k)) =? Z.of_nat k)) (seq 0 16) = true) as H by reflexivity.
  rewrite forallb_forall in H. specialize (H (Z.to_nat n) ltac:(apply in_seq; lia)).
  rewrite Z2Nat.id in H by lia. bool_to_prop. done.
Qed.

Lemma print_04X_digits a b c d :
  0 <= a < 16 → 0 <= b < 16 → 0 <= c < 16 → 0 <= d < 16 →
  print_04X (((a * 16 + b) * 16 + c) * 16 + d) = [hex_char a; hex_char b; hex_char c; hex_char d].
Proof.
  intros Ha Hb Hc Hd. unfold print_04X. rewrite u32_small by lia.
  assert (∀ q r, 0 <= r < 16 → (q * 16 + r) / 16 = q ∧ (q * 16 + r) mod 16 = r) as Hdm.
  { intros q r Hr. split; [rewrite Z.div_add_l by lia; rewrite Z.div_small; lia|].
    rewrite Z.add_comm, Z.mod_add, Z.mod_small; lia. }
  cbn [hex_digits]. rewrite !(proj2 (Hdm _ d Hd)), !(proj1 (Hdm _ d Hd)).
  rewrite !(proj2 (Hdm _ c Hc)), !(proj1 (Hdm _ c Hc)), !(proj2 (Hdm _ b Hb)), !(proj1 (Hdm _ b Hb)).
  rewrite (Z.mod_small a) by lia. change "0"%byte with (hex_char 0).
  destruct (Z.ltb_spec (((a * 16 + b) * 16 + c) * 16 + d) 16);
    [assert (a = 0 ∧ b = 0 ∧ c = 0) as (-> & -> & ->) by lia; done|].
  destruct (Z.ltb_spec ((a * 16 + b) * 16 + c) 16);
    [assert (a = 0 ∧ b = 0) as (-> & ->) by lia; done|].
  destruct (Z.ltb_spec (a * 16 + b) 16); [assert (a = 0) as -> by lia; done|].
  by destruct (Z.ltb_spec a 16); [|lia].
Qed.

Lemma read_ucode_digits a b c d :
  0 <= a < 16 → 0 <= b < 16 → 0 <= c < 16 → 0 <= d < 16 →
  read_ucode 4 0 [hex_char a; hex_char b; hex_char c; hex_char d] =
  Some (((a * 16 + b) * 16 + c) * 16 + d, []).
Proof.
  intros Ha Hb Hc Hd. cbn [read_ucode].
  rewrite !(proj1 (hex_char_ok _ Ha)), !(proj1 (hex_char_ok _ Hb)), !(proj1 (hex_char_ok _ Hc)),
    !(proj1 (hex_char_ok _ Hd)), !(proj2 (hex_char_ok _ Ha)), !(proj2 (hex_char_ok _ Hb)),
    !(proj2 (hex_char_ok _ Hc)), !(proj2 (hex_char_ok _ Hd)).
  change (Z.of_nat 3 * 4) with 12. change (Z.of_nat 2 * 4) with 8. change (Z.of_nat 1 * 4) with 4.
  change (Z.of_nat 0 * 4) with 0. rewrite !Z.shiftl_mul_pow2 by lia. rewrite Z.lor_0_l.
  unfold u16. rewrite (Z.mod_small (a * _)) by lia.
  rewrite (lor_add a (b * _) 12) by lia.
  rewrite (Z.mod_small (a * _ + _)) by lia.
  replace (a * 2 ^ 12 + b * 2 ^ 8) with ((a * 16 + b) * 2 ^ 8) by lia.
  rewrite (lor_add _ (c * _) 8) by lia. rewrite (Z.mod_small (_ * 2 ^ 8 + _)) by lia.
  replace ((a * 16 + b) * 2 ^ 8 + c * 2 ^ 4) with (((a * 16 + b) * 16 + c) * 2 ^ 4) by lia.
  replace (d * 2 ^ 0) with d by lia. rewrite (lor_add _ d 4) by lia.
  rewrite Z.mod_small by lia. do 2 f_equal.
Qed.

(** The \u escape of a 16-bit code unit reads back as its UTF-8 form. *)
Lemma u_escape_chunk w : 0 <= w < 2 ^ 16 → chunk_form (u_escape w) (c_str (wchar_to_utf8 w)) = true.
Proof.
  intros Hw.
  assert (∃ a b c d, w = ((a * 16 + b) * 16 + c) * 16 + d ∧
    0 <= a < 16 ∧ 0 <= b < 16 ∧ 0 <= c < 16 ∧ 0 <= d < 16) as (a & b & c & d & -> & Ha & Hb & Hc & Hd).
  { exists (w / 4096), (w / 256 mod 16), (w / 16 mod 16), (w mod 16).
    Z.to_euclidean_division_equations. lia. }
  unfold u_escape. rewrite print_04X_digits by done. unfold snprintf. simpl app. cbn [take Nat.sub].
  unfold chunk_form. rewrite read_ucode_digits by done.
  rewrite !(proj1 (hex_char_ok _ Ha)), !(proj1 (hex_char_ok _ Hb)), !(proj1 (hex_char_ok _ Hc)),
    !(proj1 (hex_char_ok _ Hd)). by rewrite !bool_decide_true by done.
Qed.

Lemma zb_is z b : z = bz b → zb z = b.
Proof. intros ->. apply zb_bz. Qed.

Lemma c_str_bytes s : Forall (λ c, 0 < bz c) s → c_str s = s.
Proof.
  intros H. apply c_str_no_nul. intros Hin. rewrite Forall_forall in H. by specialize (H _ Hin).
Qed.

Lemma wchar_two c c1 :
  two_bytes c c1 = true →
  c_str (wchar_to_utf8 ((bz c - 0xC0) * 2 ^ 6 + (bz c1 - 0x80))) = [c; c1].
Proof.
  unfold two_bytes, cont. intros H. bool_to_prop. unfold wchar_to_utf8.
  destruct (Z.leb_spec ((bz c - 0xC0) * 2 ^ 6 + (bz c1 - 0x80)) 0x7F); [lia|].
  destruct (Z.leb_spec ((bz c - 0xC0) * 2 ^ 6 + (bz c1 - 0x80)) 0x7FF); [|lia].
  rewrite (land_mod _ 5), (land_mod _ 6), Z.shiftr_div_pow2 by lia.
  rewrite Z.div_add_l, (Z.div_small (bz c1 - 0x80)), (Z.mod_small (bz c - 0xC0 + 0)) by lia.
  rewrite (Z.add_comm (_ * 2 ^ 6)), Z.mod_add, Z.mod_small by lia.
  change 0xC0 with (6 * 2 ^ 5) at 1. change 0x80 with (2 * 2 ^ 6) at 1.
  rewrite (lor_add 6 _ 5), (lor_add 2 _ 6) by lia.
  rewrite (zb_is _ c), (zb_is _ c1) by lia. apply c_str_bytes. repeat constructor; lia.
Qed.

Lemma wchar_three c c1 c2 :
  three_bytes c c1 c2 = true →
  c_str (wchar_to_utf8 (((bz c - 0xE0) * 2 ^ 6 + (bz c1 - 0x80)) * 2 ^ 6 + (bz c2 - 0x80))) = [c; c1; c2].
Proof.
  unfold three_bytes, cont. intros H. apply andb_true_iff in H as [H Hor]. bool_to_prop.
  unfold wchar_to_utf8. set (q := (bz c - 0xE0) * 2 ^ 6 + (bz c1 - 0x80)).
  assert (2 ^ 5 <= q) by (subst q; apply orb_true_iff in Hor as [Hor|Hor]; bool_to_prop; lia).
  destruct (Z.leb_spec (q * 2 ^ 6 + (bz c2 - 0x80)) 0x7F); [lia|].
  destruct (Z.leb_spec (q * 2 ^ 6 + (bz c2 - 0x80)) 0x7FF); [lia|].
  rewrite (land_mod _ 4), !(land_mod _ 6), !Z.shiftr_div_pow2 by lia.
  change (2 ^ 12) with (2 ^ 6 * 2 ^ 6). rewrite <- Z.div_div by lia.
  rewrite !Z.div_add_l, (Z.div_small (bz c2 - 0x80)), Z.add_0_r by lia.
  rewrite (Z.add_comm (q * 2 ^ 6)), Z.mod_add, (Z.mod_small (bz c2 - 0x80)) by lia.
  subst q. rewrite Z.div_add_l, (Z.div_small (bz c1 - 0x80)), Z.add_0_r by lia.
  rewrite (Z.add_comm ((bz c - 0xE0) * 2 ^ 6)), Z.mod_add, !Z.mod_small by lia.
  change 0xE0 with (14 * 2 ^ 4) at 1. change 0x80 with (2 * 2 ^ 6) at 1 3.
  rewrite (lor_add 14 _ 4), !(lor_add 2 _ 6) by lia.
  rewrite (zb_is _ c), (zb_is _ c1), (zb_is _ c2) by lia. apply c_str_bytes. repeat constructor; lia.
Qed.

(** The two mask tests of [escape_step] on a lead byte. *)
Lemma lead_masks c :
  (implb ((0xC2 <=? bz c) && (bz c <=? 0xDF))
     (negb (Z.land (bz c) 0xE0 =? 0xE0) && (Z.land (bz c) 0xE0 =? 0xC0) &&
      (Z.land (bz c) 0x1F =? bz c - 0xC0)) &&
   implb ((0xE0 <=? bz c) && (bz c <=? 0xEF))
     ((Z.land (bz c) 0xE0 =? 0xE0) && (Z.land (bz c) 0x0F =? bz c - 0xE0)) &&
   implb (cont c) (negb (Z.land (bz c) 0x80 =? 0) && (Z.land (bz c) 0x3F =? bz c - 0x80))) = true.
Proof. revert c. all_bytes. Qed.

Lemma cont_masks c :
  cont c = true → (Z.land (bz c) 0x80 =? 0) = false ∧ Z.land (bz c) 0x3F = bz c - 0x80.
Proof.
  intros H. pose proof (lead_masks c) as Hm. rewrite H in Hm.
  apply andb_true_iff in Hm as [_ Hm]. cbn [implb] in Hm. bool_to_prop. split; [by apply Z.eqb_neq | done].
Qed.

Lemma cont_range c : cont c = true → 0x80 <= bz c <= 0xBF.
Proof. unfold cont. intros. bool_to_prop. lia. Qed.

Lemma two_step c c1 rest : two_bytes c c1 = true → step_is c (c1 :: rest) 1 [c; c1] = true.
Proof.
  intros H. pose proof H as H2. unfold two_bytes in H. apply andb_true_iff in H as [Hl Hc1].
  pose proof (lead_masks c) as Hm. rewrite Hl in Hm. cbn [implb] in Hm. bool_to_prop.
  destruct (cont_masks c1 Hc1) as [Hn1 He1]. pose proof (cont_range c1 Hc1).
  unfold step_is, escape_step. cbn [hd tail].
  replace (Z.land (bz c) 0xE0 =? 0xE0) with false by (symmetry; lia).
  replace (Z.land (bz c) 0xE0 =? 0xC0) with true by (symmetry; lia).
  rewrite Hn1, He1. replace (Z.land (bz c) 0x1F) with (bz c - 0xC0) by lia.
  cbn [andb negb fst snd Nat.eqb]. rewrite Z.shiftl_mul_pow2 by lia. unfold u16.
  rewrite Z.mod_small, lor_add by lia. rewrite <- (wchar_two c c1) by done.
  apply u_escape_chunk. lia.
Qed.

Lemma three_step c c1 c2 rest :
  three_bytes c c1 c2 = true → step_is c (c1 :: c2 :: rest) 2 [c; c1; c2] = true.
Proof.
  intros H. pose proof H as H3. unfold three_bytes in H.
  apply andb_true_iff in H as [[[Hl Hc1]%andb_true_iff Hc2]%andb_true_iff _].
  pose proof (lead_masks c) as Hm. rewrite Hl in Hm. cbn [implb] in Hm. bool_to_prop.
  destruct (cont_masks c1 Hc1) as [Hn1 He1]. pose proof (cont_range c1 Hc1).
  destruct (cont_masks c2 Hc2) as [Hn2 He2]. pose proof (cont_range c2 Hc2).
  unfold step_is, escape_step. cbn [hd tail].
  replace (Z.land (bz c) 0xE0 =? 0xE0) with true by (symmetry; lia).
  rewrite Hn1, Hn2, He1, He2. replace (Z.land (bz c) 0x0F) with (bz c - 0xE0) by lia.
  cbn [andb negb fst snd Nat.eqb]. rewrite !Z.shiftl_mul_pow2 by lia. unfold u16.
  rewrite Z.mod_small, lor_add by lia.
  replace ((bz c - 0xE0) * 2 ^ 12 + (bz c1 - 0x80) * 2 ^ 6)
    with (((bz c - 0xE0) * 2 ^ 6 + (bz c1 - 0x80)) * 2 ^ 6) by lia.
  rewrite lor_add by lia. rewrite <- (wchar_three c c1 c2) by done. apply u_escape_chunk. lia.
Qed.

Lemma to_json_chars_skip k s t : length s = k → to_json_chars k (s ++ t) = to_json_chars 0 t.
Proof. revert s. induction k; intros [|c s]; simpl; intros; try lia; auto. Qed.

Lemma step_chunks c rest k s txt tail :
  step_is c (rest ++ tail) k s = true → length rest = k → s = c :: rest →
  chunks txt tail → txt = to_json_chars 0 tail →
  chunks (to_json_chars 0 (c :: rest ++ tail)) (c :: rest ++ tail).
Proof.
  unfold step_is. intros H Hk -> Hc ->. simpl.
  destruct (escape_step c (rest ++ tail)) as [t k'] eqn:E. simpl in H.
  apply andb_true_iff in H as [->%Nat.eqb_eq H].
  rewrite to_json_chars_skip by done. by apply (chunks_cons t (c :: rest)).
Qed.

Lemma bmp_chunks s : bmp_utf8 s = true → chunks (to_json_chars 0 s) s.
Proof.
  induction s as [s IH] using (induction_ltof1 _ length). unfold ltof in IH.
  destruct s as [|c s]; [intros; constructor|]. cbn [bmp_utf8].
  destruct (ascii_char c) eqn:Ha; [intros H|].
  { apply (step_chunks c [] 0 [c] (to_json_chars 0 s) s); [by apply ascii_step|done|done| |done].
    apply IH; [simpl; lia|done]. }
  destruct s as [|c1 s]; [discriminate|]. destruct (two_bytes c c1) eqn:H2; [intros H|].
  { apply (step_chunks c [c1] 1 [c; c1] (to_json_chars 0 s) s); [by apply two_step|done|done| |done].
    apply IH; [simpl; lia|done]. }
  destruct s as [|c2 s]; [discriminate|]. intros [H3 H]%andb_true_iff.
  apply (step_chunks c [c1; c2] 2 [c; c1; c2] (to_json_chars 0 s) s); [by apply three_step|done|done| |done].
  apply IH; [simpl; lia|done].
Qed.

(** *** The lexer reads them *)

Lemma hex_states st next h :
  json_lexer_rows st = hex_row next → qemu_isxdigit h = true → json_lexer st h = ST next.
Proof.
  intros E H. unfold json_lexer. rewrite E.
  assert (∀ next h, implb (qemu_isxdigit h)
            (bool_decide (row_lookup (hex_row next) (bz h) (ST IN_ERROR) = ST next)) = true) as Hb
    by (intros []; all_bytes).
  specialize (Hb next h). rewrite H in Hb. by apply bool_decide_eq_true in Hb.
Qed.

Lemma run_chunk tok t s :
  chunk_form t s = true → run IN_DQ_STRING tok t [] IN_DQ_STRING (tok ++ t).
Proof.
  intros H. destruct t as [|c [|e [|h0 [|h1 [|h2 [|h3 [|]]]]]]]; try discriminate H; simpl in H; bool_to_prop.
  - by apply run_char.
  - subst c. eapply run_seq; [by apply (run_char _ _ x5c IN_DQ_STRING_ESCAPE)| |
      by instantiate (1 := [e]) |done].
    replace (tok ++ [x5c; e]) with ((tok ++ [x5c]) ++ [e]) by by rewrite <- app_assoc. by apply run_char.
  - subst c e.
    replace (tok ++ [x5c; "u"%byte; h0; h1; h2; h3])
      with ((((((tok ++ [x5c]) ++ ["u"%byte]) ++ [h0]) ++ [h1]) ++ [h2]) ++ [h3]) by by rewrite <- !app_assoc.
    eapply (run_seq _ _ [x5c] []); [by apply run_char| |done|done].
    eapply (run_seq _ _ ["u"%byte] []); [by apply run_char| |done|done].
    eapply (run_seq _ _ [h0] []); [apply run_char; [by eapply hex_states|done]| |done|done].
    eapply (run_seq _ _ [h1] []); [apply run_char; [by eapply hex_states|done]| |done|done].
    eapply (run_seq _ _ [h2] []); [apply run_char; [by eapply hex_states|done]| |done|done].
    apply run_char; [by eapply hex_states|done].
Qed.

Lemma run_chunks tok txt s : chunks txt s → run IN_DQ_STRING tok txt [] IN_DQ_STRING (tok ++ txt).
Proof.
  intros H. revert tok. induction H as [|t c txt s Ht H IH]; intros tok.
  - rewrite app_nil_r. apply run_nil.
  - rewrite app_assoc. eapply run_seq; [by eapply run_chunk | apply IH | done | done].
Qed.

Lemma valued_string s :
  chunks (to_json_chars 0 (c_str s)) (c_str s) →
  valued (to_json_string s) [(TOK JSON_STRING, to_json_string s)].
Proof.
  intros H st tok Hb. exists IN_START, [], [(TOK JSON_STRING, to_json_string s)], [].
  split; [|split; [constructor|done]]. unfold to_json_string.
  eapply (run_seq _ _ [dq] []); [by apply (run_first _ _ dq IN_DQ_STRING)| |done|done].
  eapply (run_seq _ _ _ []); [eapply run_chunks; exact H| |done|done].
  rewrite app_assoc. apply run_token; done.
Qed.

(** *** The parser reads them back *)

Lemma read_ucode_app i u s w r ptr :
  read_ucode i u s = Some (w, r) → read_ucode i u (s ++ ptr) = Some (w, r ++ ptr).
Proof.
  revert u s. induction i as [|i IH]; intros u s; cbn [read_ucode].
  - intros [= <- <-]. done.
  - destruct s as [|c s]; [discriminate|]. simpl. destruct (qemu_isxdigit c); [apply IH | discriminate].
Qed.

Lemma unescape_chunk fuel t s ptr acc :
  chunk_form t s = true →
  unescape (S fuel) true (t ++ ptr) acc = unescape fuel true ptr (acc ++ s).
Proof.
  intros H. destruct t as [|c [|e [|h0 [|h1 [|h2 [|h3 [|]]]]]]]; try discriminate H; cbv beta iota delta [chunk_form] in H; bool_to_prop.
  - subst s. cbn [app unescape]. rewrite bool_decide_false by done. by rewrite decide_False.
  - subst c. cbn [app unescape]. rewrite bool_decide_false by done. rewrite decide_True by done.
    destruct (simple_escape e); simplify_eq/=. done.
  - subst c e. cbn [app]. cbn [unescape]. rewrite bool_decide_false by done. rewrite decide_True by done.
    cbn [simple_escape]. rewrite decide_True by done.
    destruct (read_ucode 4 0 [h0; h1; h2; h3]) as [[w [|]]|] eqn:E; try discriminate.
    change (h0 :: h1 :: h2 :: h3 :: ptr) with ([h0; h1; h2; h3] ++ ptr).
    rewrite (read_ucode_app _ _ _ _ _ _ E). by bool_to_prop; subst.
Qed.

Lemma chunk_nonempty t s : chunk_form t s = true → (1 ≤ length t)%nat.
Proof. destruct t; simpl; [discriminate | lia]. Qed.

Lemma unescape_chunks txt s fuel rest acc :
  chunks txt s → (length txt < fuel)%nat → unescape fuel true (txt ++ dq :: rest) acc = inr (acc ++ s).
Proof.
  intros H. revert fuel acc. induction H as [|t c txt s Ht H IH]; intros fuel acc Hf;
    (destruct fuel as [|fuel]; [lia|]).
  - simpl. by rewrite app_nil_r.
  - rewrite length_app in Hf. rewrite <- app_assoc. rewrite (unescape_chunk _ _ c) by done.
    pose proof (chunk_nonempty _ _ Ht). rewrite IH by lia. by rewrite app_assoc.
Qed.

Lemma chunk_no_nul t s : chunk_form t s = true → no_nul t.
Proof.
  assert (∀ c, implb (qemu_isxdigit c) (bool_decide (c ≠ x00)) = true) as Hx by all_bytes.
  assert (∀ h, qemu_isxdigit h = true → h ≠ x00) as Hx'.
  { intros h Hh. specialize (Hx h). rewrite Hh in Hx. by apply bool_decide_eq_true in Hx. }
  intros H Hin. destruct t as [|c [|e [|h0 [|h1 [|h2 [|h3 [|]]]]]]]; try discriminate H;
    simpl in H; bool_to_prop; subst; rewrite ?elem_of_cons, elem_of_nil in Hin; destruct_or?;
    subst; try done; try discriminate; naive_solver.
Qed.

Lemma chunks_no_nul txt s : chunks txt s → no_nul txt.
Proof.
  induction 1 as [|t c txt s Ht H IH]; [unfold no_nul; set_solver|].
  unfold no_nul in *. rewrite elem_of_app. intros [Hin|Hin]; [by eapply chunk_no_nul | done].
Qed.

(** ** The text of lists and dictionaries *)

(** The elements with their separators, from the [n]-th on. *)
Fixpoint body (pre : bytes) (n : nat) (ts : list bytes) : bytes :=
  match ts with
  | [] => []
  | t :: ts => (if Nat.eqb n 0 then [] else bs ", ") ++ pre ++ t ++ body pre (S n) ts
  end.

Definition pre_of (pretty : bool) (indent : nat) : bytes :=
  if pretty then newline_indent indent else [].

Definition pair_text (k : bytes) (t : bytes) : bytes := to_json_string k ++ bs ": " ++ t.

Lemma iter_body {A} (f : A → ToJsonIterState → ToJsonIterState) (g : A → bytes) pretty indent l n str :
  (∀ a s, a ∈ l → f a s = mkIter (S (it_count s)) (iter_prefix s pretty indent ++ g a)) →
  fold_left (λ s a, f a s) l (mkIter n str) =
  mkIter (n + length l) (str ++ body (pre_of pretty indent) n (map g l)).
Proof.
  revert n str. induction l as [|a l IH]; intros n str H; simpl.
  - by rewrite Nat.add_0_r, app_nil_r.
  - rewrite H by set_solver. cbn [it_count]. rewrite IH by (intros; apply H; set_solver).
    f_equal; [lia|]. unfold iter_prefix, pre_of. cbn [it_str it_count]. by rewrite <- !app_assoc.
Qed.

Lemma to_json_app obj : ∀ str pretty indent,
  to_json obj str pretty indent = str ++ to_json obj [] pretty indent.
Proof.
  induction obj as [z|s|d IH|l IH|x|b|] using QObject_nested_ind; intros str pretty indent;
    cbn [to_json]; rewrite ?app_nil_l, ?app_nil_r; try reflexivity.
  - rewrite !qdict_iter_entries.
    rewrite !(iter_body (λ e s, _) (λ e, pair_text e.1 (to_json e.2 [] pretty (S indent))) pretty (S indent)).
    + cbn [it_str]. by rewrite <- !app_assoc.
    + intros [k v] s Hin. cbn [fst snd]. rewrite (IH k v Hin). unfold pair_text. by rewrite <- !app_assoc.
    + intros [k v] s Hin. cbn [fst snd]. rewrite (IH k v Hin). unfold pair_text. by rewrite <- !app_assoc.
  - unfold qlist_iter. rewrite Forall_forall in IH.
    rewrite !(iter_body (λ v s, _) (λ v, to_json v [] pretty (S indent)) pretty (S indent)).
    + cbn [it_str]. by rewrite <- !app_assoc.
    + intros v s Hin. by rewrite (IH v Hin).
    + intros v s Hin. by rewrite (IH v Hin).
Qed.

Lemma to_json_dict d pretty indent :
  to_json (QODict d) [] pretty indent =
  bs "{" ++ body (pre_of pretty (S indent)) 0
    (map (λ e, pair_text e.1 (to_json e.2 [] pretty (S indent))) (qdict_entries d)) ++
  pre_of pretty indent ++ bs "}".
Proof.
  cbn [to_json]. rewrite qdict_iter_entries.
  rewrite (iter_body (λ e s, _) (λ e, pair_text e.1 (to_json e.2 [] pretty (S indent))) pretty (S indent)).
  - cbn [it_str]. by rewrite <- !app_assoc.
  - intros [k v] s Hin. cbn [fst snd]. rewrite to_json_app. unfold pair_text. by rewrite <- !app_assoc.
Qed.

Lemma to_json_list l pretty indent :
  to_json (QOList l) [] pretty indent =
  bs "[" ++ body (pre_of pretty (S indent)) 0 (map (λ v, to_json v [] pretty (S indent)) l) ++
  pre_of pretty indent ++ bs "]".
Proof.
  cbn [to_json]. unfold qlist_iter.
  rewrite (iter_body (λ v s, _) (λ v, to_json v [] pretty (S indent)) pretty (S indent)).
  - cbn [it_str]. by rewrite <- !app_assoc.
  - intros v s Hin. by rewrite to_json_app.
Qed.

(** ** The tokens of an object *)

Definition joined (ks : list toks_t) : toks_t :=
  match ks with [] => [] | k :: ks => k ++ concat (map (λ k, op_tok "," :: k) ks) end.

Definition key_toks (k : bytes) : toks_t := [(TOK JSON_STRING, to_json_string k); op_tok ":"].

Fixpoint jtoks (obj : QObject) : toks_t :=
  match obj with
  | QOInt z => [(TOK JSON_INTEGER, print_lld z)]
  | QOString s => [(TOK JSON_STRING, to_json_string s)]
  | QODict d =>
      op_tok "{" :: joined (concat (map (map (λ e, key_toks e.1 ++ jtoks e.2)) (qdict_table d))) ++
      [op_tok "}"]
  | QOList l => op_tok "[" :: joined (map jtoks l) ++ [op_tok "]"]
  | QOBool v => [(TOK JSON_KEYWORD, if v =? 0 then bs "false" else bs "true")]
  | QOFloat _ | QOError => []
  end.

Lemma jtoks_dict d :
  jtoks (QODict d) =
  op_tok "{" :: joined (map (λ e, key_toks e.1 ++ jtoks e.2) (qdict_entries d)) ++ [op_tok "}"].
Proof. cbn [jtoks]. unfold qdict_entries. by rewrite concat_map. Qed.

(** The objects that survive printing and reading. *)
Inductive json_ok : QObject → Prop :=
| ok_int z : is_s64 z → json_ok (QOInt z)
| ok_string s : bmp_utf8 (c_str s) = true → json_ok (QOString s)
| ok_dict d : qdict_wf d → (∀ k v, (k, v) ∈ qdict_entries d → bmp_utf8 k = true) →
    (∀ k v, (k, v) ∈ qdict_entries d → json_ok v) → json_ok (QODict d)
| ok_list l : Forall json_ok l → json_ok (QOList l)
| ok_bool v : json_ok (QOBool v).

(** ** Lexing bodies *)

Definition blanks (b : bytes) : Prop := Forall (λ c, is_blank c = true) b.

Lemma pre_of_blanks pretty indent : blanks (pre_of pretty indent).
Proof.
  destruct pretty; [|constructor]. constructor; [done|].
  induction indent as [|n IH]; simpl; [constructor|]. repeat (constructor; [done|]). exact IH.
Qed.

Lemma extending_blanks b : blanks b → extending b [].
Proof.
  intros H. destruct H as [|c b Hc H].
  - intros st tok pend Hb. exists st, tok, [], pend. split; [apply run_nil|]. split; [done|].
    by rewrite app_nil_r.
  - assert (closing ([c] ++ b) []) as Hcl.
    { apply closing_blank; [|done]. intros st tok pend Hb.
      destruct (run_blank _ _ _ _ Hb Hc) as [tok' Hr]. exists IN_WHITESPACE, tok'.
      rewrite app_nil_r. split; [done|constructor]. }
    intros st tok pend Hb. destruct (Hcl _ _ _ Hb) as (st' & tok' & Hr & Hb').
    exists st', tok', (pend ++ []), []. split; [done|]. split; [done|]. by rewrite !app_nil_r.
Qed.

Lemma closing_end pre c : blanks pre → is_op c = true → closing (pre ++ [c]) [op_tok c].
Proof. intros Hp Hc. apply (extending_closing pre [] [c] [op_tok c]); [by apply extending_blanks | by apply closing_op]. Qed.

Lemma closing_comma pre : blanks pre → closing (bs ", " ++ pre) [op_tok ","].
Proof.
  intros Hp. change (bs ", " ++ pre) with ([","%byte] ++ " "%byte :: pre).
  apply closing_blank; [by apply closing_op | by constructor].
Qed.

Lemma body_tail pre ts ks n t k :
  blanks pre → Forall2 valued ts ks → extending t k →
  extending (t ++ body pre (S n) ts) (k ++ concat (map (λ k, op_tok "," :: k) ks)).
Proof.
  intros Hp H. revert n t k. induction H as [|t1 k1 ts ks H1 H IH]; intros n t k Ht;
    cbn [body map concat Nat.eqb].
  - by rewrite !app_nil_r.
  - replace (t ++ (bs ", " ++ pre ++ t1 ++ body pre (S (S n)) ts))
      with ((t ++ (bs ", " ++ pre) ++ t1) ++ body pre (S (S n)) ts) by by rewrite <- !app_assoc.
    replace (k ++ (op_tok "," :: k1) ++ concat (map (λ k, op_tok "," :: k) ks))
      with ((k ++ [op_tok ","] ++ k1) ++ concat (map (λ k, op_tok "," :: k) ks)) by by rewrite <- !app_assoc.
    apply (IH (S n) (t ++ (bs ", " ++ pre) ++ t1) (k ++ [op_tok ","] ++ k1)).
    apply extending_valued; [done | by apply closing_comma | done].
Qed.

Lemma bracketed o c pre close ts ks :
  is_op o = true → is_op c = true → blanks pre → blanks close → Forall2 valued ts ks →
  closing ([o] ++ body pre 0 ts ++ close ++ [c]) (op_tok o :: joined ks ++ [op_tok c]).
Proof.
  intros Ho Hc Hp Hcl H. destruct H as [|t1 k1 ts ks H1 H].
  - apply (closing_closing [o] [op_tok o] (close ++ [c]) [op_tok c]);
      [by apply closing_op | by apply closing_end].
  - cbn [body joined Nat.eqb]. rewrite app_nil_l.
    replace ([o] ++ (pre ++ t1 ++ body pre 1 ts) ++ close ++ [c])
      with (((([o] ++ pre) ++ t1) ++ body pre 1 ts) ++ close ++ [c]) by by rewrite <- !app_assoc.
    replace (op_tok o :: (k1 ++ concat (map (λ k, op_tok "," :: k) ks)) ++ [op_tok c])
      with ((([op_tok o] ++ k1) ++ concat (map (λ k, op_tok "," :: k) ks)) ++ [op_tok c])
      by by rewrite <- !app_assoc.
    apply extending_closing; [|by apply closing_end]. apply body_tail; [done|done|].
    apply closing_valued; [|done]. apply closing_blank; [by apply closing_op | done].
Qed.

Lemma valued_pair k t ks :
  chunks (to_json_chars 0 (c_str k)) (c_str k) → valued t ks → valued (pair_text k t) (key_toks k ++ ks).
Proof.
  intros Hk Ht st tok Hb. unfold pair_text, key_toks.
  destruct (valued_string k Hk st tok Hb) as (st1 & tok1 & E1 & p1 & Hr1 & Hb1 & HE1).
  assert (closing (bs ": ") [op_tok ":"]) as Hcol.
  { apply (closing_blank [":"%byte] [op_tok ":"] [" "%byte]); [by apply closing_op | by repeat constructor]. }
  destruct (closing_valued _ _ _ _ Hcol Ht st1 tok1 p1 Hb1) as (st2 & tok2 & E2 & p2 & Hr2 & Hb2 & HE2).
  exists st2, tok2, (E1 ++ E2), p2. split; [by eapply run_app|]. split; [done|].
  rewrite <- app_assoc, HE2, app_assoc, HE1. done.
Qed.

(** The lexer reads the text of an object as its tokens. *)
Lemma lexes_text obj : json_ok obj → ∀ pretty indent, valued (to_json obj [] pretty indent) (jtoks obj).
Proof.
  induction obj as [z|s|d IH|l IH|x|b|] using QObject_nested_ind; intros Hok pretty indent;
    inversion Hok; subst.
  - cbn [to_json app jtoks]. unfold snprintf. rewrite take_ge.
    + by apply valued_int.
    + pose proof (print_lld_length z). lia.
  - cbn [to_json app jtoks]. by apply valued_string, bmp_chunks.
  - rewrite to_json_dict, jtoks_dict. apply closing_is_valued, bracketed; try done; try apply pre_of_blanks.
    apply Forall2_fmap_l, Forall2_fmap_r, Forall_Forall2_diag, Forall_forall. intros [k v] Hin.
    apply valued_pair; [|by eapply IH; eauto].
    cbn [fst]. rewrite c_str_no_nul by by eapply qdict_entries_no_nul. apply bmp_chunks. eauto.
  - rewrite to_json_list. apply closing_is_valued, bracketed; try done; try apply pre_of_blanks.
    apply Forall2_fmap_l, Forall2_fmap_r, Forall_Forall2_diag, Forall_forall. intros v Hin.
    rewrite Forall_forall in *. eauto.
  - cbn [to_json app jtoks]. apply (valued_bool (b =? 0)).
Qed.
