(* ===== verification/JsonRoundTrip.v ===== *)
(** * JsonRoundTrip: printing an object and reading it back

    The streamer collects the tokens of a printed object into one message
    ([streamer_message]), the parser builds from them an object with the same
    meaning ([parse_obj]), and so [qobject_from_json] undoes [qobject_to_json]
    up to the layout of the hash tables ([json_round_trip]). *)

From S2P Require Import Prelude LibC QDict QObject JsonLexer JsonLexerFacts JsonStreamer JsonParser.
From S2P Require Import QJson JsonText.
Local Open Scope Z_scope.

Definition mk (T : list lex_token) : list QObject :=
  map (λ t : lex_token, make_token t.1.1.1 t.1.1.2 t.1.2 t.2) T.

(** ** Token dictionaries *)

Lemma token_dict_wf t ty x y :
  ∃ d, make_token t ty x y = QODict d ∧ qdict_wf d ∧
    qdict_map d !! bs "type" = Some (qint_from_int (entry_code ty)) ∧
    qdict_map d !! bs "token" = Some (QOString t).
Proof.
  eexists. split; [reflexivity|]. split; [auto 6 using qdict_put_wf, qdict_new_wf|].
  rewrite !qdict_put_map by auto 6 using qdict_put_wf, qdict_new_wf.
  change (c_str (bs ?s)) with (bs s).
  split.
  - by rewrite !lookup_insert_ne, lookup_insert_eq by (vm_compute; congruence).
  - by rewrite !lookup_insert_ne, lookup_insert_eq by (vm_compute; congruence).
Qed.

#[global] Opaque make_token.

Lemma entry_code_s64 ty : s64 (entry_code ty) = entry_code ty.
Proof. destruct ty as [[]|[]]; reflexivity. Qed.

Lemma token_type t ty x y : token_get_type (make_token t ty x y) = Ok (entry_code ty).
Proof.
  destruct (token_dict_wf t ty x y) as (d & -> & Hwf & Ht & _).
  unfold token_get_type, qdict_get_int, qdict_get_obj. simpl. rewrite qdict_get_map by done.
  change (c_str (bs "type")) with (bs "type"). rewrite Ht. unfold qint_from_int. simpl.
  by rewrite entry_code_s64.
Qed.

Lemma token_value t ty x y : token_get_value (make_token t ty x y) = Ok (c_str t).
Proof.
  destruct (token_dict_wf t ty x y) as (d & -> & Hwf & _ & Ht).
  unfold token_get_value, qdict_get_str, qdict_get_obj. simpl. rewrite qdict_get_map by done.
  change (c_str (bs "token")) with (bs "token"). by rewrite Ht.
Qed.

Lemma token_operator c x y op :
  c ≠ x00 → token_is_operator (make_token [c] (TOK JSON_OPERATOR) x y) op = Ok (bool_decide (c = op)).
Proof.
  intros Hc. unfold token_is_operator. rewrite token_type, token_value. simpl.
  by rewrite decide_False.
Qed.

Lemma token_not_operator t ty x y op :
  ty ≠ TOK JSON_OPERATOR → token_is_operator (make_token t ty x y) op = Ok false.
Proof.
  intros H. unfold token_is_operator. rewrite token_type. simpl.
  destruct (Z.eqb_spec (entry_code ty) 100) as [E|]; [|done].
  exfalso. destruct ty as [[]|[]]; (discriminate E || congruence).
Qed.

(** ** The streamer *)

Fixpoint depth (obj : QObject) : nat :=
  match obj with
  | QODict d => S (list_max (concat (map (map (λ e, depth e.2)) (qdict_table d))))
  | QOList l => S (list_max (map depth l))
  | _ => 0
  end.

Lemma depth_dict d k v : (k, v) ∈ qdict_entries d → (depth v < depth (QODict d))%nat.
Proof.
  intros Hin. cbn [depth]. unfold qdict_entries in Hin. rewrite <- concat_map.
  apply (list_elem_of_fmap_2 (λ e, depth e.2)) in Hin. cbn [snd] in Hin.
  pose proof (proj1 (list_max_le (map (λ e : bytes * QObject, depth e.2) (concat (qdict_table d))) _) (le_n _)) as H.
  rewrite List.Forall_forall in H. apply Nat.lt_succ_r, H. by apply list_elem_of_In.
Qed.

Lemma depth_list l v : v ∈ l → (depth v < depth (QOList l))%nat.
Proof.
  intros Hin. cbn [depth]. apply (list_elem_of_fmap_2 depth) in Hin.
  pose proof (proj1 (list_max_le (map depth l) _) (le_n _)) as H.
  rewrite List.Forall_forall in H. apply Nat.lt_succ_r, H. by apply list_elem_of_In.
Qed.

(** The characters of a token sequence, which [token_size] adds up. *)
Definition toks_size (V : toks_t) : Z := Z.of_nat (toks_length V).

Section streamer_facts.
Context {R : Type} (emit : option (list QObject) → R → res R).
Abbreviation process := (json_message_process_token emit).

(** Tokens that leave the counters as they are, nested at most [n] deep: inside
    a message they are only collected. *)
Definition collected (V : toks_t) (n : nat) : Prop :=
  ∀ T, map token_view T = V → ∀ b k toks size r,
  0 <= b → 0 <= k → 0 < b + k → b + Z.of_nat n <= MAX_NESTING → k + Z.of_nat n <= MAX_NESTING →
  0 <= size → size + toks_size V <= MAX_TOKEN_SIZE →
  emit_all process T (mkParser b k toks size, r) =
  Ok (mkParser b k (toks ++ mk T) (size + toks_size V), r).

Lemma toks_size_app V1 V2 : toks_size (V1 ++ V2) = toks_size V1 + toks_size V2.
Proof. unfold toks_size. rewrite toks_length_app. lia. Qed.
Lemma toks_size_nonneg V : 0 <= toks_size V.
Proof. unfold toks_size. lia. Qed.

Lemma collected_nil n : collected [] n.
Proof.
  intros T HT b k toks size r **. apply map_eq_nil in HT as ->. simpl.
  rewrite app_nil_r. do 3 f_equal. unfold toks_size, toks_length. simpl. lia.
Qed.

Lemma collected_le V n n' : collected V n → (n ≤ n')%nat → collected V n'.
Proof. intros H Hn T HT b k toks size r **. apply H; try done; lia. Qed.

Lemma collected_app V1 V2 n : collected V1 n → collected V2 n → collected (V1 ++ V2) n.
Proof.
  intros H1 H2 T HT b k toks size r Hb Hk Hbk Hbn Hkn Hs Hm.
  apply map_eq_app in HT as (T1 & T2 & -> & HT1 & HT2). rewrite toks_size_app in *.
  pose proof (toks_size_nonneg V1). pose proof (toks_size_nonneg V2).
  rewrite emit_all_app, (H1 T1) by (done || lia). simpl.
  rewrite (H2 T2) by (done || lia). unfold mk. rewrite map_app, app_assoc.
  do 3 f_equal. lia.
Qed.

(** One token inside a message. *)
Lemma process_inside t ty x y b k b' k' toks size r :
  count_token (mkParser b k toks size) t ty = (b', k') → ty ≠ TOK JSON_ERROR →
  0 <= b' → 0 <= k' → 0 < b' + k' → b' <= MAX_NESTING → k' <= MAX_NESTING →
  0 <= size → size + Z.of_nat (length t) <= MAX_TOKEN_SIZE →
  process t ty x y (mkParser b k toks size, r) =
  Ok (mkParser b' k' (toks ++ [make_token t ty x y]) (size + Z.of_nat (length t)), r).
Proof.
  intros Hc Hty Hb Hk Hbk Hbn Hkn Hs Hm.
  assert (MAX_NESTING = 1024) as HN by reflexivity.
  assert (MAX_TOKEN_SIZE = 67108864) as HM by reflexivity.
  unfold json_message_process_token. rewrite Hc. cbn [token_size tokens].
  rewrite decide_False by done. rewrite !u64_small by lia.
  destruct (Z.ltb_spec b' 0), (Z.ltb_spec k' 0), (Z.eqb_spec b' 0), (Z.eqb_spec k' 0);
    simpl; try lia; destruct (Z.ltb_spec MAX_TOKEN_SIZE (size + Z.of_nat (length t))),
    (Z.ltb_spec MAX_NESTING k'), (Z.ltb_spec MAX_NESTING b'); simpl; try lia; done.
Qed.

(** A token that is not a brace or a bracket. *)
Lemma collected_plain v n :
  v.1 ≠ TOK JSON_ERROR →
  (∀ b k toks size, count_token (mkParser b k toks size) v.2 v.1 = (b, k)) → collected [v] n.
Proof.
  intros He Hc T HT b k toks size r Hb Hk Hbk Hbn Hkn Hs Hm.
  destruct T as [|[[[t ty] x] y] [|]]; try discriminate. injection HT as <-.
  unfold token_view, toks_size, toks_length in *. cbn [map concat fst snd] in *. rewrite app_nil_r in *.
  cbn [emit_all]. rewrite (process_inside _ _ _ _ _ _ b k) by (done || lia). done.
Qed.

Lemma collected_op c n :
  match c with "," | ":" => True | _ => False end%byte → collected [op_tok c] n.
Proof. intros Hc. apply collected_plain; [done|]. destruct c; try done. Qed.

(** A bracketed sequence. *)
Lemma collected_bracketed o c V n :
  (o = "{" ∧ c = "}")%byte ∨ (o = "[" ∧ c = "]")%byte →
  collected V n → collected (op_tok o :: V ++ [op_tok c]) (S n).
Proof.
  intros Hoc H T HT b k toks size r Hb Hk Hbk Hbn Hkn Hs Hm.
  assert (MAX_NESTING = 1024) as HN by reflexivity.
  destruct T as [|[[[t0 ty0] x0] y0] T]; [discriminate|]. unfold token_view in HT; cbn in HT; injection HT as -> -> HT.
  apply map_eq_app in HT as (T1 & T2 & -> & HT1 & HT2).
  destruct T2 as [|[[[t1 ty1] x1] y1] [|]]; try discriminate. unfold token_view in HT2; cbn in HT2; injection HT2 as -> ->.
  change (op_tok o :: V ++ [op_tok c]) with ([op_tok o] ++ V ++ [op_tok c]) in *.
  rewrite !toks_size_app in *. pose proof (toks_size_nonneg V).
  assert (toks_size [op_tok o] = 1 ∧ toks_size [op_tok c] = 1) as [E1 E2] by done. rewrite E1, E2 in *.
  cbn [emit_all].
  set (b1 := if decide (o = "{"%byte) then b + 1 else b).
  set (k1 := if decide (o = "{"%byte) then k else k + 1).
  assert (0 <= b1 ∧ 0 <= k1 ∧ 0 < b1 + k1 ∧ b1 + Z.of_nat n <= MAX_NESTING ∧
          k1 + Z.of_nat n <= MAX_NESTING) as (? & ? & ? & ? & ?)
    by (subst b1 k1; case_decide; lia).
  rewrite (process_inside _ _ _ _ b k b1 k1); try lia; try done.
  - cbn [mbind res_bind length]. rewrite emit_all_app.
    rewrite (H T1) by (done || lia). cbn [mbind res_bind emit_all].
    rewrite (process_inside _ _ _ _ b1 k1 b k); try lia; try done.
    + cbn [mbind res_bind length]. unfold mk. rewrite !map_cons, map_app, <- !app_assoc. simpl.
      do 3 f_equal. lia.
    + subst b1 k1. destruct Hoc as [[-> ->]|[-> ->]]; unfold count_token; simpl;
        rewrite s32_small by lia; f_equal; lia.
    + simpl. lia.
  - subst b1 k1. destruct Hoc as [[-> ->]|[-> ->]]; unfold count_token; simpl;
      rewrite s32_small by lia; done.
  - simpl. lia.
Qed.

Lemma collected_joined ks n : Forall (λ k, collected k n) ks → collected (joined ks) n.
Proof.
  intros H. destruct H as [|k ks Hk H]; [apply collected_nil|]. cbn [joined].
  apply collected_app; [done|]. induction H as [|k' ks Hk' H IH]; simpl; [apply collected_nil|].
  apply (collected_app [op_tok ","]); [by apply collected_op|]. by apply collected_app.
Qed.

Lemma collected_entries d n :
  (∀ k v, (k, v) ∈ qdict_entries d → collected (jtoks v) n) →
  collected (joined (map (λ e, key_toks e.1 ++ jtoks e.2) (qdict_entries d))) n.
Proof.
  intros H. apply collected_joined, Forall_fmap, Forall_forall. intros [k v] Hin. simpl.
  apply (collected_app [_] (op_tok ":" :: jtoks v)); [by apply collected_plain|].
  apply (collected_app [_] (jtoks v)); [by apply collected_op | by eapply H].
Qed.

Lemma collected_elements l n :
  (∀ v, v ∈ l → collected (jtoks v) n) → collected (joined (map jtoks l)) n.
Proof. intros H. by apply collected_joined, Forall_fmap, Forall_forall. Qed.

(** A printable object is one token or a bracketed, collected sequence. *)
Inductive message_form (n : nat) : toks_t → Prop :=
| scalar_form v : v.1 ≠ TOK JSON_ERROR →
    (∀ b k toks size, count_token (mkParser b k toks size) v.2 v.1 = (b, k)) → message_form n [v]
| bracket_form o c V m : (o = "{" ∧ c = "}")%byte ∨ (o = "[" ∧ c = "]")%byte →
    collected V m → n = S m → message_form n (op_tok o :: V ++ [op_tok c]).

Lemma message_form_collected n V : message_form n V → collected V n.
Proof. intros [v Hv Hc|o c V' m Hoc H ->]; [by apply collected_plain | by apply collected_bracketed]. Qed.

Lemma obj_form obj : json_ok obj → message_form (depth obj) (jtoks obj).
Proof.
  induction obj as [z|s|d IH|l IH|x|b|] using QObject_nested_ind; intros Hok; inversion Hok; subst.
  - by apply scalar_form.
  - by apply scalar_form.
  - rewrite jtoks_dict. apply (bracket_form _ _ _ _ (pred (depth (QODict d)))); [by left| |done].
    apply collected_entries. intros k v Hin. pose proof (depth_dict d k v Hin).
    eapply collected_le; [eapply message_form_collected, IH; eauto | lia].
  - cbn [jtoks]. apply (bracket_form _ _ _ _ (pred (depth (QOList l)))); [by right| |done].
    apply collected_elements. intros v Hin. pose proof (depth_list l v Hin).
    rewrite Forall_forall in *. eapply collected_le; [eapply message_form_collected, IH; eauto | lia].
  - by apply scalar_form.
Qed.

(** From the initial counters the streamer sends the tokens of one object as
    one message, when the last of them arrives. *)
Lemma process_last t ty x y b k toks size r :
  count_token (mkParser b k toks size) t ty = (0, 0) → ty ≠ TOK JSON_ERROR →
  process t ty x y (mkParser b k toks size, r) =
  out_emit emit (Some (toks ++ [make_token t ty x y])) r.
Proof.
  intros Hc Hty. unfold json_message_process_token. rewrite Hc, decide_False by done. done.
Qed.

Lemma streamer_message obj T r :
  json_ok obj → map token_view T = jtoks obj →
  Z.of_nat (depth obj) <= MAX_NESTING → toks_size (jtoks obj) <= MAX_TOKEN_SIZE →
  emit_all process T (mkParser 0 0 qlist_new 0, r) = out_emit emit (Some (mk T)) r.
Proof.
  intros Hok HT Hd Hs. apply obj_form in Hok.
  destruct Hok as [v Hv Hc|o c V m Hoc HV Hm].
  - destruct T as [|[[[t ty] x] y] [|]]; try discriminate. injection HT as <-.
    cbn [emit_all]. rewrite process_last by done.
    by destruct (out_emit emit _ r) as [[]|].
  - change (op_tok o :: V ++ [op_tok c]) with ([op_tok o] ++ V ++ [op_tok c]) in *.
    apply map_eq_app in HT as (T0 & T1 & -> & HT0 & HT).
    apply map_eq_app in HT as (T2 & T3 & -> & HT2 & HT3).
    destruct T0 as [|[[[t0 ty0] x0] y0] [|]]; try discriminate HT0. injection HT0 as -> ->.
    destruct T3 as [|[[[t1 ty1] x1] y1] [|]]; try discriminate HT3. injection HT3 as -> ->.
    rewrite !toks_size_app in Hs. pose proof (toks_size_nonneg V).
    assert (toks_size [op_tok o] = 1 ∧ toks_size [op_tok c] = 1) as [E1 E2] by done. rewrite E1, E2 in Hs.
    assert (MAX_NESTING = 1024) as HN by reflexivity.
    set (b1 := if decide (o = "{"%byte) then 1 else 0).
    assert (0 <= b1 <= 1) as Hb1 by (subst b1; case_decide; lia).
    cbn [emit_all app]. rewrite (process_inside _ _ _ _ 0 0 b1 (1 - b1)); try lia; try done.
    + cbn [mbind res_bind length]. rewrite emit_all_app, (HV T2) by (done || lia).
      cbn [mbind res_bind emit_all]. rewrite process_last; [|by destruct Hoc as [[-> ->]|[-> ->]]|done].
      unfold mk. rewrite map_cons, map_app. cbn [map fst snd app qlist_new].
      by destruct (out_emit emit _ r) as [[]|].
    + by destruct Hoc as [[-> ->]|[-> ->]].
Qed.
End streamer_facts.

(** ** The parser *)

(** A dictionary that the parser made is a well-formed table. *)
Definition table_ok (o : QObject) : Prop := match o with QODict d => qdict_wf d | _ => True end.

(** [pv] reads the tokens of [obj] as an object with the same meaning. *)
Definition parses (pv : JSONParserContext → list QObject → res parse_result) (obj : QObject) : Prop :=
  ∀ T ctxt rest, map token_view T = jtoks obj →
  ∃ o, pv ctxt (mk T ++ rest) = Ok (ctxt, Some o, rest) ∧ denote o = denote obj ∧ table_ok o.

(** No object starts with a closing operator. *)
Lemma jtoks_head obj :
  json_ok obj → ∃ v V, jtoks obj = v :: V ∧ v ≠ op_tok "]" ∧ v ≠ op_tok "}".
Proof.
  intros H. inversion H; subst; cbn [jtoks]; eexists _, _; (split; [reflexivity|]); split;
    intros E; unfold op_tok in E; try discriminate E.
Qed.

Lemma view_token t v : token_view t = v → make_token t.1.1.1 t.1.1.2 t.1.2 t.2 = make_token v.2 v.1 t.1.2 t.2.
Proof. by intros <-. Qed.

(** Splitting the tokens of a concatenation. *)
Lemma mk_cons t T : mk (t :: T) = make_token t.1.1.1 t.1.1.2 t.1.2 t.2 :: mk T.
Proof. done. Qed.
Lemma mk_app T1 T2 : mk (T1 ++ T2) = mk T1 ++ mk T2.
Proof. apply map_app. Qed.
Lemma mk_length T : length (mk T) = length T.
Proof. apply length_map. Qed.

Lemma view_cons_inv T v V :
  map token_view T = v :: V → ∃ x y T', T = (v.2, v.1, x, y) :: T' ∧ map token_view T' = V.
Proof.
  destruct T as [|[[[t ty] x] y] T]; [discriminate|]. intros [= <- <-]. by exists x, y, T.
Qed.

(** The loops have a round of fuel for every element that follows. *)
Lemma parser_fuel T t ks c :
  map token_view (t :: T) = concat (map (λ k, op_tok "," :: k) ks) ++ [op_tok c] →
  (length ks ≤ length T)%nat.
Proof.
  intros HT. assert (length (map token_view (t :: T)) = length T + 1)%nat as HL
    by (rewrite length_map; simpl; lia).
  rewrite HT, length_app in HL.
  assert (length ks ≤ length (concat (map (λ k, op_tok "," :: k) ks)))%nat; [|simpl in HL; lia].
  clear. induction ks as [|k ks IH]; simpl; [lia|]. rewrite length_app. lia.
Qed.

Section rules_facts.
Variable pv : JSONParserContext → list QObject → res parse_result.

Lemma peek_not_close obj T c :
  json_ok obj → map token_view T = jtoks obj → (c = "]" ∨ c = "}")%byte →
  ∃ t T', mk T = t :: T' ∧ token_is_operator t c = Ok false.
Proof.
  intros Hok HT Hc. destruct (jtoks_head obj Hok) as (v & V & E & Hv1 & Hv2). rewrite E in HT.
  apply view_cons_inv in HT as (x & y & T' & -> & _). eexists _, _. split; [reflexivity|].
  cbn [fst snd]. destruct (decide (v.1 = TOK JSON_OPERATOR)) as [Hop|Hop]; [|by apply token_not_operator].
  assert (∃ o, v = op_tok o ∧ o ≠ x00) as (o & -> & Ho).
  { inversion Hok; subst; cbn [jtoks] in E; injection E as <- <-; try discriminate Hop;
      eexists; (split; [reflexivity | discriminate]). }
  unfold op_tok. cbn [fst snd]. rewrite token_operator by done.
  rewrite bool_decide_false; [done|]. intros ->. destruct Hc as [-> | ->]; done.
Qed.

(** *** Lists *)

Lemma array_loop os T t rest ctxt acc fuel :
  Forall (parses pv) os →
  map token_view (t :: T) = concat (map (λ k, op_tok "," :: k) (map jtoks os)) ++ [op_tok "]"] →
  (length os < fuel)%nat →
  ∃ l, parse_array_loop pv fuel ctxt acc (make_token t.1.1.1 t.1.1.2 t.1.2 t.2) (mk T ++ rest) =
    Ok (ctxt, Some (acc ++ l), rest) ∧ map denote l = map denote os.
Proof.
  intros H. revert T t acc fuel. induction H as [|o os Ho H IH]; intros T t acc fuel HT Hf;
    (destruct fuel as [|fuel]; [simpl in Hf; lia|]); cbn [map concat app] in HT;
    change (token_view t :: map token_view T) with (map token_view (t :: T)) in HT.
  - apply view_cons_inv in HT as (x & y & T' & [= -> ->] & HT'). apply map_eq_nil in HT' as ->.
    exists []. cbn [parse_array_loop fst snd]. unfold op_tok. rewrite token_operator by done.
    simpl. by rewrite app_nil_r.
  - apply view_cons_inv in HT as (x & y & T' & [= -> ->] & HT').
    rewrite <- app_assoc in HT'. apply map_eq_app in HT' as (T1 & T2 & -> & HT1 & HT2).
    cbn [parse_array_loop fst snd]. unfold op_tok. rewrite !token_operator by done.
    cbn [mbind res_bind]. rewrite bool_decide_false by done. rewrite bool_decide_true by done.
    rewrite mk_app, <- app_assoc.
    destruct (Ho T1 ctxt (mk T2 ++ rest) HT1) as (o' & -> & Hd & _). cbn [mbind res_bind].
    destruct T2 as [|t2 T2]; [by destruct os|]. rewrite mk_cons. cbn [app].
    destruct (IH T2 t2 (qlist_append_obj acc o') fuel HT2 ltac:(simpl in Hf; lia)) as (l & -> & Hl).
    exists (o' :: l). unfold qlist_append_obj. rewrite <- app_assoc. split; [done|].
    simpl. by rewrite Hd, Hl.
Qed.

Lemma parse_array_obj l T rest ctxt :
  Forall json_ok l → Forall (parses pv) l → map token_view T = jtoks (QOList l) →
  ∃ l', parse_array pv ctxt (mk T ++ rest) = Ok (ctxt, Some (QOList l'), rest) ∧
    map denote l' = map denote l.
Proof.
  intros Hok Hp HT. cbn [jtoks] in HT. apply view_cons_inv in HT as (x & y & T1 & -> & HT).
  rewrite mk_cons. unfold op_tok at 1 2. cbn [parse_array app fst snd].
  rewrite token_operator by done. cbn [mbind res_bind]. rewrite bool_decide_true by done.
  destruct Hp as [|o os Ho Hos]; cbn [map joined app] in HT.
  - apply view_cons_inv in HT as (x1 & y1 & T2 & -> & HT). apply map_eq_nil in HT as ->.
    rewrite mk_cons. unfold op_tok. cbn [fst snd app]. rewrite token_operator by done.
    by exists [].
  - rewrite <- app_assoc in HT. apply map_eq_app in HT as (T2 & T3 & -> & HT2 & HT3).
    apply Forall_cons in Hok as [Hok1 Hok].
    destruct (peek_not_close o T2 "]" Hok1 HT2 ltac:(by left)) as (pk & Tk & Ek & Hpk).
    assert (mk (T2 ++ T3) ++ rest = pk :: Tk ++ mk T3 ++ rest) as Ew
      by by rewrite mk_app, Ek, <- app_assoc.
    rewrite Ew, Hpk, <- Ew, mk_app, <- app_assoc. cbn [mbind res_bind].
    destruct (Ho T2 ctxt (mk T3 ++ rest) HT2) as (o' & -> & Hd & _). cbn [mbind res_bind].
    destruct T3 as [|t3 T3]; [by destruct os|]. rewrite mk_cons. cbn [app].
    destruct (array_loop os T3 t3 rest ctxt (qlist_append_obj qlist_new o')
      (S (length (mk T3 ++ rest))) Hos HT3) as (l' & -> & Hl).
    + apply parser_fuel in HT3. rewrite length_app, mk_length. rewrite length_map in HT3. lia.
    + exists (o' :: l'). simpl. by rewrite Hd, Hl.
Qed.
(** *** Dictionaries *)

Lemma parse_pair_obj k v dict T rest ctxt :
  parses pv (QOString k) → parses pv v → map token_view T = key_toks k ++ jtoks v →
  ∃ o, parse_pair pv ctxt dict (mk T ++ rest) = Ok (ctxt, Some (qdict_put_obj dict (c_str k) o), rest) ∧
    denote o = denote v.
Proof.
  intros Hk Hv HT. unfold key_toks in HT. cbn [app] in HT.
  apply view_cons_inv in HT as (x & y & T1 & -> & HT).
  apply view_cons_inv in HT as (x1 & y1 & T2 & -> & HT).
  destruct (Hk [(to_json_string k, TOK JSON_STRING, x, y)] ctxt
    (make_token [":"%byte] (TOK JSON_OPERATOR) x1 y1 :: mk T2 ++ rest) eq_refl) as (ko & Ek & Hd & _).
  destruct ko; try discriminate Hd. injection Hd as Hd.
  destruct (Hv T2 ctxt rest HT) as (o & Ev & Ho & _). exists o. split; [|done].
  rewrite mk_cons in Ek. change (mk []) with (@nil QObject) in Ek. cbn [app fst snd] in Ek. unfold op_tok.
  rewrite !mk_cons. cbn [parse_pair app fst snd]. rewrite Ek. cbn [mbind res_bind].
  rewrite token_operator by done. cbn [mbind res_bind]. rewrite bool_decide_true by done.
  rewrite Ev. cbn [mbind res_bind]. by rewrite Hd.
Qed.

(** The meaning of a list of entries. *)
Definition entries_map (es : list (bytes * QObject)) : gmap bytes jval :=
  list_to_map (map (λ e, (e.1, denote e.2)) es).

Definition entry_parses (e : bytes * QObject) : Prop :=
  no_nul e.1 ∧ parses pv (QOString e.1) ∧ parses pv e.2.

Lemma put_meaning dict k o es :
  qdict_wf dict → no_nul k → k ∉ es.*1 →
  entries_map es ∪ (denote <$> qdict_map (qdict_put_obj dict (c_str k) o)) =
  <[k := denote o]> (entries_map es) ∪ (denote <$> qdict_map dict).
Proof.
  intros Hwf Hn Hk. rewrite qdict_put_map, !(c_str_no_nul k), fmap_insert by done.
  rewrite <- insert_union_l. symmetry. apply insert_union_r. apply not_elem_of_list_to_map_1.
  intros Hin. apply Hk. clear - Hin. induction es as [|e es IH]; [done|]. set_solver.
Qed.

Lemma object_loop es T t rest ctxt dict fuel :
  Forall entry_parses es → NoDup es.*1 → qdict_wf dict →
  map token_view (t :: T) =
    concat (map (λ k, op_tok "," :: k) (map (λ e, key_toks e.1 ++ jtoks e.2) es)) ++ [op_tok "}"] →
  (length es < fuel)%nat →
  ∃ d, parse_object_loop pv fuel ctxt dict (make_token t.1.1.1 t.1.1.2 t.1.2 t.2) (mk T ++ rest) =
    Ok (ctxt, Some d, rest) ∧ denote <$> qdict_map d = entries_map es ∪ (denote <$> qdict_map dict) ∧ qdict_wf d.
Proof.
  intros H. revert T t dict fuel. induction H as [|[k v] es (Hn & Hk & Hv) H IH];
    intros T t dict fuel Hnd Hwf HT Hf;
    (destruct fuel as [|fuel]; [simpl in Hf; lia|]); cbn [map concat app] in HT;
    change (token_view t :: map token_view T) with (map token_view (t :: T)) in HT.
  - apply view_cons_inv in HT as (x & y & T' & [= -> ->] & HT'). apply map_eq_nil in HT' as ->.
    exists dict. cbn [parse_object_loop fst snd]. unfold op_tok. rewrite token_operator by done.
    split; [done|]. split; [|done]. unfold entries_map. simpl. by rewrite (left_id_L ∅ (∪)).
  - apply view_cons_inv in HT as (x & y & T' & [= -> ->] & HT').
    rewrite <- app_assoc in HT'. apply map_eq_app in HT' as (T1 & T2 & -> & HT1 & HT2).
    apply NoDup_cons in Hnd as [Hnin Hnd]. cbn [fst snd] in *.
    cbn [parse_object_loop fst snd]. unfold op_tok. rewrite !token_operator by done.
    cbn [mbind res_bind]. rewrite bool_decide_false by done. rewrite bool_decide_true by done.
    rewrite mk_app, <- app_assoc.
    destruct (parse_pair_obj k v dict T1 (mk T2 ++ rest) ctxt Hk Hv HT1) as (o' & -> & Hd).
    cbn [mbind res_bind].
    destruct T2 as [|t2 T2]; [by destruct es|]. rewrite mk_cons. cbn [app].
    destruct (IH T2 t2 (qdict_put_obj dict (c_str k) o') fuel Hnd (qdict_put_wf _ _ _ Hwf) HT2
      ltac:(simpl in Hf; lia)) as (d & -> & Hdd & Hw).
    exists d. split; [done|]. split; [|done]. rewrite Hdd, put_meaning, Hd by done. done.
Qed.

Lemma parse_object_obj d T rest ctxt :
  qdict_wf d → Forall entry_parses (qdict_entries d) → map token_view T = jtoks (QODict d) →
  ∃ o, parse_object pv ctxt (mk T ++ rest) = Ok (ctxt, Some o, rest) ∧ denote o = denote (QODict d) ∧ table_ok o.
Proof.
  intros Hwf Hp HT. rewrite jtoks_dict in HT.
  assert (denote <$> qdict_map d = entries_map (qdict_entries d)) as Hm.
  { unfold qdict_map, entries_map. rewrite <- list_to_map_fmap. f_equal. }
  pose proof (qdict_entries_nodup d Hwf) as Hnd.
  apply view_cons_inv in HT as (x & y & T1 & -> & HT).
  rewrite mk_cons. unfold op_tok at 1 2. cbn [parse_object app fst snd].
  rewrite token_operator by done. cbn [mbind res_bind]. rewrite bool_decide_true by done.
  rewrite denote_dict, Hm. clear Hm.
  destruct Hp as [|[k v] es (Hn & Hk & Hv) Hes]; cbn [map joined app] in HT.
  - apply view_cons_inv in HT as (x1 & y1 & T2 & -> & HT). apply map_eq_nil in HT as ->.
    rewrite mk_cons. unfold op_tok. cbn [fst snd app]. rewrite token_operator by done.
    exists (QODict qdict_new). split; [done|]. split; [by rewrite denote_dict, qdict_new_map|apply qdict_new_wf].
  - rewrite <- app_assoc in HT. apply map_eq_app in HT as (T2 & T3 & -> & HT2 & HT3).
    apply NoDup_cons in Hnd as [Hnin Hnd]. cbn [fst snd] in *.
    destruct (parse_pair_obj k v qdict_new T2 (mk T3 ++ rest) ctxt Hk Hv HT2) as (o' & Epp & Hd).
    assert (∃ pk Tk, mk (T2 ++ T3) ++ rest = pk :: Tk ∧ token_is_operator pk "}" = Ok false)
      as (pk & Tk & Ew & Hpk).
    { unfold key_toks in HT2. cbn [app] in HT2. apply view_cons_inv in HT2 as (x1 & y1 & T4 & -> & _).
      eexists _, _. split; [reflexivity|]. by apply token_not_operator. }
    rewrite Ew, Hpk, <- Ew, mk_app, <- app_assoc, Epp. cbn [mbind res_bind].
    destruct T3 as [|t3 T3]; [by destruct es|]. rewrite mk_cons. cbn [app].
    destruct (object_loop es T3 t3 rest ctxt (qdict_put_obj qdict_new (c_str k) o')
      (S (length (mk T3 ++ rest))) Hes Hnd (qdict_put_wf _ _ _ qdict_new_wf) HT3) as (d' & -> & Hdd & Hw).
    + apply parser_fuel in HT3. rewrite length_app, mk_length. rewrite length_map in HT3. lia.
    + exists (QODict d'). split; [done|]. split; [|done]. rewrite denote_dict, Hdd, put_meaning by (done || apply qdict_new_wf).
      rewrite qdict_new_map, fmap_empty, (right_id_L ∅ (∪)), Hd. done.
Qed.
End rules_facts.

(** *** Scalars and values *)

Lemma to_json_string_no_nul s : bmp_utf8 (c_str s) = true → no_nul (to_json_string s).
Proof.
  intros H%bmp_chunks%chunks_no_nul. unfold to_json_string, no_nul in *.
  rewrite !elem_of_app, !list_elem_of_singleton. intros [E|[E|E]]; [discriminate E | by apply H | discriminate E].
Qed.

Lemma token_not_escape t ty x y v :
  ty ≠ TOK JSON_ESCAPE → token_is_escape (make_token t ty x y) v = Ok false.
Proof.
  intros H. unfold token_is_escape. rewrite token_type. cbn [mbind res_bind].
  destruct (Z.eqb_spec (entry_code ty) (token_code JSON_ESCAPE)) as [E|]; [|done].
  exfalso. destruct ty as [[]|[]]; (discriminate E || congruence).
Qed.

Lemma escape_skip t ty x y rest ctxt :
  ty ≠ TOK JSON_ESCAPE →
  parse_escape ctxt (make_token t ty x y :: rest) = Ok (ctxt, None, make_token t ty x y :: rest).
Proof.
  intros H. unfold parse_escape. destruct (ap ctxt) as [args|]; [|done].
  unfold take_arg. by rewrite !token_not_escape by done.
Qed.

Lemma object_skip pv t ty x y rest ctxt :
  token_is_operator (make_token t ty x y) "{" = Ok false →
  parse_object pv ctxt (make_token t ty x y :: rest) = Ok (ctxt, None, make_token t ty x y :: rest).
Proof. intros H. unfold parse_object. by rewrite H. Qed.

Lemma array_skip pv t ty x y rest ctxt :
  token_is_operator (make_token t ty x y) "[" = Ok false →
  parse_array pv ctxt (make_token t ty x y :: rest) = Ok (ctxt, None, make_token t ty x y :: rest).
Proof. intros H. unfold parse_array. by rewrite H. Qed.

(** A token that is no operator and no escape is left to the last two rules. *)
Lemma parse_scalar fuel t ty x y rest ctxt :
  ty ≠ TOK JSON_OPERATOR → ty ≠ TOK JSON_ESCAPE →
  parse_value (S fuel) ctxt (make_token t ty x y :: rest) =
  or_else (parse_keyword ctxt (make_token t ty x y :: rest)) parse_literal.
Proof.
  intros Ho He. cbn [parse_value]. rewrite object_skip by by apply token_not_operator.
  cbn [or_else mbind res_bind]. rewrite array_skip by by apply token_not_operator.
  cbn [or_else mbind res_bind]. by rewrite escape_skip.
Qed.

Lemma parse_string fuel s : bmp_utf8 (c_str s) = true → parses (parse_value (S fuel)) (QOString s).
Proof.
  intros Hs T ctxt rest HT. cbn [jtoks] in HT.
  apply view_cons_inv in HT as (x & y & T1 & -> & HT). apply map_eq_nil in HT as ->.
  exists (QOString (c_str s)). split; [|by split; [simpl; rewrite (c_str_no_nul _ (c_str_has_no_nul s))|]].
  rewrite mk_cons. change (mk []) with (@nil QObject). cbn [fst snd app].
  rewrite parse_scalar by done. unfold parse_keyword. rewrite token_type. cbn [mbind res_bind].
  change (entry_code (TOK JSON_STRING) =? token_code JSON_KEYWORD) with false. cbn [or_else mbind res_bind].
  unfold parse_literal. rewrite token_type. cbn [mbind res_bind]. rewrite Z.eqb_refl.
  unfold qstring_from_escaped_str. rewrite token_value. cbn [mbind res_bind].
  rewrite c_str_no_nul by by apply to_json_string_no_nul.
  unfold to_json_string at 1. cbn [app].
  rewrite (bool_decide_true (dq = x22)) by done.
  rewrite (unescape_chunks _ (c_str s)); [done | by apply bmp_chunks | rewrite length_app; simpl; lia].
Qed.

Lemma parse_int fuel z : is_s64 z → parses (parse_value (S fuel)) (QOInt z).
Proof.
  intros Hz T ctxt rest HT. cbn [jtoks] in HT.
  apply view_cons_inv in HT as (x & y & T1 & -> & HT). apply map_eq_nil in HT as ->.
  exists (QOInt z). split; [|done].
  rewrite mk_cons. change (mk []) with (@nil QObject). cbn [fst snd app].
  rewrite parse_scalar by done. unfold parse_keyword. rewrite token_type. cbn [mbind res_bind].
  change (entry_code (TOK JSON_INTEGER) =? token_code JSON_KEYWORD) with false. cbn [or_else mbind res_bind].
  unfold parse_literal. rewrite token_type. cbn [mbind res_bind].
  change (entry_code (TOK JSON_INTEGER) =? token_code JSON_STRING) with false.
  rewrite Z.eqb_refl, token_value. cbn [mbind res_bind].
  rewrite c_str_no_nul by apply print_lld_no_nul. rewrite strtoll_print_lld by done.
  unfold qint_from_int. by rewrite s64_small.
Qed.

Lemma parse_bool fuel b : parses (parse_value (S fuel)) (QOBool b).
Proof.
  intros T ctxt rest HT. cbn [jtoks] in HT.
  apply view_cons_inv in HT as (x & y & T1 & -> & HT). apply map_eq_nil in HT as ->.
  rewrite mk_cons. change (mk []) with (@nil QObject). cbn [fst snd app].
  rewrite parse_scalar by done. unfold parse_keyword, token_is_keyword.
  rewrite token_type, token_value. cbn [mbind res_bind]. rewrite Z.eqb_refl.
  destruct (Z.eqb_spec b 0) as [-> | Hb].
  - exists (QOBool 0). done.
  - exists (QOBool 1). split; [done|]. split; [|done]. simpl. f_equal. destruct (Z.eqb_spec b 0); done.
Qed.

(** The parser gives back every printable object. *)
Lemma parse_obj obj : json_ok obj → ∀ fuel, (depth obj < fuel)%nat → parses (parse_value fuel) obj.
Proof.
  induction obj as [z|s|d IH|l IH|x|b|] using QObject_nested_ind; intros Hok fuel Hf; inversion Hok; subst;
    (destruct fuel as [|fuel]; [lia|]).
  - by apply parse_int.
  - by apply parse_string.
  - intros T ctxt rest HT.
    destruct (parse_object_obj (parse_value fuel) d T rest ctxt) as (o & Ho & Hd); [done| |done|].
    + apply Forall_forall. intros [k v] Hin. unfold entry_parses. cbn [fst snd].
      pose proof (depth_dict d k v Hin). pose proof (qdict_entries_no_nul d k v ltac:(done) Hin) as Hn.
      split_and!; [done| |by eapply IH; eauto; lia].
      destruct fuel as [|fuel]; [lia|]. apply parse_string. rewrite c_str_no_nul by done. eauto.
    + exists o. split; [|done]. cbn [parse_value]. by rewrite Ho.
  - intros T ctxt rest HT. rewrite Forall_forall in IH.
    destruct (parse_array_obj (parse_value fuel) l T rest ctxt) as (o & Ho & Hd); [done| |done|].
    + apply Forall_forall. intros v Hin. pose proof (depth_list l v Hin).
      rewrite Forall_forall in *. apply IH; [done | eauto | lia].
    + exists (QOList o). split; [|by split; [simpl; rewrite Hd|]]. cbn [parse_value].
      cbn [jtoks] in HT. apply view_cons_inv in HT as (x & y & T1 & -> & HT).
      rewrite mk_cons in Ho |- *. unfold op_tok in Ho |- *. cbn [fst snd app] in Ho |- *.
      rewrite object_skip by by rewrite token_operator. cbn [or_else mbind res_bind]. by rewrite Ho.
  - by apply parse_bool.
Qed.

(** ** The whole path *)

(** Flushing the lexer emits the pending token. *)
Lemma flush_boundary st tok pend x y :
  boundary st tok pend →
  ∃ T lexer, map token_view T = pend ∧
    ∀ P (emit : bytes → table_entry → Z → Z → P → res P) p,
      json_lexer_flush emit (mkLexer st tok x y) p = (p ← emit_all emit T p; Ok (lexer, p)).
Proof.
  intros Hb. unfold json_lexer_flush. cbn [lx_state].
  assert (∀ t, json_lexer st x00 = TOK t → t ≠ JSON_ERROR → st ≠ IN_START → ended tok t = pend →
    ∃ T lexer, map token_view T = pend ∧
    ∀ P (emit : bytes → table_entry → Z → Z → P → res P) p,
      (if decide (st = IN_START) then Ok (mkLexer st tok x y, p)
       else json_lexer_feed_char emit (mkLexer st tok x y) x00 true p) =
      (p ← emit_all emit T p; Ok (lexer, p))) as H.
  { intros t Ht He Hst <-.
    exists (if decide (t = JSON_SKIP) then [] else [(tok, TOK t, s32 (x + 1), y)]),
      (mkLexer IN_START [] (s32 (x + 1)) y).
    split; [unfold ended; by case_decide|]. intros P emit p. rewrite decide_False by done.
    rewrite feed_char_loop, (loop_lookahead _ _ _ _ _ _ _ _ t) by done. unfold advance.
    rewrite (decide_False (P := x00 = x0a)) by done. cbn [fst snd].
    destruct (decide (t = JSON_SKIP)); simpl; [done|]. by destruct (emit _ _ _ _ p). }
  destruct Hb; [|by eapply H..].
  exists [], (mkLexer IN_START [] x y). done.
Qed.

(** The lexer, fed a text and flushed, emits the tokens of the text. *)
Lemma lexer_message txt V :
  valued txt V → Z.of_nat (length txt) <= MAX_TOKEN_SIZE →
  toks_size V <= Z.of_nat (length txt) ∧
  ∃ T, map token_view T = V ∧
    ∀ P (emit : bytes → table_entry → Z → Z → P → res P) p,
      ('(lexer, p) ← json_lexer_feed emit json_lexer_init txt p;
       '(_, p) ← json_lexer_flush emit lexer p; Ok p) = emit_all emit T p.
Proof.
  intros Hv Hm. destruct (Hv _ _ B_start) as (st & tok & E & pend & [Hl Hr] & Hb & <-).
  destruct (Hr Hm 0 0) as (x & y & T1 & H1 & <-).
  destruct (flush_boundary st tok pend x y Hb) as (T2 & lexer & <- & H2).
  assert (toks_length (map token_view T2) ≤ length tok)%nat as Hp.
  { clear - Hb. destruct Hb; unfold toks_length; simpl; rewrite ?app_nil_r; lia. }
  split; [unfold toks_size; rewrite toks_length_app; simpl in Hl; lia|].
  exists (T1 ++ T2). split; [apply map_app|]. intros P emit p. unfold json_lexer_init.
  rewrite H1, emit_all_app. destruct (emit_all emit T1 p) as [p1|]; simpl; [|done].
  rewrite H2. by destruct (emit_all emit T2 p1) as [|].
Qed.

Ltac concrete_no_nul :=
  lazymatch goal with
  | |- no_nul ?l => refine (bool_decide_unpack (x00 ∉ l) _)
  | |- _ ∈ ?l → False => refine (bool_decide_unpack (x00 ∉ l) _)
  end; vm_compute; exact I.

Lemma body_no_nul pre n ts : no_nul pre → Forall no_nul ts → no_nul (body pre n ts).
Proof.
  unfold no_nul. intros Hp H. revert n. induction H as [|t ts Ht H IH]; intros n; simpl; [set_solver|].
  rewrite !elem_of_app. intros [Hin|[Hin|[Hin|Hin]]]; [|by apply Hp|by apply Ht|by eapply IH].
  destruct (Nat.eqb n 0); [set_solver|]. revert Hin. concrete_no_nul.
Qed.

(** The printed text is a C string. *)
Lemma to_json_no_nul obj : json_ok obj → ∀ pretty indent, no_nul (to_json obj [] pretty indent).
Proof.
  assert (∀ pretty indent, no_nul (pre_of pretty indent)) as Hpre.
  { intros pretty indent Hin. pose proof (pre_of_blanks pretty indent) as H. unfold blanks in H.
    rewrite Forall_forall in H. by specialize (H _ Hin). }
  assert (∀ o b p c, is_op o = true → is_op c = true → no_nul b → no_nul p →
    no_nul ([o] ++ b ++ p ++ [c])) as Hbr.
  { unfold no_nul. intros o b p c Ho Hc Hb Hp. rewrite !elem_of_app, !list_elem_of_singleton.
    intros [<-|[?|[?|<-]]]; [discriminate Ho | by apply Hb | by apply Hp | discriminate Hc]. }
  induction obj as [z|s|d IH|l IH|x|b|] using QObject_nested_ind; intros Hok pretty indent; inversion Hok; subst.
  - cbn [to_json app]. unfold snprintf. rewrite take_ge; [apply print_lld_no_nul|].
    pose proof (print_lld_length z). lia.
  - by apply to_json_string_no_nul.
  - rewrite to_json_dict. apply Hbr; [done..| |apply Hpre]. apply body_no_nul; [apply Hpre|].
    apply Forall_fmap, Forall_forall. intros [k v] Hin. simpl. unfold pair_text, no_nul.
    rewrite !elem_of_app. intros [Hk|[Hk|Hk]].
    + revert Hk. apply to_json_string_no_nul. rewrite c_str_no_nul by by eapply qdict_entries_no_nul. eauto.
    + revert Hk. concrete_no_nul.
    + revert Hk. eapply IH; eauto.
  - rewrite to_json_list. apply Hbr; [done..| |apply Hpre]. apply body_no_nul; [apply Hpre|].
    rewrite Forall_forall in IH. apply Forall_fmap, Forall_forall. intros v Hin. simpl.
    rewrite Forall_forall in *. eauto.
  - cbn [to_json app]. destruct (b =? 0); concrete_no_nul.
Qed.

(** Every level of nesting has its bracket, so the number of tokens is enough fuel. *)
Lemma joined_length k ks : k ∈ ks → (length k ≤ length (joined ks))%nat.
Proof.
  destruct ks as [|k0 ks]; [set_solver|]. cbn [joined]. rewrite length_app, elem_of_cons.
  intros [-> | Hin]; [lia|]. induction ks as [|k1 ks IH]; [set_solver|]. simpl. rewrite length_app.
  apply elem_of_cons in Hin as [-> | Hin]; [lia|]. specialize (IH Hin). lia.
Qed.

Lemma depth_length obj : (depth obj ≤ length (jtoks obj))%nat.
Proof.
  induction obj as [z|s|d IH|l IH|x|b|] using QObject_nested_ind; try (simpl; lia).
  - rewrite jtoks_dict. cbn [depth]. rewrite <- concat_map. fold (qdict_entries d). cbn [length]. rewrite length_app.
    apply le_n_S. etransitivity; [|apply Nat.le_add_r]. apply list_max_le, Forall_fmap, Forall_forall.
    intros [k v] Hin. simpl. specialize (IH k v Hin).
    pose proof (joined_length (key_toks k ++ jtoks v) (map (λ e, key_toks e.1 ++ jtoks e.2) (qdict_entries d))) as H.
    rewrite length_app in H. etransitivity; [|apply H]; [lia|]. by apply (list_elem_of_fmap_2 (λ e, key_toks e.1 ++ jtoks e.2) _ (k, v)).
  - cbn [depth jtoks length]. rewrite length_app.
    apply le_n_S. etransitivity; [|apply Nat.le_add_r]. apply list_max_le, Forall_fmap, Forall_forall.
    intros v Hin. simpl. rewrite Forall_forall in IH. etransitivity; [by apply IH|].
    by apply joined_length, list_elem_of_fmap_2.
Qed.

(** The path from text to object, with the table of the result. *)
Lemma reads_back (obj : QObject) (pretty : bool) :
  json_ok obj → Z.of_nat (depth obj) <= MAX_NESTING →
  Z.of_nat (length (to_json obj [] pretty 0)) <= MAX_TOKEN_SIZE →
  ∃ obj', qobject_from_json (to_json obj [] pretty 0) = Ok (Some obj') ∧ qobject_equiv obj' obj ∧ table_ok obj'.
Proof.
  intros Hok Hd Hl. destruct (lexer_message _ _ (lexes_text obj Hok pretty 0) Hl) as (Hs & T & HT & H).
  specialize (H _ (json_message_process_token parse_json)
    (mkParser 0 0 qlist_new 0, mkParsing None None)).
  rewrite (streamer_message _ obj) in H by (done || lia).
  assert (depth obj < S (length (mk T)))%nat as Hf.
  { pose proof (depth_length obj). rewrite <- HT, length_map in *. rewrite mk_length. lia. }
  destruct (parse_obj obj Hok _ Hf T (mkCtxt None None) [] HT) as (o & Ho & Hdo). rewrite app_nil_r in Ho.
  assert (out_emit parse_json (Some (mk T)) (mkParsing None None) =
          Ok (mkParser 0 0 qlist_new 0, mkParsing None (Some o))) as He.
  { unfold out_emit, parse_json, json_parser_parse, json_parser_parse_err.
    rewrite qlist_copy_id. cbn [ps_ap]. by rewrite Ho. }
  rewrite He in H. clear He Ho.
  exists o. split; [|done]. unfold qobject_from_json, qobject_from_jsonv.
  rewrite c_str_no_nul by by apply to_json_no_nul.
  unfold json_message_parser_init, json_message_parser_feed, json_message_parser_flush.
  cbv beta iota.
  destruct (json_lexer_feed _ _ _ _) as [[l1 p1]|]; [|discriminate H]. cbn [mbind res_bind] in H |- *.
  destruct (json_lexer_flush _ _ _) as [[l2 p2]|]; [|discriminate H]. cbn [mbind res_bind] in H |- *.
  by injection H as ->.
Qed.

(** [C17]: reading back what [qobject_to_json] or [qobject_to_json_pretty] prints
    gives an object with the same value (only the layout of the hash tables may
    differ): for every object built of 64-bit integers, booleans, strings of
    well-formed one- to three-byte UTF-8, lists and dictionaries, nested at most
    1024 deep, whose text is at most 64 MB long. *)
Theorem json_round_trip (obj : QObject) (pretty : bool) :
  json_ok obj → Z.of_nat (depth obj) <= MAX_NESTING →
  Z.of_nat (length (to_json obj [] pretty 0)) <= MAX_TOKEN_SIZE →
  ∃ obj', qobject_from_json (to_json obj [] pretty 0) = Ok (Some obj') ∧ qobject_equiv obj' obj.
Proof. intros Hok Hd Hl. destruct (reads_back obj pretty Hok Hd Hl) as (o & Ho & He & _). by exists o. Qed.

Lemma sample_ok : json_ok sample.
Proof.
  apply ok_list. repeat apply List.Forall_cons; [..|apply List.Forall_nil].
  - apply ok_int. split; vm_compute; discriminate || reflexivity.
  - apply ok_string. reflexivity.
  - apply ok_bool.
  - match goal with |- json_ok (QODict ?d) =>
      assert (qdict_entries d = [([], QOList []); (bs "k", QOInt 0)]) as He by (vm_compute; reflexivity)
    end.
    apply ok_dict; [by apply qdict_put_wf, qdict_put_wf, qdict_new_wf|..]; rewrite He; intros k v Hin;
      rewrite !elem_of_cons, elem_of_nil in Hin; destruct Hin as [[= -> ->]|[[= -> ->]|[]]]; try reflexivity.
    + apply ok_list, List.Forall_nil.
    + apply ok_int. split; vm_compute; discriminate || reflexivity.
Qed.

Lemma json_round_trip_witness :
  ∃ obj', qobject_from_json (qobject_to_json_pretty sample) = Ok (Some obj') ∧ qobject_equiv obj' sample.
Proof.
  apply (json_round_trip sample true).
  - exact sample_ok.
  - vm_compute. discriminate.
  - vm_compute. discriminate.
Defined.
