(* ===== verification/JsonSafety.v ===== *)
(** * JsonSafety: reading any text returns

    [qobject_from_json] is fed with configuration files and monitor commands it
    cannot trust.  Whatever the bytes are, the lexer, the streamer and the parser
    return: no assertion fails, no token is dereferenced that is not there, and
    the recursion of the parser is bounded by the number of tokens. *)

From S2P Require Import Prelude LibC QDict QObject JsonLexer JsonLexerFacts JsonStreamer JsonParser.
From S2P Require Import QJson JsonText JsonRoundTrip.
Local Open Scope Z_scope.

(** ** Tokens *)

(** What the parser relies on: a string token has its opening quote. *)
Definition text_ok (t : bytes) (ty : table_entry) : Prop := ty = TOK JSON_STRING → c_str t ≠ [].

Definition tok_ok (obj : QObject) : Prop :=
  ∃ t ty x y, obj = make_token t ty x y ∧ text_ok t ty.

Lemma is_operator_ok obj op : tok_ok obj → ∃ b, token_is_operator obj op = Ok b.
Proof.
  intros (t & ty & x & y & -> & _). unfold token_is_operator. rewrite token_type, token_value.
  cbn [mbind res_bind]. destruct (_ =? _); eauto.
Qed.

Lemma is_keyword_ok obj v : tok_ok obj → ∃ b, token_is_keyword obj v = Ok b.
Proof.
  intros (t & ty & x & y & -> & _). unfold token_is_keyword. rewrite token_type, token_value.
  cbn [mbind res_bind]. destruct (_ =? _); eauto.
Qed.

(** ** The parser *)

Section parser_safety.
(** The function returned, consumed tokens only from the front, and took
    nothing from a [va_list] that is not there. *)
Definition returned {A} (toks : list QObject) (r : res (JSONParserContext * A * list QObject)) : Prop :=
  ∃ c o rest, r = Ok (c, o, rest) ∧ ap c = None ∧ rest `suffix_of` toks.

Lemma returned_ok {A} toks c (o : A) rest :
  ap c = None → rest `suffix_of` toks → returned toks (Ok (c, o, rest)).
Proof. intros H1 H2. by exists c, o, rest. Qed.

Lemma returned_suffix {A} toks toks' (r : res (JSONParserContext * A * list QObject)) :
  returned toks' r → toks' `suffix_of` toks → returned toks r.
Proof. intros (c & o & rest & -> & Hc & Hr) H. exists c, o, rest. split_and!; [done..|by etransitivity]. Qed.

Lemma returned_bind {A B} toks toks' (r : res (JSONParserContext * A * list QObject))
  (f : JSONParserContext * A * list QObject → res (JSONParserContext * B * list QObject)) :
  returned toks' r →
  (∀ c o rest, ap c = None → rest `suffix_of` toks' → returned toks (f (c, o, rest))) →
  returned toks (r ≫= f).
Proof. intros (c & o & rest & -> & Hc & Hr) H. simpl. by apply H. Qed.

Lemma suffix_Forall (P : QObject → Prop) l1 l2 : l1 `suffix_of` l2 → Forall P l2 → Forall P l1.
Proof. intros [k ->] H. by apply Forall_app in H as [_ ?]. Qed.

Lemma suffix_tail (x : QObject) l1 l2 : x :: l1 `suffix_of` l2 → l1 `suffix_of` l2.
Proof. intros [k ->]. exists (k ++ [x]). by rewrite <- app_assoc. Qed.

(** The recursive call on a shorter list of tokens is safe. *)
Variable pv : JSONParserContext → list QObject → res parse_result.
Variable bound : nat.
Hypothesis pv_ok : ∀ ctxt toks,
  ap ctxt = None → Forall tok_ok toks → (length toks < bound)%nat → returned toks (pv ctxt toks).

Lemma operator_bind {A} obj op toks
  (f : bool → res (JSONParserContext * A * list QObject)) :
  tok_ok obj → (∀ b, returned toks (f b)) → returned toks (token_is_operator obj op ≫= f).
Proof. intros Ho Hf. destruct (is_operator_ok obj op Ho) as [b ->]. apply Hf. Qed.

Lemma parse_pair_safe ctxt dict toks :
  ap ctxt = None → Forall tok_ok toks → (length toks < bound)%nat →
  returned toks (parse_pair pv ctxt dict toks).
Proof.
  intros Hc Ht Hl. unfold parse_pair. destruct toks as [|t0 toks0] eqn:E; [by apply returned_ok|].
  rewrite <- E in *. clear E. eapply returned_bind; [by apply pv_ok|]. intros c1 key w1 Hc1 Hw1.
  destruct key as [[| k | | | | |]|]; try by apply returned_ok.
  destruct w1 as [|tok w2]; [by apply returned_ok|].
  pose proof (suffix_Forall _ _ _ Hw1 Ht) as [Htok Ht2]%Forall_cons.
  pose proof (suffix_length _ _ Hw1) as Hlen. simpl in Hlen.
  apply operator_bind; [done|]. intros []; [|by apply returned_ok].
  eapply returned_bind; [apply pv_ok; [done..|lia]|]. intros c2 [v|] w3 Hc2 Hw3; apply returned_ok; try done.
  etransitivity; [exact Hw3 | by eapply suffix_tail].
Qed.

Lemma parse_object_loop_safe fuel ctxt dict token working :
  ap ctxt = None → tok_ok token → Forall tok_ok working → (length working < bound)%nat →
  (length working < fuel)%nat → returned working (parse_object_loop pv fuel ctxt dict token working).
Proof.
  revert ctxt dict token working. induction fuel as [|fuel IH]; intros ctxt dict token working Hc Ht Hw Hb Hf;
    [lia|]. cbn [parse_object_loop].
  apply operator_bind; [done|]. intros []; [by apply returned_ok|].
  apply operator_bind; [done|]. intros []; [|by apply returned_ok].
  eapply returned_bind; [by apply parse_pair_safe|]. intros c1 [d|] w1 Hc1 Hw1; [|by apply returned_ok].
  destruct w1 as [|tok w2]; [by apply returned_ok|].
  pose proof (suffix_Forall _ _ _ Hw1 Hw) as [Htok Hw2]%Forall_cons.
  pose proof (suffix_length _ _ Hw1) as Hlen. simpl in Hlen.
  eapply returned_suffix; [apply IH; (done || lia) | by eapply suffix_tail].
Qed.

Lemma parse_array_loop_safe fuel ctxt l token working :
  ap ctxt = None → tok_ok token → Forall tok_ok working → (length working < bound)%nat →
  (length working < fuel)%nat → returned working (parse_array_loop pv fuel ctxt l token working).
Proof.
  revert ctxt l token working. induction fuel as [|fuel IH]; intros ctxt l token working Hc Ht Hw Hb Hf;
    [lia|]. cbn [parse_array_loop].
  apply operator_bind; [done|]. intros []; [by apply returned_ok|].
  apply operator_bind; [done|]. intros []; [|by apply returned_ok].
  eapply returned_bind; [by apply pv_ok|]. intros c1 [v|] w1 Hc1 Hw1; [|by apply returned_ok].
  destruct w1 as [|tok w2]; [by apply returned_ok|].
  pose proof (suffix_Forall _ _ _ Hw1 Hw) as [Htok Hw2]%Forall_cons.
  pose proof (suffix_length _ _ Hw1) as Hlen. simpl in Hlen.
  eapply returned_suffix; [apply IH; (done || lia) | by eapply suffix_tail].
Qed.

Lemma parse_object_safe ctxt toks :
  ap ctxt = None → Forall tok_ok toks → (length toks ≤ bound)%nat →
  returned toks (parse_object pv ctxt toks).
Proof.
  intros Hc Ht Hl. unfold parse_object. destruct toks as [|token [|peek rest]]; [by apply returned_ok|..];
    apply Forall_cons in Ht as [Htk Ht]; simpl in Hl.
  { apply operator_bind; [done|]. intros []; by apply returned_ok. }
  assert (peek :: rest `suffix_of` token :: peek :: rest) as Hs by by exists [token].
  apply operator_bind; [done|]. intros []; [|by apply returned_ok].
  apply operator_bind; [by apply Forall_cons in Ht as [? _]|].
  intros []; [apply returned_ok; [done | by eapply suffix_tail]|].
  eapply returned_bind; [apply parse_pair_safe; (done || simpl; lia)|].
  intros c1 [d|] w1 Hc1 Hw1; [|by apply returned_ok].
  destruct w1 as [|tok w2]; [by apply returned_ok|].
  pose proof (suffix_Forall _ _ _ Hw1 Ht) as [Htok Hw2]%Forall_cons.
  pose proof (suffix_length _ _ Hw1) as Hlen. simpl in Hlen.
  eapply returned_bind; [apply parse_object_loop_safe; (done || lia)|].
  intros c2 [d2|] w3 Hc2 Hw3; apply returned_ok; try done.
  etransitivity; [exact Hw3|]. etransitivity; [by eapply suffix_tail | exact Hs].
Qed.

Lemma parse_array_safe ctxt toks :
  ap ctxt = None → Forall tok_ok toks → (length toks ≤ bound)%nat →
  returned toks (parse_array pv ctxt toks).
Proof.
  intros Hc Ht Hl. unfold parse_array. destruct toks as [|token [|peek rest]]; [by apply returned_ok|..];
    apply Forall_cons in Ht as [Htk Ht]; simpl in Hl.
  { apply operator_bind; [done|]. intros []; by apply returned_ok. }
  assert (peek :: rest `suffix_of` token :: peek :: rest) as Hs by by exists [token].
  apply operator_bind; [done|]. intros []; [|by apply returned_ok].
  apply operator_bind; [by apply Forall_cons in Ht as [? _]|].
  intros []; [apply returned_ok; [done | by eapply suffix_tail]|].
  eapply returned_bind; [apply pv_ok; (done || simpl; lia)|].
  intros c1 [d|] w1 Hc1 Hw1; [|by apply returned_ok].
  destruct w1 as [|tok w2]; [by apply returned_ok|].
  pose proof (suffix_Forall _ _ _ Hw1 Ht) as [Htok Hw2]%Forall_cons.
  pose proof (suffix_length _ _ Hw1) as Hlen. simpl in Hlen.
  eapply returned_bind; [apply parse_array_loop_safe; (done || lia)|].
  intros c2 [d2|] w3 Hc2 Hw3; apply returned_ok; try done.
  etransitivity; [exact Hw3|]. etransitivity; [by eapply suffix_tail | exact Hs].
Qed.
End parser_safety.

Lemma parse_keyword_safe ctxt toks :
  ap ctxt = None → Forall tok_ok toks → returned toks (parse_keyword ctxt toks).
Proof.
  intros Hc Ht. unfold parse_keyword. destruct toks as [|token working]; [by apply returned_ok|].
  apply Forall_cons in Ht as [Htk Ht]. assert (working `suffix_of` token :: working) as Hs by by exists [token].
  destruct (is_keyword_ok token (bs "true") Htk) as [b1 ->].
  destruct (is_keyword_ok token (bs "false") Htk) as [b2 ->].
  destruct Htk as (t & ty & x & y & -> & _). rewrite token_type, token_value. cbn [mbind res_bind].
  destruct (_ =? _), b1, b2; by apply returned_ok.
Qed.

Lemma parse_literal_safe ctxt toks :
  ap ctxt = None → Forall tok_ok toks → returned toks (parse_literal ctxt toks).
Proof.
  intros Hc Ht. unfold parse_literal. destruct toks as [|token working]; [by apply returned_ok|].
  apply Forall_cons in Ht as [(t & ty & x & y & -> & Htx) Ht].
  set (tok := make_token t ty x y).
  assert (working `suffix_of` tok :: working) as Hs by by exists [tok].
  subst tok. unfold qstring_from_escaped_str. rewrite token_type, token_value. cbn [mbind res_bind].
  destruct (Z.eqb_spec (entry_code ty) (token_code JSON_STRING)) as [E|].
  - assert (ty = TOK JSON_STRING) as Hty by (destruct ty as [[]|[]]; (discriminate E || done)).
    specialize (Htx Hty). destruct (c_str t) as [|q s]; [done|]. cbn [mbind res_bind].
    destruct (unescape _ _ _ _); by apply returned_ok.
  - destruct (_ =? _); [by apply returned_ok|]. destruct (_ =? _); by apply returned_ok.
Qed.

Lemma or_else_safe toks r next :
  returned toks r → Forall tok_ok toks →
  (∀ c rest, ap c = None → Forall tok_ok rest → (length rest ≤ length toks)%nat → returned rest (next c rest)) →
  returned toks (or_else r next).
Proof.
  intros Hr Ht Hn. unfold or_else. eapply returned_bind; [exact Hr|].
  intros c [o|] rest Hc Hs; [by apply returned_ok|].
  eapply returned_suffix; [|exact Hs]. apply Hn; [done | by eapply suffix_Forall | by apply suffix_length].
Qed.

(** The number of tokens bounds the nesting. *)
Lemma parse_value_total fuel ctxt toks :
  ap ctxt = None → Forall tok_ok toks → (length toks < fuel)%nat →
  returned toks (parse_value fuel ctxt toks).
Proof.
  revert ctxt toks. induction fuel as [|fuel IH]; intros ctxt toks Hc Ht Hf; [lia|]. cbn [parse_value].
  apply or_else_safe; [|done|by intros; apply parse_literal_safe].
  apply or_else_safe; [|done|by intros; apply parse_keyword_safe].
  apply or_else_safe; [|done|intros c rest Hca _ _; unfold parse_escape; rewrite Hca; by apply returned_ok].
  apply or_else_safe; [|done|].
  - apply (parse_object_safe _ fuel); [exact IH | done | done | lia].
  - intros c rest Hca Hta Hla. apply (parse_array_safe _ fuel); [exact IH | done | done | lia].
Qed.

(** ** The lexer *)

(** The states inside a string. *)
Definition in_string (st : json_lexer_state) : bool :=
  (1 <=? state_code st) && (state_code st <=? 12).

Definition lexer_ok (lexer : JSONLexer) : Prop :=
  (in_string (lx_state lexer) = true → c_str (lx_token lexer) ≠ []) ∧
  (lx_state lexer = IN_START → lx_token lexer = []).

(** A string is entered on a quote and left from inside a string. *)
Lemma string_entry st ch s :
  json_lexer st ch = ST s →
  s ≠ IN_START ∧ (in_string s = true → in_string st = true ∨ (st = IN_START ∧ ch ≠ x00)).
Proof.
  assert (match json_lexer st ch with
          | ST s => bool_decide (s ≠ IN_START) &&
                    implb (in_string s) (in_string st || bool_decide (st = IN_START ∧ ch ≠ x00))
          | TOK _ => true
          end = true) as H.
  { revert ch. apply byte_forallb. destruct st; vm_compute; reflexivity. }
  intros E. rewrite E in H. apply andb_true_iff in H as [H1 H2]. apply bool_decide_eq_true in H1.
  split; [done|]. intros Hs. rewrite Hs in H2. apply orb_true_iff in H2 as [|H2]; [by left|].
  right. by apply bool_decide_eq_true in H2.
Qed.

Lemma string_exit st ch : json_lexer st ch = TOK JSON_STRING → in_string st = true.
Proof.
  assert (implb (bool_decide (json_lexer st ch = TOK JSON_STRING)) (in_string st) = true) as H.
  { revert ch. apply byte_forallb. destruct st; vm_compute; reflexivity. }
  intros E. rewrite bool_decide_true in H by done. exact H.
Qed.

Lemma c_str_snoc t ch : c_str t ≠ [] → c_str (t ++ [ch]) ≠ [].
Proof. destruct t as [|c t]; [done|]. simpl. by case_decide. Qed.

Section lexer_safety.
Context {P : Type} (emit : bytes → table_entry → Z → Z → P → res P) (I : P → Prop).
Hypothesis emit_ok : ∀ t ty x y p, I p → text_ok t ty → ∃ p', emit t ty x y p = Ok p' ∧ I p'.

Lemma start_ok x y : lexer_ok (mkLexer IN_START [] x y).
Proof. by split. Qed.

Lemma emitted t ty x y x' y' (c r : bool) p :
  I p → text_ok t ty →
  ∃ l p', (p ← emit t ty x y p; Ok (mkLexer IN_START [] x' y', p, c, r)) = Ok (l, p', c, r) ∧
    lexer_ok l ∧ I p'.
Proof.
  intros Hp Ht. destruct (emit_ok t ty x y p Hp Ht) as (p' & -> & Hp'). simpl.
  eexists _, _. split_and!; [reflexivity | apply start_ok.. | done].
Qed.

Lemma round_safe lexer ch p :
  lexer_ok lexer → I p →
  ∃ l p' c r, json_lexer_round emit lexer ch p = Ok (l, p', c, r) ∧ lexer_ok l ∧ I p'.
Proof.
  destruct lexer as [st tok x y]. unfold json_lexer_round. cbn [lx_state lx_token lx_x lx_y].
  intros [Hl Hst] Hp. cbn [lx_state lx_token] in *.
  set (c := negb _). set (tok' := if c then _ else _).
  assert (∀ s, json_lexer st ch = ST s → s ≠ IN_ERROR → lexer_ok (mkLexer s tok' x y)) as Hin.
  { intros s E Hs. subst tok' c. unfold TERMINAL_NEEDED_LOOKAHEAD. rewrite E.
    rewrite bool_decide_false by (by intros Hn%nul_entry). simpl.
    destruct (string_entry _ _ _ E) as [Hns Hstr]. split; [|done]. cbn [lx_state lx_token].
    intros [Hin|[-> Hch]]%Hstr; [by apply c_str_snoc, Hl|]. rewrite Hst by done. simpl. by case_decide. }
  assert (∀ t, json_lexer st ch = TOK t → text_ok tok' (TOK t)) as Hout.
  { intros t E [= ->]. apply string_exit in E. specialize (Hl E). subst tok'.
    destruct c; [by apply c_str_snoc | done]. }
  pose proof (no_error_entry st ch) as Hne.
  destruct (json_lexer st ch) as [s|t].
  - destruct s; try by (eexists _, _, _, _; split_and!; [reflexivity|by apply Hin..|done]).
    destruct (emitted tok' (TOK JSON_ERROR) x y x y c true p) as (l & p' & -> & ? & ?); [done|by intros ?|eauto 8].
  - specialize (Hout t eq_refl).
    destruct t; try done;
      try by (edestruct emitted as (l & p' & -> & ? & ?); [done|exact Hout|eauto 8]).
    eexists _, _, _, _. split_and!; [reflexivity|apply start_ok..|done].
Qed.

Lemma feed_char_safe lexer ch flush p :
  lexer_ok lexer → I p →
  ∃ l p', json_lexer_feed_char emit lexer ch flush p = Ok (l, p') ∧ lexer_ok l ∧ I p'.
Proof.
  destruct lexer as [st tok x y]. intros Hl Hp. rewrite feed_char_loop.
  set (lx := mkLexer _ _ _ _). assert (lexer_ok lx) as Hlx by exact Hl.
  assert (∃ l p' r, json_lexer_loop emit 2 lx ch flush p = Ok (l, p', r) ∧ lexer_ok l ∧ I p')
    as (l & p' & r & -> & Hl' & Hp').
  { cbn [json_lexer_loop]. destruct (round_safe lx ch p Hlx Hp) as (l1 & p1 & c1 & r1 & E1 & Hl1 & Hp1).
    rewrite E1. cbn [mbind res_bind]. destruct r1; [eauto 8|]. destruct (negb c1 && negb flush) eqn:Ec; [|eauto 8].
    apply andb_true_iff in Ec as [Hc _]. apply negb_true_iff in Hc as ->.
    destruct (round_safe l1 ch p1 Hl1 Hp1) as (l2 & p2 & c2 & r2 & E2 & Hl2 & Hp2).
    rewrite E2. cbn [mbind res_bind]. destruct r2; [eauto 8|].
    apply round_unconsumed in E1 as [E1|?]; [|done].
    apply round_start_done in E2 as [-> | ?]; [|done..]. simpl. eauto 8. }
  simpl. destruct r; [eauto|]. destruct (_ <? _); [|eauto].
  edestruct emit_ok as (p2 & -> & Hp2); [exact Hp'|done|]. simpl. eauto using start_ok.
Qed.

Lemma feed_safe buffer lexer p :
  lexer_ok lexer → I p →
  ∃ l p', json_lexer_feed emit lexer buffer p = Ok (l, p') ∧ lexer_ok l ∧ I p'.
Proof.
  revert lexer p. induction buffer as [|ch buffer IH]; intros lexer p Hl Hp; simpl; [eauto|].
  destruct (feed_char_safe lexer ch false p Hl Hp) as (l1 & p1 & -> & Hl1 & Hp1). simpl. eauto.
Qed.

Lemma flush_safe lexer p :
  lexer_ok lexer → I p → ∃ l p', json_lexer_flush emit lexer p = Ok (l, p') ∧ I p'.
Proof.
  intros Hl Hp. unfold json_lexer_flush. case_decide; [eauto|].
  destruct (feed_char_safe lexer x00 true p Hl Hp) as (l1 & p1 & -> & _ & Hp1). eauto.
Qed.
End lexer_safety.

(** ** The streamer and the whole path *)

Definition stream_ok (st : JSONMessageParser * JSONParsingState) : Prop :=
  Forall tok_ok (tokens st.1) ∧ ps_ap st.2 = None.

Lemma parse_json_safe toks s :
  ps_ap s = None → (∀ l, toks = Some l → Forall tok_ok l) →
  ∃ s', parse_json toks s = Ok s' ∧ ps_ap s' = None.
Proof.
  intros Hs Ht. unfold parse_json, json_parser_parse, json_parser_parse_err. rewrite Hs.
  destruct toks as [l|]; [|simpl; eauto]. rewrite qlist_copy_id.
  destruct (parse_value_total (S (length l)) (mkCtxt None None) l) as (c & o & rest & -> & Hc & _);
    [done | by apply Ht | lia|]. cbn. eauto.
Qed.

Lemma process_token_safe t ty x y st :
  stream_ok st → text_ok t ty →
  ∃ st', json_message_process_token parse_json t ty x y st = Ok st' ∧ stream_ok st'.
Proof.
  destruct st as [parser s]. intros [Htok Hap] Ht. cbn [fst snd] in *.
  unfold json_message_process_token. destruct (count_token _ _ _) as [b k].
  assert (Forall tok_ok (qlist_append_obj (tokens parser) (make_token t ty x y))) as Hall.
  { apply Forall_app_2; [done|]. apply Forall_singleton. by exists t, ty, x, y. }
  assert (∀ toks, (∀ l, toks = Some l → Forall tok_ok l) →
    ∃ st', out_emit parse_json toks s = Ok st' ∧ stream_ok st') as Hout.
  { intros toks Hl. unfold out_emit. destruct (parse_json_safe toks s Hap Hl) as (s' & -> & Hs').
    simpl. eexists. split; [reflexivity|]. by split; [apply Forall_nil|]. }
  case_decide; [by apply Hout|].
  destruct (_ || _); [apply Hout; by intros l [= <-]|].
  destruct (_ || _); [apply Hout; by intros l [= <-]|].
  eexists. split; [reflexivity|]. by split.
Qed.

(** The whole path returns. *)
Lemma qobject_from_json_returns (string : bytes) : ∃ r, qobject_from_json string = Ok r.
Proof.
  unfold qobject_from_json, qobject_from_jsonv, json_message_parser_init. cbv beta iota.
  unfold json_message_parser_feed, json_message_parser_flush.
  set (st0 := (mkParser 0 0 qlist_new 0, mkParsing None None)).
  assert (stream_ok st0) as H0 by (split; [apply Forall_nil_2 | done]).
  destruct (feed_safe _ stream_ok process_token_safe (c_str string) json_lexer_init st0)
    as (l & st & -> & Hl & Hst); [apply start_ok|done|]. cbn [mbind res_bind].
  destruct (flush_safe _ stream_ok process_token_safe l st Hl Hst) as (l' & st' & -> & Hst').
  cbn [mbind res_bind]. eauto.
Qed.

(** [C20]: [qobject_from_json] returns on every text, valid JSON or not, nested and
    long as it may be: no assertion of the token accessors fails, no NULL is
    dereferenced, no loop or recursion runs on; the caller gets an object or
    NULL. *)
Theorem qobject_from_json_total (string : bytes) : ∃ r, qobject_from_json string = Ok r.
Proof. apply qobject_from_json_returns. Qed.

(** ** Where the round trip stops *)

(** A continuation byte of UTF-8. *)
Definition is_cont (c : byte) : bool := Z.land (bz c) 0xC0 =? 0x80.

(** A continuation byte on its own is printed as the four letters FFFF: its sign
    extension overflows the 7-byte buffer. *)
Lemma lone_cont c rest : is_cont c = true → escape_step c rest = (bs "\uFFFF", O).
Proof.
  assert (∀ c, implb (is_cont c)
    (negb (Z.land (bz c) 0xE0 =? 0xE0) && negb (Z.land (bz c) 0xE0 =? 0xC0) &&
     bool_decide (escape_step c [] = (bs "\uFFFF", O))) = true) as H by all_bytes.
  intros Hc. specialize (H c). rewrite Hc in H. apply andb_true_iff in H as [[Ha Hb]%andb_true_iff H].
  apply bool_decide_eq_true in H. apply negb_true_iff in Ha, Hb. rewrite <- H.
  unfold escape_step. by rewrite Ha, Hb.
Qed.

(** [to_json] reads a four-byte UTF-8 sequence as a three-byte one followed
    by a stray byte: two strings that differ only in the last byte of such a
    character are printed as the same text, so no reader can tell them apart. *)
Theorem to_json_four_bytes_collide (c c1 c2 c3 c3' : byte) (s : bytes) :
  Z.land (bz c) 0xF8 = 0xF0 → is_cont c1 = true → is_cont c2 = true →
  is_cont c3 = true → is_cont c3' = true →
  to_json_chars 0 (c :: c1 :: c2 :: c3 :: s) = to_json_chars 0 (c :: c1 :: c2 :: c3' :: s).
Proof.
  intros Hc H1 H2 H3 H3'.
  assert (∀ c, implb (Z.land (bz c) 0xF8 =? 0xF0) (Z.land (bz c) 0xE0 =? 0xE0) = true) as L by all_bytes.
  assert (∀ c, implb (is_cont c) (negb (Z.land (bz c) 0x80 =? 0)) = true) as K by all_bytes.
  specialize (L c). pose proof (K c1) as K1. pose proof (K c2) as K2.
  rewrite Hc in L. rewrite H1 in K1. rewrite H2 in K2. simpl in L, K1, K2.
  assert (∃ u, ∀ rest, escape_step c (c1 :: c2 :: rest) = (u, 2%nat)) as [u Hu].
  { eexists. intros rest. unfold escape_step. cbn [hd tail]. rewrite L, K1, K2. reflexivity. }
  cbn [to_json_chars]. rewrite !Hu. cbn [to_json_chars]. by rewrite !lone_cont.
Qed.

Lemma to_json_four_bytes_collide_witness :
  to_json_string [xf0; x9f; x98; x80] = to_json_string [xf0; x9f; x98; x81].
Proof.
  exact (f_equal (λ t, [dq] ++ t ++ [dq])
    (to_json_four_bytes_collide xf0 x9f x98 x80 x81 [] eq_refl eq_refl eq_refl eq_refl eq_refl)).
Defined.

(** The row of the single-quoted escapes sends a backslash and a slash to the
    double-quoted state: the text '\\' is not read as the string it is, while
    the same escapes between double quotes are. *)
Theorem single_quote_escape_lost :
  json_lexer IN_SQ_STRING_ESCAPE x5c = ST IN_DQ_STRING ∧
  json_lexer IN_SQ_STRING_ESCAPE "/" = ST IN_DQ_STRING ∧
  qobject_from_json [x27; x5c; x5c; x27] = Ok None ∧
  qobject_from_json [x22; x5c; x5c; x22] = Ok (Some (QOString [x5c])) ∧
  qobject_from_json [x27; x5c; "n"%byte; x27] = Ok (Some (QOString [x0a])).
Proof. vm_compute. repeat split. Qed.
