(* ===== verification/JsonTrace.v ===== *)
(** * JsonTrace: the messages of a text

    What the lexer and the streamer hand on does not depend on who receives it:
    for every text there is a list of messages, the same for every client, and
    [qobject_from_jsonv] is the parser run over that list ([jsonv_messages]).
    [messages] computes it with a client that only records. *)

From S2P Require Import Prelude LibC QDict QObject JsonLexer JsonLexerFacts JsonStreamer JsonParser QJson.
Local Open Scope Z_scope.

(** ** The lexer *)

Lemma round_traced lexer ch :
  ∃ lexer' toks c r, ∀ P (emit : bytes → table_entry → Z → Z → P → res P) p,
    json_lexer_round emit lexer ch p = (p ← emit_all emit toks p; Ok (lexer', p, c, r)).
Proof.
  unfold json_lexer_round. pose proof (no_error_entry (lx_state lexer) ch) as Hne.
  set (c := negb _). set (tok := if c then _ else _).
  assert (∀ (l : JSONLexer) t (r : bool), ∃ lexer' toks c' r', ∀ P (emit : bytes → table_entry → Z → Z → P → res P) p,
    (p ← emit tok t (lx_x lexer) (lx_y lexer) p; Ok (l, p, c, r)) =
    (p ← emit_all emit toks p; Ok (lexer', p, c', r'))) as Hemit.
  { intros l t r. exists l, [(tok, t, lx_x lexer, lx_y lexer)], c, r. intros P emit p. simpl.
    by destruct (emit _ _ _ _ p). }
  assert (∀ (l : JSONLexer) (r : bool), ∃ lexer' toks c' r', ∀ P (emit : bytes → table_entry → Z → Z → P → res P) p,
    (Ok (l, p, c, r) : res (JSONLexer * P * bool * bool)) =
    (p ← emit_all emit toks p; Ok (lexer', p, c', r'))) as Hno.
  { intros l r. by exists l, [], c, r. }
  destruct (json_lexer (lx_state lexer) ch) as [s|t]; [destruct s | destruct t]; try done; apply Hemit || apply Hno.
Qed.

Lemma feed_char_traced lexer ch flush :
  ∃ lexer' toks, ∀ P (emit : bytes → table_entry → Z → Z → P → res P) p,
    json_lexer_feed_char emit lexer ch flush p = (p ← emit_all emit toks p; Ok (lexer', p)).
Proof.
  destruct lexer as [st tok x y]. set (lx := mkLexer st tok (advance ch x y).1 (advance ch x y).2).
  assert (∃ lexer' toks r, ∀ P (emit : bytes → table_entry → Z → Z → P → res P) p,
    json_lexer_loop emit 2 lx ch flush p = (p ← emit_all emit toks p; Ok (lexer', p, r))) as (l & toks & r & H).
  { destruct (round_traced lx ch) as (l1 & t1 & c1 & r1 & H1).
    destruct (round_traced l1 ch) as (l2 & t2 & c2 & r2 & H2).
    destruct r1.
    { exists l1, t1, true. intros P emit p. cbn [json_lexer_loop]. rewrite H1.
      by destruct (emit_all emit t1 p). }
    destruct (negb c1 && negb flush) eqn:Ec.
    2: { exists l1, t1, false. intros P emit p. cbn [json_lexer_loop]. rewrite H1.
         destruct (emit_all emit t1 p); [|done]. cbn [mbind res_bind]. by rewrite Ec. }
    pose proof Ec as [Hc _]%andb_true_iff. apply negb_true_iff in Hc as ->.
    assert (r2 = true ∨ c2 = true) as Hend.
    { specialize (H1 unit (λ _ _ _ _ _, Ok tt) tt). specialize (H2 unit (λ _ _ _ _ _, Ok tt) tt).
      assert (∀ t, emit_all (λ _ _ _ _ _, Ok tt) t tt = Ok tt) as He
        by (induction t as [|[[[]]] ? IHt]; [done | exact IHt]).
      rewrite He in H1, H2. cbn [mbind res_bind] in H1, H2.
      apply round_unconsumed in H1 as [H1|?]; [|done]. apply round_start_done in H2; [|done]. tauto. }
    exists l2, (t1 ++ t2), r2. intros P emit p. cbn [json_lexer_loop]. rewrite H1, emit_all_app.
    destruct (emit_all emit t1 p) as [p1|]; [|done]. cbn [mbind res_bind negb].
    apply andb_true_iff in Ec as [_ Hf]. rewrite Hf. cbn [andb]. rewrite H2.
    destruct (emit_all emit t2 p1) as [p2|]; [|done]. cbn [mbind res_bind].
    destruct r2; [done|]. destruct Hend as [?| ->]; done. }
  destruct r.
  { exists l, toks. intros P emit p. rewrite feed_char_loop, H. by destruct (emit_all emit toks p). }
  destruct (MAX_TOKEN_SIZE <? Z.of_nat (length (lx_token l))) eqn:Em.
  - exists (mkLexer IN_START [] (lx_x l) (lx_y l)), (toks ++ [(lx_token l, ST (lx_state l), lx_x l, lx_y l)]).
    intros P emit p. rewrite feed_char_loop, H, emit_all_app. destruct (emit_all emit toks p) as [p1|]; [|done].
    cbn [mbind res_bind after_loop]. rewrite Em. simpl. by destruct (emit _ _ _ _ p1).
  - exists l, toks. intros P emit p. rewrite feed_char_loop, H. destruct (emit_all emit toks p) as [p1|]; [|done].
    cbn [mbind res_bind after_loop]. by rewrite Em.
Qed.

Lemma feed_traced buffer lexer : ∃ lexer' toks, lexes lexer buffer lexer' toks.
Proof.
  revert lexer. induction buffer as [|ch buffer IH]; intros lexer; [eexists _, _; apply lexes_nil|].
  destruct (feed_char_traced lexer ch false) as (l1 & t1 & H1). destruct (IH l1) as (l2 & t2 & H2).
  exists l2, (t1 ++ t2). intros P emit p. cbn [json_lexer_feed]. rewrite H1, emit_all_app.
  destruct (emit_all emit t1 p) as [p1|]; [|done]. cbn [mbind res_bind]. apply H2.
Qed.

Lemma flush_traced lexer :
  ∃ lexer' toks, ∀ P (emit : bytes → table_entry → Z → Z → P → res P) p,
    json_lexer_flush emit lexer p = (p ← emit_all emit toks p; Ok (lexer', p)).
Proof.
  unfold json_lexer_flush. destruct (decide (lx_state lexer = IN_START)); [by exists lexer, []|].
  apply feed_char_traced.
Qed.

(** ** The streamer *)

Fixpoint emit_messages {R} (emit : option (list QObject) → R → res R) (l : list (option (list QObject))) (r : R)
  : res R :=
  match l with
  | [] => Ok r
  | m :: l => r ← emit m r; emit_messages emit l r
  end.

Lemma emit_messages_app {R} (emit : option (list QObject) → R → res R) l1 l2 r :
  emit_messages emit (l1 ++ l2) r = (r ← emit_messages emit l1 r; emit_messages emit l2 r).
Proof.
  revert r. induction l1 as [|m l1 IH]; intros r; simpl; [done|].
  destruct (emit m r); simpl; [apply IH | done].
Qed.

Lemma process_traced parser t ty x y :
  ∃ parser' msgs, ∀ R (emit : option (list QObject) → R → res R) r,
    json_message_process_token emit t ty x y (parser, r) =
    (r ← emit_messages emit msgs r; Ok (parser', r)).
Proof.
  unfold json_message_process_token. destruct (count_token parser t ty) as [b k].
  set (toks := qlist_append_obj _ _).
  assert (∀ m, ∃ parser' msgs, ∀ R (emit : option (list QObject) → R → res R) r,
    out_emit emit m r = (r ← emit_messages emit msgs r; Ok (parser', r))) as Hout.
  { intros m. exists (mkParser 0 0 qlist_new 0), [m]. intros R emit r. unfold out_emit. simpl.
    by destruct (emit m r). }
  case_decide; [apply Hout|]. destruct (_ || _); [apply Hout|]. destruct (_ || _); [apply Hout|].
  eexists _, []. done.
Qed.

Lemma process_all_traced toks parser :
  ∃ parser' msgs, ∀ R (emit : option (list QObject) → R → res R) r,
    emit_all (json_message_process_token emit) toks (parser, r) =
    (r ← emit_messages emit msgs r; Ok (parser', r)).
Proof.
  revert parser. induction toks as [|[[[t ty] x] y] toks IH]; intros parser; [by exists parser, []|].
  destruct (process_traced parser t ty x y) as (p1 & m1 & H1). destruct (IH p1) as (p2 & m2 & H2).
  exists p2, (m1 ++ m2). intros R emit r. cbn [emit_all]. rewrite H1, emit_messages_app.
  destruct (emit_messages emit m1 r) as [r1|]; [|done]. cbn [mbind res_bind]. apply H2.
Qed.

(** ** Texts *)

(** The messages of a text, collected by a client that records them. *)
Definition record (m : option (list QObject)) (l : list (option (list QObject)))
  : res (list (option (list QObject))) := Ok (l ++ [m]).

Definition messages (string : bytes) : res (list (option (list QObject))) :=
  let '(lexer, parser) := json_message_parser_init in
  '(lexer, st) ← json_message_parser_feed record lexer (c_str string) (parser, []);
  '(_, st) ← json_message_parser_flush record lexer st;
  Ok st.2.

Lemma record_all msgs l : emit_messages record msgs l = Ok (l ++ msgs).
Proof.
  revert l. induction msgs as [|m msgs IH]; intros l; simpl; [by rewrite app_nil_r|].
  by rewrite IH, <- app_assoc.
Qed.

Lemma jsonv_messages string :
  ∃ msgs, messages string = Ok msgs ∧
    ∀ ap, qobject_from_jsonv string ap =
      (st ← emit_messages parse_json msgs (mkParsing ap None); Ok (ps_result st)).
Proof.
  unfold messages, qobject_from_jsonv, json_message_parser_init, json_message_parser_feed, json_message_parser_flush.
  destruct (feed_traced (c_str string) json_lexer_init) as (l1 & t1 & H1).
  destruct (flush_traced l1) as (l2 & t2 & H2).
  destruct (process_all_traced t1 (mkParser 0 0 qlist_new 0)) as (p1 & m1 & G1).
  destruct (process_all_traced t2 p1) as (p2 & m2 & G2).
  exists (m1 ++ m2). cbv beta iota. split.
  - rewrite H1, G1, record_all. cbn [mbind res_bind]. rewrite H2, G2, record_all. done.
  - intros ap. rewrite H1, G1, emit_messages_app.
    destruct (emit_messages parse_json m1 _) as [st1|]; [|done]. cbn [mbind res_bind].
    rewrite H2, G2. by destruct (emit_messages parse_json m2 st1).
Qed.
