(* ===== verification/InsnMap.v ===== *)
(** * InsnMap: the instruction tables (target-arm/arm_instruction_map.c, hw/*_instruction_map.h)

    The table [arm_instructions] gives every instruction the translator reports a
    name, a cycle count and a class.  [insn_map] is NULL until
    [init_instruction_set_map] points it to the table; a board then fills in the
    cycle counts and the configuration file the classes.  The table is one
    mutable array, so the state keeps its contents whether or not [insn_map] has
    been set. *)

From S2P Require Import Prelude.
Local Open Scope Z_scope.

Definition DATA_PROC_ISN : Z := 1.
Definition BRANCH_ISN : Z := 2.
Definition MULTIPLY_ISN : Z := 3.
Definition LDST_ISN : Z := 4.
Definition MISC_ISN : Z := 5.
Definition EXTENDED_LDST_ISN : Z := 6.
Definition INSTRUCTIONS_AVAILABLE : Z := 114.

(** [struct variability_instruction_set]; the two counts are [uint8_t]. *)
Record variability_instruction_set := mkInsn {
  instruction : bytes;
  insn_cycles : Z;            (* cycle_count *)
  instruction_type : Z;
  errorneous : bool;
}.

Definition arm_entry (e : bytes * Z) : variability_instruction_set := mkInsn e.1 0 e.2 false.

(** The initial contents of [arm_instructions]. *)
Definition arm_instructions : list variability_instruction_set := map arm_entry [
  (bs "ADC_reg", DATA_PROC_ISN); (bs "ADD_reg", DATA_PROC_ISN); (bs "ADD_imm", DATA_PROC_ISN);
  (bs "SUB_reg", DATA_PROC_ISN); (bs "SUB_imm", DATA_PROC_ISN); (bs "MOV_imm", DATA_PROC_ISN);
  (bs "MOV_reg", DATA_PROC_ISN); (bs "CMP_imm", DATA_PROC_ISN); (bs "LDR_imm_lit", LDST_ISN);
  (bs "BLX_imm", BRANCH_ISN); (bs "BLX_reg", BRANCH_ISN); (bs "BX", BRANCH_ISN);
  (bs "BFC", DATA_PROC_ISN); (bs "BFI", DATA_PROC_ISN); (bs "CMP_reg", DATA_PROC_ISN);
  (bs "NEG_reg", DATA_PROC_ISN); (bs "AND_reg", DATA_PROC_ISN); (bs "EOR_reg", DATA_PROC_ISN);
  (bs "LSL_reg", DATA_PROC_ISN); (bs "LSR_reg", DATA_PROC_ISN); (bs "ASR_reg", DATA_PROC_ISN);
  (bs "ROR_reg", DATA_PROC_ISN); (bs "TST_reg", DATA_PROC_ISN); (bs "CMN_reg", DATA_PROC_ISN);
  (bs "ORR_reg", DATA_PROC_ISN); (bs "ORN_reg", DATA_PROC_ISN); (bs "ORNS_reg", DATA_PROC_ISN);
  (bs "MUL", MULTIPLY_ISN); (bs "MVN_reg", DATA_PROC_ISN); (bs "BIC_reg", DATA_PROC_ISN);
  (bs "BIC_imm", DATA_PROC_ISN); (bs "LDR_reg", LDST_ISN); (bs "STR_reg", LDST_ISN);
  (bs "STRH_reg", LDST_ISN); (bs "STRB_reg", LDST_ISN); (bs "LDRH_reg", LDST_ISN);
  (bs "LDRB_reg", LDST_ISN); (bs "LDRSH_reg", LDST_ISN); (bs "LDRSB_reg", LDST_ISN);
  (bs "LDR_imm_off", LDST_ISN); (bs "STR_imm_off", LDST_ISN); (bs "LDRB_imm_off", LDST_ISN);
  (bs "STRB_imm_off", LDST_ISN); (bs "LDRH_imm_off", LDST_ISN); (bs "STRH_imm_off", LDST_ISN);
  (bs "POP", LDST_ISN); (bs "PUSH", LDST_ISN); (bs "UXTH", MISC_ISN); (bs "UXTB", MISC_ISN);
  (bs "SXTH", MISC_ISN); (bs "SXTB", MISC_ISN); (bs "BKPT", MISC_ISN); (bs "REV", DATA_PROC_ISN);
  (bs "CPS", MISC_ISN); (bs "LDRM", EXTENDED_LDST_ISN); (bs "STM", EXTENDED_LDST_ISN);
  (bs "SVC", MISC_ISN); (bs "SWI", MISC_ISN); (bs "CBZ", BRANCH_ISN); (bs "B", BRANCH_ISN);
  (bs "CBNZ", BRANCH_ISN); (bs "LDRD_lit", LDST_ISN); (bs "LDRD_imm", LDST_ISN);
  (bs "STRD_imm", LDST_ISN); (bs "TBH", BRANCH_ISN); (bs "TBB", BRANCH_ISN);
  (bs "LDREXB", LDST_ISN); (bs "LDREXH", LDST_ISN); (bs "STREX", LDST_ISN);
  (bs "STREXB", LDST_ISN); (bs "STREXH", LDST_ISN); (bs "SRS", MISC_ISN); (bs "RFE", MISC_ISN);
  (bs "PKHTB", DATA_PROC_ISN); (bs "PKHBT", DATA_PROC_ISN); (bs "SXTB16", MISC_ISN);
  (bs "UXTB16", MISC_ISN); (bs "QADD", DATA_PROC_ISN); (bs "QSUB", DATA_PROC_ISN);
  (bs "RBIT", DATA_PROC_ISN); (bs "REV16", DATA_PROC_ISN); (bs "REVSH", DATA_PROC_ISN);
  (bs "SEL", DATA_PROC_ISN); (bs "CLZ", DATA_PROC_ISN); (bs "LDREX", LDST_ISN);
  (bs "SMLALD", MULTIPLY_ISN); (bs "SMMUL", MULTIPLY_ISN); (bs "SMMLA", MULTIPLY_ISN);
  (bs "SMMLS", MULTIPLY_ISN); (bs "SDIV", MULTIPLY_ISN); (bs "UDIV", MULTIPLY_ISN);
  (bs "UMAAL", MULTIPLY_ISN); (bs "UMULL", MULTIPLY_ISN); (bs "UMLAL", MULTIPLY_ISN);
  (bs "SMULL", MULTIPLY_ISN); (bs "SMLAL", MULTIPLY_ISN); (bs "BL", BRANCH_ISN);
  (bs "MSR", MISC_ISN); (bs "CLREX", MISC_ISN); (bs "MRS", MISC_ISN); (bs "UBFX", DATA_PROC_ISN);
  (bs "SBFX", DATA_PROC_ISN); (bs "SSAT", DATA_PROC_ISN); (bs "SSAT16", DATA_PROC_ISN);
  (bs "USAT", DATA_PROC_ISN); (bs "USAT16", DATA_PROC_ISN); (bs "MOVT", DATA_PROC_ISN);
  (bs "MOVW", DATA_PROC_ISN); (bs "RSB_imm", DATA_PROC_ISN); (bs "RSB_reg", DATA_PROC_ISN);
  (bs "SBC_imm", DATA_PROC_ISN); (bs "SBC_reg", DATA_PROC_ISN); (bs "RSC", DATA_PROC_ISN);
  (bs "QDADD", DATA_PROC_ISN)].

(** The table and whether [insn_map] points to it. *)
Record insn_memory := mkInsnMem {
  arm_insns : list variability_instruction_set;
  insn_map_set : bool;
}.

Definition insn_memory_init : insn_memory := mkInsnMem arm_instructions false.

Definition init_instruction_set_map (m : insn_memory) : insn_memory := mkInsnMem (arm_insns m) true.

(** Reading through [insn_map]. *)
Definition insn_map (m : insn_memory) : res (list variability_instruction_set) :=
  if insn_map_set m then Ok (arm_insns m) else Err Null_deref.

(** The loop of [get_map_entry] from index [i] on, [n] entries left. *)
Fixpoint find_insn (arr : list variability_instruction_set) (name : bytes) (i : Z) (n : nat)
  : res (option Z) :=
  match n with
  | O => Ok None
  | S n =>
      e ← aread arr i;
      if streq (instruction e) name then Ok (Some i) else find_insn arr name (i + 1) n
  end.

(** The index of the entry the pointer points to, [None] for NULL. *)
Definition get_map_entry (m : insn_memory) (name : bytes) : res (option Z) :=
  arr ← insn_map m; find_insn arr name 0 (Z.to_nat INSTRUCTIONS_AVAILABLE).

(** [get_map_entry(name)->field = ...]: the entry the pointer points to is replaced. *)
Definition map_entry_update (f : variability_instruction_set → variability_instruction_set)
  (name : bytes) (m : insn_memory) : res insn_memory :=
  p ← get_map_entry m name;
  i ← deref p;
  e ← aread (arm_insns m) i;
  arr ← awrite (arm_insns m) i (f e);
  Ok (mkInsnMem arr (insn_map_set m)).

Definition set_cycles (v : Z) (e : variability_instruction_set) : variability_instruction_set :=
  mkInsn (instruction e) (u8 v) (instruction_type e) (errorneous e).
Definition set_type (v : Z) (e : variability_instruction_set) : variability_instruction_set :=
  mkInsn (instruction e) (insn_cycles e) (u8 v) (errorneous e).
Definition set_errorneous (b : bool) (e : variability_instruction_set) : variability_instruction_set :=
  mkInsn (instruction e) (insn_cycles e) (instruction_type e) b.

(** The assignments of a board's map, in their order. *)
Fixpoint set_all_cycles (l : list (bytes * Z)) (m : insn_memory) : res insn_memory :=
  match l with
  | [] => Ok m
  | (name, v) :: l => m ← map_entry_update (set_cycles v) name m; set_all_cycles l m
  end.

Definition versatilepb_cycles : list (bytes * Z) := [
  (bs "MOV_imm", 1); (bs "MOV_reg", 1); (bs "MOVT", 1); (bs "MOVW", 1); (bs "ADD_reg", 1);
  (bs "ADD_imm", 3); (bs "SUB_reg", 1); (bs "SUB_imm", 1); (bs "SBC_reg", 1); (bs "RSB_reg", 3);
  (bs "MUL", 1); (bs "SMULL", 4); (bs "UMULL", 4); (bs "SMLAL", 6); (bs "UMLAL", 6);
  (bs "SDIV", 9); (bs "UDIV", 9); (bs "SSAT", 1); (bs "USAT", 1); (bs "CMP_reg", 1);
  (bs "CMN_reg", 1); (bs "AND_reg", 1); (bs "EOR_reg", 1); (bs "ORR_reg", 1); (bs "ORN_reg", 1);
  (bs "ORNS_reg", 1); (bs "BIC_reg", 1); (bs "BIC_imm", 1); (bs "MVN_reg", 1); (bs "TST_reg", 1);
  (bs "LSL_reg", 1); (bs "LSR_reg", 1); (bs "ASR_reg", 1); (bs "ROR_reg", 1); (bs "CLZ", 1);
  (bs "LDR_reg", 3); (bs "LDRH_reg", 2); (bs "LDRB_reg", 2); (bs "LDRSH_reg", 2);
  (bs "LDRSB_reg", 2); (bs "LDR_imm_off", 2); (bs "LDRH_imm_off", 2); (bs "LDRB_imm_off", 2);
  (bs "LDRD_imm", 3); (bs "LDRD_lit", 3); (bs "STR_reg", 2); (bs "STRH_reg", 2);
  (bs "STRB_reg", 2); (bs "STR_imm_off", 2); (bs "STRH_imm_off", 2); (bs "STRB_imm_off", 2);
  (bs "STRD_imm", 3); (bs "STM", 1); (bs "PUSH", 1); (bs "POP", 1); (bs "LDREX", 2);
  (bs "LDREXH", 2); (bs "LDREXB", 2); (bs "STREX", 2); (bs "STREXH", 2); (bs "STREXB", 2);
  (bs "CLREX", 1); (bs "B", 3); (bs "BLX_reg", 3); (bs "BLX_imm", 3); (bs "BL", 3); (bs "BX", 3);
  (bs "BFI", 1); (bs "BFC", 1); (bs "CBZ", 2); (bs "CBNZ", 2); (bs "TBB", 4); (bs "TBH", 4);
  (bs "SVC", 0); (bs "MRS", 2); (bs "MSR", 2); (bs "BKPT", 0); (bs "SXTH", 1); (bs "SXTB", 1);
  (bs "UXTH", 1); (bs "UXTB", 1); (bs "UBFX", 1); (bs "SBFX", 1); (bs "REV", 1); (bs "REV16", 1);
  (bs "REVSH", 1); (bs "RBIT", 1)].

Definition init_versatilepb_instruction_set_map (m : insn_memory) : res insn_memory :=
  if insn_map_set m then set_all_cycles versatilepb_cycles m else Ok m.

Definition stellaris_cycles : list (bytes * Z) := [
  (bs "MOV_imm", 1); (bs "MOV_reg", 1); (bs "MOVT", 1); (bs "MOVW", 1); (bs "ADD_reg", 1);
  (bs "ADD_imm", 3); (bs "SUB_reg", 1); (bs "SUB_imm", 1); (bs "SBC_reg", 1); (bs "RSB_reg", 3);
  (bs "MUL", 1); (bs "SMULL", 4); (bs "UMULL", 4); (bs "SMLAL", 6); (bs "UMLAL", 6);
  (bs "SDIV", 9); (bs "UDIV", 9); (bs "SSAT", 1); (bs "USAT", 1); (bs "CMP_reg", 1);
  (bs "CMN_reg", 1); (bs "AND_reg", 1); (bs "EOR_reg", 1); (bs "ORR_reg", 1); (bs "ORN_reg", 1);
  (bs "ORNS_reg", 1); (bs "BIC_reg", 1); (bs "BIC_imm", 1); (bs "MVN_reg", 1); (bs "TST_reg", 1);
  (bs "LSL_reg", 1); (bs "LSR_reg", 1); (bs "ASR_reg", 1); (bs "ROR_reg", 1); (bs "CLZ", 1);
  (bs "LDR_reg", 3); (bs "LDRH_reg", 2); (bs "LDRB_reg", 2); (bs "LDRSH_reg", 2);
  (bs "LDRSB_reg", 2); (bs "LDR_imm_off", 2); (bs "LDRH_imm_off", 2); (bs "LDRB_imm_off", 2);
  (bs "LDRD_imm", 3); (bs "LDRD_lit", 3); (bs "STR_reg", 2); (bs "STRH_reg", 2);
  (bs "STRB_reg", 2); (bs "STR_imm_off", 2); (bs "STRH_imm_off", 2); (bs "STRB_imm_off", 2);
  (bs "STRD_imm", 3); (bs "STM", 1); (bs "PUSH", 1); (bs "POP", 1); (bs "LDREX", 2);
  (bs "LDREXH", 2); (bs "LDREXB", 2); (bs "STREX", 2); (bs "STREXH", 2); (bs "STREXB", 2);
  (bs "CLREX", 1); (bs "B", 3); (bs "BLX_reg", 3); (bs "BL", 3); (bs "BX", 3); (bs "BFI", 1);
  (bs "BFC", 1); (bs "CBZ", 2); (bs "CBNZ", 2); (bs "TBB", 4); (bs "TBH", 4); (bs "SVC", 0);
  (bs "MRS", 2); (bs "MSR", 2); (bs "BKPT", 0); (bs "SXTH", 1); (bs "SXTB", 1); (bs "UXTH", 1);
  (bs "UXTB", 1); (bs "UBFX", 1); (bs "SBFX", 1); (bs "REV", 1); (bs "REV16", 1); (bs "REVSH", 1);
  (bs "RBIT", 1)].

Definition init_stellaris_instruction_set_map (m : insn_memory) : res insn_memory :=
  if insn_map_set m then set_all_cycles stellaris_cycles m else Ok m.

(** ** The invariant: updates leave the names alone *)

Definition insn_names : list bytes := map instruction arm_instructions.

Definition names_ok (m : insn_memory) : Prop := map instruction (arm_insns m) = insn_names.

Definition keeps_name (f : variability_instruction_set → variability_instruction_set) : Prop :=
  ∀ e, instruction (f e) = instruction e.

Lemma insn_names_length : length insn_names = Z.to_nat INSTRUCTIONS_AVAILABLE.
Proof. reflexivity. Qed.

Lemma insn_names_nodup : NoDup insn_names.
Proof. refine (bool_decide_unpack (NoDup insn_names) _). vm_compute. exact I. Qed.

Lemma insn_names_no_nul name : name ∈ insn_names → no_nul name.
Proof.
  assert (Forall no_nul insn_names) as H; [|by rewrite Forall_forall in H; apply H].
  refine (bool_decide_unpack (Forall (λ n, x00 ∉ n) insn_names) _). vm_compute. exact I.
Qed.

Lemma names_ok_length m : names_ok m → length (arm_insns m) = Z.to_nat INSTRUCTIONS_AVAILABLE.
Proof. intros H. rewrite <- insn_names_length, <- H. symmetry. apply length_map. Qed.

Lemma names_ok_init : names_ok insn_memory_init.
Proof. reflexivity. Qed.

Lemma names_ok_lookup m i e :
  names_ok m → arm_insns m !! i = Some e → insn_names !! i = Some (instruction e).
Proof. intros H Hi. rewrite <- H. rewrite list_lookup_fmap, Hi. done. Qed.

(** The search, on a table with distinct names. *)
Lemma find_insn_None arr name i n :
  (i + n = length arr)%nat → (∀ j e, (i ≤ j)%nat → arr !! j = Some e → streq (instruction e) name = false) →
  find_insn arr name (Z.of_nat i) n = Ok None.
Proof.
  revert i. induction n as [|n IH]; intros i Hn H; simpl; [done|].
  destruct (lookup_lt_is_Some_2 arr i ltac:(lia)) as [e He].
  rewrite (aread_nat arr i e He). simpl. rewrite (H i e) by (done || lia).
  replace (Z.of_nat i + 1) with (Z.of_nat (S i)) by lia. apply IH; [lia|].
  intros j e' Hj. apply H. lia.
Qed.

Lemma find_insn_Some arr name i n k e :
  (i + n = length arr)%nat → (i ≤ k)%nat → arr !! k = Some e → streq (instruction e) name = true →
  (∀ j e', (i ≤ j < k)%nat → arr !! j = Some e' → streq (instruction e') name = false) →
  find_insn arr name (Z.of_nat i) n = Ok (Some (Z.of_nat k)).
Proof.
  intros Hn Hk He Hs H. pose proof (lookup_lt_Some _ _ _ He) as Hlt. revert i Hn Hk H.
  induction n as [|n IH]; intros i Hn Hk H; simpl; [lia|].
  destruct (decide (i = k)) as [-> | Hne].
  - rewrite (aread_nat arr k e He). simpl. by rewrite Hs.
  - destruct (lookup_lt_is_Some_2 arr i ltac:(lia)) as [e' He'].
    rewrite (aread_nat arr i e' He'). simpl. rewrite (H i e') by (done || lia).
    replace (Z.of_nat i + 1) with (Z.of_nat (S i)) by lia. apply IH; [lia|lia|].
    intros j e'' Hj. apply H. lia.
Qed.

Lemma streq_insn m i e name :
  names_ok m → arm_insns m !! i = Some e →
  streq (instruction e) name = bool_decide (instruction e = c_str name).
Proof.
  intros Hm He. unfold streq. rewrite (c_str_no_nul (instruction e)); [done|].
  apply insn_names_no_nul, (list_elem_of_lookup_2 _ i). by apply (names_ok_lookup m).
Qed.

Lemma get_map_entry_hit m i e name :
  names_ok m → insn_map_set m = true → arm_insns m !! i = Some e → instruction e = c_str name →
  get_map_entry m name = Ok (Some (Z.of_nat i)).
Proof.
  intros Hm Hset He Hn. unfold get_map_entry, insn_map. rewrite Hset. cbn [mbind res_bind].
  apply (find_insn_Some _ _ 0 _ i e); [|lia|done|..].
  - by rewrite (names_ok_length m).
  - rewrite (streq_insn m i) by done. by apply bool_decide_eq_true.
  - intros j e' Hj He'. rewrite (streq_insn m j) by done. apply bool_decide_eq_false. intros Hn'.
    pose proof (names_ok_lookup m i e Hm He) as H1. pose proof (names_ok_lookup m j e' Hm He') as H2.
    rewrite Hn', <- Hn in H2. pose proof (NoDup_lookup _ _ _ _ insn_names_nodup H1 H2). lia.
Qed.

Lemma get_map_entry_miss m name :
  names_ok m → insn_map_set m = true → c_str name ∉ insn_names → get_map_entry m name = Ok None.
Proof.
  intros Hm Hset Hn. unfold get_map_entry, insn_map. rewrite Hset. cbn [mbind res_bind].
  apply (find_insn_None _ _ 0).
  - by rewrite (names_ok_length m).
  - intros j e _ He. rewrite (streq_insn m j) by done. apply bool_decide_eq_false. intros Heq.
    apply Hn. rewrite <- Heq. apply (list_elem_of_lookup_2 _ j). by apply (names_ok_lookup m).
Qed.

(** ** Updates *)

(** Change the entries called [name]. *)
Definition update_named (f : variability_instruction_set → variability_instruction_set)
  (name : bytes) (e : variability_instruction_set) : variability_instruction_set :=
  if bool_decide (instruction e = c_str name) then f e else e.

Lemma names_ok_map m g :
  names_ok m → keeps_name g → names_ok (mkInsnMem (map g (arm_insns m)) (insn_map_set m)).
Proof.
  unfold names_ok, keeps_name. intros H Hg. cbn [arm_insns]. rewrite List.map_map, <- H.
  apply map_ext. done.
Qed.

Lemma update_named_name f name : keeps_name f → keeps_name (update_named f name).
Proof. intros H e. unfold update_named. case_bool_decide; [apply H | done]. Qed.

Lemma map_entry_update_spec f name m :
  names_ok m → insn_map_set m = true → c_str name ∈ insn_names →
  map_entry_update f name m = Ok (mkInsnMem (map (update_named f name) (arm_insns m)) true).
Proof.
  intros Hm Hset Hn. apply list_elem_of_lookup in Hn as [i Hi].
  assert (∃ e, arm_insns m !! i = Some e ∧ instruction e = c_str name) as (e & He & Hne).
  { rewrite <- Hm, list_lookup_fmap in Hi. destruct (arm_insns m !! i) as [e|]; [|discriminate].
    exists e. injection Hi. auto. }
  unfold map_entry_update. rewrite (get_map_entry_hit m i e) by done. cbn [mbind res_bind deref].
  rewrite (aread_nat _ i e He). cbn [mbind res_bind].
  rewrite awrite_nat by by eapply lookup_lt_Some. cbn [mbind res_bind]. rewrite Hset. do 2 f_equal.
  apply list_eq. intros j. rewrite list_lookup_fmap. destruct (decide (i = j)) as [<- | Hij].
  - rewrite list_lookup_insert_eq by by eapply lookup_lt_Some. rewrite He. simpl.
    unfold update_named. by rewrite bool_decide_true.
  - rewrite list_lookup_insert_ne by done. destruct (arm_insns m !! j) as [e'|] eqn:He'; [|done].
    simpl. unfold update_named. rewrite bool_decide_false; [done|]. intros Hn'.
    pose proof (names_ok_lookup m i e Hm He) as H1. pose proof (names_ok_lookup m j e' Hm He') as H2.
    rewrite Hn', <- Hne in H2. by pose proof (NoDup_lookup _ _ _ _ insn_names_nodup H1 H2).
Qed.

(** An unknown name is a NULL dereference. *)
Lemma map_entry_update_unknown f name m :
  names_ok m → insn_map_set m = true → c_str name ∉ insn_names →
  map_entry_update f name m = Err Null_deref.
Proof. intros Hm Hset Hn. unfold map_entry_update. by rewrite get_map_entry_miss. Qed.

(** The value a list of assignments leaves in an entry: the last one wins. *)
Fixpoint assigned (l : list (bytes * Z)) (e : variability_instruction_set) : variability_instruction_set :=
  match l with
  | [] => e
  | (name, v) :: l => assigned l (update_named (set_cycles v) name e)
  end.

Lemma assigned_name l : keeps_name (assigned l).
Proof.
  induction l as [|[name v] l IH]; intros e; simpl; [done|]. rewrite IH. by apply update_named_name.
Qed.

Lemma set_all_cycles_spec l m :
  names_ok m → insn_map_set m = true → Forall (λ p, c_str p.1 ∈ insn_names) l →
  set_all_cycles l m = Ok (mkInsnMem (map (assigned l) (arm_insns m)) true).
Proof.
  intros Hm Hset H. revert m Hm Hset. induction H as [|[name v] l Hn H IH]; intros m Hm Hset; simpl.
  - rewrite List.map_id. by destruct m; simpl in *; subst.
  - rewrite map_entry_update_spec by done. cbn [mbind res_bind].
    rewrite IH; [|apply (names_ok_map m); [done|by apply update_named_name]|done].
    cbn [arm_insns]. by rewrite List.map_map.
Qed.

(** ** The tables a run can reach *)

Inductive table_reachable : insn_memory → Prop :=
| tr_init : table_reachable insn_memory_init
| tr_set m : table_reachable m → table_reachable (init_instruction_set_map m)
| tr_update f name m m' : table_reachable m → keeps_name f →
    map_entry_update f name m = Ok m' → table_reachable m'.

Lemma map_entry_update_names f name m m' :
  names_ok m → keeps_name f → map_entry_update f name m = Ok m' →
  names_ok m' ∧ insn_map_set m' = insn_map_set m.
Proof.
  intros Hm Hf Hu. destruct (insn_map_set m) eqn:Hset.
  - destruct (decide (c_str name ∈ insn_names)) as [Hn|Hn].
    + rewrite map_entry_update_spec in Hu by done. injection Hu as <-. split; [|done].
      rewrite <- Hset. apply names_ok_map; [done | by apply update_named_name].
    + by rewrite map_entry_update_unknown in Hu.
  - unfold map_entry_update, get_map_entry, insn_map in Hu. by rewrite Hset in Hu.
Qed.

Lemma table_reachable_names m : table_reachable m → names_ok m.
Proof.
  induction 1 as [|m Hm IH|f name m m' Hm IH Hf Hu]; [apply names_ok_init | done|].
  by eapply map_entry_update_names.
Qed.

(** [get_map_entry] on every table a run can reach: an instruction of the
    table is found at its own index, any other name gives NULL, and before
    [init_instruction_set_map] the search dereferences NULL. *)
Theorem get_map_entry_correct (m : insn_memory) :
  table_reachable m →
  (insn_map_set m = true →
     (∀ i e, arm_insns m !! i = Some e → get_map_entry m (instruction e) = Ok (Some (Z.of_nat i))) ∧
     (∀ name, c_str name ∉ map instruction arm_instructions → get_map_entry m name = Ok None)) ∧
  (insn_map_set m = false → ∀ name, get_map_entry m name = Err Null_deref).
Proof.
  intros Hm%table_reachable_names. split.
  - intros Hset. split; [|intros; by apply get_map_entry_miss].
    intros i e He. apply (get_map_entry_hit m i e); try done. rewrite c_str_no_nul; [done|].
    apply insn_names_no_nul, (list_elem_of_lookup_2 _ i). by apply (names_ok_lookup m).
  - intros Hset name. unfold get_map_entry, insn_map. by rewrite Hset.
Qed.

Lemma get_map_entry_correct_witness :
  get_map_entry (init_instruction_set_map insn_memory_init) (bs "B") = Ok (Some 59) ∧
  get_map_entry insn_memory_init (bs "B") = Err Null_deref.
Proof.
  destruct (get_map_entry_correct _ (tr_set _ tr_init)) as [H _].
  destruct (H eq_refl) as [Hhit _].
  destruct (get_map_entry_correct _ tr_init) as [_ H'].
  split; [exact (Hhit 59%nat _ eq_refl) | exact (H' eq_refl _)].
Defined.

(** ** The boards *)

(** The entry after a board's assignments. *)
Definition board_entry (l : list (bytes * Z)) (e : variability_instruction_set) : variability_instruction_set :=
  mkInsn (instruction e) (default (insn_cycles e) ((list_to_map l : gmap bytes Z) !! instruction e))
    (instruction_type e) (errorneous e).

Definition board_ok (l : list (bytes * Z)) : Prop :=
  NoDup l.*1 ∧ Forall (λ p, (no_nul p.1 ∧ p.1 ∈ insn_names) ∧ 0 <= p.2 < 256) l.

Lemma assigned_board l e : board_ok l → assigned l e = board_entry l e.
Proof.
  intros [Hnd H]. unfold board_entry. revert e Hnd. induction H as [|[name v] l [[Hnn Hin] Hv] H IH]; intros e Hnd.
  - simpl. rewrite lookup_empty. by destruct e.
  - cbn [fst snd fmap list_fmap] in *. apply NoDup_cons in Hnd as [Hni Hnd]. cbn [assigned].
    rewrite (IH _ Hnd). unfold update_named. rewrite c_str_no_nul by done. case_bool_decide as He; simpl.
    + rewrite He, u8_small by lia. rewrite lookup_insert_eq. simpl.
      by rewrite not_elem_of_list_to_map_1.
    + by rewrite lookup_insert_ne.
Qed.

Lemma set_all_cycles_board l m :
  board_ok l → names_ok m → insn_map_set m = true →
  set_all_cycles l m = Ok (mkInsnMem (map (board_entry l) (arm_insns m)) true).
Proof.
  intros Hl Hm Hset. rewrite set_all_cycles_spec; [|done|done|].
  - do 2 f_equal. apply map_ext. intros e. by apply assigned_board.
  - eapply Forall_impl; [exact (proj2 Hl)|]. intros p [[Hnn Hin] _]. by rewrite c_str_no_nul.
Qed.

Lemma versatilepb_ok : board_ok versatilepb_cycles.
Proof.
  split.
  - refine (bool_decide_unpack (NoDup versatilepb_cycles.*1) _). vm_compute. exact I.
  - refine (bool_decide_unpack (Forall (λ p, ((x00 ∉ p.1) ∧ p.1 ∈ insn_names) ∧ 0 <= p.2 < 256) versatilepb_cycles) _).
    vm_compute. exact I.
Qed.

Lemma stellaris_ok : board_ok stellaris_cycles.
Proof.
  split.
  - refine (bool_decide_unpack (NoDup stellaris_cycles.*1) _). vm_compute. exact I.
  - refine (bool_decide_unpack (Forall (λ p, ((x00 ∉ p.1) ∧ p.1 ∈ insn_names) ∧ 0 <= p.2 < 256) stellaris_cycles) _).
    vm_compute. exact I.
Qed.

(** The board initialisations never dereference NULL: every instruction
    they name is in the table.  With [insn_map] set they give each named
    instruction its cycle count and change nothing else (classes and error flags
    from the configuration file survive); without it they do nothing. *)
Theorem board_maps_correct (m : insn_memory) :
  table_reachable m →
  (insn_map_set m = true →
     init_versatilepb_instruction_set_map m =
       Ok (mkInsnMem (map (board_entry versatilepb_cycles) (arm_insns m)) true) ∧
     init_stellaris_instruction_set_map m =
       Ok (mkInsnMem (map (board_entry stellaris_cycles) (arm_insns m)) true)) ∧
  (insn_map_set m = false →
     init_versatilepb_instruction_set_map m = Ok m ∧ init_stellaris_instruction_set_map m = Ok m).
Proof.
  intros Hm%table_reachable_names. unfold init_versatilepb_instruction_set_map, init_stellaris_instruction_set_map.
  split; intros Hset; rewrite Hset; [|done].
  split; apply set_all_cycles_board; (done || apply versatilepb_ok || apply stellaris_ok).
Qed.

Lemma board_maps_correct_witness :
  init_versatilepb_instruction_set_map (init_instruction_set_map insn_memory_init) =
  Ok (mkInsnMem (map (board_entry versatilepb_cycles) arm_instructions) true).
Proof.
  exact (proj1 (proj1 (board_maps_correct _ (tr_set _ tr_init)) eq_refl)).
Defined.
