(* ===== verification/Variability.v ===== *)
(** * Variability: cycle counters, energy and sleep accounting (qemu-variability.c)

    The file-scope variables of qemu-variability.c are the fields of [var_state];
    the five counters the first version of the code kept by instruction type and
    the array of counters by configured class that came after them are both
    there, as in the code.  The power model behind [curr_power_model] is a record
    of functions over this state.

    A local [struct] the C code does not initialise is an argument of the
    operation ([garbage] below): what the operation leaves in it is what the
    caller sees.  The loops over the classes run to [total_insn_classes] on
    arrays of [MAX_INSN_CLASSES] cells; beyond them is an [Out_of_bounds]. *)

From S2P Require Import Prelude QDict QObject InsnMap.
Local Open Scope Z_scope.

Definition MAX_INSN_CLASSES : Z := 6.

(** ** Data *)

(** The five instruction types that have a counter of their own. *)
Inductive insn_kind := DataProc | Branch | Multiply | Ldst | Misc.

#[global] Instance insn_kind_eq_dec : EqDecision insn_kind.
Proof. solve_decision. Defined.

Record cycle_counter := mkCycles {
  data_proc_cycles : Z;
  branch_cycles : Z;
  multiply_cycles : Z;
  ldst_cycles : Z;
  misc_cycles : Z;
  cycle_count : list Z;
}.

Record energy_counter := mkEnergy {
  data_proc_energy : Z;
  branch_energy : Z;
  multiply_energy : Z;
  ldst_energy : Z;
  misc_energy : Z;
  sleep_energy : Z;
  insn_energy : list Z;
}.

(** The fields of [TranslationBlock] the extension adds. *)
Record TranslationBlock := mkTB {
  tb_cycles : cycle_counter;        (* data_proc_cycle_count, ..., cycle_count[] *)
  insn_under_exec : Z;
  tb_args : list Z;
}.

(** The variables of qemu-variability.c ([curr_power_model] apart), and
    [current_frequency] of first-power-model.c. *)
Record var_state := mkVar {
  insns : insn_memory;              (* insn_map and the table it points to *)
  total_insn_classes : Z;
  total : cycle_counter;            (* total_*_cycle_count, total_cycle_count[] *)
  prev : energy_counter;            (* prev_*_insn_energy, prev_insn_exec_energy[] *)
  chkpt : cycle_counter;            (* cycle_count_chkpt_*, cycle_count_chkpt[] *)
  started_sleep_count : bool;
  sleep_start_time : Z;
  slept : Z;                        (* sleep_energy *)
  class_info : option (QDict QObject);
  error_info_memory : option (list QObject);
  error_info_regs : option (list QObject);
  error_pc_enabled : bool;
  error_icount_enabled : bool;
  error_pc_info : Z * Z;
  error_icount_info : Z * Z;
  errors_activated : bool;
  current_frequency : Z;
}.

Definition zero_classes : list Z := replicate (Z.to_nat MAX_INSN_CLASSES) 0.
Definition zero_cycles : cycle_counter := mkCycles 0 0 0 0 0 zero_classes.
Definition zero_energy : energy_counter := mkEnergy 0 0 0 0 0 0 zero_classes.
Definition DEFAULT_FREQUENCY : Z := 400.

Definition var_init : var_state :=
  mkVar insn_memory_init 0 zero_cycles zero_energy zero_cycles false 0 0 None None None false false
    (0, 0) (0, 0) false DEFAULT_FREQUENCY.

Definition with_insns (s : var_state) (m : insn_memory) : var_state :=
  mkVar m (total_insn_classes s) (total s) (prev s) (chkpt s) (started_sleep_count s)
    (sleep_start_time s) (slept s) (class_info s) (error_info_memory s) (error_info_regs s)
    (error_pc_enabled s) (error_icount_enabled s) (error_pc_info s) (error_icount_info s)
    (errors_activated s) (current_frequency s).
Definition with_total (s : var_state) (t : cycle_counter) : var_state :=
  mkVar (insns s) (total_insn_classes s) t (prev s) (chkpt s) (started_sleep_count s)
    (sleep_start_time s) (slept s) (class_info s) (error_info_memory s) (error_info_regs s)
    (error_pc_enabled s) (error_icount_enabled s) (error_pc_info s) (error_icount_info s)
    (errors_activated s) (current_frequency s).
Definition with_prev (s : var_state) (p : energy_counter) : var_state :=
  mkVar (insns s) (total_insn_classes s) (total s) p (chkpt s) (started_sleep_count s)
    (sleep_start_time s) (slept s) (class_info s) (error_info_memory s) (error_info_regs s)
    (error_pc_enabled s) (error_icount_enabled s) (error_pc_info s) (error_icount_info s)
    (errors_activated s) (current_frequency s).
Definition with_chkpt (s : var_state) (c : cycle_counter) : var_state :=
  mkVar (insns s) (total_insn_classes s) (total s) (prev s) c (started_sleep_count s)
    (sleep_start_time s) (slept s) (class_info s) (error_info_memory s) (error_info_regs s)
    (error_pc_enabled s) (error_icount_enabled s) (error_pc_info s) (error_icount_info s)
    (errors_activated s) (current_frequency s).
Definition with_sleep (s : var_state) (started : bool) (start : Z) : var_state :=
  mkVar (insns s) (total_insn_classes s) (total s) (prev s) (chkpt s) started start
    (slept s) (class_info s) (error_info_memory s) (error_info_regs s)
    (error_pc_enabled s) (error_icount_enabled s) (error_pc_info s) (error_icount_info s)
    (errors_activated s) (current_frequency s).
Definition with_slept (s : var_state) (z : Z) : var_state :=
  mkVar (insns s) (total_insn_classes s) (total s) (prev s) (chkpt s) (started_sleep_count s)
    (sleep_start_time s) z (class_info s) (error_info_memory s) (error_info_regs s)
    (error_pc_enabled s) (error_icount_enabled s) (error_pc_info s) (error_icount_info s)
    (errors_activated s) (current_frequency s).
Definition with_frequency (s : var_state) (f : Z) : var_state :=
  mkVar (insns s) (total_insn_classes s) (total s) (prev s) (chkpt s) (started_sleep_count s)
    (sleep_start_time s) (slept s) (class_info s) (error_info_memory s) (error_info_regs s)
    (error_pc_enabled s) (error_icount_enabled s) (error_pc_info s) (error_icount_info s)
    (errors_activated s) f.

(** ** Counting *)

Definition get_cycle_count (s : var_state) (insn : bytes) : res Z :=
  p ← get_map_entry (insns s) insn;
  match p with
  | None => Ok 0
  | Some i => e ← aread (arm_insns (insns s)) i; Ok (insn_cycles e)
  end.

(** [increment_cycle_counter]: either pointer may be NULL; [p] is an index of the
    instruction table. *)
Definition increment_cycle_counter (s : var_state) (tb : option TranslationBlock) (p : option Z)
  : res (option TranslationBlock) :=
  match p, tb with
  | Some i, Some tb =>
      e ← aread (arm_insns (insns s)) i;
      if insn_cycles e =? 0 then Ok (Some tb) else
      let c := tb_cycles tb in
      let j := instruction_type e - 1 in
      v ← aread (cycle_count c) j;
      a ← awrite (cycle_count c) j (u64 (v + insn_cycles e));
      Ok (Some (mkTB (mkCycles (data_proc_cycles c) (branch_cycles c) (multiply_cycles c)
                        (ldst_cycles c) (misc_cycles c) a) (insn_under_exec tb) (tb_args tb)))
  | _, _ => Ok tb
  end.

(** [dst[i] = f(dst[i], src[i])] for the configured classes. *)
Definition for_classes (n : Z) (f : Z → Z → Z) (src dst : list Z) : res (list Z) :=
  for_upto n (λ i dst, x ← aread dst i; y ← aread src i; awrite dst i (f x y)) dst.

Definition increment_class_cycle_counter (insn_class cycles : Z) (s : var_state) : res var_state :=
  let t := total s in
  v ← aread (cycle_count t) (insn_class - 1);
  a ← awrite (cycle_count t) (insn_class - 1) (u64 (v + cycles));
  Ok (with_total s (mkCycles (data_proc_cycles t) (branch_cycles t) (multiply_cycles t)
                      (ldst_cycles t) (misc_cycles t) a)).

Definition read_all_cycle_counters (s : var_state) (out : cycle_counter) : res cycle_counter :=
  let t := total s in
  a ← for_classes (total_insn_classes s) (λ _ y, y) (cycle_count t) (cycle_count out);
  Ok (mkCycles (data_proc_cycles t) (branch_cycles t) (multiply_cycles t) (ldst_cycles t) (misc_cycles t) a).

Definition reset_all_cycle_counters (s : var_state) : res var_state :=
  a ← for_upto (total_insn_classes s) (λ i a, awrite a i 0) (cycle_count (total s));
  Ok (with_total s (mkCycles 0 0 0 0 0 a)).

Definition increment_cycle_counters (tb : TranslationBlock) (s : var_state) : res var_state :=
  let t := total s in
  let c := tb_cycles tb in
  a ← for_classes (total_insn_classes s) (λ x y, u64 (x + y)) (cycle_count c) (cycle_count t);
  Ok (with_total s (mkCycles
    (u64 (data_proc_cycles t + data_proc_cycles c)) (u64 (branch_cycles t + branch_cycles c))
    (u64 (multiply_cycles t + multiply_cycles c)) (u64 (ldst_cycles t + ldst_cycles c))
    (u64 (misc_cycles t + misc_cycles c)) a)).

Definition read_all_cycle_counter_chkpts (s : var_state) (out : cycle_counter) : res cycle_counter :=
  let t := chkpt s in
  a ← for_classes (total_insn_classes s) (λ _ y, y) (cycle_count t) (cycle_count out);
  Ok (mkCycles (data_proc_cycles t) (branch_cycles t) (multiply_cycles t) (ldst_cycles t) (misc_cycles t) a).

(** ** Energy *)

(** [PowerModel]: the functions of the model that drives the energy figures. *)
Record PowerModel := mkPowerModel {
  freq_change_notify : Z → var_state → var_state;
  read_active_power : var_state → energy_counter → res energy_counter;
  sleep_start_notify : var_state → var_state;
  sleep_stop_notify : Z → var_state → var_state;
  read_sleep_power : var_state → energy_counter → energy_counter;
  insn_power : var_state → Z → res Z;
}.

(** A call through [curr_power_model], which does nothing while it is NULL. *)
Definition read_active (pm : option PowerModel) (s : var_state) (e : energy_counter) : res energy_counter :=
  match pm with Some pm => read_active_power pm s e | None => Ok e end.

(** The array loop stores the energy of the interval without adding it, unlike
    the five assignments before it. *)
Definition accumulate_energy (e : energy_counter) (s : var_state) : res var_state :=
  let p := prev s in
  a ← for_classes (total_insn_classes s) (λ _ y, y) (insn_energy e) (insn_energy p);
  Ok (with_prev s (mkEnergy
    (u64 (data_proc_energy p + data_proc_energy e)) (u64 (branch_energy p + branch_energy e))
    (u64 (multiply_energy p + multiply_energy e)) (u64 (ldst_energy p + ldst_energy e))
    (u64 (misc_energy p + misc_energy e)) (sleep_energy p) a)).

Definition freq_changed_set_chkpt (pm : option PowerModel) (garbage : energy_counter)
  (c : cycle_counter) (s : var_state) : res var_state :=
  cur_energy ← read_active pm s garbage;
  s ← accumulate_energy cur_energy s;
  a ← for_classes (total_insn_classes s) (λ _ y, y) (cycle_count c) (cycle_count (chkpt s));
  let s := with_chkpt s (mkCycles (data_proc_cycles c) (branch_cycles c) (multiply_cycles c)
                           (ldst_cycles c) (misc_cycles c) a) in
  Ok (match pm with Some pm => freq_change_notify pm 100 s | None => s end).

Definition read_all_prev_energy (s : var_state) (out : energy_counter) : res energy_counter :=
  let p := prev s in
  a ← for_classes (total_insn_classes s) (λ _ y, y) (insn_energy p) (insn_energy out);
  Ok (mkEnergy (data_proc_energy p) (branch_energy p) (multiply_energy p) (ldst_energy p)
        (misc_energy p) (sleep_energy out) a).

Definition calculate_active_energy (pm : option PowerModel) (garbage : energy_counter)
  (s : var_state) (out : energy_counter) : res energy_counter :=
  e ← read_active pm s out;
  prev_energy ← read_all_prev_energy s garbage;
  a ← for_classes (total_insn_classes s) (λ x y, u64 (x + y)) (insn_energy prev_energy) (insn_energy e);
  Ok (mkEnergy
    (u64 (data_proc_energy e + data_proc_energy prev_energy))
    (u64 (branch_energy e + branch_energy prev_energy))
    (u64 (multiply_energy e + multiply_energy prev_energy))
    (u64 (ldst_energy e + ldst_energy prev_energy))
    (u64 (misc_energy e + misc_energy prev_energy)) (sleep_energy e) a).

Definition calculate_sleep_energy (pm : option PowerModel) (s : var_state) (out : energy_counter)
  : energy_counter :=
  match pm with Some pm => read_sleep_power pm s out | None => out end.

(** ** Sleep; [now] is [qemu_get_clock_ns(vm_clock)] *)

Definition start_sleep_cycle_count (pm : option PowerModel) (now : Z) (s : var_state) : var_state :=
  let s := with_sleep s true now in
  match pm with Some pm => sleep_start_notify pm s | None => s end.

Definition stop_sleep_cycle_count (pm : option PowerModel) (now : Z) (s : var_state) : var_state :=
  if started_sleep_count s then
    let s := match pm with
             | Some pm => sleep_stop_notify pm (u64 (now - sleep_start_time s)) s
             | None => s
             end in
    with_sleep s false 0
  else s.

Definition update_sleep_energy (val : Z) (s : var_state) : var_state := with_slept s (u64 (slept s + val)).

Definition read_sleep_energy (s : var_state) : Z := slept s.

(** ** The frequency change handler of hw/stellaris.c

    The energies it computes from [rcc] go nowhere; the two counter structs and
    the energy struct are uninitialised locals. *)
Definition frequency_change_handler (pm : option PowerModel) (rcc : Z) (g_cur g_chk : cycle_counter)
  (g_energy : energy_counter) (s : var_state) : res var_state :=
  cur_count ← read_all_cycle_counters s g_cur;
  chk ← read_all_cycle_counter_chkpts s g_chk;
  let _e_count := mkEnergy
    (u64 (rcc * (data_proc_cycles cur_count - data_proc_cycles chk)))
    (u64 (rcc * (branch_cycles cur_count - branch_cycles chk)))
    (u64 (rcc * (multiply_cycles cur_count - multiply_cycles chk)))
    (u64 (rcc * (ldst_cycles cur_count - ldst_cycles chk)))
    (u64 (rcc * (misc_cycles cur_count - misc_cycles chk))) 0 [] in
  freq_changed_set_chkpt pm g_energy cur_count s.

(** ** The class loops *)

(** The array after [for_classes n f src dst]. *)
Definition zip_classes (n : Z) (f : Z → Z → Z) (src dst : list Z) : list Z :=
  overwrite (Z.to_nat n) (λ i, f (dst !!! i) (src !!! i)) dst.

Definition arr_ok (l : list Z) : Prop := length l = Z.to_nat MAX_INSN_CLASSES ∧ Forall is_u64 l.

Lemma arr_ok_length l : arr_ok l → length l = 6%nat.
Proof. by intros [H _]. Qed.

(** One round of the loop. *)
Lemma class_round (f : Z → Z → Z) (src dst : list Z) (j : nat) :
  (j < length src)%nat → (j < length dst)%nat →
  let g i := f (dst !!! i) (src !!! i) in
  let l := overwrite j g dst in
  (x ← aread l (Z.of_nat j); y ← aread src (Z.of_nat j); awrite l (Z.of_nat j) (f x y)) =
  Ok (overwrite (S j) g dst).
Proof.
  intros Hs Hd g l. rewrite (aread_nat l j (dst !!! j)).
  - rewrite (aread_nat src j (src !!! j)) by by apply list_lookup_lookup_total_lt.
    cbn [mbind res_bind]. rewrite awrite_nat by (unfold l; rewrite overwrite_length; lia).
    f_equal. by apply (overwrite_S j g).
  - unfold l. rewrite overwrite_lookup, decide_False by lia. by apply list_lookup_lookup_total_lt.
Qed.

Lemma for_classes_spec n f src dst :
  n <= MAX_INSN_CLASSES → length src = 6%nat → length dst = 6%nat →
  for_classes n f src dst = Ok (zip_classes n f src dst).
Proof.
  intros Hn Hs Hd. unfold for_classes, zip_classes, MAX_INSN_CLASSES in *.
  set (g := λ i, f (dst !!! i) (src !!! i)).
  rewrite <- (overwrite_0 g dst) at 1.
  apply (for_upto_spec _ (λ j, overwrite j g dst)). intros j Hj. apply class_round; lia.
Qed.

(** Beyond the arrays the loops fault. *)
Lemma for_classes_oob n f src dst :
  MAX_INSN_CLASSES < n → length src = 6%nat → length dst = 6%nat →
  for_classes n f src dst = Err Out_of_bounds.
Proof.
  intros Hn Hs Hd. unfold for_classes, for_upto, MAX_INSN_CLASSES in *.
  set (g := λ i, f (dst !!! i) (src !!! i)).
  rewrite <- (overwrite_0 g dst) at 1.
  apply (for_from_fault _ (λ j, overwrite j g dst) _ 0 6); [|lia|].
  - intros j Hj. apply class_round; lia.
  - rewrite (aread_oob (overwrite 6 g dst)); [done|]. rewrite overwrite_length; lia.
Qed.

Lemma zip_classes_length n f src dst :
  n <= MAX_INSN_CLASSES → length dst = 6%nat → length (zip_classes n f src dst) = 6%nat.
Proof. intros Hn Hd. unfold zip_classes, MAX_INSN_CLASSES in *. rewrite overwrite_length; lia. Qed.

Lemma zip_classes_at n f src dst i :
  n <= MAX_INSN_CLASSES → length dst = 6%nat → (Z.of_nat i < n) →
  zip_classes n f src dst !!! i = f (dst !!! i) (src !!! i).
Proof.
  intros Hn Hd Hi. unfold zip_classes, MAX_INSN_CLASSES in *. apply list_lookup_total_correct.
  rewrite overwrite_lookup by lia. by rewrite decide_True by lia.
Qed.

Lemma zip_classes_other n f src dst i :
  n <= MAX_INSN_CLASSES → length dst = 6%nat → n <= Z.of_nat i →
  zip_classes n f src dst !!! i = dst !!! i.
Proof.
  intros Hn Hd Hi. unfold zip_classes, MAX_INSN_CLASSES in *. rewrite !list_lookup_total_alt. f_equal.
  rewrite overwrite_lookup by lia. by rewrite decide_False by lia.
Qed.

Lemma arr_ok_at l i : arr_ok l → (i < 6)%nat → is_u64 (l !!! i).
Proof.
  intros [Hl H] Hi. rewrite Forall_forall in H. apply H. apply (list_elem_of_lookup_2 _ i).
  apply list_lookup_lookup_total_lt. change (Z.to_nat MAX_INSN_CLASSES) with 6%nat in Hl. lia.
Qed.

Lemma zip_classes_ok n f src dst :
  n <= MAX_INSN_CLASSES → arr_ok dst →
  (∀ i, Z.of_nat i < n → is_u64 (f (dst !!! i) (src !!! i))) → arr_ok (zip_classes n f src dst).
Proof.
  intros Hn Hd H. pose proof (arr_ok_length _ Hd) as Hl.
  pose proof (zip_classes_length n f src dst Hn Hl) as Hz. split; [done|].
  apply Forall_lookup. intros i x Hx. apply list_lookup_total_correct in Hx as Hx'. subst x.
  pose proof (lookup_lt_Some _ _ _ Hx).
  destruct (Z.ltb_spec (Z.of_nat i) n).
  - rewrite zip_classes_at by done. by apply H.
  - rewrite zip_classes_other by done. apply arr_ok_at; [done|lia].
Qed.

(** ** Well-formed states *)

Definition cycles_of (k : insn_kind) (c : cycle_counter) : Z :=
  match k with
  | DataProc => data_proc_cycles c
  | Branch => branch_cycles c
  | Multiply => multiply_cycles c
  | Ldst => ldst_cycles c
  | Misc => misc_cycles c
  end.

Definition energy_of (k : insn_kind) (e : energy_counter) : Z :=
  match k with
  | DataProc => data_proc_energy e
  | Branch => branch_energy e
  | Multiply => multiply_energy e
  | Ldst => ldst_energy e
  | Misc => misc_energy e
  end.

Definition cycles_ok (c : cycle_counter) : Prop :=
  (∀ k, is_u64 (cycles_of k c)) ∧ arr_ok (cycle_count c).

Definition energy_ok (e : energy_counter) : Prop :=
  (∀ k, is_u64 (energy_of k e)) ∧ is_u64 (sleep_energy e) ∧ arr_ok (insn_energy e).

Record var_wf (s : var_state) : Prop := mkWf {
  wf_names : names_ok (insns s);
  wf_classes : 0 <= total_insn_classes s <= MAX_INSN_CLASSES;
  wf_total : cycles_ok (total s);
  wf_prev : energy_ok (prev s);
  wf_chkpt : cycles_ok (chkpt s);
  wf_slept : is_u64 (slept s);
}.

Lemma u64_is_u64 z : is_u64 (u64 z).
Proof. apply u64_range. Qed.
#[export] Hint Resolve u64_is_u64 : varsim.

Lemma zero_is_u64 : is_u64 0.
Proof. unfold is_u64. lia. Qed.
#[export] Hint Resolve zero_is_u64 : varsim.

Lemma zero_classes_ok : arr_ok zero_classes.
Proof. split; [done|]. apply Forall_replicate, zero_is_u64. Qed.

Lemma var_init_wf : var_wf var_init.
Proof.
  split; cbn; try done; try (unfold MAX_INSN_CLASSES; lia); try apply zero_is_u64.
  - split; [by intros []; apply zero_is_u64 | apply zero_classes_ok].
  - split_and!; [by intros []; apply zero_is_u64 | apply zero_is_u64 | apply zero_classes_ok].
  - split; [by intros []; apply zero_is_u64 | apply zero_classes_ok].
Qed.

Lemma cycles_ok_length c : cycles_ok c → length (cycle_count c) = 6%nat.
Proof. intros [_ H]. by apply arr_ok_length. Qed.
Lemma energy_ok_length e : energy_ok e → length (insn_energy e) = 6%nat.
Proof. intros (_ & _ & H). by apply arr_ok_length. Qed.
#[export] Hint Resolve cycles_ok_length energy_ok_length : varsim.

(** ** What each operation does *)

Section operations.
Variable s : var_state.
Hypothesis Hs : var_wf s.
Let n := total_insn_classes s.

(** [c] with the first classes replaced by those of the array [a]. *)
Definition copy_classes (c : cycle_counter) (a : list Z) : cycle_counter :=
  mkCycles (data_proc_cycles c) (branch_cycles c) (multiply_cycles c) (ldst_cycles c) (misc_cycles c)
    (zip_classes n (λ _ y, y) (cycle_count c) a).

Lemma read_counters_ok out :
  length (cycle_count out) = 6%nat →
  read_all_cycle_counters s out = Ok (copy_classes (total s) (cycle_count out)).
Proof.
  destruct Hs. intros Hl. unfold read_all_cycle_counters.
  rewrite for_classes_spec by (auto with varsim; lia). done.
Qed.

Lemma read_chkpts_ok out :
  length (cycle_count out) = 6%nat →
  read_all_cycle_counter_chkpts s out = Ok (copy_classes (chkpt s) (cycle_count out)).
Proof.
  destruct Hs. intros Hl. unfold read_all_cycle_counter_chkpts.
  rewrite for_classes_spec by (auto with varsim; lia). done.
Qed.

Definition add_tb (tb : TranslationBlock) : cycle_counter :=
  let t := total s in let c := tb_cycles tb in
  mkCycles
    (u64 (data_proc_cycles t + data_proc_cycles c)) (u64 (branch_cycles t + branch_cycles c))
    (u64 (multiply_cycles t + multiply_cycles c)) (u64 (ldst_cycles t + ldst_cycles c))
    (u64 (misc_cycles t + misc_cycles c))
    (zip_classes n (λ x y, u64 (x + y)) (cycle_count c) (cycle_count t)).

Lemma increment_counters_ok tb :
  length (cycle_count (tb_cycles tb)) = 6%nat →
  increment_cycle_counters tb s = Ok (with_total s (add_tb tb)).
Proof.
  destruct Hs. intros Hl. unfold increment_cycle_counters.
  rewrite for_classes_spec by (auto with varsim; lia). done.
Qed.

Lemma add_tb_ok tb : cycles_ok (add_tb tb).
Proof.
  destruct Hs. split; [by intros []; apply u64_is_u64|]. simpl.
  apply zip_classes_ok; [unfold n; lia | by destruct wf_total0|]. intros i _. apply u64_is_u64.
Qed.

Definition add_class (c m : Z) : cycle_counter :=
  let t := total s in
  let i := Z.to_nat (c - 1) in
  mkCycles (data_proc_cycles t) (branch_cycles t) (multiply_cycles t) (ldst_cycles t) (misc_cycles t)
    (<[i := u64 (cycle_count t !!! i + m)]> (cycle_count t)).

Lemma increment_class_ok c m :
  1 <= c <= MAX_INSN_CLASSES →
  increment_class_cycle_counter c m s = Ok (with_total s (add_class c m)).
Proof.
  destruct Hs. unfold MAX_INSN_CLASSES. intros Hc. unfold increment_class_cycle_counter, add_class.
  pose proof (cycles_ok_length _ wf_total0) as Hl.
  set (i := Z.to_nat (c - 1)). replace (c - 1) with (Z.of_nat i) by lia.
  rewrite (aread_nat (cycle_count (total s)) i (cycle_count (total s) !!! i))
    by (apply list_lookup_lookup_total_lt; lia).
  cbn [mbind res_bind]. rewrite awrite_nat by lia. done.
Qed.

Lemma add_class_ok c m : 1 <= c <= MAX_INSN_CLASSES → cycles_ok (add_class c m).
Proof.
  destruct Hs as [? ? [Hk [Hl Ha]] ? ? ?]. intros Hc. split; [by intros k; specialize (Hk k); destruct k|].
  simpl. split; [by rewrite length_insert|]. apply Forall_insert; [done | apply u64_is_u64].
Qed.

Lemma with_total_wf t : cycles_ok t → var_wf (with_total s t).
Proof. destruct Hs. by split. Qed.
Lemma with_prev_wf p : energy_ok p → var_wf (with_prev s p).
Proof. destruct Hs. by split. Qed.
Lemma with_chkpt_wf c : cycles_ok c → var_wf (with_chkpt s c).
Proof. destruct Hs. by split. Qed.
Lemma with_sleep_wf b t : var_wf (with_sleep s b t).
Proof. destruct Hs. by split. Qed.
Lemma with_slept_wf z : is_u64 z → var_wf (with_slept s z).
Proof. destruct Hs. by split. Qed.
Lemma with_frequency_wf f : var_wf (with_frequency s f).
Proof. destruct Hs. by split. Qed.

Definition accumulated (e : energy_counter) : energy_counter :=
  let p := prev s in
  mkEnergy
    (u64 (data_proc_energy p + data_proc_energy e)) (u64 (branch_energy p + branch_energy e))
    (u64 (multiply_energy p + multiply_energy e)) (u64 (ldst_energy p + ldst_energy e))
    (u64 (misc_energy p + misc_energy e)) (sleep_energy p)
    (zip_classes n (λ _ y, y) (insn_energy e) (insn_energy p)).

Lemma accumulate_ok e :
  length (insn_energy e) = 6%nat → accumulate_energy e s = Ok (with_prev s (accumulated e)).
Proof.
  destruct Hs. intros Hl. unfold accumulate_energy.
  rewrite for_classes_spec by (auto with varsim; lia). done.
Qed.

Lemma accumulated_ok e :
  length (insn_energy e) = 6%nat → (∀ i, Z.of_nat i < n → is_u64 (insn_energy e !!! i)) →
  energy_ok (accumulated e).
Proof.
  destruct Hs as [? ? ? (Hk & Hsl & Ha) ? ?]. intros Hl He.
  split_and!; [by intros []; apply u64_is_u64 | done|]. apply zip_classes_ok; [unfold n; lia | done | done].
Qed.

(** Copied into a well-formed struct, the counters are well formed. *)
Lemma copy_classes_ok c a : cycles_ok c → arr_ok a → cycles_ok (copy_classes c a).
Proof.
  intros [Hk Ha] Hoa. split; [by intros k; specialize (Hk k); destruct k|].
  apply zip_classes_ok; [destruct Hs; unfold n; lia | done|].
  intros i Hi. apply arr_ok_at; [done|]. destruct Hs. unfold n, MAX_INSN_CLASSES in *. lia.
Qed.

Lemma read_prev_ok out :
  length (insn_energy out) = 6%nat →
  read_all_prev_energy s out = Ok (mkEnergy (data_proc_energy (prev s)) (branch_energy (prev s))
    (multiply_energy (prev s)) (ldst_energy (prev s)) (misc_energy (prev s)) (sleep_energy out)
    (zip_classes n (λ _ y, y) (insn_energy (prev s)) (insn_energy out))).
Proof.
  destruct Hs. intros Hl. unfold read_all_prev_energy.
  rewrite for_classes_spec by (auto with varsim; lia). done.
Qed.
End operations.
