(* ===== verification/PowerModel.v ===== *)
(** * PowerModel: what the accounting expects of a power model, and first-power-model.c

    qemu-variability.c reaches the power model only through the function pointers
    of [curr_power_model].  [PowerModelLaws pm unit] states what it relies on, for
    a model that charges [unit f] per cycle at frequency [f]; the theorems about
    the accounting (Energy.v) are proved for every lawful model, and the instance
    at the end shows that first-power-model.c is one, with one unit per cycle. *)

From S2P Require Import Prelude QDict QObject InsnMap Variability.
Local Open Scope Z_scope.

(** The energy struct after reading the active power: [u] per cycle since the
    last checkpoint; the sleep energy and the classes that are not configured
    keep what the struct held. *)
Definition energy_since (u : Z) (s : var_state) (e : energy_counter) : energy_counter :=
  let t := total s in let c := chkpt s in
  mkEnergy
    (u64 (u * (data_proc_cycles t - data_proc_cycles c))) (u64 (u * (branch_cycles t - branch_cycles c)))
    (u64 (u * (multiply_cycles t - multiply_cycles c))) (u64 (u * (ldst_cycles t - ldst_cycles c)))
    (u64 (u * (misc_cycles t - misc_cycles c))) (sleep_energy e)
    (overwrite (Z.to_nat (total_insn_classes s))
       (λ i, u64 (u * (cycle_count t !!! i - cycle_count c !!! i))) (insn_energy e)).

Class PowerModelLaws (pm : PowerModel) (unit : Z → Z) : Prop := {
  active_law s e : var_wf s → length (insn_energy e) = 6%nat →
    read_active_power pm s e = Ok (energy_since (unit (current_frequency s)) s e);
  frequency_law f s : freq_change_notify pm f s = with_frequency s f;
  sleep_start_law s : sleep_start_notify pm s = s;
  sleep_stop_law d s : sleep_stop_notify pm d s = update_sleep_energy d s;
  sleep_read_law s e : read_sleep_power pm s e =
    mkEnergy (data_proc_energy e) (branch_energy e) (multiply_energy e) (ldst_energy e)
      (misc_energy e) (slept s) (insn_energy e);
}.

(** ** first-power-model.c *)

Definition serve_insn_power (s : var_state) (insn : Z) : res Z :=
  arr ← insn_map (insns s); e ← aread arr insn; Ok (insn_cycles e).

Definition freq_has_changed (new_freq : Z) (s : var_state) : var_state := with_frequency s new_freq.

(** The two counter structs are uninitialised locals of the C function; whatever
    they hold ([g1], [g2]) is overwritten before it is used. *)
Definition serve_active_power_from (g1 g2 : cycle_counter) (s : var_state) (e : energy_counter)
  : res energy_counter :=
  c ← read_all_cycle_counters s g1;
  k ← read_all_cycle_counter_chkpts s g2;
  a ← for_upto (total_insn_classes s)
        (λ i a, x ← aread (cycle_count c) i; y ← aread (cycle_count k) i; awrite a i (u64 (x - y)))
        (insn_energy e);
  Ok (mkEnergy
    (u64 (data_proc_cycles c - data_proc_cycles k)) (u64 (branch_cycles c - branch_cycles k))
    (u64 (multiply_cycles c - multiply_cycles k)) (u64 (ldst_cycles c - ldst_cycles k))
    (u64 (misc_cycles c - misc_cycles k)) (sleep_energy e) a).

Definition sleep_start_event (s : var_state) : var_state := s.
Definition sleep_stop_event (interval : Z) (s : var_state) : var_state := update_sleep_energy interval s.

Definition serve_sleep_power (s : var_state) (e : energy_counter) : energy_counter :=
  mkEnergy (data_proc_energy e) (branch_energy e) (multiply_energy e) (ldst_energy e)
    (misc_energy e) (read_sleep_energy s) (insn_energy e).

Section first_power_model.
Variables g1 g2 : cycle_counter.

Definition serve_active_power : var_state → energy_counter → res energy_counter :=
  serve_active_power_from g1 g2.

Definition first_pwr_model : PowerModel :=
  mkPowerModel freq_has_changed serve_active_power sleep_start_event sleep_stop_event
    serve_sleep_power serve_insn_power.

(** [power_init]: from here on [curr_power_model] is not NULL. *)
Definition power_init : option PowerModel := Some first_pwr_model.

Hypothesis Hg1 : length (cycle_count g1) = 6%nat.
Hypothesis Hg2 : length (cycle_count g2) = 6%nat.

Lemma serve_active_ok s e :
  var_wf s → length (insn_energy e) = 6%nat → serve_active_power s e = Ok (energy_since 1 s e).
Proof.
  intros Hs He. unfold serve_active_power, serve_active_power_from.
  rewrite read_counters_ok, read_chkpts_ok by done. cbn [mbind res_bind]. unfold copy_classes.
  cbn [cycle_count data_proc_cycles branch_cycles multiply_cycles ldst_cycles misc_cycles].
  pose proof (wf_classes s Hs) as Hn. unfold MAX_INSN_CLASSES in Hn.
  set (c := zip_classes _ _ _ (cycle_count g1)). set (k := zip_classes _ _ _ (cycle_count g2)).
  assert (length c = 6%nat) as Hc by (by apply zip_classes_length; [apply Hs|]).
  assert (length k = 6%nat) as Hk by (by apply zip_classes_length; [apply Hs|]).
  set (g := λ i, u64 (c !!! i - k !!! i)).
  assert (for_upto (total_insn_classes s)
      (λ i a, x ← aread c i; y ← aread k i; awrite a i (u64 (x - y))) (insn_energy e) =
    Ok (overwrite (Z.to_nat (total_insn_classes s)) g (insn_energy e))) as ->.
  { rewrite <- (overwrite_0 g (insn_energy e)) at 1.
    apply (for_upto_spec _ (λ j, overwrite j g (insn_energy e))). intros j Hj.
    rewrite (aread_nat c j (c !!! j)) by (apply list_lookup_lookup_total_lt; lia).
    rewrite (aread_nat k j (k !!! j)) by (apply list_lookup_lookup_total_lt; lia).
    cbn [mbind res_bind]. rewrite awrite_nat by (rewrite overwrite_length; lia).
    f_equal. apply (overwrite_S j g). lia. }
  cbn [mbind res_bind]. unfold energy_since. rewrite !Z.mul_1_l. do 2 f_equal.
  apply overwrite_ext. intros i Hi. rewrite Z.mul_1_l. unfold g, c, k.
  rewrite !zip_classes_at by (done || apply Hs || lia). done.
Qed.

#[export] Instance first_pwr_model_laws : PowerModelLaws first_pwr_model (λ _, 1).
Proof. split; try done. intros s e. apply serve_active_ok. Qed.
End first_power_model.
