(* ===== verification/Energy.v ===== *)
(** * Energy: the accounting refines a meter per counter

    The specification of the accounting is a [meter] for each counter: the energy
    [spent] in the intervals closed by a frequency change, the cycles [since] the
    last one, and the energy [rate] per cycle at the present frequency; a second
    one for the time slept.  Running the code on any sequence of events keeps its
    variables matched to the meters ([run_matched]), for every lawful power model,
    and what [calculate_active_energy] reports is what the meters read.

    The counters by configured class follow a different meter from the five
    legacy ones: closing an interval overwrites what earlier intervals had spent
    ([close_last]), because [accumulate_energy] assigns instead of adding. *)

From S2P Require Import Prelude QDict QObject InsnMap Variability PowerModel.
Local Open Scope Z_scope.

(** ** The specification *)

Record meter := mkMeter { spent : Z; since : Z; rate : Z }.

Definition tick (n : Z) (m : meter) : meter := mkMeter (spent m) (since m + n) (rate m).
Definition close (r : Z) (m : meter) : meter := mkMeter (spent m + rate m * since m) 0 r.
Definition close_last (r : Z) (m : meter) : meter := mkMeter (rate m * since m) 0 r.
Definition reading (m : meter) : Z := u64 (spent m + rate m * since m).

Record accounts := mkAccounts {
  kinds : insn_kind → meter;
  classes : nat → meter;
  sleeping_since : option Z;
  time_slept : Z;
}.

(** The events of a run: a block is executed, an instruction was replaced by the
    error model, the frequency changes, the CPU goes to sleep or is asked for
    work.  The structs of a frequency change are its uninitialised locals. *)
Inductive var_event :=
| Execute (tb : TranslationBlock)
| Replaced (insn_class cycles : Z)
| FreqChange (rcc : Z) (g_cur g_chk : cycle_counter) (g_energy : energy_counter)
| SleepStart (now : Z)
| SleepStop (now : Z).

Definition event_ok (ev : var_event) : Prop :=
  match ev with
  | Execute tb => length (cycle_count (tb_cycles tb)) = 6%nat
  | Replaced c _ => 1 <= c <= MAX_INSN_CLASSES
  | FreqChange _ g1 g2 g3 =>
      length (cycle_count g1) = 6%nat ∧ length (cycle_count g2) = 6%nat ∧ length (insn_energy g3) = 6%nat
  | SleepStart _ | SleepStop _ => True
  end.

Definition spec_step (unit : Z → Z) (ev : var_event) (a : accounts) : accounts :=
  match ev with
  | Execute tb =>
      mkAccounts (λ k, tick (cycles_of k (tb_cycles tb)) (kinds a k))
        (λ i, tick (cycle_count (tb_cycles tb) !!! i) (classes a i)) (sleeping_since a) (time_slept a)
  | Replaced c m =>
      mkAccounts (kinds a)
        (λ i, if decide (i = Z.to_nat (c - 1)) then tick m (classes a i) else classes a i)
        (sleeping_since a) (time_slept a)
  | FreqChange _ _ _ _ =>
      mkAccounts (λ k, close (unit 100) (kinds a k)) (λ i, close_last (unit 100) (classes a i))
        (sleeping_since a) (time_slept a)
  | SleepStart now => mkAccounts (kinds a) (classes a) (Some now) (time_slept a)
  | SleepStop now =>
      match sleeping_since a with
      | Some t => mkAccounts (kinds a) (classes a) None (time_slept a + (now - t))
      | None => a
      end
  end.

Definition spec_run (unit : Z → Z) (evs : list var_event) (a : accounts) : accounts :=
  fold_left (λ a ev, spec_step unit ev a) evs a.

Definition accounts_init (r : Z) : accounts :=
  mkAccounts (λ _, mkMeter 0 0 r) (λ _, mkMeter 0 0 r) None 0.

(** ** The code on events *)

Definition var_step (pm : option PowerModel) (ev : var_event) (s : var_state) : res var_state :=
  match ev with
  | Execute tb => increment_cycle_counters tb s
  | Replaced c m => increment_class_cycle_counter c m s
  | FreqChange rcc g1 g2 g3 => frequency_change_handler pm rcc g1 g2 g3 s
  | SleepStart now => Ok (start_sleep_cycle_count pm now s)
  | SleepStop now => Ok (stop_sleep_cycle_count pm now s)
  end.

Fixpoint var_run (pm : option PowerModel) (evs : list var_event) (s : var_state) : res var_state :=
  match evs with
  | [] => Ok s
  | ev :: evs => s ← var_step pm ev s; var_run pm evs s
  end.

(** ** Matching *)

(** One counter and its meter: [p], [t], [c] are the energy of the closed
    intervals, the total and the checkpoint. *)
Definition meter_match (r p t c : Z) (m : meter) : Prop :=
  p = u64 (spent m) ∧ u64 (t - c) = u64 (since m) ∧ rate m = r.

Record matched (unit : Z → Z) (s : var_state) (a : accounts) : Prop := mkMatched {
  match_kinds k : meter_match (unit (current_frequency s))
    (energy_of k (prev s)) (cycles_of k (total s)) (cycles_of k (chkpt s)) (kinds a k);
  match_classes i : Z.of_nat i < total_insn_classes s → meter_match (unit (current_frequency s))
    (insn_energy (prev s) !!! i) (cycle_count (total s) !!! i) (cycle_count (chkpt s) !!! i) (classes a i);
  match_sleep : match sleeping_since a with
    | Some t => started_sleep_count s = true ∧ sleep_start_time s = t
    | None => started_sleep_count s = false
    end;
  match_slept : slept s = u64 (time_slept a);
}.

Lemma u64_mul_r a b : u64 (a * u64 b) = u64 (a * b).
Proof. apply Zmult_mod_idemp_r. Qed.

(** The energy since the checkpoint, in terms of the meter. *)
Lemma meter_match_since r p t c m : meter_match r p t c m → u64 (r * (t - c)) = u64 (rate m * since m).
Proof. intros (_ & H & ->). by rewrite <- u64_mul_r, H, u64_mul_r. Qed.

Lemma meter_match_tick r p t c m n :
  meter_match r p t c m → meter_match r p (u64 (t + n)) c (tick n m).
Proof.
  intros (Hp & Ht & Hr). split_and!; [done| |done]. unfold tick. simpl.
  rewrite u64_sub_l. replace (t + n - c) with (t - c + n) by lia.
  by rewrite <- u64_add_l, Ht, u64_add_l.
Qed.

Lemma meter_match_close r r' p t c m :
  meter_match r p t c m → meter_match r' (u64 (p + u64 (r * (t - c)))) t t (close r' m).
Proof.
  intros Hm. pose proof (meter_match_since _ _ _ _ _ Hm) as Hs. destruct Hm as (-> & _ & _).
  split_and!; [|by rewrite Z.sub_diag|done]. unfold close. simpl.
  by rewrite Hs, u64_add_l, u64_add_r.
Qed.

Lemma meter_match_close_last r r' p t c m :
  meter_match r p t c m → meter_match r' (u64 (r * (t - c))) t t (close_last r' m).
Proof.
  intros Hm. pose proof (meter_match_since _ _ _ _ _ Hm) as Hs.
  split_and!; [done|by rewrite Z.sub_diag|done].
Qed.

Lemma meter_match_reading r p t c m :
  meter_match r p t c m → u64 (u64 (r * (t - c)) + p) = reading m.
Proof.
  intros Hm. pose proof (meter_match_since _ _ _ _ _ Hm) as Hs. destruct Hm as (-> & _ & _).
  rewrite Hs, u64_add_l, u64_add_r. unfold reading. by rewrite Z.add_comm.
Qed.

Lemma cycles_of_add_tb s tb k :
  cycles_of k (add_tb s tb) = u64 (cycles_of k (total s) + cycles_of k (tb_cycles tb)).
Proof. by destruct k. Qed.
Lemma energy_of_since u s e k :
  energy_of k (energy_since u s e) = u64 (u * (cycles_of k (total s) - cycles_of k (chkpt s))).
Proof. by destruct k. Qed.
Lemma energy_of_accumulated s e k :
  energy_of k (accumulated s e) = u64 (energy_of k (prev s) + energy_of k e).
Proof. by destruct k. Qed.
Lemma energy_since_length u s e :
  var_wf s → length (insn_energy e) = 6%nat → length (insn_energy (energy_since u s e)) = 6%nat.
Proof.
  intros Hs He. cbn [energy_since insn_energy]. rewrite overwrite_length; [done|].
  destruct Hs. unfold MAX_INSN_CLASSES in *. lia.
Qed.
Lemma energy_since_at u s e i :
  var_wf s → length (insn_energy e) = 6%nat → Z.of_nat i < total_insn_classes s →
  insn_energy (energy_since u s e) !!! i = u64 (u * (cycle_count (total s) !!! i - cycle_count (chkpt s) !!! i)).
Proof.
  intros Hs He Hi. destruct Hs. unfold MAX_INSN_CLASSES in *. cbn [energy_since insn_energy].
  apply list_lookup_total_correct. rewrite overwrite_lookup by lia. by rewrite decide_True by lia.
Qed.

Section lawful.
Context (pm : PowerModel) (unit : Z → Z) `{!PowerModelLaws pm unit}.

(** *** Executing *)

Lemma execute_matched tb s a :
  var_wf s → matched unit s a → length (cycle_count (tb_cycles tb)) = 6%nat →
  ∃ s', increment_cycle_counters tb s = Ok s' ∧ var_wf s' ∧
    total_insn_classes s' = total_insn_classes s ∧ matched unit s' (spec_step unit (Execute tb) a).
Proof.
  intros Hs Hm Hl. eexists. split; [by apply increment_counters_ok|].
  split; [by apply with_total_wf, add_tb_ok|]. split; [done|]. destruct Hm as [Hk Hc Hsl Hslp]. split.
  - intros k. cbn. rewrite cycles_of_add_tb. by apply meter_match_tick.
  - intros i Hi. cbn in *. rewrite zip_classes_at; [|apply Hs|apply cycles_ok_length, Hs|done].
    by apply meter_match_tick, Hc.
  - exact Hsl.
  - exact Hslp.
Qed.

Lemma replaced_matched c m s a :
  var_wf s → matched unit s a → 1 <= c <= MAX_INSN_CLASSES →
  ∃ s', increment_class_cycle_counter c m s = Ok s' ∧ var_wf s' ∧
    total_insn_classes s' = total_insn_classes s ∧ matched unit s' (spec_step unit (Replaced c m) a).
Proof.
  intros Hs Hm Hc. eexists. split; [by apply increment_class_ok|].
  split; [by apply with_total_wf, add_class_ok|]. split; [done|]. destruct Hm as [Hk Hcl Hsl Hslp]. split.
  - intros k. specialize (Hk k). destruct k; exact Hk.
  - intros i Hi. cbn in *. pose proof (cycles_ok_length _ (wf_total s Hs)) as Hl.
    pose proof (wf_classes s Hs). unfold MAX_INSN_CLASSES in *. case_decide as Hd.
    + rewrite <- Hd. rewrite list_lookup_total_insert_eq by lia. by apply meter_match_tick, Hcl.
    + rewrite list_lookup_total_insert_ne by done. by apply Hcl.
  - exact Hsl.
  - exact Hslp.
Qed.

(** *** Changing the frequency *)

(** The state a frequency change leaves. *)
Definition after_freq (g : cycle_counter) (e : energy_counter) (s : var_state) : var_state :=
  let s1 := with_prev s (accumulated s (energy_since (unit (current_frequency s)) s e)) in
  with_frequency (with_chkpt s1 (mkCycles (data_proc_cycles (total s)) (branch_cycles (total s))
    (multiply_cycles (total s)) (ldst_cycles (total s)) (misc_cycles (total s))
    (zip_classes (total_insn_classes s) (λ _ y, y)
       (cycle_count (copy_classes s (total s) (cycle_count g))) (cycle_count (chkpt s))))) 100.

Lemma freq_handler_ok rcc g1 g2 e s :
  var_wf s → length (cycle_count g1) = 6%nat → length (cycle_count g2) = 6%nat →
  length (insn_energy e) = 6%nat →
  frequency_change_handler (Some pm) rcc g1 g2 e s = Ok (after_freq g1 e s).
Proof.
  intros Hs H1 H2 He. unfold frequency_change_handler. rewrite read_counters_ok, read_chkpts_ok by done.
  cbn [mbind res_bind]. unfold freq_changed_set_chkpt, read_active. rewrite active_law by done.
  cbn [mbind res_bind]. rewrite accumulate_ok by (done || by apply energy_since_length).
  cbn [mbind res_bind with_prev total_insn_classes chkpt].
  rewrite for_classes_spec; [|apply Hs|apply zip_classes_length; [apply Hs|done]|apply cycles_ok_length, Hs].
  cbn [mbind res_bind]. by rewrite frequency_law.
Qed.

Lemma after_freq_class_chkpt g e s i :
  var_wf s → length (cycle_count g) = 6%nat → Z.of_nat i < total_insn_classes s →
  cycle_count (chkpt (after_freq g e s)) !!! i = cycle_count (total s) !!! i.
Proof.
  intros Hs Hg Hi. cbn. rewrite zip_classes_at; [|apply Hs|apply cycles_ok_length, Hs|done].
  by rewrite zip_classes_at; [|apply Hs|done|done].
Qed.

Lemma after_freq_class_prev g e s i :
  var_wf s → length (insn_energy e) = 6%nat → Z.of_nat i < total_insn_classes s →
  insn_energy (prev (after_freq g e s)) !!! i =
  u64 (unit (current_frequency s) * (cycle_count (total s) !!! i - cycle_count (chkpt s) !!! i)).
Proof.
  intros Hs He Hi. cbn [after_freq prev with_frequency with_chkpt with_prev accumulated insn_energy].
  rewrite zip_classes_at; [|apply Hs|apply energy_ok_length, Hs|done]. by apply energy_since_at.
Qed.

Lemma after_freq_wf g e s :
  var_wf s → length (cycle_count g) = 6%nat → length (insn_energy e) = 6%nat → var_wf (after_freq g e s).
Proof.
  intros Hs Hg He. apply with_frequency_wf, with_chkpt_wf.
  - apply with_prev_wf; [done|]. apply accumulated_ok; [done|by apply energy_since_length|].
    intros i Hi. rewrite energy_since_at by done. apply u64_is_u64.
  - destruct (wf_total s Hs) as [Hk Ha]. split; [by intros k; specialize (Hk k); destruct k|].
    apply zip_classes_ok; [apply Hs|by destruct (wf_chkpt s Hs)|].
    intros i Hi. cbn. rewrite zip_classes_at; [|apply Hs|done|done]. apply arr_ok_at; [done|].
    destruct Hs. unfold MAX_INSN_CLASSES in *. lia.
Qed.

Lemma freq_matched rcc g1 g2 e s a :
  var_wf s → matched unit s a → event_ok (FreqChange rcc g1 g2 e) →
  ∃ s', frequency_change_handler (Some pm) rcc g1 g2 e s = Ok s' ∧ var_wf s' ∧
    total_insn_classes s' = total_insn_classes s ∧
    matched unit s' (spec_step unit (FreqChange rcc g1 g2 e) a).
Proof.
  intros Hs Hm (H1 & H2 & He). exists (after_freq g1 e s). split; [by apply freq_handler_ok|].
  split; [by apply after_freq_wf|]. split; [done|]. destruct Hm as [Hk Hc Hsl Hslp]. split.
  - intros k. specialize (Hk k). apply (meter_match_close _ (unit 100)) in Hk.
    change (prev (after_freq g1 e s)) with (accumulated s (energy_since (unit (current_frequency s)) s e)).
    rewrite energy_of_accumulated, energy_of_since. by destruct k.
  - intros i Hi. specialize (Hc i Hi). apply (meter_match_close_last _ (unit 100)) in Hc.
    rewrite after_freq_class_chkpt, after_freq_class_prev by done. exact Hc.
  - exact Hsl.
  - exact Hslp.
Qed.

(** *** Sleeping *)

Lemma sleep_start_matched now s a :
  var_wf s → matched unit s a →
  let s' := start_sleep_cycle_count (Some pm) now s in
  var_wf s' ∧ total_insn_classes s' = total_insn_classes s ∧ matched unit s' (spec_step unit (SleepStart now) a).
Proof.
  intros Hs [Hk Hc Hsl Hslp]. cbn zeta. unfold start_sleep_cycle_count. rewrite sleep_start_law.
  split; [by apply with_sleep_wf|]. split; [done|]. by split.
Qed.

Lemma sleep_stop_matched now s a :
  var_wf s → matched unit s a →
  let s' := stop_sleep_cycle_count (Some pm) now s in
  var_wf s' ∧ total_insn_classes s' = total_insn_classes s ∧ matched unit s' (spec_step unit (SleepStop now) a).
Proof.
  intros Hs Hm. cbn zeta. unfold stop_sleep_cycle_count. destruct Hm as [Hk Hc Hsl Hslp]. cbn [spec_step].
  destruct (sleeping_since a) as [t|] eqn:Ha.
  - destruct Hsl as [-> Ht]. rewrite sleep_stop_law. split; [apply with_sleep_wf, with_slept_wf; [done|apply u64_is_u64]|].
    split; [done|]. split; [done|done|done|]. cbn. rewrite Hslp, Ht. by rewrite u64_add_l, u64_add_r.
  - rewrite Hsl. split; [done|]. split; [done|]. split; [done|done| |done]. by rewrite Ha.
Qed.

(** *** Runs *)

Lemma step_matched ev s a :
  var_wf s → matched unit s a → event_ok ev →
  ∃ s', var_step (Some pm) ev s = Ok s' ∧ var_wf s' ∧
    total_insn_classes s' = total_insn_classes s ∧ matched unit s' (spec_step unit ev a).
Proof.
  intros Hs Hm Hev. destruct ev as [tb|c m|rcc g1 g2 g3|now|now]; cbn [var_step].
  - by apply execute_matched.
  - by apply replaced_matched.
  - by apply freq_matched.
  - eexists. split; [reflexivity|]. by apply sleep_start_matched.
  - eexists. split; [reflexivity|]. by apply sleep_stop_matched.
Qed.

Lemma run_matched evs s a :
  var_wf s → matched unit s a → Forall event_ok evs →
  ∃ s', var_run (Some pm) evs s = Ok s' ∧ var_wf s' ∧
    total_insn_classes s' = total_insn_classes s ∧ matched unit s' (spec_run unit evs a).
Proof.
  intros Hs Hm H. revert s a Hs Hm. induction H as [|ev evs Hev H IH]; intros s a Hs Hm; simpl; [eauto|].
  destruct (step_matched ev s a Hs Hm Hev) as (s1 & -> & Hs1 & Hn1 & Hm1). cbn [mbind res_bind].
  destruct (IH s1 _ Hs1 Hm1) as (s2 & -> & Hs2 & Hn2 & Hm2). exists s2. by rewrite Hn2.
Qed.

(** *** Readings *)

Lemma active_reading g s a out :
  var_wf s → matched unit s a → length (insn_energy g) = 6%nat → length (insn_energy out) = 6%nat →
  ∃ e, calculate_active_energy (Some pm) g s out = Ok e ∧
    (∀ k, energy_of k e = reading (kinds a k)) ∧
    (∀ i, Z.of_nat i < total_insn_classes s → insn_energy e !!! i = reading (classes a i)) ∧
    length (insn_energy e) = 6%nat ∧ sleep_energy e = sleep_energy out.
Proof.
  intros Hs [Hk Hc _ _] Hg Ho. unfold calculate_active_energy, read_active. rewrite active_law by done.
  cbn [mbind res_bind]. rewrite read_prev_ok by done. cbn [mbind res_bind].
  rewrite for_classes_spec;
    [|apply Hs|by apply zip_classes_length; [apply Hs|]|by apply energy_since_length].
  cbn [mbind res_bind]. eexists. split; [reflexivity|]. split_and!.
  - intros k. specialize (Hk k). apply meter_match_reading in Hk. by destruct k.
  - intros i Hi. specialize (Hc i Hi). apply meter_match_reading in Hc. rewrite <- Hc.
    cbn [insn_energy]. rewrite zip_classes_at; [|apply Hs|by apply energy_since_length|done].
    rewrite energy_since_at by done.
    by rewrite zip_classes_at; [|apply Hs|done|done].
  - cbn [insn_energy]. by apply zip_classes_length; [apply Hs|apply energy_since_length].
  - done.
Qed.
End lawful.

(** ** Theorems *)

(** Nothing has been executed or slept yet; the configuration may have been read. *)
Record fresh (s : var_state) : Prop := mkFresh {
  fresh_wf : var_wf s;
  fresh_total : total s = zero_cycles;
  fresh_prev : prev s = zero_energy;
  fresh_chkpt : chkpt s = zero_cycles;
  fresh_sleep : started_sleep_count s = false;
  fresh_slept : slept s = 0;
}.

Lemma var_init_fresh : fresh var_init.
Proof. split; [apply var_init_wf|done..]. Qed.

Lemma zero_class_at i : (i < 6)%nat → zero_classes !!! i = 0.
Proof. intros Hi. do 6 (destruct i as [|i]; [done|]). lia. Qed.

Lemma fresh_matched unit s : fresh s → matched unit s (accounts_init (unit (current_frequency s))).
Proof.
  intros [Hwf Ht Hp Hc Hs Hsl]. split; rewrite ?Ht, ?Hp, ?Hc; try done.
  - by intros [].
  - intros i Hi. pose proof (wf_classes s Hwf). unfold MAX_INSN_CLASSES in *. cbn.
    rewrite !zero_class_at by lia. by split_and!.
Qed.

(** [C1]: for every lawful power model and every sequence of executions,
    replacements, frequency changes, sleeps and wake-ups, no operation faults and
    the reported figures are those of the specification: the energy of each of
    the five legacy counters and of each configured class is the reading of its
    meter, and the sleep energy is the time slept, whatever the uninitialised
    structs held. *)
Theorem accounting_refines_meters (pm : PowerModel) (unit : Z → Z) (evs : list var_event)
  (s : var_state) (g out : energy_counter) :
  PowerModelLaws pm unit → fresh s → Forall event_ok evs →
  length (insn_energy g) = 6%nat → length (insn_energy out) = 6%nat →
  let a := spec_run unit evs (accounts_init (unit (current_frequency s))) in
  ∃ s' e, var_run (Some pm) evs s = Ok s' ∧
    calculate_active_energy (Some pm) g s' out = Ok e ∧
    (∀ k, energy_of k e = reading (kinds a k)) ∧
    (∀ i, Z.of_nat i < total_insn_classes s → insn_energy e !!! i = reading (classes a i)) ∧
    sleep_energy (calculate_sleep_energy (Some pm) s' out) = u64 (time_slept a).
Proof.
  intros Hpm Hf Hev Hg Ho a.
  destruct (run_matched pm unit evs s _ (fresh_wf s Hf) (fresh_matched unit s Hf) Hev)
    as (s' & Hr & Hwf & Hn & Hm).
  destruct (active_reading pm unit g s' _ out Hwf Hm Hg Ho) as (e & He & Hk & Hc & _).
  rewrite Hn in Hc. exists s', e. split_and!; [done..|].
  unfold calculate_sleep_energy. rewrite sleep_read_law. apply Hm.
Qed.

Definition example_tb (d : Z) (c : list Z) : TranslationBlock :=
  mkTB (mkCycles d 0 0 0 0 c) 0 [].
Definition example_events : list var_event :=
  [Execute (example_tb 3 [5; 0; 0; 0; 0; 0]); FreqChange 1 zero_cycles zero_cycles zero_energy;
   SleepStart 100; Execute (example_tb 2 [7; 0; 0; 0; 0; 0]); SleepStop 250;
   FreqChange 1 zero_cycles zero_cycles zero_energy; Execute (example_tb 1 [1; 0; 0; 0; 0; 0])].

Lemma example_events_ok : Forall event_ok example_events.
Proof. by repeat constructor. Qed.

(** One configured class. *)
Definition example_state : var_state :=
  mkVar insn_memory_init 1 zero_cycles zero_energy zero_cycles false 0 0 None None None false false
    (0, 0) (0, 0) false DEFAULT_FREQUENCY.

Lemma example_fresh : fresh example_state.
Proof.
  destruct var_init_wf. split; [|reflexivity..].
  split; [done | cbn; unfold MAX_INSN_CLASSES; lia | done..].
Qed.

Lemma accounting_refines_meters_witness :
  ∃ s' e, var_run (power_init zero_cycles zero_cycles) example_events example_state = Ok s' ∧
    calculate_active_energy (power_init zero_cycles zero_cycles) zero_energy s' zero_energy = Ok e ∧
    energy_of DataProc e = 6 ∧ insn_energy e !!! 0%nat = 8 ∧
    sleep_energy (calculate_sleep_energy (power_init zero_cycles zero_cycles) s' zero_energy) = 150.
Proof.
  destruct (accounting_refines_meters (first_pwr_model zero_cycles zero_cycles) (λ _, 1) example_events
    example_state zero_energy zero_energy (first_pwr_model_laws zero_cycles zero_cycles eq_refl eq_refl) example_fresh
    example_events_ok eq_refl eq_refl) as (s' & e & Hr & He & Hk & Hc & Hs).
  exists s', e. split; [exact Hr|]. split; [exact He|]. split; [exact (Hk DataProc)|].
  split; [exact (Hc 0%nat eq_refl) | exact Hs].
Defined.

(** *** The first power model: one unit per cycle *)

(** The cycles an event adds to a legacy counter and to a class. *)
Definition kind_amount (k : insn_kind) (ev : var_event) : Z :=
  match ev with Execute tb => cycles_of k (tb_cycles tb) | _ => 0 end.
Definition class_amount (i : nat) (ev : var_event) : Z :=
  match ev with
  | Execute tb => cycle_count (tb_cycles tb) !!! i
  | Replaced c m => if decide (i = Z.to_nat (c - 1)) then m else 0
  | _ => 0
  end.
Fixpoint sum_amounts (f : var_event → Z) (evs : list var_event) : Z :=
  match evs with [] => 0 | ev :: evs => f ev + sum_amounts f evs end.

Definition is_freq (ev : var_event) : bool := match ev with FreqChange _ _ _ _ => true | _ => false end.

Lemma sum_amounts_app f evs1 evs2 : sum_amounts f (evs1 ++ evs2) = sum_amounts f evs1 + sum_amounts f evs2.
Proof. induction evs1 as [|ev evs1 IH]; simpl; [done|]. rewrite IH. lia. Qed.

Lemma spec_run_app unit evs1 evs2 a : spec_run unit (evs1 ++ evs2) a = spec_run unit evs2 (spec_run unit evs1 a).
Proof. apply fold_left_app. Qed.

(** Closing an interval at the same rate keeps the sum of a legacy meter. *)
Lemma kind_sum k evs a :
  rate (kinds a k) = 1 →
  let m := kinds a k in let m' := kinds (spec_run (λ _, 1) evs a) k in
  rate m' = 1 ∧ spent m' + since m' = spent m + since m + sum_amounts (kind_amount k) evs.
Proof.
  revert a. induction evs as [|ev evs IH]; intros a Hr; simpl; [split; [done|lia]|].
  destruct (IH (spec_step (λ _, 1) ev a)) as [Hr' Hs'].
  - destruct ev; simpl; try done. by destruct (sleeping_since a).
  - split; [exact Hr'|]. rewrite Hs'. destruct ev; simpl; try lia.
    destruct (sleeping_since a); simpl; lia.
Qed.

(** Between frequency changes a class meter only ticks. *)
Lemma class_ticks unit i evs a :
  Forall (λ ev, is_freq ev = false) evs →
  classes (spec_run unit evs a) i = tick (sum_amounts (class_amount i) evs) (classes a i).
Proof.
  intros H. revert a. induction H as [|ev evs Hev H IH]; intros a; simpl.
  - unfold tick. rewrite Z.add_0_r. by destruct (classes a i).
  - rewrite IH. destruct ev; try discriminate Hev; simpl; unfold tick; simpl; try done.
    + f_equal. lia.
    + case_decide; simpl; f_equal; lia.
    + by destruct (sleeping_since a).
Qed.

(** A run of blocks that add nothing to the legacy counters leaves them at zero. *)
Lemma legacy_totals_zero pm unit `{!PowerModelLaws pm unit} evs s s' :
  var_wf s → Forall event_ok evs → Forall (λ ev, ∀ k, kind_amount k ev = 0) evs →
  (∀ k, cycles_of k (total s) = 0) → var_run (Some pm) evs s = Ok s' → ∀ k, cycles_of k (total s') = 0.
Proof.
  intros Hs Hev. revert s Hs. induction Hev as [|ev evs Hev H IH]; intros s Hs Hz Ht Hr k; simpl in Hr.
  - injection Hr as <-. apply Ht.
  - apply Forall_cons in Hz as [Hz1 Hz]. apply bind_Ok in Hr as (s1 & H1 & Hr).
    assert (var_wf s1 ∧ ∀ k, cycles_of k (total s1) = 0) as [Hs1 Ht1]; [|by eapply (IH s1)].
    destruct ev as [tb|c m|rcc g1 g2 g3|now|now]; cbn [var_step] in H1.
    + rewrite increment_counters_ok in H1 by done. injection H1 as <-. split; [by apply with_total_wf, add_tb_ok|].
      intros k'. cbn [total with_total]. rewrite cycles_of_add_tb, Ht. specialize (Hz1 k'). simpl in Hz1. by rewrite Hz1.
    + rewrite increment_class_ok in H1 by done. injection H1 as <-. split; [by apply with_total_wf, add_class_ok|].
      intros k'. specialize (Ht k'). by destruct k'.
    + destruct Hev as (Hg1 & Hg2 & Hg3). rewrite (freq_handler_ok pm unit) in H1 by done. injection H1 as <-.
      split; [by apply after_freq_wf | done].
    + injection H1 as <-. unfold start_sleep_cycle_count. rewrite sleep_start_law. split; [by apply with_sleep_wf | done].
    + injection H1 as <-. unfold stop_sleep_cycle_count. rewrite sleep_stop_law. destruct (started_sleep_count s); [|done].
      split; [apply with_sleep_wf, with_slept_wf; [done|apply u64_is_u64] | done].
Qed.

(** With the first power model the energy of a legacy counter is the number
    of its cycles executed since the start (modulo 2^64), however often and
    whenever the frequency changed: no interval is lost and none counted twice. *)
Theorem legacy_energy_conserved (evs : list var_event) (s : var_state) (k : insn_kind)
  (g1 g2 : cycle_counter) (g out : energy_counter) :
  fresh s → Forall event_ok evs →
  length (cycle_count g1) = 6%nat → length (cycle_count g2) = 6%nat →
  length (insn_energy g) = 6%nat → length (insn_energy out) = 6%nat →
  ∃ s' e, var_run (power_init g1 g2) evs s = Ok s' ∧
    calculate_active_energy (power_init g1 g2) g s' out = Ok e ∧
    energy_of k e = u64 (sum_amounts (kind_amount k) evs).
Proof.
  intros Hf Hev H1 H2 Hg Ho. pose proof (first_pwr_model_laws g1 g2 H1 H2) as Hpm.
  destruct (run_matched _ _ evs s _ (fresh_wf s Hf) (fresh_matched _ s Hf) Hev) as (s' & Hr & Hwf & Hn & Hm).
  destruct (active_reading _ _ g s' _ out Hwf Hm Hg Ho) as (e & He & Hk & _).
  exists s', e. split_and!; [done..|]. rewrite Hk. unfold reading.
  destruct (kind_sum k evs (accounts_init 1)) as [-> Hs]; [done|]. rewrite Z.mul_1_l, Hs. done.
Qed.

Lemma legacy_energy_conserved_witness :
  ∃ s' e, var_run (power_init zero_cycles zero_cycles) example_events example_state = Ok s' ∧
    calculate_active_energy (power_init zero_cycles zero_cycles) zero_energy s' zero_energy = Ok e ∧
    energy_of DataProc e = 6.
Proof.
  exact (legacy_energy_conserved example_events example_state DataProc zero_cycles zero_cycles zero_energy
    zero_energy example_fresh example_events_ok eq_refl eq_refl eq_refl eq_refl).
Defined.

(** The energy of a configured class covers only the cycles executed since
    the last frequency change but one: whatever ran before it ([evs1]) is gone
    from the figure, since [accumulate_energy] overwrites the class array. *)
Theorem class_energy_forgets (evs1 evs2 evs3 : list var_event) (f f' : var_event) (s : var_state) (i : nat)
  (g1 g2 : cycle_counter) (g out : energy_counter) :
  fresh s → Forall event_ok (evs1 ++ f :: evs2 ++ f' :: evs3) →
  is_freq f = true → is_freq f' = true → Forall (λ ev, is_freq ev = false) (evs2 ++ evs3) →
  length (cycle_count g1) = 6%nat → length (cycle_count g2) = 6%nat →
  length (insn_energy g) = 6%nat → length (insn_energy out) = 6%nat → Z.of_nat i < total_insn_classes s →
  ∃ s' e, var_run (power_init g1 g2) (evs1 ++ f :: evs2 ++ f' :: evs3) s = Ok s' ∧
    calculate_active_energy (power_init g1 g2) g s' out = Ok e ∧
    insn_energy e !!! i = u64 (sum_amounts (class_amount i) (evs2 ++ evs3)).
Proof.
  intros Hf Hev Hff Hff' Hno H1 H2 Hg Ho Hi. pose proof (first_pwr_model_laws g1 g2 H1 H2) as Hpm.
  destruct (run_matched _ _ _ s _ (fresh_wf s Hf) (fresh_matched _ s Hf) Hev) as (s' & Hr & Hwf & Hn & Hm).
  destruct (active_reading _ _ g s' _ out Hwf Hm Hg Ho) as (e & He & _ & Hc & _).
  exists s', e. split_and!; [done..|]. rewrite Hc by by rewrite Hn. apply Forall_app in Hno as [Hno2 Hno3].
  rewrite spec_run_app. set (a1 := spec_run _ evs1 _).
  change (f :: evs2 ++ f' :: evs3) with ([f] ++ evs2 ++ [f'] ++ evs3). rewrite !spec_run_app.
  rewrite class_ticks by done. destruct f as [| |rcc ga gb gc| |], f' as [| |rcc' ga' gb' gc'| |]; try discriminate.
  cbn [spec_run fold_left spec_step classes]. fold (spec_run (λ _, 1) evs2).
  rewrite class_ticks by done. cbn [spec_step classes]. unfold reading, tick, close_last.
  cbn [spent since rate]. rewrite sum_amounts_app. f_equal. lia.
Qed.

Lemma class_energy_forgets_witness :
  ∃ s' e, var_run (power_init zero_cycles zero_cycles) example_events example_state = Ok s' ∧
    calculate_active_energy (power_init zero_cycles zero_cycles) zero_energy s' zero_energy = Ok e ∧
    insn_energy e !!! 0%nat = 8.
Proof.
  exact (class_energy_forgets [Execute (example_tb 3 [5; 0; 0; 0; 0; 0])]
    [SleepStart 100; Execute (example_tb 2 [7; 0; 0; 0; 0; 0]); SleepStop 250]
    [Execute (example_tb 1 [1; 0; 0; 0; 0; 0])] _ _ example_state 0 zero_cycles zero_cycles zero_energy
    zero_energy example_fresh example_events_ok eq_refl eq_refl
    ltac:(by repeat constructor) eq_refl eq_refl eq_refl eq_refl eq_refl).
Defined.

(** The number of classes is not checked against the size of the arrays: in
    a state with well-formed arrays every loop over the classes runs in bounds
    exactly when [total_insn_classes] is at most [MAX_INSN_CLASSES]. *)
Theorem class_loops_in_bounds (s : var_state) (tb : TranslationBlock) (out : cycle_counter) :
  cycles_ok (total s) → cycles_ok (chkpt s) →
  length (cycle_count (tb_cycles tb)) = 6%nat → length (cycle_count out) = 6%nat →
  (total_insn_classes s <= MAX_INSN_CLASSES →
     is_ok (increment_cycle_counters tb s) = true ∧ is_ok (read_all_cycle_counters s out) = true ∧
     is_ok (read_all_cycle_counter_chkpts s out) = true) ∧
  (MAX_INSN_CLASSES < total_insn_classes s →
     increment_cycle_counters tb s = Err Out_of_bounds ∧
     read_all_cycle_counters s out = Err Out_of_bounds ∧
     read_all_cycle_counter_chkpts s out = Err Out_of_bounds).
Proof.
  intros Ht Hc Htb Ho. apply cycles_ok_length in Ht, Hc.
  unfold increment_cycle_counters, read_all_cycle_counters, read_all_cycle_counter_chkpts.
  split; intros Hn; [rewrite !for_classes_spec by done | rewrite !for_classes_oob by done]; done.
Qed.

Lemma class_loops_in_bounds_witness :
  is_ok (increment_cycle_counters (example_tb 0 zero_classes) example_state) = true.
Proof.
  apply (class_loops_in_bounds example_state (example_tb 0 zero_classes) zero_cycles);
    [apply example_fresh | apply example_fresh | reflexivity | reflexivity | vm_compute; discriminate].
Defined.
