(* ===== verification/VarMod.v ===== *)
(** * VarMod: the memory-mapped variability modules (hw/variability_module.c, hw/stellaris.c)

    The guest reads the counters and the energy through 32-bit registers, the
    lower half of a 64-bit value at its offset and the upper half four bytes up.
    Each read first computes the figures into uninitialised locals, [locals] here,
    and then picks the register. *)

From S2P Require Import Prelude QDict QObject InsnMap Variability PowerModel Energy.
Local Open Scope Z_scope.

(** The uninitialised structs of a register read. *)
Record locals := mkLocals {
  l_cy : cycle_counter;
  l_active : energy_counter;
  l_sleep : energy_counter;
  l_prev : energy_counter;          (* the local of calculate_active_energy *)
}.

Definition locals_ok (g : locals) : Prop :=
  length (cycle_count (l_cy g)) = 6%nat ∧ length (insn_energy (l_active g)) = 6%nat ∧
  length (insn_energy (l_prev g)) = 6%nat.

(** ** varmod *)

Definition varmod_reset (s : var_state) : res var_state := reset_all_cycle_counters s.

(** [class_energy_sum] of the registers 0x28 and 0x2c. *)
Definition class_energy_sum (n : Z) (a : list Z) : res Z :=
  for_upto n (λ i acc, x ← aread a i; Ok (u64 (acc + x))) 0.

Definition varmod_read (pm : option PowerModel) (g : locals) (s : var_state) (offset : Z) : res Z :=
  active ← calculate_active_energy pm (l_prev g) s (l_active g);
  let sleep := calculate_sleep_energy pm s (l_sleep g) in
  cy ← read_all_cycle_counters s (l_cy g);
  match offset with
  | 0x00 => Ok (u32 (data_proc_cycles cy))
  | 0x04 => Ok (u32 (Z.shiftr (data_proc_cycles cy) 32))
  | 0x08 => Ok (u32 (branch_cycles cy))
  | 0x0c => Ok (u32 (Z.shiftr (branch_cycles cy) 32))
  | 0x10 => Ok (u32 (multiply_cycles cy))
  | 0x14 => Ok (u32 (Z.shiftr (multiply_cycles cy) 32))
  | 0x18 => Ok (u32 (ldst_cycles cy))
  | 0x1c => Ok (u32 (Z.shiftr (ldst_cycles cy) 32))
  | 0x20 => Ok (u32 (misc_cycles cy))
  | 0x24 => Ok (u32 (Z.shiftr (misc_cycles cy) 32))
  | 0x28 =>
      class_sum ← class_energy_sum (total_insn_classes s) (insn_energy active);
      Ok (u32 (u64 (class_sum + data_proc_energy active + branch_energy active +
                    multiply_energy active + ldst_energy active + misc_energy active)))
  | 0x2c =>
      class_sum ← class_energy_sum (total_insn_classes s) (insn_energy active);
      Ok (u32 (Z.shiftr (u64 (class_sum + data_proc_energy active + branch_energy active +
                              multiply_energy active + ldst_energy active + misc_energy active)) 32))
  | 0x68 => Ok (u32 (sleep_energy sleep))
  | 0x6c => Ok (u32 (Z.shiftr (sleep_energy sleep) 32))
  | 0x70 => Ok (if errors_activated s then 1 else 0)
  | _ => Ok 0
  end.

Definition with_errors_activated (s : var_state) (b : bool) : var_state :=
  mkVar (insns s) (total_insn_classes s) (total s) (prev s) (chkpt s) (started_sleep_count s)
    (sleep_start_time s) (slept s) (class_info s) (error_info_memory s) (error_info_regs s)
    (error_pc_enabled s) (error_icount_enabled s) (error_pc_info s) (error_icount_info s)
    b (current_frequency s).

Definition error_activate_deactivate (val : bool) (s : var_state) : var_state := with_errors_activated s val.

Definition varmod_write (offset value : Z) (s : var_state) : var_state :=
  match offset with
  | 0x70 => with_errors_activated s (negb (Z.land value 1 =? 0))
  | _ => s
  end.

(** [varmod_init]: the counters are reset and the power model installed. *)
Definition varmod_init (g1 g2 : cycle_counter) (s : var_state) : res (var_state * option PowerModel) :=
  s ← varmod_reset s; Ok (s, power_init g1 g2).

(** ** The Stellaris module: no energy registers, no writes *)

Definition stellaris_var_mod_reset (s : var_state) : res var_state := reset_all_cycle_counters s.

Definition stellaris_var_mod_read (pm : option PowerModel) (g : locals) (s : var_state) (offset : Z) : res Z :=
  _ ← calculate_active_energy pm (l_prev g) s (l_active g);
  let _sleep := calculate_sleep_energy pm s (l_sleep g) in
  cy ← read_all_cycle_counters s (l_cy g);
  match offset with
  | 0x00 => Ok (u32 (data_proc_cycles cy))
  | 0x04 => Ok (u32 (Z.shiftr (data_proc_cycles cy) 32))
  | 0x08 => Ok (u32 (branch_cycles cy))
  | 0x0c => Ok (u32 (Z.shiftr (branch_cycles cy) 32))
  | 0x10 => Ok (u32 (multiply_cycles cy))
  | 0x14 => Ok (u32 (Z.shiftr (multiply_cycles cy) 32))
  | 0x18 => Ok (u32 (ldst_cycles cy))
  | 0x1c => Ok (u32 (Z.shiftr (ldst_cycles cy) 32))
  | 0x20 => Ok (u32 (misc_cycles cy))
  | 0x24 => Ok (u32 (Z.shiftr (misc_cycles cy) 32))
  | _ => Ok 0
  end.

Definition stellaris_var_mod_write (offset value : Z) (s : var_state) : var_state := s.

Definition stellaris_var_mod_init (g1 g2 : cycle_counter) (s : var_state)
  : res (var_state * option PowerModel) :=
  s ← stellaris_var_mod_reset s; Ok (s, power_init g1 g2).

(** ** Lemmas *)

(** The value put together from a pair of registers. *)
Definition read64 (read : Z → res Z) (offset : Z) : res Z :=
  lo ← read offset; hi ← read (offset + 4); Ok (lo + 2 ^ 32 * hi).

Lemma read64_halves read offset v :
  is_u64 v → read offset = Ok (u32 v) → read (offset + 4) = Ok (u32 (Z.shiftr v 32)) →
  read64 read offset = Ok v.
Proof. intros Hv H1 H2. unfold read64. rewrite H1, H2. simpl. by rewrite u64_halves. Qed.

Fixpoint sum_first (n : nat) (f : nat → Z) : Z :=
  match n with O => 0 | S n => sum_first n f + f n end.

Lemma sum_first_ext n f g : (∀ i, (i < n)%nat → f i = g i) → sum_first n f = sum_first n g.
Proof.
  induction n as [|n IH]; intros H; simpl; [done|]. by rewrite IH, (H n) by (intros; apply H || lia; lia).
Qed.

Lemma class_energy_sum_ok n a :
  n <= MAX_INSN_CLASSES → length a = 6%nat →
  class_energy_sum n a = Ok (u64 (sum_first (Z.to_nat n) (λ i, a !!! i))).
Proof.
  unfold MAX_INSN_CLASSES. intros Hn Ha. unfold class_energy_sum.
  change 0 with (u64 (sum_first 0 (λ i, a !!! i))).
  apply (for_upto_spec _ (λ j, u64 (sum_first j (λ i, a !!! i)))). intros j Hj.
  rewrite (aread_nat a j (a !!! j)) by (apply list_lookup_lookup_total_lt; lia). simpl.
  by rewrite u64_add_l.
Qed.

Lemma reset_ok s :
  total_insn_classes s <= MAX_INSN_CLASSES → length (cycle_count (total s)) = 6%nat →
  reset_all_cycle_counters s =
  Ok (with_total s (mkCycles 0 0 0 0 0
        (overwrite (Z.to_nat (total_insn_classes s)) (λ _, 0) (cycle_count (total s))))).
Proof.
  unfold MAX_INSN_CLASSES. intros Hn Hl. unfold reset_all_cycle_counters.
  rewrite <- (overwrite_0 (λ _, 0) (cycle_count (total s))) at 1.
  rewrite (for_upto_spec _ (λ j, overwrite j (λ _, 0) (cycle_count (total s)))); [done|].
  intros j Hj. rewrite awrite_nat by (rewrite overwrite_length; lia).
  f_equal. apply (overwrite_S j (λ _, 0)). lia.
Qed.

Lemma reset_zero s :
  0 <= total_insn_classes s <= MAX_INSN_CLASSES → total s = zero_cycles →
  reset_all_cycle_counters s = Ok (with_total s zero_cycles).
Proof.
  intros Hn Ht. rewrite reset_ok; [|lia|by rewrite Ht]. rewrite Ht. cbn [cycle_count zero_cycles].
  assert (overwrite (Z.to_nat (total_insn_classes s)) (λ _, 0) zero_classes = zero_classes) as ->; [|done].
  unfold MAX_INSN_CLASSES in Hn. apply list_eq. intros i. rewrite overwrite_lookup by (simpl; lia).
  case_decide; [|done]. rewrite list_lookup_lookup_total_lt by (simpl; lia).
  by rewrite zero_class_at by lia.
Qed.
Lemma reset_fresh s : fresh s → ∃ s', reset_all_cycle_counters s = Ok s' ∧ fresh s' ∧
  total_insn_classes s' = total_insn_classes s ∧ current_frequency s' = current_frequency s.
Proof.
  intros [Hwf Ht Hp Hc Hst Hsl]. eexists. split; [by apply reset_zero; [apply Hwf|]|].
  split; [|done]. split; try done. apply with_total_wf; [done|]. rewrite <- Ht. apply Hwf.
Qed.

(** Every well-formed state matches the meters it would have come from. *)
Definition canonical (unit : Z → Z) (s : var_state) : accounts :=
  let r := unit (current_frequency s) in
  mkAccounts
    (λ k, mkMeter (energy_of k (prev s)) (cycles_of k (total s) - cycles_of k (chkpt s)) r)
    (λ i, mkMeter (insn_energy (prev s) !!! i) (cycle_count (total s) !!! i - cycle_count (chkpt s) !!! i) r)
    (if started_sleep_count s then Some (sleep_start_time s) else None) (slept s).

Lemma canonical_matched unit s : var_wf s → matched unit s (canonical unit s).
Proof.
  intros Hs. pose proof Hs as [_ Hn _ (Hk & _ & Ha) _ Hsl]. split.
  - intros k. split_and!; [|done..]. symmetry. by apply u64_small, Hk.
  - intros i Hi. split_and!; [|done..]. symmetry. apply u64_small, arr_ok_at; [done|].
    unfold MAX_INSN_CLASSES in Hn. lia.
  - cbn. by destruct (started_sleep_count s).
  - symmetry. by apply u64_small.
Qed.

(** The registers of the five counters, and what the energy register adds up. *)
Definition kind_offset (k : insn_kind) : Z :=
  match k with DataProc => 0x00 | Branch => 0x08 | Multiply => 0x10 | Ldst => 0x18 | Misc => 0x20 end.

Definition dynamic_energy (n : Z) (e : energy_counter) : Z :=
  u64 (sum_first (Z.to_nat n) (λ i, insn_energy e !!! i) + data_proc_energy e + branch_energy e +
       multiply_energy e + ldst_energy e + misc_energy e).

Definition varmod_offsets : list Z :=
  [0x00; 0x04; 0x08; 0x0c; 0x10; 0x14; 0x18; 0x1c; 0x20; 0x24; 0x28; 0x2c; 0x68; 0x6c; 0x70].

Section reads.
Context (pm : PowerModel) (unit : Z → Z) `{!PowerModelLaws pm unit}.
Variables (s : var_state) (g : locals).
Hypothesis Hs : var_wf s.
Hypothesis Hg : locals_ok g.

Lemma active_ok : ∃ e, calculate_active_energy (Some pm) (l_prev g) s (l_active g) = Ok e ∧
  length (insn_energy e) = 6%nat.
Proof.
  destruct Hg as (_ & H1 & H2).
  destruct (active_reading pm unit _ s _ _ Hs (canonical_matched unit s Hs) H2 H1) as (e & He & _ & _ & Hl & _).
  eauto.
Qed.

Lemma varmod_read_kind k : read64 (varmod_read (Some pm) g s) (kind_offset k) = Ok (cycles_of k (total s)).
Proof.
  destruct active_ok as (e & He & _). destruct Hg as (H1 & _).
  apply read64_halves; [by apply wf_total|..];
    unfold varmod_read; rewrite He; cbn [mbind res_bind]; rewrite read_counters_ok by done;
    by destruct k.
Qed.

Lemma varmod_read_sleep : read64 (varmod_read (Some pm) g s) 0x68 = Ok (slept s).
Proof.
  destruct active_ok as (e & He & _). destruct Hg as (H1 & _).
  apply read64_halves; [by apply wf_slept|..];
    unfold varmod_read; rewrite He; cbn [mbind res_bind]; rewrite read_counters_ok by done;
    cbn [mbind res_bind Z.add Pos.add Pos.succ]; unfold calculate_sleep_energy; by rewrite sleep_read_law.
Qed.

Lemma varmod_read_energy e :
  calculate_active_energy (Some pm) (l_prev g) s (l_active g) = Ok e → length (insn_energy e) = 6%nat →
  read64 (varmod_read (Some pm) g s) 0x28 = Ok (dynamic_energy (total_insn_classes s) e).
Proof.
  intros He Hl. destruct Hg as (H1 & _). pose proof (wf_classes s Hs).
  assert (u64 (u64 (sum_first (Z.to_nat (total_insn_classes s)) (λ i, insn_energy e !!! i)) +
    data_proc_energy e + branch_energy e + multiply_energy e + ldst_energy e + misc_energy e) =
    dynamic_energy (total_insn_classes s) e) as Hd.
  { unfold dynamic_energy. rewrite <- !Z.add_assoc. apply u64_add_l. }
  apply read64_halves; [apply u64_is_u64|..];
    unfold varmod_read; rewrite He; cbn [mbind res_bind]; rewrite read_counters_ok by done;
    cbn [mbind res_bind Z.add Pos.add Pos.succ]; rewrite class_energy_sum_ok by (lia || done);
    cbn [mbind res_bind]; by rewrite Hd.
Qed.

Lemma varmod_read_other off : off ∉ varmod_offsets → varmod_read (Some pm) g s off = Ok 0.
Proof.
  intros Ho. destruct active_ok as (e & He & _). destruct Hg as (H1 & _).
  unfold varmod_read. rewrite He. cbn [mbind res_bind]. rewrite read_counters_ok by done.
  cbn [mbind res_bind].
  assert (∀ z, z ∈ varmod_offsets → off ≠ z) as Hne by (intros z Hz ->; done). clear Ho He.
  destruct off as [|p|p]; try done.
  { by destruct (Hne 0); [left|]. }
  do 7 (try (destruct p as [p|p|]; try done)); exfalso; eapply Hne; try reflexivity; set_solver.
Qed.
End reads.

(** What the guest reads from the variability module, for any lawful power
    model and whatever the locals of the read held: each pair of 32-bit registers
    gives the 64-bit value it stands for (the five cycle counters at 0x00 to 0x24,
    the dynamic energy at 0x28, the sleep energy at 0x68), and every offset
    without a register reads as zero. *)
Theorem varmod_registers (pm : PowerModel) (unit : Z → Z) (s : var_state) (g : locals) :
  PowerModelLaws pm unit → var_wf s → locals_ok g →
  (∀ k, read64 (varmod_read (Some pm) g s) (kind_offset k) = Ok (cycles_of k (total s))) ∧
  (∃ e, calculate_active_energy (Some pm) (l_prev g) s (l_active g) = Ok e ∧
        read64 (varmod_read (Some pm) g s) 0x28 = Ok (dynamic_energy (total_insn_classes s) e)) ∧
  read64 (varmod_read (Some pm) g s) 0x68 = Ok (slept s) ∧
  (∀ off, off ∉ varmod_offsets → varmod_read (Some pm) g s off = Ok 0).
Proof.
  intros Hpm Hs Hg. split_and!.
  - intros k. by eapply varmod_read_kind.
  - destruct (active_ok pm unit s g Hs Hg) as (e & He & Hl). exists e. split; [done|].
    by eapply varmod_read_energy.
  - by eapply varmod_read_sleep.
  - intros off. by eapply varmod_read_other.
Qed.

Definition example_locals : locals := mkLocals zero_cycles zero_energy zero_energy zero_energy.

Definition example_running : var_state :=
  mkVar insn_memory_init 1 (mkCycles (2 ^ 32 + 5) 0 0 0 0 [7; 0; 0; 0; 0; 0]) zero_energy zero_cycles
    false 0 (2 ^ 40) None None None false false (0, 0) (0, 0) false DEFAULT_FREQUENCY.

Lemma example_running_wf : var_wf example_running.
Proof.
  destruct var_init_wf. split; [done|cbn; unfold MAX_INSN_CLASSES; lia| |done|done|cbn; unfold is_u64; lia].
  split; [intros []; cbn; unfold is_u64; lia|]. split; [done|].
  repeat constructor; unfold is_u64; lia.
Qed.

Lemma varmod_registers_witness :
  read64 (varmod_read (power_init zero_cycles zero_cycles) example_locals example_running) 0x00
    = Ok (2 ^ 32 + 5) ∧
  read64 (varmod_read (power_init zero_cycles zero_cycles) example_locals example_running) 0x68
    = Ok (2 ^ 40).
Proof.
  destruct (varmod_registers (first_pwr_model zero_cycles zero_cycles) (λ _, 1) example_running example_locals
    (first_pwr_model_laws zero_cycles zero_cycles eq_refl eq_refl) example_running_wf
    (conj eq_refl (conj eq_refl eq_refl))) as (Hk & _ & Hsl & _).
  split; [exact (Hk DataProc) | exact Hsl].
Defined.

(** *** The whole path: initialisation, execution, register read *)

Definition all_kinds : list insn_kind := [DataProc; Branch; Multiply; Ldst; Misc].

(** The cycles a run adds to everything the energy register covers. *)
Definition executed_cycles (n : Z) (evs : list var_event) : Z :=
  sum_first (Z.to_nat n) (λ i, sum_amounts (class_amount i) evs) +
  foldr (λ k acc, sum_amounts (kind_amount k) evs + acc) 0 all_kinds.

Lemma sum_first_u64 n f : u64 (sum_first n (λ i, u64 (f i))) = u64 (sum_first n f).
Proof.
  induction n as [|n IH]; simpl; [done|]. by rewrite u64_add_r, <- u64_add_l, IH, u64_add_l.
Qed.

Lemma u64_mid a b c : u64 (a + u64 b + c) = u64 (a + (b + c)).
Proof.
  replace (a + u64 b + c) with (a + c + u64 b) by lia. rewrite u64_add_r. f_equal. lia.
Qed.

(** [C15]: on a board with the varmod device (which has no frequency change), after
    [varmod_init] and any run, the guest reads at 0x28 the number of cycles
    executed so far in all legacy counters and configured classes, modulo 2^64:
    the energy register neither loses nor invents cycles. *)
Theorem guest_reads_executed_cycles (s : var_state) (evs : list var_event) (g1 g2 : cycle_counter) (g : locals) :
  fresh s → Forall event_ok evs → Forall (λ ev, is_freq ev = false) evs →
  length (cycle_count g1) = 6%nat → length (cycle_count g2) = 6%nat → locals_ok g →
  ∃ s0 s' pm, varmod_init g1 g2 s = Ok (s0, pm) ∧ var_run pm evs s0 = Ok s' ∧
    read64 (varmod_read pm g s') 0x28 = Ok (u64 (executed_cycles (total_insn_classes s) evs)).
Proof.
  intros Hf Hev Hno H1 H2 Hg. pose proof (first_pwr_model_laws g1 g2 H1 H2) as Hpm.
  destruct (reset_fresh s Hf) as (s0 & Hr & Hf0 & Hn0 & Hfr).
  destruct (run_matched _ _ evs s0 _ (fresh_wf s0 Hf0) (fresh_matched (λ _, 1) s0 Hf0) Hev)
    as (s' & Hrun & Hwf & Hn & Hm).
  destruct (active_reading _ _ (l_prev g) s' _ (l_active g) Hwf Hm) as (e & He & Hk & Hc & Hl & _);
    [apply Hg..|].
  exists s0, s', (Some (first_pwr_model g1 g2)). unfold varmod_init, varmod_reset. rewrite Hr.
  split; [done|]. split; [done|].
  rewrite (varmod_read_energy _ s' g Hwf Hg e He Hl). f_equal. unfold dynamic_energy, executed_cycles.
  assert (∀ k, energy_of k e = u64 (sum_amounts (kind_amount k) evs)) as Hk'.
  { intros k. rewrite Hk. unfold reading. destruct (kind_sum k evs (accounts_init 1)) as [-> Hs]; [done|].
    rewrite Z.mul_1_l, Hs. done. }
  rewrite <- Hn0, <- Hn.
  rewrite (sum_first_ext _ _ (λ i, u64 (sum_amounts (class_amount i) evs))).
  2: { intros i Hi. rewrite Hc by lia. rewrite class_ticks by done. unfold reading, tick. cbn.
       by rewrite Z.mul_1_l. }
  pose proof (Hk' DataProc) as E1. pose proof (Hk' Branch) as E2. pose proof (Hk' Multiply) as E3.
  pose proof (Hk' Ldst) as E4. pose proof (Hk' Misc) as E5. cbn [energy_of] in *.
  rewrite E1, E2, E3, E4, E5, u64_add_r, !u64_mid, <- u64_add_l, sum_first_u64, u64_add_l.
  f_equal. cbn [foldr all_kinds]. lia.
Qed.

Lemma guest_reads_executed_cycles_witness :
  ∃ s0 s' pm, varmod_init zero_cycles zero_cycles example_state = Ok (s0, pm) ∧
    var_run pm [Execute (example_tb 3 [5; 0; 0; 0; 0; 0]); SleepStart 1; SleepStop 5; Replaced 1 4] s0 = Ok s' ∧
    read64 (varmod_read pm example_locals s') 0x28 = Ok 12.
Proof.
  exact (guest_reads_executed_cycles example_state
    [Execute (example_tb 3 [5; 0; 0; 0; 0; 0]); SleepStart 1; SleepStop 5; Replaced 1 4]
    zero_cycles zero_cycles example_locals example_fresh
    ltac:(repeat constructor; discriminate) ltac:(by repeat constructor) eq_refl eq_refl
    (conj eq_refl (conj eq_refl eq_refl))).
Defined.

(** The error switch: after the guest writes [v] to 0x70 it reads back the
    lowest bit of [v], a write to any other offset changes nothing, and neither
    changes a counter or an energy figure. *)
Theorem varmod_error_switch (pm : PowerModel) (unit : Z → Z) (s : var_state) (g : locals) (off v : Z) :
  PowerModelLaws pm unit → var_wf s → locals_ok g →
  varmod_read (Some pm) g (varmod_write 0x70 v s) 0x70 = Ok (Z.land v 1) ∧
  (off ≠ 0x70 → varmod_write off v s = s) ∧
  (∀ k, read64 (varmod_read (Some pm) g (varmod_write off v s)) (kind_offset k) = Ok (cycles_of k (total s))).
Proof.
  intros Hpm Hs Hg.
  assert (∀ off, var_wf (varmod_write off v s) ∧ total (varmod_write off v s) = total s) as Hw.
  { intros o. unfold varmod_write. destruct Hs.
    destruct o as [|p|p]; try done. do 7 (try (destruct p as [p|p|]; try done)). }
  split_and!.
  - destruct (Hw 0x70) as [Hw1 _]. destruct (active_ok pm unit _ g Hw1 Hg) as (e & He & _).
    unfold varmod_read. rewrite He. cbn [mbind res_bind]. destruct Hg as (H1 & _).
    rewrite read_counters_ok by done. cbn [mbind res_bind]. f_equal.
    cbn [varmod_write with_errors_activated errors_activated].
    pose proof (Z.land_ones v 1 ltac:(lia)) as Hl. change (Z.ones 1) with 1 in Hl. rewrite Hl.
    pose proof (Z.mod_pos_bound v (2 ^ 1) ltac:(lia)) as Hb. change (2 ^ 1) with 2 in *.
    destruct (Z.eqb_spec (v mod 2) 0) as [-> | Hne]; [done|]. simpl. lia.
  - intros Ho. unfold varmod_write. destruct off as [|p|p]; try done. do 7 (try (destruct p as [p|p|]; try done)).
  - intros k. destruct (Hw off) as [Hw1 Hw2]. rewrite <- Hw2. by eapply varmod_read_kind.
Qed.

Lemma varmod_error_switch_witness :
  varmod_read (power_init zero_cycles zero_cycles) example_locals (varmod_write 0x70 3 example_running) 0x70 = Ok 1.
Proof.
  exact (proj1 (varmod_error_switch (first_pwr_model zero_cycles zero_cycles) (λ _, 1) example_running
    example_locals 0 3 (first_pwr_model_laws zero_cycles zero_cycles eq_refl eq_refl) example_running_wf
    (conj eq_refl (conj eq_refl eq_refl)))).
Defined.

(** The Stellaris module serves the five counters exactly as the generic
    one does, and zero everywhere else: its energy registers do not exist. *)
Theorem stellaris_serves_counters (pm : PowerModel) (unit : Z → Z) (s : var_state) (g : locals) :
  PowerModelLaws pm unit → var_wf s → locals_ok g →
  (∀ off, 0 <= off < 0x28 → stellaris_var_mod_read (Some pm) g s off = varmod_read (Some pm) g s off) ∧
  (∀ off, 0x28 <= off → stellaris_var_mod_read (Some pm) g s off = Ok 0).
Proof.
  intros Hpm Hs Hg. destruct (active_ok pm unit s g Hs Hg) as (e & He & _). destruct Hg as (H1 & _).
  unfold stellaris_var_mod_read, varmod_read. rewrite He. cbn [mbind res_bind].
  rewrite read_counters_ok by done. cbn [mbind res_bind].
  split; intros off Ho; destruct off as [|p|p]; try done; try lia;
    do 7 (try (destruct p as [p|p|]; try done; try lia)).
Qed.

Lemma stellaris_serves_counters_witness :
  stellaris_var_mod_read (power_init zero_cycles zero_cycles) example_locals example_running 0x28 = Ok 0.
Proof.
  apply (stellaris_serves_counters (first_pwr_model zero_cycles zero_cycles) (λ _, 1) example_running
    example_locals (first_pwr_model_laws zero_cycles zero_cycles eq_refl eq_refl) example_running_wf
    (conj eq_refl (conj eq_refl eq_refl))). vm_compute. discriminate.
Defined.
