(* ===== verification/ErrorModel.v ===== *)
(** * ErrorModel: the register error model (error_model.c)

    [error_model] runs before an instruction of unprivileged code when the guest
    has switched errors on.  It collects the input registers of the instruction
    from the arguments the translator recorded, and would clear a bit of a
    register that the configuration declares stuck at zero.

    What it prints is left out. *)

From S2P Require Import Prelude QDict QObject InsnMap Variability.
Local Open Scope Z_scope.

Definition BLX_imm : Z := 9.
Definition BLX_reg : Z := 10.
Definition BX : Z := 11.
Definition B : Z := 59.

Definition REG_READ_ERROR : Z := 1.
Definition STUCK_AT_ZERO : Z := 1.

Definition regnames : list bytes :=
  [bs "r0"; bs "r1"; bs "r2"; bs "r3"; bs "r4"; bs "r5"; bs "r6"; bs "r7";
   bs "r8"; bs "r9"; bs "r10"; bs "r11"; bs "r12"; bs "r13"; bs "r14"; bs "pc"].

Definition isinsnbranch (insn : Z) : bool :=
  (insn =? BLX_imm) || (insn =? BLX_reg) || (insn =? BX) || (insn =? B).

(** The input registers: [int32_t input_regs[4] = {-1}] sets the first cell to -1
    and the other three to 0; the register arguments of a non-branch follow. *)
Definition collect_input_regs (args : list Z) : res (list Z) :=
  let collect i (st : list Z * Z) :=
    let '(regs, k) := st in
    t ← aread args i;
    if t =? 0 then v ← aread args (i + 1); regs ← awrite regs k v; Ok (regs, k + 1)
    else Ok (regs, k) in
  st ← collect 2 ([-1; 0; 0; 0], 0);
  st ← collect 4 st;
  '(regs, _) ← collect 6 st;
  Ok regs.

Definition input_regs_of (tb : TranslationBlock) : res (list Z) :=
  if isinsnbranch (insn_under_exec tb) then Ok [-1; 0; 0; 0] else collect_input_regs (tb_args tb).

(** The do-while loop over the configured registers: the dictionary it ends on. *)
Fixpoint find_reg_info (entries : list QObject) (reg : bytes) : res (QDict QObject) :=
  match entries with
  | [] => Err Null_deref
  | obj :: rest =>
      qdict ← deref (qobject_to_qdict obj);
      if negb (qdict_haskey qdict (bs "reg_name")) then Err (Exit 1) else
      name ← qdict_get_str qdict (bs "reg_name");
      if streq reg name then Ok qdict
      else match rest with [] => Ok qdict | _ => find_reg_info rest reg end
  end.

(** [env->regs[r] &= ~(1 << bitno)] *)
Definition clear_bit (regs : list Z) (r bitno : Z) : res (list Z) :=
  if (0 <=? bitno) && (bitno <? 32) then
    v ← aread regs r; awrite regs r (Z.ldiff v (2 ^ bitno))
  else Err Bad_shift.

(** The do-while loop over "extra_info", whose condition is inverted: it goes on
    while there is no entry. *)
Fixpoint clear_extra (entries : list QObject) (r : Z) (regs : list Z) : res (list Z) :=
  match entries with
  | [] => Ok regs
  | v :: rest =>
      bitno ← deref (qobject_to_qint v);
      regs ← clear_bit regs r bitno;
      match rest with [] => clear_extra rest r regs | _ => Ok regs end
  end.

(** One round of the loop over the four input registers. *)
Definition apply_reg_error (info : list QObject) (input_regs : list Z) (i : Z) (regs : list Z)
  : res (list Z) :=
  r ← aread input_regs i;
  reg ← aread regnames r;
  qdict ← find_reg_info info reg;
  name ← qdict_get_str qdict (bs "reg_name");
  if streq reg name then
    error_type ← qdict_get_int qdict (bs "error_type");
    if error_type =? STUCK_AT_ZERO + REG_READ_ERROR * 10 then
      extra ← qdict_get_qlist qdict (bs "extra_info");
      clear_extra extra r regs
    else Ok regs
  else Ok regs.

(** [error_model]: the call count, the registers and the index of the replaced
    instruction.  [regs] are the sixteen registers of the CPU. *)
Definition error_model (s : var_state) (tb : TranslationBlock) (count_exec : Z) (regs : list Z)
  : res (Z * list Z * Z) :=
  let count_exec := u8 (count_exec + 1) in
  arr ← insn_map (insns s);
  _ ← aread arr (insn_under_exec tb);
  input_regs ← input_regs_of tb;
  regs ← match error_info_regs s with
         | Some info =>
             if qlist_empty info then for_upto 4 (apply_reg_error info input_regs) regs else Ok regs
         | None => Ok regs
         end;
  Ok (count_exec, regs, -1).

(** ** Lemmas *)

Lemma collect_input_regs_ok args :
  length args = 8%nat → ∃ regs, collect_input_regs args = Ok regs ∧ length regs = 4%nat.
Proof.
  intros H. destruct args as [|a0 [|a1 [|a2 [|a3 [|a4 [|a5 [|a6 [|a7 [|]]]]]]]]]; try discriminate H.
  destruct a2, a4, a6; (eexists; split; [vm_compute; reflexivity | reflexivity]).
Qed.

Lemma input_regs_ok tb :
  length (tb_args tb) = 8%nat → ∃ regs, input_regs_of tb = Ok regs ∧ length regs = 4%nat.
Proof.
  intros H. unfold input_regs_of. destruct (isinsnbranch _); [eauto|]. by apply collect_input_regs_ok.
Qed.

(** The instruction numbers of the source are those of the table. *)
Lemma branch_numbers :
  map (λ i, instruction <$> arm_instructions !! Z.to_nat i) [BLX_imm; BLX_reg; BX; B] =
  [Some (bs "BLX_imm"); Some (bs "BLX_reg"); Some (bs "BX"); Some (bs "B")].
Proof. reflexivity. Qed.

(** A translated block of an instruction of the table. *)
Definition tb_valid (tb : TranslationBlock) : Prop :=
  0 <= insn_under_exec tb < INSTRUCTIONS_AVAILABLE ∧ length (tb_args tb) = 8%nat.

Lemma error_model_prefix s tb count regs :
  names_ok (insns s) → insn_map_set (insns s) = true → tb_valid tb →
  ∃ input, length input = 4%nat ∧ error_model s tb count regs =
    (regs ← match error_info_regs s with
            | Some info => if qlist_empty info then for_upto 4 (apply_reg_error info input) regs else Ok regs
            | None => Ok regs
            end;
     Ok (u8 (count + 1), regs, -1)).
Proof.
  intros Hn Hset [Hi Ha]. destruct (input_regs_ok tb Ha) as (input & Hin & Hl). exists input. split; [done|].
  unfold error_model, insn_map. rewrite Hset. cbn [mbind res_bind].
  assert (is_Some (arm_insns (insns s) !! Z.to_nat (insn_under_exec tb))) as [e He].
  { apply lookup_lt_is_Some_2. rewrite (names_ok_length _ Hn). unfold INSTRUCTIONS_AVAILABLE in *. lia. }
  assert (aread (arm_insns (insns s)) (insn_under_exec tb) = Ok e) as -> by (apply aread_lookup; split; [lia|done]).
  cbn [mbind res_bind]. by rewrite Hin.
Qed.

(** The condition on the configured registers is inverted: with a
    configuration that names at least one faulty register (or none at all), the
    error model changes no register and replaces no instruction, whatever the
    instruction and the configuration are. *)
Theorem error_model_has_no_effect (s : var_state) (tb : TranslationBlock) (count : Z) (regs : list Z) :
  names_ok (insns s) → insn_map_set (insns s) = true → tb_valid tb → error_info_regs s ≠ Some [] →
  error_model s tb count regs = Ok (u8 (count + 1), regs, -1).
Proof.
  intros Hn Hset Htb Hinfo. destruct (error_model_prefix s tb count regs Hn Hset Htb) as (input & _ & ->).
  destruct (error_info_regs s) as [[|o info]|]; done.
Qed.

Definition stuck_config : list QObject :=
  [QODict (qdict_put_obj (qdict_put_obj (qdict_put_obj qdict_new (bs "reg_name") (QOString (bs "r1")))
     (bs "error_type") (QOInt 11)) (bs "extra_info") (QOList [QOInt 0; QOInt 1]))].

Definition with_error_regs (s : var_state) (l : option (list QObject)) : var_state :=
  mkVar (insns s) (total_insn_classes s) (total s) (prev s) (chkpt s) (started_sleep_count s)
    (sleep_start_time s) (slept s) (class_info s) (error_info_memory s) l
    (error_pc_enabled s) (error_icount_enabled s) (error_pc_info s) (error_icount_info s)
    (errors_activated s) (current_frequency s).

(** ADD r0, r1, r2 *)
Definition add_tb_example : TranslationBlock := mkTB zero_cycles 1 [0; 0; 0; 1; 0; 2; -1; -1].

Lemma error_model_has_no_effect_witness :
  error_model (with_error_regs (with_insns var_init (init_instruction_set_map insn_memory_init)) (Some stuck_config))
    add_tb_example 0 (replicate 16 3) = Ok (1, replicate 16 3, -1).
Proof.
  apply (error_model_has_no_effect
    (with_error_regs (with_insns var_init (init_instruction_set_map insn_memory_init)) (Some stuck_config))
    add_tb_example 0 (replicate 16 3)); [reflexivity | reflexivity | split; [split|]; done | discriminate].
Defined.

(** With an empty list of registers, the one case that reaches the loop, the
    error model always faults: it reads a register name out of bounds or follows
    the missing first entry. *)
Theorem error_model_empty_list_faults (s : var_state) (tb : TranslationBlock) (count : Z) (regs : list Z) :
  names_ok (insns s) → insn_map_set (insns s) = true → tb_valid tb → error_info_regs s = Some [] →
  error_model s tb count regs = Err Out_of_bounds ∨ error_model s tb count regs = Err Null_deref.
Proof.
  intros Hn Hset Htb Hinfo. destruct (error_model_prefix s tb count regs Hn Hset Htb) as (input & Hl & ->).
  rewrite Hinfo. cbn [qlist_empty]. change (for_upto 4 ?b regs) with (r ← b 0 regs; for_from 1 3 b r).
  destruct input as [|r input]; [discriminate Hl|].
  assert (apply_reg_error [] (r :: input) 0 regs = Err Out_of_bounds ∨
          apply_reg_error [] (r :: input) 0 regs = Err Null_deref) as [-> | ->]; [|by left|by right].
  unfold apply_reg_error. change (aread (r :: input) 0) with (Ok r). cbn [mbind res_bind].
  unfold aread. destruct (0 <=? r); [|by left]. destruct (regnames !! Z.to_nat r); [by right | by left].
Qed.

Lemma error_model_empty_list_faults_witness :
  let s := with_error_regs (with_insns var_init (init_instruction_set_map insn_memory_init)) (Some []) in
  error_model s add_tb_example 0 (replicate 16 3) = Err Out_of_bounds ∨
  error_model s add_tb_example 0 (replicate 16 3) = Err Null_deref.
Proof.
  apply (error_model_empty_list_faults
    (with_error_regs (with_insns var_init (init_instruction_set_map insn_memory_init)) (Some []))
    add_tb_example 0 (replicate 16 3)); [reflexivity | reflexivity | split; [split|]; done | reflexivity].
Defined.
