(* ===== verification/CpuExec.v ===== *)
(** * CpuExec: translation, execution and sleep (translate.c, exec.c, cpu-exec.c, op_helper.c, cpu.h)

    The translator reports each instruction of a block to
    [variability_counters_manip], which adds its cycles to the counters of the
    block; executing the block adds the counters of the block to the totals.  The
    blocks live in the array [tbs], whose slots [tb_alloc] hands out again after a
    [tb_flush].  In single-step mode the loop of [cpu_exec] consults the power
    model and the error model before a block.  WFI puts the CPU to sleep, and
    every [cpu_has_work] ends the sleep. *)

From S2P Require Import Prelude QDict QObject InsnMap Variability PowerModel ErrorModel.
Local Open Scope Z_scope.

(** ** Translation *)

Definition MAX_INSTRUCTIONS : Z := Z.shiftl 1 16 - 1.

(** The block after the instruction [name], and its index in the table; the
    difference of a NULL entry and [insn_map] is undefined. *)
Definition variability_counters_manip (s : var_state) (tb : TranslationBlock) (name : bytes)
  : res (TranslationBlock * Z) :=
  if insn_map_set (insns s) then
    p ← get_map_entry (insns s) name;
    tb' ← increment_cycle_counter s (Some tb) p;
    tb ← deref tb';
    i ← match p with Some i => Ok i | None => Err Out_of_bounds end;
    Ok (tb, u16 i)
  else Ok (tb, MAX_INSTRUCTIONS).

Definition no_args (tb : TranslationBlock) : res TranslationBlock :=
  a ← for_upto 8 (λ i a, awrite a i (-1)) (tb_args tb);
  Ok (mkTB (tb_cycles tb) (insn_under_exec tb) a).

(** The translator on an instruction, as far as the extension goes: the arguments
    are cleared and the index of the instruction is kept in the block. *)
Definition translate_insn (s : var_state) (name : bytes) (tb : TranslationBlock) : res TranslationBlock :=
  tb ← no_args tb;
  '(tb, i) ← variability_counters_manip s tb name;
  Ok (mkTB (tb_cycles tb) i (tb_args tb)).

Fixpoint translate_insns (s : var_state) (names : list bytes) (tb : TranslationBlock) : res TranslationBlock :=
  match names with
  | [] => Ok tb
  | name :: names => tb ← translate_insn s name tb; translate_insns s names tb
  end.

(** ** The pool of translation blocks *)

Record tb_slot := mkSlot { slot_pc : Z; slot_cflags : Z; slot_tb : TranslationBlock }.

Record tb_pool := mkPool {
  tbs : list tb_slot;
  nb_tbs : Z;
  code_gen_max_blocks : Z;
  code_gen_used : Z;                (* code_gen_ptr - code_gen_buffer *)
  code_gen_buffer_max_size : Z;
}.

(** The index of the slot, [None] for NULL; the counters in it stay what they were. *)
Definition tb_alloc (pc : Z) (p : tb_pool) : res (tb_pool * option Z) :=
  if (code_gen_max_blocks p <=? nb_tbs p) || (code_gen_buffer_max_size p <=? code_gen_used p) then Ok (p, None)
  else
    slot ← aread (tbs p) (nb_tbs p);
    l ← awrite (tbs p) (nb_tbs p) (mkSlot pc 0 (slot_tb slot));
    Ok (mkPool l (nb_tbs p + 1) (code_gen_max_blocks p) (code_gen_used p) (code_gen_buffer_max_size p),
        Some (nb_tbs p)).

(** [tb_flush], without the lookup caches it also empties. *)
Definition tb_flush (p : tb_pool) : tb_pool :=
  mkPool (tbs p) 0 (code_gen_max_blocks p) 0 (code_gen_buffer_max_size p).

(** ** Privilege and single stepping *)

Definition CPSR_M : Z := 0x1f.
Definition ARM_CPU_MODE_USR : Z := 0x10.
Definition EXCP_HLT : Z := 0x10001.
Definition CPU_INTERRUPT_HARD : Z := 0x0002.
Definition CPU_INTERRUPT_EXITTB : Z := 0x0004.
Definition CPU_INTERRUPT_FIQ : Z := 0x0010.

Record CPUState := mkCPU {
  regs : list Z;
  feature_m : bool;                 (* arm_feature(env, ARM_FEATURE_M) *)
  v7m_exception : Z;
  v7m_control : Z;
  uncached_cpsr : Z;
  interrupt_request : Z;
  halted : Z;
  exception_index : Z;
}.

(** The privilege that goes into the flags of a block ([cpu_get_tb_cpu_state]). *)
Definition tb_flags_privmode (env : CPUState) : bool :=
  if feature_m env then negb ((v7m_exception env =? 0) && truth (Z.land (v7m_control env) 1))
  else negb (Z.land (uncached_cpsr env) CPSR_M =? ARM_CPU_MODE_USR).

(** The privilege the single-step code computes. *)
Definition singlestep_privmode (env : CPUState) : bool :=
  if feature_m env then negb (truth (v7m_exception env) && truth (Z.land (v7m_control env) 1))
  else negb (Z.land (uncached_cpsr env) CPSR_M =? ARM_CPU_MODE_USR).

Definition with_regs (env : CPUState) (r : list Z) : CPUState :=
  mkCPU r (feature_m env) (v7m_exception env) (v7m_control env) (uncached_cpsr env)
    (interrupt_request env) (halted env) (exception_index env).

(** The single-step code before a block, when [singlestep] is set: the registers,
    the call count of the error model and the totals after it, and whether the
    block is skipped ([continue]). *)
Definition singlestep_block (pm : option PowerModel) (tb : TranslationBlock) (count_exec : Z) (env : CPUState)
  (s : var_state) : res (CPUState * Z * var_state * bool) :=
  _ ← match pm with
      | Some pm => insn_power pm s (insn_under_exec tb)
      | None => Ok 0
      end;
  if negb (singlestep_privmode env) && errors_activated s then
    '(count_exec, r, replaced_insn) ← error_model s tb count_exec (regs env);
    let env := with_regs env r in
    if 0 <=? replaced_insn then
      _ ← assertb (insn_map_set (insns s));
      e ← aread (arm_insns (insns s)) replaced_insn;
      s ← increment_class_cycle_counter (instruction_type e) (insn_cycles e) s;
      Ok (env, count_exec, s, true)
    else Ok (env, count_exec, s, false)
  else Ok (env, count_exec, s, false).

(** One round of the execution loop for the block [tb], up to the call of the
    generated code: the variability bookkeeping. *)
Definition exec_block (pm : option PowerModel) (singlestep : bool) (exit_request : bool)
  (tb : TranslationBlock) (count_exec : Z) (env : CPUState) (s : var_state)
  : res (CPUState * Z * var_state) :=
  '(env, count_exec, s, skipped) ←
     (if singlestep then singlestep_block pm tb count_exec env s else Ok (env, count_exec, s, false));
  if skipped : bool then Ok (env, count_exec, s)
  else if exit_request then Ok (env, count_exec, s)
  else s ← increment_cycle_counters tb s; Ok (env, count_exec, s).

(** ** Sleep *)

(** [HELPER(wfi)], which then leaves the execution loop. *)
Definition helper_wfi (pm : option PowerModel) (now : Z) (env : CPUState) (s : var_state)
  : CPUState * var_state :=
  (mkCPU (regs env) (feature_m env) (v7m_exception env) (v7m_control env) (uncached_cpsr env)
     (interrupt_request env) 1 EXCP_HLT,
   start_sleep_cycle_count pm now s).

Definition cpu_has_work (pm : option PowerModel) (now : Z) (env : CPUState) (s : var_state)
  : bool * var_state :=
  (truth (Z.land (interrupt_request env)
            (Z.lor (Z.lor CPU_INTERRUPT_FIQ CPU_INTERRUPT_HARD) CPU_INTERRUPT_EXITTB)),
   stop_sleep_cycle_count pm now s).

(** ** What translation adds to a block *)

(** The entry called [name]. *)
Definition entry_of (m : insn_memory) (name : bytes) : option variability_instruction_set :=
  (list_to_map (map (λ e, (instruction e, e)) (arm_insns m)) : gmap bytes variability_instruction_set)
    !! c_str name.

(** Every class the table uses has a cell in the arrays. *)
Definition types_ok (m : insn_memory) : Prop :=
  Forall (λ e, 1 <= instruction_type e <= MAX_INSN_CLASSES) (arm_insns m).

(** The cycles the instruction [name] adds to the class of index [j]. *)
Definition insn_cost (m : insn_memory) (j : nat) (name : bytes) : Z :=
  match entry_of m name with
  | Some e => if decide (j = Z.to_nat (instruction_type e - 1)) then insn_cycles e else 0
  | None => 0
  end.

Definition block_cost (m : insn_memory) (j : nat) (names : list bytes) : Z :=
  foldr (λ n acc, insn_cost m j n + acc) 0 names.

Lemma entry_of_lookup m name i e :
  names_ok m → arm_insns m !! i = Some e → instruction e = c_str name → entry_of m name = Some e.
Proof.
  intros Hm He Hn. unfold entry_of. rewrite <- Hn.
  assert ((map (λ e, (instruction e, e)) (arm_insns m)).*1 = insn_names) as Hkeys.
  { rewrite <- Hm. rewrite <- list_fmap_compose. done. }
  apply elem_of_list_to_map_1; [rewrite Hkeys; apply insn_names_nodup|].
  apply (list_elem_of_fmap_2 (λ e, (instruction e, e)) (arm_insns m) e). by apply list_elem_of_lookup_2 with i.
Qed.

Lemma table_name m name :
  names_ok m → c_str name ∈ insn_names → ∃ i e, arm_insns m !! i = Some e ∧ instruction e = c_str name.
Proof.
  intros Hm Hn. rewrite <- Hm in Hn. apply list_elem_of_lookup in Hn as [i Hi].
  rewrite list_lookup_fmap in Hi. destruct (arm_insns m !! i) as [e|] eqn:He; [|discriminate].
  exists i, e. split; [done|]. by injection Hi.
Qed.

(** The counters of the block after [name]. *)
Definition add_insn (m : insn_memory) (name : bytes) (c : cycle_counter) : cycle_counter :=
  mkCycles (data_proc_cycles c) (branch_cycles c) (multiply_cycles c) (ldst_cycles c) (misc_cycles c)
    (match entry_of m name with
     | Some e => if insn_cycles e =? 0 then cycle_count c else
         let j := Z.to_nat (instruction_type e - 1) in
         <[j := u64 (cycle_count c !!! j + insn_cycles e)]> (cycle_count c)
     | None => cycle_count c
     end).

Lemma manip_ok s tb name i e :
  names_ok (insns s) → insn_map_set (insns s) = true → types_ok (insns s) →
  arm_insns (insns s) !! i = Some e → instruction e = c_str name →
  length (cycle_count (tb_cycles tb)) = 6%nat →
  variability_counters_manip s tb name =
  Ok (mkTB (add_insn (insns s) name (tb_cycles tb)) (insn_under_exec tb) (tb_args tb), Z.of_nat i).
Proof.
  intros Hm Hset Ht He Hn Hl. unfold variability_counters_manip. rewrite Hset.
  rewrite (get_map_entry_hit _ i e) by done. cbn [mbind res_bind]. unfold increment_cycle_counter.
  rewrite (aread_nat _ i e He). cbn [mbind res_bind]. unfold add_insn. rewrite (entry_of_lookup _ _ i e) by done.
  assert (u16 (Z.of_nat i) = Z.of_nat i) as Hi.
  { pose proof (lookup_lt_Some _ _ _ He) as H. rewrite (names_ok_length _ Hm) in H.
    unfold INSTRUCTIONS_AVAILABLE in H. apply Z.mod_small. lia. }
  destruct (insn_cycles e =? 0).
  - cbn [mbind res_bind deref]. rewrite Hi. by destruct tb as [[] ? ?].
  - unfold types_ok in Ht. rewrite Forall_lookup in Ht. specialize (Ht i e He). unfold MAX_INSN_CLASSES in Ht.
    set (j := Z.to_nat (instruction_type e - 1)). replace (instruction_type e - 1) with (Z.of_nat j) by lia.
    rewrite (aread_nat (cycle_count (tb_cycles tb)) j (cycle_count (tb_cycles tb) !!! j))
      by (apply list_lookup_lookup_total_lt; lia).
    cbn [mbind res_bind]. rewrite awrite_nat by lia. cbn [mbind res_bind deref]. by rewrite Hi.
Qed.

Lemma add_insn_at m name c j :
  types_ok m → cycles_ok c → (j < 6)%nat →
  cycle_count (add_insn m name c) !!! j = u64 (cycle_count c !!! j + insn_cost m j name).
Proof.
  intros Ht Hc Hj. pose proof (cycles_ok_length _ Hc) as Hl. destruct Hc as [_ Ha].
  pose proof (arr_ok_at _ j Ha Hj) as Hu. unfold add_insn, insn_cost. cbn [cycle_count].
  destruct (entry_of m name) as [e|]; [|by rewrite Z.add_0_r, u64_small].
  destruct (Z.eqb_spec (insn_cycles e) 0) as [-> | Hz].
  - case_decide; by rewrite Z.add_0_r, u64_small.
  - case_decide as Hd.
    + rewrite <- Hd. by rewrite list_lookup_total_insert_eq by lia.
    + rewrite list_lookup_total_insert_ne by done. by rewrite Z.add_0_r, u64_small.
Qed.

Lemma add_insn_ok m name c : types_ok m → cycles_ok c → cycles_ok (add_insn m name c).
Proof.
  intros Ht [Hk [Hl Ha]]. split; [by intros k; specialize (Hk k); destruct k|]. unfold add_insn. cbn [cycle_count].
  destruct (entry_of m name) as [e|]; [|done]. destruct (_ =? _); [done|].
  split; [by rewrite length_insert|]. apply Forall_insert; [done | apply u64_is_u64].
Qed.

Lemma no_args_ok tb : length (tb_args tb) = 8%nat →
  no_args tb = Ok (mkTB (tb_cycles tb) (insn_under_exec tb) (replicate 8 (-1))).
Proof.
  intros H. unfold no_args. destruct tb as [c i a]. cbn [tb_args tb_cycles insn_under_exec] in *.
  destruct a as [|a0 [|a1 [|a2 [|a3 [|a4 [|a5 [|a6 [|a7 [|]]]]]]]]]; try discriminate H. reflexivity.
Qed.

Lemma translate_insns_ok s names tb :
  names_ok (insns s) → insn_map_set (insns s) = true → types_ok (insns s) →
  Forall (λ n, c_str n ∈ insn_names) names → cycles_ok (tb_cycles tb) → length (tb_args tb) = 8%nat →
  ∃ tb', translate_insns s names tb = Ok tb' ∧ cycles_ok (tb_cycles tb') ∧ length (tb_args tb') = 8%nat ∧
    (∀ k, cycles_of k (tb_cycles tb') = cycles_of k (tb_cycles tb)) ∧
    (∀ j, (j < 6)%nat → cycle_count (tb_cycles tb') !!! j =
       u64 (cycle_count (tb_cycles tb) !!! j + block_cost (insns s) j names)).
Proof.
  intros Hm Hset Ht H. revert tb. induction H as [|name names Hn H IH]; intros tb Hc Ha; cbn [translate_insns].
  - exists tb. split_and!; try done. intros j Hj. unfold block_cost. simpl. rewrite Z.add_0_r, u64_small; [done|].
    apply arr_ok_at; [by destruct Hc|done].
  - destruct (table_name _ _ Hm Hn) as (i & e & He & Hne). unfold translate_insn. rewrite no_args_ok by done.
    cbn [mbind res_bind]. rewrite (manip_ok s _ name i e) by (done || by apply cycles_ok_length).
    cbn [mbind res_bind tb_cycles tb_args].
    destruct (IH (mkTB (add_insn (insns s) name (tb_cycles tb)) (Z.of_nat i) (replicate 8 (-1))))
      as (tb' & -> & Hc' & Ha' & Hk' & Hj'); [by apply add_insn_ok|done|].
    exists tb'. split_and!; [done|done|done|intros k; rewrite Hk'; by destruct k|].
    intros j Hj. rewrite Hj' by done. cbn [tb_cycles]. rewrite add_insn_at by done.
    rewrite u64_add_l. f_equal. unfold block_cost. simpl. lia.
Qed.

Lemma arm_types_ok b : types_ok (mkInsnMem arm_instructions b).
Proof.
  refine (bool_decide_unpack (Forall (λ e, 1 <= instruction_type e <= MAX_INSN_CLASSES) arm_instructions) _).
  vm_compute. exact I.
Qed.

(** The versatilepb board, no configuration file. *)
Definition versatilepb_insns : insn_memory :=
  mkInsnMem (map (board_entry versatilepb_cycles) arm_instructions) true.
Definition versatilepb_state : var_state := with_insns var_init versatilepb_insns.

Lemma versatilepb_types : types_ok versatilepb_insns.
Proof.
  unfold types_ok, versatilepb_insns. cbn [arm_insns]. apply Forall_fmap. apply (arm_types_ok true).
Qed.
Lemma versatilepb_names : names_ok versatilepb_insns.
Proof. apply (names_ok_map (mkInsnMem arm_instructions true)); [reflexivity | done]. Qed.

Definition empty_tb : TranslationBlock := mkTB zero_cycles 0 (replicate 8 (-1)).

Lemma zero_cycles_ok : cycles_ok zero_cycles.
Proof. split; [by intros []; apply zero_is_u64 | apply zero_classes_ok]. Qed.

(** [C25]: translating a block whose instructions are all in the table never
    faults, and each class counter of the block becomes what the slot held before
    plus the cycles of the block's instructions of that class, modulo 2^64; the
    five legacy counters of the block are not touched. *)
Theorem translation_adds_block_cost (s : var_state) (names : list bytes) (tb : TranslationBlock) :
  names_ok (insns s) → insn_map_set (insns s) = true → types_ok (insns s) →
  Forall (λ n, c_str n ∈ insn_names) names → cycles_ok (tb_cycles tb) → length (tb_args tb) = 8%nat →
  ∃ tb', translate_insns s names tb = Ok tb' ∧
    (∀ k, cycles_of k (tb_cycles tb') = cycles_of k (tb_cycles tb)) ∧
    (∀ j, (j < 6)%nat → cycle_count (tb_cycles tb') !!! j =
       u64 (cycle_count (tb_cycles tb) !!! j + block_cost (insns s) j names)).
Proof.
  intros Hm Hset Ht Hn Hc Ha.
  destruct (translate_insns_ok s names tb Hm Hset Ht Hn Hc Ha) as (tb' & Htr & _ & _ & Hk & Hj). eauto.
Qed.

Definition example_block : list bytes := [bs "ADD_imm"; bs "LDR_reg"; bs "B"; bs "MOV_reg"].

Lemma example_block_known : Forall (λ n, c_str n ∈ insn_names) example_block.
Proof.
  refine (bool_decide_unpack (Forall (λ n, c_str n ∈ insn_names) example_block) _). vm_compute. exact I.
Qed.

Lemma translation_adds_block_cost_witness :
  ∃ tb', translate_insns versatilepb_state example_block empty_tb = Ok tb' ∧
    cycle_count (tb_cycles tb') !!! 0%nat = 4 ∧ cycle_count (tb_cycles tb') !!! 3%nat = 3.
Proof.
  destruct (translation_adds_block_cost versatilepb_state example_block empty_tb versatilepb_names eq_refl
    versatilepb_types example_block_known zero_cycles_ok eq_refl) as (tb' & Htr & _ & Hj).
  exists tb'. split; [exact Htr|]. split.
  - rewrite (Hj 0%nat) by lia. vm_compute. reflexivity.
  - rewrite (Hj 3%nat) by lia. vm_compute. reflexivity.
Defined.

(** No code resets the counters of a slot that is handed out again: after a
    flush the first allocation reuses slot 0, and translating a block into it
    adds to what the former block left there, so that each execution of the new
    block is charged for both. *)
Theorem reused_slot_keeps_counts (p : tb_pool) (pc : Z) (slot : tb_slot) (s : var_state) (names : list bytes) :
  tbs p !! 0%nat = Some slot → 0 < code_gen_max_blocks p → 0 < code_gen_buffer_max_size p →
  names_ok (insns s) → insn_map_set (insns s) = true → types_ok (insns s) →
  Forall (λ n, c_str n ∈ insn_names) names →
  cycles_ok (tb_cycles (slot_tb slot)) → length (tb_args (slot_tb slot)) = 8%nat →
  ∃ p' slot' tb', tb_alloc pc (tb_flush p) = Ok (p', Some 0) ∧ tbs p' !! 0%nat = Some slot' ∧
    translate_insns s names (slot_tb slot') = Ok tb' ∧
    ∀ j, (j < 6)%nat → cycle_count (tb_cycles tb') !!! j =
      u64 (cycle_count (tb_cycles (slot_tb slot)) !!! j + block_cost (insns s) j names).
Proof.
  intros Hslot Hmax Hsz Hm Hset Ht Hn Hc Ha.
  destruct (translate_insns_ok s names (slot_tb slot) Hm Hset Ht Hn Hc Ha) as (tb' & Htr & _ & _ & _ & Hj).
  exists (mkPool (<[0%nat := mkSlot pc 0 (slot_tb slot)]> (tbs p)) 1 (code_gen_max_blocks p) 0
            (code_gen_buffer_max_size p)), (mkSlot pc 0 (slot_tb slot)), tb'.
  assert (0 < length (tbs p))%nat as Hl by by eapply lookup_lt_Some.
  split_and!; [|cbn [tbs]; by rewrite list_lookup_insert_eq|done|done].
  unfold tb_alloc, tb_flush. cbn [nb_tbs code_gen_max_blocks code_gen_used code_gen_buffer_max_size tbs].
  destruct (Z.leb_spec (code_gen_max_blocks p) 0), (Z.leb_spec (code_gen_buffer_max_size p) 0); try lia.
  cbn [orb]. rewrite (aread_nat (tbs p) 0 slot Hslot : aread (tbs p) 0 = _). cbn [mbind res_bind].
  rewrite (awrite_nat (tbs p) 0 (mkSlot pc 0 (slot_tb slot)) Hl : awrite (tbs p) 0 _ = _). done.
Qed.

Definition example_pool : tb_pool :=
  mkPool [mkSlot 0x8000 0 (mkTB (mkCycles 0 0 0 0 0 [4; 3; 0; 3; 0; 0]) 6 (replicate 8 (-1)))] 1 1 64 1024.

Lemma reused_slot_keeps_counts_witness :
  ∃ p' slot' tb', tb_alloc 0x9000 (tb_flush example_pool) = Ok (p', Some 0) ∧ tbs p' !! 0%nat = Some slot' ∧
    translate_insns versatilepb_state example_block (slot_tb slot') = Ok tb' ∧
    cycle_count (tb_cycles tb') !!! 0%nat = 8.
Proof.
  destruct (reused_slot_keeps_counts example_pool 0x9000
    (mkSlot 0x8000 0 (mkTB (mkCycles 0 0 0 0 0 [4; 3; 0; 3; 0; 0]) 6 (replicate 8 (-1))))
    versatilepb_state example_block) as (p' & slot' & tb' & H1 & H2 & H3 & H4).
  - reflexivity.
  - reflexivity.
  - reflexivity.
  - exact versatilepb_names.
  - reflexivity.
  - exact versatilepb_types.
  - exact example_block_known.
  - split; [intros []; vm_compute; split; congruence|]. split; [reflexivity|].
    repeat (apply List.Forall_cons; [vm_compute; split; congruence|]). apply List.Forall_nil.
  - reflexivity.
  - exists p', slot', tb'. split; [exact H1|]. split; [exact H2|]. split; [exact H3|].
    rewrite (H4 0%nat) by lia. vm_compute. reflexivity.
Defined.

(** ** Privilege *)

(** The single-step code and the flags of a block agree on the privilege of
    an A-profile core, and on an M-profile core exactly when bit 0 of CONTROL is
    clear: the single-step code tests [v7m.exception] without the comparison with
    zero, so that it takes unprivileged thread code for privileged and handlers
    for unprivileged. *)
Theorem singlestep_privilege (env : CPUState) :
  singlestep_privmode env = tb_flags_privmode env ↔
  (feature_m env = false ∨ Z.testbit (v7m_control env) 0 = false).
Proof.
  unfold singlestep_privmode, tb_flags_privmode, truth.
  assert ((Z.land (v7m_control env) 1 =? 0) = negb (Z.testbit (v7m_control env) 0)) as ->.
  { pose proof (Z.land_ones (v7m_control env) 1 ltac:(lia)) as Hl. change (Z.ones 1) with 1 in Hl. rewrite Hl.
    change (2 ^ 1) with 2. rewrite Z.bit0_odd, Zmod_odd. by destruct (Z.odd (v7m_control env)). }
  destruct (feature_m env), (v7m_exception env =? 0), (Z.testbit (v7m_control env) 0); naive_solver.
Qed.

(** ** Execution *)

(** While errors are switched off, single stepping is transparent: a round of the
    execution loop leaves the same registers and totals as without it, the totals
    advanced by the counters of the block. *)
Theorem singlestep_transparent (s : var_state) (env : CPUState) (tb : TranslationBlock) (count : Z)
  (exit_request : bool) (g1 g2 : cycle_counter) :
  var_wf s → insn_map_set (insns s) = true → tb_valid tb → errors_activated s = false →
  length (cycle_count (tb_cycles tb)) = 6%nat →
  ∃ s', exec_block (power_init g1 g2) true exit_request tb count env s = Ok (env, count, s') ∧
    exec_block (power_init g1 g2) false exit_request tb count env s = Ok (env, count, s') ∧
    (if exit_request then s' = s else increment_cycle_counters tb s = Ok s').
Proof.
  intros Hs Hset Htb Hoff Hl. pose proof (wf_names s Hs) as Hn.
  assert (singlestep_block (power_init g1 g2) tb count env s = Ok (env, count, s, false)) as Hss.
  { unfold singlestep_block, power_init. cbn [insn_power first_pwr_model]. unfold serve_insn_power, insn_map.
    rewrite Hset. cbn [mbind res_bind].
    assert (is_Some (arm_insns (insns s) !! Z.to_nat (insn_under_exec tb))) as [e He].
    { destruct Htb as [Hi _]. apply lookup_lt_is_Some_2. rewrite (names_ok_length _ Hn).
      unfold INSTRUCTIONS_AVAILABLE in *. lia. }
    assert (aread (arm_insns (insns s)) (insn_under_exec tb) = Ok e) as ->
      by (apply aread_lookup; split; [destruct Htb; lia|done]).
    cbn [mbind res_bind]. by rewrite Hoff, andb_false_r. }
  unfold exec_block. rewrite Hss. cbn [mbind res_bind].
  destruct exit_request; [by exists s|].
  rewrite increment_counters_ok by done. cbn [mbind res_bind]. eauto.
Qed.

(** ** Sleep *)

(** The CPU is asked for work at the given times. *)
Fixpoint poll (pm : option PowerModel) (times : list Z) (env : CPUState) (s : var_state) : var_state :=
  match times with
  | [] => s
  | t :: times => poll pm times env (cpu_has_work pm t env s).2
  end.

Lemma poll_awake pm times env s : started_sleep_count s = false → poll pm times env s = s.
Proof.
  intros H. induction times as [|t times IH]; simpl; [done|]. unfold stop_sleep_cycle_count. by rewrite H.
Qed.

(** A WFI at [t0] counts as sleep only up to the first time the CPU is asked
    for work, at [t1], even when there is none and the CPU stays halted: later
    polls, however many and whenever, add nothing. *)
Theorem sleep_ends_at_first_poll (pm : PowerModel) (unit : Z → Z) (t0 t1 : Z) (times : list Z)
  (env : CPUState) (s : var_state) :
  PowerModelLaws pm unit →
  let '(env1, s1) := helper_wfi (Some pm) t0 env s in
  let s2 := poll (Some pm) (t1 :: times) env1 s1 in
  slept s2 = u64 (slept s + (t1 - t0)) ∧ halted env1 = 1 ∧ exception_index env1 = EXCP_HLT ∧
  started_sleep_count s2 = false.
Proof.
  intros Hpm. unfold helper_wfi. cbn [poll cpu_has_work snd].
  unfold start_sleep_cycle_count. rewrite sleep_start_law. unfold stop_sleep_cycle_count.
  cbn [with_sleep started_sleep_count sleep_start_time]. rewrite sleep_stop_law, poll_awake by done.
  split_and!; try done. cbn. by rewrite u64_add_r.
Qed.

Lemma sleep_ends_at_first_poll_witness :
  let env := mkCPU (replicate 16 0) true 0 0 0 0 0 (-1) in
  slept (poll (power_init zero_cycles zero_cycles) [150; 1000; 2000]
    (helper_wfi (power_init zero_cycles zero_cycles) 100 env var_init).1
    (helper_wfi (power_init zero_cycles zero_cycles) 100 env var_init).2) = 50.
Proof.
  exact (proj1 (sleep_ends_at_first_poll (first_pwr_model zero_cycles zero_cycles) (λ _, 1) 100 150 [1000; 2000]
    (mkCPU (replicate 16 0) true 0 0 0 0 0 (-1)) var_init
    (first_pwr_model_laws zero_cycles zero_cycles eq_refl eq_refl))).
Defined.
