(* ===== verification/VarConfig.v ===== *)
(** * VarConfig: the variability configuration file (vl.c, qemu-variability.c)

    The file has one JSON object per line.  The first line declares the
    instruction classes; each other line marks instructions as erroneous, sets a
    window of program counters or instruction counts, lists register or memory
    errors, or puts instructions into classes.

    [FILE] keeps what stdio keeps of an input file: the bytes that are left and
    the end-of-file flag, which [fgets] sets when it runs into the end.  [line] is
    the [char line[2000]] buffer; its uninitialised contents are a parameter. *)

From S2P Require Import Prelude LibC QDict QObject JsonLexer JsonStreamer JsonParser QJson JsonText JsonRoundTrip JsonSafety InsnMap.
From S2P Require Import Variability Energy.
Local Open Scope Z_scope.

(** ** stdio *)

Record FILE := mkFile { unread : bytes; eof : bool }.

(** The characters [fgets] takes, [n] at most, and whether it ran into the end. *)
Fixpoint fgets_chars (n : nat) (rest : bytes) : bytes * bytes * bool :=
  match n with
  | O => ([], rest, false)
  | S n =>
      match rest with
      | [] => ([], [], true)
      | c :: rest =>
          if decide (c = x0a) then ([c], rest, false)
          else let '(l, rest, e) := fgets_chars n rest in (c :: l, rest, e)
      end
  end.

(** At the end of the file nothing is read and the buffer stays as it is. *)
Definition fgets (size : nat) (line : bytes) (fp : FILE) : bytes * FILE :=
  let '(l, rest, e) := fgets_chars (size - 1) (unread fp) in
  match l with
  | [] => (line, mkFile rest (eof fp || e))
  | _ => (l ++ [x00] ++ drop (length l + 1) line, mkFile rest (eof fp || e))
  end.

(** ** State updates *)

Definition with_class_info (s : var_state) (d : QDict QObject) (n : Z) : var_state :=
  mkVar (insns s) n (total s) (prev s) (chkpt s) (started_sleep_count s)
    (sleep_start_time s) (slept s) (Some d) (error_info_memory s) (error_info_regs s)
    (error_pc_enabled s) (error_icount_enabled s) (error_pc_info s) (error_icount_info s)
    (errors_activated s) (current_frequency s).

Definition class_info_init (d : QDict QObject) (s : var_state) : var_state :=
  with_class_info s d (u8 (qdict_size d)).

Definition get_class_info_ptr (s : var_state) : option (QDict QObject) := class_info s.

Definition error_init_pc (start_pc end_pc : Z) (s : var_state) : res var_state :=
  _ ← assertb ((0 <? start_pc) && (0 <? end_pc));
  _ ← assertb (start_pc <? end_pc);
  Ok (mkVar (insns s) (total_insn_classes s) (total s) (prev s) (chkpt s) (started_sleep_count s)
        (sleep_start_time s) (slept s) (class_info s) (error_info_memory s) (error_info_regs s)
        true (error_icount_enabled s) (start_pc, end_pc) (error_icount_info s)
        (errors_activated s) (current_frequency s)).

Definition error_init_icount (start_icount end_icount : Z) (s : var_state) : res var_state :=
  _ ← assertb ((0 <? start_icount) && (0 <? end_icount));
  _ ← assertb (start_icount <? end_icount);
  Ok (mkVar (insns s) (total_insn_classes s) (total s) (prev s) (chkpt s) (started_sleep_count s)
        (sleep_start_time s) (slept s) (class_info s) (error_info_memory s) (error_info_regs s)
        (error_pc_enabled s) true (error_pc_info s) (start_icount, end_icount)
        (errors_activated s) (current_frequency s)).

Definition error_regs_init (l : option (list QObject)) (s : var_state) : var_state :=
  mkVar (insns s) (total_insn_classes s) (total s) (prev s) (chkpt s) (started_sleep_count s)
    (sleep_start_time s) (slept s) (class_info s) (error_info_memory s) l
    (error_pc_enabled s) (error_icount_enabled s) (error_pc_info s) (error_icount_info s)
    (errors_activated s) (current_frequency s).

Definition mem_error_init (l : option (list QObject)) (s : var_state) : var_state :=
  mkVar (insns s) (total_insn_classes s) (total s) (prev s) (chkpt s) (started_sleep_count s)
    (sleep_start_time s) (slept s) (class_info s) l (error_info_regs s)
    (error_pc_enabled s) (error_icount_enabled s) (error_pc_info s) (error_icount_info s)
    (errors_activated s) (current_frequency s).

(** ** Classes and error flags of instructions *)

(** The entries from [qdict_first] on, by [qdict_next]. *)
Definition entry_list (d : QDict QObject) : list (bytes * QObject) :=
  qdict_walk (length (qdict_entries d)) d (qdict_first d).

(** The do-while loop over [class_info]: the idx it ends with. *)
Fixpoint find_class (entries : list (bytes * QObject)) (class_idx : bytes) : res Z :=
  match entries with
  | [] => Ok (-1)
  | (_, temp) :: entries =>
      pdict ← deref (qobject_to_qdict temp);
      idx ← qdict_get_int pdict (bs "idx");
      str ← qdict_get_str pdict (bs "class_name");
      if streq str class_idx then Ok idx else find_class entries class_idx
  end.

Definition update_insn_class_info (class_idx insn : bytes) (s : var_state) : res var_state :=
  d ← match class_info s with Some d => Ok d | None => Err Assert_failed end;
  _ ← deref (qdict_first d);
  idx ← find_class (entry_list d) class_idx;
  _ ← assertb (insn_map_set (insns s));
  if idx =? -1 then Ok s
  else m ← map_entry_update (set_type idx) insn (insns s); Ok (with_insns s m).

Definition update_insn_error_info (boolstr insn : bytes) (s : var_state) : res var_state :=
  m ← map_entry_update (set_errorneous (streq boolstr (bs "y"))) insn (insns s); Ok (with_insns s m).

(** ** Lines *)

(** The inner loop over a list of instruction names. *)
Fixpoint for_names (l : list QObject) (f : bytes → var_state → res var_state) (s : var_state) : res var_state :=
  match l with
  | [] => Ok s
  | v :: l => insn ← deref (qobject_to_qstring v); s ← f (c_str insn) s; for_names l f s
  end.

Fixpoint for_entries (entries : list (bytes * QObject)) (f : bytes → bytes → var_state → res var_state)
  (s : var_state) : res var_state :=
  match entries with
  | [] => Ok s
  | (key, v) :: entries =>
      insn_list ← deref (qobject_to_qlist v);
      s ← for_names insn_list (f key) s;
      for_entries entries f s
  end.

(** The do-while loop over the entries of a line, which must have one. *)
Definition each_entry (d : QDict QObject) (f : bytes → bytes → var_state → res var_state) (s : var_state)
  : res var_state :=
  _ ← deref (qdict_first d); for_entries (entry_list d) f s.

(** A line after the first, read as [qdict]. *)
Definition config_dict (d : QDict QObject) (s : var_state) : res var_state :=
  let has key := qdict_haskey d (bs key) in
  if has "y"%string then each_entry d update_insn_error_info s
  else if has "start_pc"%string && has "end_pc"%string then
    a ← qdict_get_int d (bs "start_pc"); b ← qdict_get_int d (bs "end_pc");
    error_init_pc (s32 a) (s32 b) s
  else if has "start_icount"%string && has "end_icount"%string then
    a ← qdict_get_int d (bs "start_icount"); b ← qdict_get_int d (bs "end_icount");
    error_init_icount (s32 a) (s32 b) s
  else if has "error_regs"%string then
    e ← deref (qdict_first d); Ok (error_regs_init (qobject_to_qlist (qdict_entry_value e)) s)
  else if has "mem_errors"%string then
    e ← deref (qdict_first d); Ok (mem_error_init (qobject_to_qlist (qdict_entry_value e)) s)
  else each_entry d update_insn_class_info s.

Definition config_line (line : bytes) (s : var_state) : res var_state :=
  obj ← qobject_from_json line;
  match obj with
  | None => Ok s
  | Some obj => d ← deref (qobject_to_qdict obj); config_dict d s
  end.

(** The loop [while (!feof(fp))]; each round reads a character or sets the flag. *)
Fixpoint config_loop (fuel : nat) (line : bytes) (fp : FILE) (s : var_state) : res var_state :=
  match fuel with
  | O => Err Out_of_fuel
  | S fuel =>
      if eof fp then Ok s else
      let '(line, fp) := fgets 2000 line fp in
      s ← config_line line s;
      config_loop fuel line fp s
  end.

(** [None]: the file could not be opened. *)
Definition parse_variability_file (garbage : bytes) (contents : option bytes) (s : var_state) : res var_state :=
  match contents with
  | None => Err (Exit 0)
  | Some contents =>
      let '(line, fp) := fgets 2000 garbage (mkFile contents false) in
      qobj ← qobject_from_json line;
      obj ← deref qobj;
      match obj with
      | QODict d =>
          _ ← assertb (0 <? qdict_size d);
          config_loop (S (S (length contents))) line fp (class_info_init d s)
      | _ => Err Assert_failed
      end
  end.

(** The option "-variability file", which also switches single stepping on. *)
Definition option_variability (garbage : bytes) (contents : option bytes) (s : var_state)
  : res (var_state * bool) :=
  s ← parse_variability_file garbage contents (with_insns s (init_instruction_set_map (insns s)));
  Ok (s, true).

(** ** Frame: what the configuration leaves alone *)

Record frame (s s' : var_state) : Prop := mkFrame {
  frame_total : total s' = total s;
  frame_prev : prev s' = prev s;
  frame_chkpt : chkpt s' = chkpt s;
  frame_started : started_sleep_count s' = started_sleep_count s;
  frame_start_time : sleep_start_time s' = sleep_start_time s;
  frame_slept : slept s' = slept s;
  frame_frequency : current_frequency s' = current_frequency s;
  frame_classes : total_insn_classes s' = total_insn_classes s;
  frame_set : insn_map_set (insns s') = insn_map_set (insns s);
  frame_names : names_ok (insns s) → names_ok (insns s');
}.

#[global] Instance frame_preorder : PreOrder frame.
Proof.
  split; [intros s; by split|].
  intros s1 s2 s3 [] []. split; try congruence. auto.
Qed.

(** The operation leaves the frame alone when it returns. *)
Definition framed (s : var_state) (r : res var_state) : Prop := ∀ s', r = Ok s' → frame s s'.

Lemma framed_ok s : framed s (Ok s).
Proof. by intros s' [= <-]. Qed.
Lemma framed_bind {A} s (m : res A) f : (∀ a, m = Ok a → framed s (f a)) → framed s (m ≫= f).
Proof. intros H s' Hs. apply bind_Ok in Hs as (a & Ha & Hs). by eapply H. Qed.
Lemma framed_seq s m f : framed s m → (∀ s1, framed s1 (f s1)) → framed s (m ≫= f).
Proof. intros Hm Hf. apply framed_bind. intros s1 H1 s' Hs. etransitivity; [by apply Hm | by eapply Hf]. Qed.

Lemma framed_update s f name :
  keeps_name f → framed s (m ← map_entry_update f name (insns s); Ok (with_insns s m)).
Proof.
  intros Hf s' Hs. apply bind_Ok in Hs as (m & Hm & [= <-]). split; try done; cbn.
  - destruct (insn_map_set (insns s)) eqn:E.
    + unfold map_entry_update in Hm. inv_bind. by simpl.
    + unfold map_entry_update, get_map_entry, insn_map in Hm. by rewrite E in Hm.
  - intros Hn. by eapply map_entry_update_names.
Qed.

Lemma update_error_framed b insn s : framed s (update_insn_error_info b insn s).
Proof. apply framed_update. by intros []. Qed.

Lemma update_class_framed c insn s : framed s (update_insn_class_info c insn s).
Proof.
  unfold update_insn_class_info. do 4 (apply framed_bind; intros ? _).
  destruct (_ =? _); [apply framed_ok|]. apply framed_update. by intros [].
Qed.

Lemma for_names_framed l f s : (∀ n s, framed s (f n s)) → framed s (for_names l f s).
Proof.
  intros Hf. revert s. induction l as [|v l IH]; intros s; simpl; [apply framed_ok|].
  apply framed_bind. intros n _. by apply framed_seq.
Qed.

Lemma for_entries_framed l f s : (∀ k n s, framed s (f k n s)) → framed s (for_entries l f s).
Proof.
  intros Hf. revert s. induction l as [|[k v] l IH]; intros s; simpl; [apply framed_ok|].
  apply framed_bind. intros n _. apply framed_seq; [by apply for_names_framed | done].
Qed.

Lemma config_dict_framed d s : framed s (config_dict d s).
Proof.
  unfold config_dict, each_entry, error_init_pc, error_init_icount.
  repeat match goal with |- framed _ (if ?b then _ else _) => destruct b end;
    repeat (apply framed_bind; intros ? _);
    try (apply for_entries_framed; intros; apply update_error_framed || apply update_class_framed);
    intros s' [= <-]; by split.
Qed.

Lemma config_line_framed line s : framed s (config_line line s).
Proof.
  unfold config_line. apply framed_bind. intros [obj|] _; [|apply framed_ok].
  apply framed_bind. intros d _. apply config_dict_framed.
Qed.

Lemma config_loop_framed fuel line fp s : framed s (config_loop fuel line fp s).
Proof.
  revert line fp s. induction fuel as [|fuel IH]; intros line fp s; cbn [config_loop]; [by intros s'|].
  destruct (eof fp); [apply framed_ok|]. destruct (fgets 2000 line fp) as [line' fp'].
  apply framed_seq; [apply config_line_framed | intros; apply IH].
Qed.

(** ** Termination *)

Definition ends {A} (r : res A) : Prop := r ≠ Err Out_of_fuel.

Lemma ends_bind {A B} (m : res A) (f : A → res B) : ends m → (∀ a, ends (f a)) → ends (m ≫= f).
Proof. unfold ends. intros Hm Hf. destruct m; simpl; [done | by intros [= ->]]. Qed.
Lemma ends_ok {A} (a : A) : ends (Ok a).
Proof. done. Qed.
Lemma ends_deref {A} (p : option A) : ends (deref p).
Proof. by destruct p. Qed.
Lemma ends_assertb b : ends (assertb b).
Proof. by destruct b. Qed.
Lemma ends_aread {A} (l : list A) i : ends (aread l i).
Proof. unfold aread. destruct (_ <=? _)%Z; [|done]. by destruct (_ !! _). Qed.
Lemma ends_awrite {A} (l : list A) i a : ends (awrite l i a).
Proof. unfold awrite. by destruct (_ && _). Qed.
#[export] Hint Resolve ends_ok ends_deref ends_assertb ends_aread ends_awrite : varsim.

(** Binds, conditionals and the primitives above. *)
Ltac solve_ends :=
  repeat match goal with
  | |- ∀ _, _ => intros
  | |- ends (_ ≫= _) => apply ends_bind
  | |- ends (if ?b then _ else _) => destruct b
  | |- ends (match ?x with _ => _ end) => destruct x
  | |- ends (Err _) => discriminate
  end; auto with varsim.

Lemma ends_find_insn arr name i n : ends (find_insn arr name i n).
Proof. revert i. induction n as [|n IH]; intros i; simpl; solve_ends. Qed.
#[export] Hint Resolve ends_find_insn : varsim.

Lemma ends_update f name m : ends (map_entry_update f name m).
Proof. unfold map_entry_update, get_map_entry, insn_map. solve_ends. Qed.
#[export] Hint Resolve ends_update : varsim.

Lemma ends_get_obj d key code : ends (qdict_get_obj d key code).
Proof. unfold qdict_get_obj. solve_ends. Qed.
#[export] Hint Resolve ends_get_obj : varsim.

Lemma ends_find_class l c : ends (find_class l c).
Proof.
  induction l as [|[k v] l IH]; simpl; [done|]. unfold qdict_get_int, qdict_get_str. solve_ends.
Qed.
#[export] Hint Resolve ends_find_class : varsim.

Lemma ends_for_names l f s : (∀ n s, ends (f n s)) → ends (for_names l f s).
Proof. intros Hf. revert s. induction l as [|v l IH]; intros s; simpl; solve_ends. Qed.

Lemma ends_for_entries l f s : (∀ k n s, ends (f k n s)) → ends (for_entries l f s).
Proof.
  intros Hf. revert s. induction l as [|[k v] l IH]; intros s; simpl; solve_ends. by apply ends_for_names.
Qed.

Lemma ends_config_dict d s : ends (config_dict d s).
Proof.
  unfold config_dict, each_entry, error_init_pc, error_init_icount, qdict_get_int. solve_ends.
  - apply ends_for_entries. intros. unfold update_insn_error_info. solve_ends.
  - apply ends_for_entries. intros. unfold update_insn_class_info. solve_ends.
Qed.

Lemma ends_config_line line s : ends (config_line line s).
Proof.
  unfold config_line. destruct (qobject_from_json_returns line) as [r ->]. solve_ends. apply ends_config_dict.
Qed.

(** Each [fgets] takes a character or sets the end-of-file flag. *)
Definition file_measure (fp : FILE) : nat := length (unread fp) + (if eof fp then 0 else 1).

Lemma fgets_chars_length n rest l rest' e :
  fgets_chars n rest = (l, rest', e) → (length rest' ≤ length rest)%nat.
Proof.
  revert rest l rest' e. induction n as [|n IH]; intros rest l rest' e; simpl; [by intros [= <- <- <-]|].
  destruct rest as [|c rest]; [by intros [= <- <- <-]|]. case_decide; [intros [= <- <- <-]; simpl; lia|].
  destruct (fgets_chars n rest) as [[l1 r1] e1] eqn:E. intros [= <- <- <-]. apply IH in E. simpl. lia.
Qed.

Lemma fgets_progress n line fp line' fp' :
  eof fp = false → fgets (S (S n)) line fp = (line', fp') → (file_measure fp' < file_measure fp)%nat.
Proof.
  intros He. unfold fgets. replace (S (S n) - 1)%nat with (S n) by lia. destruct fp as [rest e].
  cbn [eof unread] in *. subst e. cbn [fgets_chars]. unfold file_measure. destruct rest as [|c rest].
  - intros [= <- <-]. simpl. lia.
  - case_decide.
    + intros [= <- <-]. simpl. lia.
    + destruct (fgets_chars n rest) as [[l1 r1] e1] eqn:E. apply fgets_chars_length in E.
      intros [= <- <-]. simpl. destruct e1; simpl; lia.
Qed.

Lemma ends_config_loop fuel line fp s :
  (file_measure fp < fuel)%nat → ends (config_loop fuel line fp s).
Proof.
  revert line fp s. induction fuel as [|fuel IH]; intros line fp s Hf; [lia|]. cbn [config_loop].
  destruct (eof fp) eqn:He; [done|]. destruct (fgets 2000 line fp) as [line' fp'] eqn:Hg.
  apply (fgets_progress 1998) in Hg; [|done]. apply ends_bind; [apply ends_config_line|]. intros s1. apply IH. lia.
Qed.

(** [C26]: in a state in which nothing has been counted, reading a configuration file
    terminates whatever the file contains, and when it is accepted no counter or energy, no
    figure of the sleep accounting and no frequency has changed, however many classes it
    declares, and the instruction names are intact; with at most [MAX_INSN_CLASSES] classes
    the new state is again one in which the accounting theorems start. *)
Theorem configuration_keeps_accounting (garbage : bytes) (contents : option bytes) (s : var_state) :
  fresh s →
  parse_variability_file garbage contents s ≠ Err Out_of_fuel ∧
  ∀ s', parse_variability_file garbage contents s = Ok s' →
    total s' = total s ∧ prev s' = prev s ∧ chkpt s' = chkpt s ∧
    started_sleep_count s' = started_sleep_count s ∧ sleep_start_time s' = sleep_start_time s ∧ slept s' = slept s ∧
    current_frequency s' = current_frequency s ∧ names_ok (insns s') ∧
    (total_insn_classes s' <= MAX_INSN_CLASSES → fresh s').
Proof.
  intros Hf. unfold parse_variability_file. destruct contents as [contents|]; [|done].
  destruct (fgets 2000 garbage (mkFile contents false)) as [line fp] eqn:Hg.
  apply (fgets_progress 1998) in Hg; [|done]. unfold file_measure at 2 in Hg. cbn [unread eof] in Hg.
  destruct (qobject_from_json_returns line) as [[obj|] ->]; [|done]. cbn [mbind res_bind deref].
  destruct obj as [| |d| | | |]; try done. split.
  - apply ends_bind; [apply ends_assertb|]. intros _. apply ends_config_loop. lia.
  - intros s' Hs. apply bind_Ok in Hs as (_ & _ & Hs). apply config_loop_framed in Hs.
    destruct Hs as [Ht Hp Hc Hst Hstt Hsl Hfr Hn Hset Hnm]. destruct Hf as [Hwf Ht0 Hp0 Hc0 Hst0 Hsl0].
    unfold class_info_init, with_class_info in *.
    cbn [total prev chkpt insns started_sleep_count slept total_insn_classes] in *. destruct Hwf.
    split_and!; [done..|by apply Hnm|]. intros Hle. split; try congruence.
    assert (0 <= total_insn_classes s') by (rewrite Hn; apply u8_range).
    split; [by apply Hnm | lia | by rewrite Ht | by rewrite Hp | by rewrite Hc | by rewrite Hsl].
Qed.

(** A configuration with two classes, a line of class members, one of erroneous
    instructions, an error window and a faulty register. *)
Definition quoted (s : string) : bytes := [x27] ++ bs s ++ [x27].
Definition example_line1 : bytes :=
  bs "{" ++ quoted "a" ++ bs ": {" ++ quoted "idx" ++ bs ": 1, " ++ quoted "class_name" ++ bs ": " ++
  quoted "fast" ++ bs "}, " ++ quoted "b" ++ bs ": {" ++ quoted "idx" ++ bs ": 2, " ++
  quoted "class_name" ++ bs ": " ++ quoted "slow" ++ bs "}}".
Definition example_line2 : bytes :=
  bs "{" ++ quoted "slow" ++ bs ": [" ++ quoted "MUL" ++ bs ", " ++ quoted "SDIV" ++ bs "], " ++
  quoted "fast" ++ bs ": [" ++ quoted "ADD_reg" ++ bs "]}".
Definition example_line3 : bytes := bs "{" ++ quoted "y" ++ bs ": [" ++ quoted "MUL" ++ bs "]}".

Definition config_text (ls : list bytes) : bytes := concat (map (λ l, l ++ [x0a]) ls).

Definition example_config : bytes := config_text [example_line1; example_line2; example_line3].

Definition configured_start : var_state := with_insns var_init (init_instruction_set_map insn_memory_init).

Lemma configured_start_fresh : fresh configured_start.
Proof. destruct var_init_fresh as [[] ? ? ? ? ?]. split; [|done..]. by split. Qed.

Example example_config_read :
  (s ← parse_variability_file [] (Some example_config) configured_start;
   Ok (total_insn_classes s,
       map (λ i, option_map (λ e, (instruction_type e, errorneous e)) (arm_insns (insns s) !! i))
         [1; 27; 89; 0]%nat)) =
  Ok (2, [Some (1, false); Some (2, true); Some (2, false); Some (1, false)]).
Proof. vm_compute. reflexivity. Qed.

Lemma configuration_keeps_accounting_witness :
  parse_variability_file [] (Some example_config) configured_start ≠ Err Out_of_fuel.
Proof.
  exact (proj1 (configuration_keeps_accounting [] (Some example_config) configured_start configured_start_fresh)).
Defined.

(** ** Which lines are read *)

Definition line_ok (l : bytes) : Prop := (x0a ∉ l) ∧ no_nul l ∧ (length l ≤ 1998)%nat.

Fixpoint run_lines (ls : list bytes) (s : var_state) : res var_state :=
  match ls with
  | [] => Ok s
  | l :: ls => s ← config_line l s; run_lines ls s
  end.

Lemma config_line_c_str a b s : c_str a = c_str b → config_line a s = config_line b s.
Proof.
  intros H. unfold config_line, qobject_from_json, qobject_from_jsonv. by rewrite H.
Qed.

Lemma run_lines_snoc ls a b s : c_str a = c_str b → run_lines (ls ++ [a]) s = run_lines (ls ++ [b]) s.
Proof.
  intros H. revert s. induction ls as [|l ls IH]; intros s; simpl.
  - by rewrite (config_line_c_str a b).
  - destruct (config_line l s); simpl; [apply IH | done].
Qed.

Lemma fgets_chars_line n l rest :
  x0a ∉ l → (length l < n)%nat → fgets_chars n (l ++ x0a :: rest) = (l ++ [x0a], rest, false).
Proof.
  revert n. induction l as [|c l IH]; intros n Hl Hn; (destruct n as [|n]; [simpl in Hn; lia|]); cbn [fgets_chars app].
  - by rewrite decide_True by done.
  - rewrite decide_False by set_solver. rewrite IH by (set_solver || simpl in Hn; lia). done.
Qed.

(** A whole line is read into the buffer. *)
Lemma fgets_line l rest line :
  line_ok l → ∃ b, fgets 2000 line (mkFile (l ++ x0a :: rest) false) = (b, mkFile rest false) ∧
    c_str b = c_str (l ++ [x0a]).
Proof.
  intros (Hnl & Hnn & Hlen). unfold fgets. cbn [unread eof].
  rewrite fgets_chars_line by (done || lia). cbn [orb].
  destruct (l ++ [x0a]) as [|c b] eqn:E; [by destruct l|]. rewrite <- E. clear E.
  eexists. split; [reflexivity|].
  assert (no_nul (l ++ [x0a])) as Hn.
  { unfold no_nul in *. rewrite elem_of_app, list_elem_of_singleton. intros [?|Hx]; [done|discriminate Hx]. }
  rewrite (c_str_no_nul _ Hn). clear Hnl Hlen Hnn.
  generalize (drop (length (l ++ [x0a]) + 1) line). intros junk. induction (l ++ [x0a]) as [|a t IH]; simpl; [done|].
  unfold no_nul in *. rewrite decide_False by set_solver. f_equal. apply IH. set_solver.
Qed.

Lemma fgets_end line : fgets 2000 line (mkFile [] false) = (line, mkFile [] true).
Proof. unfold fgets. cbn [unread eof]. change (2000 - 1)%nat with (S 1998). done. Qed.

Lemma last_default {A} (x : A) l d d' : List.last (x :: l) d = List.last (x :: l) d'.
Proof. revert x. induction l as [|y l IH]; intros x; [done | exact (IH y)]. Qed.

Lemma config_loop_lines ls fuel line s :
  Forall line_ok ls → (length ls + 2 ≤ fuel)%nat →
  config_loop fuel line (mkFile (config_text ls) false) s =
  run_lines (map (λ l, l ++ [x0a]) ls ++ [List.last (map (λ l, l ++ [x0a]) ls) line]) s.
Proof.
  intros H. revert fuel line s. induction H as [|l ls Hl H IH]; intros fuel line s Hf;
    (destruct fuel as [|fuel]; [simpl in Hf; lia|]).
  - cbn [config_loop eof]. unfold config_text. cbn [map concat]. rewrite fgets_end.
    cbn [map app List.last run_lines]. destruct (config_line line s) as [s1|]; [|done].
    cbn [mbind res_bind]. by destruct fuel as [|fuel]; [simpl in Hf; lia|].
  - cbn [config_loop eof]. unfold config_text. cbn [map concat]. rewrite <- app_assoc. cbn [app].
    destruct (fgets_line l (concat (map (λ l, l ++ [x0a]) ls)) line Hl) as (b & -> & Hb).
    cbn [map app run_lines]. rewrite (config_line_c_str b (l ++ [x0a])) by done.
    destruct (config_line (l ++ [x0a]) s) as [s1|]; [|done]. cbn [mbind res_bind].
    fold (config_text ls). rewrite IH by (simpl in Hf; lia). apply run_lines_snoc.
    destruct (map (λ l, l ++ [x0a]) ls) as [|l1 ls1]; [by simpl|].
    change (List.last ((l ++ [x0a]) :: l1 :: ls1) line) with (List.last (l1 :: ls1) line).
    by rewrite (last_default l1 ls1 b line).
Qed.

(** A file of lines that each end in a newline: the first line declares the
    classes, the others are processed in their order, and the last line is
    processed a second time, because the end of the file is only noticed by the
    [fgets] that fails and leaves the buffer as it was.  (A file with the class
    line alone processes that line again, as a line of class members.) *)
Theorem last_line_processed_twice (garbage first : bytes) (ls : list bytes) (s : var_state) :
  line_ok first → Forall line_ok ls →
  let lines := map (λ l, l ++ [x0a]) ls in
  parse_variability_file garbage (Some (config_text (first :: ls))) s =
  (qobj ← qobject_from_json (first ++ [x0a]);
   obj ← deref qobj;
   match obj with
   | QODict d =>
       _ ← assertb (0 <? qdict_size d);
       run_lines (lines ++ [List.last lines (first ++ [x0a])]) (class_info_init d s)
   | _ => Err Assert_failed
   end).
Proof.
  intros Hf Hls lines. unfold parse_variability_file.
  change (config_text (first :: ls)) with ((first ++ [x0a]) ++ config_text ls). rewrite <- app_assoc. cbn [app].
  destruct (fgets_line first (config_text ls) garbage Hf) as (b & -> & Hb).
  assert (qobject_from_json b = qobject_from_json (first ++ [x0a])) as ->.
  { unfold qobject_from_json, qobject_from_jsonv. by rewrite Hb. }
  destruct (qobject_from_json (first ++ [x0a])) as [[obj|]|]; try done. cbn [mbind res_bind deref].
  destruct obj as [| |d| | | |]; try done. destruct (assertb _); [|done]. cbn [mbind res_bind].
  rewrite config_loop_lines; [|done|].
  - subst lines. apply run_lines_snoc. destruct ls as [|l ls]; [done|]. cbn [map].
    by rewrite (last_default (l ++ [x0a]) _ b (first ++ [x0a])).
  - assert (length ls ≤ length (config_text ls))%nat.
    { clear. unfold config_text. induction ls as [|l ls IH]; simpl; [lia|].
      rewrite !length_app. simpl in *. lia. }
    rewrite length_app. simpl. lia.
Qed.

Lemma example_lines_ok : line_ok example_line1 ∧ Forall line_ok [example_line2; example_line3].
Proof.
  assert (∀ l, bool_decide (x0a ∉ l) && bool_decide (x00 ∉ l) && (length l <=? 1998)%nat = true → line_ok l) as H.
  { intros l Hl. apply andb_true_iff in Hl as [[H1 H2]%andb_true_iff H3].
    apply bool_decide_eq_true in H1, H2. apply Nat.leb_le in H3. by split_and!. }
  split; [apply H; vm_compute; reflexivity|].
  repeat (apply List.Forall_cons; [apply H; vm_compute; reflexivity|]). apply List.Forall_nil.
Qed.

Lemma last_line_processed_twice_witness :
  is_ok (parse_variability_file [] (Some example_config) configured_start) = true.
Proof.
  unfold example_config. rewrite (last_line_processed_twice [] example_line1 [example_line2; example_line3] configured_start
    (proj1 example_lines_ok) (proj2 example_lines_ok)).
  vm_compute. reflexivity.
Defined.

(** ** Class members *)

(** What a class dictionary says about a class name. *)
Definition class_entry (v : QObject) (name : bytes) (idx : Z) : Prop :=
  ∃ d, v = QODict d ∧ qdict_get_int d (bs "idx") = Ok idx ∧
    ∃ n, qdict_get_str d (bs "class_name") = Ok n ∧ c_str n = c_str name.

(** A well-formed class declaration: every value has an index and a name, and the
    names differ. *)
Definition classes_ok (d : QDict QObject) : Prop :=
  qdict_wf d ∧
  (∀ k v, (k, v) ∈ qdict_entries d → ∃ name idx, class_entry v name idx) ∧
  (∀ k v k' v' name idx idx', (k, v) ∈ qdict_entries d → (k', v') ∈ qdict_entries d →
     class_entry v name idx → class_entry v' name idx' → idx = idx').

Lemma find_class_hit l k v name idx :
  (∀ k v, (k, v) ∈ l → ∃ name idx, class_entry v name idx) →
  (∀ k v k' v' name idx idx', (k, v) ∈ l → (k', v') ∈ l →
     class_entry v name idx → class_entry v' name idx' → idx = idx') →
  (k, v) ∈ l → class_entry v name idx → find_class l name = Ok idx.
Proof.
  induction l as [|[k1 v1] l IH]; intros Hok Huniq Hin Hv; [set_solver|]. cbn [find_class].
  destruct (Hok k1 v1) as (n1 & i1 & H1); [set_solver|].
  pose proof H1 as (d1 & -> & Hi & n & Hn & Hc). cbn [qobject_to_qdict deref mbind res_bind].
  rewrite Hi. cbn [mbind res_bind]. rewrite Hn. cbn [mbind res_bind]. unfold streq.
  case_bool_decide as Heq.
  - f_equal. apply (Huniq k1 (QODict d1) k v name); [set_solver|done| |done]. exists d1. split_and!; eauto.
  - apply elem_of_cons in Hin as [[= -> ->] | Hin].
    + destruct Hv as (d & [= <-] & _ & n' & Hn' & Hc'). rewrite Hn in Hn'. injection Hn' as <-. congruence.
    + apply IH; [| |done|done].
      * intros k' v' ?. apply (Hok k'). set_solver.
      * intros ka va kb vb nm ia ib ? ?. apply (Huniq ka va kb vb); set_solver.
Qed.

Lemma find_class_miss l name :
  (∀ k v, (k, v) ∈ l → ∃ name idx, class_entry v name idx) →
  (∀ k v idx, (k, v) ∈ l → ¬ class_entry v name idx) → find_class l name = Ok (-1).
Proof.
  induction l as [|[k1 v1] l IH]; intros Hok Hno; [done|]. cbn [find_class].
  destruct (Hok k1 v1) as (n1 & i1 & H1); [set_solver|].
  pose proof H1 as (d1 & -> & Hi & n & Hn & Hc). cbn [qobject_to_qdict deref mbind res_bind].
  rewrite Hi. cbn [mbind res_bind]. rewrite Hn. cbn [mbind res_bind]. unfold streq.
  case_bool_decide as Heq.
  - exfalso. apply (Hno k1 (QODict d1) i1); [set_solver|]. exists d1. split_and!; eauto.
  - apply IH; [intros k v ?; apply (Hok k) | intros k v idx ?; apply (Hno k)]; set_solver.
Qed.

(** Putting an instruction into a class: with a well-formed class
    declaration and a known instruction, exactly the entry of that instruction
    gets the index of the class (cut to eight bits) as its type; an undeclared
    class changes nothing; an unknown instruction of a declared class is a NULL
    dereference. *)
Theorem class_assignment (s : var_state) (d : QDict QObject) (cls insn : bytes) :
  class_info s = Some d → classes_ok d → 0 < qdict_size d →
  names_ok (insns s) → insn_map_set (insns s) = true →
  (∀ k v idx, (k, v) ∈ qdict_entries d → class_entry v cls idx → idx ≠ -1 →
     (c_str insn ∈ insn_names → update_insn_class_info cls insn s =
        Ok (with_insns s (mkInsnMem (map (update_named (set_type idx) insn) (arm_insns (insns s))) true))) ∧
     (c_str insn ∉ insn_names → update_insn_class_info cls insn s = Err Null_deref)) ∧
  ((∀ k v idx, (k, v) ∈ qdict_entries d → ¬ class_entry v cls idx) →
     update_insn_class_info cls insn s = Ok s).
Proof.
  intros Hci (Hwf & Hok & Huniq) Hsz Hn Hset. unfold update_insn_class_info. rewrite Hci. cbn [mbind res_bind].
  assert (entry_list d = qdict_entries d) as -> by (apply qdict_walk_entries; [done|lia]).
  assert (is_Some (qdict_first d)) as [e He].
  { destruct (qdict_first d) as [e|] eqn:E; [eauto|]. exfalso.
    unfold qdict_first, qdict_next_entry in E. rewrite drop_0 in E. apply next_entry_in_None in E.
    unfold qdict_size in Hsz. rewrite qdict_size_map in Hsz by done. unfold qdict_map, qdict_entries in Hsz.
    rewrite E in Hsz. vm_compute in Hsz. discriminate Hsz. }
  rewrite He. cbn [deref mbind res_bind]. rewrite Hset. split.
  - intros k v idx Hin Hv Hi. rewrite (find_class_hit _ k v cls idx) by done. cbn [mbind res_bind assertb].
    destruct (Z.eqb_spec idx (-1)); [done|]. split; intros Hk.
    + by rewrite map_entry_update_spec.
    + by rewrite map_entry_update_unknown.
  - intros Hno. by rewrite find_class_miss.
Qed.

(** The class declaration of the example. *)
Definition example_class (i : Z) (n : bytes) : QObject :=
  QODict (qdict_put_obj (qdict_put_obj qdict_new (bs "idx") (QOInt i)) (bs "class_name") (QOString n)).
Definition example_classes : QDict QObject :=
  qdict_put_obj (qdict_put_obj qdict_new (bs "a") (example_class 1 (bs "fast"))) (bs "b") (example_class 2 (bs "slow")).

Lemma example_class_entry i n name idx :
  no_nul n → class_entry (example_class i n) name idx ↔ idx = i ∧ c_str name = n.
Proof.
  intros Hn. split.
  - intros (d & [= <-] & Hi & m & Hm & Hc). vm_compute in Hi. injection Hi as <-. split; [done|].
    change (Ok (c_str n) = Ok m) in Hm. injection Hm as <-. rewrite <- Hc, !c_str_no_nul; [done|done|].
    by rewrite c_str_no_nul.
  - intros [-> <-]. eexists. split; [reflexivity|]. split; [vm_compute; reflexivity|].
    exists (c_str name). split; [|by rewrite (c_str_no_nul _ (c_str_has_no_nul name))].
    change (Ok (c_str (c_str name)) = Ok (c_str name)). by rewrite (c_str_no_nul _ (c_str_has_no_nul name)).
Qed.

Lemma example_classes_entries :
  qdict_entries example_classes = [(bs "a", example_class 1 (bs "fast")); (bs "b", example_class 2 (bs "slow"))].
Proof. vm_compute. reflexivity. Qed.

Lemma example_no_nul : no_nul (bs "fast") ∧ no_nul (bs "slow").
Proof.
  split; [refine (bool_decide_unpack (x00 ∉ bs "fast") _) | refine (bool_decide_unpack (x00 ∉ bs "slow") _)];
    vm_compute; exact I.
Qed.

Lemma example_classes_ok : classes_ok example_classes.
Proof.
  destruct example_no_nul as [Hf Hs].
  split; [apply qdict_put_wf, qdict_put_wf, qdict_new_wf|]. rewrite example_classes_entries. split.
  - intros k v Hin. rewrite !elem_of_cons, elem_of_nil in Hin.
    destruct Hin as [[= -> ->]|[[= -> ->]|[]]]; eexists _, _; apply example_class_entry; try done;
      (split; [reflexivity | apply c_str_no_nul; done]).
  - intros k v k' v' name idx idx' Hin Hin'. rewrite !elem_of_cons, elem_of_nil in Hin, Hin'.
    destruct Hin as [[= -> ->]|[[= -> ->]|[]]], Hin' as [[= -> ->]|[[= -> ->]|[]]];
      rewrite !example_class_entry by done; intros [-> E1] [-> E2]; try done; rewrite E1 in E2; discriminate E2.
Qed.

Lemma class_assignment_witness :
  update_insn_class_info (bs "slow") (bs "MUL") (class_info_init example_classes configured_start) =
  Ok (with_insns (class_info_init example_classes configured_start)
        (mkInsnMem (map (update_named (set_type 2) (bs "MUL")) arm_instructions) true)).
Proof.
  destruct (class_assignment (class_info_init example_classes configured_start) example_classes (bs "slow")
    (bs "MUL") eq_refl example_classes_ok eq_refl eq_refl eq_refl) as [H _].
  refine (proj1 (H (bs "b") (example_class 2 (bs "slow")) 2 _ _ _) _).
  - rewrite example_classes_entries. right. left.
  - apply example_class_entry; [apply example_no_nul | by split].
  - discriminate.
  - refine (bool_decide_unpack (c_str (bs "MUL") ∈ insn_names) _). vm_compute. exact I.
Defined.

(** The number of declared classes is stored in eight bits and never
    compared with the size of the class arrays: with 7 to 255 classes the
    configuration is accepted and the first executed block writes out of bounds;
    with 256 (or any multiple) no class is counted at all. *)
Theorem class_count_unchecked (d : QDict QObject) (s : var_state) (tb : TranslationBlock) :
  cycles_ok (total s) → length (cycle_count (tb_cycles tb)) = 6%nat →
  (6 < qdict_size d < 256 → increment_cycle_counters tb (class_info_init d s) = Err Out_of_bounds) ∧
  (qdict_size d mod 256 = 0 →
     ∃ s', increment_cycle_counters tb (class_info_init d s) = Ok s' ∧ cycle_count (total s') = cycle_count (total s)).
Proof.
  intros Ht Htb. apply cycles_ok_length in Ht. unfold increment_cycle_counters. split.
  - intros Hd. rewrite for_classes_oob; [done| |done|done].
    cbn. rewrite u8_small by lia. unfold MAX_INSN_CLASSES. lia.
  - intros Hd. assert (total_insn_classes (class_info_init d s) = 0) as -> by (cbn; unfold u8; exact Hd).
    eexists. split; [reflexivity|]. done.
Qed.

Definition seven_classes : QDict QObject :=
  foldr (λ k d, qdict_put_obj d (bs k) (example_class 1 (bs k))) qdict_new
    ["a"; "b"; "c"; "d"; "e"; "f"; "g"]%string.

Lemma class_count_unchecked_witness :
  increment_cycle_counters (mkTB zero_cycles 0 []) (class_info_init seven_classes var_init) = Err Out_of_bounds.
Proof.
  apply (class_count_unchecked seven_classes var_init (mkTB zero_cycles 0 []));
    [apply var_init_wf | reflexivity | vm_compute; split; reflexivity].
Defined.

(** ** Error windows *)












