(* ===== verification/VarMonitor.v ===== *)
(** * VarMonitor: the monitor commands "info cyclecount" and "info energy" (qemu-variability.c)

    Both build their answer with [qobject_from_jsonf], whose "%ld" (PRId64 on a
    64-bit host) takes the figure from the argument list as a signed long. *)

From S2P Require Import Prelude LibC QDict QObject JsonLexer JsonStreamer JsonParser QJson JsonTrace InsnMap.
From S2P Require Import Variability PowerModel Energy.
Local Open Scope Z_scope.

Definition sq (s : string) : bytes := [x27] ++ bs s ++ [x27].

(** The format strings. *)
Definition cycle_fmt (idx : bytes) : bytes :=
  bs " { " ++ sq "instruction_class_idx" ++ bs " : " ++ idx ++ bs " , " ++ sq "cycle_count" ++ bs ": %ld }".
Definition energy_fmt (type : string) : bytes :=
  bs " { " ++ sq "ENERGY_TYPE" ++ bs " : " ++ sq type ++ bs " , " ++ sq "value" ++ bs ": %ld }".

Definition do_info_cyclecount (s : var_state) : res QObject :=
  let t := total s in
  let qdict := qdict_new in
  obj ← qobject_from_jsonf (cycle_fmt (bs "1")) [VLong (data_proc_cycles t)];
  let qdict := qdict_put_obj qdict (bs "1") obj in
  obj ← qobject_from_jsonf (cycle_fmt (bs "2")) [VLong (branch_cycles t)];
  let qdict := qdict_put_obj qdict (bs "2") obj in
  obj ← qobject_from_jsonf (cycle_fmt (bs "3")) [VLong (multiply_cycles t)];
  let qdict := qdict_put_obj qdict (bs "3") obj in
  obj ← qobject_from_jsonf (cycle_fmt (bs "4")) [VLong (ldst_cycles t)];
  let qdict := qdict_put_obj qdict (bs "4") obj in
  obj ← qobject_from_jsonf (cycle_fmt (bs "5")) [VLong (misc_cycles t)];
  let qdict := qdict_put_obj qdict (bs "5") obj in
  Ok (QODict qdict).

(** [garbage] is the uninitialised [struct energy_counter s], [g_prev] the local of
    [calculate_active_energy]. *)
Definition do_info_energy (pm : option PowerModel) (garbage g_prev : energy_counter) (s : var_state) : res QObject :=
  e ← calculate_active_energy pm g_prev s garbage;
  let e := calculate_sleep_energy pm s e in
  let dynamic := u64 (data_proc_energy e + branch_energy e + multiply_energy e + ldst_energy e + misc_energy e) in
  let leakage := sleep_energy e in
  let qdict := qdict_new in
  obj ← qobject_from_jsonf (energy_fmt "DYNAMIC") [VLong dynamic];
  let qdict := qdict_put_obj qdict (bs "1") obj in
  obj ← qobject_from_jsonf (energy_fmt "LEAKAGE") [VLong leakage];
  let qdict := qdict_put_obj qdict (bs "2") obj in
  Ok (QODict qdict).

(** ** Lemmas *)

Definition cycle_obj (idx z : Z) : QObject :=
  QODict (qdict_put_obj (qdict_put_obj qdict_new (bs "instruction_class_idx") (QOInt idx))
            (bs "cycle_count") (QOInt (s64 z))).
Definition energy_obj (type : string) (z : Z) : QObject :=
  QODict (qdict_put_obj (qdict_put_obj qdict_new (bs "ENERGY_TYPE") (QOString (bs type)))
            (bs "value") (QOInt (s64 z))).

(** The messages of the format are computed once; the argument is only looked at
    by the parser. *)
Ltac read_format :=
  unfold qobject_from_jsonf;
  lazymatch goal with
  | |- (_ ← qobject_from_jsonv ?f _; _) = _ =>
      let msgs := fresh "msgs" in let Hm := fresh "Hm" in let H := fresh "H" in
      destruct (jsonv_messages f) as (msgs & Hm & H); rewrite H; clear H;
      vm_compute in Hm; injection Hm as <-
  end; lazy -[s64]; reflexivity.

Lemma cycle_fmt_1 z : qobject_from_jsonf (cycle_fmt (bs "1")) [VLong z] = Ok (cycle_obj 1 z).
Proof. read_format. Qed.
Lemma cycle_fmt_2 z : qobject_from_jsonf (cycle_fmt (bs "2")) [VLong z] = Ok (cycle_obj 2 z).
Proof. read_format. Qed.
Lemma cycle_fmt_3 z : qobject_from_jsonf (cycle_fmt (bs "3")) [VLong z] = Ok (cycle_obj 3 z).
Proof. read_format. Qed.
Lemma cycle_fmt_4 z : qobject_from_jsonf (cycle_fmt (bs "4")) [VLong z] = Ok (cycle_obj 4 z).
Proof. read_format. Qed.
Lemma cycle_fmt_5 z : qobject_from_jsonf (cycle_fmt (bs "5")) [VLong z] = Ok (cycle_obj 5 z).
Proof. read_format. Qed.
Lemma energy_fmt_dynamic z : qobject_from_jsonf (energy_fmt "DYNAMIC") [VLong z] = Ok (energy_obj "DYNAMIC" z).
Proof. read_format. Qed.
Lemma energy_fmt_leakage z : qobject_from_jsonf (energy_fmt "LEAKAGE") [VLong z] = Ok (energy_obj "LEAKAGE" z).
Proof. read_format. Qed.

(** The key of a counter in the answer. *)
Definition kind_key (k : insn_kind) : bytes :=
  match k with DataProc => bs "1" | Branch => bs "2" | Multiply => bs "3" | Ldst => bs "4" | Misc => bs "5" end.
Definition kind_idx (k : insn_kind) : Z :=
  match k with DataProc => 1 | Branch => 2 | Multiply => 3 | Ldst => 4 | Misc => 5 end.

Lemma kind_key_no_nul k : no_nul (kind_key k).
Proof. refine (bool_decide_unpack (x00 ∉ kind_key k) _). destruct k; vm_compute; exact I. Qed.

Lemma cyclecount_answer s :
  ∃ d, do_info_cyclecount s = Ok (QODict d) ∧ qdict_wf d ∧
    ∀ k, qdict_map d !! kind_key k = Some (cycle_obj (kind_idx k) (cycles_of k (total s))).
Proof.
  unfold do_info_cyclecount. rewrite cycle_fmt_1, cycle_fmt_2, cycle_fmt_3, cycle_fmt_4, cycle_fmt_5.
  cbn [mbind res_bind]. eexists. split; [reflexivity|]. split; [auto 8 using qdict_put_wf, qdict_new_wf|].
  intros k. rewrite !qdict_put_map by auto 8 using qdict_put_wf, qdict_new_wf.
  change (c_str (bs "1")) with (bs "1"). change (c_str (bs "2")) with (bs "2").
  change (c_str (bs "3")) with (bs "3"). change (c_str (bs "4")) with (bs "4"). change (c_str (bs "5")) with (bs "5").
  rewrite !lookup_insert.
  destruct k; cbn [kind_key kind_idx cycles_of];
    repeat (rewrite decide_False by discriminate); by rewrite decide_True.
Qed.

(** "info cyclecount" answers, whatever the counters hold, with the five
    legacy counters (as signed 64-bit numbers) and with nothing else: the counters
    by configured class, the only ones the translator increments, do not appear.
    After any run of blocks whose legacy counters are zero, as those the
    translator fills are, every reported figure is zero. *)
Theorem info_cyclecount_reports_legacy (s : var_state) (evs : list var_event) (pm : PowerModel) (unit : Z → Z) :
  PowerModelLaws pm unit → fresh s → Forall event_ok evs → Forall (λ ev, ∀ k, kind_amount k ev = 0) evs →
  ∃ s' d, var_run (Some pm) evs s = Ok s' ∧ do_info_cyclecount s' = Ok (QODict d) ∧
    (∀ k, qdict_get d (kind_key k) = Some (cycle_obj (kind_idx k) (cycles_of k (total s')))) ∧
    (∀ k, cycles_of k (total s') = 0).
Proof.
  intros Hpm Hf Hev Hz.
  destruct (run_matched pm unit evs s _ (fresh_wf s Hf) (fresh_matched unit s Hf) Hev) as (s' & Hr & _ & _ & _).
  destruct (cyclecount_answer s') as (d & Hd & Hwf & Hk). exists s', d. split_and!; [done|done| |].
  - intros k. rewrite qdict_get_map by done. rewrite c_str_no_nul by apply kind_key_no_nul. apply Hk.
  - eapply (legacy_totals_zero pm unit evs s); [apply Hf|exact Hev|exact Hz| |exact Hr].
    intros k. rewrite (fresh_total s Hf). by destruct k.
Qed.

(** Blocks as the translator leaves them: no legacy cycles. *)
Definition class_events : list var_event :=
  [Execute (example_tb 0 [5; 0; 0; 0; 0; 0]); Replaced 1 3; SleepStart 1; SleepStop 4].

Lemma info_cyclecount_reports_legacy_witness :
  ∃ s' d, var_run (power_init zero_cycles zero_cycles) class_events example_state = Ok s' ∧
    do_info_cyclecount s' = Ok (QODict d) ∧ cycles_of DataProc (total s') = 0.
Proof.
  destruct (info_cyclecount_reports_legacy example_state class_events (first_pwr_model zero_cycles zero_cycles) (λ _, 1)
    (first_pwr_model_laws zero_cycles zero_cycles eq_refl eq_refl) example_fresh
    ltac:(repeat constructor; discriminate) ltac:(repeat (constructor; [intros []; reflexivity|]); constructor))
    as (s' & d & Hr & Hd & _ & Hz).
  exists s', d. split; [exact Hr|]. split; [exact Hd | exact (Hz DataProc)].
Defined.

(** "info energy" with a lawful power model answers with the dynamic energy
    (the sum of the five legacy meters, as a signed number) and the time slept,
    whatever its uninitialised struct held.  Without a power model the answer is
    what was in that struct: the leakage figure is the uninitialised field. *)
Theorem info_energy_answer (s : var_state) (a : accounts) (pm : PowerModel) (unit : Z → Z) (g g_prev : energy_counter) :
  PowerModelLaws pm unit → var_wf s → matched unit s a →
  length (insn_energy g) = 6%nat → length (insn_energy g_prev) = 6%nat →
  do_info_energy (Some pm) g g_prev s =
    Ok (QODict (qdict_put_obj (qdict_put_obj qdict_new (bs "1")
      (energy_obj "DYNAMIC" (u64 (reading (kinds a DataProc) + reading (kinds a Branch) + reading (kinds a Multiply) +
                                  reading (kinds a Ldst) + reading (kinds a Misc)))))
      (bs "2") (energy_obj "LEAKAGE" (u64 (time_slept a))))) ∧
  ∃ dyn, do_info_energy None g g_prev s =
    Ok (QODict (qdict_put_obj (qdict_put_obj qdict_new (bs "1") (energy_obj "DYNAMIC" dyn))
      (bs "2") (energy_obj "LEAKAGE" (sleep_energy g)))).
Proof.
  intros Hpm Hs Hm Hg Hgp. unfold do_info_energy. split.
  - destruct (active_reading pm unit g_prev s a g Hs Hm Hgp Hg) as (e & -> & Hk & _ & _ & _).
    cbn [mbind res_bind]. unfold calculate_sleep_energy. rewrite sleep_read_law.
    rewrite energy_fmt_dynamic, energy_fmt_leakage. cbn [mbind res_bind data_proc_energy branch_energy
      multiply_energy ldst_energy misc_energy sleep_energy].
    rewrite <- !Hk. cbn [energy_of]. by rewrite (match_slept _ _ _ Hm).
  - unfold calculate_active_energy. cbn [read_active mbind res_bind]. rewrite read_prev_ok by done.
    cbn [mbind res_bind]. rewrite for_classes_spec;
      [|apply Hs|by apply zip_classes_length; [apply Hs|]|done].
    cbn [mbind res_bind calculate_sleep_energy sleep_energy].
    rewrite energy_fmt_dynamic, energy_fmt_leakage. cbn [mbind res_bind]. eexists. reflexivity.
Qed.

Lemma info_energy_answer_witness :
  do_info_energy (power_init zero_cycles zero_cycles) zero_energy zero_energy example_state =
  Ok (QODict (qdict_put_obj (qdict_put_obj qdict_new (bs "1") (energy_obj "DYNAMIC" 0))
    (bs "2") (energy_obj "LEAKAGE" 0))).
Proof.
  exact (proj1 (info_energy_answer example_state (accounts_init 1) (first_pwr_model zero_cycles zero_cycles) (λ _, 1)
    zero_energy zero_energy (first_pwr_model_laws zero_cycles zero_cycles eq_refl eq_refl) (fresh_wf _ example_fresh)
    (fresh_matched (λ _, 1) _ example_fresh) eq_refl eq_refl)).
Defined.
