(* ===== verification/Pl190.v ===== *)
(** * Pl190: the vectored interrupt controller (hw/pl190.c)

    The controller of the Versatile board between the interrupt sources and the
    CPU.  An operation returns the new state and the calls of [qemu_set_irq] it
    makes, in order: line 0 is the IRQ output, line 1 the FIQ output. *)

From S2P Require Import Prelude.
Local Open Scope Z_scope.

Definition PL190_NUM_PRIO : Z := 17.

Record pl190_state := mkPl190 {
  pl_level : Z;
  soft_level : Z;
  irq_enable : Z;
  fiq_select : Z;
  vect_control : list Z;
  vect_addr : list Z;
  prio_mask : list Z;
  protected : Z;
  priority : Z;
  prev_prio : list Z;
}.

Abbreviation irq_calls := (list (Z * Z)).

Definition pl190_id : list Z := [0x90; 0x11; 0x04; 0x00; 0x0D; 0xf0; 0x05; 0xb1].

Definition pl190_pending (s : pl190_state) : Z := Z.lor (pl_level s) (soft_level s).

Definition pl190_irq_level (s : pl190_state) : Z :=
  Z.ldiff (Z.land (pl190_pending s) (irq_enable s)) (fiq_select s).

Definition pl190_update (s : pl190_state) : res irq_calls :=
  m ← aread (prio_mask s) (priority s);
  Ok [(0, flag (truth (Z.land (pl190_irq_level s) m)));
      (1, flag (truth (Z.land (pl190_pending s) (fiq_select s))))].

Definition pl190_set_level (s : pl190_state) (l : Z) : pl190_state :=
  mkPl190 l (soft_level s) (irq_enable s) (fiq_select s) (vect_control s) (vect_addr s)
    (prio_mask s) (protected s) (priority s) (prev_prio s).
Definition pl190_set_soft (s : pl190_state) (l : Z) : pl190_state :=
  mkPl190 (pl_level s) l (irq_enable s) (fiq_select s) (vect_control s) (vect_addr s)
    (prio_mask s) (protected s) (priority s) (prev_prio s).
Definition pl190_set_enable (s : pl190_state) (l : Z) : pl190_state :=
  mkPl190 (pl_level s) (soft_level s) l (fiq_select s) (vect_control s) (vect_addr s)
    (prio_mask s) (protected s) (priority s) (prev_prio s).
Definition pl190_set_select (s : pl190_state) (l : Z) : pl190_state :=
  mkPl190 (pl_level s) (soft_level s) (irq_enable s) l (vect_control s) (vect_addr s)
    (prio_mask s) (protected s) (priority s) (prev_prio s).
Definition pl190_set_vectors (s : pl190_state) (c a m : list Z) : pl190_state :=
  mkPl190 (pl_level s) (soft_level s) (irq_enable s) (fiq_select s) c a
    m (protected s) (priority s) (prev_prio s).
Definition pl190_set_protected (s : pl190_state) (p : Z) : pl190_state :=
  mkPl190 (pl_level s) (soft_level s) (irq_enable s) (fiq_select s) (vect_control s) (vect_addr s)
    (prio_mask s) p (priority s) (prev_prio s).
Definition pl190_set_prio (s : pl190_state) (p : Z) (l : list Z) : pl190_state :=
  mkPl190 (pl_level s) (soft_level s) (irq_enable s) (fiq_select s) (vect_control s) (vect_addr s)
    (prio_mask s) (protected s) p l.

(** [s] with its outputs driven. *)
Definition pl190_drive (s : pl190_state) : res (pl190_state * irq_calls) :=
  calls ← pl190_update s; Ok (s, calls).

Definition pl190_set_irq (irq level : Z) (s : pl190_state) : res (pl190_state * irq_calls) :=
  b ← bit32 irq;
  pl190_drive (pl190_set_level s
    (if truth level then Z.lor (pl_level s) b else Z.ldiff (pl_level s) b)).

(** The body of the loop over the vectors. *)
Definition update_vector (ctl : list Z) (i : Z) '((mask, pm) : Z * list Z) : res (Z * list Z) :=
  pm ← awrite pm i mask;
  c ← aread ctl i;
  Ok (if truth (Z.land c 0x20) then Z.lor mask (Z.shiftl 1 (Z.land c 0x1f)) else mask, pm).

Definition pl190_update_vectors (s : pl190_state) : res (pl190_state * irq_calls) :=
  '(mask, pm) ← for_upto 16 (update_vector (vect_control s)) (0, prio_mask s);
  pm ← awrite pm 16 mask;
  pl190_drive (pl190_set_vectors s (vect_control s) (vect_addr s) pm).

(** The loop of a VECTADDR read, from level [i] with [n] rounds left. *)
Fixpoint vectaddr_loop (pending : Z) (pm : list Z) (n : nat) (i : Z) : res Z :=
  match n with
  | O => Ok i
  | S n =>
      m ← aread pm i;
      if truth (Z.land pending m) then Ok i else vectaddr_loop pending pm n (i + 1)
  end.

Definition pl190_read_vectaddr (s : pl190_state) : res (Z * pl190_state * irq_calls) :=
  i ← vectaddr_loop (pl190_pending s) (prio_mask s) (Z.to_nat (priority s)) 0;
  if i =? PL190_NUM_PRIO then v ← aread (vect_addr s) 16; Ok (v, s, [])
  else
    '(s, calls) ←
      (if i <? priority s then
         pp ← awrite (prev_prio s) i (priority s);
         pl190_drive (pl190_set_prio s i pp)
       else Ok (s, []));
    v ← aread (vect_addr s) (priority s);
    Ok (v, s, calls).

Definition pl190_read (offset : Z) (s : pl190_state) : res (Z * pl190_state * irq_calls) :=
  let ret (v : res Z) := v ← v; Ok (v, s, []) in
  if (0xfe0 <=? offset) && (offset <? 0x1000) then ret (aread pl190_id (Z.shiftr (offset - 0xfe0) 2))
  else if (0x100 <=? offset) && (offset <? 0x140) then ret (aread (vect_addr s) (Z.shiftr (offset - 0x100) 2))
  else if (0x200 <=? offset) && (offset <? 0x240) then ret (aread (vect_control s) (Z.shiftr (offset - 0x200) 2))
  else match Z.shiftr offset 2 with
  | 0 => ret (Ok (pl190_irq_level s))
  | 1 => ret (Ok (Z.land (pl190_pending s) (fiq_select s)))
  | 2 => ret (Ok (pl190_pending s))
  | 3 => ret (Ok (fiq_select s))
  | 4 => ret (Ok (irq_enable s))
  | 6 => ret (Ok (soft_level s))
  | 8 => ret (Ok (protected s))
  | 12 => pl190_read_vectaddr s
  | 13 => ret (aread (vect_addr s) 16)
  | _ => Err Hw_error
  end.

Definition pl190_write (offset val : Z) (s : pl190_state) : res (pl190_state * irq_calls) :=
  if (0x100 <=? offset) && (offset <? 0x140) then
    a ← awrite (vect_addr s) (Z.shiftr (offset - 0x100) 2) val;
    pl190_update_vectors (pl190_set_vectors s (vect_control s) a (prio_mask s))
  else if (0x200 <=? offset) && (offset <? 0x240) then
    c ← awrite (vect_control s) (Z.shiftr (offset - 0x200) 2) (u8 val);
    pl190_update_vectors (pl190_set_vectors s c (vect_addr s) (prio_mask s))
  else match Z.shiftr offset 2 with
  | 0 => pl190_drive s
  | 3 => pl190_drive (pl190_set_select s val)
  | 4 => pl190_drive (pl190_set_enable s (Z.lor (irq_enable s) val))
  | 5 => pl190_drive (pl190_set_enable s (Z.ldiff (irq_enable s) val))
  | 6 => pl190_drive (pl190_set_soft s (Z.lor (soft_level s) val))
  | 7 => pl190_drive (pl190_set_soft s (Z.ldiff (soft_level s) val))
  | 8 => pl190_drive (pl190_set_protected s (Z.land val 1))
  | 12 =>
      p ← (if priority s <? PL190_NUM_PRIO then aread (prev_prio s) (priority s) else Ok (priority s));
      pl190_drive (pl190_set_prio s p (prev_prio s))
  | 13 =>
      a ← awrite (vect_addr s) 16 val;
      pl190_drive (pl190_set_vectors s (vect_control s) a (prio_mask s))
  | 0xc0 => if truth val then Err Hw_error else pl190_drive s
  | _ => Err Hw_error
  end.

Definition pl190_reset (s : pl190_state) : res (pl190_state * irq_calls) :=
  '(a, c) ← for_upto 16 (λ i '(a, c), a ← awrite a i 0; c ← awrite c i 0; Ok (a, c))
              (vect_addr s, vect_control s);
  a ← awrite a 16 0;
  pm ← awrite (prio_mask s) 17 0xffffffff;
  pl190_update_vectors (pl190_set_prio (pl190_set_vectors s c a pm) PL190_NUM_PRIO (prev_prio s)).

(** The state the device is allocated in. *)
Definition pl190_zero : pl190_state :=
  mkPl190 0 0 0 0 (replicate 16 0) (replicate 17 0) (replicate 18 0) 0 0 (replicate 17 0).
