(* ===== verification/Pl190Facts.v ===== *)
(** * Pl190Facts: the interrupt controller keeps its priorities in order

    The priority levels a guest has entered and not left form a stack threaded
    through [prev_prio].  [pl190_wf st s] says that [st] is that stack and that the
    rest of the state is in order: in particular [prio_mask] is what the vector
    controls say.  Every access keeps it, and drives the outputs from the registers. *)

From S2P Require Import Prelude Pl190.
Local Open Scope Z_scope.

(** ** The masks of the vectors *)

Definition vector_on (c : Z) : bool := truth (Z.land c 0x20).
Definition vector_source (c : Z) : Z := Z.land c 0x1f.
Definition add_vector (mask c : Z) : Z :=
  if vector_on c then Z.lor mask (Z.shiftl 1 (vector_source c)) else mask.
(** The sources of the vectors below [i]. *)
Definition prefix_mask (ctl : list Z) (i : nat) : Z := fold_left add_vector (take i ctl) 0.

Lemma vector_source_range c : 0 <= vector_source c < 32.
Proof. unfold vector_source. change 0x1f with (2 ^ 5 - 1). rewrite land_mod by lia. apply Z.mod_pos_bound. lia. Qed.
Lemma prefix_mask_S ctl i c :
  ctl !! i = Some c → prefix_mask ctl (S i) = add_vector (prefix_mask ctl i) c.
Proof. intros H. unfold prefix_mask. by rewrite (take_S_r _ _ _ H), fold_left_app. Qed.
Lemma prefix_mask_u32 ctl i : is_u32 (prefix_mask ctl i).
Proof.
  induction i as [|i IH]; [done|].
  destruct (ctl !! i) as [c|] eqn:E.
  - rewrite (prefix_mask_S _ _ _ E). unfold add_vector. pose proof (vector_source_range c).
    case_match; auto with varsim.
  - unfold prefix_mask in *. rewrite take_ge in * by (apply lookup_ge_None in E; lia). done.
Qed.
Lemma prefix_mask_testbit ctl i n :
  Z.testbit (prefix_mask ctl i) n = true ↔
  ∃ j c, (j < i)%nat ∧ ctl !! j = Some c ∧ vector_on c = true ∧ vector_source c = n.
Proof.
  induction i as [|i IH].
  { split; [by rewrite Z.bits_0|]. intros (j & c & ? & _). lia. }
  destruct (ctl !! i) as [c|] eqn:E.
  - rewrite (prefix_mask_S _ _ _ E). unfold add_vector. pose proof (vector_source_range c).
    destruct (vector_on c) eqn:Hc.
    + rewrite Z.lor_spec, orb_true_iff, IH, testbit_bit, Z.eqb_eq by lia. split.
      * intros [(j & c' & ? & ?)| ->]; [exists j, c'; split; [lia|done]|exists i, c; eauto with lia].
      * intros (j & c' & ? & Hj & ? & ?). destruct (decide (j = i)) as [->|]; [right; congruence|].
        left. exists j, c'. split; [lia|done].
    + rewrite IH. split; intros (j & c' & ? & Hj & ? & ?).
      * exists j, c'. split; [lia|done].
      * destruct (decide (j = i)) as [->|]; [congruence|]. exists j, c'. split; [lia|done].
  - assert (prefix_mask ctl (S i) = prefix_mask ctl i) as ->.
    { unfold prefix_mask. apply lookup_ge_None in E. by rewrite !take_ge by lia. }
    rewrite IH. split; intros (j & c' & ? & Hj & ? & ?); exists j, c'; split_and!; try done; [lia|].
    destruct (decide (j = i)); [congruence|lia].
Qed.

(** ** Well-formed states *)

(** [st] are the levels entered and not left, the current one first. *)
Inductive nested (prev : list Z) : Z → list Z → Prop :=
| nested_idle : nested prev PL190_NUM_PRIO []
| nested_in (p : nat) q st :
    prev !! p = Some q → Z.of_nat p < q → nested prev q st → nested prev (Z.of_nat p) (Z.of_nat p :: st).

Record pl190_wf (st : list Z) (s : pl190_state) : Prop := {
  wf_level : is_u32 (pl_level s);
  wf_soft : is_u32 (soft_level s);
  wf_enable : is_u32 (irq_enable s);
  wf_select : is_u32 (fiq_select s);
  wf_control : length (vect_control s) = 16%nat;
  wf_addr : length (vect_addr s) = 17%nat;
  wf_masks : prio_mask s = map (prefix_mask (vect_control s)) (seq 0 17) ++ [0xffffffff];
  wf_prev : length (prev_prio s) = 17%nat;
  wf_nested : nested (prev_prio s) (priority s) st;
}.

Lemma nested_range prev p st : nested prev p st → 0 <= p <= 17.
Proof. induction 1; unfold PL190_NUM_PRIO in *; lia. Qed.
Lemma nested_hd prev p st : nested prev p st → p = hd 17 st.
Proof. by destruct 1. Qed.
Lemma nested_top prev st : nested prev 17 st → st = [].
Proof.
  inversion 1 as [|p q st' Hp Hlt Hn]; [done|]. apply nested_range in Hn. lia.
Qed.
Lemma nested_insert prev p st (i : nat) v :
  nested prev p st → Z.of_nat i < p → nested (<[i:=v]> prev) p st.
Proof.
  induction 1 as [|p q st Hp Hlt Hn IH]; intros Hi; [constructor|].
  econstructor; [|done|apply IH; lia].
  rewrite list_lookup_insert_ne by lia. done.
Qed.
Lemma nested_push prev p st (i : nat) :
  nested prev p st → length prev = 17%nat → Z.of_nat i < p →
  nested (<[i:=p]> prev) (Z.of_nat i) (Z.of_nat i :: st).
Proof.
  intros Hn Hl Hi. pose proof (nested_range _ _ _ Hn).
  econstructor; [apply list_lookup_insert_eq; lia|done|by apply nested_insert].
Qed.
Lemma nested_pop prev p st :
  nested prev p st → p < 17 → ∃ q, aread prev p = Ok q ∧ nested prev q (tail st).
Proof.
  destruct 1 as [|p q st Hp Hlt Hn]; [unfold PL190_NUM_PRIO; lia|].
  intros _. exists q. split; [by apply aread_nat|done].
Qed.

(** The mask the outputs are gated with. *)
Definition current_mask (s : pl190_state) : Z :=
  if priority s =? 17 then 0xffffffff else prefix_mask (vect_control s) (Z.to_nat (priority s)).
Definition irq_out (s : pl190_state) : bool := truth (Z.land (pl190_irq_level s) (current_mask s)).
Definition fiq_out (s : pl190_state) : bool := truth (Z.land (pl190_pending s) (fiq_select s)).
Definition pl190_lines (s : pl190_state) : irq_calls := [(0, flag (irq_out s)); (1, flag (fiq_out s))].

Lemma masks_read ctl i :
  (i < 17)%nat → aread (map (prefix_mask ctl) (seq 0 17) ++ [0xffffffff]) (Z.of_nat i) = Ok (prefix_mask ctl i).
Proof.
  intros Hi. apply aread_nat. rewrite lookup_app_l by (rewrite length_map, length_seq; lia).
  rewrite list_lookup_fmap, lookup_seq_lt by lia. done.
Qed.
Lemma drive_wf st s : pl190_wf st s → pl190_drive s = Ok (s, pl190_lines s).
Proof.
  intros W. unfold pl190_drive, pl190_update, pl190_lines, irq_out, fiq_out, current_mask.
  rewrite (wf_masks _ _ W). pose proof (nested_range _ _ _ (wf_nested _ _ W)).
  destruct (Z.eqb_spec (priority s) 17) as [->|].
  - done.
  - rewrite <- (Z2Nat.id (priority s)) at 1 by lia. by rewrite masks_read by lia.
Qed.
Lemma pending_u32 st s : pl190_wf st s → is_u32 (pl190_pending s).
Proof. destruct 1. unfold pl190_pending. auto with varsim. Qed.
Lemma irq_level_u32 st s : pl190_wf st s → is_u32 (pl190_irq_level s).
Proof.
  intros W. pose proof (pending_u32 _ _ W). pose proof (wf_enable _ _ W). pose proof (wf_select _ _ W).
  unfold pl190_irq_level. apply is_u32_ldiff; [apply is_u32_land|]; unfold is_u32 in *; lia.
Qed.

Lemma vectors_loop ctl pm :
  length ctl = 16%nat → length pm = 18%nat →
  for_upto 16 (update_vector ctl) (0, pm) = Ok (prefix_mask ctl 16, overwrite 16 (prefix_mask ctl) pm).
Proof.
  intros Hc Hp.
  apply (for_upto_spec (update_vector ctl) (λ j, (prefix_mask ctl j, overwrite j (prefix_mask ctl) pm))).
  intros j Hj. change (Z.to_nat 16) with 16%nat in Hj.
  destruct (lookup_lt_is_Some_2 ctl j ltac:(lia)) as [c Hcj]. unfold update_vector.
  rewrite awrite_nat by (rewrite overwrite_length; lia). cbn [mbind res_bind].
  rewrite overwrite_S by lia. rewrite (aread_nat _ _ _ Hcj). cbn [mbind res_bind].
  by rewrite (prefix_mask_S _ _ _ Hcj).
Qed.
Lemma update_vectors_eq s :
  length (vect_control s) = 16%nat → length (prio_mask s) = 18%nat →
  prio_mask s !! 17%nat = Some 0xffffffff →
  pl190_update_vectors s =
  pl190_drive (pl190_set_vectors s (vect_control s) (vect_addr s)
    (map (prefix_mask (vect_control s)) (seq 0 17) ++ [0xffffffff])).
Proof.
  intros Hc Hp H17. unfold pl190_update_vectors. rewrite vectors_loop by done. cbn [mbind res_bind].
  change 16 with (Z.of_nat 16). rewrite awrite_nat by (rewrite overwrite_length; lia).
  rewrite overwrite_S by lia. cbn [mbind res_bind]. do 2 f_equal.
  unfold overwrite. rewrite (drop_S _ _ _ H17). by rewrite drop_ge by lia.
Qed.

(** ** Accesses *)

Inductive pl190_op :=
| Set_irq (irq level : Z)
| Read (offset : Z)
| Write (offset val : Z)
| Reset_dev.

Definition pl190_step (op : pl190_op) (s : pl190_state) : res (Z * pl190_state * irq_calls) :=
  match op with
  | Set_irq irq level => '(s, calls) ← pl190_set_irq irq level s; Ok (0, s, calls)
  | Read offset => pl190_read offset s
  | Write offset val => '(s, calls) ← pl190_write offset val s; Ok (0, s, calls)
  | Reset_dev => '(s, calls) ← pl190_reset s; Ok (0, s, calls)
  end.

(** What the bus and the wiring guarantee of an access. *)
Definition op_ok (op : pl190_op) : Prop :=
  match op with
  | Set_irq irq _ => 0 <= irq < 32
  | Read offset => 0 <= offset < 0x1000
  | Write offset val => 0 <= offset < 0x1000 ∧ is_u32 val
  | Reset_dev => True
  end.

#[global] Instance op_ok_dec op : Decision (op_ok op).
Proof. destruct op; unfold op_ok, is_u32; apply _. Defined.

(** The accesses that abort the emulator. *)
Definition bad_op (op : pl190_op) : bool :=
  match op with
  | Read offset =>
      negb (in_window 0xfe0 0x1000 offset || in_window 0x100 0x140 offset || in_window 0x200 0x240 offset) &&
      match Z.shiftr offset 2 with 0 | 1 | 2 | 3 | 4 | 6 | 8 | 12 | 13 => false | _ => true end
  | Write offset val =>
      negb (in_window 0x100 0x140 offset || in_window 0x200 0x240 offset) &&
      match Z.shiftr offset 2 with
      | 0 | 3 | 4 | 5 | 6 | 7 | 8 | 12 | 13 => false | 0xc0 => truth val | _ => true
      end
  | _ => false
  end.

(** The first level from [i] on, [n] of them, that satisfies [P]. *)
Fixpoint first_level (P : nat → bool) (n i : nat) : nat :=
  match n with
  | O => i
  | S n => if P i then i else first_level P n (S i)
  end.

Lemma first_level_bounds P n i : (i ≤ first_level P n i ≤ i + n)%nat.
Proof. revert i. induction n as [|n IH]; intros i; simpl; [lia|]. case_match; [lia|]. specialize (IH (S i)). lia. Qed.
Lemma first_level_least P n i k :
  (i ≤ k < i + n)%nat → P k = true → (∀ j, (i ≤ j < k)%nat → P j = false) → first_level P n i = k.
Proof.
  revert i. induction n as [|n IH]; intros i Hk Hp Hj; simpl; [lia|].
  destruct (decide (i = k)) as [->|]; [by rewrite Hp|].
  rewrite (Hj i) by lia. apply IH; [lia|done|]. intros; apply Hj; lia.
Qed.

Definition level_pending (s : pl190_state) (i : nat) : bool :=
  truth (Z.land (pl190_pending s) (prefix_mask (vect_control s) i)).
(** The level a VECTADDR read chooses; the current one if there is none above it. *)
Definition chosen (s : pl190_state) : nat := first_level (level_pending s) (Z.to_nat (priority s)) 0.

(** The effect of an access on the stack of levels. *)
Definition stack_after (op : pl190_op) (s : pl190_state) (st : list Z) : list Z :=
  match op with
  | Read offset =>
      if (Z.shiftr offset 2 =? 12) && (Z.of_nat (chosen s) <? priority s) then Z.of_nat (chosen s) :: st else st
  | Write offset _ => if Z.shiftr offset 2 =? 12 then tail st else st
  | Set_irq _ _ => st
  | Reset_dev => []
  end.

Lemma vectaddr_loop_eq P pending ctl n i :
  (i + n ≤ 17)%nat → (∀ j, P j = truth (Z.land pending (prefix_mask ctl j))) →
  vectaddr_loop pending (map (prefix_mask ctl) (seq 0 17) ++ [0xffffffff]) n (Z.of_nat i) =
  Ok (Z.of_nat (first_level P n i)).
Proof.
  intros Hn HP. revert i Hn. induction n as [|n IH]; intros i Hn; cbn [vectaddr_loop first_level]; [done|].
  rewrite masks_read by lia. cbn [mbind res_bind]. rewrite <- HP. case_match; [done|].
  rewrite <- IH by lia. f_equal. lia.
Qed.
Lemma chosen_loop st s :
  pl190_wf st s →
  vectaddr_loop (pl190_pending s) (prio_mask s) (Z.to_nat (priority s)) 0 = Ok (Z.of_nat (chosen s)).
Proof.
  intros W. rewrite (wf_masks _ _ W). pose proof (nested_range _ _ _ (wf_nested _ _ W)).
  apply (vectaddr_loop_eq (level_pending s) _ _ _ 0); [lia|done].
Qed.
Lemma chosen_bounds st s : pl190_wf st s → 0 <= Z.of_nat (chosen s) <= priority s.
Proof.
  intros W. pose proof (nested_range _ _ _ (wf_nested _ _ W)). unfold chosen.
  pose proof (first_level_bounds (level_pending s) (Z.to_nat (priority s)) 0). lia.
Qed.

(** A VECTADDR read. *)
Lemma read_vectaddr_eq st s :
  pl190_wf st s →
  let i := Z.of_nat (chosen s) in
  let s' := if i <? priority s then pl190_set_prio s i (<[chosen s := priority s]> (prev_prio s)) else s in
  ∃ v, aread (vect_addr s) (Z.min (priority s') 16) = Ok v ∧
    pl190_read_vectaddr s = Ok (v, s', if i <? priority s then pl190_lines s' else []) ∧
    pl190_wf (if i <? priority s then i :: st else st) s'.
Proof.
  intros W i s'. pose proof (chosen_bounds _ _ W) as Hb. fold i in Hb.
  pose proof (nested_range _ _ _ (wf_nested _ _ W)) as Hr.
  assert (0 <= priority s' <= 17) as Hp' by (unfold s'; case_match; simpl; lia).
  assert (pl190_wf (if i <? priority s then i :: st else st) s') as W'.
  { unfold s'. destruct (Z.ltb_spec i (priority s)) as [Hlt|]; [|done].
    destruct W. constructor; try done; cbn.
    - by rewrite length_insert.
    - by apply nested_push. }
  destruct (aread_in (vect_addr s) (Z.min (priority s') 16)) as [v Hv]; [rewrite (wf_addr _ _ W); lia|].
  exists v. split_and!; [done| |done].
  unfold pl190_read_vectaddr. rewrite (chosen_loop _ _ W). cbn [mbind res_bind]. fold i.
  unfold s' in *. clear s'. unfold PL190_NUM_PRIO. destruct (Z.ltb_spec i (priority s)) as [Hlt|Hge].
  - rewrite (proj2 (Z.eqb_neq i 17)) by lia.
    rewrite awrite_in by (rewrite (wf_prev _ _ W); lia). cbn [mbind res_bind].
    assert (Z.to_nat i = chosen s) as -> by (unfold i; lia). rewrite (drive_wf _ _ W'). cbn [mbind res_bind vect_addr priority pl190_set_prio] in *.
    rewrite Z.min_l in Hv by lia. by rewrite Hv.
  - assert (i = priority s) as -> by lia. destruct (Z.eqb_spec (priority s) 17) as [E|].
    + rewrite E in Hv. change (Z.min 17 16) with 16 in Hv. by rewrite Hv.
    + cbn [mbind res_bind]. rewrite Z.min_l in Hv by lia. by rewrite Hv.
Qed.

(** ** The access theorem *)

(** The result of a read or a write that does not abort. *)
Definition access_ok (op : pl190_op) (st : list Z) (s : pl190_state) (r : res (Z * pl190_state * irq_calls)) : Prop :=
  ∃ v s' calls, r = Ok (v, s', calls) ∧ pl190_wf (stack_after op s st) s' ∧
    (calls = pl190_lines s' ∨ (calls = [] ∧ s' = s)).

Lemma access_quiet op st s v r :
  pl190_wf st s → stack_after op s st = st → r = Ok v → access_ok op st s (v ← r; Ok (v, s, [])).
Proof. intros W Hst ->. exists v, s, []. rewrite Hst. eauto. Qed.
Lemma access_drive op st s s' :
  pl190_wf (stack_after op s st) s' →
  access_ok op st s ('(s, calls) ← pl190_drive s'; Ok (0, s, calls)).
Proof. intros W. rewrite (drive_wf _ _ W). exists 0, s', (pl190_lines s'). eauto. Qed.

Lemma read_access st s offset :
  pl190_wf st s → 0 <= offset < 0x1000 →
  if bad_op (Read offset) then pl190_read offset s = Err Hw_error
  else access_ok (Read offset) st s (pl190_read offset s).
Proof.
  intros W Ho. unfold bad_op, pl190_read. fold (in_window 0xfe0 0x1000 offset).
  fold (in_window 0x100 0x140 offset). fold (in_window 0x200 0x240 offset).
  destruct (in_window 0xfe0 0x1000 offset) eqn:E1; [|destruct (in_window 0x100 0x140 offset) eqn:E2;
    [|destruct (in_window 0x200 0x240 offset) eqn:E3]]; cbn [negb orb andb].
  1-3: match goal with H : in_window _ _ _ = true |- _ =>
         pose proof (window_index _ _ _ H) as Hi; pose proof (window_not_reg _ _ _ 12 H) as Hn end.
  - destruct (aread_in pl190_id _ Hi) as [v Hv].
    eapply access_quiet; [done| |exact Hv]. simpl. by rewrite Hn by lia.
  - destruct (aread_in (vect_addr s) (Z.shiftr (offset - 0x100) 2)) as [v Hv];
      [rewrite (wf_addr _ _ W); change ((0x140 - 0x100 + 3) / 4) with 16 in Hi; lia|].
    eapply access_quiet; [done| |exact Hv]. simpl. by rewrite Hn by lia.
  - destruct (aread_in (vect_control s) (Z.shiftr (offset - 0x200) 2)) as [v Hv];
      [rewrite (wf_control _ _ W); change ((0x240 - 0x200 + 3) / 4) with 16 in Hi; lia|].
    eapply access_quiet; [done| |exact Hv]. simpl. by rewrite Hn by lia.
  - remember (Z.shiftr offset 2) as k eqn:Hk.
    assert (∀ r v, k ≠ 12 → r = Ok v → access_ok (Read offset) st s (v ← r; Ok (v, s, []))) as Hq.
    { intros r v Hne. apply access_quiet; [done|]. simpl. by rewrite <- Hk, (proj2 (Z.eqb_neq k 12) Hne). }
    assert (k = 12 → access_ok (Read offset) st s (pl190_read_vectaddr s)) as Hv.
    { intros E. destruct (read_vectaddr_eq _ _ W) as (v & _ & -> & W'). do 3 eexists. split; [done|].
      simpl. rewrite <- Hk, E. simpl. split; [done|]. case_match; auto. }
    destruct (aread_in (vect_addr s) 16) as [v16 Hv16]; [rewrite (wf_addr _ _ W); lia|].
    destruct k as [|p|p]; [by eapply Hq| |done].
    do 4 (try (destruct p as [p|p|]; try done)); try (by eapply Hq); by apply Hv.
Qed.

Lemma wf_set_level st s l : pl190_wf st s → is_u32 l → pl190_wf st (pl190_set_level s l).
Proof. by destruct 1. Qed.
Lemma wf_set_soft st s l : pl190_wf st s → is_u32 l → pl190_wf st (pl190_set_soft s l).
Proof. by destruct 1. Qed.
Lemma wf_set_enable st s l : pl190_wf st s → is_u32 l → pl190_wf st (pl190_set_enable s l).
Proof. by destruct 1. Qed.
Lemma wf_set_select st s l : pl190_wf st s → is_u32 l → pl190_wf st (pl190_set_select s l).
Proof. by destruct 1. Qed.
Lemma wf_set_protected st s p : pl190_wf st s → pl190_wf st (pl190_set_protected s p).
Proof. by destruct 1. Qed.
Lemma wf_set_addr st s a :
  pl190_wf st s → length a = 17%nat → pl190_wf st (pl190_set_vectors s (vect_control s) a (prio_mask s)).
Proof. by destruct 1. Qed.
Lemma wf_set_control st s c :
  pl190_wf st s → length c = 16%nat →
  pl190_wf st (pl190_set_vectors s c (vect_addr s) (map (prefix_mask c) (seq 0 17) ++ [0xffffffff])).
Proof. by destruct 1. Qed.
#[local] Hint Resolve wf_set_level wf_set_soft wf_set_enable wf_set_select wf_set_protected
  wf_level wf_soft wf_enable wf_select : varsim.

Lemma is_u32_nonneg z : is_u32 z → 0 <= z.
Proof. by intros [? _]. Qed.
#[local] Hint Resolve is_u32_nonneg : varsim.

(** Writing a vector register and recomputing the masks. *)
Lemma update_vectors_access op st s s' :
  pl190_wf (stack_after op s st) s' → ∀ c a,
  length c = 16%nat → length a = 17%nat →
  access_ok op st s
    ('(s, calls) ← pl190_update_vectors (pl190_set_vectors s' c a (prio_mask s')); Ok (0, s, calls)).
Proof.
  intros W c a Hc Ha.
  rewrite update_vectors_eq; cbn [vect_control vect_addr prio_mask pl190_set_vectors]; [|done|..].
  - apply access_drive. by destruct W.
  - by rewrite (wf_masks _ _ W).
  - by rewrite (wf_masks _ _ W).
Qed.

Lemma write_access st s offset val :
  pl190_wf st s → 0 <= offset < 0x1000 → is_u32 val →
  if bad_op (Write offset val) then pl190_write offset val s = Err Hw_error
  else access_ok (Write offset val) st s ('(s, calls) ← pl190_write offset val s; Ok (0, s, calls)).
Proof.
  intros W Ho Hval. unfold bad_op, pl190_write.
  fold (in_window 0x100 0x140 offset). fold (in_window 0x200 0x240 offset).
  destruct (in_window 0x100 0x140 offset) eqn:E2;
    [|destruct (in_window 0x200 0x240 offset) eqn:E3]; cbn [negb orb andb].
  1-2: match goal with H : in_window _ _ _ = true |- _ =>
         pose proof (window_index _ _ _ H) as Hi; pose proof (window_not_reg _ _ _ 12 H) as Hn end;
       change ((0x140 - 0x100 + 3) / 4) with 16 in *; change ((0x240 - 0x200 + 3) / 4) with 16 in *.
  - rewrite awrite_in by (rewrite (wf_addr _ _ W); lia). cbn [mbind res_bind].
    apply update_vectors_access; [|apply W|rewrite length_insert; apply W].
    simpl. by rewrite Hn by lia.
  - rewrite awrite_in by (rewrite (wf_control _ _ W); lia). cbn [mbind res_bind].
    apply update_vectors_access; [|rewrite length_insert; apply W|apply W].
    simpl. by rewrite Hn by lia.
  - remember (Z.shiftr offset 2) as k eqn:Hk.
    assert (∀ s', k ≠ 12 → pl190_wf st s' → access_ok (Write offset val) st s
      ('(s, calls) ← pl190_drive s'; Ok (0, s, calls))) as Hq.
    { intros s' Hne W'. apply access_drive. simpl. by rewrite <- Hk, (proj2 (Z.eqb_neq k 12) Hne). }
    assert (k = 12 → access_ok (Write offset val) st s
      ('(s, calls) ← (p ← (if priority s <? PL190_NUM_PRIO then aread (prev_prio s) (priority s)
                           else Ok (priority s)); pl190_drive (pl190_set_prio s p (prev_prio s)));
       Ok (0, s, calls))) as Hv.
    { intros E. pose proof (nested_range _ _ _ (wf_nested _ _ W)).
      destruct (Z.ltb_spec (priority s) PL190_NUM_PRIO) as [Hlt|Hge].
      - destruct (nested_pop _ _ _ (wf_nested _ _ W) Hlt) as (q & -> & Hq'). cbn [mbind res_bind].
        apply access_drive. simpl. rewrite <- Hk, E. simpl. by destruct W.
      - cbn [mbind res_bind]. apply access_drive. simpl. rewrite <- Hk, E. simpl.
        assert (priority s = 17) as Ep by (unfold PL190_NUM_PRIO in *; lia).
        pose proof (wf_nested _ _ W) as Hn. rewrite Ep in Hn. apply nested_top in Hn as ->.
        by destruct W. }
    destruct k as [|p|p]; [by apply Hq| |done].
    do 7 (try (destruct p as [p|p|]; try done)); try (by apply Hv);
      try (apply Hq; [done|]; eauto 6 with varsim).
    + rewrite awrite_in by (rewrite (wf_addr _ _ W); lia). cbn [mbind res_bind].
      apply Hq; [done|]. apply wf_set_addr; [done|]. rewrite length_insert. apply W.
    + destruct p; try done. destruct (truth val); [done|]. by apply Hq.
Qed.

Lemma set_irq_access st s irq level :
  pl190_wf st s → 0 <= irq < 32 →
  access_ok (Set_irq irq level) st s ('(s, calls) ← pl190_set_irq irq level s; Ok (0, s, calls)).
Proof.
  intros W Hi. unfold pl190_set_irq. rewrite bit32_Ok by done. cbn [mbind res_bind].
  apply access_drive. case_match; eauto 8 with varsim.
Qed.

Lemma reset_loop a c :
  length a = 17%nat → length c = 16%nat →
  for_upto 16 (λ i '(a, c), a ← awrite a i 0; c ← awrite c i 0; Ok (a, c)) (a, c) =
  Ok (overwrite 16 (λ _, 0) a, overwrite 16 (λ _, 0) c).
Proof.
  intros Ha Hc.
  apply (for_upto_spec (λ i '(a, c), a ← awrite a i 0; c ← awrite c i 0; Ok (a, c))
           (λ j, (overwrite j (λ _, 0) a, overwrite j (λ _, 0) c))).
  intros j Hj. change (Z.to_nat 16) with 16%nat in Hj.
  rewrite awrite_nat by (rewrite overwrite_length; lia). cbn [mbind res_bind].
  rewrite awrite_nat by (rewrite overwrite_length; lia). cbn [mbind res_bind].
  by rewrite !(overwrite_S j (λ _, 0)) by lia.
Qed.

(** The parts of the state a reset leaves alone are in range. *)
Record pl190_sized (s : pl190_state) : Prop := {
  sized_words : is_u32 (pl_level s) ∧ is_u32 (soft_level s) ∧ is_u32 (irq_enable s) ∧ is_u32 (fiq_select s);
  sized_control : length (vect_control s) = 16%nat;
  sized_addr : length (vect_addr s) = 17%nat;
  sized_masks : length (prio_mask s) = 18%nat;
  sized_prev : length (prev_prio s) = 17%nat;
}.

Lemma wf_sized st s : pl190_wf st s → pl190_sized s.
Proof. intros []. constructor; try done. by rewrite wf_masks0. Qed.

Lemma reset_access s st :
  pl190_sized s →
  access_ok Reset_dev st s ('(s, calls) ← pl190_reset s; Ok (0, s, calls)).
Proof.
  intros [(?&?&?&?) Hc Ha Hm Hp]. unfold pl190_reset.
  rewrite reset_loop by done. cbn [mbind res_bind].
  rewrite (awrite_in (prio_mask s)) by lia.
  rewrite awrite_in by (rewrite overwrite_length; lia). cbn [mbind res_bind].
  rewrite update_vectors_eq; cbn [vect_control vect_addr prio_mask pl190_set_vectors pl190_set_prio].
  - apply access_drive. constructor; try done;
      cbn [vect_control vect_addr prev_prio priority pl190_set_vectors pl190_set_prio].
    + rewrite overwrite_length; lia.
    + rewrite length_insert, overwrite_length; lia.
    + constructor.
  - rewrite overwrite_length; lia.
  - rewrite length_insert. lia.
  - apply list_lookup_insert_eq. lia.
Qed.

(** Every access: the emulator is aborted, or the access completes. *)
Lemma pl190_access st s op :
  pl190_wf st s → op_ok op →
  if bad_op op then pl190_step op s = Err Hw_error else access_ok op st s (pl190_step op s).
Proof.
  intros W. destruct op as [irq level|offset|offset val|]; simpl pl190_step.
  - by apply set_irq_access.
  - by apply read_access.
  - intros [Ho Hv]. pose proof (write_access _ _ _ _ W Ho Hv) as H.
    destruct (bad_op (Write offset val)); [by rewrite H|done].
  - intros _. apply reset_access. by apply (wf_sized st).
Qed.

(** The state after power on: the allocated state, reset. *)
Definition pl190_power_on : pl190_state :=
  match pl190_reset pl190_zero with Ok (s, _) => s | Err _ => pl190_zero end.

Lemma pl190_power_on_wf : pl190_wf [] pl190_power_on ∧ pl190_reset pl190_zero = Ok (pl190_power_on, pl190_lines pl190_power_on).
Proof.
  assert (pl190_sized pl190_zero) as Hz by (constructor; done).
  pose proof (reset_access _ [] Hz) as (v & s & calls & Hr & W & Hc).
  unfold pl190_power_on. destruct (pl190_reset pl190_zero) as [[s' c']|] eqn:E; [|discriminate Hr].
  simpl in Hr. injection Hr as _ <- <-. split; [done|].
  destruct Hc as [->|[-> ->]]; [done|]. vm_compute in E. discriminate E.
Qed.

(** A state with two vectors: source 4 at vector 0 and source 12 at vector 1. *)
Definition two_vectors : list pl190_op :=
  [Write 0x10 0x1010; Write 0x200 0x24; Write 0x204 0x2c; Write 0x100 0x8000; Write 0x104 0x9000;
   Write 0x34 0xf000].

(** A run of accesses, with the level of the two output wires. *)
Definition set_wire (w : Z * Z) '((line, level) : Z * Z) : Z * Z :=
  if line =? 0 then (level, w.2) else (w.1, level).

Fixpoint pl190_run (ops : list pl190_op) (s : pl190_state) (w : Z * Z) : res (pl190_state * (Z * Z)) :=
  match ops with
  | [] => Ok (s, w)
  | op :: ops => '(_, s, calls) ← pl190_step op s; pl190_run ops s (fold_left set_wire calls w)
  end.

Definition wires_of (s : pl190_state) : Z * Z := (flag (irq_out s), flag (fiq_out s)).

Lemma set_lines s w : fold_left set_wire (pl190_lines s) w = wires_of s.
Proof. done. Qed.

(** [C35]: Accesses of the interrupt controller from power on, by its sources and
    by the guest, complete unless one of them is among the listed offsets (or the
    test mode) that abort the emulator: no array is indexed out of bounds, and the
    state stays well formed, that is, the priority masks are those of the vector
    controls and the levels entered and not left are a strictly increasing stack
    threaded through [prev_prio].  The output wires then carry the levels that
    the registers call for, although not every access drives them. *)
Theorem pl190_runs_safe ops :
  Forall op_ok ops →
  if existsb bad_op ops then pl190_run ops pl190_power_on (0, 0) = Err Hw_error
  else ∃ s st, pl190_run ops pl190_power_on (0, 0) = Ok (s, wires_of s) ∧ pl190_wf st s.
Proof.
  intros Ho. destruct pl190_power_on_wf as [W _].
  change (0, 0) with (wires_of pl190_power_on). revert W.
  generalize pl190_power_on as s. generalize (@nil Z) as st.
  induction Ho as [|op ops Hop Ho IH]; intros st s W; simpl existsb; [by exists s, st|].
  simpl pl190_run. pose proof (pl190_access st s op W Hop) as H.
  destruct (bad_op op); simpl orb; [by rewrite H|].
  destruct H as (v & s1 & calls & -> & W1 & Hc). cbn [mbind res_bind].
  assert (fold_left set_wire calls (wires_of s) = wires_of s1) as ->; [|by apply (IH _ _ W1)].
  destruct Hc as [->|[-> ->]]; [apply set_lines|done].
Qed.

Lemma pl190_runs_safe_witness :
  ∃ s st, pl190_run (two_vectors ++ [Set_irq 4 1]) pl190_power_on (0, 0) = Ok (s, wires_of s) ∧ pl190_wf st s.
Proof.
  apply (pl190_runs_safe (two_vectors ++ [Set_irq 4 1])).
  refine (bool_decide_unpack (Forall op_ok (two_vectors ++ [Set_irq 4 1])) _). vm_compute. exact I.
Defined.

(** ** What the outputs mean *)

(** Source [n] is pending, enabled and not a fast interrupt. *)
Definition irq_source (s : pl190_state) (n : Z) : Prop :=
  Z.testbit (pl190_pending s) n = true ∧ Z.testbit (irq_enable s) n = true ∧
  Z.testbit (fiq_select s) n = false.
(** Vector [j] routes source [n]. *)
Definition routes (s : pl190_state) (j : nat) (n : Z) : Prop :=
  ∃ c, vect_control s !! j = Some c ∧ vector_on c = true ∧ vector_source c = n.

Lemma irq_level_testbit s n : Z.testbit (pl190_irq_level s) n = true ↔ irq_source s n.
Proof.
  unfold pl190_irq_level, irq_source.
  rewrite Z.ldiff_spec, Z.land_spec, !andb_true_iff, negb_true_iff. tauto.
Qed.

(** Outside any interrupt level the IRQ output is high exactly when some
    enabled source that is not routed to FIQ is pending; inside level [p] it is
    high exactly when such a source is routed by a vector before [p], so that only
    a more urgent vector preempts.  The FIQ output is high exactly when a pending
    source is selected for FIQ. *)
Theorem pl190_outputs st s :
  pl190_wf st s →
  (irq_out s = true ↔ ∃ n, irq_source s n ∧ (st = [] ∨ ∃ j, Z.of_nat j < priority s ∧ routes s j n)) ∧
  (fiq_out s = true ↔ ∃ n, Z.testbit (pl190_pending s) n = true ∧ Z.testbit (fiq_select s) n = true).
Proof.
  intros W. pose proof (irq_level_u32 _ _ W) as Hi. pose proof (pending_u32 _ _ W) as Hp.
  pose proof (nested_range _ _ _ (wf_nested _ _ W)) as Hr. split.
  - unfold irq_out. rewrite truth_bits by (apply Z.land_nonneg; left; apply Hi).
    unfold current_mask. destruct (Z.eqb_spec (priority s) 17) as [E|Hne].
    + pose proof (wf_nested _ _ W) as Hn. rewrite E in Hn. apply nested_top in Hn as ->.
      split; intros (n & H).
      * destruct H as [_ H]. rewrite Z.land_spec, andb_true_iff, irq_level_testbit in H. naive_solver.
      * destruct H as [H _]. apply irq_level_testbit in H. pose proof (u32_bits_small _ _ Hi H).
        exists n. split; [lia|]. rewrite Z.land_spec, H. change 0xffffffff with (Z.ones 32).
        rewrite Z.ones_spec_low by lia. done.
    + assert (st ≠ []) as Hst by (intros ->; pose proof (nested_hd _ _ _ (wf_nested _ _ W)); done).
      split; intros (n & H).
      * destruct H as [_ H]. rewrite Z.land_spec, andb_true_iff, irq_level_testbit in H.
        destruct H as [H Hm]. apply prefix_mask_testbit in Hm as (j & c & Hj & Hc).
        exists n. split; [done|]. right. exists j. split; [lia|]. by exists c.
      * destruct H as [H [?|(j & Hj & c & Hc)]]; [done|]. apply irq_level_testbit in H.
        pose proof (u32_bits_small _ _ Hi H). exists n. split; [lia|].
        rewrite Z.land_spec, H. apply prefix_mask_testbit. exists j, c. split; [lia|done].
  - unfold fiq_out. rewrite truth_bits by (apply Z.land_nonneg; left; apply Hp).
    split; intros (n & H).
    + destruct H as [_ H]. rewrite Z.land_spec, andb_true_iff in H. eauto.
    + exists n. rewrite Z.land_spec. destruct H as [H ->]. rewrite H.
      pose proof (u32_bits_small _ _ Hp H). split; [lia|done].
Qed.

Definition armed : pl190_state :=
  match pl190_run (two_vectors ++ [Set_irq 4 1]) pl190_power_on (0, 0) with
  | Ok (s, _) => s | Err _ => pl190_zero
  end.
Lemma armed_wf : pl190_wf [] armed.
Proof.
  constructor.
  1-4: split; [vm_compute; discriminate | vm_compute; reflexivity].
  1-4: vm_compute; reflexivity.
  vm_compute. apply nested_idle.
Qed.

Lemma pl190_outputs_witness :
  (irq_out armed = true ↔ ∃ n, irq_source armed n ∧ ([] = @nil Z ∨ ∃ j, Z.of_nat j < priority armed ∧ routes armed j n)) ∧
  (fiq_out armed = true ↔ ∃ n, Z.testbit (pl190_pending armed) n = true ∧ Z.testbit (fiq_select armed) n = true).
Proof. apply (pl190_outputs [] armed). apply armed_wf. Defined.

(** ** VECTADDR *)

(** Vector [j] routes a pending source. *)
Definition vector_pending (s : pl190_state) (j : nat) : Prop :=
  ∃ n, Z.testbit (pl190_pending s) n = true ∧ routes s j n.

Lemma level_pending_iff st s i :
  pl190_wf st s → level_pending s i = true ↔ ∃ j, (j < i)%nat ∧ vector_pending s j.
Proof.
  intros W. pose proof (pending_u32 _ _ W) as Hp. unfold level_pending.
  rewrite truth_bits by (apply Z.land_nonneg; left; apply Hp). split.
  - intros (n & _ & H). rewrite Z.land_spec, andb_true_iff in H. destruct H as [H Hm].
    apply prefix_mask_testbit in Hm as (j & c & Hj & Hc). exists j. split; [done|].
    exists n. split; [done|]. by exists c.
  - intros (j & Hj & n & H & c & Hc). pose proof (u32_bits_small _ _ Hp H). exists n. split; [lia|].
    rewrite Z.land_spec, H. apply prefix_mask_testbit. by exists j, c.
Qed.

Lemma chosen_next st s k :
  pl190_wf st s → vector_pending s k → (∀ j, (j < k)%nat → ~ vector_pending s j) →
  Z.of_nat k + 1 < priority s → chosen s = S k.
Proof.
  intros W Hk Hleast Hp. unfold chosen. apply first_level_least; [lia| |].
  - apply (level_pending_iff _ _ _ W). exists k. split; [lia|done].
  - intros j Hj. apply not_true_is_false. rewrite (level_pending_iff _ _ _ W).
    intros (j' & Hj' & Hv). apply (Hleast j'); [lia|done].
Qed.

(** A VECTADDR read answers with the address of the slot after the one
    that routes the interrupt: when vector [k] is the first that routes a pending
    source and its level can be entered, the guest gets [vect_addr[k + 1]] and the
    controller enters level [k + 1], since [prio_mask[i]] holds the sources of the
    vectors before [i] and the loop stops at the first [i] whose mask is hit. *)
Theorem pl190_vectaddr_next_slot st s k :
  pl190_wf st s → vector_pending s k → (∀ j, (j < k)%nat → ~ vector_pending s j) →
  Z.of_nat k + 1 < priority s →
  ∃ v s', vect_addr s !! S k = Some v ∧ pl190_read 0x30 s = Ok (v, s', pl190_lines s') ∧
    priority s' = Z.of_nat k + 1 ∧ pl190_wf (Z.of_nat k + 1 :: st) s'.
Proof.
  intros W Hk Hl Hp. pose proof (chosen_next _ _ _ W Hk Hl Hp) as Hc.
  pose proof (nested_range _ _ _ (wf_nested _ _ W)) as Hr.
  destruct (read_vectaddr_eq _ _ W) as (v & Hv & Hread & W'). change (pl190_read 0x30 s) with (pl190_read_vectaddr s).
  rewrite Hc in *. rewrite (proj2 (Z.ltb_lt (Z.of_nat (S k)) (priority s))) in * by lia.
  cbn [priority pl190_set_prio] in *. rewrite Z.min_l in Hv by lia.
  apply aread_lookup in Hv as [_ Hv]. rewrite Nat2Z.id in Hv.
  replace (Z.of_nat (S k)) with (Z.of_nat k + 1) in * by lia.
  eexists v, _. split_and!; done.
Qed.

Lemma pl190_vectaddr_next_slot_witness :
  vect_addr armed !! 0%nat = Some 0x8000 ∧
  ∃ v s', vect_addr armed !! 1%nat = Some v ∧ pl190_read 0x30 armed = Ok (v, s', pl190_lines s') ∧
    priority s' = 1 ∧ pl190_wf [1] s'.
Proof.
  split; [vm_compute; reflexivity|]. apply (pl190_vectaddr_next_slot [] armed 0).
  - apply armed_wf.
  - exists 4. split; [vm_compute; reflexivity|]. exists 0x24. split_and!; vm_compute; reflexivity.
  - intros j Hj. lia.
  - vm_compute. reflexivity.
Defined.

(** ** Nested interrupts *)

(** Neither a VECTADDR access nor a reset. *)
Definition quiet (op : pl190_op) : bool :=
  match op with
  | Read offset | Write offset _ => negb (Z.shiftr offset 2 =? 12)
  | Set_irq _ _ => true
  | Reset_dev => false
  end.

(** What the guest and the devices do while a level is current: accesses, and
    whole interrupts that preempt, each entered with a VECTADDR read and left with
    a VECTADDR write. *)
Inductive serviced : pl190_state → pl190_state → Prop :=
| serviced_none s : serviced s s
| serviced_op op s v s1 calls s' :
    quiet op = true → op_ok op → pl190_step op s = Ok (v, s1, calls) → serviced s1 s' → serviced s s'
| serviced_irq s v s1 calls s2 off val v' s3 calls' s' :
    pl190_step (Read 0x30) s = Ok (v, s1, calls) → priority s1 < priority s → serviced s1 s2 →
    0 <= off < 0x1000 → Z.shiftr off 2 = 12 → is_u32 val →
    pl190_step (Write off val) s2 = Ok (v', s3, calls') → serviced s3 s' → serviced s s'.

Lemma step_stack st s op v s' calls :
  pl190_wf st s → op_ok op → pl190_step op s = Ok (v, s', calls) → pl190_wf (stack_after op s st) s'.
Proof.
  intros W Ho Hs. pose proof (pl190_access st s op W Ho) as H.
  destruct (bad_op op); [congruence|]. destruct H as (v1 & s1 & c1 & H1 & W1 & _). congruence.
Qed.
Lemma quiet_stack op s st : quiet op = true → stack_after op s st = st.
Proof. destruct op; simpl; try done; intros ->%negb_true_iff; done. Qed.

(** [C40]: however deeply interrupts preempt each other, when each handler that
    entered a level with a VECTADDR read has left it with a VECTADDR write, the
    controller is back at the priority, and on the stack of levels, it had. *)
Theorem pl190_nesting st s s' :
  pl190_wf st s → serviced s s' → pl190_wf st s' ∧ priority s' = priority s.
Proof.
  intros W H. enough (pl190_wf st s') as W'.
  { split; [done|]. by rewrite (nested_hd _ _ _ (wf_nested _ _ W)), (nested_hd _ _ _ (wf_nested _ _ W')). }
  revert st W. induction H as [s|op s v s1 calls s' Hq Ho Hs _ IH|
    s v s1 calls s2 off val v' s3 calls' s' Hs Hlt _ IH1 Hoff Hk Hval Hw _ IH2]; intros st W; [done| |].
  - apply IH. pose proof (step_stack _ _ _ _ _ _ W Ho Hs) as W1. by rewrite quiet_stack in W1.
  - assert (op_ok (Read 0x30)) as Hr30 by done.
    pose proof (step_stack _ _ _ _ _ _ W Hr30 Hs) as W1. simpl in W1.
    destruct (Z.ltb_spec (Z.of_nat (chosen s)) (priority s)) as [|Hge].
    + apply IH2. pose proof (step_stack _ _ (Write off val) _ _ _ (IH1 _ W1) (conj Hoff Hval) Hw) as W3.
      simpl in W3. by rewrite Hk in W3.
    + pose proof (nested_hd _ _ _ (wf_nested _ _ W)) as E. pose proof (nested_hd _ _ _ (wf_nested _ _ W1)) as E1.
      simpl in E1. lia.
Qed.

(** The interrupt of [armed], preempted by nothing: entered, acknowledged, left. *)
Lemma pl190_nesting_witness :
  ∃ s', serviced armed s' ∧ pl190_wf [] s' ∧ priority s' = priority armed.
Proof.
  destruct (pl190_step (Read 0x30) armed) as [[[v1 s1] c1]|] eqn:E1; [|vm_compute in E1; discriminate E1].
  destruct (pl190_step (Set_irq 4 0) s1) as [[[v2 s2] c2]|] eqn:E2;
    [|vm_compute in E1; injection E1 as _ <- _; vm_compute in E2; discriminate E2].
  destruct (pl190_step (Write 0x30 0) s2) as [[[v3 s3] c3]|] eqn:E3;
    [|vm_compute in E1; injection E1 as _ <- _; vm_compute in E2; injection E2 as _ <- _;
      vm_compute in E3; discriminate E3].
  assert (serviced armed s3) as H.
  { eapply (serviced_irq armed v1 s1 c1 s2 0x30 0); [exact E1| | |lia|reflexivity| |exact E3|constructor].
    - vm_compute in E1. injection E1 as _ <- _. vm_compute. reflexivity.
    - eapply (serviced_op (Set_irq 4 0)); [reflexivity|simpl; lia|exact E2|constructor].
    - split; [lia|reflexivity]. }
  exists s3. split; [exact H|]. apply (pl190_nesting [] armed s3); [apply armed_wf|exact H].
Defined.
