(* ===== verification/IrqBoard.v ===== *)
(** * IrqBoard: from a source to the CPU (hw/versatilepb.c, hw/arm_pic.c, hw/irq.c, exec.c)

    The secondary interrupt controller of the Versatile board, the CPU's interrupt
    inputs, and the wiring of [versatile_init]: the outputs of the secondary
    controller are the inputs of the PL190, whose two outputs are the inputs of
    the CPU.  A [qemu_irq] is a line number of a component that takes interrupts. *)

From S2P Require Import Prelude Variability PowerModel CpuExec Pl190 Pl190Facts.
Local Open Scope Z_scope.

(** ** Lines *)

(** What the other end of a [qemu_irq] promises: a handler for line and level. *)
Class IrqSink (S : Type) := deliver : Z → Z → S → res S.

(** The calls of [qemu_set_irq], in order. *)
Fixpoint qemu_set_irqs {S} `{IrqSink S} (calls : irq_calls) (s : S) : res S :=
  match calls with
  | [] => Ok s
  | (line, level) :: calls => s ← deliver line level s; qemu_set_irqs calls s
  end.

(** ** The CPU *)

Definition ARM_PIC_CPU_IRQ : Z := 0.
Definition ARM_PIC_CPU_FIQ : Z := 1.

Definition with_interrupt_request (env : CPUState) (r : Z) : CPUState :=
  mkCPU (regs env) (feature_m env) (v7m_exception env) (v7m_control env) (uncached_cpsr env)
    r (halted env) (exception_index env).

(** The request bits; the running block is also unlinked and the CPU kicked. *)
Definition cpu_interrupt (mask : Z) (env : CPUState) : CPUState :=
  with_interrupt_request env (Z.lor (interrupt_request env) mask).
Definition cpu_reset_interrupt (mask : Z) (env : CPUState) : CPUState :=
  with_interrupt_request env (Z.ldiff (interrupt_request env) mask).

Definition arm_pic_cpu_handler (irq level : Z) (env : CPUState) : res CPUState :=
  if irq =? ARM_PIC_CPU_IRQ then
    Ok (if truth level then cpu_interrupt CPU_INTERRUPT_HARD env
        else cpu_reset_interrupt CPU_INTERRUPT_HARD env)
  else if irq =? ARM_PIC_CPU_FIQ then
    Ok (if truth level then cpu_interrupt CPU_INTERRUPT_FIQ env
        else cpu_reset_interrupt CPU_INTERRUPT_FIQ env)
  else Err Hw_error.

#[global] Instance cpu_sink : IrqSink CPUState := arm_pic_cpu_handler.

(** The PL190 in front of the CPU. *)
Record vic := mkVic { vic_pic : pl190_state; vic_cpu : CPUState }.

Definition vic_step (op : pl190_op) (v : vic) : res (Z * vic) :=
  '(r, pic, calls) ← pl190_step op (vic_pic v);
  env ← qemu_set_irqs calls (vic_cpu v);
  Ok (r, mkVic pic env).

#[global] Instance vic_sink : IrqSink vic := λ irq level v, '(_, v) ← vic_step (Set_irq irq level) v; Ok v.

(** ** The secondary controller *)

Record vpb_sic_state := mkSic {
  sic_level : Z;
  sic_mask : Z;
  pic_enable : Z;
  sic_irq : Z;
}.

Definition vpb_sic_update (s : vpb_sic_state) : irq_calls :=
  [(sic_irq s, flag (truth (Z.land (sic_level s) (sic_mask s))))].

Definition vpb_sic_update_pic (s : vpb_sic_state) : irq_calls :=
  flat_map (λ i : nat,
    let i := Z.of_nat i in let mask := Z.shiftl 1 i in
    if negb (truth (Z.land (pic_enable s) mask)) then []
    else [(i, flag (truth (Z.land (sic_level s) mask)))]) (seq 21 10).

Definition vpb_sic_set_irq (irq level : Z) (s : vpb_sic_state) : res (vpb_sic_state * irq_calls) :=
  b ← bit32 irq;
  let s := mkSic (if truth level then Z.lor (sic_level s) b else Z.ldiff (sic_level s) b)
             (sic_mask s) (pic_enable s) (sic_irq s) in
  Ok (s, (if truth (Z.land (pic_enable s) b) then [(irq, level)] else []) ++ vpb_sic_update s).

(** A bad offset is reported on the output and reads as 0. *)
Definition vpb_sic_read (offset : Z) (s : vpb_sic_state) : Z :=
  match Z.shiftr offset 2 with
  | 0 => Z.land (sic_level s) (sic_mask s)
  | 1 => sic_level s
  | 2 => sic_mask s
  | 4 => Z.land (sic_level s) 1
  | 8 => pic_enable s
  | _ => 0
  end.

Definition vpb_sic_write (offset value : Z) (s : vpb_sic_state) : vpb_sic_state * irq_calls :=
  let set_mask m := mkSic (sic_level s) m (pic_enable s) (sic_irq s) in
  let set_pic p := mkSic (sic_level s) (sic_mask s) p (sic_irq s) in
  let done s := (s, vpb_sic_update s) in
  let done_pic s := (s, vpb_sic_update_pic s ++ vpb_sic_update s) in
  match Z.shiftr offset 2 with
  | 2 => done (set_mask (Z.lor (sic_mask s) value))
  | 3 => done (set_mask (Z.ldiff (sic_mask s) value))
  | 4 => done (if truth value then set_mask (Z.lor (sic_mask s) 1) else s)
  | 5 => done (if truth value then set_mask (Z.ldiff (sic_mask s) 1) else s)
  | 8 => done_pic (set_pic (Z.lor (pic_enable s) (Z.land value 0x7fe00000)))
  | 9 => done_pic (set_pic (Z.ldiff (pic_enable s) value))
  | _ => (s, [])
  end.

Definition vpb_sic_init : vpb_sic_state := mkSic 0 0 0 31.

(** ** The board *)

Record board := mkBoard { b_sic : vpb_sic_state; b_vic : vic }.

(** Devices raise and lower lines of the two controllers; the guest accesses
    their registers. *)
Inductive board_op :=
| Pic_op (op : pl190_op)
| Sic_source (irq level : Z)
| Sic_read (offset : Z)
| Sic_write (offset value : Z).

Definition board_step (op : board_op) (b : board) : res (Z * board) :=
  match op with
  | Pic_op op => '(r, v) ← vic_step op (b_vic b); Ok (r, mkBoard (b_sic b) v)
  | Sic_source irq level =>
      '(s, calls) ← vpb_sic_set_irq irq level (b_sic b);
      v ← qemu_set_irqs calls (b_vic b); Ok (0, mkBoard s v)
  | Sic_read offset => Ok (vpb_sic_read offset (b_sic b), b)
  | Sic_write offset value =>
      let '(s, calls) := vpb_sic_write offset value (b_sic b) in
      v ← qemu_set_irqs calls (b_vic b); Ok (0, mkBoard s v)
  end.

(** The PL190 lines 21 to 31 belong to the secondary controller. *)
Definition board_op_ok (op : board_op) : Prop :=
  match op with
  | Pic_op (Set_irq irq _) => 0 <= irq < 21
  | Pic_op op => op_ok op
  | Sic_source irq _ => 0 <= irq < 32
  | Sic_read offset => 0 <= offset < 0x1000
  | Sic_write offset value => 0 <= offset < 0x1000 ∧ is_u32 value
  end.
Definition board_bad (op : board_op) : bool :=
  match op with Pic_op op => bad_op op | _ => false end.

(** ** The wires agree with the registers *)

Record vic_synced (v : vic) (st : list Z) : Prop := {
  vic_wf : pl190_wf st (vic_pic v);
  vic_irq : Z.testbit (interrupt_request (vic_cpu v)) 1 = irq_out (vic_pic v);
  vic_fiq : Z.testbit (interrupt_request (vic_cpu v)) 4 = fiq_out (vic_pic v);
}.

Record sic_wf (s : vpb_sic_state) : Prop := {
  sic_words : is_u32 (sic_level s) ∧ is_u32 (sic_mask s);
  sic_pic : ∀ n, Z.testbit (pic_enable s) n = true → 21 <= n <= 30;
  sic_parent : sic_irq s = 31;
}.

(** The secondary output is line 31 of the PL190; a source that is passed
    through drives the line of its own number. *)
Record board_synced (b : board) (st : list Z) : Prop := {
  b_vic_ok : vic_synced (b_vic b) st;
  b_sic_ok : sic_wf (b_sic b);
  b_irq31 : Z.testbit (pl_level (vic_pic (b_vic b))) 31 =
            truth (Z.land (sic_level (b_sic b)) (sic_mask (b_sic b)));
  b_through : ∀ n, Z.testbit (pic_enable (b_sic b)) n = true →
              Z.testbit (pl_level (vic_pic (b_vic b))) n = Z.testbit (sic_level (b_sic b)) n;
}.

Lemma request_bit (b : bool) m env n :
  Z.testbit (interrupt_request (if b then cpu_interrupt m env else cpu_reset_interrupt m env)) n =
  if Z.testbit m n then b else Z.testbit (interrupt_request env) n.
Proof.
  destruct b; cbn [cpu_interrupt cpu_reset_interrupt interrupt_request with_interrupt_request];
    rewrite ?Z.lor_spec, ?Z.ldiff_spec; destruct (Z.testbit m n), (Z.testbit (interrupt_request env) n); done.
Qed.
Lemma drive_cpu s env :
  ∃ env', qemu_set_irqs (pl190_lines s) env = Ok env' ∧
    Z.testbit (interrupt_request env') 1 = irq_out s ∧ Z.testbit (interrupt_request env') 4 = fiq_out s.
Proof.
  unfold pl190_lines. cbn [qemu_set_irqs]. unfold deliver, cpu_sink, arm_pic_cpu_handler.
  cbn [Z.eqb mbind res_bind ARM_PIC_CPU_IRQ ARM_PIC_CPU_FIQ]. rewrite !truth_flag.
  eexists. split; [reflexivity|]. by rewrite !request_bit.
Qed.

Lemma vic_step_ok op v st :
  vic_synced v st → op_ok op →
  if bad_op op then vic_step op v = Err Hw_error
  else ∃ r v', vic_step op v = Ok (r, v') ∧ vic_synced v' (stack_after op (vic_pic v) st) ∧
       ∃ calls, pl190_step op (vic_pic v) = Ok (r, vic_pic v', calls).
Proof.
  intros [W Hi Hf] Ho. pose proof (pl190_access _ _ _ W Ho) as H. unfold vic_step.
  destruct (bad_op op); [by rewrite H|].
  destruct H as (r & s' & calls & -> & W' & Hc). cbn [mbind res_bind].
  destruct Hc as [->|[-> ->]].
  - destruct (drive_cpu s' (vic_cpu v)) as (env' & -> & ? & ?). cbn [mbind res_bind]. eauto 8 using Build_vic_synced.
  - simpl. eauto 8 using Build_vic_synced.
Qed.

Definition vic_level (v : vic) (n : Z) : bool := Z.testbit (pl_level (vic_pic v)) n.
(** The level of line [n] after [calls]. *)
Definition wire_after (calls : irq_calls) (n : Z) (b : bool) : bool :=
  fold_left (λ b '(line, level), if n =? line then truth level else b) calls b.

Lemma set_irq_level irq level s r s' calls :
  0 <= irq < 32 → pl190_step (Set_irq irq level) s = Ok (r, s', calls) →
  ∀ n, Z.testbit (pl_level s') n = if n =? irq then truth level else Z.testbit (pl_level s) n.
Proof.
  intros Hi H n. unfold pl190_step, pl190_set_irq in H. rewrite bit32_Ok in H by done.
  cbn [mbind res_bind] in H. unfold pl190_drive in H.
  destruct (pl190_update _) as [c|]; [|discriminate H]. cbn [mbind res_bind] in H.
  injection H as _ <- _. cbn [pl_level pl190_set_level].
  destruct (truth level); rewrite ?Z.lor_spec, ?Z.ldiff_spec, testbit_bit by lia;
    destruct (n =? irq), (Z.testbit (pl_level s) n); done.
Qed.

Lemma deliver_calls calls v st :
  vic_synced v st → Forall (λ c, 0 <= c.1 < 32) calls →
  ∃ v', qemu_set_irqs calls v = Ok v' ∧ vic_synced v' st ∧
    ∀ n, vic_level v' n = wire_after calls n (vic_level v n).
Proof.
  intros Hv Hc. revert v Hv. induction Hc as [|[line level] calls Hl Hc IH]; intros v Hv.
  - by exists v.
  - pose proof (vic_step_ok (Set_irq line level) v st Hv Hl) as (r & v1 & Hs & Hv1 & c & Hp).
    assert (deliver line level v = Ok v1) as E by (unfold deliver, vic_sink; by rewrite Hs).
    cbn [qemu_set_irqs]. rewrite E. cbn [mbind res_bind].
    destruct (IH v1 Hv1) as (v' & -> & Hv' & Hn). exists v'. split_and!; [done|done|].
    intros n. rewrite Hn. unfold vic_level at 1. rewrite (set_irq_level _ _ _ _ _ _ Hl Hp). done.
Qed.

Lemma wire_after_app a b n x : wire_after (a ++ b) n x = wire_after b n (wire_after a n x).
Proof. apply fold_left_app. Qed.
Lemma wire_after_other calls n b : Forall (λ c, c.1 ≠ n) calls → wire_after calls n b = b.
Proof.
  unfold wire_after. intros H. revert b. induction H as [|[l lv] calls Hl _ IH]; intros b; simpl; [done|].
  rewrite (proj2 (Z.eqb_neq n l)) by (simpl in Hl; congruence). apply IH.
Qed.
Lemma wire_after_const calls n b v :
  Forall (λ c, c.1 = n → truth c.2 = v) calls → (b = v ∨ Exists (λ c, c.1 = n) calls) →
  wire_after calls n b = v.
Proof.
  unfold wire_after. intros H. revert b. induction H as [|[l lv] calls Hl _ IH]; intros b Hb; simpl.
  - destruct Hb as [->|Hb]; [done|]. inversion Hb.
  - apply IH. destruct (Z.eqb_spec n l) as [->|Hne]; [left; by apply Hl|].
    destruct Hb as [->|Hb]; [by left|]. inversion Hb; subst; simpl in *; [congruence|by right].
Qed.

(** ** Passing sources through *)

Lemma update_pic_elem s line level :
  (line, level) ∈ vpb_sic_update_pic s ↔
  21 <= line <= 30 ∧ Z.testbit (pic_enable s) line = true ∧ level = flag (Z.testbit (sic_level s) line).
Proof.
  unfold vpb_sic_update_pic. rewrite list_elem_of_In, in_flat_map. split.
  - intros (i & Hi%in_seq & H). rewrite !truth_land_bit in H by lia.
    destruct (Z.testbit (pic_enable s) (Z.of_nat i)) eqn:E; simpl in H; [|done].
    destruct H as [[= <- <-]|[]]. split; [lia|done].
  - intros (Hr & He & ->). exists (Z.to_nat line). rewrite in_seq, Z2Nat.id by lia. split; [lia|].
    rewrite !truth_land_bit, He by lia. by left.
Qed.
Lemma update_pic_lines s : Forall (λ c, 21 <= c.1 <= 30) (vpb_sic_update_pic s).
Proof. apply Forall_forall. intros [l lv] H. by apply update_pic_elem in H as (? & _). Qed.
Lemma update_pic_wire s n b :
  sic_wf s → Z.testbit (pic_enable s) n = true →
  wire_after (vpb_sic_update_pic s) n b = Z.testbit (sic_level s) n.
Proof.
  intros Hs He. apply wire_after_const.
  - apply Forall_forall. intros [l lv] H%update_pic_elem. simpl. intros ->.
    destruct H as (_ & _ & ->). apply truth_flag.
  - right. apply Exists_exists. exists (n, flag (Z.testbit (sic_level s) n)). split; [|done].
    apply update_pic_elem. pose proof (sic_pic _ Hs n He). done.
Qed.

(** The calls of a write or a set end with the secondary output; what comes
    before brings the passed-through lines up to date. *)
Lemma board_after calls s v st :
  vic_synced v st → sic_wf s → Forall (λ c, 0 <= c.1 < 31) calls →
  (∀ n, Z.testbit (pic_enable s) n = true → wire_after calls n (vic_level v n) = Z.testbit (sic_level s) n) →
  ∃ v', qemu_set_irqs (calls ++ vpb_sic_update s) v = Ok v' ∧ board_synced (mkBoard s v') st.
Proof.
  intros Hv Hs Hc Ht.
  destruct (deliver_calls (calls ++ vpb_sic_update s) v st Hv) as (v' & H & Hv' & Hn).
  { apply Forall_app. split; [eapply Forall_impl; [exact Hc|]; simpl; lia|].
    unfold vpb_sic_update. rewrite (sic_parent _ Hs). constructor; [simpl; lia|constructor]. }
  exists v'. split; [done|]. constructor; [done|done| |]; cbn [b_sic b_vic].
  - pose proof (Hn 31) as H31. unfold vic_level in H31 at 1. rewrite H31, wire_after_app.
    unfold vpb_sic_update. rewrite (sic_parent _ Hs). apply truth_flag.
  - intros n He. pose proof (Hn n) as Hnn. unfold vic_level in Hnn at 1.
    rewrite Hnn, wire_after_app, Ht by done. apply wire_after_other.
    unfold vpb_sic_update. rewrite (sic_parent _ Hs). pose proof (sic_pic _ Hs n He).
    constructor; [simpl; lia|constructor].
Qed.

(** ** Every access keeps the wires in agreement *)

Lemma drive_inv s s' c : pl190_drive s = Ok (s', c) → s' = s.
Proof. unfold pl190_drive. intros H. inv_bind. by simplify_eq. Qed.
Lemma update_vectors_level s s' c : pl190_update_vectors s = Ok (s', c) → pl_level s' = pl_level s.
Proof.
  unfold pl190_update_vectors. intros H. apply bind_Ok in H as ([m pm] & _ & H). inv_bind.
  by apply drive_inv in H as ->.
Qed.
Lemma read_level offset s v s' c : pl190_read offset s = Ok (v, s', c) → pl_level s' = pl_level s.
Proof.
  assert (∀ r : res Z, (v ← r; Ok (v, s, [])) = Ok (v, s', c) → pl_level s' = pl_level s) as Hq.
  { intros r H. inv_bind. by simplify_eq. }
  unfold pl190_read. repeat (case_match; try done); try (by apply Hq).
  unfold pl190_read_vectaddr. intros H'. apply bind_Ok in H' as (i & _ & H').
  case_match; [by apply (Hq (aread (vect_addr s) 16))|].
  apply bind_Ok in H' as ([s1 c1] & E & H'). inv_bind. simplify_eq.
  case_match; [|by simplify_eq]. inv_bind. by apply drive_inv in E as ->.
Qed.
Lemma write_level offset val s s' c : pl190_write offset val s = Ok (s', c) → pl_level s' = pl_level s.
Proof.
  unfold pl190_write. repeat (case_match; try done); intros H'; inv_bind;
    (apply drive_inv in H' as -> || apply update_vectors_level in H'); done.
Qed.
Lemma reset_level s s' c : pl190_reset s = Ok (s', c) → pl_level s' = pl_level s.
Proof.
  unfold pl190_reset. intros H. apply bind_Ok in H as ([a1 c1] & _ & H). inv_bind.
  by apply update_vectors_level in H.
Qed.
Lemma pic_op_level op s r s' c n :
  board_op_ok (Pic_op op) → 21 <= n → pl190_step op s = Ok (r, s', c) →
  Z.testbit (pl_level s') n = Z.testbit (pl_level s) n.
Proof.
  destruct op as [irq level|offset|offset val|]; intros Ho Hn H.
  - simpl in Ho. rewrite (set_irq_level irq level s r s' c) by (done || lia).
    by rewrite (proj2 (Z.eqb_neq n irq)) by lia.
  - by rewrite (read_level _ _ _ _ _ H).
  - simpl in H. apply bind_Ok in H as ([s1 c1] & E & H). simplify_eq. by rewrite (write_level _ _ _ _ _ E).
  - simpl in H. apply bind_Ok in H as ([s1 c1] & E & H). simplify_eq. by rewrite (reset_level _ _ _ E).
Qed.

Lemma board_op_ok_pic op : board_op_ok (Pic_op op) → op_ok op.
Proof. destruct op; simpl; [lia|done..]. Qed.

Lemma sic_write_ok offset value s :
  sic_wf s → is_u32 value → sic_wf (vpb_sic_write offset value s).1.
Proof.
  intros [[Hl Hm] Hp Hi] Hval. unfold vpb_sic_write.
  assert (is_u32 1) by done. assert (0 <= value) by apply Hval.
  repeat case_match; constructor; cbn [fst sic_level sic_mask pic_enable sic_irq]; auto with varsim;
    try (split; auto with varsim; apply is_u32_ldiff; by (done || lia)).
  - intros n. rewrite Z.ldiff_spec. intros [? _]%andb_prop. auto.
  - intros n. rewrite Z.lor_spec, Z.land_spec. intros [?|[_ Hb]%andb_prop]%orb_prop; [auto|].
    assert (0 <= n < 32) as Hn by (eapply u32_bits_small; [|exact Hb]; done).
    change 0x7fe00000 with (Z.shiftl (Z.ones 10) 21) in Hb.
    rewrite Z.shiftl_spec, Z.testbit_ones in Hb by lia. bool_to_prop. lia.
Qed.

Lemma pic_op_synced op b st :
  board_synced b st → board_op_ok (Pic_op op) →
  if bad_op op then board_step (Pic_op op) b = Err Hw_error
  else ∃ r b', board_step (Pic_op op) b = Ok (r, b') ∧
       board_synced b' (stack_after op (vic_pic (b_vic b)) st).
Proof.
  intros [Hv Hs H31 Ht] Ho. pose proof (vic_step_ok op _ _ Hv (board_op_ok_pic _ Ho)) as H.
  unfold board_step. destruct (bad_op op); [by rewrite H|].
  destruct H as (r & v' & -> & Hv' & c & Hp). cbn [mbind res_bind].
  eexists r, _. split; [done|]. constructor; [done|done| |]; cbn [b_sic b_vic].
  - by rewrite (pic_op_level _ _ _ _ _ 31 Ho ltac:(lia) Hp).
  - intros n He. pose proof (sic_pic _ Hs n He).
    rewrite (pic_op_level _ _ _ _ _ n Ho ltac:(lia) Hp). by apply Ht.
Qed.

Lemma sic_source_synced irq level b st :
  board_synced b st → 0 <= irq < 32 →
  ∃ b', board_step (Sic_source irq level) b = Ok (0, b') ∧ board_synced b' st ∧
    sic_mask (b_sic b') = sic_mask (b_sic b) ∧
    (∀ n, Z.testbit (sic_level (b_sic b')) n =
          if n =? irq then truth level else Z.testbit (sic_level (b_sic b)) n).
Proof.
  intros [Hv Hs H31 Ht] Hi. destruct (b_sic b) as [l m p si] eqn:Eb.
  unfold board_step, vpb_sic_set_irq. rewrite Eb, bit32_Ok by done. cbn [mbind res_bind sic_level sic_mask pic_enable sic_irq] in *.
  set (l' := if truth level then Z.lor l (Z.shiftl 1 irq) else Z.ldiff l (Z.shiftl 1 irq)).
  assert (∀ n, Z.testbit l' n = if n =? irq then truth level else Z.testbit l n) as Hl'.
  { intros n. unfold l'. destruct (truth level); rewrite ?Z.lor_spec, ?Z.ldiff_spec, testbit_bit by lia;
      destruct (n =? irq), (Z.testbit l n); done. }
  destruct (board_after (if truth (Z.land p (Z.shiftl 1 irq)) then [(irq, level)] else [])
              (mkSic l' m p si) (b_vic b) st) as (v' & -> & Hb); [done| | |..].
  - destruct Hs as [[Hl Hm] Hp Hsi]. cbn in *. constructor; cbn; try done. split; [|done].
    unfold l'. destruct (truth level); auto with varsim.
    apply is_u32_ldiff; [done|apply Z.shiftl_nonneg; lia].
  - rewrite truth_land_bit by lia. destruct (Z.testbit p irq) eqn:E; [|constructor].
    pose proof (sic_pic _ Hs irq E). constructor; [simpl; lia|constructor].
  - cbn [pic_enable sic_level]. intros n He. rewrite Hl', truth_land_bit by lia.
    destruct (Z.eqb_spec n irq) as [->|Hne].
    + rewrite He. unfold wire_after. simpl. by rewrite Z.eqb_refl.
    + rewrite wire_after_other; [by apply Ht|]. case_match; [|constructor].
      constructor; [simpl; congruence|constructor].
  - cbn [mbind res_bind]. eexists. split_and!; [done|done|done|exact Hl'].
Qed.

Lemma sic_write_synced offset value b st :
  board_synced b st → 0 <= offset < 0x1000 → is_u32 value →
  ∃ b', board_step (Sic_write offset value) b = Ok (0, b') ∧ board_synced b' st.
Proof.
  intros Hb Ho Hval. destruct Hb as [Hv Hs H31 Ht] eqn:EE; clear EE.
  pose proof (sic_write_ok offset value _ Hs Hval) as Hs'. unfold board_step.
  assert (∀ s', sic_wf s' → sic_level s' = sic_level (b_sic b) → pic_enable s' = pic_enable (b_sic b) →
    ∃ b', (v ← qemu_set_irqs ([] ++ vpb_sic_update s') (b_vic b); Ok (0, mkBoard s' v)) = Ok (0, b') ∧
      board_synced b' st) as Hplain.
  { intros s' Hs1 El Ep. destruct (board_after [] s' (b_vic b) st) as (v' & -> & ?); [done|done|constructor| |eauto].
    rewrite El, Ep. exact Ht. }
  assert (∀ s', sic_wf s' →
    ∃ b', (v ← qemu_set_irqs (vpb_sic_update_pic s' ++ vpb_sic_update s') (b_vic b); Ok (0, mkBoard s' v)) = Ok (0, b') ∧
      board_synced b' st) as Hpic.
  { intros s' Hs1. destruct (board_after (vpb_sic_update_pic s') s' (b_vic b) st) as (v' & -> & ?); [done|done| | |eauto].
    - eapply Forall_impl; [apply update_pic_lines|]. simpl. lia.
    - intros n He. by apply update_pic_wire. }
  assert (∃ b', (v ← qemu_set_irqs [] (b_vic b); Ok (0, mkBoard (b_sic b) v)) = Ok (0, b') ∧ board_synced b' st) as Hno.
  { exists b. by destruct b. }
  unfold vpb_sic_write in *.
  repeat (case_match; cbn [fst] in Hs'; try exact Hno); try (by apply Hplain); by apply Hpic.
Qed.

(** ** Runs of the board *)

Fixpoint board_run (ops : list board_op) (b : board) : res board :=
  match ops with
  | [] => Ok b
  | op :: ops => '(_, b) ← board_step op b; board_run ops b
  end.

Definition cpu_idle : CPUState := mkCPU (replicate 16 0) false 0 0 0x13 0 0 0.
Definition board_power_on : board := mkBoard vpb_sic_init (mkVic pl190_power_on cpu_idle).

Lemma board_power_on_synced : board_synced board_power_on [].
Proof.
  destruct pl190_power_on_wf as [W _]. constructor; cbn; [constructor; done|constructor|done|done].
  - done.
  - intros n. by rewrite Z.bits_0.
  - done.
Qed.

Lemma board_step_synced op b st :
  board_synced b st → board_op_ok op →
  if board_bad op then board_step op b = Err Hw_error
  else ∃ r b' st', board_step op b = Ok (r, b') ∧ board_synced b' st'.
Proof.
  intros Hb Ho. destruct op as [op|irq level|offset|offset value]; cbn [board_bad].
  - pose proof (pic_op_synced op b st Hb Ho) as H. case_match; [done|]. naive_solver.
  - destruct (sic_source_synced irq level b st Hb Ho) as (b' & ? & ? & _). eauto.
  - exists (vpb_sic_read offset (b_sic b)), b, st. done.
  - destruct Ho. destruct (sic_write_synced offset value b st) as (b' & ? & ?); eauto.
Qed.

(** [C29]: Whatever the devices and the guest do with the two interrupt
    controllers from power on, short of the PL190 accesses that abort, the wires
    agree with the registers at every point: the CPU's IRQ and FIQ request bits
    are the outputs the PL190 registers call for, line 31 of the PL190 is high
    exactly when a source of the secondary controller is pending and unmasked,
    and a source that is passed through drives its own PL190 line. *)
Theorem board_wires_agree ops :
  Forall board_op_ok ops →
  if existsb board_bad ops then board_run ops board_power_on = Err Hw_error
  else ∃ b st, board_run ops board_power_on = Ok b ∧ board_synced b st.
Proof.
  intros Ho. pose proof board_power_on_synced as Hb. revert Hb.
  generalize board_power_on as b. generalize (@nil Z) as st.
  induction Ho as [|op ops Hop Ho IH]; intros st b Hb; simpl existsb; [by exists b, st|].
  simpl board_run. pose proof (board_step_synced op b st Hb Hop) as H.
  destruct (board_bad op); simpl orb; [by rewrite H|].
  destruct H as (r & b1 & st1 & -> & Hb1). cbn [mbind res_bind]. by apply (IH st1).
Qed.

#[global] Instance board_op_ok_dec op : Decision (board_op_ok op).
Proof. destruct op as [[]| | |]; unfold board_op_ok, op_ok, is_u32; apply _. Defined.

(** The guest unmasks the keyboard (secondary source 3) and primary line 31. *)
Definition enable_keyboard : list board_op := [Sic_write 0x08 0x8; Pic_op (Write 0x10 0x80000000)].

Lemma board_wires_agree_witness :
  ∃ b st, board_run (enable_keyboard ++ [Sic_source 3 1]) board_power_on = Ok b ∧ board_synced b st.
Proof.
  apply (board_wires_agree (enable_keyboard ++ [Sic_source 3 1])).
  refine (bool_decide_unpack (Forall board_op_ok (enable_keyboard ++ [Sic_source 3 1])) _). vm_compute. exact I.
Defined.

Lemma set_irq_regs irq level s r s' c :
  pl190_step (Set_irq irq level) s = Ok (r, s', c) → irq_enable s' = irq_enable s ∧ fiq_select s' = fiq_select s.
Proof.
  simpl. unfold pl190_set_irq. intros H. apply bind_Ok in H as ([s1 c1] & E & H). inv_bind. simplify_eq.
  by apply drive_inv in E as ->.
Qed.
Lemma deliver_regs calls v v' :
  qemu_set_irqs calls v = Ok v' →
  irq_enable (vic_pic v') = irq_enable (vic_pic v) ∧ fiq_select (vic_pic v') = fiq_select (vic_pic v).
Proof.
  revert v. induction calls as [|[line level] calls IH]; intros v H; [by simplify_eq/=|].
  cbn [qemu_set_irqs] in H. apply bind_Ok in H as (v1 & E & H). unfold deliver, vic_sink, vic_step in E.
  apply bind_Ok in E as ([r v2] & E & E2). injection E2 as ->.
  apply bind_Ok in E as ([[r' s'] c'] & E & E2). inv_bind. simplify_eq.
  destruct (IH _ H) as [-> ->]. by apply set_irq_regs in E.
Qed.
Lemma sic_source_regs irq level b r b' :
  board_step (Sic_source irq level) b = Ok (r, b') →
  irq_enable (vic_pic (b_vic b')) = irq_enable (vic_pic (b_vic b)) ∧
  fiq_select (vic_pic (b_vic b')) = fiq_select (vic_pic (b_vic b)).
Proof.
  cbn [board_step]. intros H. apply bind_Ok in H as ([s c] & _ & H). inv_bind. simplify_eq.
  by apply deliver_regs in E.
Qed.
Lemma irq_out_idle s n : pl190_wf [] s → irq_source s n → irq_out s = true.
Proof.
  intros W Hn. apply irq_level_testbit in Hn. pose proof (irq_level_u32 _ _ W) as Hi.
  pose proof (u32_bits_small _ _ Hi Hn). unfold irq_out, current_mask.
  pose proof (nested_hd _ _ _ (wf_nested _ _ W)) as ->.
  cbn [hd Z.eqb Pos.eqb]. apply truth_bits; [apply Z.land_nonneg; by right|].
  exists n. split; [lia|]. rewrite Z.land_spec, Hn. change 0xffffffff with (Z.ones 32).
  by rewrite Z.ones_spec_low by lia.
Qed.
Lemma has_request r : Z.testbit r 1 = true →
  truth (Z.land r (Z.lor (Z.lor CPU_INTERRUPT_FIQ CPU_INTERRUPT_HARD) CPU_INTERRUPT_EXITTB)) = true.
Proof.
  intros H. unfold truth. apply negb_true_iff, Z.eqb_neq. intros E.
  assert (Z.testbit (Z.land r 0x16) 1 = true) as H1 by (by rewrite Z.land_spec, H).
  change (Z.lor (Z.lor CPU_INTERRUPT_FIQ CPU_INTERRUPT_HARD) CPU_INTERRUPT_EXITTB) with 0x16 in E.
  by rewrite E, Z.bits_0 in H1.
Qed.

(** A source of the secondary controller reaches the CPU: when it is
    unmasked there, line 31 is enabled as an IRQ at the PL190 and no interrupt
    level is active, raising the source makes [cpu_has_work] answer true, so that
    a CPU that sleeps in WFI is woken. *)
Theorem sic_source_wakes_cpu b n pm now s :
  board_synced b [] → 0 <= n < 32 → Z.testbit (sic_mask (b_sic b)) n = true →
  Z.testbit (irq_enable (vic_pic (b_vic b))) 31 = true → Z.testbit (fiq_select (vic_pic (b_vic b))) 31 = false →
  ∃ b', board_step (Sic_source n 1) b = Ok (0, b') ∧ (cpu_has_work pm now (vic_cpu (b_vic b')) s).1 = true.
Proof.
  intros Hb Hn Hm He Hf.  destruct (sic_source_synced n 1 b [] Hb Hn) as (b' & Hs & Hb' & Hmask & Hlevel).
  exists b'. split; [done|]. destruct (sic_source_regs _ _ _ _ _ Hs) as [Ee Es].
  destruct (b_vic_ok _ _ Hb') as [W Hi _].
  assert (irq_out (vic_pic (b_vic b')) = true) as Hirq.
  { apply (irq_out_idle _ 31 W). unfold irq_source, pl190_pending. rewrite Ee, Es, Z.lor_spec, (b_irq31 _ _ Hb').
    split_and!; [|done|done]. apply orb_true_intro. left.
    apply truth_bits; [apply Z.land_nonneg; left; apply (sic_words _ (b_sic_ok _ _ Hb'))|].
    exists n. split; [lia|]. by rewrite Z.land_spec, Hlevel, Z.eqb_refl, Hmask, Hm. }
  rewrite Hirq in Hi. cbn [cpu_has_work fst]. by apply has_request.
Qed.

Definition keyboard_ready : board :=
  match board_run enable_keyboard board_power_on with Ok b => b | Err _ => board_power_on end.
Lemma keyboard_ready_synced : board_synced keyboard_ready [].
Proof.
  pose proof board_power_on_synced as H0. unfold keyboard_ready, enable_keyboard. cbn [board_run].
  destruct (sic_write_synced 0x08 0x8 _ _ H0) as (b1 & -> & H1); [lia|done|]. cbn [mbind res_bind].
  destruct (pic_op_synced (Write 0x10 0x80000000) b1 [] H1) as (r & b2 & -> & H2); [done|].
  cbn [mbind res_bind]. exact H2.
Qed.

Lemma sic_source_wakes_cpu_witness :
  ∃ b', board_step (Sic_source 3 1) keyboard_ready = Ok (0, b') ∧
    (cpu_has_work None 0 (vic_cpu (b_vic b')) var_init).1 = true.
Proof.
  apply (sic_source_wakes_cpu keyboard_ready 3 None 0 var_init).
  - apply keyboard_ready_synced.
  - lia.
  - vm_compute. reflexivity.
  - vm_compute. reflexivity.
  - vm_compute. reflexivity.
Defined.

(** ** Two corners of the secondary controller *)

(** Writing the soft interrupt registers does not raise or lower the soft
    interrupt: a write to SOFTINTSET sets bit 0 of the mask, one to SOFTINTCLR
    clears it, and the SOFTINT register, which shows bit 0 of the level, reads as
    before. *)
Theorem sic_softint_changes_mask s value :
  truth value = true →
  (vpb_sic_write 0x10 value s).1 = mkSic (sic_level s) (Z.lor (sic_mask s) 1) (pic_enable s) (sic_irq s) ∧
  (vpb_sic_write 0x14 value s).1 = mkSic (sic_level s) (Z.ldiff (sic_mask s) 1) (pic_enable s) (sic_irq s) ∧
  vpb_sic_read 0x10 (vpb_sic_write 0x10 value s).1 = vpb_sic_read 0x10 s ∧
  vpb_sic_read 0x10 (vpb_sic_write 0x14 value s).1 = vpb_sic_read 0x10 s.
Proof. intros H. unfold vpb_sic_write. cbn [Z.shiftr Z.shiftl Z.opp Pos.iter Z.div2 Pos.div2]. by rewrite H. Qed.

Lemma sic_softint_changes_mask_witness :
  (vpb_sic_write 0x10 1 vpb_sic_init).1 = mkSic 0 1 0 31 ∧ (vpb_sic_write 0x14 1 vpb_sic_init).1 = mkSic 0 0 0 31 ∧
  vpb_sic_read 0x10 (vpb_sic_write 0x10 1 vpb_sic_init).1 = 0 ∧
  vpb_sic_read 0x10 (vpb_sic_write 0x14 1 vpb_sic_init).1 = 0.
Proof. apply (sic_softint_changes_mask vpb_sic_init 1). reflexivity. Defined.

Lemma pl190_sic_calls calls s v v' st n :
  vic_synced v st → sic_wf s → Forall (λ c, 0 <= c.1 < 31 ∧ c.1 ≠ n) calls → n ≠ 31 →
  qemu_set_irqs (calls ++ vpb_sic_update s) v = Ok v' → vic_level v' n = vic_level v n.
Proof.
  intros Hv Hs Hc Hn H.
  destruct (deliver_calls (calls ++ vpb_sic_update s) v st Hv) as (v1 & H1 & _ & Hl).
  - apply Forall_app. split; [eapply Forall_impl; [exact Hc|]; simpl; lia|].
    unfold vpb_sic_update. rewrite (sic_parent _ Hs). constructor; [simpl; lia|constructor].
  - rewrite H in H1. injection H1 as <-. rewrite Hl. apply wire_after_other, Forall_app.
    split; [eapply Forall_impl; [exact Hc|]; by simpl; intros ? []|].
    unfold vpb_sic_update. rewrite (sic_parent _ Hs). constructor; [simpl; lia|constructor].
Qed.

(** A passed-through line stays up when its pass-through is disabled: if
    source [n] is high and passed through, then after the guest disables the
    pass-through with PICENCLR and the device lowers the source, line [n] of the
    PL190 is still high, since neither access drives a line that is not enabled. *)
Theorem sic_passthrough_sticks b st n :
  board_synced b st → Z.testbit (pic_enable (b_sic b)) n = true → Z.testbit (sic_level (b_sic b)) n = true →
  ∃ b1 b2, board_step (Sic_write 0x24 (Z.shiftl 1 n)) b = Ok (0, b1) ∧
    board_step (Sic_source n 0) b1 = Ok (0, b2) ∧
    Z.testbit (sic_level (b_sic b2)) n = false ∧ vic_level (b_vic b2) n = true.
Proof.
  intros Hb He Hl. pose proof (sic_pic _ (b_sic_ok _ _ Hb) n He) as Hn.
  destruct (sic_write_synced 0x24 (Z.shiftl 1 n) b st Hb) as (b1 & H1 & Hb1); [lia|apply is_u32_bit; lia|].
  destruct (sic_source_synced n 0 b1 st Hb1) as (b2 & H2 & Hb2 & _ & Hl2); [lia|].
  exists b1, b2. split_and!; [done|done|by rewrite Hl2, Z.eqb_refl|].
  assert (Z.testbit (pic_enable (b_sic b1)) n = false ∧ vic_level (b_vic b1) n = true) as [He1 Hv1].
  { unfold board_step, vpb_sic_write in H1. cbn [Z.shiftr Z.shiftl Z.opp Pos.iter Z.div2 Pos.div2] in H1.
    apply bind_Ok in H1 as (v1 & H1 & E). injection E as <-. cbn [b_sic b_vic pic_enable] in *.
    split; [by rewrite Z.ldiff_spec, testbit_bit, Z.eqb_refl, andb_false_r by lia|].
    erewrite (pl190_sic_calls _ _ _ _ st n); [|apply Hb|apply (b_sic_ok _ _ Hb1)| |lia|exact H1].
    - unfold vic_level. by rewrite (b_through _ _ Hb n He).
    - apply Forall_forall. intros [l lv] Hc%update_pic_elem. cbn [pic_enable] in Hc.
      destruct Hc as (? & Hc & _). simpl. split; [lia|]. intros ->.
      by rewrite Z.ldiff_spec, testbit_bit, Z.eqb_refl, andb_false_r in Hc by lia. }
  unfold board_step, vpb_sic_set_irq in H2. rewrite bit32_Ok in H2 by lia. cbn [mbind res_bind pic_enable] in H2.
  rewrite truth_land_bit, He1 in H2 by lia. apply bind_Ok in H2 as (v2 & H2 & E). injection E as <-.
  erewrite (pl190_sic_calls [] _ _ _ st n); [done|apply Hb1|apply (b_sic_ok _ _ Hb2)|constructor|lia|exact H2].
Qed.

(** A secondary source passed through: the network card at source 25. *)
Definition network_up : board :=
  match board_run [Sic_write 0x20 0x2000000; Sic_source 25 1] board_power_on with
  | Ok b => b | Err _ => board_power_on
  end.
Lemma network_up_synced : board_synced network_up [].
Proof.
  pose proof board_power_on_synced as H0. unfold network_up. cbn [board_run].
  destruct (sic_write_synced 0x20 0x2000000 _ _ H0) as (b1 & -> & H1); [lia|done|]. cbn [mbind res_bind].
  destruct (sic_source_synced 25 1 b1 [] H1) as (b2 & -> & H2 & _); [done|]. exact H2.
Qed.

Lemma sic_passthrough_sticks_witness :
  ∃ b1 b2, board_step (Sic_write 0x24 (Z.shiftl 1 25)) network_up = Ok (0, b1) ∧
    board_step (Sic_source 25 0) b1 = Ok (0, b2) ∧
    Z.testbit (sic_level (b_sic b2)) 25 = false ∧ vic_level (b_vic b2) 25 = true.
Proof.
  apply (sic_passthrough_sticks network_up [] 25).
  - apply network_up_synced.
  - vm_compute. reflexivity.
  - vm_compute. reflexivity.
Defined.
