(* ===== verification/PTimer.v ===== *)
(** * PTimer: the countdown timer of the devices (hw/ptimer.c)

    A counter that runs down once per period, the period being a 64.32 fixed-point
    number of nanoseconds ([period], [period_frac]).  [now] is the virtual clock at
    the call.  The timer of the emulator that fires the countdown is its deadline,
    when it is armed, and the bottom half of the device whether it is scheduled. *)

From S2P Require Import Prelude.
Local Open Scope Z_scope.

Record ptimer_state := mkPtimer {
  enabled : Z;                      (* 0 = disabled, 1 = periodic, 2 = oneshot *)
  limit : Z;
  delta : Z;
  period_frac : Z;
  period : Z;
  last_event : Z;
  next_event : Z;
  bh : option bool;                 (* NULL, or the bottom half, and whether it is scheduled *)
  timer : option Z;                 (* the deadline of the timer, when it is armed *)
}.

Definition set_enabled (s : ptimer_state) (e : Z) : ptimer_state :=
  mkPtimer e (limit s) (delta s) (period_frac s) (period s) (last_event s) (next_event s) (bh s) (timer s).
Definition set_delta (s : ptimer_state) (d : Z) : ptimer_state :=
  mkPtimer (enabled s) (limit s) d (period_frac s) (period s) (last_event s) (next_event s) (bh s) (timer s).
Definition set_limit (s : ptimer_state) (l : Z) : ptimer_state :=
  mkPtimer (enabled s) l (delta s) (period_frac s) (period s) (last_event s) (next_event s) (bh s) (timer s).
Definition set_period (s : ptimer_state) (p f : Z) : ptimer_state :=
  mkPtimer (enabled s) (limit s) (delta s) f p (last_event s) (next_event s) (bh s) (timer s).
Definition set_events (s : ptimer_state) (l n : Z) : ptimer_state :=
  mkPtimer (enabled s) (limit s) (delta s) (period_frac s) (period s) l n (bh s) (timer s).
Definition set_next (s : ptimer_state) (n : Z) : ptimer_state := set_events s (last_event s) n.
Definition set_bh (s : ptimer_state) (b : option bool) : ptimer_state :=
  mkPtimer (enabled s) (limit s) (delta s) (period_frac s) (period s) (last_event s) (next_event s) b (timer s).
(** [qemu_mod_timer] and [qemu_del_timer]. *)
Definition set_timer (s : ptimer_state) (t : option Z) : ptimer_state :=
  mkPtimer (enabled s) (limit s) (delta s) (period_frac s) (period s) (last_event s) (next_event s) (bh s) t.

Definition ptimer_trigger (s : ptimer_state) : ptimer_state :=
  match bh s with Some _ => set_bh s (Some true) | None => s end.

Definition ptimer_reload (s : ptimer_state) : ptimer_state :=
  let s := if delta s =? 0 then set_delta (ptimer_trigger s) (limit s) else s in
  if (delta s =? 0) || (period s =? 0) then set_enabled s 0
  else
    let s := set_events s (next_event s) (s64 (next_event s + u64 (delta s * period s))) in
    let s := if truth (period_frac s)
             then set_next s (s64 (next_event s + Z.shiftr (u64 (period_frac s * delta s)) 32)) else s in
    set_timer s (Some (next_event s)).

Definition ptimer_tick (s : ptimer_state) : ptimer_state :=
  let s := set_delta (ptimer_trigger s) 0 in
  if enabled s =? 2 then set_enabled s 0 else ptimer_reload s.

Definition clz64 (v : Z) : Z := if v =? 0 then 64 else 63 - Z.log2 v.

(** The divisor of the count, scaled by [shift]. *)
Definition scaled_period (period frac shift : Z) : Z :=
  let div := u64 (Z.shiftl period shift) in
  if 32 <=? shift then Z.lor div (u64 (Z.shiftl frac (shift - 32)))
  else
    let div := if truth shift then Z.lor div (Z.shiftr frac (32 - shift)) else div in
    if truth (u32 (Z.shiftl frac shift)) then u64 (div + 1) else div.

Definition ptimer_get_count (now : Z) (s : ptimer_state) : res Z :=
  if truth (enabled s) then
    if (0 <? s64 (now - next_event s)) || (period s =? 0) then Ok 0
    else
      let rem := u64 (next_event s - now) in
      let div := u64 (period s) in
      let clz1 := clz64 rem in
      let clz2 := clz64 div in
      let shift := if clz1 <? clz2 then clz1 else clz2 in
      let rem := u64 (Z.shiftl rem shift) in
      let div := scaled_period div (period_frac s) shift in
      if div =? 0 then Err Div_by_zero else Ok (rem / div)
  else Ok (delta s).

Definition ptimer_set_count (now count : Z) (s : ptimer_state) : ptimer_state :=
  let s := set_delta s count in
  if truth (enabled s) then ptimer_reload (set_next s now) else s.

Definition ptimer_run (now oneshot : Z) (s : ptimer_state) : ptimer_state :=
  if truth (enabled s) then s
  else if period s =? 0 then s
  else ptimer_reload (set_next (set_enabled s (if truth oneshot then 2 else 1)) now).

Definition ptimer_stop (now : Z) (s : ptimer_state) : res ptimer_state :=
  if negb (truth (enabled s)) then Ok s
  else
    c ← ptimer_get_count now s;
    Ok (set_enabled (set_timer (set_delta s c) None) 0).

Definition ptimer_set_period (now p : Z) (s : ptimer_state) : ptimer_state :=
  let s := set_period s p 0 in
  if truth (enabled s) then ptimer_reload (set_next s now) else s.

Definition ptimer_set_freq (now freq : Z) (s : ptimer_state) : res ptimer_state :=
  if freq =? 0 then Err Div_by_zero
  else
    let s := set_period s (1000000000 / freq) (u32 (Z.shiftl 1000000000 32 / freq)) in
    Ok (if truth (enabled s) then ptimer_reload (set_next s now) else s).

Definition ptimer_set_limit (now l reload : Z) (s : ptimer_state) : ptimer_state :=
  let s := set_limit s l in
  let s := if truth reload then set_delta s l else s in
  if truth (enabled s) && truth reload then ptimer_reload (set_next s now) else s.

Definition ptimer_init (b : option bool) : ptimer_state := mkPtimer 0 0 0 0 0 0 0 b None.

(** The emulator's timer list, for this timer: when the deadline has passed the
    timer is taken off the list and its callback called. *)
Definition run_timer (now : Z) (s : ptimer_state) : ptimer_state :=
  match timer s with
  | Some t => if t <=? now then ptimer_tick (set_timer s None) else s
  | None => s
  end.

(** ** The count *)

(** The time of one count, in units of [2^-32] nanoseconds. *)
Definition fixed_period (s : ptimer_state) : Z := period s * 2 ^ 32 + period_frac s.

(** A running timer with a sensible period whose deadline is at most [2^63] ahead. *)
Record running (now : Z) (s : ptimer_state) : Prop := {
  run_enabled : truth (enabled s) = true;
  run_period : 1 <= period s < 2 ^ 32;
  run_frac : is_u32 (period_frac s);
  run_event : 0 <= next_event s - now < 2 ^ 63;
}.

Lemma clz64_spec v : 0 < v < 2 ^ 64 → 0 <= clz64 v <= 63 ∧ ∀ k, 0 <= k <= clz64 v → v * 2 ^ k < 2 ^ 64.
Proof.
  intros Hv. unfold clz64. rewrite (proj2 (Z.eqb_neq v 0)) by lia.
  pose proof (Z.log2_spec v ltac:(lia)) as [_ Hl]. pose proof (Z.log2_nonneg v).
  assert (Z.log2 v < 64) by (apply Z.log2_lt_pow2; lia). split; [lia|]. intros k Hk.
  apply (Z.lt_le_trans _ (2 ^ Z.succ (Z.log2 v) * 2 ^ k)).
  - apply Z.mul_lt_mono_pos_r; [apply Z.pow_pos_nonneg; lia|done].
  - rewrite <- Z.pow_add_r by lia. apply Z.pow_le_mono_r; lia.
Qed.
Lemma clz64_small v : 0 <= v < 2 ^ 32 → 32 <= clz64 v.
Proof.
  intros Hv. unfold clz64. destruct (Z.eqb_spec v 0); [lia|].
  assert (Z.log2 v < 32) by (apply Z.log2_lt_pow2; lia). lia.
Qed.

(** The shift of the count. *)
Definition count_shift (rem p : Z) : Z := if clz64 rem <? clz64 p then clz64 rem else clz64 p.

Lemma count_shift_spec rem p :
  0 <= rem < 2 ^ 64 → 1 <= p < 2 ^ 32 →
  let k := count_shift rem p in
  0 <= k <= 63 ∧ rem * 2 ^ k < 2 ^ 64 ∧ p * 2 ^ k < 2 ^ 64 ∧ (rem < 2 ^ 32 → 32 <= k).
Proof.
  intros Hr Hp k. pose proof (clz64_spec p ltac:(lia)) as [Hc2 Hp2]. pose proof (clz64_small p ltac:(lia)).
  destruct (decide (rem = 0)) as [->|].
  { unfold k, count_shift. change (clz64 0) with 64. rewrite (proj2 (Z.ltb_ge 64 (clz64 p))) by lia.
    split_and!; [lia|lia|lia|apply Hp2; lia|lia]. }
  pose proof (clz64_spec rem ltac:(lia)) as [Hc1 Hr1]. unfold k, count_shift.
  destruct (Z.ltb_spec (clz64 rem) (clz64 p)); split_and!; try lia; try (apply Hr1; lia); try (apply Hp2; lia).
  all: intros Hs; pose proof (clz64_small rem ltac:(lia)); lia.
Qed.

(** The scaled divisor is the period rounded up, and exact from shift 32 on. *)
Lemma scaled_period_high p f k :
  0 <= p → is_u32 f → 32 <= k <= 63 → p * 2 ^ k < 2 ^ 64 →
  scaled_period p f k = (p * 2 ^ 32 + f) * 2 ^ (k - 32).
Proof.
  intros Hp Hf Hk Hpk. unfold scaled_period. rewrite (proj2 (Z.leb_le 32 k)) by lia.
  rewrite !Z.shiftl_mul_pow2 by lia.
  assert (2 ^ k = 2 ^ 32 * 2 ^ (k - 32)) as E by (rewrite <- Z.pow_add_r by lia; f_equal; lia).
  assert (0 < 2 ^ (k - 32)) by (apply Z.pow_pos_nonneg; lia).
  assert (2 ^ k <= 2 ^ 63) by (apply Z.pow_le_mono_r; lia).
  assert (f * 2 ^ (k - 32) < 2 ^ k) by (rewrite E; apply Z.mul_lt_mono_pos_r; [done|apply Hf]).
  destruct Hf as [Hf0 Hf].
  rewrite !u64_small by (split; [apply Z.mul_nonneg_nonneg; lia|lia]).
  rewrite lor_add; [rewrite E; ring|lia|]. split; [apply Z.mul_nonneg_nonneg|]; lia.
Qed.
Lemma scaled_period_low p f k :
  0 <= p < 2 ^ 32 → is_u32 f → 0 <= k < 32 →
  let d := scaled_period p f k in
  (p * 2 ^ 32 + f) * 2 ^ k <= d * 2 ^ 32 < (p * 2 ^ 32 + f) * 2 ^ k + 2 ^ 32.
Proof.
  intros Hp [Hf0 Hf] Hk d.
  assert (2 ^ 32 = 2 ^ k * 2 ^ (32 - k)) as E by (rewrite <- Z.pow_add_r by lia; f_equal; lia).
  assert (0 < 2 ^ k) as Hk0 by (apply Z.pow_pos_nonneg; lia).
  assert (0 < 2 ^ (32 - k)) as Hk1 by (apply Z.pow_pos_nonneg; lia).
  assert (2 ^ k <= 2 ^ 31) by (apply Z.pow_le_mono_r; lia).
  assert (p * 2 ^ k <= (2 ^ 32 - 1) * 2 ^ 31) by (apply Z.mul_le_mono_nonneg; lia).
  assert (d = p * 2 ^ k + f / 2 ^ (32 - k) + (if f * 2 ^ k mod 2 ^ 32 =? 0 then 0 else 1)) as ->.
  { unfold d, scaled_period. rewrite (proj2 (Z.leb_gt 32 k)) by lia.
    rewrite !Z.shiftl_mul_pow2, Z.shiftr_div_pow2 by lia.
    rewrite (u64_small (p * 2 ^ k)) by (split; [apply Z.mul_nonneg_nonneg; lia|lia]).
    assert (0 <= f / 2 ^ (32 - k) < 2 ^ k) as Hq.
    { split; [apply Z.div_pos; lia|]. apply Z.div_lt_upper_bound; lia. }
    assert ((if truth k then Z.lor (p * 2 ^ k) (f / 2 ^ (32 - k)) else p * 2 ^ k) = p * 2 ^ k + f / 2 ^ (32 - k)) as ->.
    { unfold truth. destruct (Z.eqb_spec k 0) as [->|]; cbn [negb]; [|apply lor_add; lia].
      change (2 ^ 0) with 1 in *. lia. }
    unfold truth, u32. destruct (f * 2 ^ k mod 2 ^ 32 =? 0); cbn [negb]; [lia|].
    apply u64_small. lia. }
  pose proof (Z.div_mod f (2 ^ (32 - k)) ltac:(lia)) as Hdm.
  pose proof (Z.mod_pos_bound f (2 ^ (32 - k)) Hk1) as Hmb.
  assert (f * 2 ^ k mod 2 ^ 32 = f mod 2 ^ (32 - k) * 2 ^ k) as Hm
    by (rewrite E, (Z.mul_comm (2 ^ k)); apply Z.mul_mod_distr_r; lia).
  rewrite Hm. set (q := f / 2 ^ (32 - k)) in *. set (r := f mod 2 ^ (32 - k)) in *.
  assert (f * 2 ^ k = q * 2 ^ 32 + r * 2 ^ k) as Hfk by (rewrite Hdm, E; ring).
  assert (r * 2 ^ k < 2 ^ 32) by (rewrite E, (Z.mul_comm (2 ^ k)); apply Z.mul_lt_mono_pos_r; lia).
  destruct (Z.eqb_spec (r * 2 ^ k) 0) as [Hr|Hr]; nia.
Qed.

(** The count of a running timer, as a division. *)
Lemma get_count_eq now s :
  running now s →
  let rem := next_event s - now in
  let k := count_shift rem (period s) in
  let d := scaled_period (period s) (period_frac s) k in
  0 < d ∧ ptimer_get_count now s = Ok (rem * 2 ^ k / d) ∧
  fixed_period s * 2 ^ k <= d * 2 ^ 32 ∧ (rem < 2 ^ 32 → 32 <= k ∧ d = fixed_period s * 2 ^ (k - 32)).
Proof.
  intros [He Hp Hf Hn] rem k d. fold rem in Hn.
  pose proof (count_shift_spec rem (period s) ltac:(lia) Hp) as (Hk & Hrk & Hpk & H32). fold k in Hk, Hrk, Hpk, H32.
  assert (0 < 2 ^ k) by (apply Z.pow_pos_nonneg; lia).
  assert (fixed_period s * 2 ^ k <= d * 2 ^ 32 ∧ (32 <= k → d = fixed_period s * 2 ^ (k - 32))) as [Hd1 Hd2].
  { unfold d, fixed_period. destruct (Z.le_gt_cases 32 k).
    - rewrite scaled_period_high by (done || lia). split; [|done].
      rewrite <- Z.mul_assoc, <- Z.pow_add_r by lia. replace (k - 32 + 32) with k by lia. lia.
    - split; [|lia]. apply scaled_period_low; [lia|done|lia]. }
  assert (0 < d).
  { unfold fixed_period in Hd1. destruct Hf. nia. }
  split_and!; [done| |done|].
  - unfold ptimer_get_count. rewrite He, (s64_small (now - next_event s)) by (unfold is_s64; lia).
    rewrite (proj2 (Z.ltb_ge 0 (now - next_event s))), (proj2 (Z.eqb_neq (period s) 0)) by lia.
    rewrite (u64_small (next_event s - now)), (u64_small (period s)) by lia. cbn [orb].
    fold rem. fold (count_shift rem (period s)). fold k. fold d.
    rewrite (proj2 (Z.eqb_neq d 0)) by lia. rewrite Z.shiftl_mul_pow2 by lia. by rewrite u64_small by lia.
  - intros Hr. split; [|apply Hd2]; by apply H32.
Qed.

(** [C37]: Reading a running timer, whose period is less than [2^32] nanoseconds, never shows
    more counts than are left: the value is at most the time to the deadline divided by the
    exact (64.32 fixed-point) period, and it is exactly that, rounded down, when the deadline
    is less than [2^32] nanoseconds away. *)
Theorem ptimer_count_rounds_down now s :
  running now s →
  ∃ c, ptimer_get_count now s = Ok c ∧ 0 <= c <= (next_event s - now) * 2 ^ 32 / fixed_period s ∧
    (next_event s - now < 2 ^ 32 → c = (next_event s - now) * 2 ^ 32 / fixed_period s).
Proof.
  intros R. pose proof (get_count_eq now s R) as (Hd & Hc & Hle & Hex).
  destruct R as [He Hp Hf Hn]. set (rem := next_event s - now) in *. set (k := count_shift rem (period s)) in *.
  set (d := scaled_period (period s) (period_frac s) k) in *.
  assert (0 < fixed_period s) as HP by (unfold fixed_period; destruct Hf; lia).
  assert (0 <= k) as Hk0 by (apply (count_shift_spec rem (period s)); lia).
  assert (0 < 2 ^ k) by (apply Z.pow_pos_nonneg; lia).
  exists (rem * 2 ^ k / d). split_and!; [done|apply Z.div_pos; nia| |].
  - apply Z.div_le_lower_bound; [done|].
    pose proof (Z.mul_div_le (rem * 2 ^ k) d Hd) as Hm.
    assert (0 <= rem * 2 ^ k / d) by (apply Z.div_pos; nia).
    set (c := rem * 2 ^ k / d) in *. apply (Z.mul_le_mono_pos_r _ _ (2 ^ k)); [done|]. nia.
  - intros Hr. destruct (Hex Hr) as [Hk ->].
    replace (rem * 2 ^ k) with (rem * 2 ^ 32 * 2 ^ (k - 32))
      by (rewrite <- Z.mul_assoc, <- Z.pow_add_r by lia; do 2 f_equal; lia).
    apply Z.div_mul_cancel_r; [lia|]. apply Z.pow_nonzero; lia.
Qed.

(** A 1 MHz timer that was started at 0 with a limit of 1000. *)
Definition example_timer : ptimer_state :=
  match ptimer_set_freq 0 1000000 (ptimer_set_limit 0 1000 1 (ptimer_init (Some false))) with
  | Ok s => ptimer_run 0 0 s
  | Err _ => ptimer_init None
  end.
Lemma example_running : running 250000 example_timer.
Proof. constructor; vm_compute; try split; try reflexivity; discriminate. Qed.

Lemma ptimer_count_rounds_down_witness :
  ∃ c, ptimer_get_count 250000 example_timer = Ok c ∧ 0 <= c <= (1000000 - 250000) * 2 ^ 32 / (1000 * 2 ^ 32 + 0) ∧
    (1000000 - 250000 < 2 ^ 32 → c = (1000000 - 250000) * 2 ^ 32 / (1000 * 2 ^ 32 + 0)).
Proof. apply (ptimer_count_rounds_down 250000 example_timer). apply example_running. Defined.

Lemma count_exact now s c :
  running now s → next_event s - now < 2 ^ 32 → ptimer_get_count now s = Ok c →
  c = (next_event s - now) * 2 ^ 32 / fixed_period s.
Proof.
  intros R Hr Hc. pose proof (get_count_eq now s R) as (Hd & Hc' & _ & Hex).
  destruct (Hex Hr) as [Hk Ed]. rewrite Hc in Hc'. injection Hc' as ->. rewrite Ed.
  set (k := count_shift _ _) in *. set (rem := next_event s - now) in *.
  replace (rem * 2 ^ k) with (rem * 2 ^ 32 * 2 ^ (k - 32))
    by (rewrite <- Z.mul_assoc, <- Z.pow_add_r by lia; do 2 f_equal; lia).
  apply Z.div_mul_cancel_r; [|apply Z.pow_nonzero; lia].
  unfold fixed_period. destruct R as [_ ? [? _] _]. lia.
Qed.

(** In the last [2^32] nanoseconds before its deadline a timer does not go
    backwards: a later reading of the same countdown is never higher. *)
Theorem ptimer_count_monotone now1 now2 s c1 c2 :
  running now1 s → running now2 s → now1 <= now2 → next_event s - now1 < 2 ^ 32 →
  ptimer_get_count now1 s = Ok c1 → ptimer_get_count now2 s = Ok c2 → c2 <= c1.
Proof.
  intros R1 R2 Hle Hr H1 H2. rewrite (count_exact _ _ _ R1 Hr H1).
  rewrite (count_exact _ _ _ R2 ltac:(lia) H2). apply Z.div_le_mono; [|lia].
  unfold fixed_period. destruct R1 as [_ ? [? _] _]. lia.
Qed.

Lemma ptimer_count_monotone_witness : 500 <= 750.
Proof.
  apply (ptimer_count_monotone 250000 500000 example_timer 750 500).
  - apply example_running.
  - constructor; vm_compute; try split; try reflexivity; discriminate.
  - lia.
  - vm_compute. reflexivity.
  - vm_compute. reflexivity.
  - vm_compute. reflexivity.
Defined.

(** A timer at 412018696 Hz with a 32-bit limit, started at 0. *)
Definition fast_timer : ptimer_state :=
  match ptimer_set_freq 0 412018696 (ptimer_set_limit 0 4000000000 1 (ptimer_init (Some false))) with
  | Ok s => ptimer_run 0 0 s
  | Err _ => ptimer_init None
  end.

(** Further from the deadline the rounding depends on the time left, and
    the count can go backwards: a timer at 412018696 Hz with a 32-bit limit reads
    3539213648 when [2^33] nanoseconds are left, and 3539213649 a nanosecond later. *)
Theorem ptimer_count_goes_back :
  let now := next_event fast_timer - 2 ^ 33 in
  running now fast_timer ∧ running (now + 1) fast_timer ∧
  ptimer_get_count now fast_timer = Ok 3539213648 ∧ ptimer_get_count (now + 1) fast_timer = Ok 3539213649.
Proof.
  split_and!; [| |vm_compute; reflexivity|vm_compute; reflexivity];
    constructor; vm_compute; try split; try reflexivity; discriminate.
Qed.

(** ** Periodic operation *)

(** The nanoseconds of one round of the timer. *)
Definition round_time (s : ptimer_state) : Z :=
  limit s * period s + Z.shiftr (period_frac s * limit s) 32.

(** A periodic timer that is counting a round. *)
Record periodic (s : ptimer_state) : Prop := {
  per_enabled : enabled s = 1;
  per_limit : 1 <= limit s < 2 ^ 32;
  per_delta : delta s = limit s;
  per_period : 1 <= period s < 2 ^ 31;
  per_frac : is_u32 (period_frac s);
  per_timer : timer s = Some (next_event s);
  per_bh : is_Some (bh s);
}.

Lemma reload_next s :
  1 <= delta s < 2 ^ 32 → 1 <= period s < 2 ^ 31 → is_u32 (period_frac s) →
  - 2 ^ 63 <= next_event s → next_event s + delta s * period s + Z.shiftr (period_frac s * delta s) 32 < 2 ^ 63 →
  let t := next_event s + delta s * period s + Z.shiftr (period_frac s * delta s) 32 in
  ptimer_reload s = set_timer (set_events s (next_event s) t) (Some t).
Proof.
  intros Hd Hp [Hf0 Hf] Hlo Hhi. rewrite Z.shiftr_div_pow2 in * by lia.
  assert (0 <= delta s * period s < 2 ^ 63) as Hdp by nia.
  assert (0 <= period_frac s * delta s < 2 ^ 64) as Hfd by nia.
  assert (0 <= period_frac s * delta s / 2 ^ 32) by (apply Z.div_pos; lia).
  unfold ptimer_reload. rewrite (proj2 (Z.eqb_neq (delta s) 0)) by lia.
  rewrite (proj2 (Z.eqb_neq (delta s) 0)), (proj2 (Z.eqb_neq (period s) 0)) by lia. cbn [orb].
  rewrite (u64_small (delta s * period s)) by lia.
  rewrite (s64_small (next_event s + delta s * period s)) by (unfold is_s64; lia).
  cbn [period_frac set_events next_event delta]. unfold truth.
  destruct (Z.eqb_spec (period_frac s) 0) as [E|Hne]; cbn [negb].
  - rewrite E. change (0 * delta s / 2 ^ 32) with 0. by rewrite Z.add_0_r.
  - rewrite (u64_small (period_frac s * delta s)), Z.shiftr_div_pow2 by lia.
    by rewrite s64_small by (unfold is_s64; lia).
Qed.

Lemma reload_expired s b :
  delta s = 0 → bh s = Some b → limit s ≠ 0 →
  ptimer_reload s = ptimer_reload (set_delta (set_bh s (Some true)) (limit s)).
Proof.
  destruct s as [e l d f p le ne bh0 t]; cbn [delta bh limit]. intros -> -> Hl.
  unfold ptimer_reload at 1 2. unfold ptimer_trigger.
  cbn [delta bh limit set_delta set_bh enabled period period_frac last_event next_event timer].
  rewrite (proj2 (Z.eqb_neq l 0) Hl). change (0 =? 0) with true. done.
Qed.
Lemma periodic_fire now s :
  periodic s → next_event s <= now → - 2 ^ 63 <= next_event s → next_event s + round_time s < 2 ^ 63 →
  let s' := run_timer now s in
  periodic s' ∧ next_event s' = next_event s + round_time s ∧ round_time s' = round_time s ∧ bh s' = Some true.
Proof.
  intros [He Hl Hd Hp Hf Ht [b Hb]] Hn Hlo Hhi s'. unfold round_time in *.
  assert (s' = ptimer_reload (set_bh (set_delta (set_timer s None) (limit s)) (Some true))) as ->.
  { unfold s', run_timer. rewrite Ht, (proj2 (Z.leb_le _ _) Hn). unfold ptimer_tick, ptimer_trigger.
    cbn [bh set_timer set_bh set_delta enabled]. rewrite Hb. cbn [enabled set_bh set_delta set_timer].
    rewrite He. change (1 =? 2) with false. cbn iota.
    rewrite (reload_expired _ true) by (done || (cbn; lia)). done. }
  rewrite reload_next; [|done..|].
  - split_and!; [constructor|..]; cbn; try done; rewrite ?Z.add_assoc; done || lia.
  - cbn. lia.
Qed.

(** A periodic timer does not drift: however late the emulator gets to it
    (any times at or after the deadlines), after [n] rounds its deadline is the
    first one plus [n] times the time of a round, the counter starts each round
    at the limit, and the device's bottom half has been scheduled. *)
Theorem ptimer_no_drift s nows :
  periodic s → - 2 ^ 63 <= next_event s →
  next_event s + (Z.of_nat (length nows)) * round_time s < 2 ^ 63 →
  (∀ i now, nows !! i = Some now → next_event s + Z.of_nat i * round_time s <= now) →
  let s' := fold_left (λ s now, run_timer now s) nows s in
  periodic s' ∧ next_event s' = next_event s + Z.of_nat (length nows) * round_time s ∧
  (nows ≠ [] → bh s' = Some true).
Proof.
  revert s. induction nows as [|now nows IH]; intros s P Hlo Hhi Hn; cbn [fold_left length].
  { split_and!; [done|lia|done]. }
  assert (0 <= round_time s) as Hr.
  { destruct P as [? Hl ? Hp [Hf _] ? ?]. unfold round_time. rewrite Z.shiftr_div_pow2 by lia.
    apply Z.add_nonneg_nonneg; [nia|]. apply Z.div_pos; nia. }
  cbn [length] in Hhi. rewrite Nat2Z.inj_succ in *.
  destruct (periodic_fire now s P) as (P' & Hnx & Hrt & Hbh); [|done|nia|].
  { pose proof (Hn O now eq_refl). lia. }
  destruct (IH (run_timer now s) P') as (P2 & Hn2 & Hb2); [lia| | |].
  - rewrite Hnx, Hrt. lia.
  - intros i now' Hi. rewrite Hnx, Hrt. pose proof (Hn (S i) now' Hi). lia.
  - split_and!; [done|rewrite Hn2, Hnx, Hrt; lia|]. intros _. destruct nows; [done|by apply Hb2].
Qed.

Lemma example_periodic : periodic example_timer.
Proof. constructor; vm_compute; try split; try reflexivity; try discriminate. by exists false. Qed.

Lemma ptimer_no_drift_witness :
  let s' := fold_left (λ s now, run_timer now s) [1000700; 2000000; 3999999] example_timer in
  periodic s' ∧ next_event s' = 4000000 ∧ ([1000700; 2000000; 3999999] ≠ [] → bh s' = Some true).
Proof.
  apply (ptimer_no_drift example_timer [1000700; 2000000; 3999999]).
  - apply example_periodic.
  - vm_compute. discriminate.
  - vm_compute. reflexivity.
  - intros [|[|[|i]]] now H; [injection H as <-; vm_compute; discriminate..|discriminate H].
Defined.

(** Setting the count of a running timer and reading it back at the same
    instant gives the count, or one less when the count is not a whole number of
    nanoseconds ([period_frac * count] is not a multiple of [2^32]): the deadline
    is rounded down to a nanosecond, and so is the reading. *)
Theorem ptimer_set_get_count now n s :
  truth (enabled s) = true → 1 <= n < 2 ^ 32 → 1 <= period s < 2 ^ 31 → is_u32 (period_frac s) →
  0 <= now < 2 ^ 62 → n * fixed_period s < 2 ^ 64 →
  ptimer_get_count now (ptimer_set_count now n s) =
  Ok (if (period_frac s * n) mod 2 ^ 32 =? 0 then n else n - 1).
Proof.
  intros He Hn Hp Hf Hnow Hfit. assert (0 <= period_frac s) by apply Hf.
  set (t := n * fixed_period s / 2 ^ 32).
  assert (n * period s + Z.shiftr (period_frac s * n) 32 = t) as Et.
  { unfold t, fixed_period. rewrite Z.shiftr_div_pow2 by lia.
    rewrite Z.mul_add_distr_l, Z.mul_assoc, Z.div_add_l by lia. by rewrite (Z.mul_comm (period_frac s)). }
  assert (0 <= t < 2 ^ 32) as Ht.
  { unfold t, fixed_period in *. split; [apply Z.div_pos; nia|]. apply Z.div_lt_upper_bound; lia. }
  set (s' := ptimer_set_count now n s).
  assert (enabled s' = enabled s ∧ period s' = period s ∧ period_frac s' = period_frac s ∧ next_event s' = now + t)
    as (E1 & E2 & E3 & E4).
  { unfold s', ptimer_set_count. cbn [enabled set_delta]. rewrite He, reload_next; cbn; by (done || lia). }
  assert (running now s') as R by (constructor; rewrite ?E1, ?E2, ?E3, ?E4; [done|lia|done|lia]).
  destruct (ptimer_get_count now s') as [c|e] eqn:Ec;
    [|pose proof (get_count_eq now s' R) as (_ & Hc & _); congruence].
  pose proof (count_exact _ _ _ R ltac:(lia) Ec) as ->. f_equal.
  unfold fixed_period. rewrite E2, E3, E4. fold (fixed_period s). replace (now + t - now) with t by lia.
  pose proof (Z.div_mod (n * fixed_period s) (2 ^ 32) ltac:(lia)) as Hdm. fold t in Hdm.
  assert ((n * fixed_period s) mod 2 ^ 32 = (period_frac s * n) mod 2 ^ 32) as Hm.
  { unfold fixed_period. rewrite Z.mul_add_distr_l, Z.mul_assoc, Z.add_comm, Z.mod_add by lia.
    by rewrite (Z.mul_comm n). }
  rewrite Hm in Hdm. pose proof (Z.mod_pos_bound (period_frac s * n) (2 ^ 32) ltac:(lia)) as Hb.
  set (r := (period_frac s * n) mod 2 ^ 32) in *.
  assert (2 ^ 32 <= fixed_period s) as Hbig by (unfold fixed_period; lia).
  symmetry. destruct (Z.eqb_spec r 0); [apply (Z.div_unique _ _ _ 0)|apply (Z.div_unique _ _ _ (fixed_period s - r))]; lia.
Qed.

Lemma ptimer_set_get_count_witness :
  ptimer_get_count 5000 (ptimer_set_count 5000 10 fast_timer) = Ok 9.
Proof.
  apply (ptimer_set_get_count 5000 10 fast_timer).
  - vm_compute. reflexivity.
  - lia.
  - vm_compute. split; [discriminate|reflexivity].
  - vm_compute. split; [discriminate|reflexivity].
  - lia.
  - vm_compute. reflexivity.
Defined.
