(* ===== verification/ArmTimer.v ===== *)
(** * ArmTimer: the ARM timer modules (hw/arm_timer.c)

    The timer of the PrimeCell modules on top of [ptimer], the SP804 dual timer,
    which merges the interrupts of its two timers, and the Integrator/CP module of
    three timers. *)

From S2P Require Import Prelude PTimer.
Local Open Scope Z_scope.

Definition TIMER_CTRL_ONESHOT : Z := Z.shiftl 1 0.
Definition TIMER_CTRL_32BIT : Z := Z.shiftl 1 1.
Definition TIMER_CTRL_IE : Z := Z.shiftl 1 5.
Definition TIMER_CTRL_PERIODIC : Z := Z.shiftl 1 6.
Definition TIMER_CTRL_ENABLE : Z := Z.shiftl 1 7.

Record arm_timer_state := mkArmTimer {
  at_timer : ptimer_state;
  control : Z;
  at_limit : Z;
  freq : Z;
  int_level : Z;
}.

Definition set_ptimer (s : arm_timer_state) (t : ptimer_state) : arm_timer_state :=
  mkArmTimer t (control s) (at_limit s) (freq s) (int_level s).
Definition set_control (s : arm_timer_state) (c : Z) : arm_timer_state :=
  mkArmTimer (at_timer s) c (at_limit s) (freq s) (int_level s).
Definition set_at_limit (s : arm_timer_state) (l : Z) : arm_timer_state :=
  mkArmTimer (at_timer s) (control s) l (freq s) (int_level s).
Definition set_int_level (s : arm_timer_state) (l : Z) : arm_timer_state :=
  mkArmTimer (at_timer s) (control s) (at_limit s) (freq s) l.

(** The level the interrupt line is set to. *)
Definition arm_timer_update (s : arm_timer_state) : Z :=
  if truth (int_level s) && truth (Z.land (control s) TIMER_CTRL_IE) then 1 else 0.

Definition arm_timer_read (now offset : Z) (s : arm_timer_state) : res Z :=
  match Z.shiftr offset 2 with
  | 0 | 6 => Ok (at_limit s)
  | 1 => c ← ptimer_get_count now (at_timer s); Ok (u32 c)
  | 2 => Ok (control s)
  | 4 => Ok (int_level s)
  | 5 => if Z.land (control s) TIMER_CTRL_IE =? 0 then Ok 0 else Ok (int_level s)
  | _ => Err Hw_error
  end.

Definition arm_timer_recalibrate (now reload : Z) (s : arm_timer_state) : arm_timer_state :=
  let limit :=
    if Z.land (control s) (Z.lor TIMER_CTRL_PERIODIC TIMER_CTRL_ONESHOT) =? 0 then
      if truth (Z.land (control s) TIMER_CTRL_32BIT) then 0xffffffff else 0xffff
    else at_limit s in
  set_ptimer s (ptimer_set_limit now limit reload (at_timer s)).

Definition write_control (now value : Z) (s : arm_timer_state) : res arm_timer_state :=
  t ← (if truth (Z.land (control s) TIMER_CTRL_ENABLE) then ptimer_stop now (at_timer s) else Ok (at_timer s));
  let s := set_control (set_ptimer s t) value in
  let f := match Z.land (Z.shiftr value 2) 3 with
           | 1 => Z.shiftr (freq s) 4
           | 2 => Z.shiftr (freq s) 8
           | _ => freq s
           end in
  let s := arm_timer_recalibrate now (Z.land (control s) TIMER_CTRL_ENABLE) s in
  t ← ptimer_set_freq now (u32 f) (at_timer s);
  Ok (set_ptimer s
        (if truth (Z.land (control s) TIMER_CTRL_ENABLE)
         then ptimer_run now (flag (truth (Z.land (control s) TIMER_CTRL_ONESHOT))) t else t)).

(** The new state and the level of the line. *)
Definition arm_timer_write (now offset value : Z) (s : arm_timer_state) : res (arm_timer_state * Z) :=
  s ← match Z.shiftr offset 2 with
      | 0 => Ok (arm_timer_recalibrate now 1 (set_at_limit s value))
      | 1 => Ok s
      | 2 => write_control now value s
      | 3 => Ok (set_int_level s 0)
      | 6 => Ok (arm_timer_recalibrate now 0 (set_at_limit s value))
      | _ => Err Hw_error
      end;
  Ok (s, arm_timer_update s).

Definition arm_timer_tick (s : arm_timer_state) : arm_timer_state * Z :=
  let s := set_int_level s 1 in (s, arm_timer_update s).

Definition arm_timer_init (f : Z) : arm_timer_state :=
  mkArmTimer (ptimer_init (Some false)) TIMER_CTRL_IE 0 (s32 f) 0.

(** The emulator's main loop: the timer list, and a scheduled bottom half. *)
Definition arm_timer_fire (now : Z) (s : arm_timer_state) : arm_timer_state :=
  set_ptimer s (run_timer now (at_timer s)).
Definition arm_timer_bh (s : arm_timer_state) : option (arm_timer_state * Z) :=
  match bh (at_timer s) with
  | Some true => Some (arm_timer_tick (set_ptimer s (set_bh (at_timer s) (Some false))))
  | _ => None
  end.

(** ** SP804 *)

Record sp804_state := mkSp804 {
  sp_timer : list arm_timer_state;
  sp_level : list Z;
}.

(** The new state and the level of the output. *)
Definition sp804_set_irq (irq level : Z) (s : sp804_state) : res (sp804_state * Z) :=
  l ← awrite (sp_level s) irq level;
  l0 ← aread l 0;
  l1 ← aread l 1;
  Ok (mkSp804 (sp_timer s) l, flag (truth l0 || truth l1)).

Definition sp804_read (now offset : Z) (s : sp804_state) : res Z :=
  if offset <? 0x20 then t ← aread (sp_timer s) 0; arm_timer_read now offset t
  else t ← aread (sp_timer s) 1; arm_timer_read now (offset - 0x20) t.

(** Timer [n] of the module has become [t], and sets its line. *)
Definition sp804_timer_done (n : Z) '((t, level) : arm_timer_state * Z) (s : sp804_state) : res (sp804_state * Z) :=
  ts ← awrite (sp_timer s) n t;
  sp804_set_irq n level (mkSp804 ts (sp_level s)).

Definition sp804_write (now offset value : Z) (s : sp804_state) : res (sp804_state * Z) :=
  if offset <? 0x20 then
    t ← aread (sp_timer s) 0; r ← arm_timer_write now offset value t; sp804_timer_done 0 r s
  else
    t ← aread (sp_timer s) 1; r ← arm_timer_write now (offset - 0x20) value t; sp804_timer_done 1 r s.

Definition sp804_init : sp804_state :=
  mkSp804 [arm_timer_init 1000000; arm_timer_init 1000000] [0; 0].

(** ** Integrator/CP *)

Record icp_pit_state := mkIcp { icp_timer : list arm_timer_state }.

Definition icp_pit_read (now offset : Z) (s : icp_pit_state) : res Z :=
  let n := Z.shiftr offset 8 in
  if 3 <? n then Err Hw_error
  else t ← aread (icp_timer s) n; arm_timer_read now (Z.land offset 0xff) t.

(** The new state, and the line that is set and its level. *)
Definition icp_pit_write (now offset value : Z) (s : icp_pit_state) : res (icp_pit_state * (Z * Z)) :=
  let n := Z.shiftr offset 8 in
  if 3 <? n then Err Hw_error
  else
    t ← aread (icp_timer s) n;
    '(t, level) ← arm_timer_write now (Z.land offset 0xff) value t;
    ts ← awrite (icp_timer s) n t;
    Ok (mkIcp ts, (n, level)).

Definition icp_pit_init : icp_pit_state :=
  mkIcp [arm_timer_init 40000000; arm_timer_init 1000000; arm_timer_init 1000000].

(** ** Safety *)

(** The period is not set yet, or it is one that [ptimer_get_count] can divide by. *)
Record ptimer_ok (t : ptimer_state) : Prop := {
  ok_period : 0 <= period t < 2 ^ 32;
  ok_frac : is_u32 (period_frac t);
}.
Record arm_ok (s : arm_timer_state) : Prop := {
  arm_ptimer : ptimer_ok (at_timer s);
  arm_freq : 256 <= freq s <= 1000000000;
}.

Lemma get_count_safe now t : ptimer_ok t → ∃ c, ptimer_get_count now t = Ok c.
Proof.
  intros [Hp Hf]. unfold ptimer_get_count. destruct (truth (enabled t)); [|eauto].
  destruct (Z.eqb_spec (period t) 0) as [|Hne]; [rewrite orb_true_r; eauto|].
  destruct (0 <? _); [simpl; eauto|]. cbn [orb]. rewrite (u64_small (period t)) by lia.
  set (rem := u64 (next_event t - now)). pose proof (u64_range (next_event t - now)) as Hr. fold rem in Hr.
  fold (count_shift rem (period t)).
  pose proof (count_shift_spec rem (period t) Hr ltac:(lia)) as (Hk & _ & Hpk & _).
  set (k := count_shift rem (period t)) in *. assert (0 < 2 ^ k) by (apply Z.pow_pos_nonneg; lia).
  assert (0 < scaled_period (period t) (period_frac t) k) as Hd.
  { pose proof (proj1 Hf). destruct (Z.le_gt_cases 32 k).
    - rewrite scaled_period_high by (done || lia). apply Z.mul_pos_pos; [lia|apply Z.pow_pos_nonneg; lia].
    - pose proof (scaled_period_low (period t) (period_frac t) k ltac:(lia) Hf ltac:(lia)) as [Hlow _]. nia. }
  rewrite (proj2 (Z.eqb_neq _ 0)) by lia. eauto.
Qed.

Lemma reload_period t : period (ptimer_reload t) = period t ∧ period_frac (ptimer_reload t) = period_frac t.
Proof.
  unfold ptimer_reload, ptimer_trigger. destruct t as [e l d f p le ne b tm].
  destruct b; repeat (case_match; simplify_eq/=); done.
Qed.
Lemma trigger_period t : period (ptimer_trigger t) = period t ∧ period_frac (ptimer_trigger t) = period_frac t.
Proof. unfold ptimer_trigger. by case_match. Qed.
Lemma ok_reload t : ptimer_ok t → ptimer_ok (ptimer_reload t).
Proof. intros []. destruct (reload_period t). constructor; congruence. Qed.
Lemma ok_fields t t' : period t' = period t → period_frac t' = period_frac t → ptimer_ok t → ptimer_ok t'.
Proof. intros ?? []. constructor; congruence. Qed.

Lemma ok_run now o t : ptimer_ok t → ptimer_ok (ptimer_run now o t).
Proof. intros H. unfold ptimer_run. do 2 (case_match; [done|]). apply ok_reload. by eapply ok_fields, H. Qed.
Lemma ok_set_limit now l r t : ptimer_ok t → ptimer_ok (ptimer_set_limit now l r t).
Proof.
  intros H. unfold ptimer_set_limit.
  assert (ptimer_ok (if truth r then set_delta (set_limit t l) l else set_limit t l)) as H1
    by (case_match; by eapply ok_fields, H).
  destruct (truth (enabled _) && truth r); [|done]. apply ok_reload. by eapply ok_fields, H1.
Qed.
Lemma ok_stop now t : ptimer_ok t → ∃ t', ptimer_stop now t = Ok t' ∧ ptimer_ok t'.
Proof.
  intros H. unfold ptimer_stop. case_match; [eauto|]. destruct (get_count_safe now t H) as [c ->].
  eexists. split; [done|]. by eapply ok_fields, H.
Qed.
Lemma ok_set_freq now f t :
  1 <= f <= 1000000000 → ptimer_ok t → ∃ t', ptimer_set_freq now f t = Ok t' ∧ ptimer_ok t'.
Proof.
  intros Hf H. unfold ptimer_set_freq. rewrite (proj2 (Z.eqb_neq f 0)) by lia. eexists. split; [done|].
  assert (ptimer_ok (set_period t (1000000000 / f) (u32 (Z.shiftl 1000000000 32 / f)))) as H1.
  { constructor; cbn; [|apply u32_range]. split; [apply Z.div_pos; lia|].
    apply (Z.le_lt_trans _ 1000000000); [|lia]. apply Z.div_le_upper_bound; lia. }
  case_match; [apply ok_reload; by eapply ok_fields, H1|done].
Qed.
Lemma ok_run_timer now t : ptimer_ok t → ptimer_ok (run_timer now t).
Proof.
  intros H. unfold run_timer. repeat case_match; try done. unfold ptimer_tick.
  destruct (trigger_period (set_timer t None)) as [E1 E2].
  case_match; [|apply ok_reload]; (eapply ok_fields; [exact E1|exact E2|]; by eapply ok_fields, H).
Qed.

(** The accesses of a timer that abort the emulator. *)
Definition bad_timer_read (offset : Z) : bool :=
  match Z.shiftr offset 2 with 0 | 1 | 2 | 4 | 5 | 6 => false | _ => true end.
Definition bad_timer_write (offset : Z) : bool :=
  match Z.shiftr offset 2 with 0 | 1 | 2 | 3 | 6 => false | _ => true end.

Lemma arm_read_safe now offset s :
  arm_ok s →
  if bad_timer_read offset then arm_timer_read now offset s = Err Hw_error
  else ∃ v, arm_timer_read now offset s = Ok v.
Proof.
  intros [H _]. unfold bad_timer_read, arm_timer_read. destruct (get_count_safe now _ H) as [c Hc].
  rewrite Hc. cbn [mbind res_bind].
  repeat (case_match; try done); eauto.
Qed.

Lemma divided_freq f v :
  256 <= f <= 1000000000 →
  1 <= u32 (match Z.land (Z.shiftr v 2) 3 with 1 => Z.shiftr f 4 | 2 => Z.shiftr f 8 | _ => f end) <= 1000000000.
Proof.
  intros Hf.
  assert (1 <= Z.shiftr f 4 <= 1000000000 ∧ 1 <= Z.shiftr f 8 <= 1000000000) as [? ?].
  { rewrite !Z.shiftr_div_pow2 by lia. change (2 ^ 4) with 16. change (2 ^ 8) with 256.
    pose proof (Z.div_mod f 16). pose proof (Z.mod_pos_bound f 16).
    pose proof (Z.div_mod f 256). pose proof (Z.mod_pos_bound f 256). lia. }
  rewrite u32_small; repeat case_match; lia.
Qed.

Lemma write_control_safe now value s : arm_ok s → ∃ s', write_control now value s = Ok s' ∧ arm_ok s'.
Proof.
  intros [H Hf]. unfold write_control.
  assert (∃ t, (if truth (Z.land (control s) TIMER_CTRL_ENABLE) then ptimer_stop now (at_timer s)
                else Ok (at_timer s)) = Ok t ∧ ptimer_ok t) as (t & -> & Ht).
  { case_match; [by apply ok_stop|eauto]. }
  cbn [mbind res_bind freq set_control set_ptimer control].
  destruct (ok_set_freq now _ (at_timer (arm_timer_recalibrate now (Z.land value TIMER_CTRL_ENABLE)
              (set_control (set_ptimer s t) value))) (divided_freq (freq s) value Hf)) as (t' & -> & Ht').
  { cbn. by apply ok_set_limit. }
  cbn [mbind res_bind]. eexists. split; [done|]. constructor; cbn; [|done].
  case_match; [by apply ok_run|done].
Qed.
Lemma arm_write_safe now offset value s :
  arm_ok s →
  if bad_timer_write offset then arm_timer_write now offset value s = Err Hw_error
  else ∃ s', arm_timer_write now offset value s = Ok (s', arm_timer_update s') ∧ arm_ok s'.
Proof.
  intros H. unfold bad_timer_write, arm_timer_write.
  assert (∀ r, arm_ok (arm_timer_recalibrate now r (set_at_limit s value))) as Hr.
  { intros r. destruct H. constructor; cbn; [by apply ok_set_limit|done]. }
  destruct (write_control_safe now value s H) as (s1 & Hs1 & H1).
  repeat (case_match; try done); rewrite ?Hs1; cbn [mbind res_bind]; eexists; (split; [done|]); try done.
  by destruct H.
Qed.

(** ** Runs of the SP804 *)

(** The guest accesses the module; the emulator's main loop reaches the timer list
    or a scheduled bottom half of timer [n]. *)
Inductive sp804_op :=
| Sp_read (offset : Z)
| Sp_write (offset value : Z)
| Sp_fire (n : Z)
| Sp_bh (n : Z).

(** The state, and the level of the output wire, after [op] at time [now]. *)
Definition sp804_step (now : Z) (op : sp804_op) '((s, out) : sp804_state * Z) : res (sp804_state * Z) :=
  match op with
  | Sp_read offset => _ ← sp804_read now offset s; Ok (s, out)
  | Sp_write offset value => sp804_write now offset value s
  | Sp_fire n =>
      t ← aread (sp_timer s) n;
      ts ← awrite (sp_timer s) n (arm_timer_fire now t);
      Ok (mkSp804 ts (sp_level s), out)
  | Sp_bh n =>
      t ← aread (sp_timer s) n;
      match arm_timer_bh t with Some r => sp804_timer_done n r s | None => Ok (s, out) end
  end.

Fixpoint sp804_run (ops : list (Z * sp804_op)) (s : sp804_state * Z) : res (sp804_state * Z) :=
  match ops with
  | [] => Ok s
  | (now, op) :: ops => s ← sp804_step now op s; sp804_run ops s
  end.

Definition sp804_op_ok (op : sp804_op) : Prop :=
  match op with
  | Sp_read offset => 0 <= offset < 0x1000
  | Sp_write offset value => 0 <= offset < 0x1000 ∧ is_u32 value
  | Sp_fire n | Sp_bh n => 0 <= n < 2
  end.
Definition sp804_bad (op : sp804_op) : bool :=
  match op with
  | Sp_read offset => bad_timer_read (if offset <? 0x20 then offset else offset - 0x20)
  | Sp_write offset _ => bad_timer_write (if offset <? 0x20 then offset else offset - 0x20)
  | _ => false
  end.

(** The levels the module keeps are those of its timers, and the output wire is
    high exactly when one of them is. *)
Definition sp804_synced '((s, out) : sp804_state * Z) : Prop :=
  ∃ t0 t1, sp_timer s = [t0; t1] ∧ sp_level s = [arm_timer_update t0; arm_timer_update t1] ∧
    arm_ok t0 ∧ arm_ok t1 ∧ out = flag (truth (arm_timer_update t0) || truth (arm_timer_update t1)).

Lemma timer_done_synced (n : nat) t s out :
  (n < 2)%nat → sp804_synced (s, out) → arm_ok t →
  ∃ r, sp804_timer_done (Z.of_nat n) (t, arm_timer_update t) s = Ok r ∧ sp804_synced r.
Proof.
  intros Hn (t0 & t1 & Et & El & H0 & H1 & _) Ht. destruct s as [ts ls]. cbn in Et, El. subst.
  destruct n as [|[|]]; [| |lia]; (eexists; split; [reflexivity|]).
  - exists t, t1. done.
  - exists t0, t. done.
Qed.
Lemma fire_update now t : arm_timer_update (arm_timer_fire now t) = arm_timer_update t.
Proof. done. Qed.

Lemma sp804_step_synced now op s :
  sp804_synced s → sp804_op_ok op →
  if sp804_bad op then sp804_step now op s = Err Hw_error
  else ∃ s', sp804_step now op s = Ok s' ∧ sp804_synced s'.
Proof.
  destruct s as [s out]. intros Hs Ho. pose proof Hs as (t0 & t1 & Et & El & H0 & H1 & Hout).
  destruct op as [offset|offset value|n|n]; cbn [sp804_bad sp804_step].
  - unfold sp804_read. rewrite Et.
    change (aread [t0; t1] 0) with (Ok t0). change (aread [t0; t1] 1) with (Ok t1). cbn [mbind res_bind].
    pose proof (arm_read_safe now offset t0 H0) as Hr0. pose proof (arm_read_safe now (offset - 0x20) t1 H1) as Hr1.
    destruct (offset <? 0x20);
      [destruct (bad_timer_read offset); [by rewrite Hr0|] |
       destruct (bad_timer_read (offset - 0x20)); [by rewrite Hr1|]].
    + destruct Hr0 as [v ->]. eauto.
    + destruct Hr1 as [v ->]. eauto.
  - unfold sp804_write. rewrite Et.
    change (aread [t0; t1] 0) with (Ok t0). change (aread [t0; t1] 1) with (Ok t1). cbn [mbind res_bind].
    pose proof (arm_write_safe now offset value t0 H0) as Hw0.
    pose proof (arm_write_safe now (offset - 0x20) value t1 H1) as Hw1.
    destruct (offset <? 0x20);
      [destruct (bad_timer_write offset); [by rewrite Hw0|] |
       destruct (bad_timer_write (offset - 0x20)); [by rewrite Hw1|]].
    + destruct Hw0 as (t & -> & Ht). apply (timer_done_synced 0 t s out); [lia|done|done].
    + destruct Hw1 as (t & -> & Ht). apply (timer_done_synced 1 t s out); [lia|done|done].
  - destruct s as [ts ls]. cbn in Et, El. subst. simpl in Ho.
    assert (n = 0 ∨ n = 1) as [-> | ->] by lia; cbn; eexists; (split; [reflexivity|]).
    + exists (arm_timer_fire now t0), t1. rewrite fire_update. split_and!; try done.
      destruct H0. constructor; cbn; [by apply ok_run_timer|done].
    + exists t0, (arm_timer_fire now t1). rewrite fire_update. split_and!; try done.
      destruct H1. constructor; cbn; [by apply ok_run_timer|done].
  - simpl in Ho. rewrite Et.
    assert (∀ t, arm_ok t → arm_ok (set_int_level (set_ptimer t (set_bh (at_timer t) (Some false))) 1)) as Htick
      by (intros t [[? ?] ?]; done).
    assert (n = 0 ∨ n = 1) as [-> | ->] by lia;
      [change (aread [t0; t1] 0) with (Ok t0)|change (aread [t0; t1] 1) with (Ok t1)];
      cbn [mbind res_bind]; unfold arm_timer_bh, arm_timer_tick;
      [destruct (bh (at_timer t0)) as [[]|]|destruct (bh (at_timer t1)) as [[]|]]; eauto.
    + apply (timer_done_synced 0 _ _ out); [lia|done|auto].
    + apply (timer_done_synced 1 _ _ out); [lia|done|auto].
Qed.

(** Whatever the guest and the main loop do with an SP804 module from its
    initialisation, nothing but a listed bad offset aborts the emulator (the
    division by the period, and the frequency after the divider, are never by
    zero), and the output wire is high exactly when one of the two timers has an
    interrupt that its control register enables. *)
Theorem sp804_output ops :
  Forall (λ e, sp804_op_ok e.2) ops →
  if existsb (λ e, sp804_bad e.2) ops then sp804_run ops (sp804_init, 0) = Err Hw_error
  else ∃ s, sp804_run ops (sp804_init, 0) = Ok s ∧ sp804_synced s.
Proof.
  intros Ho. assert (sp804_synced (sp804_init, 0)) as Hs.
  { exists (arm_timer_init 1000000), (arm_timer_init 1000000). split_and!; try done.
    all: constructor; [constructor; done|done]. }
  revert Hs. generalize (sp804_init, 0) as s.
  induction Ho as [|[now op] ops Hop Ho IH]; intros s Hs; cbn [existsb sp804_run]; [by exists s|].
  pose proof (sp804_step_synced now op s Hs Hop) as H. cbn [snd].
  destruct (sp804_bad op); cbn [orb]; [by rewrite H|].
  destruct H as (s' & -> & Hs'). cbn [mbind res_bind]. by apply IH.
Qed.

(** Timer 0 counts 500 microseconds, and fires. *)
Definition example_run : list (Z * sp804_op) :=
  [(0, Sp_write 0 500); (0, Sp_write 8 0xe0); (500000, Sp_fire 0); (500010, Sp_bh 0)].

Lemma sp804_output_witness : ∃ s, sp804_run example_run (sp804_init, 0) = Ok s ∧ sp804_synced s.
Proof.
  apply (sp804_output example_run). unfold example_run, sp804_op_ok, is_u32.
  repeat (constructor; [simpl; lia|]). constructor.
Defined.

(** ** A periodic interrupt, end to end *)

(** A 1 MHz timer counting [l] down from time [t0]. *)
Definition counting (l t0 : Z) : ptimer_state :=
  let t := t0 + l * 1000 in mkPtimer 1 l l 0 1000 t0 t (Some false) (Some t).

Lemma program_timer now l :
  1 <= l < 2 ^ 32 → 0 <= now < 2 ^ 62 →
  write_control now 0xe0 (arm_timer_recalibrate now 1 (set_at_limit (arm_timer_init 1000000) l)) =
  Ok (mkArmTimer (counting l now) 0xe0 l 1000000 0).
Proof.
  intros Hl Hn.
  change (write_control now 0xe0 (arm_timer_recalibrate now 1 (set_at_limit (arm_timer_init 1000000) l)))
    with (Ok (mkArmTimer (ptimer_reload (mkPtimer 1 l l 0 1000 0 now (Some false) None)) 0xe0 l 1000000 0)).
  assert (Z.shiftr (0 * l) 32 = 0) as E0 by done.
  rewrite reload_next; cbn [delta period period_frac next_event]; rewrite ?E0, ?Z.add_0_r; done || lia.
Qed.
Lemma count_again l now later :
  1 <= l < 2 ^ 32 → 0 <= now < 2 ^ 62 → now + l * 1000 <= later →
  run_timer later (counting l now) = set_bh (counting l (now + l * 1000)) (Some true).
Proof.
  intros Hl Hn Hle. unfold run_timer.
  change (timer (counting l now)) with (Some (now + l * 1000)). cbn iota. rewrite (proj2 (Z.leb_le _ _) Hle).
  change (ptimer_tick (set_timer (counting l now) None))
    with (ptimer_reload (mkPtimer 1 l 0 0 1000 now (now + l * 1000) (Some true) None)).
  rewrite (reload_expired _ true); cbn [delta bh limit]; [|done|done|lia].
  assert (Z.shiftr (0 * l) 32 = 0) as E0 by done.
  rewrite reload_next; cbn [delta period period_frac next_event set_delta set_bh limit];
    rewrite ?E0, ?Z.add_0_r; done || lia.
Qed.

(** A guest that loads [l] into an idle SP804 timer and starts it in
    periodic mode with interrupts gets its interrupt [l] microseconds later: the
    output stays low as long as the main loop runs before the deadline, and is
    high after the first run at or past it (the bottom half included), when the
    timer is already counting down to the second multiple of [l] microseconds. *)
Theorem sp804_periodic_interrupt now l later :
  1 <= l < 2 ^ 32 → 0 <= now < 2 ^ 62 →
  ∃ s, sp804_run [(now, Sp_write 0 l); (now, Sp_write 8 0xe0); (later, Sp_fire 0); (later, Sp_bh 0)] (sp804_init, 0) =
       Ok (s, flag (now + l * 1000 <=? later)) ∧
    ∃ t, sp_timer s !! 0%nat = Some t ∧
      timer (at_timer t) = Some (now + (if now + l * 1000 <=? later then 2 else 1) * (l * 1000)).
Proof.
  intros Hl Hn. set (t0 := arm_timer_recalibrate now 1 (set_at_limit (arm_timer_init 1000000) l)).
  set (idle := arm_timer_init 1000000).
  assert (sp804_step now (Sp_write 0 l) (sp804_init, 0) = Ok (mkSp804 [t0; idle] [0; 0], 0)) as E1 by done.
  assert (sp804_step now (Sp_write 8 0xe0) (mkSp804 [t0; idle] [0; 0], 0) =
          Ok (mkSp804 [mkArmTimer (counting l now) 0xe0 l 1000000 0; idle] [0; 0], 0)) as E2.
  { unfold sp804_step, sp804_write. change (8 <? 0x20) with true. cbn iota.
    change (aread (sp_timer (mkSp804 [t0; idle] [0; 0])) 0) with (Ok t0). cbn [mbind res_bind].
    unfold arm_timer_write. change (Z.shiftr 8 2) with 2. cbn iota. unfold t0. by rewrite program_timer. }
  cbn [sp804_run]. rewrite E1. cbn [mbind res_bind]. rewrite E2. cbn [mbind res_bind].
  clear E1 E2 t0. destruct (Z.leb_spec (now + l * 1000) later) as [Hle|Hgt].
  - assert (sp804_step later (Sp_fire 0) (mkSp804 [mkArmTimer (counting l now) 0xe0 l 1000000 0; idle] [0; 0], 0) =
      Ok (mkSp804 [mkArmTimer (set_bh (counting l (now + l * 1000)) (Some true)) 0xe0 l 1000000 0; idle] [0; 0], 0)) as ->.
    { rewrite <- (count_again l now later Hl Hn Hle). done. }
    cbn [mbind res_bind]. eexists. split; [reflexivity|]. eexists. split; [reflexivity|].
    cbn. f_equal. lia.
  - assert (sp804_step later (Sp_fire 0) (mkSp804 [mkArmTimer (counting l now) 0xe0 l 1000000 0; idle] [0; 0], 0) =
      Ok (mkSp804 [mkArmTimer (counting l now) 0xe0 l 1000000 0; idle] [0; 0], 0)) as ->.
    { assert (run_timer later (counting l now) = counting l now) as E
        by (unfold run_timer; cbn; by rewrite (proj2 (Z.leb_gt _ _) Hgt)).
      rewrite <- E at 2. done. }
    cbn [mbind res_bind]. eexists. split; [reflexivity|]. eexists. split; [reflexivity|].
    cbn. f_equal. lia.
Qed.

Lemma sp804_periodic_interrupt_witness :
  ∃ s, sp804_run [(1000, Sp_write 0 500); (1000, Sp_write 8 0xe0); (501500, Sp_fire 0); (501500, Sp_bh 0)] (sp804_init, 0) =
       Ok (s, 1) ∧
    ∃ t, sp_timer s !! 0%nat = Some t ∧ timer (at_timer t) = Some 1001000.
Proof. apply (sp804_periodic_interrupt 1000 500 501500); lia. Defined.

(** ** The Integrator/CP module *)

(** The bound check of the Integrator/CP module lets a fourth timer
    through: an access of the module with three timers at offsets [0x300] to
    [0x3ff] passes the test [n > 3] and indexes the timers out of bounds, instead
    of ending in the error message as the offsets from [0x400] on do. *)
Theorem icp_pit_fourth_timer now offset value s :
  length (icp_timer s) = 3%nat → 0 <= offset < 0x1000 →
  (0x300 <= offset < 0x400 →
     icp_pit_read now offset s = Err Out_of_bounds ∧ icp_pit_write now offset value s = Err Out_of_bounds) ∧
  (0x400 <= offset →
     icp_pit_read now offset s = Err Hw_error ∧ icp_pit_write now offset value s = Err Hw_error).
Proof.
  intros Hlen Ho. unfold icp_pit_read, icp_pit_write. rewrite Z.shiftr_div_pow2 by lia. change (2 ^ 8) with 256.
  pose proof (Z.div_mod offset 256 ltac:(lia)) as Hd. pose proof (Z.mod_pos_bound offset 256 ltac:(lia)) as Hm.
  split; intros Hr.
  - assert (offset / 256 = 3) as -> by lia. by rewrite aread_oob by lia.
  - by rewrite (proj2 (Z.ltb_lt 3 (offset / 256))) by lia.
Qed.

Lemma icp_pit_fourth_timer_witness :
  (0x300 <= 0x304 < 0x400 →
     icp_pit_read 0 0x304 icp_pit_init = Err Out_of_bounds ∧ icp_pit_write 0 0x304 1 icp_pit_init = Err Out_of_bounds) ∧
  (0x400 <= 0x304 →
     icp_pit_read 0 0x304 icp_pit_init = Err Hw_error ∧ icp_pit_write 0 0x304 1 icp_pit_init = Err Hw_error).
Proof. apply (icp_pit_fourth_timer 0 0x304 1 icp_pit_init); [reflexivity|lia]. Defined.
