(* ===== verification/Pl011.v ===== *)
(** * Pl011: the UART (hw/pl011.c)

    The serial port of the two boards: a receive FIFO in a ring of 16 words, filled
    by the character backend and read by the guest, and the transmit side, which
    passes each character to the backend at once.  An operation returns the new
    state and its effects on the outside, in order. *)

From S2P Require Import Prelude.
Local Open Scope Z_scope.

Record pl011_state := mkPl011 {
  readbuff : Z;
  flags : Z;
  lcr : Z;
  cr : Z;
  dmacr : Z;
  int_enabled : Z;
  int_level : Z;
  read_fifo : list Z;
  ilpr : Z;
  ibrd : Z;
  fbrd : Z;
  ifl : Z;
  read_pos : Z;
  read_count : Z;
  read_trigger : Z;
  chr : bool;                       (* there is a character backend *)
  id : list Z;
}.

Inductive pl011_effect :=
| Irq (level : Z)
| Chr_write (ch : Z)
| Chr_accept_input.

Definition PL011_INT_TX : Z := 0x20.
Definition PL011_INT_RX : Z := 0x10.
Definition PL011_FLAG_RXFF : Z := 0x40.
Definition PL011_FLAG_RXFE : Z := 0x10.

Definition pl011_id_arm : list Z := [0x11; 0x10; 0x14; 0x00; 0x0d; 0xf0; 0x05; 0xb1].
Definition pl011_id_luminary : list Z := [0x11; 0x00; 0x18; 0x01; 0x0d; 0xf0; 0x05; 0xb1].

Definition set_flags (s : pl011_state) (x : Z) : pl011_state :=
  mkPl011 (readbuff s) x (lcr s) (cr s) (dmacr s) (int_enabled s) (int_level s) (read_fifo s) (ilpr s)
    (ibrd s) (fbrd s) (ifl s) (read_pos s) (read_count s) (read_trigger s) (chr s) (id s).
Definition set_int_level (s : pl011_state) (x : Z) : pl011_state :=
  mkPl011 (readbuff s) (flags s) (lcr s) (cr s) (dmacr s) (int_enabled s) x (read_fifo s) (ilpr s) (ibrd
    s) (fbrd s) (ifl s) (read_pos s) (read_count s) (read_trigger s) (chr s) (id s).
Definition set_int_enabled (s : pl011_state) (x : Z) : pl011_state :=
  mkPl011 (readbuff s) (flags s) (lcr s) (cr s) (dmacr s) x (int_level s) (read_fifo s) (ilpr s) (ibrd s)
    (fbrd s) (ifl s) (read_pos s) (read_count s) (read_trigger s) (chr s) (id s).
Definition set_fifo (s : pl011_state) (f : list Z) (p c : Z) : pl011_state :=
  mkPl011 (readbuff s) (flags s) (lcr s) (cr s) (dmacr s) (int_enabled s) (int_level s) f (ilpr s) (ibrd
    s) (fbrd s) (ifl s) p c (read_trigger s) (chr s) (id s).
Definition set_cr (s : pl011_state) (x : Z) : pl011_state :=
  mkPl011 (readbuff s) (flags s) (lcr s) x (dmacr s) (int_enabled s) (int_level s) (read_fifo s) (ilpr s)
    (ibrd s) (fbrd s) (ifl s) (read_pos s) (read_count s) (read_trigger s) (chr s) (id s).
Definition set_dmacr (s : pl011_state) (x : Z) : pl011_state :=
  mkPl011 (readbuff s) (flags s) (lcr s) (cr s) x (int_enabled s) (int_level s) (read_fifo s) (ilpr s)
    (ibrd s) (fbrd s) (ifl s) (read_pos s) (read_count s) (read_trigger s) (chr s) (id s).
Definition set_lcr (s : pl011_state) (x : Z) : pl011_state :=
  mkPl011 (readbuff s) (flags s) x (cr s) (dmacr s) (int_enabled s) (int_level s) (read_fifo s) (ilpr s)
    (ibrd s) (fbrd s) (ifl s) (read_pos s) (read_count s) (read_trigger s) (chr s) (id s).
Definition set_ifl (s : pl011_state) (x : Z) : pl011_state :=
  mkPl011 (readbuff s) (flags s) (lcr s) (cr s) (dmacr s) (int_enabled s) (int_level s) (read_fifo s)
    (ilpr s) (ibrd s) (fbrd s) x (read_pos s) (read_count s) (read_trigger s) (chr s) (id s).
Definition set_bauds (s : pl011_state) (a b c : Z) : pl011_state :=
  mkPl011 (readbuff s) (flags s) (lcr s) (cr s) (dmacr s) (int_enabled s) (int_level s) (read_fifo s) a b
    c (ifl s) (read_pos s) (read_count s) (read_trigger s) (chr s) (id s).
Definition set_trigger (s : pl011_state) (x : Z) : pl011_state :=
  mkPl011 (readbuff s) (flags s) (lcr s) (cr s) (dmacr s) (int_enabled s) (int_level s) (read_fifo s)
    (ilpr s) (ibrd s) (fbrd s) (ifl s) (read_pos s) (read_count s) x (chr s) (id s).

Definition pl011_update (s : pl011_state) : pl011_effect :=
  Irq (flag (truth (Z.land (int_level s) (int_enabled s)))).

(** A read of the data register; [qemu_chr_accept_input] dereferences the backend. *)
Definition pl011_read_data (s : pl011_state) : res (Z * pl011_state * list pl011_effect) :=
  let s := set_flags s (Z.ldiff (flags s) PL011_FLAG_RXFF) in
  c ← aread (read_fifo s) (read_pos s);
  let s :=
    if 0 <? read_count s then
      let p := read_pos s + 1 in
      set_fifo s (read_fifo s) (if p =? 16 then 0 else p) (read_count s - 1)
    else s in
  let s := if read_count s =? 0 then set_flags s (Z.lor (flags s) PL011_FLAG_RXFE) else s in
  let s := if read_count s =? read_trigger s - 1
           then set_int_level s (Z.ldiff (int_level s) PL011_INT_RX) else s in
  if chr s then Ok (c, s, [pl011_update s; Chr_accept_input]) else Err Null_deref.

Definition pl011_read (offset : Z) (s : pl011_state) : res (Z * pl011_state * list pl011_effect) :=
  if (0xfe0 <=? offset) && (offset <? 0x1000) then
    v ← aread (id s) (Z.shiftr (offset - 0xfe0) 2); Ok (v, s, [])
  else match Z.shiftr offset 2 with
  | 0 => pl011_read_data s
  | 1 => Ok (0, s, [])
  | 6 => Ok (flags s, s, [])
  | 8 => Ok (ilpr s, s, [])
  | 9 => Ok (ibrd s, s, [])
  | 10 => Ok (fbrd s, s, [])
  | 11 => Ok (lcr s, s, [])
  | 12 => Ok (cr s, s, [])
  | 13 => Ok (ifl s, s, [])
  | 14 => Ok (int_enabled s, s, [])
  | 15 => Ok (int_level s, s, [])
  | 16 => Ok (Z.land (int_level s) (int_enabled s), s, [])
  | 18 => Ok (dmacr s, s, [])
  | _ => Err Hw_error
  end.

Definition pl011_set_read_trigger (s : pl011_state) : pl011_state := set_trigger s 1.

Definition pl011_write (offset value : Z) (s : pl011_state) : res (pl011_state * list pl011_effect) :=
  match Z.shiftr offset 2 with
  | 0 =>
      let ch := u8 value in
      let s' := set_int_level s (Z.lor (int_level s) PL011_INT_TX) in
      Ok (s', (if chr s then [Chr_write ch] else []) ++ [pl011_update s'])
  | 1 => Ok (set_cr s value, [])
  | 6 => Ok (s, [])
  | 8 => Ok (set_bauds s value (ibrd s) (fbrd s), [])
  | 9 => Ok (set_bauds s (ilpr s) value (fbrd s), [])
  | 10 => Ok (set_bauds s (ilpr s) (ibrd s) value, [])
  | 11 => Ok (pl011_set_read_trigger (set_lcr s value), [])
  | 12 => Ok (set_cr s value, [])
  | 13 => Ok (pl011_set_read_trigger (set_ifl s value), [])
  | 14 => let s := set_int_enabled s value in Ok (s, [pl011_update s])
  | 17 => let s := set_int_level s (Z.ldiff (int_level s) value) in Ok (s, [pl011_update s])
  | 18 => if truth (Z.land value 3) then Err Hw_error else Ok (set_dmacr s value, [])
  | _ => Err Hw_error
  end.

Definition pl011_can_receive (s : pl011_state) : bool :=
  if truth (Z.land (lcr s) 0x10) then read_count s <? 16 else read_count s <? 1.

Definition pl011_put_fifo (value : Z) (s : pl011_state) : res (pl011_state * list pl011_effect) :=
  let slot := read_pos s + read_count s in
  let slot := if 16 <=? slot then slot - 16 else slot in
  f ← awrite (read_fifo s) slot value;
  let s := set_fifo s f (read_pos s) (read_count s + 1) in
  let s := set_flags s (Z.ldiff (flags s) PL011_FLAG_RXFE) in
  let s := if truth (Z.land (cr s) 0x10) || (read_count s =? 16)
           then set_flags s (Z.lor (flags s) PL011_FLAG_RXFF) else s in
  if read_count s =? read_trigger s then
    let s := set_int_level s (Z.lor (int_level s) PL011_INT_RX) in Ok (s, [pl011_update s])
  else Ok (s, []).

(** The first byte of the buffer. *)
Definition pl011_receive (buf : bytes) (s : pl011_state) : res (pl011_state * list pl011_effect) :=
  match buf with b :: _ => pl011_put_fifo (bz b) s | [] => Err Out_of_bounds end.

Definition CHR_EVENT_BREAK : Z := 0.

Definition pl011_event (event : Z) (s : pl011_state) : res (pl011_state * list pl011_effect) :=
  if event =? CHR_EVENT_BREAK then pl011_put_fifo 0x400 s else Ok (s, []).

Definition pl011_init (backend : bool) (i : list Z) : pl011_state :=
  mkPl011 0 0x90 0 0x300 0 0 0 (replicate 16 0) 0 0 0 0x12 0 0 1 backend i.
Definition pl011_init_arm (backend : bool) : pl011_state := pl011_init backend pl011_id_arm.
Definition pl011_init_luminary (backend : bool) : pl011_state := pl011_init backend pl011_id_luminary.

(** ** The receive FIFO is a queue *)

(** The guest's accesses, and what the backend delivers: it asks
    [pl011_can_receive] before a character, and reports a line break as an event. *)
Inductive pl011_op :=
| Uread (offset : Z)
| Uwrite (offset value : Z)
| Uinput (b : byte)
| Ubreak.

(** The characters the guest took from the data register, the state and the effects. *)
Definition pl011_step (op : pl011_op) (s : pl011_state) : res (list Z * pl011_state * list pl011_effect) :=
  match op with
  | Uread offset =>
      '(v, s', e) ← pl011_read offset s;
      Ok (if (Z.shiftr offset 2 =? 0) && (0 <? read_count s) then [v] else [], s', e)
  | Uwrite offset value => '(s, e) ← pl011_write offset value s; Ok ([], s, e)
  | Uinput b =>
      if pl011_can_receive s then '(s, e) ← pl011_receive [b] s; Ok ([], s, e) else Ok ([], s, [])
  | Ubreak => '(s, e) ← pl011_event CHR_EVENT_BREAK s; Ok ([], s, e)
  end.

Definition irq_after (out : Z) (e : pl011_effect) : Z := match e with Irq l => l | _ => out end.

(** A run, with the level of the interrupt wire. *)
Fixpoint pl011_run (ops : list pl011_op) (s : pl011_state) (out : Z) : res (list Z * pl011_state * Z) :=
  match ops with
  | [] => Ok ([], s, out)
  | op :: ops =>
      '(d, s, e) ← pl011_step op s;
      '(ds, s, out) ← pl011_run ops s (fold_left irq_after e out);
      Ok (d ++ ds, s, out)
  end.

(** The specification: a queue, and whether the FIFO is enabled.  [None] is a
    break that arrives when 16 words wait. *)
Definition queue_step (op : pl011_op) '((q, fifo) : list Z * bool) : option (list Z * (list Z * bool)) :=
  match op with
  | Uread offset =>
      if Z.shiftr offset 2 =? 0 then
        match q with x :: q => Some ([x], (q, fifo)) | [] => Some ([], ([], fifo)) end
      else Some ([], (q, fifo))
  | Uwrite offset value =>
      Some ([], (q, if Z.shiftr offset 2 =? 11 then truth (Z.land value 0x10) else fifo))
  | Uinput b =>
      Some ([], (if (length q <? (if fifo then 16 else 1))%nat then q ++ [bz b] else q, fifo))
  | Ubreak => if (length q <? 16)%nat then Some ([], (q ++ [0x400], fifo)) else None
  end.

Fixpoint queue_run (ops : list pl011_op) (st : list Z * bool) : option (list Z * (list Z * bool)) :=
  match ops with
  | [] => Some ([], st)
  | op :: ops =>
      '(d, st) ← queue_step op st;
      '(ds, st) ← queue_run ops st;
      Some (d ++ ds, st)
  end.

Definition uart_op_ok (op : pl011_op) : Prop :=
  match op with
  | Uread offset => 0 <= offset < 0x1000
  | Uwrite offset value => 0 <= offset < 0x1000 ∧ is_u32 value
  | _ => True
  end.
(** The accesses that abort the emulator. *)
Definition uart_bad (op : pl011_op) : bool :=
  match op with
  | Uread offset =>
      negb (in_window 0xfe0 0x1000 offset) &&
      match Z.shiftr offset 2 with
      | 0 | 1 | 6 | 8 | 9 | 10 | 11 | 12 | 13 | 14 | 15 | 16 | 18 => false | _ => true
      end
  | Uwrite offset value =>
      match Z.shiftr offset 2 with
      | 0 | 1 | 6 | 8 | 9 | 10 | 11 | 12 | 13 | 14 | 17 => false | 18 => truth (Z.land value 3) | _ => true
      end
  | _ => false
  end.

(** The ring holds the queue; the flag and the receive interrupt follow it. *)
Record uart_wf (st : list Z * bool) (s : pl011_state) : Prop := {
  u_fifo : length (read_fifo s) = 16%nat;
  u_pos : 0 <= read_pos s < 16;
  u_count : read_count s = Z.of_nat (length st.1);
  u_room : (length st.1 ≤ 16)%nat;
  u_ring : ring_holds 16 (read_fifo s) (read_pos s) st.1;
  u_trigger : read_trigger s = 1;
  u_chr : chr s = true;
  u_id : length (id s) = 8%nat;
  u_mode : truth (Z.land (lcr s) 0x10) = st.2;
  u_empty : Z.testbit (flags s) 4 = bool_decide (st.1 = []);
  u_rx : st.1 = [] → Z.testbit (int_level s) 4 = false;
}.

Definition uart_wire (s : pl011_state) : Z := flag (truth (Z.land (int_level s) (int_enabled s))).

Lemma testbit4_ldiff z m : Z.testbit (Z.ldiff z m) 4 = Z.testbit z 4 && negb (Z.testbit m 4).
Proof. apply Z.ldiff_spec. Qed.
Lemma testbit4_lor z m : Z.testbit (Z.lor z m) 4 = Z.testbit z 4 || Z.testbit m 4.
Proof. apply Z.lor_spec. Qed.

(** The fields of an updated state, and bit 4 of its words. *)
Ltac uart_fields := cbn -[Z.testbit Z.ldiff Z.lor Z.land].
Ltac uart_bits :=
  rewrite ?testbit4_lor, ?testbit4_ldiff, ?testbit4_lor, ?testbit4_ldiff;
  change (Z.testbit PL011_FLAG_RXFE 4) with true; change (Z.testbit PL011_FLAG_RXFF 4) with false;
  change (Z.testbit PL011_INT_RX 4) with true; change (Z.testbit PL011_INT_TX 4) with false;
  cbn [negb]; rewrite ?andb_true_r, ?andb_false_r, ?orb_true_r, ?orb_false_r.

Lemma put_fifo_queue v q fifo s out :
  uart_wf (q, fifo) s → (length q < 16)%nat → out = uart_wire s →
  ∃ s' e, pl011_put_fifo v s = Ok (s', e) ∧ uart_wf (q ++ [v], fifo) s' ∧ fold_left irq_after e out = uart_wire s'.
Proof.
  intros [Hf Hp Hc Hr Hring Ht Hchr Hid Hm He Hrx] Hn ->. cbn [fst snd] in *. unfold pl011_put_fifo.
  set (slot := if 16 <=? read_pos s + read_count s then read_pos s + read_count s - 16 else read_pos s + read_count s).
  assert (slot = (read_pos s + read_count s) mod 16) as Hslot.
  { unfold slot. pose proof (Z.div_mod (read_pos s + read_count s) 16).
    pose proof (Z.mod_pos_bound (read_pos s + read_count s) 16). destruct (Z.leb_spec 16 (read_pos s + read_count s)); lia. }
  pose proof (Z.mod_pos_bound (read_pos s + read_count s) 16 ltac:(lia)).
  rewrite awrite_in by lia. cbn [mbind res_bind]. rewrite Hslot, Hc in *.
  pose proof (ring_put 16 (read_pos s) q (read_fifo s) v ltac:(lia) ltac:(lia) Hring) as Hring'.
  set (f' := <[Z.to_nat _ := v]> (read_fifo s)) in *.
  assert (length f' = 16%nat) as Hf' by (unfold f'; by rewrite length_insert).
  assert (Z.of_nat (length q) + 1 = Z.of_nat (length (q ++ [v]))) as Hlen by (rewrite length_app; simpl; lia).
  assert (bool_decide (q ++ [v] = []) = false) as Hne by (apply bool_decide_eq_false; by destruct q).
  assert ((length (q ++ [v]) ≤ 16)%nat) by (rewrite length_app; simpl; lia).
  cbn [set_fifo set_flags set_int_level read_count read_trigger flags cr]. rewrite ?Ht, Hlen.
  destruct (truth (Z.land (cr s) 0x10) || (Z.of_nat (length (q ++ [v])) =? 16));
    cbn [set_fifo set_flags set_int_level read_count read_trigger flags cr]; rewrite ?Ht;
    (destruct (Z.of_nat (length (q ++ [v])) =? 1); eexists _, _; (split; [reflexivity|]); (split; [|done]));
    (constructor; uart_fields; try done; rewrite ?Hne; uart_bits; try done); by destruct q.
Qed.

Lemma read_data_queue q fifo s out :
  uart_wf (q, fifo) s → out = uart_wire s →
  ∃ v s' e, pl011_read_data s = Ok (v, s', e) ∧ uart_wf (tail q, fifo) s' ∧ fold_left irq_after e out = uart_wire s' ∧
    ∀ x, head q = Some x → v = x.
Proof.
  intros [Hf Hp Hc Hr Hring Ht Hchr Hid Hm He Hrx] ->. cbn [fst snd] in *. unfold pl011_read_data.
  cbn [set_flags read_fifo read_pos]. destruct (aread_in (read_fifo s) (read_pos s) ltac:(lia)) as [v Hv].
  rewrite Hv. cbn [mbind res_bind set_flags read_count read_pos read_fifo flags read_trigger chr]. rewrite Hc.
  destruct q as [|x q]; cbn [length].
  - change (0 <? Z.of_nat 0) with false. cbn [read_count set_flags]. rewrite Hc. cbn [length].
    change (Z.of_nat 0 =? 0) with true. cbn [read_count read_trigger set_flags flags chr set_int_level]. rewrite Ht, Hc.
    change (Z.of_nat (length (@nil Z)) =? 1 - 1) with true. cbn [chr set_int_level set_flags]. rewrite Hchr.
    eexists _, _, _. split; [reflexivity|]. split_and!; [|done|done].
    constructor; uart_fields; try done; uart_bits; done.
  - rewrite (proj2 (Z.ltb_lt 0 (Z.of_nat (S (length q))))) by lia.
    cbn [read_count set_fifo set_flags flags]. replace (Z.of_nat (S (length q)) - 1) with (Z.of_nat (length q)) by lia.
    apply aread_lookup in Hv as [_ Hv].
    assert (v = x) as ->.
    { pose proof (Hring O x eq_refl) as H0. rewrite Z.add_0_r, Z.mod_small in H0 by lia. congruence. }
    set (p' := if read_pos s + 1 =? 16 then 0 else read_pos s + 1).
    assert (p' = (read_pos s + 1) mod 16) as Hp'.
    { unfold p'. destruct (Z.eqb_spec (read_pos s + 1) 16) as [->|]; [done|]. by rewrite Z.mod_small by lia. }
    assert (ring_holds 16 (read_fifo s) p' q) as Hring' by (rewrite Hp'; by eapply ring_tail).
    assert (0 <= p' < 16) by (rewrite Hp'; apply Z.mod_pos_bound; lia).
    cbn [length] in Hr.
    assert (bool_decide (q = []) = (Z.of_nat (length q) =? 0)) as Hemp by (by destruct q).
    rewrite bool_decide_eq_false_2 in He by done.
    destruct (Z.of_nat (length q) =? 0) eqn:Eq;
      cbn [read_count read_trigger set_flags set_fifo chr set_int_level]; rewrite Ht; change (1 - 1) with 0; rewrite Eq;
      cbn [chr set_flags set_fifo set_int_level]; rewrite Hchr;
      eexists _, _, _; (split; [reflexivity|]); split_and!; [|done|by intros ? [= <-] | |done|by intros ? [= <-]];
      (constructor; uart_fields; try done; try lia; rewrite ?Hemp, ?Eq; uart_bits; try done).
    intros ->. done.
Qed.

Lemma u_set_same q fifo m s s' :
  uart_wf (q, fifo) s → read_fifo s' = read_fifo s → read_pos s' = read_pos s → read_count s' = read_count s →
  read_trigger s' = 1 → chr s' = chr s → id s' = id s → flags s' = flags s →
  truth (Z.land (lcr s') 0x10) = m →
  Z.testbit (int_level s') 4 = Z.testbit (int_level s) 4 && Z.testbit (int_level s') 4 →
  uart_wf (q, m) s'.
Proof.
  intros [Hf Hp Hc Hr Hring Ht Hchr Hid Hm He Hrx] E1 E2 E3 E4 E5 E6 E7 E8 E9.
  constructor; cbn [fst snd]; rewrite ?E1, ?E2, ?E3, ?E5, ?E6, ?E7; try done.
  intros Hq. by rewrite E9, (Hrx Hq).
Qed.

Lemma write_queue offset value q fifo s out :
  uart_wf (q, fifo) s → out = uart_wire s →
  if uart_bad (Uwrite offset value) then pl011_write offset value s = Err Hw_error
  else ∃ s' e, pl011_write offset value s = Ok (s', e) ∧
    uart_wf (q, if Z.shiftr offset 2 =? 11 then truth (Z.land value 0x10) else fifo) s' ∧
    fold_left irq_after e out = uart_wire s'.
Proof.
  intros W ->. pose proof (u_trigger _ _ W) as Ht. pose proof (u_mode _ _ W) as Hm. cbn [snd] in Hm.
  unfold uart_bad, pl011_write. destruct (Z.shiftr offset 2) as [|p|p]; [|..].
  - assert (uart_wf (q, fifo) (set_int_level s (Z.lor (int_level s) PL011_INT_TX))) as W'.
    { apply (u_set_same _ _ _ _ _ W); try done. cbn [int_level set_int_level]. uart_bits.
      by destruct (Z.testbit (int_level s) 4). }
    eexists _, _. split; [reflexivity|]. split; [exact W'|]. by destruct (chr s).
  - do 5 (try (destruct p as [p|p|]; try done));
      try (destruct (truth (Z.land value 3)); [done|]);
      (eexists _, _; split; [reflexivity|]; split; [|done]);
      (apply (u_set_same _ _ _ _ _ W); try done); uart_fields; uart_bits; try (by destruct (Z.testbit (int_level s) 4)).
  - done.
Qed.

Lemma read_queue offset q fifo s out :
  uart_wf (q, fifo) s → 0 <= offset < 0x1000 → out = uart_wire s →
  if uart_bad (Uread offset) then pl011_read offset s = Err Hw_error
  else ∃ v s' e, pl011_read offset s = Ok (v, s', e) ∧
    uart_wf (if Z.shiftr offset 2 =? 0 then tail q else q, fifo) s' ∧ fold_left irq_after e out = uart_wire s' ∧
    ∀ x, Z.shiftr offset 2 = 0 → head q = Some x → v = x.
Proof.
  intros W Ho Hout. unfold uart_bad, pl011_read. fold (in_window 0xfe0 0x1000 offset).
  destruct (in_window 0xfe0 0x1000 offset) eqn:E; cbn [negb andb].
  - pose proof (window_index _ _ _ E) as Hi. pose proof (window_not_reg _ _ _ 0 E ltac:(lia) ltac:(lia)) as Hn.
    destruct (aread_in (id s) (Z.shiftr (offset - 0xfe0) 2)) as [v ->];
      [rewrite (u_id _ _ W); change ((0x1000 - 0xfe0 + 3) / 4) with 8 in Hi; lia|].
    eexists _, _, _. split; [reflexivity|]. rewrite Hn. apply Z.eqb_neq in Hn. done.
  - destruct (Z.shiftr offset 2) as [|p|p]; [| |done].
    { destruct (read_data_queue q fifo s out W Hout) as (v & s' & e & H & W' & Hw & Hv).
      exists v, s', e. split_and!; try done. intros x _. apply Hv. }
    do 5 (try (destruct p as [p|p|]; try done)); eexists _, _, _; done.
Qed.

Lemma step_queue op st s out :
  uart_wf st s → uart_op_ok op → out = uart_wire s →
  ∀ d st', queue_step op st = Some (d, st') →
  if uart_bad op then pl011_step op s = Err Hw_error
  else ∃ s' e, pl011_step op s = Ok (d, s', e) ∧ uart_wf st' s' ∧ fold_left irq_after e out = uart_wire s'.
Proof.
  destruct st as [q fifo]. intros W Ho Hout d st' Hs.
  destruct op as [offset|offset value|b|]; cbn [queue_step pl011_step] in *.
  - pose proof (read_queue offset q fifo s out W Ho Hout) as H.
    destruct (uart_bad (Uread offset)); [by rewrite H|].
    destruct H as (v & s' & e & -> & W' & Hw & Hv). cbn [mbind res_bind].
    rewrite (u_count _ _ W). cbn [fst]. exists s', e.
    destruct (Z.eqb_spec (Z.shiftr offset 2) 0) as [E0|]; cbn [andb].
    + destruct q as [|x q]; simplify_eq/=; [done|]. by rewrite (Hv x E0 eq_refl).
    + by simplify_eq.
  - pose proof (write_queue offset value q fifo s out W Hout) as H.
    destruct (uart_bad (Uwrite offset value)); [by rewrite H|].
    destruct H as (s' & e & -> & W' & Hw). simplify_eq/=. eauto.
  - cbn [uart_bad]. unfold pl011_can_receive. rewrite (u_mode _ _ W), (u_count _ _ W). cbn [fst snd].
    assert ((if fifo then Z.of_nat (length q) <? 16 else Z.of_nat (length q) <? 1) =
            (length q <? (if fifo then 16 else 1))%nat) as ->.
    { destruct fifo; symmetry; apply eq_bool_prop_intro; rewrite !Is_true_true, Nat.ltb_lt, Z.ltb_lt; lia. }
    destruct (Nat.ltb_spec (length q) (if fifo then 16 else 1)) as [Hlt|]; simplify_eq; [|eauto].
    destruct (put_fifo_queue (bz b) q fifo s _ W ltac:(destruct fifo; lia) eq_refl) as (s' & e & H & W' & Hw).
    cbn [pl011_receive]. rewrite H. cbn [mbind res_bind]. eauto.
  - cbn [uart_bad]. unfold pl011_event. change (CHR_EVENT_BREAK =? CHR_EVENT_BREAK) with true. cbn iota.
    destruct (Nat.ltb_spec (length q) 16) as [Hlt|]; simplify_eq.
    destruct (put_fifo_queue 0x400 q fifo s _ W Hlt eq_refl) as (s' & e & -> & W' & Hw).
    cbn [mbind res_bind]. eauto.
Qed.

(** [C38]: The receive side of a UART with a character backend is a first-in first-out queue
    of at most 16 words (when the FIFO is disabled, characters wait one at a time): for every
    run of guest accesses, characters and breaks from initialisation that has no break while
    16 words wait and no access that aborts, the guest reads from the data register exactly
    the words that came in, in their order; the ring buffer is never indexed out of bounds,
    the RXFE flag says whether the queue is empty, the receive interrupt is not pending when
    it is, and the interrupt wire is the masked interrupt status at every point. *)
Theorem pl011_fifo_is_queue ops d st :
  Forall uart_op_ok ops → existsb uart_bad ops = false →
  queue_run ops ([], false) = Some (d, st) →
  ∃ s, pl011_run ops (pl011_init_arm true) 0 = Ok (d, s, uart_wire s) ∧ uart_wf st s.
Proof.
  intros Ho Hb. assert (uart_wf ([], false) (pl011_init_arm true)) as W by (constructor; done || (cbn; lia)).
  change 0 with (uart_wire (pl011_init_arm true)) at 1. revert W d Hb.
  generalize (pl011_init_arm true) as s. generalize (@nil Z, false) as st0.
  induction Ho as [|op ops Hop Ho IH]; intros st0 s W d Hb Hq; cbn [queue_run pl011_run existsb] in *.
  { simplify_eq. eauto. }
  apply orb_false_elim in Hb as [Hb1 Hb2].
  destruct (queue_step op st0) as [[d1 st1]|] eqn:E1; [|done]. cbn [mbind option_bind] in Hq.
  destruct (queue_run ops st1) as [[d2 st2]|] eqn:E2; [|done]. cbn [mbind option_bind] in Hq. simplify_eq.
  pose proof (step_queue op st0 s _ W Hop eq_refl d1 st1 E1) as H. rewrite Hb1 in H.
  destruct H as (s1 & e & -> & W1 & Hw). cbn [mbind res_bind]. rewrite Hw.
  destruct (IH st1 s1 W1 d2 Hb2 E2) as (s2 & -> & W2). cbn [mbind res_bind]. eauto.
Qed.

(** The FIFO is enabled, three characters come in and two are read. *)
Definition uart_example : list pl011_op :=
  [Uwrite 0x2c 0x10; Uwrite 0x38 0x10; Uinput "a"%byte; Uinput "b"%byte; Uread 0; Ubreak; Uread 0].

Lemma pl011_fifo_is_queue_witness :
  ∃ s, pl011_run uart_example (pl011_init_arm true) 0 = Ok ([97; 98], s, uart_wire s) ∧ uart_wf ([0x400], true) s.
Proof.
  apply (pl011_fifo_is_queue uart_example [97; 98] ([0x400], true)).
  - unfold uart_example, uart_op_ok, is_u32. repeat (constructor; [simpl; lia|]). constructor.
  - vm_compute. reflexivity.
  - vm_compute. reflexivity.
Defined.

(** ** Breaks when the FIFO is full, and a UART without a backend *)

(** The ring is advanced to its last slot and filled. *)
Definition fill_ring : list pl011_op :=
  Uwrite 0x2c 0x10 :: flat_map (λ _, [Uinput "x"%byte; Uread 0]) (seq 0 15) ++ replicate 16 (Uinput "y"%byte).

(** A break is stored without asking whether there is room: with the ring full
    and its read position at the last slot, a first break overwrites the oldest
    character and makes the count 17, and a second one writes past the ring. *)
Theorem pl011_break_overflows :
  ∃ d s s', pl011_run fill_ring (pl011_init_arm true) 0 = Ok (d, s, 0) ∧ read_count s = 16 ∧
    pl011_event CHR_EVENT_BREAK s = Ok (s', []) ∧ read_count s' = 17 ∧
    pl011_event CHR_EVENT_BREAK s' = Err Out_of_bounds.
Proof. eexists _, _, _. split_and!; vm_compute; reflexivity. Qed.

(** Without a character backend a read of the data register follows a null
    pointer ([qemu_chr_accept_input]), although the write side tests for it. *)
Theorem pl011_read_without_backend q fifo s :
  uart_wf (q, fifo) s →
  pl011_read 0 (mkPl011 (readbuff s) (flags s) (lcr s) (cr s) (dmacr s) (int_enabled s) (int_level s) (read_fifo s)
    (ilpr s) (ibrd s) (fbrd s) (ifl s) (read_pos s) (read_count s) (read_trigger s) false (id s)) = Err Null_deref.
Proof.
  intros W. change (pl011_read 0) with pl011_read_data. unfold pl011_read_data.
  cbn [set_flags read_fifo read_pos].
  destruct (aread_in (read_fifo s) (read_pos s)) as [v ->]; [rewrite (u_fifo _ _ W); apply W|].
  cbn [mbind res_bind]. repeat case_match; simplify_eq/=; done.
Qed.
