(* ===== verification/TimerList.v ===== *)
(** * TimerList: the emulator's timers (qemu-timer.c)

    The active timers of a clock: a linked list sorted by deadline, from which
    [qemu_run_timers] takes the expired timers one by one and calls their
    callbacks, which may arm and stop timers in turn.  A timer is its number; the
    list holds the armed ones with their deadlines, the first to expire first.  The
    alarm that wakes the main loop is not part of the model. *)

From stdpp Require Import sorting.
From S2P Require Import Prelude.
Local Open Scope Z_scope.

Abbreviation timer_list := (list (nat * Z)).

Definition qemu_timer_expired_ns (t : option (nat * Z)) (current_time : Z) : bool :=
  match t with Some (_, expire_time) => expire_time <=? current_time | None => false end.

Fixpoint qemu_del_timer (ts : nat) (l : timer_list) : timer_list :=
  match l with
  | [] => []
  | t :: l => if decide (t.1 = ts) then l else t :: qemu_del_timer ts l
  end.

(** The loop that looks for the place, and the insertion there. *)
Fixpoint insert_timer (ts : nat) (expire_time : Z) (l : timer_list) : timer_list :=
  if qemu_timer_expired_ns (head l) expire_time then
    match l with t :: l => t :: insert_timer ts expire_time l | [] => [(ts, expire_time)] end
  else (ts, expire_time) :: l.

Definition qemu_mod_timer_ns (ts : nat) (expire_time : Z) (l : timer_list) : timer_list :=
  insert_timer ts expire_time (qemu_del_timer ts l).

Definition qemu_mod_timer (ts : nat) (scale expire_time : Z) (l : timer_list) : timer_list :=
  qemu_mod_timer_ns ts (s64 (expire_time * scale)) l.

Fixpoint qemu_timer_pending (ts : nat) (l : timer_list) : bool :=
  match l with
  | [] => false
  | t :: l => if decide (t.1 = ts) then true else qemu_timer_pending ts l
  end.

(** What a callback does with timers: [Some] arms one, [None] stops it. *)
Abbreviation timer_ops := (list (nat * option Z)).

Definition timer_op (l : timer_list) '((ts, e) : nat * option Z) : timer_list :=
  match e with Some e => qemu_mod_timer_ns ts e l | None => qemu_del_timer ts l end.

(** The devices behind the timers: the callback of timer [ts]. *)
Class TimerClient (W : Type) := timer_cb : nat → W → res (W * timer_ops).

Section run.
Context {W : Type} `{TimerClient W}.

(** The state of the devices, the active timers, and the timers that fired with
    the deadlines they had, in order. *)
Fixpoint run_timers_loop (fuel : nat) (current_time : Z) (w : W) (l : timer_list) : res (W * timer_list * timer_list) :=
  match fuel with
  | O => Err Out_of_fuel
  | S fuel =>
      if qemu_timer_expired_ns (head l) current_time then
        match l with
        | t :: l =>
            '(w, ops) ← timer_cb t.1 w;
            '(w, l, fired) ← run_timers_loop fuel current_time w (fold_left timer_op ops l);
            Ok (w, l, t :: fired)
        | [] => Ok (w, l, [])
        end
      else Ok (w, l, [])
  end.

Definition qemu_run_timers (fuel : nat) (enabled : bool) (current_time : Z) (w : W) (l : timer_list)
    : res (W * timer_list * timer_list) :=
  if negb enabled then Ok (w, l, []) else run_timers_loop fuel current_time w l.
End run.

(** ** The list is sorted and holds a timer at most once *)

Definition by_deadline (a b : nat * Z) : Prop := a.2 <= b.2.

Record timers_wf (l : timer_list) : Prop := {
  tl_sorted : StronglySorted by_deadline l;
  tl_nodup : NoDup l.*1;
}.

(** The deadlines of the armed timers. *)
Definition deadlines (l : timer_list) : gmap nat Z := list_to_map l.

Lemma del_timer_sublist ts l : qemu_del_timer ts l `sublist_of` l.
Proof.
  induction l as [|t l IH]; cbn [qemu_del_timer]; [done|]. case_decide.
  - by apply sublist_cons.
  - by apply sublist_skip.
Qed.
Lemma sorted_sublist l k : k `sublist_of` l → StronglySorted by_deadline l → StronglySorted by_deadline k.
Proof.
  induction 1 as [|x k l Hs IH|x k l Hs IH]; intros Hl; [done|..]; apply StronglySorted_inv in Hl as [Hl Hx].
  - constructor; [by apply IH|]. rewrite Forall_forall in *. intros y Hy. apply Hx.
    by eapply elem_of_sublist.
  - by apply IH.
Qed.
Lemma fmap_sublist {A B} (f : A → B) l k : k `sublist_of` l → f <$> k `sublist_of` f <$> l.
Proof. induction 1; cbn; by constructor. Qed.
Lemma del_timer_wf ts l : timers_wf l → timers_wf (qemu_del_timer ts l).
Proof.
  intros [Hs Hn]. pose proof (del_timer_sublist ts l) as Hsub. constructor; [by eapply sorted_sublist|].
  eapply sublist_NoDup; [done|]. by apply fmap_sublist.
Qed.
Lemma del_timer_map ts l : NoDup l.*1 → deadlines (qemu_del_timer ts l) = delete ts (deadlines l).
Proof.
  unfold deadlines. induction l as [|[ts' e] l IH]; intros Hn; cbn [qemu_del_timer list_to_map foldr fst snd].
  - by rewrite delete_empty.
  - apply NoDup_cons in Hn as [Hni Hn]. case_decide; subst; cbn [list_to_map foldr fst snd].
    + rewrite delete_insert_eq, delete_id; [done|]. by apply not_elem_of_list_to_map_1.
    + rewrite delete_insert_ne by done. by rewrite IH.
Qed.
Lemma del_timer_elem ts t l : t ∈ qemu_del_timer ts l → t ∈ l.
Proof. intros Ht. eapply elem_of_sublist; [done|apply del_timer_sublist]. Qed.
Lemma del_timer_gone ts l : NoDup l.*1 → ts ∉ (qemu_del_timer ts l).*1.
Proof.
  intros Hn. apply (not_elem_of_list_to_map_2 (M := gmap nat)).
  fold (deadlines (qemu_del_timer ts l)). rewrite del_timer_map by done. apply lookup_delete_eq.
Qed.

Lemma insert_timer_split ts e l :
  ∃ l1 l2, insert_timer ts e l = l1 ++ (ts, e) :: l2 ∧ l = l1 ++ l2 ∧
    Forall (λ t, t.2 <= e) l1 ∧ (∀ t, head l2 = Some t → e < t.2).
Proof.
  induction l as [|t l (l1 & l2 & E1 & E2 & Hl1 & Hl2)]; [by exists [], []|].
  cbn [insert_timer head]. destruct (qemu_timer_expired_ns (Some t) e) eqn:He; destruct t as [ts' e']; cbn in He.
  - exists ((ts', e') :: l1), l2. rewrite E1, E2. split_and!; [done|done| |done].
    constructor; [|done]. cbn. bool_to_prop. lia.
  - exists [], ((ts', e') :: l). split_and!; [done|done|constructor|]. intros t [= <-]. cbn. bool_to_prop. lia.
Qed.
Lemma insert_timer_perm ts e l : insert_timer ts e l ≡ₚ (ts, e) :: l.
Proof.
  destruct (insert_timer_split ts e l) as (l1 & l2 & -> & -> & _). by rewrite Permutation_middle.
Qed.
Lemma insert_timer_sorted ts e l : StronglySorted by_deadline l → StronglySorted by_deadline (insert_timer ts e l).
Proof.
  intros Hs. destruct (insert_timer_split ts e l) as (l1 & l2 & -> & -> & H1 & H2).
  apply StronglySorted_app in Hs as (S12 & S1 & S2). rewrite Forall_forall in H1.
  assert (Forall (by_deadline (ts, e)) l2) as Hf.
  { destruct l2 as [|t l2]; constructor; [specialize (H2 t eq_refl); unfold by_deadline; cbn; lia|].
    apply StronglySorted_inv in S2 as [_ S2]. eapply Forall_impl; [done|].
    intros t' Ht'. specialize (H2 t eq_refl). unfold by_deadline in *. cbn. lia. }
  apply StronglySorted_app_2; [|done|by constructor].
  intros a b Ha Hb%elem_of_cons. unfold by_deadline. destruct Hb as [->|Hb]; [by apply H1|].
  by apply S12.
Qed.
Lemma mod_timer_wf ts e l : timers_wf l → timers_wf (qemu_mod_timer_ns ts e l).
Proof.
  intros W. destruct (del_timer_wf ts l W) as [Hs Hn]. constructor; [by apply insert_timer_sorted|].
  unfold qemu_mod_timer_ns. rewrite insert_timer_perm. cbn. constructor; [|done].
  apply del_timer_gone, W.
Qed.
Lemma mod_timer_map ts e l : timers_wf l → deadlines (qemu_mod_timer_ns ts e l) = <[ts:=e]> (deadlines l).
Proof.
  intros W. unfold qemu_mod_timer_ns, deadlines.
  pose proof (tl_nodup _ (mod_timer_wf ts e l W)) as Hn. unfold qemu_mod_timer_ns in Hn.
  rewrite (list_to_map_proper _ _ Hn (insert_timer_perm ts e (qemu_del_timer ts l))).
  cbn. fold (deadlines (qemu_del_timer ts l)). rewrite del_timer_map by apply W. by rewrite insert_delete_eq.
Qed.

(** ** The main loop runs the expired timers, in the order of their deadlines *)

Lemma timer_op_wf l op : timers_wf l → timers_wf (timer_op l op).
Proof. destruct op as [ts [e|]]; [apply mod_timer_wf|apply del_timer_wf]. Qed.
Lemma timer_ops_wf ops l : timers_wf l → timers_wf (fold_left timer_op ops l).
Proof. revert l. induction ops; intros l W; [done|]. cbn. auto using timer_op_wf. Qed.
Lemma timer_op_elem l op t : t ∈ timer_op l op → t ∈ l ∨ op = (t.1, Some t.2).
Proof.
  destruct op as [ts [e|]]; cbn.
  - unfold qemu_mod_timer_ns. rewrite insert_timer_perm. intros [->|Ht]%elem_of_cons; [by right|].
    left. by eapply del_timer_elem.
  - intros Ht. left. by eapply del_timer_elem.
Qed.

(** The timers armed for time [h]. *)
Definition due (h : Z) (l : timer_list) : nat := length (filter (λ t : nat * Z, t.2 = h) l).

Lemma due_sublist h k l : k `sublist_of` l → (due h k ≤ due h l)%nat.
Proof.
  unfold due. induction 1 as [|x k l Hs IH|x k l Hs IH]; [done|..]; rewrite !filter_cons; case_decide; simpl; lia.
Qed.
Lemma timer_op_due h l op :
  (∀ e, op.2 = Some e → h < e) → (due h (timer_op l op) ≤ due h l)%nat.
Proof.
  destruct op as [ts [e|]]; cbn; intros He; [|apply due_sublist, del_timer_sublist].
  specialize (He e eq_refl). etrans; [|apply due_sublist, (del_timer_sublist ts)].
  unfold due, qemu_mod_timer_ns. rewrite insert_timer_perm, filter_cons_False by (cbn; lia). done.
Qed.
Lemma timer_ops_later h ops l :
  Forall (λ op : nat * option Z, ∀ e, op.2 = Some e → h < e) ops →
  (∀ t, t ∈ l → h <= t.2) →
  (∀ t, t ∈ fold_left timer_op ops l → h <= t.2) ∧ (due h (fold_left timer_op ops l) ≤ due h l)%nat.
Proof.
  intros Ho. revert l. induction Ho as [|op ops Hop Ho IH]; intros l Hl; [done|]. cbn [fold_left].
  destruct (IH (timer_op l op)) as [H1 H2].
  - intros t [Ht| ->]%timer_op_elem; [by apply Hl|]. specialize (Hop _ eq_refl). lia.
  - split; [done|]. pose proof (timer_op_due h l op Hop). lia.
Qed.
Lemma timer_ops_bound N ops l :
  Forall (λ op : nat * option Z, (op.1 < N)%nat) ops → Forall (λ t : nat * Z, (t.1 < N)%nat) l →
  Forall (λ t : nat * Z, (t.1 < N)%nat) (fold_left timer_op ops l).
Proof.
  intros Ho. revert l. induction Ho as [|op ops Hop Ho IH]; intros l Hl; [done|]. cbn [fold_left]. apply IH.
  rewrite Forall_forall in *. intros t [Ht| ->]%timer_op_elem; [by apply Hl|done].
Qed.
Lemma timers_length N l : timers_wf l → Forall (λ t : nat * Z, (t.1 < N)%nat) l → (length l ≤ N)%nat.
Proof.
  intros W Hb. rewrite <- (length_fmap fst). transitivity (length (seq 0 N)); [|by rewrite length_seq].
  apply submseteq_length, NoDup_submseteq; [apply W|].
  intros ts [t [-> Ht]]%list_elem_of_fmap. rewrite Forall_forall in Hb. apply elem_of_seq. specialize (Hb t Ht). lia.
Qed.

(** What is left to do until [now], for [N] timers. *)
Definition work (N : nat) (now : Z) (l : timer_list) : nat :=
  match l with
  | [] => 0
  | (_, h) :: _ => if h <=? now then Z.to_nat (now + 1 - h) * S N + due h l else 0
  end.

Lemma work_less N now ts h l ops :
  timers_wf ((ts, h) :: l) → h <= now → Forall (λ t : nat * Z, (t.1 < N)%nat) l →
  Forall (λ op : nat * option Z, (op.1 < N)%nat) ops →
  Forall (λ op : nat * option Z, ∀ e, op.2 = Some e → h < e) ops →
  (work N now (fold_left timer_op ops l) < work N now ((ts, h) :: l))%nat.
Proof.
  intros W Hh Hb Hob Hop. destruct W as [Hs Hn].
  apply StronglySorted_inv in Hs as [Hs Hmin]. apply NoDup_cons in Hn as [_ Hn].
  assert (timers_wf l) as Wl by done. rewrite Forall_forall in Hmin.
  destruct (timer_ops_later h ops l Hop) as [Hge Hdue]; [intros t Ht; by apply (Hmin t)|].
  pose proof (timer_ops_wf ops l Wl) as W1. pose proof (timer_ops_bound N ops l Hob Hb) as Hb1.
  pose proof (timers_length N _ W1 Hb1) as Hlen.
  set (l1 := fold_left timer_op ops l) in *. cbn [work]. rewrite (proj2 (Z.leb_le h now)) by done.
  unfold due at 1. rewrite filter_cons_True by done. cbn [length]. fold (due h l).
  destruct l1 as [|[ts1 h1] l2] eqn:E1; cbn [work]; [apply Nat.lt_lt_add_l; lia|].
  specialize (Hge (ts1, h1) (list_elem_of_here _ _)). cbn in Hge.
  assert (due h1 ((ts1, h1) :: l2) ≤ N)%nat as Hd1.
  { etrans; [|exact Hlen]. unfold due. apply length_filter. }
  destruct (Z.leb_spec h1 now); [|apply Nat.lt_lt_add_l; lia]. destruct (decide (h1 = h)) as [->|]; [lia|].
  assert (Z.to_nat (now + 1 - h) = S (Z.to_nat (now + 1 - h) - 1))%nat as -> by lia.
  assert (Z.to_nat (now + 1 - h1) ≤ Z.to_nat (now + 1 - h) - 1)%nat by lia. nia.
Qed.

(** What the devices promise to the main loop up to the time [limit]: in a state
    [inv] of devices and timers, the callback of an expired timer completes, leaves
    such a state, and arms timers only for times after the deadline it was called
    for. *)
Class TimerLaws (W : Type) `{TimerClient W} (N : nat) (limit : Z) (inv : W → timer_list → Prop) := {
  cb_returns : ∀ ts e l w, inv w ((ts, e) :: l) → timers_wf ((ts, e) :: l) → e <= limit →
    ∃ w' ops, timer_cb ts w = Ok (w', ops) ∧ inv w' (fold_left timer_op ops l) ∧
      Forall (λ op : nat * option Z, (op.1 < N)%nat ∧ ∀ t, op.2 = Some t → e < t) ops;
  inv_bound : ∀ w l, inv w l → Forall (λ t : nat * Z, (t.1 < N)%nat) l;
}.

Section run_facts.
Context {W : Type} `{TimerClient W} {N : nat} {limit : Z} {inv : W → timer_list → Prop}
  `{!TimerLaws W N limit inv}.

Lemma run_timers_loop_complete now w l fuel :
  timers_wf l → inv w l → now <= limit → (work N now l < fuel)%nat →
  ∃ w' l' fired, run_timers_loop fuel now w l = Ok (w', l', fired) ∧ inv w' l' ∧ timers_wf l' ∧
    (∀ t, t ∈ l' → now < t.2) ∧ StronglySorted by_deadline fired ∧
    Forall (λ t, t.2 <= now ∧ ∀ h0, (∀ t0, t0 ∈ l → h0 <= t0.2) → h0 <= t.2) fired.
Proof.
  revert w l. induction fuel as [|fuel IH]; intros w l Wl Hinv Hlim Hf; [lia|]. cbn [run_timers_loop].
  destruct l as [|[ts h] l].
  { exists w, [], []. cbn. split_and!; [done..|set_solver|constructor|constructor]. }
  assert (timers_wf l ∧ ∀ t, t ∈ l → h <= t.2) as [W0 Hmin].
  { destruct Wl as [Hs Hn]. apply StronglySorted_inv in Hs as [? Hall]. apply NoDup_cons in Hn as [_ ?].
    rewrite Forall_forall in Hall. split; [done|]. intros t Ht. by apply Hall. }
  cbn [head qemu_timer_expired_ns fst]. destruct (Z.leb_spec h now) as [Hh|Hh]; cbn [head].
  - destruct (cb_returns (limit := limit) ts h l w Hinv Wl ltac:(lia)) as (w1 & ops & Hcb & Hinv1 & Hops). rewrite Hcb. cbn [mbind res_bind].
    pose proof (inv_bound _ _ Hinv) as Hb. apply Forall_cons in Hb as [_ Hb].
    pose proof (Forall_impl _ _ _ Hops (λ _ Ho, proj2 Ho)) as Hlater.
    pose proof (work_less N now ts h l ops Wl Hh Hb (Forall_impl _ _ _ Hops (λ _ Ho, proj1 Ho)) Hlater) as Hless.
    destruct (IH w1 _ (timer_ops_wf ops l W0) Hinv1 Hlim ltac:(lia)) as (w' & l' & fired & Hr & Hi' & W' & Hdone & Hsf & Hff).
    rewrite Hr. cbn [mbind res_bind]. eexists _, _, _. split; [done|].
    destruct (timer_ops_later h ops l Hlater Hmin) as [Hge _].
    split_and!; [done|done|done| |]; (constructor; [done || (split; [done|]; intros h0 H0; apply (H0 (ts, h)), list_elem_of_here)|]).
    + eapply Forall_impl; [exact Hff|]. intros t [_ Ht]. by apply Ht.
    + eapply Forall_impl; [exact Hff|]. intros t [Hn Ht]. split; [done|]. intros h0 H0.
      transitivity h; [apply (H0 (ts, h)), list_elem_of_here|by apply Ht].
  - eexists _, _, _. split; [done|]. split_and!; [done|done| |constructor|constructor].
    intros t [->|Ht]%elem_of_cons; [done|]. specialize (Hmin t Ht). lia.
Qed.

(** [C18]: The main loop's pass over the timers of a running clock ends and is
    complete and fair: for devices that re-arm a timer only for a time after the
    deadline it fired for, with enough fuel the pass returns, every timer still armed
    is due after the current time, the list is still sorted with every timer in it
    once, and the callbacks were called in the order of the deadlines. *)
Theorem run_timers_complete now w l fuel :
  timers_wf l → inv w l → now <= limit → (work N now l < fuel)%nat →
  ∃ w' l' fired, qemu_run_timers fuel true now w l = Ok (w', l', fired) ∧ inv w' l' ∧ timers_wf l' ∧
    (∀ t, t ∈ l' → now < t.2) ∧ StronglySorted by_deadline fired ∧ Forall (λ t, t.2 <= now) fired.
Proof.
  intros Wl Hinv Hlim Hf. destruct (run_timers_loop_complete now w l fuel Wl Hinv Hlim Hf) as (w' & l' & fired & Hr & Hrest).
  exists w', l', fired. split; [exact Hr|]. destruct Hrest as (? & ? & ? & ? & Hff). split_and!; [done..|].
  eapply Forall_impl; [exact Hff|]. by intros t [? _].
Qed.
End run_facts.
