(* ===== verification/Ssys.v ===== *)
(** * Ssys: the system controller of the Stellaris boards (hw/stellaris.c)

    The controller holds the clock configuration of the board.  A write of the run
    mode clock configuration (RCC) is the frequency change of the variability
    extension, and sets [system_clock_scale] (a variable of hw/armv7m_nvic.c), the
    length in nanoseconds of a cycle of the system clock, from which the timers of
    the board are driven.  The world of the controller is its registers, that
    variable, the variables of the accounting, and its interrupt wire. *)

From S2P Require Import Prelude QDict QObject InsnMap Variability PowerModel Energy VarMod.
Local Open Scope Z_scope.

(** ** The boards *)

Record stellaris_board_info := mkBoardInfo {
  did0 : Z; did1 : Z; dc0 : Z; dc1 : Z; dc2 : Z; dc3 : Z; dc4 : Z; peripherals : Z;
}.

Definition lm3s811evb : stellaris_board_info :=
  mkBoardInfo 0 0x0032000e 0x001f001f 0x001132bf 0x01071013 0x3f0f01ff 0x0000001f 0x01.
Definition lm3s6965evb : stellaris_board_info :=
  mkBoardInfo 0x10010002 0x1073402e 0x00ff007f 0x001133ff 0x030f5317 0x0f0f87ff 0x5000007f 0x06.

(** ** State *)

Record ssys_state := mkSsys {
  pborctl : Z;
  ldopctl : Z;
  int_status : Z;
  int_mask : Z;
  resc : Z;
  rcc : Z;
  rcgc : list Z;
  scgc : list Z;
  dcgc : list Z;
  clkvclr : Z;
  ldoarst : Z;
  user0 : Z;
  user1 : Z;
  board : stellaris_board_info;
}.

(** The registers, [system_clock_scale], the accounting and the interrupt wire. *)
Record ssys_world := mkSsysWorld {
  sys : ssys_state;
  system_clock_scale : Z;
  acct : var_state;
  sys_irq : Z;
}.

Definition set_sys (w : ssys_world) (s : ssys_state) : ssys_world :=
  mkSsysWorld s (system_clock_scale w) (acct w) (sys_irq w).

Definition set_pborctl (s : ssys_state) (x : Z) : ssys_state :=
  mkSsys x (ldopctl s) (int_status s) (int_mask s) (resc s) (rcc s) (rcgc s) (scgc s) (dcgc s) (clkvclr s)
    (ldoarst s) (user0 s) (user1 s) (board s).
Definition set_ldopctl (s : ssys_state) (x : Z) : ssys_state :=
  mkSsys (pborctl s) x (int_status s) (int_mask s) (resc s) (rcc s) (rcgc s) (scgc s) (dcgc s) (clkvclr s)
    (ldoarst s) (user0 s) (user1 s) (board s).
Definition set_ints (s : ssys_state) (st mask : Z) : ssys_state :=
  mkSsys (pborctl s) (ldopctl s) st mask (resc s) (rcc s) (rcgc s) (scgc s) (dcgc s) (clkvclr s)
    (ldoarst s) (user0 s) (user1 s) (board s).
Definition set_resc (s : ssys_state) (x : Z) : ssys_state :=
  mkSsys (pborctl s) (ldopctl s) (int_status s) (int_mask s) x (rcc s) (rcgc s) (scgc s) (dcgc s) (clkvclr s)
    (ldoarst s) (user0 s) (user1 s) (board s).
Definition set_rcc (s : ssys_state) (x : Z) : ssys_state :=
  mkSsys (pborctl s) (ldopctl s) (int_status s) (int_mask s) (resc s) x (rcgc s) (scgc s) (dcgc s) (clkvclr s)
    (ldoarst s) (user0 s) (user1 s) (board s).
Definition set_gates (s : ssys_state) (r sl d : list Z) : ssys_state :=
  mkSsys (pborctl s) (ldopctl s) (int_status s) (int_mask s) (resc s) (rcc s) r sl d (clkvclr s)
    (ldoarst s) (user0 s) (user1 s) (board s).
Definition set_clkvclr (s : ssys_state) (x : Z) : ssys_state :=
  mkSsys (pborctl s) (ldopctl s) (int_status s) (int_mask s) (resc s) (rcc s) (rcgc s) (scgc s) (dcgc s) x
    (ldoarst s) (user0 s) (user1 s) (board s).
Definition set_ldoarst (s : ssys_state) (x : Z) : ssys_state :=
  mkSsys (pborctl s) (ldopctl s) (int_status s) (int_mask s) (resc s) (rcc s) (rcgc s) (scgc s) (dcgc s)
    (clkvclr s) x (user0 s) (user1 s) (board s).

(** ** Operations *)

Definition ssys_update (w : ssys_world) : ssys_world :=
  mkSsysWorld (sys w) (system_clock_scale w) (acct w)
    (flag (truth (Z.land (int_status (sys w)) (int_mask (sys w))))).

Definition pllcfg_sandstorm : list Z :=
  [0x31c0; 0x1ae0; 0x18c0; 0xd573; 0x37a6; 0x1ae2; 0x0c40; 0x98bc; 0x935b; 0x09c0; 0x4dee; 0x0c41;
   0x75db; 0x1ae6; 0x0600; 0x585b].
Definition pllcfg_fury : list Z :=
  [0x3200; 0x1b20; 0x1900; 0xf42b; 0x37e3; 0x1b21; 0x0c80; 0x98ee; 0xd5b4; 0x0a00; 0x4e27; 0x1902;
   0xec1c; 0x1b23; 0x0640; 0xb11c].

Definition ssys_read (s : ssys_state) (offset : Z) : res Z :=
  match offset with
  | 0x000 => Ok (did0 (board s))
  | 0x004 => Ok (did1 (board s))
  | 0x008 => Ok (dc0 (board s))
  | 0x010 => Ok (dc1 (board s))
  | 0x014 => Ok (dc2 (board s))
  | 0x018 => Ok (dc3 (board s))
  | 0x01c => Ok (dc4 (board s))
  | 0x030 => Ok (pborctl s)
  | 0x034 => Ok (ldopctl s)
  | 0x040 | 0x044 | 0x048 => Ok 0
  | 0x050 => Ok (int_status s)
  | 0x054 => Ok (int_mask s)
  | 0x058 => Ok (Z.land (int_status s) (int_mask s))
  | 0x05c => Ok (resc s)
  | 0x060 => Ok (rcc s)
  | 0x064 =>
      let xtal := Z.land (Z.shiftr (rcc s) 6) 0xf in
      if truth (Z.land (did0 (board s)) (Z.shiftl 1 16)) then aread pllcfg_fury xtal
      else aread pllcfg_sandstorm xtal
  | 0x100 => aread (rcgc s) 0
  | 0x104 => aread (rcgc s) 1
  | 0x108 => aread (rcgc s) 2
  | 0x110 => aread (scgc s) 0
  | 0x114 => aread (scgc s) 1
  | 0x118 => aread (scgc s) 2
  | 0x120 => aread (dcgc s) 0
  | 0x124 => aread (dcgc s) 1
  | 0x128 => aread (dcgc s) 2
  | 0x150 => Ok (clkvclr s)
  | 0x160 => Ok (ldoarst s)
  | 0x1e0 => Ok (user0 s)
  | 0x1e4 => Ok (user1 s)
  | _ => Err Hw_error
  end.

(** The scale for a value of RCC. *)
Definition rcc_scale (v : Z) : Z := 5 * (Z.land (Z.shiftr v 23) 0xf + 1).

Definition ssys_calculate_system_clock (w : ssys_world) : ssys_world :=
  mkSsysWorld (sys w) (rcc_scale (rcc (sys w))) (acct w) (sys_irq w).

(** The uninitialised locals of the frequency change handler. *)
Record freq_locals := mkFreqLocals { f_cur : cycle_counter; f_chk : cycle_counter; f_energy : energy_counter }.

(** The call of [frequency_change_handler] on the controller. *)
Definition ssys_freq_change (pm : option PowerModel) (g : freq_locals) (w : ssys_world) : res ssys_world :=
  a ← frequency_change_handler pm (rcc (sys w)) (f_cur g) (f_chk g) (f_energy g) (acct w);
  Ok (mkSsysWorld (sys w) (system_clock_scale w) a (sys_irq w)).

(** The case of RCC. *)
Definition ssys_write_rcc (pm : option PowerModel) (g : freq_locals) (value : Z) (w : ssys_world) : res ssys_world :=
  let s := sys w in
  let w := if truth (Z.land (rcc s) (Z.shiftl 1 13)) && negb (truth (Z.land value (Z.shiftl 1 13)))
           then set_sys w (set_ints s (Z.lor (int_status s) (Z.shiftl 1 6)) (int_mask s)) else w in
  w ← (if negb (value =? rcc (sys w)) then ssys_freq_change pm g w else Ok w);
  Ok (ssys_calculate_system_clock (set_sys w (set_rcc (sys w) value))).

Definition ssys_write (pm : option PowerModel) (g : freq_locals) (offset value : Z) (w : ssys_world) : res ssys_world :=
  let s := sys w in
  w ← match offset with
      | 0x030 => Ok (set_sys w (set_pborctl s (Z.land value 0xffff)))
      | 0x034 => Ok (set_sys w (set_ldopctl s (Z.land value 0x1f)))
      | 0x040 | 0x044 | 0x048 => Ok w
      | 0x054 => Ok (set_sys w (set_ints s (int_status s) (Z.land value 0x7f)))
      | 0x058 => Ok (set_sys w (set_ints s (Z.ldiff (int_status s) value) (int_mask s)))
      | 0x05c => Ok (set_sys w (set_resc s (Z.land value 0x3f)))
      | 0x060 => ssys_write_rcc pm g value w
      | 0x100 => a ← awrite (rcgc s) 0 value; Ok (set_sys w (set_gates s a (scgc s) (dcgc s)))
      | 0x104 => a ← awrite (rcgc s) 1 value; Ok (set_sys w (set_gates s a (scgc s) (dcgc s)))
      | 0x108 => a ← awrite (rcgc s) 2 value; Ok (set_sys w (set_gates s a (scgc s) (dcgc s)))
      | 0x110 => a ← awrite (scgc s) 0 value; Ok (set_sys w (set_gates s (rcgc s) a (dcgc s)))
      | 0x114 => a ← awrite (scgc s) 1 value; Ok (set_sys w (set_gates s (rcgc s) a (dcgc s)))
      | 0x118 => a ← awrite (scgc s) 2 value; Ok (set_sys w (set_gates s (rcgc s) a (dcgc s)))
      | 0x120 => a ← awrite (dcgc s) 0 value; Ok (set_sys w (set_gates s (rcgc s) (scgc s) a))
      | 0x124 => a ← awrite (dcgc s) 1 value; Ok (set_sys w (set_gates s (rcgc s) (scgc s) a))
      | 0x128 => a ← awrite (dcgc s) 2 value; Ok (set_sys w (set_gates s (rcgc s) (scgc s) a))
      | 0x150 => Ok (set_sys w (set_clkvclr s value))
      | 0x160 => Ok (set_sys w (set_ldoarst s value))
      | _ => Err Hw_error
      end;
  Ok (ssys_update w).

Definition ssys_reset (pm : option PowerModel) (g : freq_locals) (w : ssys_world) : res ssys_world :=
  let s := set_rcc (set_pborctl (sys w) 0x7ffd) 0x078e3ac0 in
  r ← awrite (rcgc s) 0 1;
  l ← awrite (scgc s) 0 1;
  d ← awrite (dcgc s) 0 1;
  ssys_freq_change pm g (set_sys w (set_gates s r l d)).

Definition stellaris_sys_post_load (w : ssys_world) : ssys_world := ssys_calculate_system_clock w.

(** The controller, zeroed by [qemu_mallocz], with the MAC address [mac] of the
    board; [scale] is what [system_clock_scale] holds, 0 when the emulator starts. *)
Definition stellaris_sys_init (b : stellaris_board_info) (mac : list Z) (pm : option PowerModel) (g : freq_locals)
    (scale : Z) (a : var_state) : res ssys_world :=
  m0 ← aread mac 0; m1 ← aread mac 1; m2 ← aread mac 2;
  m3 ← aread mac 3; m4 ← aread mac 4; m5 ← aread mac 5;
  let s := mkSsys 0 0 0 0 0 0 (replicate 3 0) (replicate 3 0) (replicate 3 0) 0 0
             (Z.lor (Z.lor m0 (Z.shiftl m1 8)) (Z.shiftl m2 16))
             (Z.lor (Z.lor m3 (Z.shiftl m4 8)) (Z.shiftl m5 16)) b in
  ssys_reset pm g (mkSsysWorld s scale a 0).

(** ** Runs of writes *)

(** A write, with the uninitialised locals it finds on the stack. *)
Record ssys_access := mkAccess { a_locals : freq_locals; a_offset : Z; a_value : Z }.

Fixpoint ssys_run (pm : option PowerModel) (ws : list ssys_access) (w : ssys_world) : res ssys_world :=
  match ws with
  | [] => Ok w
  | a :: ws => w ← ssys_write pm (a_locals a) (a_offset a) (a_value a) w; ssys_run pm ws w
  end.

(** The offsets a write may have. *)
Definition ssys_registers : list Z :=
  [0x030; 0x034; 0x040; 0x044; 0x048; 0x054; 0x058; 0x05c; 0x060; 0x100; 0x104; 0x108; 0x110; 0x114; 0x118;
   0x120; 0x124; 0x128; 0x150; 0x160].

Definition freq_locals_ok (g : freq_locals) : Prop :=
  length (cycle_count (f_cur g)) = 6%nat ∧ length (cycle_count (f_chk g)) = 6%nat ∧ energy_ok (f_energy g).

(** The last value written to RCC. *)
Definition last_rcc (r : option Z) (ws : list ssys_access) : option Z :=
  fold_left (λ r a, if a_offset a =? 0x060 then Some (a_value a) else r) ws r.

(** What a run of writes is to the accounting, when RCC holds [r]: a frequency
    change for every write of RCC that changes its value. *)
Fixpoint rcc_events (r : Z) (ws : list ssys_access) : list var_event :=
  match ws with
  | [] => []
  | a :: ws =>
      if a_offset a =? 0x060 then
        let g := a_locals a in
        (if a_value a =? r then [] else [FreqChange r (f_cur g) (f_chk g) (f_energy g)]) ++
        rcc_events (a_value a) ws
      else rcc_events r ws
  end.

Record ssys_wf (s : ssys_state) : Prop := {
  rcgc_length : length (rcgc s) = 3%nat;
  scgc_length : length (scgc s) = 3%nat;
  dcgc_length : length (dcgc s) = 3%nat;
}.

Lemma last_rcc_Some v ws : ∃ u, last_rcc (Some v) ws = Some u.
Proof.
  revert v. induction ws as [|a ws IH]; intros v; [by exists v|]. unfold last_rcc. cbn [fold_left].
  destruct (_ =? _); apply IH.
Qed.
Lemma rcc_scale_range v : 5 <= rcc_scale v <= 80.
Proof.
  unfold rcc_scale. change 0xf with (2 ^ 4 - 1). rewrite land_mod by lia.
  pose proof (Z.mod_pos_bound (Z.shiftr v 23) (2 ^ 4)). lia.
Qed.

(** A write to any register but RCC: the clock and the accounting are left alone. *)
Lemma ssys_write_other pm g off v w :
  off ∈ ssys_registers → off ≠ 0x060 → ssys_wf (sys w) →
  ∃ w', ssys_write pm g off v w = Ok w' ∧ ssys_wf (sys w') ∧ rcc (sys w') = rcc (sys w) ∧
    system_clock_scale w' = system_clock_scale w ∧ acct w' = acct w ∧
    sys_irq w' = flag (truth (Z.land (int_status (sys w')) (int_mask (sys w')))).
Proof.
  intros Hoff Hn [H1 H2 H3]. unfold ssys_write. unfold ssys_registers in Hoff. rewrite !elem_of_cons in Hoff.
  destruct_or!; subst; try done; try (by apply elem_of_nil in Hoff);
    repeat (rewrite awrite_in by lia; cbn [mbind res_bind]); cbn [mbind res_bind];
    (eexists; split; [reflexivity|]; split; [constructor; cbn; by rewrite ?length_insert|done]).
Qed.

Section lawful.
Context (pm : PowerModel) (unit : Z → Z) `{!PowerModelLaws pm unit}.

Lemma ssys_write_rcc_ok g v w :
  freq_locals_ok g → ssys_wf (sys w) → var_wf (acct w) →
  ∃ w', ssys_write (Some pm) g 0x060 v w = Ok w' ∧ ssys_wf (sys w') ∧ rcc (sys w') = v ∧
    system_clock_scale w' = rcc_scale v ∧ var_wf (acct w') ∧
    var_run (Some pm) (if v =? rcc (sys w) then [] else [FreqChange (rcc (sys w)) (f_cur g) (f_chk g) (f_energy g)])
      (acct w) = Ok (acct w') ∧
    sys_irq w' = flag (truth (Z.land (int_status (sys w')) (int_mask (sys w')))).
Proof.
  intros (G1 & G2 & G3) Hs Ha. pose proof (energy_ok_length _ G3) as G3'.
  unfold ssys_write, ssys_write_rcc. set (c := truth _ && _).
  set (w1 := if c then _ else w).
  assert (rcc (sys w1) = rcc (sys w) ∧ acct w1 = acct w ∧ ssys_wf (sys w1)) as (E1 & E2 & E3).
  { subst w1. destruct c; cbn; [|done]. split; [done|]. split; [done|]. destruct Hs. by constructor. }
  rewrite E1. destruct (v =? rcc (sys w)); cbn [negb].
  - cbn [mbind res_bind]. eexists. split; [reflexivity|]. cbn. rewrite E2. split; [|done].
    destruct E3. by constructor.
  - unfold ssys_freq_change. rewrite E1, E2, (freq_handler_ok pm unit) by done. cbn [mbind res_bind].
    eexists. split; [reflexivity|]. split; [destruct E3; by constructor|].
    cbn [sys rcc ssys_update set_sys set_rcc ssys_calculate_system_clock acct system_clock_scale sys_irq].
    split; [done|]. split; [done|]. split; [by apply after_freq_wf|]. split; [|done].
    cbn [var_run var_step]. by rewrite (freq_handler_ok pm unit).
Qed.

Lemma var_run_app p e1 e2 s s1 : var_run p e1 s = Ok s1 → var_run p (e1 ++ e2) s = var_run p e2 s1.
Proof.
  revert s. induction e1 as [|e e1 IH]; intros s; cbn [var_run app]; [by intros [= ->]|].
  destruct (var_step p e s) as [s2|]; cbn [mbind res_bind]; [apply IH|done].
Qed.

Lemma ssys_run_ok ws w :
  ssys_wf (sys w) → var_wf (acct w) →
  Forall (λ a, a_offset a ∈ ssys_registers ∧ freq_locals_ok (a_locals a)) ws →
  ∃ w', ssys_run (Some pm) ws w = Ok w' ∧ ssys_wf (sys w') ∧ var_wf (acct w') ∧
    var_run (Some pm) (rcc_events (rcc (sys w)) ws) (acct w) = Ok (acct w') ∧
    Some (rcc (sys w')) = last_rcc (Some (rcc (sys w))) ws ∧
    (∀ r, (∀ v, r = Some v → system_clock_scale w = rcc_scale v) →
      match last_rcc r ws with
      | Some v => system_clock_scale w' = rcc_scale v
      | None => system_clock_scale w' = system_clock_scale w
      end) ∧
    (ws ≠ [] → sys_irq w' = flag (truth (Z.land (int_status (sys w')) (int_mask (sys w'))))).
Proof.
  intros Hs Ha Hws. revert w Hs Ha. induction Hws as [|[g off v] ws [Hoff Hg] _ IH]; intros w Hs Ha.
  - exists w. split_and!; try done. intros [v|] Hr; [by apply Hr|done].
  - cbn [ssys_run a_locals a_offset a_value rcc_events] in *. destruct (Z.eqb_spec off 0x060) as [->|Hne].
    + destruct (ssys_write_rcc_ok g v w Hg Hs Ha) as (w1 & -> & Hs1 & Hr1 & Hc1 & Ha1 & Hv1 & Hi1).
      cbn [mbind res_bind]. destruct (IH w1 Hs1 Ha1) as (w' & Hrun & Hs' & Ha' & Hv' & Hr' & Hc' & Hi').
      exists w'. split; [done|]. split; [done|]. split; [done|].
      split. { erewrite var_run_app; [|exact Hv1]. by rewrite <- Hr1. }
      split; [by rewrite Hr', Hr1|].
      split.
      { intros r _. specialize (Hc' (Some v)). unfold last_rcc at 1. cbn [fold_left a_offset a_value Z.eqb Pos.eqb].
        fold (last_rcc (Some v) ws). destruct (last_rcc_Some v ws) as [u Hu]. rewrite Hu in *.
        apply Hc'. by intros ? [= <-]. }
      intros _. destruct ws; [|by apply Hi']. cbn in Hrun. by injection Hrun as <-.
    + destruct (ssys_write_other (Some pm) g off v w Hoff Hne Hs) as (w1 & -> & Hs1 & Hr1 & Hc1 & Ha1 & Hi1).
      cbn [mbind res_bind]. rewrite <- Ha1 in Ha. destruct (IH w1 Hs1 Ha) as (w' & Hrun & Hs' & Ha' & Hv' & Hr' & Hc' & Hi').
      exists w'. split; [done|]. split; [done|]. split; [done|].
      split; [by rewrite <- Hr1, <- Ha1|].
      unfold last_rcc at 1 2. cbn [fold_left a_offset]. rewrite (proj2 (Z.eqb_neq off 0x060) Hne).
      split; [by rewrite Hr', Hr1|].
      split. { intros r Hr. rewrite <- Hc1. apply (Hc' r). intros x Hx. rewrite Hc1. by apply Hr. }
      intros _. destruct ws; [|by apply Hi']. cbn in Hrun. by injection Hrun as <-.
Qed.
End lawful.

(** [C19]: The system controller implements the frequency changes and the system
    clock: any run of writes to its registers is answered, it is to the accounting
    exactly the frequency changes of the writes that changed RCC, RCC reads back as it
    was last written, the length of a clock cycle is 5 ns times the divisor in RCC
    plus one (between 5 and 80 ns) as soon as RCC was written, and the interrupt wire
    carries the masked status. *)
Theorem ssys_runs_correct (pm : PowerModel) (unit : Z → Z) (ws : list ssys_access) (w : ssys_world) :
  PowerModelLaws pm unit → ssys_wf (sys w) → var_wf (acct w) →
  Forall (λ a, a_offset a ∈ ssys_registers ∧ freq_locals_ok (a_locals a)) ws →
  ∃ w', ssys_run (Some pm) ws w = Ok w' ∧ var_wf (acct w') ∧
    var_run (Some pm) (rcc_events (rcc (sys w)) ws) (acct w) = Ok (acct w') ∧
    Some (rcc (sys w')) = last_rcc (Some (rcc (sys w))) ws ∧
    match last_rcc None ws with
    | Some v => system_clock_scale w' = 5 * (Z.land (Z.shiftr v 23) 0xf + 1) ∧ 5 <= system_clock_scale w' <= 80
    | None => system_clock_scale w' = system_clock_scale w
    end ∧
    (ws ≠ [] → sys_irq w' = flag (truth (Z.land (int_status (sys w')) (int_mask (sys w'))))).
Proof.
  intros Hpm Hs Ha Hws. destruct (ssys_run_ok pm unit ws w Hs Ha Hws) as (w' & Hrun & _ & Ha' & Hv & Hr & Hc & Hi).
  exists w'. split_and!; try done. specialize (Hc None). destruct (last_rcc None ws) as [v|].
  - rewrite Hc by done. split; [done|apply rcc_scale_range].
  - by apply Hc.
Qed.

Definition example_freq_locals (x : Z) : freq_locals :=
  mkFreqLocals zero_cycles zero_cycles (mkEnergy x x x x x x (replicate 6 x)).
Lemma example_freq_locals_ok x : is_u64 x → freq_locals_ok (example_freq_locals x).
Proof. intros Hx. split_and!; [done..|]. split_and!; [by intros []|done|]. split; [done|]. by apply Forall_replicate. Qed.
Definition example_world : ssys_world :=
  mkSsysWorld (mkSsys 0 0 0 1 0 0x078e3ac0 [1; 0; 0] [1; 0; 0] [1; 0; 0] 0 0 0 0 lm3s811evb) 0 var_init 0.

Lemma ssys_runs_correct_witness :
  ∃ w', ssys_run (power_init zero_cycles zero_cycles)
    [mkAccess (example_freq_locals 0) 0x054 0x40; mkAccess (example_freq_locals 0) 0x060 0x01c01ac0] example_world = Ok w' ∧
    system_clock_scale w' = 20 ∧ sys_irq w' = 1.
Proof.
  destruct (ssys_runs_correct (first_pwr_model zero_cycles zero_cycles) (λ _, 1)
    [mkAccess (example_freq_locals 0) 0x054 0x40; mkAccess (example_freq_locals 0) 0x060 0x01c01ac0] example_world)
    as (w' & Hrun & _).
  - by apply first_pwr_model_laws.
  - by constructor.
  - apply var_init_wf.
  - repeat (apply Forall_cons; split; [split; [by apply (bool_decide_unpack (_ ∈ ssys_registers))|by apply example_freq_locals_ok]|]).
    by apply Forall_nil.
  - exists w'. split; [exact Hrun|]. revert Hrun. by intros [= <-].
Defined.

(** ** The board starts *)

(** What [stellaris_init] does to the accounting and the clock, in its order: the
    system controller is set up, then the variability module with the power model. *)
Definition stellaris_boot (b : stellaris_board_info) (mac : list Z) (g : freq_locals) (g1 g2 : cycle_counter)
    (a : var_state) : res (ssys_world * option PowerModel) :=
  w ← stellaris_sys_init b mac None g 0 a;
  '(a, pm) ← stellaris_var_mod_init g1 g2 (acct w);
  Ok (mkSsysWorld (sys w) (system_clock_scale w) a (sys_irq w), pm).

(** Without a power model a frequency change adds the uninitialised struct. *)
Lemma freq_handler_no_model rcc0 g a :
  var_wf a → freq_locals_ok g →
  frequency_change_handler None rcc0 (f_cur g) (f_chk g) (f_energy g) a =
  Ok (with_chkpt (with_prev a (accumulated a (f_energy g)))
        (mkCycles (data_proc_cycles (total a)) (branch_cycles (total a)) (multiply_cycles (total a))
          (ldst_cycles (total a)) (misc_cycles (total a))
          (zip_classes (total_insn_classes a) (λ _ y, y)
             (cycle_count (copy_classes a (total a) (cycle_count (f_cur g)))) (cycle_count (chkpt a))))).
Proof.
  intros Ha (G1 & G2 & G3). pose proof (energy_ok_length _ G3) as G3'.
  unfold frequency_change_handler. rewrite read_counters_ok, read_chkpts_ok by done.
  cbn [mbind res_bind]. unfold freq_changed_set_chkpt, read_active. cbn [mbind res_bind].
  rewrite accumulate_ok by done. cbn [mbind res_bind with_prev total_insn_classes chkpt].
  by rewrite for_classes_spec; [|apply Ha|apply zip_classes_length; [apply Ha|done]|apply cycles_ok_length, Ha].
Qed.

Lemma sys_init_reset b mac pm g scale a :
  length mac = 6%nat →
  ∃ s, stellaris_sys_init b mac pm g scale a = ssys_freq_change pm g (mkSsysWorld s scale a 0) ∧ rcc s = 0x078e3ac0.
Proof.
  intros Hmac. do 6 (destruct mac as [|? mac]; [done|]). destruct mac; [|done]. eexists. split; reflexivity.
Qed.

(** No part of the start sets the length of a clock cycle. *)
Lemma boot_clock b mac g g1 g2 a w pm :
  length mac = 6%nat → stellaris_boot b mac g g1 g2 a = Ok (w, pm) → system_clock_scale w = 0.
Proof.
  intros Hmac. unfold stellaris_boot. destruct (sys_init_reset b mac None g 0 a Hmac) as (s & -> & _).
  unfold ssys_freq_change. destruct (frequency_change_handler _ _ _ _ _ _) as [a1|]; [|done]. cbn [mbind res_bind acct].
  destruct (stellaris_var_mod_init _ _ _) as [[a2 pm2]|]; [|done]. cbn [mbind res_bind]. by intros [= <- _].
Qed.

Lemma boot_ok b mac g g1 g2 a :
  length mac = 6%nat → fresh a → freq_locals_ok g → ∃ w pm, stellaris_boot b mac g g1 g2 a = Ok (w, pm).
Proof.
  intros Hmac Hf Hg. unfold stellaris_boot. destruct (sys_init_reset b mac None g 0 a Hmac) as (s & -> & Hs).
  unfold ssys_freq_change. cbn [sys acct]. rewrite freq_handler_no_model by (try done; apply Hf).
  cbn [mbind res_bind acct sys system_clock_scale sys_irq].
  unfold stellaris_var_mod_init, stellaris_var_mod_reset. rewrite reset_zero by (try apply Hf; done).
  cbn [mbind res_bind]. by eexists _, _.
Qed.

Lemma reset_frequency_chkpt_at a g i :
  fresh a → freq_locals_ok g → Z.of_nat i < total_insn_classes a →
  zip_classes (total_insn_classes a) (λ _ y, y)
    (cycle_count (copy_classes a (total a) (cycle_count (f_cur g)))) (cycle_count (chkpt a)) !!! i = 0.
Proof.
  intros [Hwf Ht Hp Hc _ _] (G1 & _ & _) Hi. pose proof (wf_classes a Hwf) as Hn.
  rewrite zip_classes_at; [|lia|by rewrite Hc|done]. cbn [cycle_count copy_classes].
  rewrite zip_classes_at; [|lia|done|done]. rewrite Ht. apply zero_class_at. unfold MAX_INSN_CLASSES in Hn. lia.
Qed.

(** A Stellaris board starts with energy it never spent and a clock that
    stands still: the system controller is reset before the power model exists, so
    that the frequency change of the reset accumulates an uninitialised struct; the
    energy reported before anything was executed is what the stack held, in each of the
    five counters and each configured class.  And the reset sets RCC but not
    [system_clock_scale], which is 0 where the RCC it reports stands for 80 ns. *)
Theorem stellaris_boots_with_garbage (b : stellaris_board_info) (mac : list Z) (g : freq_locals)
    (g1 g2 : cycle_counter) (a : var_state) (prev_energy out : energy_counter) :
  fresh a → freq_locals_ok g → length mac = 6%nat →
  length (cycle_count g1) = 6%nat → length (cycle_count g2) = 6%nat →
  length (insn_energy prev_energy) = 6%nat → length (insn_energy out) = 6%nat →
  ∃ w pm e, stellaris_boot b mac g g1 g2 a = Ok (w, pm) ∧
    calculate_active_energy pm prev_energy (acct w) out = Ok e ∧
    (∀ k, energy_of k e = energy_of k (f_energy g)) ∧
    (∀ i, Z.of_nat i < total_insn_classes a → insn_energy e !!! i = insn_energy (f_energy g) !!! i) ∧
    system_clock_scale w = 0 ∧ rcc_scale (rcc (sys w)) = 80.
Proof.
  intros Hf Hg Hmac H1 H2 Hp Ho. pose proof (first_pwr_model_laws g1 g2 H1 H2) as Hpm.
  pose proof Hf as [Hwf Ht Hpr Hc Hst Hsl]. pose proof (wf_classes a Hwf) as Hn. pose proof Hg as (G1 & G2 & G3).
  pose proof (energy_ok_length _ G3) as G3'. destruct G3 as (Gk & Gs & Ga).
  unfold stellaris_boot. destruct (sys_init_reset b mac None g 0 a Hmac) as (s & -> & Hs).
  unfold ssys_freq_change. cbn [sys acct]. rewrite freq_handler_no_model by done.
  cbn [mbind res_bind acct sys system_clock_scale sys_irq].
  unfold stellaris_var_mod_init, stellaris_var_mod_reset. rewrite reset_zero by done.
  cbn [mbind res_bind]. set (a' := with_total _ _).
  assert (var_wf a') as Hwf'.
  { split; try apply Hwf; cbn.
    - rewrite <- Ht. apply Hwf.
    - apply accumulated_ok; [done|done|]. intros i Hi. apply arr_ok_at; [done|]. unfold MAX_INSN_CLASSES in *. lia.
    - rewrite Ht. split; [by intros []|]. apply zip_classes_ok; [lia|rewrite Hc; apply zero_classes_ok|].
      intros i Hi. cbn [cycle_count copy_classes]. rewrite zip_classes_at; [|lia|done|done].
      apply arr_ok_at; [apply zero_classes_ok|]. unfold MAX_INSN_CLASSES in *. lia. }
  set (m := mkAccounts (λ k, mkMeter (energy_of k (f_energy g)) 0 1)
              (λ i, mkMeter (insn_energy (f_energy g) !!! i) 0 1) None 0).
  assert (matched (λ _, 1) a' m) as Hm.
  { split; cbn -[zip_classes accumulated copy_classes zero_classes].
    - intros k. unfold meter_match. cbn -[accumulated u64]. rewrite Ht. rewrite energy_of_accumulated, Hpr. by destruct k.
    - intros i Hi. unfold meter_match. cbn -[zip_classes zero_classes u64 copy_classes]. rewrite reset_frequency_chkpt_at by done.
      rewrite zip_classes_at; [|lia|by rewrite Hpr|done]. rewrite zero_class_at by (unfold MAX_INSN_CLASSES in *; lia).
      split; [|done]. symmetry. apply u64_small, (arr_ok_at _ i Ga). unfold MAX_INSN_CLASSES in *. lia.
    - done.
    - by rewrite Hsl. }
  destruct (active_reading _ _ prev_energy a' m out Hwf' Hm Hp Ho) as (e & He & Hek & Hei & _).
  eexists _, _, e. split; [reflexivity|]. split; [exact He|]. split_and!; [| |done|by cbn [sys]; rewrite Hs].
  - intros k. rewrite Hek. unfold reading, m. cbn -[u64]. rewrite Z.add_0_r. apply u64_small, Gk.
  - intros i Hi. rewrite Hei by done. unfold reading, m. cbn -[u64]. rewrite Z.add_0_r.
    apply u64_small, (arr_ok_at _ i Ga). unfold MAX_INSN_CLASSES in *. lia.
Qed.

Lemma stellaris_boots_with_garbage_witness :
  ∃ w pm e, stellaris_boot lm3s6965evb [0; 0; 0; 0; 0; 1] (example_freq_locals 0xdead) zero_cycles zero_cycles var_init = Ok (w, pm) ∧
    calculate_active_energy pm zero_energy (acct w) zero_energy = Ok e ∧ data_proc_energy e = 0xdead ∧
    system_clock_scale w = 0.
Proof.
  destruct (stellaris_boots_with_garbage lm3s6965evb [0; 0; 0; 0; 0; 1] (example_freq_locals 0xdead) zero_cycles
    zero_cycles var_init zero_energy zero_energy var_init_fresh (example_freq_locals_ok 0xdead ltac:(done))
    eq_refl eq_refl eq_refl eq_refl eq_refl) as (w & pm & e & Hb & He & Hk & _ & Hs & _).
  exists w, pm, e. split; [done|]. split; [done|]. split; [exact (Hk DataProc)|done].
Defined.
