(* ===== verification/Gptm.v ===== *)
(** * Gptm: the general purpose timer module of the Stellaris boards (hw/stellaris.c)

    Two 16-bit timers that can be joined into one 32-bit timer; the code supports
    the joined modes (count down, once or periodically, and real time clock).  Timer
    [n] of the module is timer [n] of the emulator's list ([TimerList]); a module is
    a client of that list, with [system_clock_scale] nanoseconds to a clock cycle.
    An operation returns the new registers and its effects, in order. *)

From S2P Require Import Prelude TimerList.
From stdpp Require Import sorting.
Local Open Scope Z_scope.

(** The arrays of the module have two cells, for timer A and timer B. *)
Abbreviation two := (Z * Z)%type.
Definition at2 (p : two) (n : nat) : Z := match n with O => p.1 | _ => p.2 end.
Definition set2 (p : two) (n : nat) (x : Z) : two := match n with O => (x, p.2) | _ => (p.1, x) end.

Record gptm_state := mkGptm {
  config : Z;
  mode : two;
  control : Z;
  state : Z;
  mask : Z;
  load : two;
  match_ : two;
  prescale : two;
  match_prescale : two;
  rtc : Z;
  tick : two;
}.

Inductive gptm_effect :=
| Set_irq (level : Z)
| Pulse_trigger
| Mod_timer (n : nat) (expire_time : Z)
| Del_timer (n : nat).

Definition set_config (s : gptm_state) (x : Z) : gptm_state :=
  mkGptm x (mode s) (control s) (state s) (mask s) (load s) (match_ s) (prescale s) (match_prescale s) (rtc s) (tick s).
Definition set_mode (s : gptm_state) (x : two) : gptm_state :=
  mkGptm (config s) x (control s) (state s) (mask s) (load s) (match_ s) (prescale s) (match_prescale s) (rtc s) (tick s).
Definition set_control (s : gptm_state) (x : Z) : gptm_state :=
  mkGptm (config s) (mode s) x (state s) (mask s) (load s) (match_ s) (prescale s) (match_prescale s) (rtc s) (tick s).
Definition set_state (s : gptm_state) (x : Z) : gptm_state :=
  mkGptm (config s) (mode s) (control s) x (mask s) (load s) (match_ s) (prescale s) (match_prescale s) (rtc s) (tick s).
Definition set_mask (s : gptm_state) (x : Z) : gptm_state :=
  mkGptm (config s) (mode s) (control s) (state s) x (load s) (match_ s) (prescale s) (match_prescale s) (rtc s) (tick s).
Definition set_load (s : gptm_state) (x : two) : gptm_state :=
  mkGptm (config s) (mode s) (control s) (state s) (mask s) x (match_ s) (prescale s) (match_prescale s) (rtc s) (tick s).
Definition set_match (s : gptm_state) (x : two) : gptm_state :=
  mkGptm (config s) (mode s) (control s) (state s) (mask s) (load s) x (prescale s) (match_prescale s) (rtc s) (tick s).
Definition set_prescale (s : gptm_state) (x : two) : gptm_state :=
  mkGptm (config s) (mode s) (control s) (state s) (mask s) (load s) (match_ s) x (match_prescale s) (rtc s) (tick s).
Definition set_match_prescale (s : gptm_state) (x : two) : gptm_state :=
  mkGptm (config s) (mode s) (control s) (state s) (mask s) (load s) (match_ s) (prescale s) x (rtc s) (tick s).
Definition set_rtc (s : gptm_state) (x : Z) : gptm_state :=
  mkGptm (config s) (mode s) (control s) (state s) (mask s) (load s) (match_ s) (prescale s) (match_prescale s) x (tick s).
Definition set_tick (s : gptm_state) (x : two) : gptm_state :=
  mkGptm (config s) (mode s) (control s) (state s) (mask s) (load s) (match_ s) (prescale s) (match_prescale s) (rtc s) x.

(** [get_ticks_per_sec]. *)
Definition TICKS_PER_SEC : Z := 1000000000.

(** The 32-bit value of a pair of 16-bit registers. *)
Definition joined (p : two) : Z := Z.lor p.1 (u32 (Z.shiftl p.2 16)).

Definition gptm_update_irq (s : gptm_state) : gptm_effect := Set_irq (flag (truth (Z.land (state s) (mask s)))).

Definition gptm_stop (n : nat) : gptm_effect := Del_timer n.

Section gptm.
Context (system_clock_scale : Z).

(** [now] is the virtual clock, which is read only for a reset. *)
Definition gptm_reload (now : Z) (n : nat) (reset : bool) (s : gptm_state) : res (gptm_state * list gptm_effect) :=
  let t := if reset then now else at2 (tick s) n in
  t ← (if config s =? 0 then
         let count := joined (load s) in
         Ok (s64 (t + count * system_clock_scale))
       else if config s =? 1 then Ok (s64 (t + TICKS_PER_SEC))
       else if at2 (mode s) n =? 0xa then Ok t
       else Err Hw_error);
  Ok (set_tick s (set2 (tick s) n t), [Mod_timer n t]).

Definition gptm_tick (n : nat) (s : gptm_state) : res (gptm_state * list gptm_effect) :=
  '(s, e) ←
    (if config s =? 0 then
       let s := set_state s (Z.lor (state s) 1) in
       let out := if truth (Z.land (control s) 0x20) then [Pulse_trigger] else [] in
       if truth (Z.land (at2 (mode s) 0) 1) then Ok (set_control s (Z.ldiff (control s) 1), out)
       else '(s, e) ← gptm_reload 0 0 false s; Ok (s, out ++ e)
     else if config s =? 1 then
       let s := set_rtc s (u32 (rtc s + 1)) in
       let s := if joined (match_ s) <? rtc s then set_rtc s 0 else s in
       let s := if rtc s =? 0 then set_state s (Z.lor (state s) 8) else s in
       gptm_reload 0 0 false s
     else if at2 (mode s) n =? 0xa then Ok (s, [])
     else Err Hw_error);
  Ok (s, e ++ [gptm_update_irq s]).

Definition gptm_read (s : gptm_state) (offset : Z) : res Z :=
  match offset with
  | 0x00 => Ok (config s)
  | 0x04 => Ok (at2 (mode s) 0)
  | 0x08 => Ok (at2 (mode s) 1)
  | 0x0c => Ok (control s)
  | 0x18 => Ok (mask s)
  | 0x1c => Ok (state s)
  | 0x20 => Ok (Z.land (state s) (mask s))
  | 0x24 => Ok 0
  | 0x28 => Ok (Z.lor (at2 (load s) 0) (if config s <? 4 then u32 (Z.shiftl (at2 (load s) 1) 16) else 0))
  | 0x2c => Ok (at2 (load s) 1)
  | 0x30 => Ok (Z.lor (at2 (match_ s) 0) (if config s <? 4 then u32 (Z.shiftl (at2 (match_ s) 1) 16) else 0))
  | 0x34 => Ok (at2 (match_ s) 1)
  | 0x38 => Ok (at2 (prescale s) 0)
  | 0x3c => Ok (at2 (prescale s) 1)
  | 0x40 => Ok (at2 (match_prescale s) 0)
  | 0x44 => Ok (at2 (match_prescale s) 1)
  | 0x48 => if control s =? 1 then Ok (rtc s) else Err Hw_error
  | 0x4c => Err Hw_error
  | _ => Err Hw_error
  end.

(** The case of CTL. *)
Definition gptm_write_ctl (now value : Z) (s : gptm_state) : res (gptm_state * list gptm_effect) :=
  let changed := Z.lxor (control s) value in
  let s := set_control s value in
  '(s, e0) ←
    (if truth (Z.land changed 1) then
       if truth (Z.land value 1) then gptm_reload now 0 true s else Ok (s, [gptm_stop 0])
     else Ok (s, []));
  '(s, e1) ←
    (if truth (Z.land changed 0x100) && (4 <=? config s) then
       if truth (Z.land value 0x100) then gptm_reload now 1 true s else Ok (s, [gptm_stop 1])
     else Ok (s, []));
  Ok (s, e0 ++ e1).

Definition gptm_write (now offset value : Z) (s : gptm_state) : res (gptm_state * list gptm_effect) :=
  '(s, e) ←
    match offset with
    | 0x00 => Ok (set_config s value, [])
    | 0x04 => Ok (set_mode s (set2 (mode s) 0 value), [])
    | 0x08 => Ok (set_mode s (set2 (mode s) 1 value), [])
    | 0x0c => gptm_write_ctl now value s
    | 0x18 => let s := set_mask s (Z.land value 0x77) in Ok (s, [gptm_update_irq s])
    | 0x24 => Ok (set_state s (Z.ldiff (state s) value), [])
    | 0x28 =>
        let s := set_load s (set2 (load s) 0 (Z.land value 0xffff)) in
        Ok (if config s <? 4 then set_load s (set2 (load s) 1 (Z.shiftr value 16)) else s, [])
    | 0x2c => Ok (set_load s (set2 (load s) 1 (Z.land value 0xffff)), [])
    | 0x30 =>
        let s := set_match s (set2 (match_ s) 0 (Z.land value 0xffff)) in
        Ok (if config s <? 4 then set_match s (set2 (match_ s) 1 (Z.shiftr value 16)) else s, [])
    | 0x34 => Ok (set_match s (set2 (match_ s) 1 (Z.shiftr value 16)), [])
    | 0x38 => Ok (set_prescale s (set2 (prescale s) 0 value), [])
    | 0x3c => Ok (set_prescale s (set2 (prescale s) 1 value), [])
    | 0x40 => Ok (set_match_prescale s (set2 (match_prescale s) 0 value), [])
    | 0x44 => Ok (set_match_prescale s (set2 (match_prescale s) 0 value), [])
    | _ => Err Hw_error
    end;
  Ok (s, e ++ [gptm_update_irq s]).
End gptm.

Definition stellaris_gptm_init : gptm_state := mkGptm 0 (0, 0) 0 0 0 (0, 0) (0, 0) (0, 0) (0, 0) 0 (0, 0).

(** ** The registers keep their types, and the wire follows them *)

Inductive gptm_event :=
| Gwrite (now offset value : Z)
| Gtick (n : nat).

Definition gptm_step (scale : Z) (ev : gptm_event) (s : gptm_state) : res (gptm_state * list gptm_effect) :=
  match ev with
  | Gwrite now offset value => gptm_write scale now offset value s
  | Gtick n => gptm_tick scale n s
  end.

Definition wire_after (out : Z) (e : gptm_effect) : Z := match e with Set_irq l => l | _ => out end.

(** A run, with the level of the interrupt wire. *)
Fixpoint gptm_run (scale : Z) (evs : list gptm_event) (s : gptm_state) (out : Z) : res (gptm_state * Z) :=
  match evs with
  | [] => Ok (s, out)
  | ev :: evs =>
      '(s, e) ← gptm_step scale ev s;
      gptm_run scale evs s (fold_left wire_after e out)
  end.

Definition half (p : two) : Prop := 0 <= p.1 < 2 ^ 16 ∧ 0 <= p.2 < 2 ^ 16.
Definition words (p : two) : Prop := is_u32 p.1 ∧ is_u32 p.2.

Record gptm_wf (s : gptm_state) : Prop := {
  wf_config : is_u32 (config s);
  wf_mode : words (mode s);
  wf_control : is_u32 (control s);
  wf_state : is_u32 (state s);
  wf_mask : 0 <= mask s <= 0x77;
  wf_load : half (load s);
  wf_match : half (match_ s);
  wf_prescale : words (prescale s);
  wf_match_prescale : words (match_prescale s);
  wf_rtc : is_u32 (rtc s);
  wf_tick : is_s64 (tick s).1 ∧ is_s64 (tick s).2;
}.

Lemma shiftr_half v : is_u32 v → 0 <= Z.shiftr v 16 < 2 ^ 16.
Proof.
  unfold is_u32. intros Hv. rewrite Z.shiftr_div_pow2 by lia.
  split; [apply Z.div_pos; lia|apply Z.div_lt_upper_bound; lia].
Qed.
(** The joined value of two halves has no carry. *)
Lemma joined_half p : half p → joined p = p.1 + 2 ^ 16 * p.2 ∧ is_u32 (joined p).
Proof.
  unfold joined, half, is_u32. intros [H1 H2]. rewrite Z.shiftl_mul_pow2 by lia.
  rewrite u32_small by lia. rewrite Z.lor_comm, lor_add by lia. lia.
Qed.

Lemma reload_wf scale now n r s s' e :
  is_s64 now → gptm_wf s → gptm_reload scale now n r s = Ok (s', e) →
  gptm_wf s' ∧ (∀ out, fold_left wire_after e out = out) ∧ state s' = state s ∧ mask s' = mask s.
Proof.
  intros Hnow W H. unfold gptm_reload in H. inv_bind. split; [|done].
  assert (is_s64 a) as Ha.
  { destruct (config s =? 0); [injection E as <-; apply s64_range|].
    destruct (config s =? 1); [injection E as <-; apply s64_range|].
    destruct (_ =? 0xa); [|done]. injection E as <-. destruct r; [done|]. destruct n; apply W. }
  destruct W as [? ? ? ? ? ? ? ? ? ? [? ?]]. constructor; try done. cbn. by destruct n.
Qed.

Ltac gptm_wf_tac :=
  match goal with W : gptm_wf _ |- gptm_wf _ =>
    let W' := fresh in pose proof W as W'; destruct W' as [? [? ?] ? ? ? [? ?] [? ?] [? ?] [? ?] ? [? ?]];
    constructor; cbn; auto; (split; cbn; auto)
  end.

Lemma write_ctl_wf scale now v s s' e :
  is_s64 now → is_u32 v → gptm_wf s → gptm_write_ctl scale now v s = Ok (s', e) → gptm_wf s'.
Proof.
  intros Hn Hv W H. unfold gptm_write_ctl in H. inv_bind. destruct a as [s1 e1]. inv_bind. destruct a as [s2 e2].
  inv_bind. assert (gptm_wf (set_control s v)) as W0 by gptm_wf_tac.
  assert (gptm_wf s1) as W1.
  { destruct (truth _); [|by injection E as <- _]. destruct (truth _); [|by injection E as <- _].
    by apply reload_wf in E as [? _]. }
  clear E. destruct (_ && _); [|by injection E0 as <- _]. destruct (truth _); [|by injection E0 as <- _].
  by apply reload_wf in E0 as [? _].
Qed.

Definition gptm_event_ok (ev : gptm_event) : Prop :=
  match ev with Gwrite now offset value => is_s64 now ∧ is_u32 value | Gtick n => True end.

Lemma is_u32_small z : 0 <= z < 2 ^ 16 → is_u32 z.
Proof. unfold is_u32. lia. Qed.

Lemma write_wf scale now off v s s' e :
  is_s64 now → is_u32 v → gptm_wf s → gptm_write scale now off v s = Ok (s', e) →
  gptm_wf s' ∧ ∀ out, fold_left wire_after e out = flag (truth (Z.land (state s') (mask s'))).
Proof.
  intros Hn Hv W H. unfold gptm_write in H. inv_bind. destruct a as [s1 e1]. inv_bind.
  split; [|intros out; by rewrite fold_left_app].
  pose proof (land_low v 16 ltac:(lia)) as Hlow. change (2 ^ 16 - 1) with 0xffff in Hlow.
  pose proof (shiftr_half v Hv) as Hhigh. pose proof (land_le v 0x77 ltac:(lia)) as H77.
  assert (is_u32 (Z.ldiff (state s) v)) as Hst by (apply is_u32_ldiff; [apply W|apply Hv]).
  destruct off as [|p|p]; [by inv_bind; gptm_wf_tac| |done].
  do 7 (try (destruct p as [p|p|]; try done));
    first [ exact (write_ctl_wf scale now v s s' e1 Hn Hv W E)
          | by cbn [config set_load set_match] in E; destruct (config s <? 4); injection E as <- _; gptm_wf_tac
          | by injection E as <- _; gptm_wf_tac ].
Qed.

Lemma tick_wf scale n s s' e :
  gptm_wf s → gptm_tick scale n s = Ok (s', e) →
  gptm_wf s' ∧ ∀ out, fold_left wire_after e out = flag (truth (Z.land (state s') (mask s'))).
Proof.
  intros W H. unfold gptm_tick in H. inv_bind. destruct a as [s1 e1]. inv_bind.
  split; [|intros out; by rewrite fold_left_app].
  assert (∀ k, 0 <= k < 32 → gptm_wf (set_state s (Z.lor (state s) (Z.shiftl 1 k)))) as Wst.
  { intros k Hk. assert (is_u32 (Z.lor (state s) (Z.shiftl 1 k))) by (apply is_u32_lor; [apply W|by apply is_u32_bit]).
    gptm_wf_tac. }
  destruct (config s =? 0).
  - change 1 with (Z.shiftl 1 0) in E at 1. specialize (Wst 0 ltac:(lia)). destruct (truth (Z.land (at2 _ _) _)).
    + injection E as <- _. cbn [control set_state]. assert (is_u32 (Z.ldiff (control s) 1)) by (apply is_u32_ldiff; [apply W|lia]).
      gptm_wf_tac.
    + inv_bind. destruct a as [s2 e2]. inv_bind. by apply reload_wf in E0 as [? _].
  - destruct (config s =? 1); [|by destruct (_ =? 0xa); inv_bind].
    apply reload_wf in E as [? _]; [done|done|]. clear E.
    set (s1 := set_rtc s (u32 (rtc s + 1))).
    assert (gptm_wf s1) as W1 by (subst s1; pose proof (u32_range (rtc s + 1)); gptm_wf_tac).
    set (s2 := if joined (match_ s1) <? rtc s1 then set_rtc s1 0 else s1).
    assert (gptm_wf s2) as W2 by (subst s2; destruct (_ <? _); [gptm_wf_tac; done|done]).
    destruct (rtc s2 =? 0); [|done].
    assert (is_u32 (Z.lor (state s2) 8)) by (apply is_u32_lor; [apply W2|done]). gptm_wf_tac.
Qed.

(** Where the emulator stops: at a write to a register that does not exist, and where a
    half is started, or expires, in a mode that the emulation lacks (16-bit modes other than
    PWM). *)
Definition gptm_registers : list Z := [0x00; 0x04; 0x08; 0x0c; 0x18; 0x24; 0x28; 0x2c; 0x30; 0x34; 0x38; 0x3c; 0x40; 0x44].
Definition implemented (n : nat) (s : gptm_state) : bool := (config s =? 0) || (config s =? 1) || (at2 (mode s) n =? 0xa).
(** The write to the control register switches bit [k] on. *)
Definition switched_on (k value : Z) (s : gptm_state) : bool := truth (Z.land (Z.lxor (control s) value) k) && truth (Z.land value k).
Definition gptm_stops (ev : gptm_event) (s : gptm_state) : bool :=
  match ev with
  | Gwrite _ offset value =>
      negb (existsb (Z.eqb offset) gptm_registers) ||
      (offset =? 0x0c) && (switched_on 1 value s && negb (implemented 0 s) || switched_on 0x100 value s && (4 <=? config s) && negb (implemented 1 s))
  | Gtick n => negb (implemented n s)
  end.

Lemma reload_stops scale now n r s :
  if implemented n s then ∃ t, gptm_reload scale now n r s = Ok (set_tick s (set2 (tick s) n t), [Mod_timer n t]) else gptm_reload scale now n r s = Err Hw_error.
Proof.
  unfold implemented, gptm_reload. destruct (config s =? 0); [by eexists|]. destruct (config s =? 1); [by eexists|]. destruct (_ =? 0xa); [by eexists|done].
Qed.

Lemma write_ctl_stops scale now value s :
  if switched_on 1 value s && negb (implemented 0 s) || switched_on 0x100 value s && (4 <=? config s) && negb (implemented 1 s)
  then gptm_write_ctl scale now value s = Err Hw_error else ∃ r, gptm_write_ctl scale now value s = Ok r.
Proof.
  unfold switched_on, gptm_write_ctl. cbn zeta. set (s1 := set_control s value).
  assert (∀ n t, implemented 1 (set_tick s1 (set2 (tick s1) n t)) = implemented 1 s) as Hi by done.
  pose proof (reload_stops scale now 0 true s1) as R0. change (implemented 0 s1) with (implemented 0 s) in R0.
  assert (∀ s2, config s2 = config s → implemented 1 s2 = implemented 1 s →
    if truth (Z.land (Z.lxor (control s) value) 0x100) && truth (Z.land value 0x100) && (4 <=? config s) && negb (implemented 1 s)
    then (if truth (Z.land (Z.lxor (control s) value) 0x100) && (4 <=? config s2) then if truth (Z.land value 0x100) then gptm_reload scale now 1 true s2 else Ok (s2, [gptm_stop 1]) else Ok (s2, [])) = Err Hw_error
    else ∃ r, (if truth (Z.land (Z.lxor (control s) value) 0x100) && (4 <=? config s2) then if truth (Z.land value 0x100) then gptm_reload scale now 1 true s2 else Ok (s2, [gptm_stop 1]) else Ok (s2, [])) = Ok r) as Second.
  { intros s2 -> Hi2. pose proof (reload_stops scale now 1 true s2) as R1. rewrite Hi2 in R1.
    destruct (truth (Z.land (Z.lxor _ _) 0x100)), (truth (Z.land value 0x100)), (4 <=? config s); cbn [andb]; try by eexists.
    destruct (implemented 1 s); cbn [negb]; [|done]. destruct R1 as [t ->]. by eexists. }
  assert (∀ s2 e0, config s2 = config s → implemented 1 s2 = implemented 1 s →
    if truth (Z.land (Z.lxor (control s) value) 0x100) && truth (Z.land value 0x100) && (4 <=? config s) && negb (implemented 1 s)
    then ('(s3, e1) ← (if truth (Z.land (Z.lxor (control s) value) 0x100) && (4 <=? config s2) then if truth (Z.land value 0x100) then gptm_reload scale now 1 true s2 else Ok (s2, [gptm_stop 1]) else Ok (s2, [])); Ok (s3, e0 ++ e1)) = Err Hw_error
    else ∃ r, ('(s3, e1) ← (if truth (Z.land (Z.lxor (control s) value) 0x100) && (4 <=? config s2) then if truth (Z.land value 0x100) then gptm_reload scale now 1 true s2 else Ok (s2, [gptm_stop 1]) else Ok (s2, [])); Ok (s3, e0 ++ e1)) = Ok r) as Rest.
  { intros s2 e0 H1 H2. specialize (Second s2 H1 H2). destruct (_ && _ && _ && _); [by rewrite Second|]. destruct Second as [[s3 e1] ->]. by eexists. }
  clear Second. destruct (truth (Z.land (Z.lxor (control s) value) 1)), (truth (Z.land value 1)); cbn [andb orb mbind res_bind]; try (by apply Rest).
  destruct (implemented 0 s); cbn [negb orb]; [|by rewrite R0]. destruct R0 as [t ->]. cbn [mbind res_bind]. by apply Rest.
Qed.

(** A step fails exactly there, and then with a report. *)
Lemma step_stops scale ev s :
  if gptm_stops ev s then gptm_step scale ev s = Err Hw_error else ∃ r, gptm_step scale ev s = Ok r.
Proof.
  destruct ev as [now off v|n]; cbn [gptm_step gptm_stops].
  - pose proof (write_ctl_stops scale now v s) as C. unfold gptm_write. set (bad := _ || _ && _) in C.
    destruct off as [|p|p]; [by eexists| |done].
    do 7 (try (destruct p as [p|p|]; cbn [existsb gptm_registers Z.eqb Pos.eqb orb negb andb]; try done; try (by eexists))).
    cbn. fold bad. destruct bad; [by rewrite C|]. destruct C as [[s1 e1] ->]. by eexists.
  - unfold gptm_tick, implemented. destruct (config s =? 0) eqn:E0; cbn [orb negb].
    + destruct (truth (Z.land (at2 _ _) _)); [by eexists|]. set (s1 := set_state s _). pose proof (reload_stops scale 0 0 false s1) as R.
      unfold implemented in R. change (config s1) with (config s) in R. rewrite E0 in R. destruct R as [t ->]. by eexists.
    + destruct (config s =? 1) eqn:E1; cbn [orb negb].
      * set (s1 := if rtc _ =? 0 then _ else _). pose proof (reload_stops scale 0 0 false s1) as R. unfold implemented in R.
        assert (config s1 = config s) as Ec by (subst s1; destruct (rtc _ =? 0), (joined _ <? _); done). rewrite Ec, E0, E1 in R. destruct R as [t ->]. by eexists.
      * destruct (_ =? 0xa); cbn [negb]; [by eexists|done].
Qed.

Lemma gptm_run_typed scale evs s out :
  Forall gptm_event_ok evs → gptm_wf s → out = flag (truth (Z.land (state s) (mask s))) →
  match gptm_run scale evs s out with
  | Ok (s', out') => gptm_wf s' ∧ out' = flag (truth (Z.land (state s') (mask s')))
  | Err e => e = Hw_error ∧ ∃ before ev after s1 out1, evs = before ++ ev :: after ∧ gptm_run scale before s out = Ok (s1, out1) ∧ gptm_stops ev s1 = true
  end.
Proof.
  intros Hev. revert s out. induction Hev as [|ev evs Hev _ IH]; intros s out W Hout; [done|].
  cbn [gptm_run]. pose proof (step_stops scale ev s) as St. destruct (gptm_stops ev s) eqn:Ebad.
  { rewrite St. cbn [mbind res_bind]. split; [done|]. by exists [], ev, evs, s, out. }
  destruct St as [[s1 e1] E]. rewrite E. cbn [mbind res_bind].
  assert (gptm_wf s1 ∧ ∀ o, fold_left wire_after e1 o = flag (truth (Z.land (state s1) (mask s1)))) as [W1 O1].
  { destruct ev; [|by apply tick_wf in E]. destruct Hev. by apply write_wf in E. }
  specialize (IH s1 (fold_left wire_after e1 out) W1 (O1 out)). destruct (gptm_run scale evs s1 _) as [[s' out']|e] eqn:Er; [done|].
  destruct IH as (-> & before & ev' & after & s2 & out2 & -> & Hb & Hs). split; [done|]. exists (ev :: before), ev', after, s2, out2.
  split; [done|]. split; [|done]. cbn [gptm_run]. rewrite E. done.
Qed.

(** [C36]: The registers of the timer module keep their types: over any run of writes of
    words and of expiring timers from the initial state, every register is a word of its
    width, the halves of the load and match registers fit 16 bits so that the 32-bit count
    is their sum without a carry, and the interrupt wire is high exactly when an unmasked
    status bit is set; or the emulator has stopped with a report, at a write to a register
    that does not exist or where a half was started, or expired, in a mode that is not
    implemented: at every such event of a run, and at no other. *)
Theorem gptm_registers_typed scale evs :
  Forall gptm_event_ok evs →
  match gptm_run scale evs stellaris_gptm_init 0 with
  | Ok (s, out) => gptm_wf s ∧ joined (load s) = (load s).1 + 2 ^ 16 * (load s).2 ∧ is_u32 (joined (load s)) ∧
      out = flag (truth (Z.land (state s) (mask s))) ∧
      ∀ ev, gptm_step scale ev s = Err Hw_error ↔ gptm_stops ev s = true
  | Err e => e = Hw_error ∧ ∃ before ev after s out, evs = before ++ ev :: after ∧
      gptm_run scale before stellaris_gptm_init 0 = Ok (s, out) ∧ gptm_stops ev s = true
  end.
Proof.
  intros Hev. assert (gptm_wf stellaris_gptm_init) as W0 by by repeat constructor.
  pose proof (gptm_run_typed scale evs stellaris_gptm_init 0 Hev W0 eq_refl) as H.
  destruct (gptm_run _ _ _ _) as [[s out]|]; [|done]. destruct H as [W Ho]. split; [done|].
  destruct (joined_half (load s)) as [? ?]; [apply W|]. split_and!; try done. intros ev.
  pose proof (step_stops scale ev s) as St. destruct (gptm_stops ev s); [done|]. destruct St as [r ->]. done.
Qed.

Lemma gptm_registers_typed_witness :
  match gptm_run 20 [Gwrite 0 0x28 0x12345; Gwrite 0 0x18 1; Gwrite 0 0x0c 1; Gtick 0] stellaris_gptm_init 0 with
  | Ok (s, out) => joined (load s) = 0x12345 ∧ out = 1
  | Err _ => False
  end.
Proof.
  pose proof (gptm_registers_typed 20 [Gwrite 0 0x28 0x12345; Gwrite 0 0x18 1; Gwrite 0 0x0c 1; Gtick 0]
    ltac:(by repeat constructor)) as H.
  destruct (gptm_run _ _ _ _) as [[s out]|e] eqn:E; [|by vm_compute in E].
  vm_compute in E. injection E as <- <-. split; [by vm_compute|apply H].
Defined.

(** ** The module as a client of the timer list *)

Record gptm_world := mkGptmWorld {
  module : gptm_state;
  irq_wire : Z;
  pulses : nat;                     (* pulses of the trigger output so far *)
}.

Definition effect_on (w : gptm_world) (e : gptm_effect) : gptm_world :=
  match e with
  | Set_irq l => mkGptmWorld (module w) l (pulses w)
  | Pulse_trigger => mkGptmWorld (module w) (irq_wire w) (S (pulses w))
  | _ => w
  end.
(** What the effects are to the list of timers; the timers count nanoseconds. *)
Definition timer_ops_of (es : list gptm_effect) : timer_ops :=
  flat_map (λ e, match e with
                 | Mod_timer n t => [(n, Some (s64 (t * 1)))]
                 | Del_timer n => [(n, None)]
                 | _ => []
                 end) es.

Definition gptm_apply (w : gptm_world) '((s, es) : gptm_state * list gptm_effect) : gptm_world * timer_ops :=
  (fold_left effect_on es (mkGptmWorld s (irq_wire w) (pulses w)), timer_ops_of es).

Definition gptm_client (scale : Z) : TimerClient gptm_world := λ n w,
  r ← gptm_tick scale n (module w); Ok (gptm_apply w r).

(** The guest writes a register. *)
Definition gptm_guest_write (scale now offset value : Z) (w : gptm_world) (l : timer_list) : res (gptm_world * timer_list) :=
  r ← gptm_write scale now offset value (module w);
  let '(w, ops) := gptm_apply w r in Ok (w, fold_left timer_op ops l).

(** The state the callback of the periodic 32-bit timer leaves. *)
Definition after_expiry (t : Z) (w : gptm_world) : gptm_world :=
  let s := module w in
  let s := set_tick (set_state s (Z.lor (state s) 1)) (set2 (tick s) 0 t) in
  mkGptmWorld s (flag (truth (Z.land (state s) (mask s))))
    (if truth (Z.land (control s) 0x20) then S (pulses w) else pulses w).

Lemma gptm_cb_periodic scale n w :
  config (module w) = 0 → truth (Z.land (mode (module w)).1 1) = false →
  let t := s64 ((tick (module w)).1 + joined (load (module w)) * scale) in
  gptm_client scale n w = Ok (after_expiry t w, [(0%nat, Some t)]).
Proof.
  intros Hc Hm. unfold gptm_client, gptm_tick. cbn zeta. rewrite Hc. cbn [Z.eqb]. cbn [mode set_state at2]. rewrite Hm.
  unfold gptm_reload. cbn [config set_state load tick at2]. rewrite Hc. cbn [Z.eqb mbind res_bind].
  set (t := s64 (_ + _)). unfold after_expiry, gptm_apply. f_equal.
  cbn [control set_state]. destruct (truth (Z.land (control (module w)) 0x20)) eqn:Et; cbn -[s64 truth];
    rewrite Z.mul_1_r, (s64_small t), Et by apply s64_range; done.
Qed.

(** The periodic timer, from the moment it is armed for [t]: [k] periods of [p]. *)
Definition periodic (scale p : Z) (w : gptm_world) : Prop :=
  config (module w) = 0 ∧ truth (Z.land (mode (module w)).1 1) = false ∧ joined (load (module w)) * scale = p.

Lemma after_expiry_periodic scale p t w : periodic scale p w → periodic scale p (after_expiry t w).
Proof. done. Qed.

(** [k] expiries, the first at [t]. *)
Fixpoint expiries (k : nat) (t p : Z) : timer_list :=
  match k with O => [] | S k => (0%nat, t) :: expiries k (t + p) p end.

Lemma run_periodic scale p now w k fuel :
  0 <= p < 2 ^ 40 → 0 <= (tick (module w)).1 → now < 2 ^ 62 → periodic scale p w →
  (tick (module w)).1 + (Z.of_nat k - 1) * p <= now → now < (tick (module w)).1 + Z.of_nat k * p →
  (k < fuel)%nat →
  ∃ w', @run_timers_loop _ (gptm_client scale) fuel now w [(0%nat, (tick (module w)).1)] =
      Ok (w', [(0%nat, (tick (module w)).1 + Z.of_nat k * p)], expiries k (tick (module w)).1 p) ∧
    control (module w') = control (module w) ∧ mask (module w') = mask (module w) ∧
    state (module w') = (if decide (k = 0%nat) then state (module w) else Z.lor (state (module w)) 1) ∧
    pulses w' = (pulses w + if truth (Z.land (control (module w)) 0x20) then k else 0)%nat ∧
    (k ≠ 0%nat → irq_wire w' = flag (truth (Z.land (state (module w')) (mask (module w'))))).
Proof.
  intros Hp. revert w fuel. induction k as [|k IH]; intros w fuel Ht Hnow Hper Hlo Hhi Hf.
  - destruct fuel as [|fuel]; [lia|]. exists w. cbn [run_timers_loop head qemu_timer_expired_ns].
    rewrite (proj2 (Z.leb_gt _ now)) by lia. rewrite Z.mul_0_l, Z.add_0_r. rewrite decide_True by done.
    split_and!; try done. destruct (truth _); lia.
  - destruct fuel as [|fuel]; [lia|]. cbn [run_timers_loop head qemu_timer_expired_ns].
    rewrite (proj2 (Z.leb_le _ now)) by lia. cbn [fst]. unfold timer_cb.
    pose proof Hper as (Hc & Hm & Hpp). rewrite gptm_cb_periodic by done. rewrite Hpp.
    rewrite s64_small by (unfold is_s64; lia). cbn [mbind res_bind].
    set (t := (tick (module w)).1) in *. set (w1 := after_expiry (t + p) w).
    cbn [fold_left timer_op]. unfold qemu_mod_timer_ns. cbn [qemu_del_timer insert_timer head qemu_timer_expired_ns].
    destruct (IH w1 fuel) as (w' & Hr & Hctl & Hmask & Hst & Hpu & Hwire); try done; cbn [module w1 after_expiry tick set_tick set2 fst]; try lia.
    change (tick (module w1)).1 with (t + p) in Hr. rewrite Hr. cbn [mbind res_bind].
    exists w'. split_and!.
    + cbn [expiries]. do 5 f_equal. lia.
    + done.
    + done.
    + rewrite Hst. cbn [module w1 after_expiry state set_tick set_state]. rewrite (decide_False (P := S k = 0%nat)) by done.
      case_decide; [done|]. by rewrite <- Z.lor_assoc.
    + rewrite Hpu. change (control (module w1)) with (control (module w)).
      change (pulses w1) with (if truth (Z.land (control (module w)) 0x20) then S (pulses w) else pulses w).
      destruct (truth (Z.land (control (module w)) 0x20)); lia.
    + intros _. destruct k as [|k]; [|by apply Hwire].
      cbn [run_timers_loop] in Hr. destruct fuel as [|fuel]; [lia|]. cbn [run_timers_loop head qemu_timer_expired_ns] in Hr.
      rewrite (proj2 (Z.leb_gt _ now)) in Hr by lia. injection Hr as <-. done.
Qed.

Lemma gptm_start scale now v w l :
  config (module w) = 0 → truth (Z.land (control (module w)) 1) = false → Z.land v 1 = 1 →
  gptm_guest_write scale now 0x0c v w l =
  let s := module w in
  let t := s64 (now + joined (load s) * scale) in
  Ok (mkGptmWorld (set_tick (set_control s v) (set2 (tick s) 0 t)) (flag (truth (Z.land (state s) (mask s)))) (pulses w),
      qemu_mod_timer_ns 0 t l).
Proof.
  intros Hc Hoff Hv. unfold gptm_guest_write, gptm_write, gptm_write_ctl. cbn zeta.
  assert (truth (Z.land (Z.lxor (control (module w)) v) 1) = true) as ->.
  { change 1 with (Z.shiftl 1 0) at 1. rewrite truth_land_bit, Z.lxor_spec by lia.
    change 1 with (Z.shiftl 1 0) in Hoff at 1. rewrite truth_land_bit in Hoff by lia. rewrite Hoff.
    assert (Z.testbit (Z.land v 1) 0 = true) as H by by rewrite Hv. rewrite Z.land_spec in H.
    by apply andb_prop in H as [-> _]. }
  rewrite Hv. cbn [truth negb Z.eqb]. unfold gptm_reload. cbn [config set_control load]. rewrite Hc.
  cbn [Z.eqb mbind res_bind config set_tick set_control]. rewrite Hc. cbn [Z.leb Z.compare]. rewrite andb_false_r.
  cbn -[s64 truth]. by rewrite Z.mul_1_r, (s64_small (s64 _)) by apply s64_range.
Qed.

(** [C27]: The periodic timer is on time and does not drift: a guest that loads a
    count [c], programs the 32-bit periodic mode and sets the enable bit at time
    [start] gets exactly one expiry for each full period of [c] clock cycles that has
    passed, at the multiples of the period after [start] whatever the delay with which
    the main loop runs, the next one is armed, the status bit is set if there was one,
    the interrupt wire follows it, and the trigger output was pulsed once per expiry if
    it is enabled. *)
Theorem gptm_periodic_on_time scale start now v w l fuel :
  let c := joined (load (module w)) in
  let p := c * scale in
  let k := Z.to_nat ((now - start) / p) in
  gptm_wf (module w) → config (module w) = 0 → truth (Z.land (mode (module w)).1 1) = false →
  truth (Z.land (control (module w)) 1) = false → Z.land v 1 = 1 →
  0 < c → 0 < scale <= 80 → 0 <= start <= now → now < 2 ^ 62 → qemu_del_timer 0 l = [] → (k < fuel)%nat →
  ∃ w1 w' l1, gptm_guest_write scale start 0x0c v w l = Ok (w1, l1) ∧
    @qemu_run_timers _ (gptm_client scale) fuel true now w1 l1 =
      Ok (w', [(0%nat, start + p + Z.of_nat k * p)], expiries k (start + p) p) ∧
    Z.testbit (state (module w')) 0 = (0 <? Z.of_nat k) || Z.testbit (state (module w)) 0 ∧
    irq_wire w' = flag (truth (Z.land (state (module w')) (mask (module w')))) ∧
    pulses w' = (pulses w + if truth (Z.land v 0x20) then k else 0)%nat.
Proof.
  cbn zeta. intros W Hc Hm Hoff Hv Hcnt Hs Hst Hnow Hl Hf. set (p := joined (load (module w)) * scale) in *.
  destruct (joined_half (load (module w))) as [_ Hj]; [apply W|]. unfold is_u32 in Hj.
  assert (0 < p < 2 ^ 40) as Hp by (subst p; nia). rewrite gptm_start by done. cbn zeta. fold p.
  rewrite s64_small by (unfold is_s64; lia). unfold qemu_mod_timer_ns. rewrite Hl.
  set (w1 := mkGptmWorld _ _ _). cbn [insert_timer head qemu_timer_expired_ns].
  set (k := Z.to_nat ((now - start) / p)) in *.
  pose proof (Z.div_mod (now - start) p ltac:(lia)) as Hdm. pose proof (Z.mod_pos_bound (now - start) p ltac:(lia)).
  assert (Z.of_nat k = (now - start) / p) as Hk by (apply Z2Nat.id, Z.div_pos; lia).
  assert (start + p + (Z.of_nat k - 1) * p <= now ∧ now < start + p + Z.of_nat k * p) as [H1 H2].
  { rewrite Hk, Z.mul_sub_distr_r, !(Z.mul_comm _ p). lia. }
  destruct (run_periodic scale p now w1 k fuel) as (w' & Hr & Hctl & Hmask & Hst' & Hpu & Hwire);
    [lia|cbn; lia|done|done|done|done|done|].
  exists w1, w', [(0%nat, start + p)]. split; [done|]. split; [exact Hr|].
  rewrite Hst', Hmask. cbn [w1 module state mask set_tick set_control]. split_and!.
  - case_decide as Hk0; [by rewrite Hk0|]. rewrite Z.lor_spec, (proj2 (Z.ltb_lt 0 (Z.of_nat k))) by lia. apply orb_true_r.
  - destruct (decide (k = 0%nat)) as [Hk0|Hk0]; [|by rewrite Hwire, Hst', Hmask].
    rewrite Hk0 in Hr. destruct fuel as [|fuel]; [lia|]. cbn [run_timers_loop head qemu_timer_expired_ns] in Hr.
    rewrite (proj2 (Z.leb_gt _ now)) in Hr by (rewrite Hk0 in H2; cbn; lia). by injection Hr as <-.
  - exact Hpu.
Qed.

Definition example_module : gptm_state :=
  mkGptm 0 (0x2, 0) 0 0 1 (1000, 0) (0, 0) (0, 0) (0, 0) 0 (0, 0).

Lemma gptm_periodic_on_time_witness :
  ∃ w1 w' l1, gptm_guest_write 20 5 0x0c 0x21 (mkGptmWorld example_module 0 0) [] = Ok (w1, l1) ∧
    @qemu_run_timers _ (gptm_client 20) 10 true 70000 w1 l1 =
      Ok (w', [(0%nat, 80005)], [(0%nat, 20005); (0%nat, 40005); (0%nat, 60005)]) ∧ irq_wire w' = 1 ∧ pulses w' = 3%nat.
Proof.
  destruct (gptm_periodic_on_time 20 5 70000 0x21 (mkGptmWorld example_module 0 0) [] 10)
    as (w1 & w' & l1 & Hw & Hr & _ & _ & Hp);
    [by repeat constructor|reflexivity|reflexivity|reflexivity|reflexivity|reflexivity|lia|lia|lia|reflexivity|vm_compute; lia|].
  exists w1, w', l1. split; [exact Hw|]. split; [exact Hr|]. split; [|exact Hp].
  vm_compute in Hw. injection Hw as <- <-. vm_compute in Hr. by injection Hr as <-.
Defined.

(** A period of no length: the timer is armed for the time it fired at. *)
Lemma run_periodic_hangs scale now w fuel :
  periodic scale 0 w → is_s64 (tick (module w)).1 → (tick (module w)).1 <= now →
  @run_timers_loop _ (gptm_client scale) fuel now w [(0%nat, (tick (module w)).1)] = Err Out_of_fuel.
Proof.
  revert w. induction fuel as [|fuel IH]; intros w Hper Ht Hnow; [done|]. cbn [run_timers_loop head qemu_timer_expired_ns].
  rewrite (proj2 (Z.leb_le _ now)) by done. cbn [fst]. unfold timer_cb. pose proof Hper as (Hc & Hm & Hpp).
  rewrite gptm_cb_periodic by done. rewrite Hpp, Z.add_0_r, s64_small by done. cbn [mbind res_bind fold_left timer_op].
  unfold qemu_mod_timer_ns. cbn [qemu_del_timer insert_timer head qemu_timer_expired_ns].
  set (w1 := after_expiry _ w). change (tick (module w)).1 with (tick (module w1)).1. by rewrite (IH w1).
Qed.

(** A period of no length is never left: with the enabled periodic timer armed
    and either a load of 0 or a [system_clock_scale] of 0, the main loop never returns
    from its pass over the timers once the timer has expired: no amount of fuel is
    enough. *)
Theorem gptm_zero_period_hangs scale now w fuel :
  gptm_wf (module w) → config (module w) = 0 → truth (Z.land (mode (module w)).1 1) = false →
  joined (load (module w)) = 0 ∨ scale = 0 → (tick (module w)).1 <= now →
  @qemu_run_timers _ (gptm_client scale) fuel true now w [(0%nat, (tick (module w)).1)] = Err Out_of_fuel.
Proof.
  intros W Hc Hm Hz Hnow. apply run_periodic_hangs; [|apply W|done]. split_and!; [done|done|]. destruct Hz as [-> | ->]; lia.
Qed.

Lemma gptm_zero_period_hangs_witness :
  @qemu_run_timers _ (gptm_client 0) 1000 true 5 (mkGptmWorld example_module 0 0) [(0%nat, 0)] = Err Out_of_fuel.
Proof.
  apply (gptm_zero_period_hangs 0 5 (mkGptmWorld example_module 0 0) 1000);
    [by repeat constructor|reflexivity|reflexivity|by right|done].
Defined.

(** ** The module keeps the promise the main loop relies on *)

(** A module in a joined mode (count down or real time clock), with a load that is not 0 if it is periodic, and its
    timer armed for the time it remembers. *)
Definition gptm_armed (w : gptm_world) (l : timer_list) : Prop :=
  gptm_wf (module w) ∧ (config (module w) = 0 ∨ config (module w) = 1) ∧
  (config (module w) = 1 ∨ truth (Z.land (mode (module w)).1 1) = true ∨ 0 < joined (load (module w))) ∧
  ∀ t, t ∈ l → t = (0%nat, (tick (module w)).1).


Lemma effects_module es w : module (fold_left effect_on es w) = module w.
Proof. revert w. induction es as [|e es IH]; intros w; [done|]. cbn [fold_left]. rewrite IH. by destruct e. Qed.
Lemma timer_ops_app e1 e2 : timer_ops_of (e1 ++ e2) = timer_ops_of e1 ++ timer_ops_of e2.
Proof. apply flat_map_app. Qed.

Lemma gptm_reload_joined scale s t :
  gptm_wf s → config s = 0 ∨ config s = 1 → 0 < scale <= 80 → (config s = 1 ∨ 0 < joined (load s)) →
  (tick s).1 = t → t < 2 ^ 62 →
  ∃ t', gptm_reload scale 0 0 false s = Ok (set_tick s (t', (tick s).2), [Mod_timer 0 t']) ∧ t < t' ∧ is_s64 t'.
Proof.
  intros W Hc Hs Hl Ht Hb. unfold gptm_reload. cbn [at2]. rewrite Ht.
  destruct (joined_half (load s)) as [_ Hj]; [apply W|]. unfold is_u32 in Hj.
  destruct (wf_tick s W) as [Htk _]. rewrite Ht in Htk. unfold is_s64 in Htk. unfold TICKS_PER_SEC.
  destruct Hc as [Hc|Hc]; rewrite Hc; cbn [Z.eqb Pos.eqb mbind res_bind]; eexists; (split; [reflexivity|]);
    rewrite s64_small by (unfold is_s64; nia).
  - destruct Hl as [?|Hl]; [congruence|]. unfold is_s64. nia.
  - unfold is_s64. lia.
Qed.

(** What an expiry does in a joined mode: at most the timer is armed again, later. *)
Lemma gptm_tick_joined scale n s :
  gptm_wf s → config s = 0 ∨ config s = 1 → 0 < scale <= 80 →
  config s = 1 ∨ truth (Z.land (mode s).1 1) = true ∨ 0 < joined (load s) → (tick s).1 < 2 ^ 62 →
  ∃ s' es, gptm_tick scale n s = Ok (s', es) ∧ config s' = config s ∧ mode s' = mode s ∧ load s' = load s ∧
    (timer_ops_of es = [] ∨ timer_ops_of es = [(0%nat, Some (tick s').1)] ∧ (tick s).1 < (tick s').1).
Proof.
  intros W Hc Hs Hl Ht. unfold gptm_tick. cbn zeta. destruct Hc as [Hc|Hc]; rewrite Hc; cbn [Z.eqb Pos.eqb].
  - set (s1 := set_state s (Z.lor (state s) 1)). change (mode s1) with (mode s). cbn [at2].
    set (out := if truth (Z.land (control s1) 0x20) then _ else _).
    assert (timer_ops_of out = []) as Hout by (subst out; by destruct (truth (Z.land (control s1) 0x20))).
    assert (gptm_wf s1) as W1.
    { assert (is_u32 (Z.lor (state s) 1)) by (apply is_u32_lor; [apply W|done]). subst s1. gptm_wf_tac. }
    destruct (truth (Z.land (mode s).1 1)) eqn:Hm; cbn [mbind res_bind].
    + eexists _, _. split; [reflexivity|]. split; [exact Hc|]. split; [done|]. split; [done|]. left.
      by rewrite timer_ops_app, Hout.
    + destruct (gptm_reload_joined scale s1 (tick s).1 W1) as (t' & -> & Hlt & Hr); [by left|done| |done|done|].
      { destruct Hl as [?|[?|?]]; [congruence|done|by right]. }
      cbn [mbind res_bind]. eexists _, _. split; [reflexivity|]. split; [exact Hc|]. split; [done|]. split; [done|]. right.
      rewrite !timer_ops_app, Hout. cbn -[s64]. by rewrite Z.mul_1_r, s64_small.
  - set (s1 := set_rtc s (u32 (rtc s + 1))). set (s2 := if _ <? _ then _ else s1).
    set (s3 := if _ =? _ then _ else s2).
    assert (config s3 = 1 ∧ mode s3 = mode s ∧ load s3 = load s ∧ tick s3 = tick s) as (C3 & M3 & L3 & T3).
    { subst s3 s2. destruct (_ =? _), (_ <? _); by cbn. }
    assert (gptm_wf s3) as W3.
    { pose proof (u32_range (rtc s + 1)). subst s3 s2.
      assert (is_u32 (Z.lor (state s) 8)) by (apply is_u32_lor; [apply W|done]).
      assert (is_u32 0) by done.
      destruct (_ =? _), (_ <? _); subst s1; gptm_wf_tac. }
    destruct (gptm_reload_joined scale s3 (tick s).1 W3) as (t' & -> & Hlt & Hr); [by right|done|by left|by rewrite T3|done|].
    cbn [mbind res_bind]. eexists _, _. split; [reflexivity|]. cbn [config mode load tick set_tick fst].
    split; [done|]. split; [done|]. split; [done|]. right. cbn -[s64]. by rewrite Z.mul_1_r, s64_small.
Qed.

(** The module is a lawful client of the timer list. *)
Lemma gptm_laws scale :
  0 < scale <= 80 → @TimerLaws gptm_world (gptm_client scale) 1 (2 ^ 62 - 1) gptm_armed.
Proof.
  intros Hs. constructor.
  - intros ts e l w (W & Hc & Hl & Ha) Wl He. unfold timer_cb, gptm_client.
    assert (e = (tick (module w)).1) as -> by (by injection (Ha (ts, e) (list_elem_of_here _ _))).
    assert (l = []) as ->.
    { destruct l as [|t l]; [done|]. destruct Wl as [_ Hn]. apply NoDup_cons in Hn as [Hn _]. destruct Hn.
      injection (Ha (ts, (tick (module w)).1)) as ->; [set_solver|]. rewrite (Ha t) by set_solver. cbn. set_solver. }
    destruct (gptm_tick_joined scale ts (module w) W Hc Hs Hl ltac:(lia)) as (s' & es & Htick & Hc' & Hm' & Hl' & Hops).
    pose proof (proj1 (tick_wf _ _ _ _ _ W Htick)) as W'. rewrite Htick. cbn [mbind res_bind].
    eexists _, _. split; [reflexivity|]. cbn [gptm_apply fst snd]. split.
    + unfold gptm_armed. rewrite effects_module. cbn [module]. rewrite Hc', Hm', Hl'. split_and!; [done..|].
      destruct Hops as [-> | [-> _]]; cbn; [set_solver|]. by intros t ->%list_elem_of_singleton.
    + destruct Hops as [-> | [-> Hlt]]; [constructor|]. apply Forall_singleton. cbn. split; [lia|]. by intros t [= <-].
  - intros w l (_ & _ & _ & Ha). apply Forall_forall. intros t Ht. rewrite (Ha t Ht). cbn. lia.
Qed.

Lemma run_timers_complete_witness :
  ∃ w' l' fired, @qemu_run_timers _ (gptm_client 20) 10 true 3 (mkGptmWorld example_module 0 0) [(0%nat, 0)] = Ok (w', l', fired) ∧
    (∀ t, t ∈ l' → 3 < t.2) ∧ fired = [(0%nat, 0)].
Proof.
  pose proof (gptm_laws 20 ltac:(lia)) as Hlaws.
  destruct (@run_timers_complete _ (gptm_client 20) _ _ _ Hlaws 3 (mkGptmWorld example_module 0 0) [(0%nat, 0)] 10) as (w' & l' & fired & Hr & _ & _ & Hdone & _).
  - split; [repeat constructor|]. apply NoDup_singleton.
  - split_and!; [by repeat constructor|by left|right; by right|]. by intros t ->%list_elem_of_singleton.
  - lia.
  - vm_compute. lia.
  - exists w', l', fired. split; [exact Hr|]. split; [exact Hdone|]. vm_compute in Hr. by injection Hr as _ _ <-.
Defined.
