(* ===== verification/Adc.v ===== *)
(** * Adc: the analogue to digital converter of the Stellaris boards (hw/stellaris.c)

    Four sample sequencers, each with a FIFO of 16 words whose positions and flags
    are packed in one word, and four interrupt lines.  A sequencer samples on the
    pulses of the timer modules' trigger outputs. *)

From S2P Require Import Prelude.
Local Open Scope Z_scope.

Record adc_fifo := mkFifo { f_state : Z; f_data : list Z }.

Record stellaris_adc_state := mkAdc {
  actss : Z;
  ris : Z;
  im : Z;
  emux : Z;
  ostat : Z;
  ustat : Z;
  sspri : Z;
  sac : Z;
  fifo : list adc_fifo;
  ssmux : list Z;
  ssctl : list Z;
  noise : Z;
  adc_irq : list Z;                 (* the levels of the four lines *)
}.

Definition STELLARIS_ADC_FIFO_EMPTY : Z := 0x0100.
Definition STELLARIS_ADC_FIFO_FULL : Z := 0x1000.

Definition set_ris (s : stellaris_adc_state) (x : Z) : stellaris_adc_state :=
  mkAdc (actss s) x (im s) (emux s) (ostat s) (ustat s) (sspri s) (sac s) (fifo s) (ssmux s) (ssctl s) (noise s) (adc_irq s).
Definition set_stats (s : stellaris_adc_state) (o u : Z) : stellaris_adc_state :=
  mkAdc (actss s) (ris s) (im s) (emux s) o u (sspri s) (sac s) (fifo s) (ssmux s) (ssctl s) (noise s) (adc_irq s).
Definition set_fifos (s : stellaris_adc_state) (f : list adc_fifo) : stellaris_adc_state :=
  mkAdc (actss s) (ris s) (im s) (emux s) (ostat s) (ustat s) (sspri s) (sac s) f (ssmux s) (ssctl s) (noise s) (adc_irq s).
Definition set_seq (s : stellaris_adc_state) (m c : list Z) : stellaris_adc_state :=
  mkAdc (actss s) (ris s) (im s) (emux s) (ostat s) (ustat s) (sspri s) (sac s) (fifo s) m c (noise s) (adc_irq s).
Definition set_noise (s : stellaris_adc_state) (x : Z) : stellaris_adc_state :=
  mkAdc (actss s) (ris s) (im s) (emux s) (ostat s) (ustat s) (sspri s) (sac s) (fifo s) (ssmux s) (ssctl s) x (adc_irq s).
Definition set_adc_irq (s : stellaris_adc_state) (l : list Z) : stellaris_adc_state :=
  mkAdc (actss s) (ris s) (im s) (emux s) (ostat s) (ustat s) (sspri s) (sac s) (fifo s) (ssmux s) (ssctl s) (noise s) l.
Definition set_ctrl (s : stellaris_adc_state) (act i e pri sa : Z) : stellaris_adc_state :=
  mkAdc act (ris s) i e (ostat s) (ustat s) pri sa (fifo s) (ssmux s) (ssctl s) (noise s) (adc_irq s).

(** ** Operations *)

Definition stellaris_adc_fifo_read (n : Z) (s : stellaris_adc_state) : res (Z * stellaris_adc_state) :=
  f ← aread (fifo s) n;
  let tail := Z.land (f_state f) 0xf in
  s ← (if truth (Z.land (f_state f) STELLARIS_ADC_FIFO_EMPTY) then
         Ok (set_stats s (ostat s) (Z.lor (ustat s) (Z.shiftl 1 n)))
       else
         let st := Z.lor (Z.ldiff (f_state f) 0xf) (Z.land (tail + 1) 0xf) in
         let st := Z.ldiff st STELLARIS_ADC_FIFO_FULL in
         let st := if tail + 1 =? Z.land (Z.shiftr st 4) 0xf then Z.lor st STELLARIS_ADC_FIFO_EMPTY else st in
         fs ← awrite (fifo s) n (mkFifo st (f_data f)); Ok (set_fifos s fs));
  v ← aread (f_data f) tail; Ok (v, s).

Definition stellaris_adc_fifo_write (n value : Z) (s : stellaris_adc_state) : res stellaris_adc_state :=
  f ← aread (fifo s) n;
  let head := Z.land (Z.shiftr (f_state f) 4) 0xf in
  if truth (Z.land (f_state f) STELLARIS_ADC_FIFO_FULL) then
    Ok (set_stats s (Z.lor (ostat s) (Z.shiftl 1 n)) (ustat s))
  else
    d ← awrite (f_data f) head value;
    let head := Z.land (head + 1) 0xf in
    let st := Z.ldiff (f_state f) STELLARIS_ADC_FIFO_EMPTY in
    let st := Z.lor (Z.ldiff st 0xf0) (Z.shiftl head 4) in
    let st := if Z.land st 0xf =? head then Z.lor st STELLARIS_ADC_FIFO_FULL else st in
    fs ← awrite (fifo s) n (mkFifo st d); Ok (set_fifos s fs).

Definition stellaris_adc_update (s : stellaris_adc_state) : res stellaris_adc_state :=
  l ← for_upto 4 (λ n l, awrite l n (flag (truth (Z.land (Z.land (ris s) (im s)) (Z.shiftl 1 n))))) (adc_irq s);
  Ok (set_adc_irq s l).

(** The trigger input; its level is not looked at. *)
Definition stellaris_adc_trigger (level : Z) (s : stellaris_adc_state) : res stellaris_adc_state :=
  for_upto 4 (λ n s,
    if Z.land (actss s) (Z.shiftl 1 n) =? 0 then Ok s
    else if negb (Z.land (Z.shiftr (emux s) (n * 4)) 0xff =? 5) then Ok s
    else
      let s := set_noise s (u32 (noise s * 314159 + 1)) in
      s ← stellaris_adc_fifo_write n (0x200 + Z.land (Z.shiftr (noise s) 16) 7) s;
      stellaris_adc_update (set_ris s (Z.lor (ris s) (Z.shiftl 1 n)))) s.

(** [qemu_irq_pulse] on the trigger input. *)
Definition adc_pulse (s : stellaris_adc_state) : res stellaris_adc_state :=
  s ← stellaris_adc_trigger 1 s; stellaris_adc_trigger 0 s.

Definition stellaris_adc_reset (s : stellaris_adc_state) : res stellaris_adc_state :=
  for_upto 4 (λ n s,
    m ← awrite (ssmux s) n 0;
    c ← awrite (ssctl s) n 0;
    f ← aread (fifo s) n;
    fs ← awrite (fifo s) n (mkFifo STELLARIS_ADC_FIFO_EMPTY (f_data f));
    Ok (set_fifos (set_seq s m c) fs)) s.

(** The window of the sequencers' registers. *)
Definition adc_sequencer (offset : Z) : bool := (0x40 <=? offset) && (offset <? 0xc0).

Definition adc_read_ctrl (offset : Z) (s : stellaris_adc_state) : res (Z * stellaris_adc_state) :=
  match offset with
  | 0x00 => Ok (actss s, s)
  | 0x04 => Ok (ris s, s)
  | 0x08 => Ok (im s, s)
  | 0x0c => Ok (Z.land (ris s) (im s), s)
  | 0x10 => Ok (ostat s, s)
  | 0x14 => Ok (emux s, s)
  | 0x18 => Ok (ustat s, s)
  | 0x20 => Ok (sspri s, s)
  | 0x30 => Ok (sac s, s)
  | _ => Err Hw_error
  end.

Definition stellaris_adc_read (offset : Z) (s : stellaris_adc_state) : res (Z * stellaris_adc_state) :=
  let n := Z.shiftr (offset - 0x40) 5 in
  if adc_sequencer offset then
    match Z.land offset 0x1f with
    | 0x00 => v ← aread (ssmux s) n; Ok (v, s)
    | 0x04 => v ← aread (ssctl s) n; Ok (v, s)
    | 0x08 => stellaris_adc_fifo_read n s
    | 0x0c => f ← aread (fifo s) n; Ok (f_state f, s)
    | _ => adc_read_ctrl offset s
    end
  else adc_read_ctrl offset s.

Definition adc_write_ctrl (offset value : Z) (s : stellaris_adc_state) : res stellaris_adc_state :=
  s ← match offset with
      | 0x00 => Ok (set_ctrl s (Z.land value 0xf) (im s) (emux s) (sspri s) (sac s))
      | 0x08 => Ok (set_ctrl s (actss s) value (emux s) (sspri s) (sac s))
      | 0x0c => Ok (set_ris s (Z.ldiff (ris s) value))
      | 0x10 => Ok (set_stats s (Z.ldiff (ostat s) value) (ustat s))
      | 0x14 => Ok (set_ctrl s (actss s) (im s) value (sspri s) (sac s))
      | 0x18 => Ok (set_stats s (ostat s) (Z.ldiff (ustat s) value))
      | 0x20 => Ok (set_ctrl s (actss s) (im s) (emux s) value (sac s))
      | 0x28 => Err Hw_error
      | 0x30 => Ok (set_ctrl s (actss s) (im s) (emux s) (sspri s) value)
      | _ => Err Hw_error
      end;
  stellaris_adc_update s.

Definition stellaris_adc_write (offset value : Z) (s : stellaris_adc_state) : res stellaris_adc_state :=
  let n := Z.shiftr (offset - 0x40) 5 in
  if adc_sequencer offset then
    match Z.land offset 0x1f with
    | 0x00 => m ← awrite (ssmux s) n (Z.land value 0x33333333); Ok (set_seq s m (ssctl s))
    | 0x04 =>
        if negb (value =? 6) then Err Hw_error else
        c ← awrite (ssctl s) n value; Ok (set_seq s (ssmux s) c)
    | _ => adc_write_ctrl offset value s
    end
  else adc_write_ctrl offset value s.

Definition adc_zero : stellaris_adc_state :=
  mkAdc 0 0 0 0 0 0 0 0 (replicate 4 (mkFifo 0 (replicate 16 0))) (replicate 4 0) (replicate 4 0) 0 (replicate 4 0).

Definition stellaris_adc_init : res stellaris_adc_state := stellaris_adc_reset adc_zero.

(** ** The FIFO of a sequencer is a queue *)

(** The word of a FIFO that holds [k] words from position [t] on. *)
Definition fifo_word (t k : nat) : Z :=
  Z.of_nat t + 16 * Z.of_nat ((t + k) mod 16) + (if decide (k = 0%nat) then 0x100 else 0) + (if decide (k = 16%nat) then 0x1000 else 0).

(** What [stellaris_adc_fifo_read] and [stellaris_adc_fifo_write] do to the word. *)
Definition read_word (st : Z) : Z :=
  let tail := Z.land st 0xf in
  let st := Z.lor (Z.ldiff st 0xf) (Z.land (tail + 1) 0xf) in
  let st := Z.ldiff st STELLARIS_ADC_FIFO_FULL in
  if tail + 1 =? Z.land (Z.shiftr st 4) 0xf then Z.lor st STELLARIS_ADC_FIFO_EMPTY else st.
Definition write_word (st : Z) : Z :=
  let head := Z.land (Z.land (Z.shiftr st 4) 0xf + 1) 0xf in
  let st := Z.ldiff st STELLARIS_ADC_FIFO_EMPTY in
  let st := Z.lor (Z.ldiff st 0xf0) (Z.shiftl head 4) in
  if Z.land st 0xf =? head then Z.lor st STELLARIS_ADC_FIFO_FULL else st.

(** A fact about every position and every number of words. *)
Lemma positions_forall (P : nat → nat → bool) :
  forallb (λ t, forallb (P t) (seq 0 17)) (seq 0 16) = true → ∀ t k, (t < 16)%nat → (k ≤ 16)%nat → P t k = true.
Proof.
  rewrite forallb_forall. intros H t k Ht Hk. assert (In t (seq 0 16)) as Hin by (apply in_seq; lia).
  specialize (H t Hin). rewrite forallb_forall in H. apply H, in_seq. lia.
Qed.

Ltac by_positions P := apply (positions_forall P); [vm_compute; reflexivity|done|done].

Section words.
Context (t k : nat) (Ht : (t < 16)%nat) (Hk : (k ≤ 16)%nat).

Lemma word_tail : Z.land (fifo_word t k) 0xf = Z.of_nat t.
Proof using Ht Hk. apply Z.eqb_eq. by_positions (λ t k, Z.land (fifo_word t k) 0xf =? Z.of_nat t). Qed.
Lemma word_head : Z.land (Z.shiftr (fifo_word t k) 4) 0xf = Z.of_nat ((t + k) mod 16).
Proof using Ht Hk.
  apply Z.eqb_eq. by_positions (λ t k, Z.land (Z.shiftr (fifo_word t k) 4) 0xf =? Z.of_nat ((t + k) mod 16)).
Qed.
Lemma word_empty : truth (Z.land (fifo_word t k) STELLARIS_ADC_FIFO_EMPTY) = bool_decide (k = 0%nat).
Proof using Ht Hk.
  apply eqb_prop. by_positions (λ t k, eqb (truth (Z.land (fifo_word t k) STELLARIS_ADC_FIFO_EMPTY)) (bool_decide (k = 0%nat))).
Qed.
Lemma word_full : truth (Z.land (fifo_word t k) STELLARIS_ADC_FIFO_FULL) = bool_decide (k = 16%nat).
Proof using Ht Hk.
  apply eqb_prop. by_positions (λ t k, eqb (truth (Z.land (fifo_word t k) STELLARIS_ADC_FIFO_FULL)) (bool_decide (k = 16%nat))).
Qed.
Lemma word_read :
  k ≠ 0%nat → ¬ (t = 15%nat ∧ k = 1%nat) → read_word (fifo_word t k) = fifo_word ((t + 1) mod 16) (k - 1).
Proof using Ht Hk.
  intros H0 H1. assert (bool_decide (k = 0%nat) || bool_decide (t = 15%nat ∧ k = 1%nat) ||
    (read_word (fifo_word t k) =? fifo_word ((t + 1) mod 16) (k - 1)) = true) as H.
  { by_positions (λ t k, bool_decide (k = 0%nat) || bool_decide (t = 15%nat ∧ k = 1%nat) ||
      (read_word (fifo_word t k) =? fifo_word ((t + 1) mod 16) (k - 1))). }
  rewrite !bool_decide_eq_false_2 in H by done. by apply Z.eqb_eq in H.
Qed.
Lemma word_write : k ≠ 16%nat → write_word (fifo_word t k) = fifo_word t (k + 1).
Proof using Ht Hk.
  intros H0. assert (bool_decide (k = 16%nat) || (write_word (fifo_word t k) =? fifo_word t (k + 1)) = true) as H.
  { by_positions (λ t k, bool_decide (k = 16%nat) || (write_word (fifo_word t k) =? fifo_word t (k + 1))). }
  rewrite bool_decide_eq_false_2 in H by done. by apply Z.eqb_eq in H.
Qed.
End words.

(** FIFO [f] holds the words [q], the first at position [t]. *)
Record holds (f : adc_fifo) (t : nat) (q : list Z) : Prop := {
  h_pos : (t < 16)%nat;
  h_count : (length q ≤ 16)%nat;
  h_word : f_state f = fifo_word t (length q);
  h_size : length (f_data f) = 16%nat;
  h_data : ∀ i v, q !! i = Some v → f_data f !! ((t + i) mod 16)%nat = Some v;
}.

Lemma mod16_lt n : (n mod 16 < 16)%nat.
Proof. apply Nat.mod_upper_bound. lia. Qed.

Lemma fifo_push f t q v :
  holds f t q → (length q < 16)%nat →
  holds (mkFifo (write_word (f_state f)) (<[((t + length q) mod 16)%nat := v]> (f_data f))) t (q ++ [v]).
Proof.
  intros [Ht Hk Hw Hs Hd] Hl. constructor; cbn [f_state f_data]; [done|rewrite length_app; cbn; lia| |by rewrite length_insert|].
  - rewrite Hw, word_write, length_app by lia. done.
  - intros i x Hx. apply lookup_app_Some in Hx as [Hx|[Hge Hx]].
    + pose proof (lookup_lt_Some _ _ _ Hx). rewrite list_lookup_insert_ne; [by apply Hd|].
      pose proof (Nat.div_mod_eq (t + length q) 16). pose proof (Nat.div_mod_eq (t + i) 16).
      pose proof (mod16_lt (t + length q)). pose proof (mod16_lt (t + i)). lia.
    + apply list_lookup_singleton_Some in Hx as [Hi <-]. replace (t + i)%nat with (t + length q)%nat by lia.
      apply list_lookup_insert_eq. rewrite Hs. apply mod16_lt.
Qed.
Lemma fifo_pop f t v q :
  holds f t (v :: q) → ¬ (t = 15%nat ∧ q = []) →
  holds (mkFifo (read_word (f_state f)) (f_data f)) ((t + 1) mod 16) q.
Proof.
  intros [Ht Hk Hw Hs Hd] Hl. cbn [length] in Hk. constructor; cbn [f_state f_data]; [apply mod16_lt|lia| |done|].
  - rewrite Hw, word_read; [f_equal; cbn; lia|done|done|done|].
    intros [? Hq]. apply Hl. split; [done|]. destruct q; [done|cbn in Hq; lia].
  - intros i x Hx. rewrite Nat.Div0.add_mod_idemp_l. replace (t + 1 + i)%nat with (t + S i)%nat by lia. by apply Hd.
Qed.

Lemma adc_fifo_read_ok (n : nat) f s :
  (n < 4)%nat → fifo s !! n = Some f → length (fifo s) = 4%nat →
  ∀ t q, holds f t q →
  ∃ v, stellaris_adc_fifo_read (Z.of_nat n) s = Ok (v,
    match q with
    | [] => set_stats s (ostat s) (Z.lor (ustat s) (Z.shiftl 1 (Z.of_nat n)))
    | _ => set_fifos s (<[n := mkFifo (read_word (f_state f)) (f_data f)]> (fifo s))
    end) ∧ (∀ x q', q = x :: q' → v = x).
Proof.
  intros Hn Hf Hl4 t q [Ht Hk Hw Hs Hd]. unfold stellaris_adc_fifo_read. rewrite (aread_nat _ _ _ Hf). cbn [mbind res_bind].
  rewrite Hw, word_tail, word_empty by done. fold (f_state f).
  destruct (lookup_lt_is_Some_2 (f_data f) t ltac:(lia)) as [v Hv]. exists v.
  destruct q as [|x q]; cbn [length].
  - rewrite bool_decide_eq_true_2 by done. cbn [mbind res_bind]. by rewrite (aread_nat _ _ _ Hv).
  - rewrite bool_decide_eq_false_2 by done. rewrite awrite_nat by lia. cbn [mbind res_bind].
    rewrite (aread_nat _ _ _ Hv). cbn [mbind res_bind]. split.
    + unfold read_word. cbn [length] in Hk. rewrite word_tail by (cbn [length]; lia). done.
    + intros y q' [= <- <-]. specialize (Hd 0%nat x eq_refl). rewrite Nat.add_0_r, Nat.mod_small in Hd by done. congruence.
Qed.

Lemma adc_fifo_write_ok (n : nat) f s v :
  (n < 4)%nat → fifo s !! n = Some f → length (fifo s) = 4%nat →
  ∀ t q, holds f t q →
  stellaris_adc_fifo_write (Z.of_nat n) v s = Ok
    (if decide (length q = 16%nat) then set_stats s (Z.lor (ostat s) (Z.shiftl 1 (Z.of_nat n))) (ustat s)
     else set_fifos s (<[n := mkFifo (write_word (f_state f)) (<[((t + length q) mod 16)%nat := v]> (f_data f))]> (fifo s))).
Proof.
  intros Hn Hf Hl4 t q [Ht Hk Hw Hs Hd]. unfold stellaris_adc_fifo_write. rewrite (aread_nat _ _ _ Hf). cbn [mbind res_bind].
  rewrite Hw, word_full, word_head by done. case_decide as H16.
  - by rewrite bool_decide_eq_true_2.
  - rewrite bool_decide_eq_false_2 by done. rewrite awrite_nat by (rewrite Hs; apply mod16_lt). cbn [mbind res_bind].
    rewrite awrite_nat by lia. cbn [mbind res_bind]. unfold write_word. by rewrite word_head.
Qed.

(** What happens to a sequencer: a sample arrives, the guest reads the FIFO. *)
Inductive seq_op := Sample (v : Z) | Take.

Definition adc_op (n : Z) (op : seq_op) (s : stellaris_adc_state) : res (list Z * stellaris_adc_state) :=
  match op with
  | Sample v => s ← stellaris_adc_fifo_write n v s; Ok ([], s)
  | Take =>
      f ← aread (fifo s) n;
      '(v, s) ← stellaris_adc_fifo_read n s;
      Ok (if truth (Z.land (f_state f) STELLARIS_ADC_FIFO_EMPTY) then [] else [v], s)
  end.
(** The words the guest read while the FIFO was not reported empty, and the state. *)
Fixpoint adc_ops (n : Z) (ops : list seq_op) (s : stellaris_adc_state) : res (list Z * stellaris_adc_state) :=
  match ops with
  | [] => Ok ([], s)
  | op :: ops => '(o, s) ← adc_op n op s; '(os, s) ← adc_ops n ops s; Ok (o ++ os, s)
  end.

(** The specification: the words that wait, the number of words taken so far, and
    the overflow and underflow bits.  [None] is outside of what the code implements:
    the FIFO runs empty with a word at the last position of its ring. *)
Record seq_spec := mkSeq { waiting : list Z; taken : nat; overflow : bool; underflow : bool }.

Definition seq_step (op : seq_op) (sp : seq_spec) : option (list Z * seq_spec) :=
  match op with
  | Sample v =>
      if decide (length (waiting sp) = 16%nat) then Some ([], mkSeq (waiting sp) (taken sp) true (underflow sp))
      else Some ([], mkSeq (waiting sp ++ [v]) (taken sp) (overflow sp) (underflow sp))
  | Take =>
      match waiting sp with
      | [] => Some ([], mkSeq [] (taken sp) (overflow sp) true)
      | v :: q =>
          if decide (taken sp mod 16 = 15 ∧ q = [])%nat then None
          else Some ([v], mkSeq q (S (taken sp)) (overflow sp) (underflow sp))
      end
  end.
Fixpoint seq_steps (ops : list seq_op) (sp : seq_spec) : option (list Z * seq_spec) :=
  match ops with
  | [] => Some ([], sp)
  | op :: ops =>
      match seq_step op sp with
      | Some (o, sp) => match seq_steps ops sp with Some (os, sp) => Some (o ++ os, sp) | None => None end
      | None => None
      end
  end.

(** Sequencer [n] of [s] is at [sp]. *)
Record seq_match (n : nat) (s : stellaris_adc_state) (sp : seq_spec) : Prop := {
  m_four : length (fifo s) = 4%nat;
  m_holds : ∃ f, fifo s !! n = Some f ∧ holds f (taken sp mod 16) (waiting sp);
  m_over : Z.testbit (ostat s) (Z.of_nat n) = overflow sp;
  m_under : Z.testbit (ustat s) (Z.of_nat n) = underflow sp;
}.

Lemma seq_step_match n op s sp o sp' :
  (n < 4)%nat → seq_match n s sp → seq_step op sp = Some (o, sp') →
  ∃ s', adc_op (Z.of_nat n) op s = Ok (o, s') ∧ seq_match n s' sp'.
Proof.
  intros Hn [H4 (f & Hf & Hh) Ho Hu] Hs. destruct op as [v|]; cbn [adc_op seq_step] in *.
  - rewrite (adc_fifo_write_ok n f s v Hn Hf H4 _ _ Hh). cbn [mbind res_bind].
    destruct (decide (length (waiting sp) = 16%nat)); injection Hs as <- <-; eexists; (split; [reflexivity|]); constructor; cbn [fifo set_fifos set_stats ostat ustat waiting taken overflow underflow]; try done.
    + by exists f.
    + rewrite Z.lor_spec, testbit_bit, Z.eqb_refl by lia. apply orb_true_r.
    + by rewrite length_insert.
    + eexists. split; [apply list_lookup_insert_eq; lia|]. apply fifo_push; [done|]. destruct Hh. lia.
  - rewrite (aread_nat _ _ _ Hf). cbn [mbind res_bind].
    destruct (adc_fifo_read_ok n f s Hn Hf H4 _ _ Hh) as (v & -> & Hv). cbn [mbind res_bind].
    rewrite (h_word _ _ _ Hh), word_empty by apply Hh. destruct (waiting sp) as [|x q] eqn:Hq.
    + injection Hs as <- <-. eexists. split; [done|]. constructor; try done; cbn [fifo set_stats ustat taken waiting underflow].
      * by exists f.
      * rewrite Z.lor_spec, testbit_bit, Z.eqb_refl by lia. apply orb_true_r.
    + case_decide as Hwrap; [done|]. injection Hs as <- <-. rewrite (Hv x q eq_refl). eexists. split; [done|].
      constructor; try done; cbn [fifo set_fifos taken waiting]; [by rewrite length_insert|].
      eexists. split; [apply list_lookup_insert_eq; lia|]. replace (S (taken sp) mod 16)%nat with ((taken sp mod 16 + 1) mod 16)%nat.
      * rewrite <- (h_word _ _ _ Hh). by apply (fifo_pop _ _ x).
      * rewrite Nat.Div0.add_mod_idemp_l. f_equal. lia.
Qed.

Lemma fstat_address (n : nat) :
  (n < 4)%nat → let off := 0x4c + 0x20 * Z.of_nat n in
  adc_sequencer off = true ∧ Z.land off 0x1f = 0x0c ∧ Z.shiftr (off - 0x40) 5 = Z.of_nat n.
Proof. intros Hn. by destruct n as [|[|[|[|n]]]]; [..|lia]. Qed.

(** The FIFO of a sequencer is a queue of at most 16 words: for any sequence
    of samples and reads of the guest in which the FIFO does not run empty with its
    last word at the end of the ring, the code returns, the guest reads the samples in
    the order of their arrival, a sample that finds 16 words waiting is dropped with the
    overflow bit set, a read of an empty FIFO sets the underflow bit and takes nothing,
    and the status register describes the words that wait. *)
Theorem adc_fifo_is_queue (n : nat) ops s sp o sp' :
  (n < 4)%nat → seq_match n s sp → seq_steps ops sp = Some (o, sp') →
  ∃ s', adc_ops (Z.of_nat n) ops s = Ok (o, s') ∧ seq_match n s' sp' ∧
    stellaris_adc_read (0x4c + 0x20 * Z.of_nat n) s' = Ok (fifo_word (taken sp' mod 16) (length (waiting sp')), s').
Proof.
  intros Hn. revert s sp o. induction ops as [|op ops IH]; intros s sp o Hm Hs; cbn [seq_steps] in Hs.
  - injection Hs as <- <-. exists s. split; [done|]. split; [done|].
    pose proof Hm as [H4 (f & Hf & Hh) _ _]. rewrite <- (h_word _ _ _ Hh).
    pose proof (aread_nat _ _ _ Hf) as Ha.
    unfold stellaris_adc_read. destruct (fstat_address n Hn) as (-> & -> & ->). cbn [Pos.eqb Z.eqb]. by rewrite Ha.
  - destruct (seq_step op sp) as [[o1 sp1]|] eqn:E1; [|done].
    destruct (seq_steps ops sp1) as [[os sp2]|] eqn:E2; [|done]. injection Hs as <- <-.
    destruct (seq_step_match n op s sp o1 sp1 Hn Hm E1) as (s1 & H1 & Hm1).
    destruct (IH s1 sp1 os Hm1 E2) as (s2 & H2 & Hm2 & Hst). exists s2. cbn [adc_ops]. rewrite H1. cbn [mbind res_bind].
    rewrite H2. done.
Qed.

Definition adc_started : stellaris_adc_state :=
  mkAdc 0 0 0 0 0 0 0 0 (replicate 4 (mkFifo STELLARIS_ADC_FIFO_EMPTY (replicate 16 0))) (replicate 4 0) (replicate 4 0) 0 (replicate 4 0).
Lemma adc_init_started : stellaris_adc_init = Ok adc_started.
Proof. reflexivity. Qed.
Lemma adc_started_match n : (n < 4)%nat → seq_match n adc_started (mkSeq [] 0 false false).
Proof.
  intros Hn. constructor; [done| |apply Z.bits_0|apply Z.bits_0]. exists (mkFifo 0x100 (replicate 16 0)).
  split; [by apply lookup_replicate_2|]. by constructor; cbn; try lia.
Qed.

Lemma adc_fifo_is_queue_witness :
  ∃ s, stellaris_adc_init = Ok s ∧ ∃ s', adc_ops 2 [Sample 5; Take; Take; Sample 6; Sample 7; Take] s = Ok ([5; 6], s') ∧
    ustat s' = 4 ∧ stellaris_adc_read 0x8c s' = Ok (0x32, s').
Proof.
  exists adc_started. split; [apply adc_init_started|].
  destruct (adc_fifo_is_queue 2 [Sample 5; Take; Take; Sample 6; Sample 7; Take] adc_started (mkSeq [] 0 false false)
    [5; 6] (mkSeq [7] 2 false true) ltac:(lia) (adc_started_match 2 ltac:(lia)) eq_refl) as (s' & Hr & _ & Hst).
  exists s'. split; [exact Hr|]. split; [|exact Hst]. vm_compute in Hr. by injection Hr as <-.
Defined.

(** A FIFO drained at the end of its ring is not empty: after 16 samples and 16
    reads, which return the samples, the status register reports neither an empty nor a
    full FIFO, and the next read returns the first sample a second time without an
    underflow.  (The test for the empty FIFO compares the next position with the head
    without wrapping it around.) *)
Theorem adc_drained_not_empty (n : nat) (vs : list Z) :
  (n < 4)%nat → length vs = 16%nat →
  ∃ s', adc_ops (Z.of_nat n) (map Sample vs ++ replicate 16 Take) adc_started = Ok (vs, s') ∧
    stellaris_adc_read (0x4c + 0x20 * Z.of_nat n) s' = Ok (0, s') ∧
    ∃ s'', stellaris_adc_fifo_read (Z.of_nat n) s' = Ok (hd 0 vs, s'') ∧ ustat s'' = 0.
Proof.
  intros Hn Hl. do 16 (destruct vs as [|? vs]; [done|]). destruct vs; [|done].
  destruct n as [|[|[|[|n]]]]; [..|lia]; (eexists; split; [vm_compute; reflexivity|]);
    (split; [vm_compute; reflexivity|]); eexists; (split; vm_compute; reflexivity).
Qed.

Lemma adc_drained_not_empty_witness :
  ∃ s', adc_ops 1 (map Sample (repeat 7 16) ++ replicate 16 Take) adc_started = Ok (repeat 7 16, s') ∧
    stellaris_adc_read 0x6c s' = Ok (0, s').
Proof.
  destruct (adc_drained_not_empty 1 (repeat 7 16) ltac:(lia) eq_refl) as (s' & H1 & H2 & _). exists s'. split; [exact H1|exact H2].
Defined.

(** ** The trigger *)

Lemma adc_update_ok s : length (adc_irq s) = 4%nat → ∃ l, stellaris_adc_update s = Ok (set_adc_irq s l) ∧ length l = 4%nat.
Proof.
  intros Hl. unfold stellaris_adc_update. destruct (adc_irq s) as [|a [|b [|c [|d [|]]]]]; try done.
  eexists. split; [reflexivity|]. done.
Qed.

(** Sequencer [n], alone active, samples on the timers' trigger. *)
Record samples_alone (n : nat) (s : stellaris_adc_state) : Prop := {
  sa_active : actss s = Z.shiftl 1 (Z.of_nat n);
  sa_timer : Z.land (Z.shiftr (emux s) (Z.of_nat n * 4)) 0xff = 5;
  sa_wires : length (adc_irq s) = 4%nat;
}.

Lemma adc_sample_ok n s sp :
  (n < 4)%nat → samples_alone n s → seq_match n s sp → (length (waiting sp) < 16)%nat →
  ∃ s' v, (let s := set_noise s (u32 (noise s * 314159 + 1)) in
           s ← stellaris_adc_fifo_write (Z.of_nat n) (0x200 + Z.land (Z.shiftr (noise s) 16) 7) s;
           stellaris_adc_update (set_ris s (Z.lor (ris s) (Z.shiftl 1 (Z.of_nat n))))) = Ok s' ∧
    samples_alone n s' ∧ seq_match n s' (mkSeq (waiting sp ++ [v]) (taken sp) (overflow sp) (underflow sp)) ∧
    0x200 <= v <= 0x207 ∧ Z.testbit (ris s') (Z.of_nat n) = true.
Proof.
  intros Hn [Ha Ht Hw] Hm Hl. cbn zeta. set (s0 := set_noise s _). set (v := 0x200 + _).
  assert (seq_match n s0 sp) as Hm0 by (by destruct Hm).
  destruct (seq_step_match n (Sample v) s0 sp [] (mkSeq (waiting sp ++ [v]) (taken sp) (overflow sp) (underflow sp)) Hn Hm0)
    as (s1 & H1 & Hm1); [cbn; by rewrite decide_False by lia|].
  cbn [adc_op] in H1. inv_bind.
  assert (actss s1 = actss s ∧ emux s1 = emux s ∧ adc_irq s1 = adc_irq s) as (E1 & E2 & E3).
  { revert E. unfold stellaris_adc_fifo_write. destruct (aread _ _) as [f|]; [|done]. cbn [mbind res_bind].
    destruct (truth _); [by intros [= <-]|]. destruct (awrite (f_data f) _ _); [|done]. cbn [mbind res_bind].
    destruct (awrite (fifo s0) _ _); [|done]. by intros [= <-]. }
  rewrite E. cbn [mbind res_bind].
  assert (0x200 <= v <= 0x207) as Hv.
  { subst v. change 7 with (2 ^ 3 - 1). rewrite land_mod by lia.
    pose proof (Z.mod_pos_bound (Z.shiftr (noise s0) 16) (2 ^ 3)). lia. }
  destruct (adc_update_ok (set_ris s1 (Z.lor (ris s1) (Z.shiftl 1 (Z.of_nat n))))) as (l & Hu & Hlen); [by cbn; rewrite E3|].
  exists (set_adc_irq (set_ris s1 (Z.lor (ris s1) (Z.shiftl 1 (Z.of_nat n)))) l), v. split; [exact Hu|]. split_and!.
  - constructor; cbn; [by rewrite E1|by rewrite E2|done].
  - destruct Hm1 as [M1 M2 M3 M4]. constructor; [exact M1|exact M2|exact M3|exact M4].
  - apply Hv.
  - apply Hv.
  - cbn [ris set_adc_irq set_ris]. rewrite Z.lor_spec, testbit_bit, Z.eqb_refl by lia. apply orb_true_r.
Qed.

Lemma adc_trigger_ok n level s sp :
  (n < 4)%nat → samples_alone n s → seq_match n s sp → (length (waiting sp) < 16)%nat →
  ∃ s' v, stellaris_adc_trigger level s = Ok s' ∧ samples_alone n s' ∧
    seq_match n s' (mkSeq (waiting sp ++ [v]) (taken sp) (overflow sp) (underflow sp)) ∧
    0x200 <= v <= 0x207 ∧ Z.testbit (ris s') (Z.of_nat n) = true.
Proof.
  intros Hn Hs Hm Hl. destruct (adc_sample_ok n s sp Hn Hs Hm Hl) as (s' & v & Hr & Hs' & Hrest).
  exists s', v. split; [|done]. unfold stellaris_adc_trigger.
  set (g := λ i : nat, if decide (i ≤ n)%nat then s else s').
  assert (s = g 0%nat) as Hg0 by (unfold g; by rewrite decide_True by lia).
  rewrite Hg0 at 1. rewrite (for_upto_spec _ g); unfold g; clear Hg0 g.
  - change (Z.to_nat 4) with 4%nat. by rewrite decide_False by lia.
  - intros j Hj. change (Z.to_nat 4) with 4%nat in Hj.
    assert (∀ s0, samples_alone n s0 → (Z.land (actss s0) (Z.shiftl 1 (Z.of_nat j)) =? 0) = negb (Z.of_nat j =? Z.of_nat n)) as Hact.
    { intros s0 Hs0. rewrite (sa_active _ _ Hs0), <- (testbit_bit (Z.of_nat n)), <- truth_land_bit by lia.
      unfold truth. by rewrite negb_involutive. }
    destruct (decide (j = n)) as [->|Hne].
    + rewrite decide_True, decide_False by lia. rewrite Hact, Z.eqb_refl by done. cbn [negb].
      rewrite (sa_timer _ _ Hs). exact Hr.
    + destruct (decide (j ≤ n)%nat) as [Hle|Hle].
      * rewrite decide_True by lia. rewrite Hact by done. by rewrite (proj2 (Z.eqb_neq _ _)) by lia.
      * rewrite decide_False by lia. rewrite Hact by done. by rewrite (proj2 (Z.eqb_neq _ _)) by lia.
Qed.

(** A pulse of a timer's trigger output is sampled twice: the input of the
    converter does not look at its level, so that both edges of the pulse put a sample
    into the FIFO of the sequencer that waits for it. *)
Theorem adc_pulse_samples_twice (n : nat) s sp :
  (n < 4)%nat → samples_alone n s → seq_match n s sp → (length (waiting sp) < 15)%nat →
  ∃ s' v1 v2, adc_pulse s = Ok s' ∧ 0x200 <= v1 <= 0x207 ∧ 0x200 <= v2 <= 0x207 ∧
    seq_match n s' (mkSeq (waiting sp ++ [v1; v2]) (taken sp) (overflow sp) (underflow sp)) ∧
    Z.testbit (ris s') (Z.of_nat n) = true.
Proof.
  intros Hn Hs Hm Hl. destruct (adc_trigger_ok n 1 s sp Hn Hs Hm ltac:(lia)) as (s1 & v1 & H1 & Hs1 & Hm1 & Hv1 & _).
  destruct (adc_trigger_ok n 0 s1 _ Hn Hs1 Hm1) as (s2 & v2 & H2 & _ & Hm2 & Hv2 & Hr2).
  { cbn [waiting]. rewrite length_app. cbn. lia. }
  exists s2, v1, v2. unfold adc_pulse. rewrite H1. cbn [mbind res_bind]. split; [done|]. split; [done|]. split; [done|].
  split; [|done]. cbn [waiting] in Hm2. by rewrite <- app_assoc in Hm2.
Qed.

Definition adc_sampling : stellaris_adc_state :=
  mkAdc 1 0 1 5 0 0 0 0 (replicate 4 (mkFifo STELLARIS_ADC_FIFO_EMPTY (replicate 16 0))) (replicate 4 0) (replicate 4 0) 0 (replicate 4 0).

Lemma adc_pulse_samples_twice_witness :
  ∃ s' v1 v2, adc_pulse adc_sampling = Ok s' ∧ seq_match 0 s' (mkSeq [v1; v2] 0 false false).
Proof.
  destruct (adc_pulse_samples_twice 0 adc_sampling (mkSeq [] 0 false false)) as (s' & v1 & v2 & H & _ & _ & Hm & _).
  - lia.
  - by constructor.
  - destruct (adc_started_match 0 ltac:(lia)) as [M1 M2 M3 M4]. by constructor.
  - cbn. lia.
  - exists s', v1, v2. split; [exact H|exact Hm].
Defined.
