(* ===== verification/Gic.v ===== *)
(** * Gic: the interrupt controller of the ARMv7-M boards (hw/arm_gic.c)

    The file is compiled into hw/armv7m_nvic.c with one CPU, 96 interrupts of which
    the first 32 are internal, and without the registers of the CPU interface; this
    is the controller of the Stellaris boards.  A one-bit field is a [bool], the CPU's
    interrupt line is part of the state. *)

From S2P Require Import Prelude.
Local Open Scope Z_scope.

Definition GIC_NIRQ : Z := 96.
Definition GIC_BASE_IRQ : Z := 32.
Definition gic_id : list Z := [0x00; 0xb0; 0x1b; 0x00; 0x0d; 0xe0; 0x05; 0xb1].

(** No interrupt. *)
Definition NO_IRQ : Z := 1023.

Record gic_irq_state := mkIrq {
  i_enabled : bool;
  i_pending : bool;
  i_active : bool;
  i_level : bool;
  i_model : bool;
  i_trigger : bool;
}.

Record gic_state := mkGic {
  g_enabled : bool;
  cpu_enabled : bool;
  irq_state : list gic_irq_state;
  priority1 : list Z;
  priority2 : list Z;
  last_active : list Z;
  priority_mask : Z;
  running_irq : Z;
  running_priority : Z;
  current_pending : Z;
  parent_irq : Z;
}.

Definition set_enabled (b : bool) (i : gic_irq_state) : gic_irq_state :=
  mkIrq b (i_pending i) (i_active i) (i_level i) (i_model i) (i_trigger i).
Definition set_pending (b : bool) (i : gic_irq_state) : gic_irq_state :=
  mkIrq (i_enabled i) b (i_active i) (i_level i) (i_model i) (i_trigger i).
Definition set_level (b : bool) (i : gic_irq_state) : gic_irq_state :=
  mkIrq (i_enabled i) (i_pending i) (i_active i) b (i_model i) (i_trigger i).
Definition set_trigger (b : bool) (i : gic_irq_state) : gic_irq_state :=
  mkIrq (i_enabled i) (i_pending i) (i_active i) (i_level i) (i_model i) b.

Definition set_irqs (s : gic_state) (l : list gic_irq_state) : gic_state :=
  mkGic (g_enabled s) (cpu_enabled s) l (priority1 s) (priority2 s) (last_active s) (priority_mask s)
    (running_irq s) (running_priority s) (current_pending s) (parent_irq s).
Definition set_priorities (s : gic_state) (p1 p2 : list Z) : gic_state :=
  mkGic (g_enabled s) (cpu_enabled s) (irq_state s) p1 p2 (last_active s) (priority_mask s)
    (running_irq s) (running_priority s) (current_pending s) (parent_irq s).
Definition set_last_active (s : gic_state) (l : list Z) : gic_state :=
  mkGic (g_enabled s) (cpu_enabled s) (irq_state s) (priority1 s) (priority2 s) l (priority_mask s)
    (running_irq s) (running_priority s) (current_pending s) (parent_irq s).
Definition set_running (s : gic_state) (irq prio : Z) : gic_state :=
  mkGic (g_enabled s) (cpu_enabled s) (irq_state s) (priority1 s) (priority2 s) (last_active s) (priority_mask s)
    irq prio (current_pending s) (parent_irq s).
Definition set_outputs (s : gic_state) (cur line : Z) : gic_state :=
  mkGic (g_enabled s) (cpu_enabled s) (irq_state s) (priority1 s) (priority2 s) (last_active s) (priority_mask s)
    (running_irq s) (running_priority s) cur line.

Definition gic_irq (s : gic_state) (irq : Z) : res gic_irq_state := aread (irq_state s) irq.

(** The macros that set a field of interrupt [irq]. *)
Definition gic_change (f : gic_irq_state → gic_irq_state) (irq : Z) (s : gic_state) : res gic_state :=
  i ← gic_irq s irq; l ← awrite (irq_state s) irq (f i); Ok (set_irqs s l).

Definition GIC_GET_PRIORITY (s : gic_state) (irq : Z) : res Z :=
  if irq <? 32 then aread (priority1 s) irq else aread (priority2 s) (irq - 32).

(** ** Operations *)

(** The body of the search for the best interrupt. *)
Definition gic_consider (s : gic_state) (irq : Z) '((best_prio, best_irq) : Z * Z) : res (Z * Z) :=
  i ← gic_irq s irq;
  if i_enabled i && i_pending i then
    p ← GIC_GET_PRIORITY s irq;
    Ok (if p <? best_prio then (p, irq) else (best_prio, best_irq))
  else Ok (best_prio, best_irq).

Definition gic_update (s : gic_state) : res gic_state :=
  if negb (g_enabled s) || negb (cpu_enabled s) then Ok (set_outputs s NO_IRQ 0)
  else
    '(best_prio, best_irq) ← for_upto GIC_NIRQ (gic_consider s) (0x100, NO_IRQ);
    Ok (if best_prio <=? priority_mask s
        then set_outputs s best_irq (flag (best_prio <? running_priority s))
        else set_outputs s NO_IRQ 0).

Definition gic_set_pending_private (irq : Z) (s : gic_state) : res gic_state :=
  i ← gic_irq s irq;
  if i_pending i then Ok s else
  s ← gic_change (set_pending true) irq s;
  gic_update s.

Definition gic_set_irq (irq level : Z) (s : gic_state) : res gic_state :=
  let irq := irq + 32 in
  i ← gic_irq s irq;
  if level =? flag (i_level i) then Ok s else
  s ← (if truth level then
         s ← gic_change (set_level true) irq s;
         if i_trigger i || i_enabled i then gic_change (set_pending true) irq s else Ok s
       else gic_change (set_level false) irq s);
  gic_update s.

Definition gic_set_running_irq (irq : Z) (s : gic_state) : res gic_state :=
  p ← (if irq =? NO_IRQ then Ok 0x100 else GIC_GET_PRIORITY s irq);
  gic_update (set_running s irq p).

Definition gic_acknowledge_irq (s : gic_state) : res (Z * gic_state) :=
  let new_irq := current_pending s in
  if new_irq =? NO_IRQ then Ok (NO_IRQ, s) else
  p ← GIC_GET_PRIORITY s new_irq;
  if running_priority s <=? p then Ok (NO_IRQ, s) else
  l ← awrite (last_active s) new_irq (running_irq s);
  s ← gic_change (set_pending false) new_irq (set_last_active s l);
  s ← gic_set_running_irq new_irq s;
  Ok (new_irq, s).

(** The loop that takes an interrupt out of the chain of active ones. *)
Fixpoint gic_unlink (fuel : nat) (tmp irq : Z) (l : list Z) : res (list Z) :=
  match fuel with
  | O => Err Out_of_fuel
  | S fuel =>
      next ← aread l tmp;
      if next =? NO_IRQ then Ok l
      else if next =? irq then after ← aread l irq; awrite l tmp after
      else gic_unlink fuel next irq l
  end.

Definition gic_complete_irq (fuel : nat) (irq : Z) (s : gic_state) : res gic_state :=
  if running_irq s =? NO_IRQ then Ok s else
  '(update, s) ←
    (if negb (irq =? NO_IRQ) then
       i ← gic_irq s irq;
       if negb (i_trigger i) && i_enabled i && i_level i
       then s ← gic_change (set_pending true) irq s; Ok (true, s) else Ok (false, s)
     else Ok (false, s));
  if negb (irq =? running_irq s) then
    l ← gic_unlink fuel (running_irq s) irq (last_active s);
    let s := set_last_active s l in
    if update : bool then gic_update s else Ok s
  else
    next ← aread (last_active s) (running_irq s);
    gic_set_running_irq next s.

(** The bits of a byte that the 8 interrupts from [irq] on set. *)
Definition gic_bits (f : gic_irq_state → bool) (irq : Z) (s : gic_state) : res Z :=
  for_upto 8 (λ i acc, st ← gic_irq s (irq + i); Ok (if f st then Z.lor acc (Z.shiftl 1 i) else acc)) 0.

Definition gic_dist_readb (offset : Z) (s : gic_state) : res Z :=
  if offset <? 0x100 then Err Hw_error
  else if offset <? 0x200 then
    let irq := (if offset <? 0x180 then (offset - 0x100) * 8 else (offset - 0x180) * 8) + GIC_BASE_IRQ in
    if GIC_NIRQ <=? irq then Err Hw_error else gic_bits i_enabled irq s
  else if offset <? 0x300 then
    let irq := (if offset <? 0x280 then (offset - 0x200) * 8 else (offset - 0x280) * 8) + GIC_BASE_IRQ in
    if GIC_NIRQ <=? irq then Err Hw_error else gic_bits i_pending irq s
  else if offset <? 0x400 then
    let irq := (offset - 0x300) * 8 + GIC_BASE_IRQ in
    if GIC_NIRQ <=? irq then Err Hw_error else gic_bits i_active irq s
  else if offset <? 0x800 then
    let irq := (offset - 0x400) + GIC_BASE_IRQ in
    if GIC_NIRQ <=? irq then Err Hw_error else p ← GIC_GET_PRIORITY s irq; Ok (u32 p)
  else if offset <? 0xfe0 then Err Hw_error
  else if truth (Z.land offset 3) then Ok 0
  else aread gic_id (Z.shiftr (offset - 0xfe0) 2).

Definition gic_dist_readw (offset : Z) (s : gic_state) : res Z :=
  a ← gic_dist_readb offset s; b ← gic_dist_readb (offset + 1) s; Ok (Z.lor a (u32 (Z.shiftl b 8))).

(** A change of those of the 8 interrupts from [irq] on whose bit is set. *)
Definition gic_change_bits (f : gic_irq_state → gic_irq_state) (irq value : Z) (s : gic_state) : res gic_state :=
  for_upto 8 (λ i s, if truth (Z.land value (Z.shiftl 1 i)) then gic_change f (irq + i) s else Ok s) s.

(** Enabling an interrupt whose level is raised makes it pending. *)
Definition enable_irq (i : gic_irq_state) : gic_irq_state :=
  let i := set_enabled true i in
  if i_level i && negb (i_trigger i) then set_pending true i else i.

Definition gic_dist_writeb (offset value : Z) (s : gic_state) : res gic_state :=
  s ← (if offset <? 0x100 then Err Hw_error
       else if offset <? 0x180 then
         let irq := (offset - 0x100) * 8 + GIC_BASE_IRQ in
         if GIC_NIRQ <=? irq then Err Hw_error else gic_change_bits enable_irq irq value s
       else if offset <? 0x200 then
         let irq := (offset - 0x180) * 8 + GIC_BASE_IRQ in
         if GIC_NIRQ <=? irq then Err Hw_error else gic_change_bits (set_enabled false) irq value s
       else if offset <? 0x280 then
         let irq := (offset - 0x200) * 8 + GIC_BASE_IRQ in
         if GIC_NIRQ <=? irq then Err Hw_error else gic_change_bits (set_pending true) irq value s
       else if offset <? 0x300 then
         let irq := (offset - 0x280) * 8 + GIC_BASE_IRQ in
         if GIC_NIRQ <=? irq then Err Hw_error else gic_change_bits (set_pending false) irq value s
       else if offset <? 0x400 then Err Hw_error
       else if offset <? 0x800 then
         let irq := (offset - 0x400) + GIC_BASE_IRQ in
         if GIC_NIRQ <=? irq then Err Hw_error
         else if irq <? 32 then p ← awrite (priority1 s) irq value; Ok (set_priorities s p (priority2 s))
         else p ← awrite (priority2 s) (irq - 32) value; Ok (set_priorities s (priority1 s) p)
       else Err Hw_error);
  gic_update s.

Definition gic_dist_writew (offset value : Z) (s : gic_state) : res gic_state :=
  s ← gic_dist_writeb offset (Z.land value 0xff) s; gic_dist_writeb (offset + 1) (Z.shiftr value 8) s.

Definition gic_reset (s : gic_state) : res gic_state :=
  let s := mkGic (g_enabled s) true (replicate 96 (mkIrq false false false false false false)) (priority1 s) (priority2 s)
             (last_active s) 0xf0 NO_IRQ 0x100 NO_IRQ (parent_irq s) in
  s ← for_upto 16 (λ i s, gic_change (λ st, set_trigger true (set_enabled true st)) i s) s;
  Ok (mkGic true (cpu_enabled s) (irq_state s) (priority1 s) (priority2 s) (last_active s) (priority_mask s)
        (running_irq s) (running_priority s) (current_pending s) (parent_irq s)).

Definition gic_zero : gic_state :=
  mkGic false false (replicate 96 (mkIrq false false false false false false)) (replicate 32 0) (replicate 64 0)
    (replicate 96 0) 0 0 0 0 0.

Definition gic_init : res gic_state := gic_reset gic_zero.
