(* ===== verification/GicFacts.v ===== *)
(** * GicFacts: selection and nesting of interrupts

    [gic_update] selects the pending enabled interrupt of the best priority; the
    interrupts that were acknowledged and not yet completed form a stack, threaded
    through [last_active], as long as priorities do not change under it. *)

From stdpp Require Import sorting.
From S2P Require Import Prelude Gic.
Local Open Scope Z_scope.

Record gic_wf (s : gic_state) : Prop := {
  wf_irqs : length (irq_state s) = 96%nat;
  wf_prio1 : length (priority1 s) = 32%nat;
  wf_prio2 : length (priority2 s) = 64%nat;
  wf_last : length (last_active s) = 96%nat;
  wf_mask : priority_mask s < 0x100;
  wf_on : g_enabled s && cpu_enabled s = true;   (* always, in this build *)
}.

Definition is_irq (irq : Z) : Prop := 0 <= irq < 96.

Definition prio_of (s : gic_state) (irq : Z) : Z :=
  if irq <? 32 then priority1 s !!! Z.to_nat irq else priority2 s !!! Z.to_nat (irq - 32).

(** Interrupt [irq] is enabled and pending. *)
Definition wants (s : gic_state) (irq : Z) : bool :=
  match irq_state s !! Z.to_nat irq with Some i => i_enabled i && i_pending i | None => false end.

Lemma aread_total {A} `{Inhabited A} (l : list A) i : 0 <= i < Z.of_nat (length l) → aread l i = Ok (l !!! Z.to_nat i).
Proof.
  intros Hi. apply aread_lookup. split; [lia|]. apply list_lookup_lookup_total_lt. lia.
Qed.
Lemma get_priority_ok s irq : gic_wf s → is_irq irq → GIC_GET_PRIORITY s irq = Ok (prio_of s irq).
Proof.
  intros [? H1 H2 _ _ _] [??]. unfold GIC_GET_PRIORITY, prio_of.
  destruct (Z.ltb_spec irq 32); apply aread_total; lia.
Qed.
Lemma gic_irq_ok s irq : gic_wf s → is_irq irq → ∃ i, irq_state s !! Z.to_nat irq = Some i ∧ gic_irq s irq = Ok i.
Proof.
  intros W [??]. destruct (aread_in (irq_state s) irq) as [i Hi]; [rewrite (wf_irqs s W); lia|].
  exists i. split; [|done]. by apply aread_lookup in Hi as [_ ?].
Qed.

(** ** Selection *)

(** The best of the first [n] interrupts. *)
Fixpoint best_of (s : gic_state) (n : nat) : Z * Z :=
  match n with
  | O => (0x100, NO_IRQ)
  | S n =>
      let '(p, i) := best_of s n in
      if wants s (Z.of_nat n) && (prio_of s (Z.of_nat n) <? p) then (prio_of s (Z.of_nat n), Z.of_nat n) else (p, i)
  end.

Lemma search_ok s : gic_wf s → for_upto GIC_NIRQ (gic_consider s) (0x100, NO_IRQ) = Ok (best_of s 96).
Proof.
  intros W. change (0x100, NO_IRQ) with (best_of s 0). apply (for_upto_spec _ (best_of s)). intros j Hj.
  change (Z.to_nat GIC_NIRQ) with 96%nat in Hj. cbn [best_of]. destruct (best_of s j) as [p i]. unfold gic_consider.
  assert (is_irq (Z.of_nat j)) as Hr by (unfold is_irq; lia).
  destruct (gic_irq_ok s _ W Hr) as (st & Hst & ->). cbn [mbind res_bind]. unfold wants. rewrite Hst.
  destruct (i_enabled st && i_pending st); [|done]. rewrite get_priority_ok by done. cbn [mbind res_bind andb].
  by destruct (_ <? p).
Qed.

Lemma best_of_spec s n :
  let '(p, i) := best_of s n in
  (∀ j, 0 <= j < Z.of_nat n → wants s j = true → p <= prio_of s j) ∧
  (i = NO_IRQ ∧ p = 0x100 ∨
   0 <= i < Z.of_nat n ∧ wants s i = true ∧ p = prio_of s i ∧ p < 0x100 ∧
   ∀ j, 0 <= j < i → wants s j = true → p < prio_of s j).
Proof.
  induction n as [|n IH]; cbn [best_of]; [split; [lia|by left]|].
  destruct (best_of s n) as [p i]. destruct IH as [Hmin Hsel].
  destruct (wants s (Z.of_nat n)) eqn:Hw; cbn [andb].
  - destruct (Z.ltb_spec (prio_of s (Z.of_nat n)) p) as [Hlt|Hge].
    + split.
      * intros j Hj Hwj. destruct (decide (j = Z.of_nat n)) as [->|]; [lia|]. specialize (Hmin j ltac:(lia) Hwj). lia.
      * right. split_and!; [lia|lia|done|done| |].
        -- destruct Hsel as [[_ ->]|(_ & _ & _ & ? & _)]; lia.
        -- intros j Hj Hwj. specialize (Hmin j ltac:(lia) Hwj). lia.
    + split.
      * intros j Hj Hwj. destruct (decide (j = Z.of_nat n)) as [->|]; [lia|]. apply Hmin; [lia|done].
      * destruct Hsel as [?|(? & ?)]; [by left|]. right. split; [lia|done].
  - split.
    + intros j Hj Hwj. destruct (decide (j = Z.of_nat n)) as [->|]; [congruence|]. apply Hmin; [lia|done].
    + destruct Hsel as [?|(? & ?)]; [by left|]. right. split; [lia|done].
Qed.

(** Interrupt [irq] is the one to deliver: it is enabled and pending, its priority
    passes the mask, and no other has a better priority, nor the same with a lower
    number. *)
Definition selected (s : gic_state) (irq : Z) : Prop :=
  is_irq irq ∧ wants s irq = true ∧ prio_of s irq <= priority_mask s ∧
  ∀ j, is_irq j → wants s j = true → prio_of s irq < prio_of s j ∨ prio_of s irq = prio_of s j ∧ irq <= j.

Definition update_spec (s : gic_state) (cur line : Z) : Prop :=
  if g_enabled s && cpu_enabled s then
    (selected s cur ∧ line = flag (prio_of s cur <? running_priority s)) ∨
    (cur = NO_IRQ ∧ line = 0 ∧ ∀ j, is_irq j → wants s j = true → priority_mask s < prio_of s j)
  else cur = NO_IRQ ∧ line = 0.

Lemma gic_update_ok s :
  gic_wf s → ∃ cur line, gic_update s = Ok (set_outputs s cur line) ∧ update_spec s cur line.
Proof.
  intros W. unfold gic_update, update_spec. destruct (g_enabled s), (cpu_enabled s); cbn [negb orb andb]; [|eauto..].
  rewrite search_ok by done. cbn [mbind res_bind]. pose proof (best_of_spec s 96) as H. destruct (best_of s 96) as [p i].
  destruct H as [Hmin Hsel]. pose proof (wf_mask s W). change (Z.of_nat 96) with 96 in *. destruct (Z.leb_spec p (priority_mask s)) as [Hle|Hgt].
  - destruct Hsel as [[_ ->]|(Hi & Hw & -> & _ & Hlow)]; [lia|]. eexists _, _. split; [done|]. left. split; [|done].
    split; [done|]. split; [done|]. split; [done|]. intros j Hj Hwj. specialize (Hmin j Hj Hwj).
    destruct (Z.lt_ge_cases j i) as [Hlt|]; [|lia]. specialize (Hlow j ltac:(unfold is_irq in *; lia) Hwj). lia.
  - eexists _, _. split; [done|]. right. split; [done|]. split; [done|]. intros j Hj Hwj. specialize (Hmin j Hj Hwj). lia.
Qed.

(** ** What the operations change *)

(** Only the fields of the interrupts differ. *)
Definition irqs_changed (s s' : gic_state) : Prop := ∃ l, s' = set_irqs s l ∧ length l = 96%nat.

Lemma irqs_changed_refl s : gic_wf s → irqs_changed s s.
Proof. intros W. exists (irq_state s). split; [by destruct s|apply W]. Qed.
Lemma irqs_changed_trans s1 s2 s3 : irqs_changed s1 s2 → irqs_changed s2 s3 → irqs_changed s1 s3.
Proof. intros (l1 & -> & H1) (l2 & -> & H2). by exists l2. Qed.
Lemma irqs_changed_wf s s' : gic_wf s → irqs_changed s s' → gic_wf s'.
Proof. intros [] (l & -> & ?). by constructor. Qed.
#[local] Hint Resolve irqs_changed_refl irqs_changed_wf : varsim.

Lemma gic_change_ok f irq s : gic_wf s → is_irq irq → ∃ s', gic_change f irq s = Ok s' ∧ irqs_changed s s'.
Proof.
  intros W Hr. unfold gic_change. destruct (gic_irq_ok s irq W Hr) as (i & Hi & ->). cbn [mbind res_bind].
  rewrite awrite_in by (rewrite (wf_irqs s W); apply Hr). cbn [mbind res_bind]. eexists. split; [done|].
  eexists. split; [done|]. rewrite length_insert. apply W.
Qed.
Lemma gic_change_bits_ok f irq v s :
  gic_wf s → 0 <= irq → irq + 7 < 96 → ∃ s', gic_change_bits f irq v s = Ok s' ∧ irqs_changed s s'.
Proof.
  intros W H0 H7. unfold gic_change_bits. apply for_upto_inv; [|auto with varsim]. intros j s1 Hj H1.
  change (Z.to_nat 8) with 8%nat in Hj. destruct (truth _); [|by exists s1].
  destruct (gic_change_ok f (irq + Z.of_nat j) s1) as (s2 & Hc & H2); [eauto with varsim|unfold is_irq; lia|].
  exists s2. split; [done|]. by eapply irqs_changed_trans.
Qed.

(** The events of the controller: an input line changes, the processor raises an
    exception, acknowledges and completes an interrupt, the guest writes a byte
    register. *)
Inductive gic_event :=
| Line (irq level : Z)
| Pend (irq : Z)
| Ack
| Complete (irq : Z)
| Store (offset value : Z).

Definition gic_step (fuel : nat) (ev : gic_event) (s : gic_state) : res (Z * gic_state) :=
  match ev with
  | Line irq level => s ← gic_set_irq irq level s; Ok (NO_IRQ, s)
  | Pend irq => s ← gic_set_pending_private irq s; Ok (NO_IRQ, s)
  | Ack => gic_acknowledge_irq s
  | Complete irq => s ← gic_complete_irq fuel irq s; Ok (NO_IRQ, s)
  | Store offset value => s ← gic_dist_writeb offset value s; Ok (NO_IRQ, s)
  end.

(** The answers of the acknowledgements (no interrupt for the other events). *)
Fixpoint gic_run (fuel : nat) (evs : list gic_event) (s : gic_state) : res (list Z * gic_state) :=
  match evs with
  | [] => Ok ([], s)
  | ev :: evs => '(o, s) ← gic_step fuel ev s; '(os, s) ← gic_run fuel evs s; Ok (o :: os, s)
  end.

(** A byte register that exists: enable, disable, set and clear pending, priority. *)
Definition flag_register (offset : Z) : bool :=
  (0x100 <=? offset) && (offset <? 0x300) && (Z.land offset 0x7f <? 8).
Definition priority_register (offset : Z) : bool := (0x400 <=? offset) && (offset <? 0x440).

Definition gic_event_ok (ev : gic_event) : Prop :=
  match ev with
  | Line irq _ => 0 <= irq < 64
  | Pend irq | Complete irq => is_irq irq
  | Ack => True
  | Store offset _ => flag_register offset || priority_register offset = true
  end.

(** ** Every operation is safe and leaves the outputs right *)

Definition link (irq : Z) : Prop := irq = NO_IRQ ∨ is_irq irq.

Record gic_inv (s : gic_state) : Prop := {
  inv_wf : gic_wf s;
  inv_links : Forall link (last_active s);
  inv_running : link (running_irq s);
  inv_outputs : update_spec s (current_pending s) (parent_irq s);
}.

(** The interrupts in service and the priorities are the same. *)
Record quiet (s s' : gic_state) : Prop := {
  q_last : last_active s' = last_active s;
  q_running : running_irq s' = running_irq s;
  q_running_prio : running_priority s' = running_priority s;
  q_prio1 : priority1 s' = priority1 s;
  q_prio2 : priority2 s' = priority2 s;
}.
Lemma quiet_refl s : quiet s s.
Proof. by constructor. Qed.
Lemma irqs_changed_quiet s s' : irqs_changed s s' → quiet s s'.
Proof. by intros (l & -> & _). Qed.
#[local] Hint Resolve quiet_refl irqs_changed_quiet : varsim.

Lemma gic_update_inv s :
  gic_wf s → Forall link (last_active s) → link (running_irq s) →
  ∃ s', gic_update s = Ok s' ∧ gic_inv s' ∧ quiet s s'.
Proof.
  intros W Hl Hr. destruct (gic_update_ok s W) as (c & o & -> & Hs). eexists. split; [done|].
  split; [|by constructor]. constructor; [by destruct W; constructor|done|done|exact Hs].
Qed.
Lemma update_after_change s s1 :
  gic_inv s → irqs_changed s s1 → ∃ s', gic_update s1 = Ok s' ∧ gic_inv s' ∧ quiet s s'.
Proof.
  intros [W L R _] Hc. destruct (gic_update_inv s1) as (s' & Hu & Hi & Hq).
  - by eapply irqs_changed_wf.
  - by destruct Hc as (l & -> & _).
  - by destruct Hc as (l & -> & _).
  - exists s'. split; [done|]. split; [done|]. destruct Hc as (l & -> & _). by destruct Hq.
Qed.

Lemma set_irq_ok irq level s :
  gic_inv s → 0 <= irq < 64 → ∃ s', gic_set_irq irq level s = Ok s' ∧ gic_inv s' ∧ quiet s s'.
Proof.
  intros I Hr. pose proof (inv_wf s I) as W. assert (is_irq (irq + 32)) as Hi by (unfold is_irq; lia).
  unfold gic_set_irq. destruct (gic_irq_ok s _ W Hi) as (i & _ & ->). cbn [mbind res_bind].
  destruct (level =? _); [exists s; auto with varsim|]. destruct (truth level).
  - destruct (gic_change_ok (set_level true) _ s W Hi) as (s1 & -> & H1). cbn [mbind res_bind].
    destruct (i_trigger i || i_enabled i); [|by apply update_after_change].
    destruct (gic_change_ok (set_pending true) (irq + 32) s1) as (s2 & -> & H2); [eauto with varsim|done|].
    apply update_after_change; [done|]. by eapply irqs_changed_trans.
  - destruct (gic_change_ok (set_level false) _ s W Hi) as (s1 & -> & H1). by apply update_after_change.
Qed.
Lemma pend_ok irq s :
  gic_inv s → is_irq irq → ∃ s', gic_set_pending_private irq s = Ok s' ∧ gic_inv s' ∧ quiet s s'.
Proof.
  intros I Hr. pose proof (inv_wf s I) as W. unfold gic_set_pending_private.
  destruct (gic_irq_ok s _ W Hr) as (i & _ & ->). cbn [mbind res_bind]. destruct (i_pending i); [exists s; auto with varsim|].
  destruct (gic_change_ok (set_pending true) irq s W Hr) as (s1 & -> & H1). by apply update_after_change.
Qed.

Lemma flag_register_irq offset :
  flag_register offset = true →
  ∃ base, base ∈ [0x100; 0x180; 0x200; 0x280] ∧ base <= offset < base + 8.
Proof.
  unfold flag_register. intros H. bool_to_prop. change 0x7f with (2 ^ 7 - 1) in *. rewrite land_mod in * by lia.
  change (2 ^ 7) with 128 in *. pose proof (Z.div_mod offset 128 ltac:(lia)).
  assert (2 <= offset / 128 < 6) as Hq by (split; [apply Z.div_le_lower_bound; lia|apply Z.div_lt_upper_bound; lia]).
  pose proof (Z.mod_pos_bound offset 128 ltac:(lia)).
  exists (128 * (offset / 128)). split; [|lia].
  assert (offset / 128 = 2 ∨ offset / 128 = 3 ∨ offset / 128 = 4 ∨ offset / 128 = 5) as Hc by lia.
  destruct Hc as [-> | [-> | [-> | ->]]]; set_solver.
Qed.
(** Decide the comparisons of [x] with the bounds of the register windows. *)
Ltac decide_ltb x :=
  repeat match goal with
  | |- context [x <? ?k] => rewrite (proj2 (Z.ltb_lt x k)) by lia
  | |- context [x <? ?k] => rewrite (proj2 (Z.ltb_ge x k)) by lia
  end.
Lemma store_flags_ok offset v s :
  gic_inv s → flag_register offset = true → ∃ s', gic_dist_writeb offset v s = Ok s' ∧ gic_inv s' ∧ quiet s s'.
Proof.
  intros I Hf. destruct (flag_register_irq offset Hf) as (base & Hb & Ho). unfold gic_dist_writeb, GIC_NIRQ, GIC_BASE_IRQ.
  rewrite !elem_of_cons, elem_of_nil in Hb. pose proof (inv_wf s I) as W.
  assert (∀ f, ∃ s1, gic_change_bits f ((offset - base) * 8 + 32) v s = Ok s1 ∧ irqs_changed s s1) as Hc
    by (intros f; apply gic_change_bits_ok; [done|lia|lia]).
  assert ((96 <=? (offset - base) * 8 + 32) = false) as Hlt by (apply Z.leb_gt; lia).
  destruct Hb as [-> | [-> | [-> | [-> | []]]]];
    decide_ltb offset; rewrite ?Hlt;
    (match goal with |- context [gic_change_bits ?f _ _ _] => destruct (Hc f) as (s1 & -> & H1) end);
    by apply update_after_change.
Qed.
Lemma store_priority_ok offset v s :
  gic_inv s → priority_register offset = true → ∃ s', gic_dist_writeb offset v s = Ok s' ∧ gic_inv s'.
Proof.
  intros [W L R _] Hp. unfold priority_register in Hp. bool_to_prop. unfold gic_dist_writeb, GIC_NIRQ, GIC_BASE_IRQ.
  decide_ltb offset.
  rewrite (proj2 (Z.leb_gt _ _)) by lia. rewrite (proj2 (Z.ltb_ge _ _)) by lia.
  rewrite awrite_in by (rewrite (wf_prio2 s W); lia). cbn [mbind res_bind].
  destruct (gic_update_inv (set_priorities s (priority1 s) (<[Z.to_nat (offset - 0x400 + 32 - 32) := v]> (priority2 s))))
    as (s' & Hu & Hi & _); [|done|done|by exists s'].
  destruct W. constructor; cbn; [done|done|by rewrite length_insert|done|done|done].
Qed.

Lemma update_spec_link s c o : update_spec s c o → link c.
Proof.
  unfold update_spec, link. destruct (_ && _); [|tauto]. intros [[[H _] _]|[H _]]; tauto.
Qed.
Lemma links_at s irq : gic_inv s → is_irq irq → ∃ x, aread (last_active s) irq = Ok x ∧ link x ∧ last_active s !! Z.to_nat irq = Some x.
Proof.
  intros I Hr. destruct (aread_in (last_active s) irq) as [x Hx]; [rewrite (wf_last s (inv_wf s I)); apply Hr|].
  exists x. split; [done|]. apply aread_lookup in Hx as [_ Hx]. split; [|done].
  pose proof (inv_links s I) as HL. rewrite Forall_lookup in HL. by eapply HL.
Qed.
Lemma awrite_links s irq x :
  gic_inv s → is_irq irq → link x →
  awrite (last_active s) irq x = Ok (<[Z.to_nat irq := x]> (last_active s)) ∧ Forall link (<[Z.to_nat irq := x]> (last_active s)).
Proof.
  intros I Hr Hx. split; [apply awrite_in; rewrite (wf_last s (inv_wf s I)); apply Hr|].
  apply Forall_insert; [apply I|done].
Qed.

(** What acknowledging interrupt [r] does to the interrupts in service. *)
Record entered (r : Z) (s s' : gic_state) : Prop := {
  en_selected : selected s r;
  en_better : prio_of s r < running_priority s;
  en_running : running_irq s' = r;
  en_prio : running_priority s' = prio_of s r;
  en_last : last_active s' = <[Z.to_nat r := running_irq s]> (last_active s);
  en_prio1 : priority1 s' = priority1 s;
  en_prio2 : priority2 s' = priority2 s;
}.

Lemma set_running_ok irq s :
  gic_wf s → Forall link (last_active s) → link irq →
  ∃ s', gic_set_running_irq irq s = Ok s' ∧ gic_inv s' ∧ last_active s' = last_active s ∧ running_irq s' = irq ∧
    running_priority s' = (if irq =? NO_IRQ then 0x100 else prio_of s irq) ∧ priority1 s' = priority1 s ∧ priority2 s' = priority2 s.
Proof.
  intros W L Hr. unfold gic_set_running_irq.
  assert ((if irq =? NO_IRQ then Ok 0x100 else GIC_GET_PRIORITY s irq) = Ok (if irq =? NO_IRQ then 0x100 else prio_of s irq)) as ->.
  { destruct Hr as [->|Hr]; [done|]. rewrite get_priority_ok by done. by destruct (irq =? NO_IRQ). }
  cbn [mbind res_bind]. set (s1 := set_running s _ _).
  destruct (gic_update_inv s1) as (s' & Hu & Hi & Hq); [by destruct W; constructor|done|done|].
  exists s'. destruct Hq. done.
Qed.

Lemma ack_ok s :
  gic_inv s → ∃ r s', gic_acknowledge_irq s = Ok (r, s') ∧ gic_inv s' ∧
    (r = NO_IRQ ∧ s' = s ∧ parent_irq s = 0 ∨ r ≠ NO_IRQ ∧ r = current_pending s ∧ entered r s s').
Proof.
  intros I. pose proof I as [W L R O]. unfold gic_acknowledge_irq.
  destruct (Z.eqb_spec (current_pending s) NO_IRQ) as [E|E].
  { exists NO_IRQ, s. split; [done|]. split; [done|]. left. split_and!; [done|done|]. revert O. unfold update_spec.
    rewrite (wf_on s W). intros [[[Hc _] _]|[_ [? _]]]; [|done]. rewrite E in Hc. unfold is_irq, NO_IRQ in Hc. lia. }
  pose proof (update_spec_link _ _ _ O) as [?|Hr]; [done|].
  assert (selected s (current_pending s) ∧ parent_irq s = flag (prio_of s (current_pending s) <? running_priority s)) as [Hsel Hline].
  { revert O. unfold update_spec. rewrite (wf_on s W). by intros [?|[? _]]. }
  rewrite get_priority_ok by done. cbn [mbind res_bind].
  destruct (Z.leb_spec (running_priority s) (prio_of s (current_pending s))) as [Hle|Hlt].
  { exists NO_IRQ, s. rewrite Hline, (proj2 (Z.ltb_ge _ _) Hle). by split_and!; [| |left]. }
  set (r := current_pending s) in *. destruct (awrite_links s r (running_irq s) I Hr R) as [-> HL]. cbn [mbind res_bind].
  set (s1 := set_last_active s _). assert (gic_wf s1) as W1.
  { destruct W. constructor; [done|done|done|cbn; by rewrite length_insert|done|done]. }
  destruct (gic_change_ok (set_pending false) r s1 W1 Hr) as (s2 & -> & l & -> & Hl). cbn [mbind res_bind].
  destruct (set_running_ok r (set_irqs s1 l)) as (s' & -> & I' & Hlast & Hrun & Hrp & Hp1 & Hp2);
    [by destruct W1; constructor|done|by right|]. cbn [mbind res_bind].
  exists r, s'. split; [done|]. split; [done|]. right. split; [done|]. split; [done|].
  rewrite (proj2 (Z.eqb_neq r NO_IRQ) E) in Hrp. by constructor.
Qed.

(** Completing an interrupt: its running successor is the next in service, and
    completing another one takes it out of the chain. *)
Lemma complete_cases fuel irq s :
  gic_inv s → is_irq irq → running_irq s ≠ NO_IRQ →
  match (if irq =? running_irq s then Ok (last_active s) else gic_unlink fuel (running_irq s) irq (last_active s)) with
  | Ok l =>
      length l = 96%nat → Forall link l →
      ∃ s', gic_complete_irq fuel irq s = Ok s' ∧ gic_inv s' ∧ last_active s' = l ∧
        running_irq s' = (if irq =? running_irq s then l !!! Z.to_nat (running_irq s) else running_irq s) ∧
        running_priority s' =
          (if irq =? running_irq s then if running_irq s' =? NO_IRQ then 0x100 else prio_of s (running_irq s')
           else running_priority s) ∧
        priority1 s' = priority1 s ∧ priority2 s' = priority2 s
  | Err e => gic_complete_irq fuel irq s = Err e
  end.
Proof.
  intros I Hr Hrun. pose proof I as [W L R O]. unfold gic_complete_irq.
  rewrite (proj2 (Z.eqb_neq _ _) Hrun). rewrite (proj2 (Z.eqb_neq irq NO_IRQ)) by (unfold is_irq, NO_IRQ in *; lia). cbn [negb].
  destruct (gic_irq_ok s irq W Hr) as (i & _ & ->). cbn [mbind res_bind].
  assert (∃ (upd : bool) s1, (if negb (i_trigger i) && i_enabled i && i_level i
     then s ← gic_change (set_pending true) irq s; Ok (true, s) else Ok (false, s)) = Ok (upd, s1) ∧
     irqs_changed s s1 ∧ (upd = false → s1 = s)) as (upd & s1 & -> & Hc & Hsame).
  { destruct (_ && _); [|exists false, s; auto with varsim].
    destruct (gic_change_ok (set_pending true) irq s W Hr) as (s1 & -> & H1). by exists true, s1. }
  cbn [mbind res_bind]. pose proof (irqs_changed_wf _ _ W Hc) as W1.
  destruct Hc as (li & Hs1 & Hli). assert (running_irq s1 = running_irq s ∧ last_active s1 = last_active s) as [-> ->] by by rewrite Hs1.
  destruct (Z.eqb_spec irq (running_irq s)) as [Heq|Hne]; cbn [negb].
  - intros _ _. destruct R as [?|R]; [done|]. destruct (links_at s _ I R) as (x & -> & Hx & Hlx). cbn [mbind res_bind].
    destruct (set_running_ok x s1 W1) as (s' & -> & I' & E1 & E2 & E3 & E4 & E5); [by rewrite Hs1|done|].
    exists s'. rewrite E1, E2, E3, E4, E5, (list_lookup_total_correct _ _ _ Hlx), Hs1. done.
  - destruct (gic_unlink fuel _ _ _) as [l|e]; cbn [mbind res_bind]; [|done]. intros Hl HL.
    assert (gic_wf (set_last_active s1 l)) as W2 by (destruct W1; by constructor).
    destruct upd.
    + destruct (gic_update_inv (set_last_active s1 l) W2) as (s' & Hu & Hi & Hq); [done|by rewrite Hs1|].
      exists s'. split; [exact Hu|]. split; [exact Hi|]. destruct Hq as [-> -> -> -> ->]. by rewrite Hs1.
    + rewrite (Hsame eq_refl). rewrite (Hsame eq_refl) in W2. eexists. split; [reflexivity|]. split; [|done]. by constructor.
Qed.

Lemma unlink_links fuel tmp irq l :
  length l = 96%nat → Forall link l → is_irq irq → is_irq tmp →
  match gic_unlink fuel tmp irq l with
  | Ok l' => length l' = 96%nat ∧ Forall link l'
  | Err e => e = Out_of_fuel
  end.
Proof.
  intros Hlen HL Hi. revert tmp. induction fuel as [|fuel IH]; intros tmp Ht; [done|]. cbn [gic_unlink].
  assert (∀ j, is_irq j → ∃ x, aread l j = Ok x ∧ link x) as Hread.
  { intros j Hj. destruct (aread_in l j) as [x Hx]; [unfold is_irq in Hj; lia|]. exists x. split; [done|].
    apply aread_lookup in Hx as [_ Hx]. rewrite Forall_lookup in HL. by eapply HL. }
  destruct (Hread tmp Ht) as (x & -> & Hx). cbn [mbind res_bind].
  destruct (Z.eqb_spec x NO_IRQ) as [|Hn]; [done|]. destruct (Z.eqb_spec x irq) as [->|].
  - destruct (Hread irq Hi) as (y & -> & Hy). cbn [mbind res_bind]. rewrite awrite_in by (unfold is_irq in Ht; lia).
    split; [by rewrite length_insert|by apply Forall_insert].
  - destruct Hx as [?|Hx]; [done|]. by apply IH.
Qed.

Lemma step_inv fuel ev s :
  gic_inv s → gic_event_ok ev →
  match gic_step fuel ev s with
  | Ok (_, s') => gic_inv s'
  | Err e => e = Out_of_fuel ∧ ∃ irq, ev = Complete irq
  end.
Proof.
  intros I Hev. destruct ev as [irq lv|irq| |irq|off v]; cbn [gic_step gic_event_ok] in *.
  - by destruct (set_irq_ok irq lv s I Hev) as (s' & -> & ? & _).
  - by destruct (pend_ok irq s I Hev) as (s' & -> & ? & _).
  - by destruct (ack_ok s I) as (r & s' & -> & ? & _).
  - destruct (Z.eqb_spec (running_irq s) NO_IRQ) as [E|E]; [unfold gic_complete_irq; rewrite E; done|].
    pose proof (complete_cases fuel irq s I Hev E) as H. pose proof I as [W L [?|R] O]; [done|].
    destruct (irq =? running_irq s).
    + destruct H as (s' & -> & ? & _); [apply W|done|done].
    + pose proof (unlink_links fuel (running_irq s) irq (last_active s) (wf_last s W) L Hev R) as HU.
      destruct (gic_unlink _ _ _ _) as [l|e].
      * destruct HU as [Hl HL]. by destruct (H Hl HL) as (s' & -> & ? & _).
      * rewrite H. cbn [mbind res_bind]. eauto.
  - destruct (flag_register off) eqn:Hf.
    + by destruct (store_flags_ok off v s I Hf) as (s' & -> & ? & _).
    + cbn [orb] in Hev. by destruct (store_priority_ok off v s I Hev) as (s' & -> & ?).
Qed.

Lemma run_inv fuel evs s :
  gic_inv s → Forall gic_event_ok evs →
  match gic_run fuel evs s with Ok (_, s') => gic_inv s' | Err e => e = Out_of_fuel end.
Proof.
  intros I Hev. revert s I. induction Hev as [|ev evs Hev _ IH]; intros s I; [done|]. cbn [gic_run].
  pose proof (step_inv fuel ev s I Hev) as H. destruct (gic_step fuel ev s) as [[o s1]|e]; cbn [mbind res_bind]; [|by destruct H].
  specialize (IH s1 H). by destruct (gic_run fuel evs s1) as [[os s2]|e].
Qed.

(** ** The interrupts in service form a stack *)

(** The interrupts from [irq] on, along the links. *)
Inductive chain (l : list Z) : Z → list Z → Prop :=
| chain_nil : chain l NO_IRQ []
| chain_cons irq next st :
    is_irq irq → l !! Z.to_nat irq = Some next → chain l next st → chain l irq (irq :: st).

Definition better (s : gic_state) (a b : Z) : Prop := prio_of s a < prio_of s b.

(** The interrupts [st] are in service, the running one first, each of a better
    priority than those below it. *)
Record nested (s : gic_state) (st : list Z) : Prop := {
  n_chain : chain (last_active s) (running_irq s) st;
  n_sorted : StronglySorted (better s) st;
  n_prio : running_priority s = match st with [] => 0x100 | irq :: _ => prio_of s irq end;
}.

Lemma chain_irqs l irq st : chain l irq st → Forall is_irq st.
Proof. induction 1; by constructor. Qed.
Lemma chain_head l irq st : chain l irq st → irq = default NO_IRQ (head st).
Proof. by destruct 1. Qed.
Lemma sorted_nodup s st : StronglySorted (better s) st → NoDup st.
Proof.
  induction 1 as [|irq st _ IH Hall]; constructor; [|done]. intros Hin. rewrite Forall_forall in Hall.
  specialize (Hall irq Hin). unfold better in Hall. lia.
Qed.
Lemma chain_ext l l' irq st :
  (∀ j, j ∈ st → l' !! Z.to_nat j = l !! Z.to_nat j) → chain l irq st → chain l' irq st.
Proof.
  intros H. induction 1 as [|irq next st Hi Hl _ IH]; [constructor|].
  econstructor; [done| |apply IH; set_solver]. rewrite H by set_solver. done.
Qed.

(** The interrupts [st] without [irq]. *)
Definition removed (irq : Z) (st : list Z) : list Z := filter (λ x, x ≠ irq) st.

Lemma removed_not_in irq st : irq ∉ st → removed irq st = st.
Proof.
  induction st as [|x st IH]; [done|]. intros H. unfold removed. rewrite filter_cons_True by set_solver.
  f_equal. apply IH. set_solver.
Qed.

(** The interrupt on top, which is better than all below, is removed alone. *)
Lemma removed_top (prio : Z → Z) r st : Forall (λ x, prio r < prio x) st → removed r (r :: st) = st.
Proof.
  intros Hall. unfold removed. rewrite filter_cons_False by naive_solver. apply removed_not_in. intros Hin.
  rewrite Forall_forall in Hall. specialize (Hall r Hin). lia.
Qed.

Lemma unlink_chain fuel l tmp irq st :
  chain l tmp (tmp :: st) → NoDup (tmp :: st) → irq ≠ tmp → length l = 96%nat → Forall link l → (length st < fuel)%nat →
  ∃ l', gic_unlink fuel tmp irq l = Ok l' ∧ chain l' tmp (tmp :: removed irq st) ∧
    (∀ j, 0 <= j → j ∉ tmp :: st → l' !! Z.to_nat j = l !! Z.to_nat j).
Proof.
  revert tmp st. induction fuel as [|fuel IH]; intros tmp st Hc Hnd Hne Hlen HL Hf; [lia|].
  inversion Hc as [|? next ? Hti Hl Hc']; subst. cbn [gic_unlink].
  assert (aread l tmp = Ok next) as -> by (apply aread_lookup; split; [apply Hti|done]). cbn [mbind res_bind].
  apply NoDup_cons in Hnd as [Hnt Hnd]. inversion Hc' as [|? next' st' Hi' Hl' Hc'']; subst.
  - exists l. done.
  - rewrite (proj2 (Z.eqb_neq next NO_IRQ)) by (unfold is_irq, NO_IRQ in *; lia).
    apply NoDup_cons in Hnd as [Hn' Hnd']. destruct (Z.eqb_spec next irq) as [->|Hneq].
    + assert (aread l irq = Ok next') as -> by (apply aread_lookup; split; [apply Hi'|done]). cbn [mbind res_bind].
      rewrite awrite_in by (unfold is_irq in Hti; lia). eexists. split; [done|]. split.
      * unfold removed. rewrite filter_cons_False by set_solver. fold (removed irq st'). rewrite removed_not_in by done.
        econstructor; [done|apply list_lookup_insert_eq; unfold is_irq in Hti; lia|].
        eapply chain_ext; [|exact Hc'']. intros j Hj. apply list_lookup_insert_ne.
        pose proof (chain_irqs _ _ _ Hc'') as Hf'. rewrite Forall_forall in Hf'. specialize (Hf' j Hj).
        assert (j ≠ tmp) by set_solver. unfold is_irq in *. lia.
      * intros j H0 Hj. apply list_lookup_insert_ne. assert (j ≠ tmp) by set_solver. unfold is_irq in *. lia.
    + destruct (IH next st') as (l' & Hu & Hch & Hout); [done|by apply NoDup_cons|done|done|done|cbn in Hf; lia|].
      exists l'. split; [done|]. split.
      * unfold removed. rewrite filter_cons_True by done. fold (removed irq st').
        econstructor; [done|rewrite Hout; [exact Hl|apply Hti|done]|done].
      * intros j H0 Hj. apply Hout; [done|set_solver].
Qed.

Lemma stack_size st : NoDup st → Forall is_irq st → (length st ≤ 96)%nat.
Proof.
  intros Hn Hi. transitivity (length (Z.of_nat <$> seq 0 96)); [|done]. apply submseteq_length, NoDup_submseteq; [done|].
  intros irq Hin. rewrite Forall_forall in Hi. specialize (Hi irq Hin). apply list_elem_of_fmap. exists (Z.to_nat irq).
  unfold is_irq in Hi. split; [lia|]. apply elem_of_seq. lia.
Qed.

(** One event of the stack of interrupts in service, with the answer of the code. *)
Inductive stack_step (prio : Z → Z) : gic_event → Z → list Z → list Z → Prop :=
| stack_line irq level st : stack_step prio (Line irq level) NO_IRQ st st
| stack_pend irq st : stack_step prio (Pend irq) NO_IRQ st st
| stack_store offset value st : stack_step prio (Store offset value) NO_IRQ st st
| stack_ack_none st : stack_step prio Ack NO_IRQ st st
| stack_ack r st : is_irq r → Forall (λ x, prio r < prio x) st → stack_step prio Ack r st (r :: st)
| stack_complete irq st : stack_step prio (Complete irq) NO_IRQ st (removed irq st).

Inductive stack_steps (prio : Z → Z) : list (gic_event * Z) → list Z → list Z → Prop :=
| stack_done st : stack_steps prio [] st st
| stack_next ev o tr st st1 st2 :
    stack_step prio ev o st st1 → stack_steps prio tr st1 st2 → stack_steps prio ((ev, o) :: tr) st st2.

(** The events that do not change priorities. *)
Definition stack_event (ev : gic_event) : Prop :=
  gic_event_ok ev ∧ match ev with Store offset _ => flag_register offset = true | _ => True end.

Lemma nested_quiet s s' st : quiet s s' → nested s st → nested s' st.
Proof.
  intros [Q1 Q2 Q3 Q4 Q5] [C S P]. constructor; unfold better, prio_of in *; rewrite ?Q1, ?Q2, ?Q3, ?Q4, ?Q5; done.
Qed.
Lemma quiet_prio s s' : quiet s s' → ∀ irq, prio_of s' irq = prio_of s irq.
Proof. intros [_ _ _ Q4 Q5] irq. unfold prio_of. by rewrite Q4, Q5. Qed.

Lemma nested_ack r s s' st :
  gic_inv s → nested s st → entered r s s' →
  nested s' (r :: st) ∧ Forall (λ x, prio_of s r < prio_of s x) st ∧ ∀ irq, prio_of s' irq = prio_of s irq.
Proof.
  intros I [C S P] [(Hr & _) Hb E1 E2 E3 E4 E5]. assert (∀ irq, prio_of s' irq = prio_of s irq) as Hp
    by (intros irq; unfold prio_of; by rewrite E4, E5).
  assert (Forall (λ x, prio_of s r < prio_of s x) st) as Hall.
  { destruct st as [|x st]; constructor; [lia|]. apply StronglySorted_inv in S as [_ S]. eapply Forall_impl; [exact S|].
    intros y Hy. unfold better in Hy. lia. }
  split; [|done]. constructor.
  - rewrite E1, E3. econstructor; [done| |].
    + apply list_lookup_insert_eq. rewrite (wf_last s (inv_wf s I)). unfold is_irq in Hr. lia.
    + eapply chain_ext; [|exact C]. intros j Hj. apply list_lookup_insert_ne. rewrite Forall_forall in Hall.
      specialize (Hall j Hj). pose proof (chain_irqs _ _ _ C) as Hf. rewrite Forall_forall in Hf. specialize (Hf j Hj).
      intros Heq. assert (r = j) as -> by (unfold is_irq in *; lia). lia.
  - constructor; [|by eapply Forall_impl; [exact Hall|]; intros x Hx; unfold better; rewrite !Hp].
    clear -S Hp. induction S as [|x st _ IH Hx]; constructor; [done|]. eapply Forall_impl; [exact Hx|]. intros y. unfold better. by rewrite !Hp.
  - by rewrite Hp.
Qed.

Lemma removed_sorted s irq st : StronglySorted (better s) st → StronglySorted (better s) (removed irq st).
Proof.
  induction 1 as [|x st _ IH Hx]; [constructor|]. unfold removed. rewrite filter_cons. case_decide; [|done].
  constructor; [done|]. rewrite Forall_forall in *. intros y Hy. apply Hx. by apply list_elem_of_filter in Hy as [_ ?].
Qed.

Lemma nested_complete fuel irq s st :
  (96 < fuel)%nat → gic_inv s → nested s st → is_irq irq →
  ∃ s', gic_complete_irq fuel irq s = Ok s' ∧ gic_inv s' ∧ nested s' (removed irq st) ∧ ∀ j, prio_of s' j = prio_of s j.
Proof.
  intros Hf I N Hi. pose proof N as [C S P]. destruct st as [|x st].
  { inversion C as [H|]. unfold gic_complete_irq. rewrite <- H. exists s. split; [done|]. done. }
  assert (running_irq s = x) as Hx by by inversion C. rewrite Hx in C.
  pose proof (sorted_nodup _ _ S) as Hnd. pose proof (chain_irqs _ _ _ C) as Hirqs.
  assert (running_irq s ≠ NO_IRQ) as Hrun by (apply Forall_inv in Hirqs; unfold is_irq, NO_IRQ in *; lia).
  pose proof (complete_cases fuel irq s I Hi Hrun) as H. pose proof I as [W L R O]. rewrite Hx in H.
  pose proof (stack_size _ Hnd Hirqs) as Hsz. cbn [length] in Hsz.
  pose proof (removed_sorted s irq _ S) as S'.
  assert (∀ s', priority1 s' = priority1 s → priority2 s' = priority2 s → ∀ j, prio_of s' j = prio_of s j) as Hpr
    by (intros s' E1 E2 j; unfold prio_of; by rewrite E1, E2).
  assert (∀ s' k, (∀ j, prio_of s' j = prio_of s j) → StronglySorted (better s) k → StronglySorted (better s') k) as Hsort.
  { intros s' k Hp. induction 1 as [|y k _ IHk Hy]; constructor; [done|]. eapply Forall_impl; [exact Hy|]. intros z. unfold better. by rewrite !Hp. }
  unfold removed in *. destruct (Z.eqb_spec irq x) as [->|Hne].
  - rewrite filter_cons_False in * by naive_solver. apply NoDup_cons in Hnd as [Hni _]. fold (removed x st) in *.
    rewrite removed_not_in in * by done. inversion C as [|? next ? Hxi Hlk C']; subst.
    destruct H as (s' & Hc & I' & E1 & E2 & E3 & E4 & E5); [apply W|done|]. exists s'. split; [done|]. split; [done|].
    pose proof (Hpr s' E4 E5) as Hp. split; [|done].
    rewrite (list_lookup_total_correct _ _ _ Hlk) in E2. constructor; [by rewrite E1, E2|by apply Hsort|].
    rewrite E3, E2. rewrite (chain_head _ _ _ C'). destruct st as [|y st]; [done|]. change (default NO_IRQ (head (y :: st))) with y.
    pose proof (chain_irqs _ _ _ C') as Hy. apply Forall_inv in Hy. rewrite (proj2 (Z.eqb_neq y NO_IRQ)) by (unfold is_irq, NO_IRQ in *; lia). by rewrite Hp.
  - rewrite filter_cons_True in * by done. fold (removed irq st) in *.
    destruct (unlink_chain fuel (last_active s) x irq st C Hnd Hne (wf_last s W) L ltac:(lia)) as (l' & Hu & Hch & _).
    rewrite Hu in H. pose proof (unlink_links fuel x irq (last_active s) (wf_last s W) L Hi (Forall_inv Hirqs)) as HU.
    rewrite Hu in HU. destruct HU as [Hl' HL']. destruct (H Hl' HL') as (s' & Hc & I' & E1 & E2 & E3 & E4 & E5).
    exists s'. split; [done|]. split; [done|]. pose proof (Hpr s' E4 E5) as Hp. split; [|done].
    constructor; [by rewrite E1, E2|by apply Hsort|]. by rewrite E3, Hp.
Qed.

Lemma gic_step_stack fuel ev s st :
  (96 < fuel)%nat → gic_inv s → nested s st → stack_event ev →
  ∃ o s' st', gic_step fuel ev s = Ok (o, s') ∧ gic_inv s' ∧ nested s' st' ∧
    stack_step (prio_of s) ev o st st' ∧ ∀ j, prio_of s' j = prio_of s j.
Proof.
  intros Hf I N [Hev Hst]. destruct ev as [irq lv|irq| |irq|off v]; cbn [gic_step gic_event_ok] in *.
  - destruct (set_irq_ok irq lv s I Hev) as (s' & -> & I' & Q). exists NO_IRQ, s', st.
    split_and!; [done|done|by eapply nested_quiet|constructor|by apply quiet_prio].
  - destruct (pend_ok irq s I Hev) as (s' & -> & I' & Q). exists NO_IRQ, s', st.
    split_and!; [done|done|by eapply nested_quiet|constructor|by apply quiet_prio].
  - destruct (ack_ok s I) as (r & s' & -> & I' & [(-> & -> & _)|(Hr & _ & He)]).
    + exists NO_IRQ, s, st. split_and!; [done|done|done|constructor|done].
    + destruct (nested_ack r s s' st I N He) as (N' & Hall & Hp). exists r, s', (r :: st).
      split_and!; [done|done|done|constructor; [apply (en_selected _ _ _ He)|done]|done].
  - destruct (nested_complete fuel irq s st Hf I N Hev) as (s' & -> & I' & N' & Hp). exists NO_IRQ, s', (removed irq st).
    split_and!; [done|done|done|constructor|done].
  - destruct (store_flags_ok off v s I Hst) as (s' & -> & I' & Q). exists NO_IRQ, s', st.
    split_and!; [done|done|by eapply nested_quiet|constructor|by apply quiet_prio].
Qed.

Lemma stack_step_ext p q ev o st st' : (∀ j, p j = q j) → stack_step p ev o st st' → stack_step q ev o st st'.
Proof.
  intros H. destruct 1; constructor; [done|]. eapply Forall_impl; [done|]. cbn. intros x. by rewrite !H.
Qed.
Lemma stack_steps_ext p q tr st st' : (∀ j, p j = q j) → stack_steps p tr st st' → stack_steps q tr st st'.
Proof. intros H. induction 1; econstructor; [by eapply stack_step_ext|done]. Qed.

Lemma run_stack fuel evs s st :
  (96 < fuel)%nat → gic_inv s → nested s st → Forall stack_event evs →
  ∃ os s' st', gic_run fuel evs s = Ok (os, s') ∧ gic_inv s' ∧ stack_steps (prio_of s) (zip evs os) st st' ∧ nested s' st' ∧
    running_irq s' = default NO_IRQ (head st') ∧
    running_priority s' = match st' with [] => 0x100 | irq :: _ => prio_of s irq end.
Proof.
  intros Hf I N Hev. revert s st I N. induction Hev as [|ev evs Hev _ IH]; intros s st I N.
  - exists [], s, st. split_and!; [done|done|constructor|done|apply chain_head with (last_active s), N|apply N].
  - destruct (gic_step_stack fuel ev s st Hf I N Hev) as (o & s1 & st1 & Hs & I1 & N1 & Hst & Hp).
    destruct (IH s1 st1 I1 N1) as (os & s' & st' & Hr & I' & Hsts & N' & Hrun & Hrp).
    exists (o :: os), s', st'. cbn [gic_run]. rewrite Hs. cbn [mbind res_bind]. rewrite Hr. cbn [mbind res_bind zip zip_with].
    split_and!; [done|done| |done|done|].
    + econstructor; [done|]. by eapply stack_steps_ext.
    + rewrite Hrp. destruct st'; [done|]. apply Hp.
Qed.

(** [C7]: The interrupts in service form a stack: whatever the lines, exceptions,
    enables and acknowledgements, as long as priorities are left alone every operation
    returns (the search along the links ends), an acknowledged interrupt has a better
    priority than everything in service and is put on top, completing an interrupt
    takes exactly that one out, at the top or in the middle, and the running interrupt
    and its priority are those of the top. *)
Theorem gic_active_is_stack fuel evs s st :
  (96 < fuel)%nat → gic_inv s → nested s st → Forall stack_event evs →
  ∃ os s' st', gic_run fuel evs s = Ok (os, s') ∧ gic_inv s' ∧ stack_steps (prio_of s) (zip evs os) st st' ∧ nested s' st' ∧
    running_irq s' = default NO_IRQ (head st') ∧
    running_priority s' = match st' with [] => 0x100 | irq :: _ => prio_of s irq end.
Proof. apply run_stack. Qed.

(** The state after [gic_init], with priorities [p1] and [p2] (0 at first). *)
Definition gic_started (p1 p2 : list Z) : gic_state :=
  mkGic true true
    (replicate 16 (mkIrq true false false false false true) ++ replicate 80 (mkIrq false false false false false false))
    p1 p2 (replicate 96 0) 0xf0 NO_IRQ 0x100 NO_IRQ 0.
Lemma gic_init_started : gic_init = Ok (gic_started (replicate 32 0) (replicate 64 0)).
Proof. reflexivity. Qed.
Lemma gic_started_inv p1 p2 :
  length p1 = 32%nat → length p2 = 64%nat → gic_inv (gic_started p1 p2) ∧ nested (gic_started p1 p2) [].
Proof.
  intros H1 H2. split; [constructor|constructor; [constructor|constructor|done]].
  - by constructor.
  - apply Forall_replicate. right. unfold is_irq. lia.
  - by left.
  - right. split; [done|]. split; [done|]. intros j [H0 H96] Hw. exfalso. revert Hw. unfold wants.
    assert (∃ k : nat, j = Z.of_nat k ∧ (k < 96)%nat) as (k & -> & Hk) by (exists (Z.to_nat j); lia).
    rewrite Nat2Z.id. do 96 (destruct k as [|k]; [discriminate|]). lia.
Qed.

(** External interrupt 0 (number 32) has the priority 0x40, all others 0. *)
Definition gic_example : gic_state := gic_started (replicate 32 0) (0x40 :: replicate 63 0).
(** It is enabled and raised. *)
Definition gic_raised : gic_state :=
  match gic_run 1 [Store 0x100 1; Line 0 1] gic_example with Ok (_, s) => s | Err _ => gic_example end.
Ltac gic_events_ok :=
  repeat (apply Forall_cons; split; [cbn; unfold is_irq; repeat split; (done || lia)|]); by apply Forall_nil.

Lemma gic_raised_inv : gic_inv gic_raised ∧ nested gic_raised [] ∧ parent_irq gic_raised = 1.
Proof.
  destruct (gic_started_inv (replicate 32 0) (0x40 :: replicate 63 0) eq_refl eq_refl) as [I _]. split_and!.
  - assert (Forall gic_event_ok [Store 0x100 1; Line 0 1]) as Hev by gic_events_ok.
    pose proof (run_inv 1 _ _ I Hev) as H. unfold gic_raised, gic_example.
    destruct (gic_run _ _ _) as [[os s]|]; [exact H|exact I].
  - assert (running_irq gic_raised = NO_IRQ) as E by by vm_compute.
    constructor; [rewrite E; constructor|constructor|by vm_compute].
  - by vm_compute.
Qed.

Lemma gic_active_is_stack_witness :
  ∃ os s', gic_run 97 [Store 0x100 3; Line 0 1; Ack; Pend 15; Ack; Complete 32; Complete 15] gic_example = Ok (os, s') ∧
    os = [NO_IRQ; NO_IRQ; 32; NO_IRQ; 15; NO_IRQ; NO_IRQ] ∧ running_irq s' = NO_IRQ.
Proof.
  destruct (gic_started_inv (replicate 32 0) (0x40 :: replicate 63 0) eq_refl eq_refl) as [I N].
  destruct (gic_active_is_stack 97 [Store 0x100 3; Line 0 1; Ack; Pend 15; Ack; Complete 32; Complete 15] gic_example [])
    as (os & s' & st' & Hr & _); [lia|done|done|gic_events_ok|].
  exists os, s'. split; [exact Hr|]. vm_compute in Hr. by injection Hr as <- <-.
Defined.

(** [C21]: The controller delivers the right interrupt: after any run of input
    lines, exceptions, acknowledgements, completions and writes of the enable, pending
    and priority registers from the initial state, the pending interrupt it reports is
    enabled, pending and passes the mask, with the best priority of all such (the lowest
    number among equals), or there is none; and the line to the processor is high
    exactly when that priority is better than the running one.  The only way a run does
    not return is the search along the links in a completion. *)
Theorem gic_delivers_best fuel evs :
  Forall gic_event_ok evs →
  match s ← gic_init; gic_run fuel evs s with
  | Ok (_, s) =>
      (selected s (current_pending s) ∧ parent_irq s = flag (prio_of s (current_pending s) <? running_priority s)) ∨
      (current_pending s = NO_IRQ ∧ parent_irq s = 0 ∧ ∀ j, is_irq j → wants s j = true → priority_mask s < prio_of s j)
  | Err e => e = Out_of_fuel
  end.
Proof.
  intros Hev. rewrite gic_init_started. cbn [mbind res_bind].
  destruct (gic_started_inv (replicate 32 0) (replicate 64 0) eq_refl eq_refl) as [I _].
  pose proof (run_inv fuel evs _ I Hev) as H. destruct (gic_run _ _ _) as [[os s]|e]; [|done].
  pose proof (inv_outputs s H) as O. unfold update_spec in O. by rewrite (wf_on s (inv_wf s H)) in O.
Qed.

Lemma gic_delivers_best_witness :
  match s ← gic_init; gic_run 97 [Store 0x100 3; Store 0x400 0x40; Line 0 1; Line 1 1] s with
  | Ok (_, s) => current_pending s = 33 ∧ parent_irq s = 1
  | Err _ => False
  end.
Proof.
  pose proof (gic_delivers_best 97 [Store 0x100 3; Store 0x400 0x40; Line 0 1; Line 1 1] ltac:(gic_events_ok)) as H.
  destruct (s ← gic_init; gic_run 97 _ s) as [[os s]|e] eqn:E; [|by vm_compute in E].
  vm_compute in E. by injection E as _ <-.
Defined.

(** A link from an interrupt to itself is followed for ever. *)
Lemma unlink_self_loops fuel tmp irq l :
  aread l tmp = Ok tmp → tmp ≠ NO_IRQ → tmp ≠ irq → gic_unlink fuel tmp irq l = Err Out_of_fuel.
Proof.
  intros Hl Hn Hi. induction fuel as [|fuel IH]; [done|]. cbn [gic_unlink]. rewrite Hl. cbn [mbind res_bind].
  rewrite (proj2 (Z.eqb_neq _ _) Hn), (proj2 (Z.eqb_neq _ _) Hi). exact IH.
Qed.

(** An interrupt is taken twice when its priority is improved while it runs. *)
Definition retaken : list gic_event :=
  [Store 0x100 1; Store 0x400 0x40; Pend 32; Ack; Store 0x400 0x20; Pend 32; Ack].

(** Improving the priority of the running interrupt can make it preempt itself,
    and it is then linked to itself: completing it any number of times leaves it
    running, so that the interrupts it masks are never delivered again, and completing
    any other interrupt never returns. *)
Theorem gic_self_preemption_never_ends :
  ∃ os s, (s ← gic_init; gic_run 1 retaken s) = Ok (os, s) ∧
    os = [NO_IRQ; NO_IRQ; NO_IRQ; 32; NO_IRQ; NO_IRQ; 32] ∧
    (∀ fuel, ∃ s', gic_complete_irq fuel 32 s = Ok s' ∧ running_irq s' = 32 ∧ last_active s' = last_active s) ∧
    (∀ fuel irq, is_irq irq → irq ≠ 32 → gic_complete_irq fuel irq s = Err Out_of_fuel).
Proof.
  destruct (gic_started_inv (replicate 32 0) (replicate 64 0) eq_refl eq_refl) as [I _].
  assert (Forall gic_event_ok retaken) as Hev by gic_events_ok.
  pose proof (run_inv 1 retaken _ I Hev) as H. rewrite gic_init_started. cbn [mbind res_bind].
  destruct (gic_run 1 retaken (gic_started (replicate 32 0) (replicate 64 0))) as [[os s]|e] eqn:E; [|by vm_compute in E].
  exists os, s. split; [done|].
  assert (os = [NO_IRQ; NO_IRQ; NO_IRQ; 32; NO_IRQ; NO_IRQ; 32] ∧ running_irq s = 32 ∧ aread (last_active s) 32 = Ok 32) as (-> & Hrun & Hself).
  { vm_compute in E. injection E as <- <-. done. }
  clear E. split; [done|]. split.
  - intros fuel. pose proof (complete_cases fuel 32 s H ltac:(unfold is_irq; lia)) as Hc. rewrite Hrun in Hc.
    destruct Hc as (s' & -> & _ & E1 & E2 & _); [done|apply (inv_wf s H)|apply (inv_links s H)|].
    exists s'. split; [done|]. split; [|done]. cbn [Z.eqb Pos.eqb] in E2. rewrite E2.
    apply aread_lookup in Hself as [_ Hself]. by apply list_lookup_total_correct.
  - intros fuel irq Hi Hne. pose proof (complete_cases fuel irq s H Hi) as Hc. rewrite Hrun in Hc.
    rewrite (proj2 (Z.eqb_neq irq 32) Hne), (unlink_self_loops fuel 32 irq) in Hc by done. by apply Hc.
Qed.
