(* ===== verification/Nvic.v ===== *)
(** * Nvic: the system controller of the ARMv7-M boards (hw/armv7m_nvic.c)

    The vectored interrupt controller around [Gic], with the SysTick timer and the
    system control registers, and the word accesses of hw/arm_gic.c, which it
    intercepts.  The SysTick timer is timer 0 of the emulator's list ([TimerList]);
    [cpuid] and [vecbase] are the fields of the processor that are seen here. *)

From stdpp Require Import sorting.
From S2P Require Import Prelude TimerList Gic GicFacts.
Local Open Scope Z_scope.

Record systick_state := mkSystick { control : Z; reload : Z; tick : Z }.

Record nvic_state := mkNvic {
  gic : gic_state;
  systick : systick_state;
  cpuid : Z;
  vecbase : Z;
}.

Definition set_gic (s : nvic_state) (g : gic_state) : nvic_state := mkNvic g (systick s) (cpuid s) (vecbase s).
Definition set_systick (s : nvic_state) (c r t : Z) : nvic_state :=
  mkNvic (gic s) (mkSystick c r t) (cpuid s) (vecbase s).
Definition set_control (s : nvic_state) (c : Z) : nvic_state := set_systick s c (reload (systick s)) (tick (systick s)).
Definition set_tick (s : nvic_state) (t : Z) : nvic_state := set_systick s (control (systick s)) (reload (systick s)) t.

Definition ARMV7M_EXCP_NMI : Z := 2.
Definition ARMV7M_EXCP_MEM : Z := 4.
Definition ARMV7M_EXCP_BUS : Z := 5.
Definition ARMV7M_EXCP_USAGE : Z := 6.
Definition ARMV7M_EXCP_SVC : Z := 11.
Definition ARMV7M_EXCP_DEBUG : Z := 12.
Definition ARMV7M_EXCP_PENDSV : Z := 14.
Definition ARMV7M_EXCP_SYSTICK : Z := 15.

Definition SYSTICK_ENABLE : Z := Z.shiftl 1 0.
Definition SYSTICK_TICKINT : Z := Z.shiftl 1 1.
Definition SYSTICK_CLKSOURCE : Z := Z.shiftl 1 2.
Definition SYSTICK_COUNTFLAG : Z := Z.shiftl 1 16.

(** ** Vector numbers: the first external interrupt is 16 here and 32 in the GIC *)

Definition armv7m_nvic_set_pending (irq : Z) (s : nvic_state) : res nvic_state :=
  g ← gic_set_pending_private (if 16 <=? irq then irq + 16 else irq) (gic s); Ok (set_gic s g).

Definition armv7m_nvic_acknowledge_irq (s : nvic_state) : res (Z * nvic_state) :=
  '(irq, g) ← gic_acknowledge_irq (gic s);
  if irq =? 1023 then Err Hw_error
  else Ok (if 32 <=? irq then irq - 16 else irq, set_gic s g).

Definition armv7m_nvic_complete_irq (fuel : nat) (irq : Z) (s : nvic_state) : res nvic_state :=
  g ← gic_complete_irq fuel (if 16 <=? irq then irq + 16 else irq) (gic s); Ok (set_gic s g).

(** ** SysTick *)

Section nvic.
Context (system_clock_scale : Z).

Definition systick_scale (s : nvic_state) : Z :=
  if truth (Z.land (control (systick s)) SYSTICK_CLKSOURCE) then system_clock_scale else 1000.

(** [now] is the virtual clock, which is read only for a reset. *)
Definition systick_reload (now : Z) (reset : bool) (s : nvic_state) : nvic_state * timer_ops :=
  let s := if reset then set_tick s now else s in
  let t := s64 (tick (systick s) + u32 (reload (systick s) + 1) * systick_scale s) in
  (set_tick s t, [(0%nat, Some (s64 (t * 1)))]).

Definition systick_timer_tick (s : nvic_state) : res (nvic_state * timer_ops) :=
  let s := set_control s (Z.lor (control (systick s)) SYSTICK_COUNTFLAG) in
  s ← (if truth (Z.land (control (systick s)) SYSTICK_TICKINT)
       then armv7m_nvic_set_pending ARMV7M_EXCP_SYSTICK s else Ok s);
  if reload (systick s) =? 0 then Ok (set_control s (Z.ldiff (control (systick s)) SYSTICK_ENABLE), [])
  else Ok (systick_reload 0 false s).

(** The case of the SysTick control register. *)
Definition nvic_write_control (now value : Z) (s : nvic_state) : nvic_state * timer_ops :=
  let oldval := control (systick s) in
  let s := set_control s (Z.lor (Z.land oldval 0xfffffff8) (Z.land value 7)) in
  if truth (Z.land (Z.lxor oldval value) SYSTICK_ENABLE) then
    if truth (Z.land value SYSTICK_ENABLE) then
      if truth (tick (systick s)) then
        let s := set_tick s (s64 (tick (systick s) + now)) in (s, [(0%nat, Some (s64 (tick (systick s) * 1)))])
      else systick_reload now true s
    else
      let t := s64 (tick (systick s) - now) in
      (set_tick s (if t <? 0 then 0 else t), [(0%nat, None)])
  else if truth (Z.land (Z.lxor oldval value) SYSTICK_CLKSOURCE) then systick_reload now true s
  else (s, []).

(** The case of the SysTick current value register. *)
Definition systick_current (now : Z) (s : nvic_state) : res Z :=
  if Z.land (control (systick s)) SYSTICK_ENABLE =? 0 then Ok 0
  else if tick (systick s) <=? now then Ok 0
  else if systick_scale s =? 0 then Err Div_by_zero
  else
    let val := u32 (Z.quot (s64 (tick (systick s) - (now + 1))) (systick_scale s) + 1) in
    Ok (if reload (systick s) <? val then 0 else val).

(** ** Registers *)

Definition pend_bit (g : gic_state) (irq : Z) (bit : Z) : res Z :=
  i ← gic_irq g irq; Ok (if i_pending i then Z.shiftl 1 bit else 0).
Definition active_bit (g : gic_state) (irq : Z) (bit : Z) : res Z :=
  i ← gic_irq g irq; Ok (if i_active i then Z.shiftl 1 bit else 0).
Definition enabled_bit (g : gic_state) (irq : Z) (bit : Z) : res Z :=
  i ← gic_irq g irq; Ok (if i_enabled i then Z.shiftl 1 bit else 0).

(** Some external interrupt is pending: the loop with its break. *)
Fixpoint isr_pending (g : gic_state) (n : nat) (irq : Z) : res bool :=
  match n with
  | O => Ok false
  | S n => i ← gic_irq g irq; if i_pending i then Ok true else isr_pending g n (irq + 1)
  end.

(** Interrupt Control State. *)
Definition nvic_read_icsr (g : gic_state) : res Z :=
  let val := running_irq g in
  let val := if val =? 1023 then 0 else if 32 <=? val then val - 16 else val in
  base ← (if running_irq g =? 1023 then Ok true
          else last ← aread (last_active g) (running_irq g); Ok (last =? 1023));
  let val := if base : bool then Z.lor val (Z.shiftl 1 11) else val in
  let val := if negb (current_pending g =? 1023) then Z.lor val (Z.shiftl (current_pending g) 12) else val in
  isr ← isr_pending g 64 32;
  let val := if isr : bool then Z.lor val (Z.shiftl 1 22) else val in
  a ← pend_bit g ARMV7M_EXCP_SYSTICK 26;
  b ← pend_bit g ARMV7M_EXCP_PENDSV 28;
  c ← pend_bit g ARMV7M_EXCP_NMI 31;
  Ok (u32 (Z.lor (Z.lor (Z.lor val a) b) c)).

(** System Handler Priority. *)
Definition nvic_read_shpr (offset : Z) (g : gic_state) : res Z :=
  let irq := offset - 0xd14 in
  a ← aread (priority1 g) irq; b ← aread (priority1 g) (irq + 1);
  c ← aread (priority1 g) (irq + 2); d ← aread (priority1 g) (irq + 3);
  Ok (u32 (Z.lor (Z.lor (Z.lor a (Z.shiftl b 8)) (Z.shiftl c 16)) (Z.shiftl d 24))).

(** System Handler Status. *)
Definition nvic_read_shcsr (g : gic_state) : res Z :=
  b0 ← active_bit g ARMV7M_EXCP_MEM 0; b1 ← active_bit g ARMV7M_EXCP_BUS 1;
  b3 ← active_bit g ARMV7M_EXCP_USAGE 3; b7 ← active_bit g ARMV7M_EXCP_SVC 7;
  b8 ← active_bit g ARMV7M_EXCP_DEBUG 8; b10 ← active_bit g ARMV7M_EXCP_PENDSV 10;
  b11 ← active_bit g ARMV7M_EXCP_SYSTICK 11; b12 ← pend_bit g ARMV7M_EXCP_USAGE 12;
  b13 ← pend_bit g ARMV7M_EXCP_MEM 13; b14 ← pend_bit g ARMV7M_EXCP_BUS 14;
  b15 ← pend_bit g ARMV7M_EXCP_SVC 15; b16 ← enabled_bit g ARMV7M_EXCP_MEM 16;
  b17 ← enabled_bit g ARMV7M_EXCP_BUS 17; b18 ← enabled_bit g ARMV7M_EXCP_USAGE 18;
  Ok (fold_left Z.lor [b0; b1; b3; b7; b8; b10; b11; b12; b13; b14; b15; b16; b17; b18] 0).

Definition nvic_readl (now offset : Z) (s : nvic_state) : res (Z * nvic_state) :=
  let ret (v : Z) := Ok (v, s) in
  match offset with
  | 4 => ret (96 / 32 - 1)
  | 0x10 => Ok (control (systick s), set_control s (Z.ldiff (control (systick s)) SYSTICK_COUNTFLAG))
  | 0x14 => ret (reload (systick s))
  | 0x18 => v ← systick_current now s; ret v
  | 0x1c => ret 10000
  | 0xd00 => ret (cpuid s)
  | 0xd04 => v ← nvic_read_icsr (gic s); ret v
  | 0xd08 => ret (vecbase s)
  | 0xd0c => ret 0xfa05000
  | 0xd10 => ret 0
  | 0xd14 => ret 0
  | 0xd18 | 0xd1c | 0xd20 => v ← nvic_read_shpr offset (gic s); ret v
  | 0xd24 => v ← nvic_read_shcsr (gic s); ret v
  | 0xd28 => Err Hw_error
  | 0xd2c | 0xd30 | 0xd34 | 0xd38 | 0xd3c => Err Hw_error
  | 0xd40 => ret 0x00000030
  | 0xd44 => ret 0x00000200
  | 0xd48 => ret 0x00100000
  | 0xd4c => ret 0x00000000
  | 0xd50 => ret 0x00000030
  | 0xd54 => ret 0x00000000
  | 0xd58 => ret 0x00000000
  | 0xd5c => ret 0x00000000
  | 0xd60 => ret 0x01141110
  | 0xd64 => ret 0x02111000
  | 0xd68 => ret 0x21112231
  | 0xd6c => ret 0x01111110
  | 0xd70 => ret 0x01310102
  | _ => Err Hw_error
  end.

(** Clearing a pending exception. *)
Definition nvic_unpend (irq : Z) (s : nvic_state) : res nvic_state :=
  g ← gic_change (set_pending false) irq (gic s); g ← gic_update g; Ok (set_gic s g).

Definition nvic_write_icsr (value : Z) (s : nvic_state) : res nvic_state :=
  s ← (if truth (Z.land value (Z.shiftl 1 31)) then armv7m_nvic_set_pending ARMV7M_EXCP_NMI s else Ok s);
  s ← (if truth (Z.land value (Z.shiftl 1 28)) then armv7m_nvic_set_pending ARMV7M_EXCP_PENDSV s
       else if truth (Z.land value (Z.shiftl 1 27)) then nvic_unpend ARMV7M_EXCP_PENDSV s else Ok s);
  if truth (Z.land value (Z.shiftl 1 26)) then armv7m_nvic_set_pending ARMV7M_EXCP_SYSTICK s
  else if truth (Z.land value (Z.shiftl 1 25)) then nvic_unpend ARMV7M_EXCP_SYSTICK s else Ok s.

Definition nvic_write_shpr (offset value : Z) (g : gic_state) : res gic_state :=
  let irq := offset - 0xd14 in
  p ← awrite (priority1 g) irq (Z.land value 0xff);
  p ← awrite p (irq + 1) (Z.land (Z.shiftr value 8) 0xff);
  p ← awrite p (irq + 2) (Z.land (Z.shiftr value 16) 0xff);
  p ← awrite p (irq + 3) (Z.land (Z.shiftr value 24) 0xff);
  gic_update (set_priorities g p (priority2 g)).

Definition nvic_write_shcsr (value : Z) (g : gic_state) : res gic_state :=
  g ← gic_change (set_enabled (truth (Z.land value (Z.shiftl 1 16)))) ARMV7M_EXCP_MEM g;
  g ← gic_change (set_enabled (truth (Z.land value (Z.shiftl 1 17)))) ARMV7M_EXCP_BUS g;
  gic_change (set_enabled (truth (Z.land value (Z.shiftl 1 18)))) ARMV7M_EXCP_USAGE g.

Definition nvic_writel (now offset value : Z) (s : nvic_state) : res (nvic_state * timer_ops) :=
  match offset with
  | 0x10 => Ok (nvic_write_control now value s)
  | 0x14 => Ok (set_systick s (control (systick s)) value (tick (systick s)), [])
  | 0x18 =>
      let '(s, ops) := systick_reload now true s in
      Ok (set_control s (Z.ldiff (control (systick s)) SYSTICK_COUNTFLAG), ops)
  | 0xd04 => s ← nvic_write_icsr value s; Ok (s, [])
  | 0xd08 => Ok (mkNvic (gic s) (systick s) (cpuid s) (Z.land value 0xffffff80), [])
  | 0xd0c =>
      if (Z.shiftr value 16 =? 0x05fa) && (truth (Z.land value 2) || truth (Z.land value 5)) then Err Hw_error
      else Ok (s, [])
  | 0xd18 | 0xd1c | 0xd20 => g ← nvic_write_shpr offset value (gic s); Ok (set_gic s g, [])
  | 0xd24 => g ← nvic_write_shcsr value (gic s); Ok (set_gic s g, [])
  | _ => Err Hw_error
  end.

(** ** The word accesses of hw/arm_gic.c *)

Definition gic_dist_readl (now offset : Z) (s : nvic_state) : res (Z * nvic_state) :=
  if (offset <? 0x100) || (0xd00 <? offset) then nvic_readl now offset s
  else a ← gic_dist_readw offset (gic s); b ← gic_dist_readw (offset + 2) (gic s);
       Ok (Z.lor a (u32 (Z.shiftl b 16)), s).

(** The software interrupt register. *)
Definition gic_soft_irq (value : Z) (g : gic_state) : res gic_state :=
  let irq := Z.land value 0x3ff in
  let mask := match Z.land (Z.shiftr value 24) 3 with
              | 0 => Z.land (Z.shiftr value 16) 1
              | 1 => Z.lxor 1 1
              | 2 => 1
              | _ => 1
              end in
  g ← gic_change (λ i, set_pending (i_pending i || truth mask) i) irq g; gic_update g.

Definition gic_dist_writel (now offset value : Z) (s : nvic_state) : res (nvic_state * timer_ops) :=
  if (offset <? 0x100) || ((0xd00 <? offset) && negb (offset =? 0xf00)) then nvic_writel now offset value s
  else if offset =? 0xf00 then g ← gic_soft_irq value (gic s); Ok (set_gic s g, [])
  else g ← gic_dist_writew offset (Z.land value 0xffff) (gic s);
       g ← gic_dist_writew (offset + 2) (Z.shiftr value 16) g; Ok (set_gic s g, []).
End nvic.

Definition armv7m_nvic_init (cpu : Z) : res nvic_state :=
  g ← gic_init; Ok (mkNvic g (mkSystick 0 0 0) cpu 0).

(** ** Entering and leaving an exception *)

(** The number the processor knows interrupt [irq] of the GIC by. *)
Definition vector (irq : Z) : Z := if 32 <=? irq then irq - 16 else irq.

Lemma vector_back irq : is_irq irq → ¬ 16 <= irq < 32 → (if 16 <=? vector irq then vector irq + 16 else vector irq) = irq.
Proof.
  unfold vector, is_irq. intros Hi Hr. destruct (Z.leb_spec 32 irq).
  - rewrite (proj2 (Z.leb_le 16 _)) by lia. lia.
  - rewrite (proj2 (Z.leb_gt 16 _)) by lia. done.
Qed.

Lemma ack_line s :
  gic_inv s → parent_irq s = 1 →
  ∃ s', gic_acknowledge_irq s = Ok (current_pending s, s') ∧ gic_inv s' ∧ entered (current_pending s) s s'.
Proof.
  intros I Hl. destruct (ack_ok s I) as (r & s' & Ha & I' & [(_ & _ & Hz)|(_ & -> & He)]); [lia|]. by exists s'.
Qed.

(** Entering and leaving an exception is a round trip: whenever the line to the
    processor is high the acknowledgement finds an interrupt, which goes on top of those
    in service, and completing the vector number that was returned takes exactly that one
    away: the running interrupt, its priority and the stack below are as before. *)
Theorem nvic_enter_leave fuel (s : nvic_state) (st : list Z) :
  (96 < fuel)%nat → gic_inv (gic s) → nested (gic s) st → parent_irq (gic s) = 1 →
  (∀ j, 16 <= j < 32 → wants (gic s) j = false) →
  ∃ r s1 s2, armv7m_nvic_acknowledge_irq s = Ok (vector r, s1) ∧ selected (gic s) r ∧ nested (gic s1) (r :: st) ∧
    running_irq (gic s1) = r ∧
    armv7m_nvic_complete_irq fuel (vector r) s1 = Ok s2 ∧ nested (gic s2) st ∧
    running_irq (gic s2) = running_irq (gic s) ∧ running_priority (gic s2) = running_priority (gic s).
Proof.
  intros Hf I N Hl Hres. destruct (ack_line (gic s) I Hl) as (g1 & Ha & I1 & He). set (r := current_pending (gic s)) in *.
  pose proof (en_selected _ _ _ He) as Hsel. pose proof Hsel as (Hi & Hw & _).
  destruct (nested_ack r (gic s) g1 st I N He) as (N1 & Hall & Hp).
  assert (¬ 16 <= r < 32) as Hnr by (intros Hr; rewrite Hres in Hw; done).
  destruct (nested_complete fuel r g1 (r :: st) Hf I1 N1 Hi) as (g2 & Hc & I2 & N2 & Hp2).
  rewrite (removed_top _ _ _ Hall) in N2. exists r, (set_gic s g1), (set_gic s g2). split_and!; try done.
  - unfold armv7m_nvic_acknowledge_irq. rewrite Ha. cbn [mbind res_bind].
    rewrite (proj2 (Z.eqb_neq r 1023)) by (unfold is_irq in Hi; lia). done.
  - apply He.
  - unfold armv7m_nvic_complete_irq. rewrite vector_back by done. cbn [gic set_gic]. by rewrite Hc.
  - cbn [gic set_gic]. rewrite (chain_head _ _ _ (n_chain _ _ N2)), (chain_head _ _ _ (n_chain _ _ N)). done.
  - cbn [gic set_gic]. rewrite (n_prio _ _ N2), (n_prio _ _ N). destruct st as [|x st]; [done|]. by rewrite Hp2, Hp.
Qed.

(** ** SysTick *)

(** The SysTick counter counts the clock cycles left: while the timer is armed
    for [t] with a cycle of [scale] ns, the current value register is the number of
    whole or started cycles until [t], it is 0 from [t] on and during the first cycle
    after a reload, and it never exceeds the reload value. *)
Theorem systick_counts_cycles_left sc now (s : nvic_state) :
  let scale := systick_scale sc s in let t := tick (systick s) in
  truth (Z.land (control (systick s)) SYSTICK_ENABLE) = true → 0 < scale → 0 <= now → is_s64 t →
  t - now <= u32 (reload (systick s) + 1) * scale → is_u32 (reload (systick s)) → reload (systick s) + 1 < 2 ^ 32 →
  ∃ v, systick_current sc now s = Ok v ∧ 0 <= v <= reload (systick s) ∧
    (t <= now → v = 0) ∧
    (now < t → t - now <= reload (systick s) * scale → (v - 1) * scale < t - now <= v * scale) ∧
    (reload (systick s) * scale < t - now → v = 0).
Proof.
  cbn zeta. intros He Hs Hnow Ht Hle Hr Hr1. unfold systick_current. unfold is_u32, is_s64 in *.
  assert ((Z.land (control (systick s)) SYSTICK_ENABLE =? 0) = false) as -> by (unfold truth in He; by apply negb_true_iff in He).
  set (scale := systick_scale sc s) in *. set (t := tick (systick s)) in *. set (r := reload (systick s)) in *.
  rewrite u32_small in Hle by lia.
  destruct (Z.leb_spec t now) as [Hge|Hlt]; [exists 0; split_and!; try done; try lia; nia|].
  rewrite (proj2 (Z.eqb_neq scale 0)) by lia. rewrite s64_small by (unfold is_s64; lia).
  rewrite Z.quot_div_nonneg by lia. set (q := (t - (now + 1)) / scale).
  pose proof (Z.div_mod (t - (now + 1)) scale ltac:(lia)) as Hdm. fold q in Hdm.
  pose proof (Z.mod_pos_bound (t - (now + 1)) scale ltac:(lia)) as Hm.
  assert (0 <= q) as Hq0 by (apply Z.div_pos; lia). assert (q <= r) as Hqr by nia.
  rewrite u32_small by lia. destruct (Z.ltb_spec r (q + 1)) as [Hov|Hin].
  - exists 0. split_and!; try done; try lia. intros _ Hb. assert (q = r) by lia. nia.
  - assert ((q + 1 - 1) * scale < t - now <= (q + 1) * scale) as Hv by nia.
    exists (q + 1). split; [done|]. split; [lia|]. split; [lia|]. split; [by intros _ _|]. intros Hb. nia.
Qed.

Definition nvic_raised : nvic_state := mkNvic gic_raised (mkSystick 3 99 100000) 0 0.

Lemma nvic_enter_leave_witness :
  ∃ s1 s2, armv7m_nvic_acknowledge_irq nvic_raised = Ok (16, s1) ∧ running_irq (gic s1) = 32 ∧
    armv7m_nvic_complete_irq 97 16 s1 = Ok s2 ∧ running_irq (gic s2) = NO_IRQ.
Proof.
  destruct gic_raised_inv as (I & N & Hl).
  destruct (nvic_enter_leave 97 nvic_raised []) as (r & s1 & s2 & Ha & _ & _ & Hr & Hc & _ & Hr2 & _); [lia|done|done|done| |].
  - intros j Hj. assert (∃ k : nat, j = Z.of_nat (16 + k) ∧ (k < 16)%nat) as (k & -> & Hk) by (exists (Z.to_nat (j - 16)); lia).
    do 16 (destruct k as [|k]; [by vm_compute|]). lia.
  - assert (r = 32) as -> by (vm_compute in Ha; injection Ha as Hv Hs; subst s1; by rewrite <- Hr).
    exists s1, s2. split_and!; [exact Ha|exact Hr|exact Hc|]. rewrite Hr2. by vm_compute.
Defined.

Lemma systick_counts_cycles_left_witness :
  ∃ v, systick_current 20 2500 nvic_raised = Ok v ∧ 0 <= v <= 99 ∧ (97500 <= 99000 → (v - 1) * 1000 < 97500 <= v * 1000).
Proof.
  destruct (systick_counts_cycles_left 20 2500 nvic_raised) as (v & Hv & Hr & _ & Hc & _);
    [reflexivity|by vm_compute|lia|by vm_compute|by vm_compute|by vm_compute|by vm_compute|].
  exists v. split; [exact Hv|]. split; [exact Hr|]. intros Hle. apply Hc; [by vm_compute|exact Hle].
Defined.

Lemma change_wants irq s s' i :
  irq_state s !! Z.to_nat irq = Some i → i_enabled i = true → is_irq irq → gic_wf s →
  gic_change (set_pending true) irq s = Ok s' → wants s' irq = true.
Proof.
  intros Hi He Hr W H. unfold gic_change, gic_irq in H.
  rewrite (proj2 (aread_lookup _ _ i)) in H by (split; [apply Hr|done]). cbn [mbind res_bind] in H.
  rewrite awrite_in in H by (rewrite (wf_irqs s W); apply Hr). cbn [mbind res_bind] in H. injection H as <-.
  unfold wants. cbn. rewrite list_lookup_insert_eq by (rewrite (wf_irqs s W); unfold is_irq in Hr; lia).
  cbn. by rewrite He.
Qed.
Lemma pend_wants irq s i :
  gic_inv s → is_irq irq → irq_state s !! Z.to_nat irq = Some i → i_enabled i = true →
  ∃ s', gic_set_pending_private irq s = Ok s' ∧ gic_inv s' ∧ quiet s s' ∧ wants s' irq = true ∧ priority_mask s' = priority_mask s.
Proof.
  intros I Hr Hi He. pose proof (inv_wf s I) as W. destruct (pend_ok irq s I Hr) as (s' & Hp & I' & Q).
  exists s'. split; [done|]. split; [done|]. split; [done|]. unfold gic_set_pending_private, gic_irq in Hp.
  rewrite (proj2 (aread_lookup _ _ i)) in Hp by (split; [apply Hr|done]). cbn [mbind res_bind] in Hp.
  destruct (i_pending i) eqn:Epd.
  - injection Hp as <-. unfold wants. rewrite Hi, He, Epd. done.
  - destruct (gic_change_ok (set_pending true) irq s W Hr) as (s1 & E1 & H1). rewrite E1 in Hp. cbn [mbind res_bind] in Hp.
    pose proof (change_wants irq s s1 i Hi He Hr W E1) as Hw.
    destruct (gic_update_ok s1 (irqs_changed_wf _ _ W H1)) as (c & o & Hu & _). rewrite Hu in Hp. injection Hp as <-.
    split; [exact Hw|]. by destruct H1 as (l & -> & _).
Qed.

(** An enabled pending interrupt that passes the mask and beats the running one drives
    the line. *)
Lemma wants_line irq s :
  gic_inv s → is_irq irq → wants s irq = true → prio_of s irq <= priority_mask s → prio_of s irq < running_priority s →
  parent_irq s = 1 ∧ selected s (current_pending s) ∧ prio_of s (current_pending s) <= prio_of s irq.
Proof.
  intros I Hr Hw Hm Hp. pose proof (inv_outputs s I) as O. unfold update_spec in O. rewrite (wf_on s (inv_wf s I)) in O.
  destruct O as [[Hs Hl]|(_ & _ & Hn)]; [|specialize (Hn irq Hr Hw); lia].
  pose proof Hs as (_ & _ & _ & Hbest). specialize (Hbest irq Hr Hw).
  split; [|split; [done|lia]]. by rewrite Hl, (proj2 (Z.ltb_lt _ _)) by lia.
Qed.

(** An expiry of the SysTick timer interrupts the processor: with its interrupt
    requested, the exception enabled, and of a priority that passes the mask and beats
    the running one, the callback returns, the line to the processor is high and what
    will be acknowledged has at least the priority of SysTick; the count flag is set; and
    the next expiry is armed exactly one period of [reload + 1] cycles after the last one
    (not after the time the callback ran), or the counter is disabled if the reload value
    is 0. *)
Theorem systick_expiry_interrupts sc (s : nvic_state) i :
  gic_inv (gic s) → truth (Z.land (control (systick s)) SYSTICK_TICKINT) = true →
  irq_state (gic s) !! 15%nat = Some i → i_enabled i = true →
  prio_of (gic s) 15 <= priority_mask (gic s) → prio_of (gic s) 15 < running_priority (gic s) →
  ∃ s' ops, systick_timer_tick sc s = Ok (s', ops) ∧
    parent_irq (gic s') = 1 ∧ selected (gic s') (current_pending (gic s')) ∧
    prio_of (gic s') (current_pending (gic s')) <= prio_of (gic s') 15 ∧
    Z.testbit (control (systick s')) 16 = true ∧ gic_inv (gic s') ∧
    let t := s64 (tick (systick s) + u32 (reload (systick s) + 1) * systick_scale sc s) in
    if reload (systick s) =? 0 then ops = [] ∧ Z.testbit (control (systick s')) 0 = false
    else tick (systick s') = t ∧ ops = [(0%nat, Some t)].
Proof.
  intros I Ht Hi He Hm Hp. assert (is_irq 15) as Hr by (unfold is_irq; lia).
  destruct (pend_wants 15 (gic s) i I Hr Hi He) as (g & Hg & I' & Q & Hw & Hmask).
  pose proof (quiet_prio _ _ Q 15) as Hprio.
  destruct (wants_line 15 g I' Hr Hw) as (Hl & Hsel & Hbest);
    [by rewrite Hprio, Hmask|by rewrite Hprio, (q_running_prio _ _ Q)|].
  assert (∀ c, truth (Z.land (Z.lor c SYSTICK_COUNTFLAG) SYSTICK_TICKINT) = truth (Z.land c SYSTICK_TICKINT)) as Hti.
  { intros c. unfold SYSTICK_TICKINT. rewrite !truth_land_bit, Z.lor_spec by lia. unfold SYSTICK_COUNTFLAG.
    rewrite testbit_bit by lia. apply orb_false_r. }
  assert (∀ c, truth (Z.land (Z.lor c SYSTICK_COUNTFLAG) SYSTICK_CLKSOURCE) = truth (Z.land c SYSTICK_CLKSOURCE)) as Hcs.
  { intros c. unfold SYSTICK_CLKSOURCE. rewrite !truth_land_bit, Z.lor_spec by lia. unfold SYSTICK_COUNTFLAG.
    rewrite testbit_bit by lia. apply orb_false_r. }
  assert (∀ c, Z.testbit (Z.lor c SYSTICK_COUNTFLAG) 16 = true) as Hcf.
  { intros c. rewrite Z.lor_spec. apply orb_true_r. }
  assert (∀ g, systick_scale sc (set_gic (set_control s (Z.lor (control (systick s)) SYSTICK_COUNTFLAG)) g) = systick_scale sc s) as Hscale.
  { intros g'. unfold systick_scale. cbn [set_gic set_control set_systick systick control]. by rewrite Hcs. }
  unfold systick_timer_tick. cbn [set_control set_systick systick control]. rewrite Hti, Ht.
  unfold armv7m_nvic_set_pending. cbn [gic set_control set_systick]. change (16 <=? ARMV7M_EXCP_SYSTICK) with false. cbn iota.
  change ARMV7M_EXCP_SYSTICK with 15. rewrite Hg. cbn [mbind res_bind set_gic set_control set_systick systick reload control].
  destruct (Z.eqb_spec (reload (systick s)) 0) as [E|E]; eexists _, _; (split; [reflexivity|]).
  - cbn [set_control set_systick gic systick control]. split_and!; try done.
    + rewrite Z.ldiff_spec, Hcf. done.
    + unfold SYSTICK_ENABLE. rewrite Z.ldiff_spec, testbit_bit by lia. apply andb_false_r.
  - unfold systick_reload. cbn [set_tick set_systick gic systick control tick reload set_gic set_control].
    rewrite Hscale. split_and!; try done. rewrite Z.mul_1_r. by rewrite (s64_small (s64 _)) by apply s64_range.
Qed.

Lemma systick_expiry_interrupts_witness :
  ∃ s' ops, systick_timer_tick 20 (mkNvic gic_example (mkSystick 3 99 100000) 0 0) = Ok (s', ops) ∧
    parent_irq (gic s') = 1 ∧ ops = [(0%nat, Some 200000)].
Proof.
  destruct (gic_started_inv (replicate 32 0) (0x40 :: replicate 63 0) eq_refl eq_refl) as [I _].
  destruct (systick_expiry_interrupts 20 (mkNvic gic_example (mkSystick 3 99 100000) 0 0) (mkIrq true false false false false true))
    as (s' & ops & H & Hl & _ & _ & _ & _ & Hn); [exact I|reflexivity|reflexivity|reflexivity|by vm_compute|by vm_compute|].
  exists s', ops. split; [exact H|]. split; [exact Hl|]. exact (proj2 Hn).
Defined.

(** A run of word writes of the guest, at given times, with the timer. *)
Fixpoint nvic_writes (sc : Z) (ws : list (Z * Z * Z)) (s : nvic_state) (l : timer_list) : res (nvic_state * timer_list) :=
  match ws with
  | [] => Ok (s, l)
  | (now, offset, value) :: ws =>
      '(s, ops) ← gic_dist_writel sc now offset value s;
      nvic_writes sc ws s (fold_left timer_op ops l)
  end.

Lemma reload_now sc now s :
  let t := s64 (now + u32 (reload (systick s) + 1) * systick_scale sc s) in
  systick_reload sc now true s = (set_tick s t, [(0%nat, Some t)]).
Proof. cbn zeta. unfold systick_reload. cbn. by rewrite Z.mul_1_r, (s64_small (s64 _)) by apply s64_range. Qed.

(** The counter is stopped with [t] in its time field, and is enabled. *)
Lemma enable_adds sc now v s :
  control (systick s) = 0 → Z.land v 1 = 1 → tick (systick s) ≠ 0 →
  ∃ s', nvic_write_control sc now v s = (s', [(0%nat, Some (s64 (tick (systick s) + now)))]).
Proof.
  intros Hc Hv Ht. unfold nvic_write_control. rewrite Hc, Z.lxor_0_l. change SYSTICK_ENABLE with 1. rewrite Hv.
  change (truth 1) with true. cbn iota. cbn [set_control set_systick systick tick].
  assert (truth (tick (systick s)) = true) as -> by by apply negb_true_iff, Z.eqb_neq.
  eexists. cbn [set_tick set_systick systick tick]. by rewrite Z.mul_1_r, (s64_small (s64 _)) by apply s64_range.
Qed.

(** The usual way to start SysTick makes its first tick late: a guest that writes
    the reload value, writes the current value and then enables the counter at time [t1]
    gets the first expiry one period after [t0 + t1] instead of one period after [t1],
    because the write of the current value leaves an absolute time in the field that
    enabling takes for the time left. *)
Theorem systick_start_is_late sc (s : nvic_state) t0 t1 r x v l :
  control (systick s) = 0 → 0 <= r < 2 ^ 32 - 1 → 0 < t0 <= t1 → t1 < 2 ^ 60 → Z.land v 1 = 1 → qemu_del_timer 0 l = [] →
  ∃ s', nvic_writes sc [(t0, 0x14, r); (t0, 0x18, x); (t1, 0x10, v)] s l =
    Ok (s', [(0%nat, t0 + t1 + (r + 1) * 1000)]).
Proof.
  intros Hc Hr Ht0 Ht1 Hv Hl. cbn [nvic_writes]. unfold gic_dist_writel. cbn [Z.ltb Z.compare Pos.compare Pos.compare_cont orb].
  set (s1 := set_systick s (control (systick s)) r (tick (systick s))). set (t := t0 + (r + 1) * 1000).
  assert (nvic_writel sc t0 0x14 r s = Ok (s1, [])) as -> by done. cbn [mbind res_bind fold_left].
  assert (nvic_writel sc t0 0x18 x s1 = Ok (set_systick s 0 r t, [(0%nat, Some t)])) as ->.
  { cbn [nvic_writel]. rewrite reload_now. unfold systick_scale. cbn [s1 set_systick systick control reload set_tick set_control tick].
    rewrite Hc. change (truth (Z.land 0 SYSTICK_CLKSOURCE)) with false. cbn iota.
    rewrite (u32_small (r + 1)), s64_small by (unfold is_s64; lia). done. }
  cbn [mbind res_bind fold_left timer_op]. unfold qemu_mod_timer_ns at 1. rewrite Hl. cbn [insert_timer head qemu_timer_expired_ns].
  cbn [nvic_writel]. destruct (enable_adds sc t1 v (set_systick s 0 r t)) as [s' ->]; [done|done|cbn; unfold t; lia|].
  cbn [set_systick systick tick mbind res_bind]. rewrite s64_small by (unfold is_s64, t; lia).
  exists s'. replace (t0 + t1 + (r + 1) * 1000) with (t + t1) by (unfold t; lia). done.
Qed.

Lemma systick_start_is_late_witness :
  ∃ s', nvic_writes 20 [(5000, 0x14, 9); (5000, 0x18, 0); (6000, 0x10, 7)] (mkNvic gic_example (mkSystick 0 0 0) 0 0) [] =
    Ok (s', [(0%nat, 21000)]).
Proof.
  exact (systick_start_is_late 20 (mkNvic gic_example (mkSystick 0 0 0) 0 0) 5000 6000 9 0 7 [] eq_refl ltac:(lia) ltac:(lia)
    ltac:(lia) eq_refl eq_refl).
Defined.

(** ** Defects of single registers *)

(** The software interrupt register takes numbers up to 1023, of which those from 96 on
    are outside of the array of interrupts. *)
Theorem nvic_soft_irq_out_of_bounds sc now v (s : nvic_state) :
  length (irq_state (gic s)) = 96%nat → 96 <= Z.land v 0x3ff →
  gic_dist_writel sc now 0xf00 v s = Err Out_of_bounds.
Proof.
  intros Hl Hv. unfold gic_dist_writel. cbn [Z.ltb Z.compare Pos.compare Pos.compare_cont Z.eqb Pos.eqb negb andb orb].
  unfold gic_soft_irq, gic_change, gic_irq. by rewrite aread_oob by lia.
Qed.

(** The processor's identification cannot be read: word accesses at 0xd00 are not passed
    on to the register that holds it. *)
Theorem nvic_cpuid_unreadable sc now (s : nvic_state) : gic_dist_readl sc now 0xd00 s = Err Hw_error.
Proof. reflexivity. Qed.

(** With the processor clock selected and [system_clock_scale] not yet set, reading the
    current value of a running counter divides by zero. *)
Theorem systick_zero_clock_divides now (s : nvic_state) :
  truth (Z.land (control (systick s)) SYSTICK_ENABLE) = true →
  truth (Z.land (control (systick s)) SYSTICK_CLKSOURCE) = true → now < tick (systick s) →
  gic_dist_readl 0 now 0x18 s = Err Div_by_zero.
Proof.
  intros He Hc Ht. unfold gic_dist_readl. cbn [Z.ltb Z.compare Pos.compare Pos.compare_cont orb nvic_readl].
  unfold systick_current, systick_scale. rewrite Hc.
  assert ((Z.land (control (systick s)) SYSTICK_ENABLE =? 0) = false) as -> by (unfold truth in He; by apply negb_true_iff in He).
  by rewrite (proj2 (Z.leb_gt _ _)).
Qed.

(** The number of the pending exception in the interrupt control state register is that
    of the GIC, 16 above the vector the processor will take. *)
Theorem nvic_vectpending_off_by_16 :
  ∃ v s', nvic_read_icsr gic_raised = Ok v ∧ Z.land (Z.shiftr v 12) 0x3ff = 32 ∧
    armv7m_nvic_acknowledge_irq nvic_raised = Ok (16, s').
Proof. eexists _, _. split; [vm_compute; reflexivity|]. split; vm_compute; reflexivity. Qed.
