(* ===== verification/V7m.v ===== *)
(** * V7m: exceptions of the ARMv7-M processor (target-arm/helper.c, target-arm/cpu.h)

    How the processor of the Stellaris boards takes an exception from the controller
    ([Nvic]) and returns from it: eight words are pushed on the stack in use, the
    handler runs on the main stack, and the exception return pops them.  The guest's
    physical memory is an interface, [PhysMem], with what RAM promises as its laws. *)

From stdpp Require Import sorting.
From S2P Require Import Prelude TimerList Gic GicFacts Nvic.
Local Open Scope Z_scope.

(** ** Memory *)

Class PhysMem (M : Type) := {
  ldl_phys : Z → M → Z;
  stl_phys : Z → Z → M → M;
}.
(** RAM: what was stored is loaded, and a store leaves other words alone. *)
Class PhysMemLaws (M : Type) `{PhysMem M} : Prop := {
  load_same a v m : is_u32 v → ldl_phys a (stl_phys a v m) = v;
  load_other a b v m : a + 4 <= b ∨ b + 4 <= a → ldl_phys a (stl_phys b v m) = ldl_phys a m;
}.

(** A flat little-endian RAM of bytes. *)
Definition ram : Type := Z → Z.
Definition ram_load (a : Z) (m : ram) : Z := m a + 2 ^ 8 * m (a + 1) + 2 ^ 16 * m (a + 2) + 2 ^ 24 * m (a + 3).
Definition ram_store (a v : Z) (m : ram) : ram := λ x,
  if x =? a then v mod 2 ^ 8 else if x =? a + 1 then v / 2 ^ 8 mod 2 ^ 8
  else if x =? a + 2 then v / 2 ^ 16 mod 2 ^ 8 else if x =? a + 3 then v / 2 ^ 24 mod 2 ^ 8 else m x.
#[export] Instance ram_mem : PhysMem ram := { ldl_phys := ram_load; stl_phys := ram_store }.
#[export] Instance ram_laws : PhysMemLaws ram.
Proof.
  constructor; cbn; intros; unfold ram_load, ram_store.
  - repeat match goal with |- context [?x =? ?y] => destruct (Z.eqb_spec x y); try lia end.
    unfold is_u32 in *. rewrite (Z.mod_small (v / 2 ^ 24)) by (split; [apply Z.div_pos; lia|apply Z.div_lt_upper_bound; lia]).
    pose proof (Z.div_mod v (2 ^ 8) ltac:(lia)). pose proof (Z.div_mod (v / 2 ^ 8) (2 ^ 8) ltac:(lia)).
    pose proof (Z.div_mod (v / 2 ^ 16) (2 ^ 8) ltac:(lia)).
    rewrite Z.div_div in * by lia. change (2 ^ 8 * 2 ^ 8) with (2 ^ 16) in *. change (2 ^ 16 * 2 ^ 8) with (2 ^ 24) in *. lia.
  - repeat match goal with |- context [?x =? ?y] => destruct (Z.eqb_spec x y); try lia end.
Qed.

(** ** The processor *)

Record arm_env := mkEnv {
  regs : list Z;
  ZF : Z; NF : Z; CF : Z; VF : Z; QF : Z;
  thumb : Z;
  condexec_bits : Z;
  uncached_cpsr : Z;
  current_sp : Z;
  other_sp : Z;
  exception : Z;                    (* v7m.exception *)
  nvic : nvic_state;
  basepri : Z;
  v7m_control : Z;
}.

Definition CPSR_Z : Z := Z.shiftl 1 30.
Definition CPSR_Q : Z := Z.shiftl 1 27.
Definition CPSR_NZCV : Z := 0xf0000000.
Definition CPSR_IT_0_1 : Z := Z.shiftl 3 25.
Definition CPSR_IT_2_7 : Z := 0xfc00.
Definition CPSR_IT : Z := Z.lor CPSR_IT_0_1 CPSR_IT_2_7.

Definition reg (e : arm_env) (n : nat) : Z := regs e !!! n.
Definition set_reg (n : nat) (v : Z) (e : arm_env) : arm_env :=
  mkEnv (<[n := v]> (regs e)) (ZF e) (NF e) (CF e) (VF e) (QF e) (thumb e) (condexec_bits e) (uncached_cpsr e)
    (current_sp e) (other_sp e) (exception e) (nvic e) (basepri e) (v7m_control e).
Definition set_flags (e : arm_env) (z n c v : Z) : arm_env :=
  mkEnv (regs e) z n c v (QF e) (thumb e) (condexec_bits e) (uncached_cpsr e)
    (current_sp e) (other_sp e) (exception e) (nvic e) (basepri e) (v7m_control e).
Definition set_QF (e : arm_env) (q : Z) : arm_env :=
  mkEnv (regs e) (ZF e) (NF e) (CF e) (VF e) q (thumb e) (condexec_bits e) (uncached_cpsr e)
    (current_sp e) (other_sp e) (exception e) (nvic e) (basepri e) (v7m_control e).
Definition set_thumb (e : arm_env) (t : Z) : arm_env :=
  mkEnv (regs e) (ZF e) (NF e) (CF e) (VF e) (QF e) t (condexec_bits e) (uncached_cpsr e)
    (current_sp e) (other_sp e) (exception e) (nvic e) (basepri e) (v7m_control e).
Definition set_condexec (e : arm_env) (c : Z) : arm_env :=
  mkEnv (regs e) (ZF e) (NF e) (CF e) (VF e) (QF e) (thumb e) c (uncached_cpsr e)
    (current_sp e) (other_sp e) (exception e) (nvic e) (basepri e) (v7m_control e).
Definition set_cpsr (e : arm_env) (c : Z) : arm_env :=
  mkEnv (regs e) (ZF e) (NF e) (CF e) (VF e) (QF e) (thumb e) (condexec_bits e) c
    (current_sp e) (other_sp e) (exception e) (nvic e) (basepri e) (v7m_control e).
Definition set_sps (e : arm_env) (cur other : Z) : arm_env :=
  mkEnv (regs e) (ZF e) (NF e) (CF e) (VF e) (QF e) (thumb e) (condexec_bits e) (uncached_cpsr e)
    cur other (exception e) (nvic e) (basepri e) (v7m_control e).
Definition set_exception (e : arm_env) (x : Z) : arm_env :=
  mkEnv (regs e) (ZF e) (NF e) (CF e) (VF e) (QF e) (thumb e) (condexec_bits e) (uncached_cpsr e)
    (current_sp e) (other_sp e) x (nvic e) (basepri e) (v7m_control e).
Definition set_nvic (e : arm_env) (n : nvic_state) : arm_env :=
  mkEnv (regs e) (ZF e) (NF e) (CF e) (VF e) (QF e) (thumb e) (condexec_bits e) (uncached_cpsr e)
    (current_sp e) (other_sp e) (exception e) n (basepri e) (v7m_control e).
Definition set_sysregs (e : arm_env) (b c : Z) : arm_env :=
  mkEnv (regs e) (ZF e) (NF e) (CF e) (VF e) (QF e) (thumb e) (condexec_bits e) (uncached_cpsr e)
    (current_sp e) (other_sp e) (exception e) (nvic e) b c.

Definition xpsr_read (e : arm_env) : Z :=
  fold_left Z.lor
    [Z.land (NF e) 0x80000000; Z.shiftl (flag (ZF e =? 0)) 30; Z.shiftl (CF e) 29;
     Z.shiftr (Z.land (VF e) 0x80000000) 3; Z.shiftl (QF e) 27; Z.shiftl (thumb e) 24;
     Z.shiftl (Z.land (condexec_bits e) 3) 25; Z.shiftl (Z.land (condexec_bits e) 0xfc) 8; exception e] 0.

Definition xpsr_write (val mask : Z) (e : arm_env) : arm_env :=
  let e := if truth (Z.land mask CPSR_NZCV)
           then set_flags e (Z.ldiff CPSR_Z val) val (Z.land (Z.shiftr val 29) 1) (Z.land (u32 (Z.shiftl val 3)) 0x80000000)
           else e in
  let e := if truth (Z.land mask CPSR_Q) then set_QF e (flag (truth (Z.land val CPSR_Q))) else e in
  let e := if truth (Z.land mask (Z.shiftl 1 24)) then set_thumb e (flag (truth (Z.land val (Z.shiftl 1 24)))) else e in
  let e := if truth (Z.land mask CPSR_IT_0_1)
           then set_condexec e (Z.lor (Z.ldiff (condexec_bits e) 3) (Z.land (Z.shiftr val 25) 3)) else e in
  let e := if truth (Z.land mask CPSR_IT_2_7)
           then set_condexec e (Z.lor (Z.land (condexec_bits e) 3) (Z.land (Z.shiftr val 8) 0xfc)) else e in
  if truth (Z.land mask 0x1ff) then set_exception e (Z.land val 0x1ff) else e.

Definition switch_v7m_sp (process : Z) (e : arm_env) : arm_env :=
  if negb (current_sp e =? process)
  then set_sps (set_reg 13 (other_sp e) e) process (reg e 13) else e.

Section memory.
Context {M : Type} `{PhysMem M}.

Definition v7m_push (val : Z) '((e, m) : arm_env * M) : arm_env * M :=
  let e := set_reg 13 (u32 (reg e 13 - 4)) e in (e, stl_phys (reg e 13) val m).

Definition v7m_pop '((e, m) : arm_env * M) : Z * arm_env :=
  (ldl_phys (reg e 13) m, set_reg 13 (u32 (reg e 13 + 4)) e).
(** A pop into a register. *)
Definition v7m_pop_reg (m : M) (e : arm_env) (n : nat) : arm_env :=
  let '(v, e) := v7m_pop (e, m) in set_reg n v e.

(** The end of [do_v7m_exception_exit]: the frame is popped and the stack pointer is
    put back to where it was before it was aligned. *)
Definition v7m_unstack (m : M) (e : arm_env) : arm_env :=
  let e := fold_left (v7m_pop_reg m) [0; 1; 2; 3; 12; 14; 15]%nat e in
  let '(xpsr, e) := v7m_pop (e, m) in
  let e := xpsr_write xpsr 0xfffffdff e in
  if truth (Z.land xpsr 0x200) then set_reg 13 (Z.lor (reg e 13) 4) e else e.

Definition do_v7m_exception_exit (fuel : nat) '((e, m) : arm_env * M) : res (arm_env * M) :=
  let type := reg e 15 in
  e ← (if negb (exception e =? 0)
       then n ← armv7m_nvic_complete_irq fuel (exception e) (nvic e); Ok (set_nvic e n) else Ok e);
  Ok (v7m_unstack m (switch_v7m_sp (flag (truth (Z.land type 4))) e), m).

(** The words pushed for an exception, the first at the highest address. *)
Definition v7m_frame (xpsr : Z) (e : arm_env) : list Z :=
  [xpsr; reg e 15; reg e 14; reg e 12; reg e 3; reg e 2; reg e 1; reg e 0].

(** The end of [do_interrupt_v7m]: the stack is aligned, the frame pushed, and the
    handler fetched from the vector table. *)
Definition v7m_enter (xpsr lr : Z) '((e, m) : arm_env * M) : arm_env * M :=
  let '(e, xpsr) := if truth (Z.land (reg e 13) 4)
                    then (set_reg 13 (u32 (reg e 13 - 4)) e, Z.lor xpsr 0x200) else (e, xpsr) in
  let '(e, m) := fold_left (λ em v, v7m_push v em) (v7m_frame xpsr e) (e, m) in
  let e := switch_v7m_sp 0 e in
  let e := set_cpsr e (Z.ldiff (uncached_cpsr e) CPSR_IT) in
  let e := set_reg 14 lr e in
  let addr := ldl_phys (u32 (vecbase (nvic e) + exception e * 4)) m in
  (set_thumb (set_reg 15 (Z.land addr 0xfffffffe) e) (Z.land addr 1), m).

Definition EXCP_IRQ : Z := 5.
Definition EXCP_EXCEPTION_EXIT : Z := 8.

Definition env_pend (irq : Z) '((e, m) : arm_env * M) : res (arm_env * M) :=
  n ← armv7m_nvic_set_pending irq (nvic e); Ok (set_nvic e n, m).

(** What a breakpoint needs of the host: the switch, the fetch of the instruction and the
    semihosting call, which returns what goes to r0. *)
Record semihosting_ops := {
  semihosting_enabled : bool;
  lduw_code : Z → M → Z;
  do_arm_semihosting : arm_env * M → Z * (arm_env * M);
}.

Definition v7m_bkpt (semihosting : semihosting_ops) '((e, m) : arm_env * M) : res (arm_env * M) :=
  if semihosting_enabled semihosting && (Z.land (lduw_code semihosting (reg e 15) m) 0xff =? 0xab) then
    let '(r, (e, m)) := do_arm_semihosting semihosting (set_reg 15 (u32 (reg e 15 + 2)) e, m) in
    Ok (set_reg 0 r e, m)
  else env_pend ARMV7M_EXCP_DEBUG (e, m).

(** [exception_index] is the exception the processor raises. *)
Definition do_interrupt_v7m (semihosting : semihosting_ops) (fuel : nat) (exception_index : Z)
    '((e, m) : arm_env * M) : res (arm_env * M) :=
  let xpsr := xpsr_read e in
  let lr := 0xfffffff1 in
  let lr := if truth (current_sp e) then Z.lor lr 4 else lr in
  let lr := if exception e =? 0 then Z.lor lr 8 else lr in
  match exception_index with
  | 1 => env_pend ARMV7M_EXCP_USAGE (e, m)
  | 2 => env_pend ARMV7M_EXCP_SVC (set_reg 15 (u32 (reg e 15 + 2)) e, m)
  | 3 | 4 => env_pend ARMV7M_EXCP_MEM (e, m)
  | 7 => v7m_bkpt semihosting (e, m)
  | 5 =>
      '(v, n) ← armv7m_nvic_acknowledge_irq (nvic e);
      Ok (v7m_enter xpsr lr (set_exception (set_nvic e n) v, m))
  | 8 => do_v7m_exception_exit fuel (e, m)
  | _ => Err Hw_error
  end.
End memory.

(** ** The program status register *)

Record env_wf (e : arm_env) : Prop := {
  wf_regs : length (regs e) = 16%nat;
  wf_words : Forall is_u32 (regs e);
  wf_CF : CF e = 0 ∨ CF e = 1;
  wf_QF : QF e = 0 ∨ QF e = 1;
  wf_thumb : thumb e = 0 ∨ thumb e = 1;
  wf_condexec : 0 <= condexec_bits e < 2 ^ 8;
  wf_sp : current_sp e = 0 ∨ current_sp e = 1;
  wf_other : is_u32 (other_sp e);
  wf_exception : 0 <= exception e < 2 ^ 9;
}.

Lemma reg_word e n : env_wf e → (n < 16)%nat → is_u32 (reg e n).
Proof.
  intros W Hn. pose proof (wf_words e W) as Hr. rewrite Forall_lookup in Hr. apply (Hr n).
  unfold reg. apply list_lookup_lookup_total_lt. rewrite (wf_regs e W). lia.
Qed.

(** The flags and the exception number agree: Z is set iff the field [ZF] is 0, N and V
    are the top bits of their fields. *)
Record same_status (e e' : arm_env) : Prop := {
  same_Z : (ZF e =? 0) = (ZF e' =? 0);
  same_N : Z.testbit (NF e) 31 = Z.testbit (NF e') 31;
  same_C : CF e = CF e';
  same_V : Z.testbit (VF e) 31 = Z.testbit (VF e') 31;
  same_Q : QF e = QF e';
  same_thumb : thumb e = thumb e';
  same_condexec : condexec_bits e = condexec_bits e';
  same_exception : exception e = exception e';
}.

Lemma bit_shift b k i : b = 0 ∨ b = 1 → 0 <= k → 0 <= i → Z.testbit (Z.shiftl b k) i = (i =? k) && (b =? 1).
Proof.
  intros [-> | ->] Hk Hi; [by rewrite Z.shiftl_0_l, Z.bits_0, andb_false_r|].
  rewrite testbit_bit by done. by rewrite andb_true_r.
Qed.
Lemma small_bit a k i : 0 <= a < 2 ^ k → k <= i → Z.testbit a i = false.
Proof.
  intros Ha Hi. destruct (decide (a = 0)) as [->|]; [apply Z.bits_0|].
  apply Z.bits_above_log2; [lia|]. assert (Z.log2 a < k) by (apply Z.log2_lt_pow2; lia). lia.
Qed.
Lemma bits3 i : Z.testbit 3 i = (0 <=? i) && (i <? 2).
Proof.
  destruct (Z.leb_spec 0 i); [|by rewrite Z.testbit_neg_r]. cbn [andb].
  destruct (Z.ltb_spec i 2); [|apply (small_bit 3 2); lia]. assert (i = 0 ∨ i = 1) as [-> | ->] by lia; done.
Qed.
Lemma bits_fc i : Z.testbit 0xfc i = (2 <=? i) && (i <? 8).
Proof.
  destruct (Z.leb_spec 2 i).
  - destruct (Z.ltb_spec i 8); [|apply (small_bit 0xfc 8); lia].
    assert (i = 2 ∨ i = 3 ∨ i = 4 ∨ i = 5 ∨ i = 6 ∨ i = 7) as Hi by lia. destruct_or!; subst; done.
  - destruct (Z.ltb_spec i 0); [by rewrite Z.testbit_neg_r|]. assert (i = 0 ∨ i = 1) as [-> | ->] by lia; done.
Qed.

Lemma xpsr_bits e i :
  env_wf e → 0 <= i →
  Z.testbit (xpsr_read e) i =
    ((i =? 31) && Z.testbit (NF e) 31) || ((i =? 30) && (ZF e =? 0)) || ((i =? 29) && (CF e =? 1)) ||
    ((i =? 28) && Z.testbit (VF e) 31) || ((i =? 27) && (QF e =? 1)) || ((i =? 24) && (thumb e =? 1)) ||
    ((25 <=? i) && (i <? 27) && Z.testbit (condexec_bits e) (i - 25)) ||
    ((10 <=? i) && (i <? 16) && Z.testbit (condexec_bits e) (i - 8)) || ((i <? 9) && Z.testbit (exception e) i).
Proof.
  intros W Hi. unfold xpsr_read. cbn [fold_left]. rewrite !Z.lor_spec, Z.bits_0. cbn [orb].
  change 0x80000000 with (Z.shiftl 1 31). f_equal; [f_equal; [f_equal; [f_equal; [f_equal; [f_equal; [f_equal; [f_equal|]|]|]|]|]|]|].
  - rewrite Z.land_spec, testbit_bit by lia. destruct (Z.eqb_spec i 31) as [->|]; [by rewrite andb_true_r|apply andb_false_r].
  - rewrite bit_shift by (destruct (ZF e =? 0); auto || lia). f_equal. by destruct (ZF e =? 0).
  - apply bit_shift; [apply W|lia|done].
  - rewrite Z.shiftr_spec, Z.land_spec, testbit_bit by lia.
    destruct (Z.eqb_spec i 28) as [->|]; [by rewrite andb_true_r|].
    rewrite (proj2 (Z.eqb_neq (i + 3) 31)) by lia. apply andb_false_r.
  - apply bit_shift; [apply W|lia|done].
  - apply bit_shift; [apply W|lia|done].
  - rewrite Z.shiftl_spec, Z.land_spec, bits3, andb_comm by lia. f_equal. f_equal; [destruct (Z.leb_spec 25 i), (Z.leb_spec 0 (i - 25)); lia || done|].
    destruct (Z.ltb_spec i 27), (Z.ltb_spec (i - 25) 2); lia || done.
  - rewrite Z.shiftl_spec, Z.land_spec, bits_fc, andb_comm by lia. f_equal. f_equal; [destruct (Z.leb_spec 10 i), (Z.leb_spec 2 (i - 8)); lia || done|].
    destruct (Z.ltb_spec i 16), (Z.ltb_spec (i - 8) 8); lia || done.
  - destruct (Z.ltb_spec i 9); [done|]. apply (small_bit _ 9); [apply W|lia].
Qed.

Lemma land1_bit v k : 0 <= k → Z.land (Z.shiftr v k) 1 = flag (Z.testbit v k).
Proof.
  intros Hk. change 1 with (2 ^ 1 - 1). rewrite land_mod by lia. rewrite Z.shiftr_div_pow2 by done.
  change (2 ^ 1) with 2. rewrite <- Z.testbit_spec' by done. by destruct (Z.testbit v k).
Qed.
Lemma flag_eqb b : b = 0 ∨ b = 1 → flag (b =? 1) = b.
Proof. by intros [-> | ->]. Qed.

(** Decide the comparisons of numbers in the goal. *)
Ltac decide_all :=
  repeat match goal with
  | |- context [?x =? ?y] => rewrite (proj2 (Z.eqb_neq x y)) by lia
  | |- context [?x =? ?y] => rewrite (proj2 (Z.eqb_eq x y)) by lia
  | |- context [?x <=? ?y] => rewrite (proj2 (Z.leb_le x y)) by lia
  | |- context [?x <=? ?y] => rewrite (proj2 (Z.leb_gt x y)) by lia
  | |- context [?x <? ?y] => rewrite (proj2 (Z.ltb_lt x y)) by lia
  | |- context [?x <? ?y] => rewrite (proj2 (Z.ltb_ge x y)) by lia
  end; cbn [andb orb negb]; rewrite ?orb_false_r, ?andb_false_r, ?andb_true_r; cbn [andb orb negb]; rewrite ?orb_false_r.

(** Writing back what was read, whatever bit 9 is, restores the status. *)
Lemma xpsr_restore e e2 val :
  env_wf e → (∀ i, 0 <= i → i ≠ 9 → Z.testbit val i = Z.testbit (xpsr_read e) i) →
  same_status (xpsr_write val 0xfffffdff e2) e.
Proof.
  intros W Hv. assert (∀ i, 0 <= i → i ≠ 9 → Z.testbit val i = _) as Hb
    by (intros i Hi H9; rewrite (Hv i Hi H9); exact (xpsr_bits e i W Hi)). clear Hv.
  unfold xpsr_write. change (truth (Z.land 0xfffffdff CPSR_NZCV)) with true. change (truth (Z.land 0xfffffdff CPSR_Q)) with true.
  change (truth (Z.land 0xfffffdff (Z.shiftl 1 24))) with true. change (truth (Z.land 0xfffffdff CPSR_IT_0_1)) with true.
  change (truth (Z.land 0xfffffdff CPSR_IT_2_7)) with true. change (truth (Z.land 0xfffffdff 0x1ff)) with true. cbn iota.
  constructor; cbn [ZF NF CF VF QF thumb condexec_bits exception set_exception set_condexec set_thumb set_QF set_flags].
  - unfold CPSR_Z. assert (Z.ldiff (Z.shiftl 1 30) val = if Z.testbit val 30 then 0 else Z.shiftl 1 30) as ->.
    { apply Z.bits_inj'. intros n Hn. rewrite Z.ldiff_spec, testbit_bit by lia. destruct (Z.eqb_spec n 30) as [->|]; cbn [andb].
      - destruct (Z.testbit val 30); [by rewrite Z.bits_0|by rewrite testbit_bit].
      - destruct (Z.testbit val 30); [by rewrite Z.bits_0|]. rewrite testbit_bit by lia. symmetry. by apply Z.eqb_neq. }
    rewrite Hb by lia. decide_all. by destruct (ZF e =? 0).
  - rewrite Hb by lia. by decide_all.
  - rewrite land1_bit, Hb by lia. decide_all. apply flag_eqb, W.
  - change 0x80000000 with (Z.shiftl 1 31). rewrite Z.land_spec, testbit_bit by lia. rewrite Z.eqb_refl, andb_true_r.
    unfold u32. rewrite Z.mod_pow2_bits_low, Z.shiftl_spec by lia. rewrite Hb by lia. by decide_all.
  - unfold CPSR_Q. rewrite truth_land_bit, Hb by lia. decide_all. apply flag_eqb, W.
  - rewrite truth_land_bit, Hb by lia. decide_all. apply flag_eqb, W.
  - apply Z.bits_inj'. intros n Hn. rewrite !Z.lor_spec, !Z.land_spec, Z.lor_spec, Z.ldiff_spec, Z.land_spec, bits3, bits_fc, !Z.shiftr_spec by lia.
    destruct (Z.lt_ge_cases n 2); [|destruct (Z.lt_ge_cases n 8)]; decide_all.
    + rewrite Hb by lia. decide_all. f_equal. lia.
    + rewrite Hb by lia. decide_all. f_equal. lia.
    + symmetry. apply (small_bit _ 8); [apply W|lia].
  - apply Z.bits_inj'. intros n Hn. change 0x1ff with (2 ^ 9 - 1). rewrite land_mod by lia. destruct (Z.lt_ge_cases n 9).
    + rewrite Z.mod_pow2_bits_low, Hb by lia. by decide_all.
    + rewrite Z.mod_pow2_bits_high by lia. symmetry. apply (small_bit _ 9); [apply W|lia].
Qed.

Lemma xpsr_word e : env_wf e → is_u32 (xpsr_read e) ∧ Z.testbit (xpsr_read e) 9 = false.
Proof.
  intros W. split; [apply is_u32_bits|].
  - unfold xpsr_read. cbn [fold_left]. destruct W. rewrite !Z.lor_nonneg. split_and!; try lia.
    all: rewrite ?Z.shiftl_nonneg, ?Z.shiftr_nonneg; try (apply Z.land_nonneg; right; lia); try lia. by destruct (ZF e =? 0).
  - intros n Hn. rewrite xpsr_bits by (done || lia). by decide_all.
  - rewrite xpsr_bits by (done || lia). by decide_all.
Qed.

(** ** The stack *)

Section stack.
Context {M : Type} `{PhysMemLaws M}.
Implicit Types (m : M) (e : arm_env).

(** The words [ws] lie below address [a], the first on top. *)
Definition frame_at (m : M) (a : Z) (ws : list Z) : Prop :=
  ∀ i w, ws !! i = Some w → ldl_phys (a - 4 * (Z.of_nat i + 1)) m = w.

Lemma set_reg_twice n a b e : set_reg n a (set_reg n b e) = set_reg n a e.
Proof. unfold set_reg. cbn. by rewrite list_insert_insert_eq. Qed.
Lemma reg_set_same n v e : (n < length (regs e))%nat → reg (set_reg n v e) n = v.
Proof. intros Hn. unfold reg, set_reg. cbn. by apply list_lookup_total_insert_eq. Qed.
Lemma reg_set_other n k v e : n ≠ k → reg (set_reg n v e) k = reg e k.
Proof. intros Hn. unfold reg, set_reg. cbn. by apply list_lookup_total_insert_ne. Qed.

Lemma set_reg_id n e : (n < length (regs e))%nat → set_reg n (reg e n) e = e.
Proof.
  intros Hn. unfold set_reg, reg. rewrite list_insert_id by (apply list_lookup_lookup_total_lt; lia). by destruct e.
Qed.

Lemma push_frame ws e m a :
  length (regs e) = 16%nat → reg e 13 = a → 4 * Z.of_nat (length ws) <= a < 2 ^ 32 → Forall is_u32 ws → ws ≠ [] →
  ∃ m', fold_left (λ em v, v7m_push v em) ws (e, m) = (set_reg 13 (a - 4 * Z.of_nat (length ws)) e, m') ∧
    frame_at m' a ws ∧ ∀ b, a <= b → ldl_phys b m' = ldl_phys b m.
Proof.
  revert e m a. induction ws as [|w ws IH]; intros e m a Hl Ha Hr Hw Hne; [done|]. cbn [length] in Hr.
  apply Forall_cons in Hw as [Hw Hws]. cbn [fold_left]. unfold v7m_push at 2. rewrite Ha, u32_small by lia.
  set (e1 := set_reg 13 (a - 4) e). set (m1 := stl_phys _ w m).
  assert (reg e1 13 = a - 4) as H13 by (apply reg_set_same; lia).
  assert (ldl_phys (a - 4) m1 = w) as Hm1 by (unfold m1; rewrite H13; by apply load_same).
  assert (∀ b, a <= b → ldl_phys b m1 = ldl_phys b m) as Hout by (intros b Hb; unfold m1; rewrite H13; apply load_other; lia).
  destruct (decide (ws = [])) as [->|Hws0].
  - exists m1. cbn [fold_left length]. split; [do 2 f_equal; lia|]. split; [|done].
    intros i v Hi. destruct i as [|i]; [|done]. injection Hi as ->. rewrite <- Hm1. f_equal; lia.
  - destruct (IH e1 m1 (a - 4)) as (m' & Hf & Hfr & Hab); [by unfold e1; cbn; rewrite length_insert|done|lia|done|done|].
    exists m'. rewrite Hf. split.
    { f_equal. unfold e1. rewrite set_reg_twice. f_equal. cbn [length]. lia. }
    split.
    + intros i v Hi. destruct i as [|i]; [injection Hi as ->|].
      * rewrite <- Hm1. replace (a - 4 * (Z.of_nat 0 + 1)) with (a - 4) by lia. apply Hab. lia.
      * rewrite <- (Hfr i v Hi). f_equal. lia.
    + intros b Hb. rewrite Hab by lia. by apply Hout.
Qed.

(** Popping registers other than the stack pointer. *)
Lemma pop_regs ns m e a :
  length (regs e) = 16%nat → reg e 13 = a → 0 <= a → a + 4 * Z.of_nat (length ns) < 2 ^ 32 →
  NoDup ns → Forall (λ n, n ≠ 13 ∧ n < 16)%nat ns →
  let e' := fold_left (v7m_pop_reg m) ns e in
  length (regs e') = 16%nat ∧ reg e' 13 = a + 4 * Z.of_nat (length ns) ∧
  (∀ i n, ns !! i = Some n → reg e' n = ldl_phys (a + 4 * Z.of_nat i) m) ∧
  (∀ n, n ∉ ns → n ≠ 13%nat → reg e' n = reg e n) ∧
  current_sp e' = current_sp e ∧ other_sp e' = other_sp e ∧ nvic e' = nvic e.
Proof.
  revert e a. induction ns as [|n ns IH]; intros e a Hl Ha Hpos Hr Hnd Hn; cbn zeta.
  - cbn [fold_left length]. split_and!; try done; lia.
  - apply NoDup_cons in Hnd as [Hni Hnd]. apply Forall_cons in Hn as [[Hn13 Hn16] Hn]. cbn [length] in Hr.
    set (e1 := set_reg n (ldl_phys a m) (set_reg 13 (a + 4) e)).
    assert (v7m_pop_reg m e n = e1) as Hpop by (unfold v7m_pop_reg; cbn [v7m_pop]; rewrite Ha, u32_small by lia; done).
    cbn [fold_left]. rewrite Hpop. destruct (IH e1 (a + 4)) as (I1 & I2 & I3 & I4 & I5 & I6 & I7).
    + unfold e1. cbn. by rewrite !length_insert.
    + unfold e1. rewrite reg_set_other by done. apply reg_set_same. lia.
    + lia.
    + lia.
    + done.
    + done.
    + split_and!; [done|rewrite I2; cbn [length]; lia| | |done|done|done].
      * intros i k Hi. destruct i as [|i]; [injection Hi as <-|].
        -- rewrite I4 by done. unfold e1. rewrite reg_set_same by (cbn; rewrite length_insert; lia). f_equal. lia.
        -- rewrite (I3 i k Hi). f_equal. lia.
      * intros k [Hkn Hk]%not_elem_of_cons H13. rewrite I4 by done. unfold e1. by rewrite !reg_set_other.
Qed.

(** ** Taking an exception and returning from it *)

(** The stack pointer aligned for an exception. *)
Definition aligned_sp (sp : Z) : Z := if truth (Z.land sp 4) then sp - 4 else sp.
Definition pushed_xpsr (sp xpsr : Z) : Z := if truth (Z.land sp 4) then Z.lor xpsr 0x200 else xpsr.

(** The registers of the handler and the frame it finds. *)
Record entered_handler (xpsr lr : Z) (e : arm_env) (e1 : arm_env) (m1 : M) : Prop := {
  eh_len : length (regs e1) = 16%nat;
  eh_sp : (if truth (current_sp e) then other_sp e1 else reg e1 13) = aligned_sp (reg e 13) - 32;
  eh_main : (if truth (current_sp e) then reg e1 13 else other_sp e1) = other_sp e;
  eh_current : current_sp e1 = 0;
  eh_lr : reg e1 14 = lr;
  eh_saved n : (4 ≤ n ≤ 11)%nat → reg e1 n = reg e n;
  eh_exception : exception e1 = exception e;
  eh_nvic : nvic e1 = nvic e;
  eh_frame : frame_at m1 (aligned_sp (reg e 13)) (v7m_frame (pushed_xpsr (reg e 13) xpsr) e);
  eh_pc : reg e1 15 = Z.land (ldl_phys (u32 (vecbase (nvic e) + exception e * 4)) m1) 0xfffffffe;
}.

Lemma frame_words xpsr e : is_u32 xpsr → length (regs e) = 16%nat → Forall is_u32 (regs e) → Forall is_u32 (v7m_frame xpsr e).
Proof.
  intros Hx Hl Hr. assert (∀ n, (n < 16)%nat → is_u32 (reg e n)) as Hreg.
  { intros n Hn. rewrite Forall_lookup in Hr. apply (Hr n). unfold reg. apply list_lookup_lookup_total_lt. lia. }
  unfold v7m_frame. repeat (apply Forall_cons; split; [first [done|apply Hreg; lia]|]). by apply Forall_nil.
Qed.

Lemma enter_ok xpsr lr e m :
  env_wf e → 36 <= reg e 13 → is_u32 xpsr →
  ∃ e1 m1, v7m_enter xpsr lr (e, m) = (e1, m1) ∧ entered_handler xpsr lr e e1 m1.
Proof.
  intros W Hsp Hx. assert (length (regs e) = 16%nat) as Hl by apply W.
  assert (is_u32 (reg e 13)) as Hr13.
  { pose proof (wf_words e W) as Hr. rewrite Forall_lookup in Hr. apply (Hr 13%nat). unfold reg. apply list_lookup_lookup_total_lt. lia. }
  unfold is_u32 in Hr13. set (a := aligned_sp (reg e 13)). set (x := pushed_xpsr (reg e 13) xpsr).
  set (ea := set_reg 13 a e). assert (36 - 4 <= a < 2 ^ 32) as Ha by (unfold a, aligned_sp; destruct (truth _); lia).
  assert (v7m_enter xpsr lr (e, m) =
    (let '(e', m') := fold_left (λ em v, v7m_push v em) (v7m_frame x ea) (ea, m) in
     let e' := set_reg 14 lr (set_cpsr (switch_v7m_sp 0 e') (Z.ldiff (uncached_cpsr (switch_v7m_sp 0 e')) CPSR_IT)) in
     let addr := ldl_phys (u32 (vecbase (nvic e') + exception e' * 4)) m' in
     (set_thumb (set_reg 15 (Z.land addr 0xfffffffe) e') (Z.land addr 1), m'))) as ->.
  { unfold v7m_enter, ea, x, a, aligned_sp, pushed_xpsr. destruct (truth (Z.land (reg e 13) 4)); [by rewrite u32_small by lia|].
    by rewrite set_reg_id by lia. }
  assert (length (regs ea) = 16%nat) as Hla by (unfold ea; cbn; by rewrite length_insert).
  assert (∀ n, n ≠ 13%nat → reg ea n = reg e n) as Hrea by (intros n Hn; unfold ea; by apply reg_set_other).
  assert (v7m_frame x ea = v7m_frame x e) as Hfe by (unfold v7m_frame; by rewrite !Hrea).
  destruct (push_frame (v7m_frame x ea) ea m a) as (m1 & Hp & Hfr & _).
  - done.
  - unfold ea. apply reg_set_same. lia.
  - cbn. lia.
  - rewrite Hfe. apply frame_words; [|apply W|apply W]. unfold x, pushed_xpsr. destruct (truth _); [|done]. by apply is_u32_lor.
  - done.
  - rewrite Hp. cbn beta iota zeta. eexists _, m1. split; [reflexivity|]. rewrite Hfe in Hfr.
    change (4 * Z.of_nat (length (v7m_frame x ea))) with 32. unfold ea. rewrite set_reg_twice. clear Hp Hrea Hfe Hla ea.
    assert (∀ k v e0, length (regs (set_reg k v e0)) = length (regs e0)) as Hlen by (intros; cbn; apply length_insert).
    unfold switch_v7m_sp. cbn [current_sp set_reg].
    destruct (wf_sp e W) as [Hc|Hc]; rewrite Hc; cbn [Z.eqb negb]; constructor; rewrite ?Hc; cbn [truth negb Z.eqb];
      try done; try intros n Hn; unfold reg; cbn [regs other_sp set_thumb set_cpsr set_sps set_reg];
      repeat first [rewrite list_lookup_total_insert_ne by lia | rewrite list_lookup_total_insert_eq by (rewrite ?length_insert; lia)];
      rewrite ?length_insert; done.
Qed.

Lemma unalign sp : truth (Z.land sp 4) = true → Z.lor (sp - 4) 4 = sp.
Proof.
  change 4 with (Z.shiftl 1 2) at 1. rewrite truth_land_bit by lia. intros Hb.
  assert (Z.ldiff 4 sp = 0) as Hd.
  { apply Z.bits_inj'. intros n Hn. change 4 with (Z.shiftl 1 2). rewrite Z.ldiff_spec, testbit_bit, Z.bits_0 by lia.
    destruct (Z.eqb_spec n 2) as [->|]; [by rewrite Hb|done]. }
  rewrite Z.sub_nocarry_ldiff by done. apply Z.bits_inj'. intros n Hn. change 4 with (Z.shiftl 1 2).
  rewrite Z.lor_spec, Z.ldiff_spec, testbit_bit by lia. destruct (Z.eqb_spec n 2) as [->|]; [by rewrite orb_true_r|].
  by rewrite andb_true_r, orb_false_r.
Qed.
Lemma unalign_sp sp : (if truth (Z.land sp 4) then Z.lor (aligned_sp sp) 4 else aligned_sp sp) = sp.
Proof. unfold aligned_sp. destruct (truth (Z.land sp 4)) eqn:Ht; [by apply unalign|done]. Qed.
Lemma unalign_env (b : bool) ew :
  length (regs ew) = 16%nat → let e3 := if b then set_reg 13 (Z.lor (reg ew 13) 4) ew else ew in
  reg e3 13 = (if b then Z.lor (reg ew 13) 4 else reg ew 13) ∧ (∀ n, n ≠ 13%nat → reg e3 n = reg ew n) ∧
  (∀ e, same_status ew e → same_status e3 e) ∧ current_sp e3 = current_sp ew ∧ other_sp e3 = other_sp ew ∧ nvic e3 = nvic ew.
Proof.
  intros Hl. destruct b; cbn zeta; [|done]. split_and!; try done.
  - apply reg_set_same. lia.
  - intros n Hn. by apply reg_set_other.
  - intros e []. by constructor.
Qed.
Lemma pushed_xpsr_bits sp e :
  env_wf e → let x := pushed_xpsr sp (xpsr_read e) in
  (∀ i, 0 <= i → i ≠ 9 → Z.testbit x i = Z.testbit (xpsr_read e) i) ∧ truth (Z.land x 0x200) = truth (Z.land sp 4).
Proof.
  intros W. cbn zeta. destruct (xpsr_word e W) as [_ H9]. unfold pushed_xpsr. change 0x200 with (Z.shiftl 1 9).
  rewrite truth_land_bit by lia. destruct (truth (Z.land sp 4)); [|done]. split.
  - intros i Hi Hne. rewrite Z.lor_spec, testbit_bit, (proj2 (Z.eqb_neq i 9)) by lia. apply orb_false_r.
  - rewrite Z.lor_spec, testbit_bit by lia. apply orb_true_r.
Qed.

(** What the return from an exception restores. *)
Record restored (e e2 e3 : arm_env) : Prop := {
  r_popped n : n ∈ [0; 1; 2; 3; 12; 13; 14; 15]%nat → reg e3 n = reg e n;
  r_kept n : (4 ≤ n ≤ 11)%nat → reg e3 n = reg e2 n;
  r_status : same_status e3 e;
}.

Lemma restored_regs e e2 e3 :
  restored e e2 e3 → (∀ n, (4 ≤ n ≤ 11)%nat → reg e2 n = reg e n) → ∀ n, (n < 16)%nat → reg e3 n = reg e n.
Proof.
  intros [Q1 Q2 _] Hk n Hn. destruct (decide (4 ≤ n ≤ 11)%nat) as [Hs|Hs]; [by rewrite Q2, Hk by auto|].
  apply Q1. assert (n = 0 ∨ n = 1 ∨ n = 2 ∨ n = 3 ∨ n = 12 ∨ n = 13 ∨ n = 14 ∨ n = 15)%nat as Hc' by lia.
  destruct_or!; subst n; by apply (bool_decide_unpack (_ ∈ _)).
Qed.

Lemma xpsr_write_regs val mask e : regs (xpsr_write val mask e) = regs e ∧ current_sp (xpsr_write val mask e) = current_sp e ∧
  other_sp (xpsr_write val mask e) = other_sp e ∧ nvic (xpsr_write val mask e) = nvic e.
Proof. unfold xpsr_write. by repeat (case_match; cbn). Qed.

Lemma unstack_ok e es m2 :
  let a := aligned_sp (reg e 13) in
  env_wf e → 36 <= reg e 13 < 2 ^ 32 → length (regs es) = 16%nat → reg es 13 = a - 32 →
  frame_at m2 a (v7m_frame (pushed_xpsr (reg e 13) (xpsr_read e)) e) →
  let e3 := v7m_unstack m2 es in
  restored e es e3 ∧ current_sp e3 = current_sp es ∧ other_sp e3 = other_sp es ∧ nvic e3 = nvic es.
Proof.
  cbn zeta. set (a := aligned_sp _). intros W Hsp S1 S2 Hfr. unfold v7m_unstack.
  assert (32 <= a < 2 ^ 32) as Ha by (unfold a, aligned_sp; destruct (truth (Z.land (reg e 13) 4)); lia).
  destruct (pop_regs [0; 1; 2; 3; 12; 14; 15]%nat m2 es (a - 32)) as (P1 & P2 & P3 & P4 & P5 & P6 & P7);
    [done|done|lia|cbn; lia|by apply (bool_decide_unpack (NoDup _))|by repeat (apply Forall_cons; split; [lia|])|].
  set (ep := fold_left (v7m_pop_reg m2) _ es) in *. clearbody ep. cbn [v7m_pop]. rewrite P2. cbn [length].
  replace (a - 32 + 4 * Z.of_nat 7) with (a - 4) by lia. rewrite u32_small by lia.
  destruct (pushed_xpsr_bits (reg e 13) e W) as [Hxb Hx9]. set (x := pushed_xpsr _ _) in *. clearbody x.
  pose proof (Hfr 0%nat x eq_refl) as Hx0. replace (a - 4 * (Z.of_nat 0 + 1)) with (a - 4) in Hx0 by lia. rewrite Hx0, Hx9.
  pose proof (xpsr_restore e (set_reg 13 (a - 4 + 4) ep) x W Hxb) as Hst.
  destruct (xpsr_write_regs x 0xfffffdff (set_reg 13 (a - 4 + 4) ep)) as (X1 & X2 & X3 & X4).
  set (ew := xpsr_write x _ _) in *. clearbody ew. replace (a - 4 + 4) with a in * by lia.
  assert (∀ n, reg ew n = reg (set_reg 13 a ep) n) as Hew by (intros n; unfold reg; by rewrite X1).
  assert (reg ew 13 = a) as Hew13 by (rewrite Hew; apply reg_set_same; lia).
  assert (length (regs ew) = 16%nat) as Hewl by (rewrite X1; cbn; rewrite length_insert; exact P1).
  destruct (unalign_env (truth (Z.land (reg e 13) 4)) ew Hewl) as (E1 & E2' & E3 & E4 & E5 & E6).
  set (e3 := if truth (Z.land (reg e 13) 4) then set_reg 13 _ _ else ew) in *. clearbody e3.
  specialize (E3 e Hst). rewrite Hew13 in E1. unfold a in E1. rewrite unalign_sp in E1.
  rewrite X2 in E4. rewrite X3 in E5. rewrite X4 in E6.
  assert (∀ n, n ≠ 13%nat → reg e3 n = reg ep n) as E2 by (intros n Hne; rewrite E2', Hew by done; by apply reg_set_other).
  split; [|by rewrite E4, E5, E6; cbn; rewrite P5, P6, P7]. constructor; [|intros n Hn'|done].
  - assert (∀ i j n w, [0; 1; 2; 3; 12; 14; 15]%nat !! i = Some n → n ≠ 13%nat → v7m_frame x e !! j = Some w →
      Z.of_nat i + Z.of_nat j = 7 → reg e3 n = w) as Hpop.
    { intros i j n w Hi Hn13 Hj Hij. rewrite E2, (P3 i n Hi) by done. rewrite <- (Hfr j w Hj). f_equal. lia. }
    intros n Hin. unfold v7m_frame in Hpop. rewrite !elem_of_cons, elem_of_nil in Hin.
    destruct Hin as [-> | [-> | [-> | [-> | [-> | [-> | [-> | [-> | []]]]]]]]];
      [by apply (Hpop 0%nat 7%nat)|by apply (Hpop 1%nat 6%nat)|by apply (Hpop 2%nat 5%nat)|by apply (Hpop 3%nat 4%nat)
      |by apply (Hpop 4%nat 3%nat)|done|by apply (Hpop 5%nat 2%nat)|by apply (Hpop 6%nat 1%nat)].
  - rewrite E2, P4 by (try lia; rewrite !not_elem_of_cons; split_and!; try lia; apply not_elem_of_nil). done.
Qed.

Lemma exit_ok fuel e e2 m2 n3 :
  let p := truth (Z.land (reg e2 15) 4) in let a := aligned_sp (reg e 13) in
  env_wf e → 36 <= reg e 13 < 2 ^ 32 → length (regs e2) = 16%nat → current_sp e2 = 0 →
  (if p then other_sp e2 else reg e2 13) = a - 32 →
  frame_at m2 a (v7m_frame (pushed_xpsr (reg e 13) (xpsr_read e)) e) →
  exception e2 ≠ 0 → armv7m_nvic_complete_irq fuel (exception e2) (nvic e2) = Ok n3 →
  ∃ e3, do_v7m_exception_exit fuel (e2, m2) = Ok (e3, m2) ∧ restored e e2 e3 ∧ current_sp e3 = flag p ∧
    other_sp e3 = (if p then reg e2 13 else other_sp e2) ∧ nvic e3 = n3.
Proof.
  cbn zeta. set (p := truth _). intros W Hsp Hl Hc Hb Hfr He Hn. unfold do_v7m_exception_exit.
  rewrite (proj2 (Z.eqb_neq _ _) He). cbn [negb]. rewrite Hn. cbn [mbind res_bind]. fold p. clearbody p.
  set (es := switch_v7m_sp (flag p) (set_nvic e2 n3)).
  assert (length (regs es) = 16%nat ∧ reg es 13 = aligned_sp (reg e 13) - 32 ∧ (∀ n, n ≠ 13%nat → reg es n = reg e2 n) ∧
    current_sp es = flag p ∧ other_sp es = (if p then reg e2 13 else other_sp e2) ∧ nvic es = n3) as (S1 & S2 & S3 & S4 & S5 & S6).
  { unfold es, switch_v7m_sp. cbn [current_sp set_nvic]. rewrite Hc. destruct p; cbn [flag Z.eqb negb]; [|done].
    split_and!; try done; [cbn; by rewrite length_insert|rewrite <- Hb; unfold reg; cbn; apply list_lookup_total_insert_eq; lia|].
    intros n Hne. unfold reg. cbn. by apply list_lookup_total_insert_ne. }
  clearbody es. destruct (unstack_ok e es m2 W Hsp S1 S2 Hfr) as ([R1 R2 R3] & U1 & U2 & U3).
  exists (v7m_unstack m2 es). split; [done|]. rewrite U1, U2, U3. split; [|done].
  constructor; [exact R1|intros n Hn'; rewrite R2 by done; apply S3; lia|exact R3].
Qed.

(** What a handler leaves: the registers it must save, both stack pointers, the frame,
    and the interrupts in service are as it found them; the lines and the pending
    interrupts, and the other registers and flags, may be anything.  It returns by a
    jump to what it found in the link register, of which only bit 2 is looked at. *)
Record handler_ran (e1 : arm_env) (m1 : M) (e2 : arm_env) (m2 : M) (st : list Z) (a : Z) : Prop := {
  hr_len : length (regs e2) = 16%nat;
  hr_saved n : (4 ≤ n ≤ 11)%nat ∨ n = 13%nat → reg e2 n = reg e1 n;
  hr_sp : current_sp e2 = current_sp e1;
  hr_other : other_sp e2 = other_sp e1;
  hr_exception : exception e2 = exception e1;
  hr_inv : gic_inv (gic (nvic e2));
  hr_nested : nested (gic (nvic e2)) st;
  hr_frame b : a - 32 <= b < a → ldl_phys b m2 = ldl_phys b m1;
  hr_return : Z.land (reg e2 15) 4 = Z.land (reg e1 14) 4;
}.

(** The link register value for an exception taken from [e]. *)
Definition exc_return (e : arm_env) : Z :=
  let lr := 0xfffffff1 in
  let lr := if truth (current_sp e) then Z.lor lr 4 else lr in
  if exception e =? 0 then Z.lor lr 8 else lr.
Lemma exc_return_stack e : truth (Z.land (exc_return e) 4) = truth (current_sp e).
Proof. unfold exc_return. destruct (truth (current_sp e)), (exception e =? 0); reflexivity. Qed.

(** Taking an interrupt: the controller's line is high. *)
Lemma irq_entry semihosting fuel e m :
  env_wf e → 36 <= reg e 13 → gic_inv (gic (nvic e)) → parent_irq (gic (nvic e)) = 1 →
  let r := current_pending (gic (nvic e)) in
  ∃ g1 e1 m1, do_interrupt_v7m semihosting fuel EXCP_IRQ (e, m) = Ok (e1, m1) ∧
    gic_inv g1 ∧ entered r (gic (nvic e)) g1 ∧
    entered_handler (xpsr_read e) (exc_return e) (set_exception (set_nvic e (set_gic (nvic e) g1)) (vector r)) e1 m1.
Proof.
  intros W Hsp I Hline r. unfold do_interrupt_v7m, EXCP_IRQ. cbn zeta. fold (exc_return e).
  destruct (ack_line _ I Hline) as (g1 & Ha & I1 & He). fold r in Ha, He.
  pose proof (en_selected _ _ _ He) as (Hi & Hw & _).
  unfold armv7m_nvic_acknowledge_irq. rewrite Ha. cbn [mbind res_bind].
  rewrite (proj2 (Z.eqb_neq r 1023)) by (unfold is_irq in Hi; lia). cbn [mbind res_bind]. fold (vector r).
  set (e0 := set_exception (set_nvic e (set_gic (nvic e) g1)) (vector r)).
  assert (0 <= vector r < 96) as Hv by (unfold vector, is_irq in *; destruct (Z.leb_spec 32 r); lia).
  assert (env_wf e0) as W0 by (destruct W; constructor; try done; cbn; lia).
  destruct (xpsr_word e W) as [Hx _].
  destruct (enter_ok (xpsr_read e) (exc_return e) e0 m W0 Hsp Hx) as (e1 & m1 & -> & Hen).
  by exists g1, e1, m1.
Qed.

(** An interrupt does not disturb the program it interrupts: when the line from
    the controller is high the processor takes the selected interrupt, with its vector
    and the eight words of the frame pushed on the stack in use; and after any handler
    that keeps the calling convention, the exception return gives every register, both
    stack pointers (also one that had to be aligned), the flags, the IT state and the
    exception number back, with the interrupts in service as before. *)
Theorem v7m_interrupt_transparent semihosting fuel e m st :
  env_wf e → 36 <= reg e 13 → (96 < fuel)%nat →
  gic_inv (gic (nvic e)) → nested (gic (nvic e)) st → parent_irq (gic (nvic e)) = 1 →
  (∀ j, j = 0 ∨ 16 <= j < 32 → wants (gic (nvic e)) j = false) →
  ∃ r e1 m1, do_interrupt_v7m semihosting fuel EXCP_IRQ (e, m) = Ok (e1, m1) ∧
    selected (gic (nvic e)) r ∧ exception e1 = vector r ∧ gic_inv (gic (nvic e1)) ∧ nested (gic (nvic e1)) (r :: st) ∧
    reg e1 15 = Z.land (ldl_phys (u32 (vecbase (nvic e) + vector r * 4)) m1) 0xfffffffe ∧
    ∀ e2 m2, handler_ran e1 m1 e2 m2 (r :: st) (aligned_sp (reg e 13)) →
      ∃ e3, do_interrupt_v7m semihosting fuel EXCP_EXCEPTION_EXIT (e2, m2) = Ok (e3, m2) ∧
        (∀ n, (n < 16)%nat → reg e3 n = reg e n) ∧ same_status e3 e ∧
        current_sp e3 = current_sp e ∧ other_sp e3 = other_sp e ∧ gic_inv (gic (nvic e3)) ∧ nested (gic (nvic e3)) st.
Proof.
  intros W Hsp Hf I N Hline Hres.
  destruct (irq_entry semihosting fuel e m W Hsp I Hline) as (g1 & e1 & m1 & Hdo & I1 & He & Hen).
  set (r := current_pending _) in *. set (e0 := set_exception (set_nvic e (set_gic (nvic e) g1)) (vector r)) in *.
  pose proof (en_selected _ _ _ He) as Hsel. pose proof Hsel as (Hi & Hw & _).
  destruct (nested_ack r _ g1 st I N He) as (N1 & Hall & _).
  assert (r ≠ 0 ∧ ¬ 16 <= r < 32) as [Hr0 Hnr].
  { split; intros Hr; specialize (Hres r ltac:(auto)); congruence. }
  exists r, e1, m1. split; [exact Hdo|]. pose proof Hen as [H1 H2 H3 H4 H5 H6 H7 H8 H9 H10]. split; [done|].
  split; [by rewrite H7|]. split; [by rewrite H8|]. split; [by rewrite H8|]. split; [exact H10|].
  intros e2 m2 [R1 R2 R3 R4 R5 R6 R7 R8 R9].
  destruct (nested_complete fuel r (gic (nvic e2)) (r :: st) Hf R6 R7 Hi) as (g3 & Hc & I3 & N3 & _).
  rewrite (removed_top _ _ _ Hall) in N3. rewrite H5 in R9.
  assert (truth (Z.land (reg e2 15) 4) = truth (current_sp e)) as Hp by (rewrite R9; apply exc_return_stack).
  destruct (exit_ok fuel e e2 m2 (set_gic (nvic e2) g3)) as (e3 & Hex & Q3 & Q4 & Q5 & Q6).
  - done.
  - split; [done|]. apply (reg_word e 13 W). lia.
  - done.
  - by rewrite R3.
  - rewrite Hp, R4, R2 by auto. exact H2.
  - intros i w Hiw. rewrite <- (H9 i w Hiw). apply R8. apply lookup_lt_Some in Hiw. cbn in Hiw. change (reg e0 13) with (reg e 13). lia.
  - rewrite R5, H7. cbn. unfold vector, is_irq in *. destruct (Z.leb_spec 32 r); lia.
  - unfold armv7m_nvic_complete_irq. rewrite R5, H7. cbn [exception e0 set_exception]. rewrite vector_back by done. by rewrite Hc.
  - exists e3. split; [exact Hex|]. rewrite Hp in Q4, Q5. rewrite R4, R2 in Q5 by auto.
    split_and!; [|apply Q3| | |by rewrite Q6..].
    + apply (restored_regs e e2 e3); [done|]. intros n Hn. by rewrite R2, H6 by auto.
    + rewrite Q4. by destruct (wf_sp e W) as [-> | ->].
    + rewrite Q5. exact H3.
Qed.

Lemma enter_condexec xpsr lr e m : condexec_bits (v7m_enter xpsr lr (e, m)).1 = condexec_bits e.
Proof.
  unfold v7m_enter.
  assert (∀ ws em, condexec_bits (fold_left (λ em v, v7m_push v em) ws em).1 = condexec_bits em.1) as Hp.
  { induction ws as [|w ws IH]; intros [ex mx]; [done|]. cbn [fold_left]. by rewrite IH. }
  assert (∀ p ex, condexec_bits (switch_v7m_sp p ex) = condexec_bits ex) as Hs.
  { intros p ex. unfold switch_v7m_sp. by destruct (negb _). }
  destruct (truth (Z.land (reg e 13) 4));
    (match goal with |- context [fold_left ?f ?ws ?em] => specialize (Hp ws em); destruct (fold_left f ws em) as [e' m'] end);
    cbn [fst] in Hp; cbn [fst condexec_bits set_thumb set_reg set_cpsr]; by rewrite Hs.
Qed.

(** The handler inherits the IT state: entering an exception clears the IT bits of the
    program status register of the other profiles, and leaves [condexec_bits], where this
    profile keeps them. *)
Theorem v7m_handler_inherits_it semihosting fuel e m e1 m1 :
  do_interrupt_v7m semihosting fuel EXCP_IRQ (e, m) = Ok (e1, m1) → condexec_bits e1 = condexec_bits e.
Proof.
  unfold do_interrupt_v7m, EXCP_IRQ. destruct (armv7m_nvic_acknowledge_irq (nvic e)) as [[v n]|]; cbn [mbind res_bind]; [|done].
  pose proof (enter_condexec (xpsr_read e) (exc_return e) (set_exception (set_nvic e n) v) m) as Hc. unfold exc_return in Hc.
  revert Hc. generalize (v7m_enter (xpsr_read e)
    (if exception e =? 0 then Z.lor (if truth (current_sp e) then Z.lor 0xfffffff1 4 else 0xfffffff1) 8
     else if truth (current_sp e) then Z.lor 0xfffffff1 4 else 0xfffffff1) (set_exception (set_nvic e n) v, m)).
  intros [e' m'] Hc [= <- _]. exact Hc.
Qed.
End stack.

(** A program interrupted in an exception handler with a misaligned process stack. *)
Definition example_env : arm_env :=
  mkEnv (replicate 13 7 ++ [0x20001004; 5; 0x100]) 0 0x80000000 1 0 0 1 0x84 0 1 0x20002000 3 nvic_raised 0 0.

Lemma example_env_wf : env_wf example_env.
Proof.
  constructor; try done; try (by left); try (by right).
  repeat (apply Forall_cons; split; [by vm_compute|]). by apply Forall_nil.
Qed.

Definition no_semihosting : semihosting_ops (M := ram) :=
  {| semihosting_enabled := false; lduw_code := λ _ _, 0; do_arm_semihosting := λ em, (0, em) |}.

Lemma v7m_interrupt_transparent_witness :
  ∃ e1 m1, do_interrupt_v7m (M := ram) no_semihosting 97 EXCP_IRQ (example_env, λ _, 0) = Ok (e1, m1) ∧ exception e1 = 16 ∧
    ∃ e3 m3, do_interrupt_v7m (M := ram) no_semihosting 97 EXCP_EXCEPTION_EXIT (set_reg 15 (reg e1 14) e1, m1) = Ok (e3, m3) ∧
      reg e3 13 = 0x20001004 ∧ reg e3 15 = 0x100 ∧ exception e3 = 3.
Proof.
  destruct gic_raised_inv as (I & N & Hl).
  destruct (v7m_interrupt_transparent (M := ram) no_semihosting 97 example_env (λ _, 0) [] example_env_wf)
    as (r & e1 & m1 & He & _ & Hv & I1 & N1 & _ & Hback); [by vm_compute|lia|exact I|exact N|exact Hl| |].
  - intros j Hj. assert (∃ k : nat, j = Z.of_nat k ∧ (k < 32)%nat ∧ (k = 0 ∨ 16 ≤ k)%nat) as (k & -> & Hk & Hk') by (exists (Z.to_nat j); lia).
    do 32 (destruct k as [|k]; [by vm_compute || lia|]). lia.
  - exists e1, m1. split; [exact He|].
    assert (exception e1 = 16 ∧ length (regs e1) = 16%nat) as [Hx Hlen] by (vm_compute in He; injection He as <- _; done).
    split; [exact Hx|].
    destruct (Hback (set_reg 15 (reg e1 14) e1) m1) as (e3 & Hex & Hr & Hs & _).
    + constructor; [cbn; by rewrite length_insert|intros n Hn; apply reg_set_other; lia|reflexivity|reflexivity|reflexivity
        |exact I1|exact N1|intros b _; reflexivity|rewrite reg_set_same by lia; reflexivity].
    + exists e3, m1. split; [exact Hex|]. split; [exact (Hr 13%nat ltac:(lia))|]. split; [exact (Hr 15%nat ltac:(lia))|].
      exact (same_exception _ _ Hs).
Defined.
