(* ===== verification/V7mExec.v ===== *)
(** * V7mExec: the execution loop of an ARMv7-M processor (cpu-exec.c, target-arm/helper.c, hw/armv7m.c)

    What [cpu_exec] does between two blocks of guest code: pending exceptions, interrupt
    requests, the magic addresses of the exception return; the special registers; and the
    wire from the NVIC to the processor.  A processor is its registers ([V7m.arm_env])
    and the fields that all targets have. *)

From stdpp Require Import sorting.
From S2P Require Import Prelude Variability PowerModel CpuExec IrqBoard TimerList Gic GicFacts Nvic V7m.
Local Open Scope Z_scope.

Record v7m_cpu := mkV7mCpu {
  env : arm_env;
  request : Z;                      (* interrupt_request *)
  v7m_halted : Z;
  exit_request : Z;
  singlestep_enabled : Z;
  index : Z;                        (* exception_index *)
}.

Definition set_env (c : v7m_cpu) (e : arm_env) : v7m_cpu :=
  mkV7mCpu e (request c) (v7m_halted c) (exit_request c) (singlestep_enabled c) (index c).
Definition set_request (c : v7m_cpu) (r : Z) : v7m_cpu :=
  mkV7mCpu (env c) r (v7m_halted c) (exit_request c) (singlestep_enabled c) (index c).
Definition set_halted (c : v7m_cpu) (h : Z) : v7m_cpu :=
  mkV7mCpu (env c) (request c) h (exit_request c) (singlestep_enabled c) (index c).
Definition set_exit_request (c : v7m_cpu) (x : Z) : v7m_cpu :=
  mkV7mCpu (env c) (request c) (v7m_halted c) x (singlestep_enabled c) (index c).
Definition set_index (c : v7m_cpu) (x : Z) : v7m_cpu :=
  mkV7mCpu (env c) (request c) (v7m_halted c) (exit_request c) (singlestep_enabled c) x.

(** The processor as the code that is the same for all targets sees it. *)
Definition common (c : v7m_cpu) : CPUState :=
  mkCPU (V7m.regs (env c)) true (exception (env c)) (V7m.v7m_control (env c)) (V7m.uncached_cpsr (env c))
    (request c) (v7m_halted c) (index c).

Definition CPSR_F : Z := Z.shiftl 1 6.
Definition CPSR_I : Z := Z.shiftl 1 7.
Definition EXCP_FIQ : Z := 6.
Definition EXCP_INTERRUPT : Z := 0x10000.
Definition EXCP_DEBUG : Z := 0x10002.
Definition EXCP_HALTED : Z := 0x10003.
Definition CPU_INTERRUPT_HALT : Z := 0x0020.
Definition CPU_INTERRUPT_DEBUG : Z := 0x0080.
Definition CPU_INTERRUPT_SSTEP_MASK : Z :=
  fold_left Z.lor [0x0002; 0x0008; 0x0010; 0x0040; 0x0200; 0x1000] 0.
Definition SSTEP_NOIRQ : Z := 2.

(** ** The special registers *)

Definition set_bit (b : bool) (k cpsr : Z) : Z := if b then Z.lor cpsr k else Z.ldiff cpsr k.

Definition v7m_mrs (n : Z) (e : arm_env) : res Z :=
  match n with
  | 0 => Ok (Z.land (xpsr_read e) 0xf8000000)
  | 1 => Ok (Z.land (xpsr_read e) 0xf80001ff)
  | 2 => Ok (Z.land (xpsr_read e) 0xff00fc00)
  | 3 => Ok (Z.land (xpsr_read e) 0xff00fdff)
  | 5 => Ok (Z.land (xpsr_read e) 0x000001ff)
  | 6 => Ok (Z.land (xpsr_read e) 0x0700fc00)
  | 7 => Ok (Z.land (xpsr_read e) 0x0700edff)
  | 8 => Ok (if truth (current_sp e) then other_sp e else reg e 13)
  | 9 => Ok (if truth (current_sp e) then reg e 13 else other_sp e)
  | 16 => Ok (flag (truth (Z.land (V7m.uncached_cpsr e) CPSR_I)))
  | 17 | 18 => Ok (basepri e)
  | 19 => Ok (flag (truth (Z.land (V7m.uncached_cpsr e) CPSR_F)))
  | 20 => Ok (V7m.v7m_control e)
  | _ => Err Hw_error
  end.

Definition v7m_msr (n val : Z) (e : arm_env) : res arm_env :=
  match n with
  | 0 | 1 => Ok (xpsr_write val 0xf8000000 e)
  | 2 | 3 => Ok (xpsr_write val 0xfe00fc00 e)
  | 5 => Ok e
  | 6 | 7 => Ok (xpsr_write val 0x0600fc00 e)
  | 8 => Ok (if truth (current_sp e) then set_sps e (current_sp e) val else set_reg 13 val e)
  | 9 => Ok (if truth (current_sp e) then set_reg 13 val e else set_sps e (current_sp e) val)
  | 16 => Ok (set_cpsr e (set_bit (truth (Z.land val 1)) CPSR_I (V7m.uncached_cpsr e)))
  | 17 => Ok (set_sysregs e (Z.land val 0xff) (V7m.v7m_control e))
  | 18 =>
      let val := Z.land val 0xff in
      Ok (if negb (val =? 0) && ((val <? basepri e) || (basepri e =? 0))
          then set_sysregs e val (V7m.v7m_control e) else e)
  | 19 => Ok (set_cpsr e (set_bit (truth (Z.land val 1)) CPSR_F (V7m.uncached_cpsr e)))
  | 20 =>
      Ok (switch_v7m_sp (flag (truth (Z.land val 2))) (set_sysregs e (basepri e) (Z.land val 3)))
  | _ => Err Hw_error
  end.

(** ** The wire *)

(** [armv7m_init] connects the output of the NVIC to the IRQ input of the processor: the
    level that the controller last set is delivered there. *)
Definition nvic_line (c : v7m_cpu) : res v7m_cpu :=
  v ← arm_pic_cpu_handler ARM_PIC_CPU_IRQ (parent_irq (gic (nvic (env c)))) (common c);
  Ok (set_request c (CpuExec.interrupt_request v)).

(** An input of the NVIC changes, and with it the wire. *)
Definition pic_set_irq (n level : Z) (c : v7m_cpu) : res v7m_cpu :=
  g ← gic_set_irq n level (gic (nvic (env c)));
  nvic_line (set_env c (set_nvic (env c) (set_gic (nvic (env c)) g))).

(** The callback of the SysTick timer, and the wire. *)
Definition cpu_systick (sc : Z) (c : v7m_cpu) : res (v7m_cpu * timer_ops) :=
  '(n, ops) ← systick_timer_tick sc (nvic (env c));
  c ← nvic_line (set_env c (set_nvic (env c) n)); Ok (c, ops).

(** ** The loop *)

(** What happens after the requests were looked at: a block of guest code is executed, or
    the loop is entered again through [cpu_loop_exit], or [cpu_exec] returns. *)
Inductive exec_event := Runs_block | Again | Returns (ret : Z).

Section loop.
Context {M : Type} `{PhysMem M}.
Context (semihosting : semihosting_ops (M := M)) (fuel : nat).

Definition do_interrupt (index : Z) '((c, m) : v7m_cpu * M) : res (v7m_cpu * M) :=
  let c := set_index c index in
  '(e, m) ← do_interrupt_v7m semihosting fuel index (env c, m);
  c ← nvic_line (set_env c e); Ok (c, m).

(** The start of [cpu_exec], with the sleep accounting behind [cpu_has_work]. *)
Definition cpu_exec_start (pm : option PowerModel) (now : Z) (c : v7m_cpu) (s : var_state)
    : option Z * v7m_cpu * var_state :=
  if truth (v7m_halted c) then
    let '(work, s) := cpu_has_work pm now (common c) s in
    if work : bool then (None, set_index (set_halted c 0) (-1), s) else (Some EXCP_HALTED, c, s)
  else (None, set_index c (-1), s).

(** A pending exception. *)
Definition cpu_exec_exception '((c, m) : v7m_cpu * M) : res (option Z * (v7m_cpu * M)) :=
  if 0 <=? index c then
    if EXCP_INTERRUPT <=? index c then Ok (Some (index c), (c, m))
    else '(c, m) ← do_interrupt (index c) (c, m); Ok (None, (set_index c (-1), m))
  else Ok (None, (c, m)).

(** The requests that make the loop exit: the request that is dropped and the reason. *)
Definition exit_requested (r : Z) : option (Z * Z) :=
  if truth (Z.land r CPU_INTERRUPT_DEBUG) then Some (CPU_INTERRUPT_DEBUG, EXCP_DEBUG)
  else if truth (Z.land r CPU_INTERRUPT_HALT) then Some (CPU_INTERRUPT_HALT, EXCP_HLT)
  else None.

(** FIQ, then IRQ; [r] is the request word read before. *)
Definition take_interrupts (r : Z) '((c, m) : v7m_cpu * M) : res (v7m_cpu * M) :=
  '(c, m) ← (if truth (Z.land r CPU_INTERRUPT_FIQ) && negb (truth (Z.land (V7m.uncached_cpsr (env c)) CPSR_F))
             then do_interrupt EXCP_FIQ (c, m) else Ok (c, m));
  '(c, m) ← (if truth (Z.land r CPU_INTERRUPT_HARD) &&
                ((reg (env c) 15 <? 0xfffffff0) || negb (truth (Z.land (V7m.uncached_cpsr (env c)) CPSR_I)))
             then do_interrupt EXCP_IRQ (c, m) else Ok (c, m));
  Ok (if truth (Z.land (request c) CPU_INTERRUPT_EXITTB)
      then set_request c (Z.ldiff (request c) CPU_INTERRUPT_EXITTB) else c, m).

Definition check_exit '((c, m) : v7m_cpu * M) : exec_event * (v7m_cpu * M) :=
  if truth (exit_request c) then (Again, (set_index (set_exit_request c 0) EXCP_INTERRUPT, m))
  else (Runs_block, (c, m)).

Definition cpu_exec_requests '((c, m) : v7m_cpu * M) : res (exec_event * (v7m_cpu * M)) :=
  if truth (request c) then
    let r := if truth (Z.land (singlestep_enabled c) SSTEP_NOIRQ)
             then Z.ldiff (request c) CPU_INTERRUPT_SSTEP_MASK else request c in
    match exit_requested r with
    | Some (bit, reason) =>
        let c := set_request c (Z.ldiff (request c) bit) in
        let c := if bit =? CPU_INTERRUPT_HALT then set_halted c 1 else c in
        Ok (Again, (set_index c reason, m))
    | None => cm ← take_interrupts r (c, m); Ok (check_exit cm)
    end
  else Ok (check_exit (c, m)).

(** The inner loop: the requests, and the next block; the block at a magic address raises
    the exception return instead of running. *)
Definition cpu_exec_inner (cm : v7m_cpu * M) : res (exec_event * (v7m_cpu * M)) :=
  '(ev, (c, m)) ← cpu_exec_requests cm;
  match ev with
  | Runs_block =>
      if 0xfffffff0 <=? reg (env c) 15 then Ok (Again, (set_index c EXCP_EXCEPTION_EXIT, m))
      else Ok (Runs_block, (c, m))
  | _ => Ok (ev, (c, m))
  end.

(** The outer loop, entered again after every [cpu_loop_exit]. *)
Definition cpu_exec_outer (cm : v7m_cpu * M) : res (exec_event * (v7m_cpu * M)) :=
  '(ret, cm) ← cpu_exec_exception cm;
  match ret with Some ret => Ok (Returns ret, cm) | None => cpu_exec_inner cm end.

End loop.

(** ** Facts *)

Lemma nvic_line_ok c :
  nvic_line c = Ok (set_request c (if truth (parent_irq (gic (nvic (env c))))
                                   then Z.lor (request c) CPU_INTERRUPT_HARD
                                   else Z.ldiff (request c) CPU_INTERRUPT_HARD)).
Proof. unfold nvic_line, arm_pic_cpu_handler. cbn [Z.eqb ARM_PIC_CPU_IRQ mbind res_bind]. by destruct (truth _). Qed.

(** The processor is about to look at an interrupt request and at nothing else. *)
Record irq_requested (c : v7m_cpu) : Prop := {
  ir_hard : Z.testbit (request c) 1 = true;
  ir_fiq : Z.testbit (request c) 4 = false;
  ir_halt : Z.testbit (request c) 5 = false;
  ir_debug : Z.testbit (request c) 7 = false;
  ir_sstep : Z.testbit (singlestep_enabled c) 1 = false;
  ir_exit : exit_request c = 0;
}.

Lemma irq_requested_env c e : irq_requested c → irq_requested (set_env c e).
Proof. by intros []. Qed.

Lemma truth_bit1 z : truth (Z.land z CPU_INTERRUPT_HARD) = Z.testbit z 1.
Proof. exact (truth_land_bit z 1 ltac:(lia)). Qed.

Lemma request_truth r n : Z.testbit r n = true → truth r = true.
Proof. intros H. unfold truth. destruct (Z.eqb_spec r 0) as [->|]; [by rewrite Z.bits_0 in H|done]. Qed.

Section facts.
Context {M : Type} `{PhysMemLaws M}.
Context (semihosting : semihosting_ops (M := M)) (fuel : nat).

(** What the loop does with the request when the interrupt is accepted. *)
Lemma requests_take c m :
  irq_requested c →
  reg (env c) 15 < 0xfffffff0 ∨ Z.testbit (V7m.uncached_cpsr (env c)) 7 = false →
  cpu_exec_requests semihosting fuel (c, m) =
  ('(c1, m1) ← do_interrupt semihosting fuel EXCP_IRQ (c, m);
   Ok (check_exit (if truth (Z.land (request c1) CPU_INTERRUPT_EXITTB)
                   then set_request c1 (Z.ldiff (request c1) CPU_INTERRUPT_EXITTB) else c1, m1))).
Proof.
  intros [H1 H4 H5 H7 Hs He] Hacc. unfold cpu_exec_requests. rewrite (request_truth _ 1 H1).
  change SSTEP_NOIRQ with (Z.shiftl 1 1). rewrite truth_land_bit, Hs by lia. cbn iota.
  unfold exit_requested. change CPU_INTERRUPT_DEBUG with (Z.shiftl 1 7). change CPU_INTERRUPT_HALT with (Z.shiftl 1 5).
  rewrite !truth_land_bit, H7, H5 by lia. unfold take_interrupts.
  change CPU_INTERRUPT_FIQ with (Z.shiftl 1 4). rewrite truth_land_bit, H4 by lia. cbn [andb mbind res_bind].
  rewrite truth_bit1, H1. cbn [andb]. unfold CPSR_I. rewrite truth_land_bit by lia.
  assert ((reg (env c) 15 <? 0xfffffff0) || negb (Z.testbit (V7m.uncached_cpsr (env c)) 7) = true) as ->.
  { destruct Hacc as [Hlt | ->]; [by rewrite (proj2 (Z.ltb_lt _ _) Hlt)|by rewrite orb_true_r]. }
  destruct (do_interrupt _ _ _ _) as [[c1 m1]|]; done.
Qed.

(** The interrupt is taken: the best one pending is in service and its handler is about
    to run. *)
Record taken (c : v7m_cpu) (r : Z) (c1 : v7m_cpu) (m1 : M) : Prop := {
  tk_selected : selected (gic (nvic (env c))) r;
  tk_vector : exception (env c1) = vector r;
  tk_entered : entered r (gic (nvic (env c))) (gic (nvic (env c1)));
  tk_inv : gic_inv (gic (nvic (env c1)));
  tk_frame : frame_at m1 (aligned_sp (reg (env c) 13))
    (v7m_frame (pushed_xpsr (reg (env c) 13) (xpsr_read (env c))) (env c));
  tk_pc : reg (env c1) 15 = Z.land (ldl_phys (u32 (vecbase (nvic (env c)) + vector r * 4)) m1) 0xfffffffe;
}.

Lemma do_irq_ok c m :
  env_wf (env c) → 36 <= reg (env c) 13 → gic_inv (gic (nvic (env c))) → parent_irq (gic (nvic (env c))) = 1 →
  ∃ c1 m1, do_interrupt semihosting fuel EXCP_IRQ (c, m) = Ok (c1, m1) ∧ exit_request c1 = exit_request c ∧
    do_interrupt_v7m semihosting fuel EXCP_IRQ (env c, m) = Ok (env c1, m1) ∧
    taken c (current_pending (gic (nvic (env c)))) c1 m1.
Proof.
  intros W Hsp I Hl.
  destruct (irq_entry semihosting fuel (env c) m W Hsp I Hl) as (g1 & e1 & m1 & Hdo & I1 & He & Hen).
  unfold do_interrupt. cbn [env set_index]. rewrite Hdo. cbn [mbind res_bind]. rewrite nvic_line_ok. cbn [mbind res_bind].
  eexists _, m1. split; [reflexivity|]. split; [done|]. split; [done|]. cbn [env set_request set_env].
  destruct Hen as [E1 E2 E3 E4 E5 E6 E7 E8 E9 E10]. constructor; cbn [env set_request set_env]; rewrite ?E8; try done.
  apply (en_selected _ _ _ He).
Qed.

Lemma requests_taken c m :
  irq_requested c → env_wf (env c) → 36 <= reg (env c) 13 →
  gic_inv (gic (nvic (env c))) → parent_irq (gic (nvic (env c))) = 1 →
  reg (env c) 15 < 0xfffffff0 ∨ Z.testbit (V7m.uncached_cpsr (env c)) 7 = false →
  ∃ c1 m1, cpu_exec_requests semihosting fuel (c, m) = Ok (Runs_block, (c1, m1)) ∧
    do_interrupt_v7m semihosting fuel EXCP_IRQ (env c, m) = Ok (env c1, m1) ∧
    taken c (current_pending (gic (nvic (env c)))) c1 m1.
Proof.
  intros R W Hsp I Hl Hacc. destruct (do_irq_ok c m W Hsp I Hl) as (c1 & m1 & Hd & Hx & Hv & T).
  rewrite (requests_take c m R Hacc), Hd. cbn [mbind res_bind].
  set (c2 := if truth _ then _ else c1). assert (env c2 = env c1 ∧ exit_request c2 = 0) as [He Hz].
  { unfold c2. rewrite <- (ir_exit c R), <- Hx. by destruct (truth _). }
  exists c2, m1. unfold check_exit. rewrite Hz. split; [done|]. rewrite He. split; [done|].
  destruct T as [T1 T2 T3 T4 T5 T6]. by constructor; rewrite ?He.
Qed.

(** The vector tells which interrupt was selected. *)
Lemma selected_vector g r r' :
  (∀ j, j = 0 ∨ 16 <= j < 32 → wants g j = false) → selected g r → selected g r' → vector r = vector r' → r = r'.
Proof.
  intros Hres (Hi & Hw & _) (Hi' & Hw' & _) Hv.
  assert (∀ x, wants g x = true → ¬ 16 <= x < 32) as Hn by (intros x Hx Hr; specialize (Hres x (or_intror Hr)); congruence).
  by rewrite <- (vector_back r), <- (vector_back r'), Hv by auto.
Qed.

(** The handler is left by a jump to a magic address, with no request in sight. *)
Record returning (c2 : v7m_cpu) : Prop := {
  rt_magic : 0xfffffff0 <= reg (env c2) 15;
  rt_request : request c2 = 0;
  rt_exit : exit_request c2 = 0;
}.

(** A return from the magic address: the loop is left once, to perform the return. *)
Lemma inner_returns c2 m2 :
  returning c2 →
  cpu_exec_inner semihosting fuel (c2, m2) = Ok (Again, (set_index c2 EXCP_EXCEPTION_EXIT, m2)).
Proof.
  intros [Hp Hr Hx]. unfold cpu_exec_inner, cpu_exec_requests. rewrite Hr. cbn [truth Z.eqb negb].
  unfold check_exit. rewrite Hx. cbn [truth Z.eqb negb mbind res_bind]. by rewrite (proj2 (Z.leb_le _ _) Hp).
Qed.

Lemma exception_exit c2 m2 e3 :
  request c2 = 0 → do_interrupt_v7m semihosting fuel EXCP_EXCEPTION_EXIT (env c2, m2) = Ok (e3, m2) →
  ∃ c3, cpu_exec_exception semihosting fuel (set_index c2 EXCP_EXCEPTION_EXIT, m2) = Ok (None, (c3, m2)) ∧
    env c3 = e3 ∧ exit_request c3 = exit_request c2 ∧
    (parent_irq (gic (nvic e3)) = 0 → request c3 = 0).
Proof.
  intros Hr Hdo. unfold cpu_exec_exception. cbn [index set_index].
  change (0 <=? EXCP_EXCEPTION_EXIT) with true. change (EXCP_INTERRUPT <=? EXCP_EXCEPTION_EXIT) with false. cbn iota.
  unfold do_interrupt. cbn [env set_index]. rewrite Hdo. cbn [mbind res_bind]. rewrite nvic_line_ok. cbn [mbind res_bind].
  eexists. split; [reflexivity|]. split_and!; try done. cbn [env set_env request set_request set_index]. intros ->.
  by rewrite Hr.
Qed.

(** [C2]: An interrupt does not disturb the program it interrupts, through the whole
    execution loop.  When the NVIC's line is high and the processor, at an address that is
    not magic, with room for a frame on its stack and no request but that of the line (no
    reserved input of the NVIC pending either), looks at its requests, the best pending
    interrupt is taken and its handler runs next.  After any handler that keeps the calling
    convention and ends with a jump to the magic address at a time when no request is
    pending, the loop leaves the block and performs the exception return, which gives every
    register, both stack pointers, the flags and the exception number back, with the
    interrupts in service as before; and if no other interrupt is pending then the
    interrupted program runs next.  (A request that is pending, and not masked, at the
    magic address is taken there instead of the return: [interrupt_at_magic_address].) *)
Theorem interrupt_cycle_transparent c m st :
  irq_requested c → env_wf (env c) → 36 <= reg (env c) 13 → reg (env c) 15 < 0xfffffff0 → (96 < fuel)%nat →
  gic_inv (gic (nvic (env c))) → nested (gic (nvic (env c))) st → parent_irq (gic (nvic (env c))) = 1 →
  (∀ j, j = 0 ∨ 16 <= j < 32 → wants (gic (nvic (env c))) j = false) →
  ∃ r c1 m1, cpu_exec_requests semihosting fuel (c, m) = Ok (Runs_block, (c1, m1)) ∧ taken c r c1 m1 ∧
    ∀ c2 m2, handler_ran (env c1) m1 (env c2) m2 (r :: st) (aligned_sp (reg (env c) 13)) → returning c2 →
      ∃ c2' c3, cpu_exec_inner semihosting fuel (c2, m2) = Ok (Again, (c2', m2)) ∧
        cpu_exec_exception semihosting fuel (c2', m2) = Ok (None, (c3, m2)) ∧
        (∀ n, (n < 16)%nat → reg (env c3) n = reg (env c) n) ∧ same_status (env c3) (env c) ∧
        current_sp (env c3) = current_sp (env c) ∧ other_sp (env c3) = other_sp (env c) ∧
        nested (gic (nvic (env c3))) st ∧
        (parent_irq (gic (nvic (env c3))) = 0 → cpu_exec_inner semihosting fuel (c3, m2) = Ok (Runs_block, (c3, m2))).
Proof.
  intros R W Hsp Hpc Hf I N Hl Hres.
  destruct (requests_taken c m R W Hsp I Hl (or_introl Hpc)) as (c1 & m1 & Hq & Hdo & T).
  destruct (v7m_interrupt_transparent semihosting fuel (env c) m st W Hsp Hf I N Hl Hres)
    as (r & e1 & m1' & Hdo' & Hsel & Hv & _ & _ & _ & Hback).
  rewrite Hdo in Hdo'. injection Hdo' as <- <-. set (r0 := current_pending _) in T.
  assert (r = r0) as ->.
  { apply (selected_vector _ _ _ Hres Hsel (tk_selected _ _ _ _ T)). by rewrite <- Hv, (tk_vector _ _ _ _ T). }
  exists r0, c1, m1. split; [done|]. split; [done|]. intros c2 m2 Hran Rt.
  destruct (Hback _ _ Hran) as (e3 & Hex & Hregs & Hst & Hcur & Hoth & _ & N3).
  destruct (exception_exit c2 m2 e3 (rt_request c2 Rt) Hex) as (c3 & Hc3 & He3 & Hx3 & Hq3).
  exists (set_index c2 EXCP_EXCEPTION_EXIT), c3. rewrite He3 in *. split_and!; try done.
  - by apply inner_returns.
  - intros Hlow. unfold cpu_exec_inner, cpu_exec_requests. rewrite (Hq3 Hlow). cbn [truth Z.eqb negb].
    unfold check_exit. rewrite Hx3, (rt_exit c2 Rt). cbn [truth Z.eqb negb mbind res_bind]. rewrite He3, Hregs by lia.
    by rewrite (proj2 (Z.leb_gt _ _) Hpc).
Qed.

(** [C8]: A SysTick expiry wakes a sleeping processor and runs a handler: with the
    interrupt requested, enabled, and of a priority that passes, after the timer's
    callback [cpu_exec] finds work (which ends the sleep of the accounting), clears
    [halted], and takes an interrupt of at least SysTick's priority; its handler is the
    next code to run. *)
Theorem systick_wakes_cpu sc pm now c m s i :
  env_wf (env c) → 36 <= reg (env c) 13 → reg (env c) 15 < 0xfffffff0 →
  v7m_halted c = 1 → request c = 0 → exit_request c = 0 → Z.testbit (singlestep_enabled c) 1 = false →
  let n := nvic (env c) in
  gic_inv (gic n) → truth (Z.land (control (systick n)) SYSTICK_TICKINT) = true →
  irq_state (gic n) !! 15%nat = Some i → i_enabled i = true →
  prio_of (gic n) 15 <= priority_mask (gic n) → prio_of (gic n) 15 < running_priority (gic n) →
  ∃ c1 ops c2 r c3 m3, cpu_systick sc c = Ok (c1, ops) ∧
    cpu_exec_start pm now c1 s = (None, c2, stop_sleep_cycle_count pm now s) ∧ v7m_halted c2 = 0 ∧
    cpu_exec_requests semihosting fuel (c2, m) = Ok (Runs_block, (c3, m3)) ∧ taken c2 r c3 m3 ∧
    prio_of (gic (nvic (env c2))) r <= prio_of (gic (nvic (env c2))) 15.
Proof.
  intros W Hsp Hpc Hh Hr Hx Hss n I Ht Hi He Hm Hp.
  destruct (systick_expiry_interrupts sc n i I Ht Hi He Hm Hp) as (n' & ops & Hn & Hl & Hsel & Hbest & _ & I' & _).
  unfold cpu_systick. fold n. rewrite Hn. cbn [mbind res_bind]. rewrite nvic_line_ok. cbn [env set_env set_nvic nvic].
  rewrite Hl. cbn [truth Z.eqb negb mbind res_bind request set_env]. rewrite Hr.
  change (Z.lor 0 CPU_INTERRUPT_HARD) with 2.
  set (c1 := set_request _ 2). exists c1, ops, (set_index (set_halted c1 0) (-1)).
  destruct (requests_taken (set_index (set_halted c1 0) (-1)) m) as (c3 & m3 & Hq & _ & T); try done.
  - destruct W. by constructor.
  - by left.
  - eexists _, c3, m3. split; [reflexivity|]. split; [|done].
    unfold cpu_exec_start. cbn [v7m_halted c1 set_request set_env]. by rewrite Hh.
Qed.

(** The registers that should mask interrupts do not: whatever the guest writes to
    PRIMASK, BASEPRI, BASEPRI_MAX or FAULTMASK, a processor that executes ordinary code
    still takes the interrupt that the NVIC selected, since the loop tests the program
    counter or the mask, where both tests were meant. *)
Theorem masks_do_not_mask c m k val :
  k ∈ [16; 17; 18; 19] → irq_requested c → env_wf (env c) → 36 <= reg (env c) 13 → reg (env c) 15 < 0xfffffff0 →
  gic_inv (gic (nvic (env c))) → parent_irq (gic (nvic (env c))) = 1 →
  ∃ e c1 m1, v7m_msr k val (env c) = Ok e ∧
    cpu_exec_requests semihosting fuel (set_env c e, m) = Ok (Runs_block, (c1, m1)) ∧
    taken (set_env c e) (current_pending (gic (nvic (env c)))) c1 m1.
Proof.
  intros Hk R W Hsp Hpc I Hl.
  assert (∃ e, v7m_msr k val (env c) = Ok e ∧ env_wf e ∧ reg e 13 = reg (env c) 13 ∧ reg e 15 = reg (env c) 15 ∧
    nvic e = nvic (env c)) as (e & Hmsr & We & E13 & E15 & En).
  { apply list_elem_of_In in Hk. cbn in Hk. clear R. destruct Hk as [<- | [<- | [<- | [<- | []]]]]; cbn [v7m_msr]; eexists;
      (split; [reflexivity|]); try (destruct (negb _ && _)); (split; [destruct W; constructor; assumption|done]). }
  destruct (requests_taken (set_env c e) m) as (c1 & m1 & Hq & _ & T); cbn [env set_env]; rewrite ?E13, ?E15, ?En; auto.
  - by apply irq_requested_env.
  - cbn [env set_env] in T. rewrite En in T. by exists e, c1, m1.
Qed.

(** An interrupt is accepted during an exception return: with PRIMASK clear, at a
    magic address the pending interrupt is taken, and the magic address is what is pushed
    as the return address. *)
Theorem interrupt_at_magic_address c m :
  irq_requested c → env_wf (env c) → 36 <= reg (env c) 13 → 0xfffffff0 <= reg (env c) 15 →
  Z.testbit (V7m.uncached_cpsr (env c)) 7 = false →
  gic_inv (gic (nvic (env c))) → parent_irq (gic (nvic (env c))) = 1 →
  ∃ r c1 m1, cpu_exec_requests semihosting fuel (c, m) = Ok (Runs_block, (c1, m1)) ∧ taken c r c1 m1 ∧
    ldl_phys (aligned_sp (reg (env c) 13) - 8) m1 = reg (env c) 15.
Proof.
  intros R W Hsp Hpc Hpm I Hl.
  destruct (requests_taken c m R W Hsp I Hl (or_intror Hpm)) as (c1 & m1 & Hq & _ & T).
  eexists _, c1, m1. split; [done|]. split; [exact T|]. apply (tk_frame _ _ _ _ T 1%nat). reflexivity.
Qed.
End facts.

(** ** Writing and reading the special registers *)

(** The bits of the xPSR that a write with [mask] changes: the masks come in groups. *)
Definition writes_bit (mask i : Z) : bool :=
  if 28 <=? i then truth (Z.land mask CPSR_NZCV)
  else if i =? 27 then truth (Z.land mask CPSR_Q)
  else if 25 <=? i then truth (Z.land mask CPSR_IT_0_1)
  else if i =? 24 then truth (Z.land mask (Z.shiftl 1 24))
  else if (10 <=? i) && (i <? 16) then truth (Z.land mask CPSR_IT_2_7)
  else if i <? 9 then truth (Z.land mask 0x1ff)
  else false.

Lemma CPSR_Z_zero val : (Z.ldiff CPSR_Z val =? 0) = Z.testbit val 30.
Proof.
  destruct (Z.testbit val 30) eqn:E.
  - apply Z.eqb_eq, Z.bits_inj'. intros n Hn. unfold CPSR_Z. rewrite Z.ldiff_spec, testbit_bit, Z.bits_0 by lia.
    by destruct (Z.eqb_spec n 30) as [->|]; [rewrite E|].
  - apply Z.eqb_neq. intros Hz. assert (Z.testbit (Z.ldiff CPSR_Z val) 30 = false) as Hb by (rewrite Hz; apply Z.bits_0).
    unfold CPSR_Z in Hb. by rewrite Z.ldiff_spec, testbit_bit, E in Hb by lia.
Qed.
Lemma flag_1 b : (flag b =? 1) = b.
Proof. by destruct b. Qed.

Lemma it_low c v i : 0 <= i → Z.testbit (Z.lor (Z.ldiff c 3) (Z.land (Z.shiftr v 25) 3)) i = if i <? 2 then Z.testbit v (i + 25) else Z.testbit c i.
Proof.
  intros Hi. rewrite Z.lor_spec, Z.ldiff_spec, Z.land_spec, bits3, Z.shiftr_spec by lia. rewrite (proj2 (Z.leb_le 0 i) Hi).
  destruct (i <? 2); cbn; by rewrite ?andb_false_r, ?andb_true_r, ?orb_false_r.
Qed.
Lemma it_high c v i : 0 <= c < 2 ^ 8 → 0 <= i → Z.testbit (Z.lor (Z.land c 3) (Z.land (Z.shiftr v 8) 0xfc)) i =
  if i <? 2 then Z.testbit c i else (i <? 8) && Z.testbit v (i + 8).
Proof.
  intros Hc Hi. rewrite Z.lor_spec, !Z.land_spec, bits3, bits_fc, Z.shiftr_spec by lia. rewrite (proj2 (Z.leb_le 0 i) Hi).
  destruct (Z.ltb_spec i 2); [rewrite (proj2 (Z.leb_gt 2 i)) by lia|rewrite (proj2 (Z.leb_le 2 i)) by lia]; cbn;
    rewrite ?andb_false_r, ?andb_true_r, ?orb_false_r; [done|apply andb_comm].
Qed.

Lemma small_of_bits a k : 0 <= a → 0 <= k → (∀ n, k <= n → Z.testbit a n = false) → 0 <= a < 2 ^ k.
Proof.
  intros Ha Hk Hb. split; [done|]. destruct (Z.eq_dec a 0) as [->|]; [apply Z.pow_pos_nonneg; lia|].
  apply Z.log2_lt_pow2; [lia|]. destruct (Z.lt_ge_cases (Z.log2 a) k); [done|].
  assert (Z.testbit a (Z.log2 a) = true) by (apply Z.bit_log2; lia). rewrite Hb in *; done.
Qed.

Lemma it_low_range c v : 0 <= c < 2 ^ 8 → 0 <= Z.lor (Z.ldiff c 3) (Z.land (Z.shiftr v 25) 3) < 2 ^ 8.
Proof.
  intros Hc. apply small_of_bits; [|lia|].
  - apply Z.lor_nonneg. split; [apply Z.ldiff_nonneg; lia|apply Z.land_nonneg; lia].
  - intros n Hn. rewrite it_low, (proj2 (Z.ltb_ge n 2)) by lia. apply (small_bit _ 8); lia.
Qed.

Lemma xpsr_write_wf val mask e : env_wf e → is_u32 val → env_wf (xpsr_write val mask e).
Proof.
  intros W Hv. unfold xpsr_write.
  assert (∀ b e, env_wf e → env_wf (if b : bool then set_flags e (Z.ldiff CPSR_Z val) val (Z.land (Z.shiftr val 29) 1)
    (Z.land (u32 (Z.shiftl val 3)) 0x80000000) else e)) as W1.
  { intros [] e0 []; constructor; try assumption. cbn. rewrite land1_bit by lia. destruct (Z.testbit val 29); auto. }
  assert (∀ (b b' : bool) e, env_wf e → env_wf (if b then set_QF e (flag b') else e)) as W2.
  { intros [] b' e0 []; constructor; try assumption. cbn. destruct b'; auto. }
  assert (∀ (b b' : bool) e, env_wf e → env_wf (if b then set_thumb e (flag b') else e)) as W3.
  { intros [] b' e0 []; constructor; try assumption. cbn. destruct b'; auto. }
  assert (∀ (b : bool) e, env_wf e → env_wf (if b then set_condexec e (Z.lor (Z.ldiff (condexec_bits e) 3) (Z.land (Z.shiftr val 25) 3)) else e)) as W4.
  { intros [] e0 W0; [|done]. pose proof (wf_condexec e0 W0) as Hc. destruct W0; constructor; try assumption. cbn.
    by apply it_low_range. }
  assert (∀ (b : bool) e, env_wf e → env_wf (if b then set_condexec e (Z.lor (Z.land (condexec_bits e) 3) (Z.land (Z.shiftr val 8) 0xfc)) else e)) as W5.
  { intros [] e0 W0; [|done]. pose proof (wf_condexec e0 W0) as Hc. destruct W0; constructor; try assumption. cbn.
    apply small_of_bits; [|lia|].
    - apply Z.lor_nonneg. split; apply Z.land_nonneg; lia.
    - intros n Hn. rewrite it_high, (proj2 (Z.ltb_ge n 2)), (proj2 (Z.ltb_ge n 8)) by lia. done. }
  assert (∀ (b : bool) e, env_wf e → env_wf (if b then set_exception e (Z.land val 0x1ff) else e)) as W6.
  { intros [] e0 []; constructor; try assumption. cbn. change 0x1ff with (2 ^ 9 - 1). rewrite land_mod by lia. apply Z.mod_pos_bound. lia. }
  cbn zeta. apply W6, W5, W4, W3, W2, W1, W.
Qed.

(** The fields after a write. *)
Lemma xpsr_write_fields val mask e :
  let e' := xpsr_write val mask e in
  let nzcv := truth (Z.land mask CPSR_NZCV) in
  let it := if truth (Z.land mask CPSR_IT_0_1)
            then Z.lor (Z.ldiff (condexec_bits e) 3) (Z.land (Z.shiftr val 25) 3) else condexec_bits e in
  ZF e' = (if nzcv then Z.ldiff CPSR_Z val else ZF e) ∧ NF e' = (if nzcv then val else NF e) ∧
  CF e' = (if nzcv then Z.land (Z.shiftr val 29) 1 else CF e) ∧
  VF e' = (if nzcv then Z.land (u32 (Z.shiftl val 3)) 0x80000000 else VF e) ∧
  QF e' = (if truth (Z.land mask CPSR_Q) then flag (truth (Z.land val CPSR_Q)) else QF e) ∧
  thumb e' = (if truth (Z.land mask (Z.shiftl 1 24)) then flag (truth (Z.land val (Z.shiftl 1 24))) else thumb e) ∧
  condexec_bits e' = (if truth (Z.land mask CPSR_IT_2_7)
                      then Z.lor (Z.land it 3) (Z.land (Z.shiftr val 8) 0xfc) else it) ∧
  exception e' = (if truth (Z.land mask 0x1ff) then Z.land val 0x1ff else exception e).
Proof.
  unfold xpsr_write. destruct (truth (Z.land mask CPSR_NZCV)), (truth (Z.land mask CPSR_Q)), (truth (Z.land mask (Z.shiftl 1 24))),
    (truth (Z.land mask CPSR_IT_0_1)), (truth (Z.land mask CPSR_IT_2_7)), (truth (Z.land mask 0x1ff)); by split_and!.
Qed.

Lemma v_bit val : Z.testbit (Z.land (u32 (Z.shiftl val 3)) 0x80000000) 31 = Z.testbit val 28.
Proof.
  change 0x80000000 with (Z.shiftl 1 31). rewrite Z.land_spec, testbit_bit by lia. cbn [Z.eqb Pos.eqb]. rewrite andb_true_r.
  unfold u32. by rewrite Z.mod_pow2_bits_low, Z.shiftl_spec by lia.
Qed.

(** What a read sees of the fields after a write. *)
Lemma xpsr_write_view val mask e :
  env_wf e →
  let e' := xpsr_write val mask e in
  let nzcv := truth (Z.land mask CPSR_NZCV) in
  Z.testbit (NF e') 31 = (if nzcv then Z.testbit val 31 else Z.testbit (NF e) 31) ∧
  (ZF e' =? 0) = (if nzcv then Z.testbit val 30 else ZF e =? 0) ∧
  (CF e' =? 1) = (if nzcv then Z.testbit val 29 else CF e =? 1) ∧
  Z.testbit (VF e') 31 = (if nzcv then Z.testbit val 28 else Z.testbit (VF e) 31) ∧
  (QF e' =? 1) = (if truth (Z.land mask CPSR_Q) then Z.testbit val 27 else QF e =? 1) ∧
  (thumb e' =? 1) = (if truth (Z.land mask (Z.shiftl 1 24)) then Z.testbit val 24 else thumb e =? 1) ∧
  (∀ i, 25 <= i < 27 → Z.testbit (condexec_bits e') (i - 25) =
     if truth (Z.land mask CPSR_IT_0_1) then Z.testbit val i else Z.testbit (condexec_bits e) (i - 25)) ∧
  (∀ i, 10 <= i < 16 → Z.testbit (condexec_bits e') (i - 8) =
     if truth (Z.land mask CPSR_IT_2_7) then Z.testbit val i else Z.testbit (condexec_bits e) (i - 8)) ∧
  (∀ i, 0 <= i < 9 → Z.testbit (exception e') i =
     if truth (Z.land mask 0x1ff) then Z.testbit val i else Z.testbit (exception e) i).
Proof.
  intros W. cbn zeta. destruct (xpsr_write_fields val mask e) as (-> & -> & -> & -> & -> & -> & -> & ->).
  pose proof (wf_condexec e W) as Hx. split_and!.
  - by destruct (truth _).
  - destruct (truth _); [apply CPSR_Z_zero|done].
  - destruct (truth _); [rewrite land1_bit by lia; apply flag_1|done].
  - destruct (truth _); [apply v_bit|done].
  - destruct (truth (Z.land mask CPSR_Q)); [rewrite flag_1; by apply truth_land_bit|done].
  - destruct (truth (Z.land mask _)); [rewrite flag_1; by apply truth_land_bit|done].
  - intros i Hi. assert (∀ c, 0 <= c < 2 ^ 8 → Z.testbit (Z.lor (Z.land c 3) (Z.land (Z.shiftr val 8) 0xfc)) (i - 25) = Z.testbit c (i - 25)) as Hh
      by (intros c Hc; rewrite it_high, (proj2 (Z.ltb_lt (i - 25) 2)) by lia; done).
    assert (∀ c, Z.testbit (Z.lor (Z.ldiff c 3) (Z.land (Z.shiftr val 25) 3)) (i - 25) = Z.testbit val i) as Hlo
      by (intros c; rewrite it_low, (proj2 (Z.ltb_lt (i - 25) 2)) by lia; f_equal; lia).
    destruct (truth (Z.land mask CPSR_IT_2_7)), (truth (Z.land mask CPSR_IT_0_1)); rewrite ?Hh, ?Hlo; try done.
    by apply it_low_range.
  - intros i Hi. destruct (truth (Z.land mask CPSR_IT_2_7)), (truth (Z.land mask CPSR_IT_0_1)); rewrite ?it_high, ?it_low by (try apply it_low_range; lia);
      rewrite ?(proj2 (Z.ltb_ge (i - 8) 2)), ?(proj2 (Z.ltb_lt (i - 8) 8)) by lia; cbn [andb]; f_equal; lia.
  - intros i Hi. destruct (truth _); [|done]. change 0x1ff with (2 ^ 9 - 1). by rewrite land_mod, Z.mod_pow2_bits_low by lia.
Qed.

(** A write changes the bits of its groups and leaves the others. *)
Lemma xpsr_write_bits val mask e i :
  env_wf e → is_u32 val → 0 <= i < 32 →
  Z.testbit (xpsr_read (xpsr_write val mask e)) i =
  if writes_bit mask i then Z.testbit val i else Z.testbit (xpsr_read e) i.
Proof.
  intros W Hv Hi. rewrite (xpsr_bits e i W), (xpsr_bits _ i (xpsr_write_wf val mask e W Hv)) by lia.
  destruct (xpsr_write_view val mask e W) as (-> & -> & -> & -> & -> & -> & H1 & H2 & H3). unfold writes_bit.
  assert (i = 31 ∨ i = 30 ∨ i = 29 ∨ i = 28 ∨ i = 27 ∨ (25 <= i < 27) ∨ i = 24 ∨ (16 <= i < 24) ∨ (10 <= i < 16) ∨ i = 9 ∨ i < 9) as Hc by lia.
  destruct Hc as [-> | [-> | [-> | [-> | [-> | [Hc | [-> | [Hc | [Hc | [-> | Hc]]]]]]]]]]; rewrite ?(H1 i), ?(H2 i), ?(H3 i) by lia;
    clear H1 H2 H3; decide_all; first [done | by destruct (truth _)].
Qed.

(** A mask that is made of whole groups. *)
Definition group_mask (mask : Z) : Prop := ∀ i, 0 <= i < 32 → writes_bit mask i = Z.testbit mask i.

Lemma group_masks mask : mask ∈ [0xf8000000; 0xfe00fc00; 0x0600fc00] → group_mask mask.
Proof.
  intros Hm i Hi. assert (∃ k : nat, i = Z.of_nat k ∧ (k < 32)%nat) as (k & -> & Hk) by (exists (Z.to_nat i); lia).
  apply list_elem_of_In in Hm. destruct Hm as [<- | [<- | [<- | []]]]; do 32 (destruct k as [|k]; [by vm_compute|]); lia.
Qed.

Lemma u32_high a i : is_u32 a → 32 <= i → Z.testbit a i = false.
Proof. intros Ha Hi. apply (small_bit _ 32); [exact Ha|done]. Qed.

Lemma xpsr_write_read val mask e :
  env_wf e → is_u32 val → is_u32 mask → group_mask mask →
  xpsr_read (xpsr_write val mask e) = Z.lor (Z.land val mask) (Z.ldiff (xpsr_read e) mask).
Proof.
  intros W Hv Hm Hg. apply Z.bits_inj'. intros i Hi. rewrite Z.lor_spec, Z.land_spec, Z.ldiff_spec.
  destruct (Z.lt_ge_cases i 32) as [Hlt|Hge].
  - rewrite xpsr_write_bits, Hg by (done || lia).
    destruct (Z.testbit mask i); cbn; by rewrite ?andb_true_r, ?andb_false_r, ?orb_false_r.
  - destruct (xpsr_word e W) as [Hx _]. destruct (xpsr_word _ (xpsr_write_wf val mask e W Hv)) as [Hx' _].
    by rewrite !(u32_high _ i) by done.
Qed.

(** The bits of the xPSR that register [k] shows and those it can change. *)
Definition psr_shows (k : Z) : Z :=
  match k with
  | 0 => 0xf8000000 | 1 => 0xf80001ff | 2 => 0xff00fc00 | 3 => 0xff00fdff | 5 => 0x1ff | 6 => 0x0700fc00 | _ => 0x0700edff
  end.
Definition psr_changes (k : Z) : Z :=
  match k with 0 | 1 => 0xf8000000 | 2 | 3 => 0xfe00fc00 | 5 => 0 | _ => 0x0600fc00 end.

(** What reading register [k] gives after [val] was written to it. *)
Definition special_value (k val : Z) (e : arm_env) : Z :=
  match k with
  | 8 | 9 => val
  | 16 | 19 => Z.land val 1
  | 17 => Z.land val 0xff
  | 18 => let v := Z.land val 0xff in if (v =? 0) || ((basepri e <=? v) && negb (basepri e =? 0)) then basepri e else v
  | 20 => Z.land val 3
  | _ => Z.land (Z.lor (Z.land val (psr_changes k)) (Z.ldiff (xpsr_read e) (psr_changes k))) (psr_shows k)
  end.

Lemma cpsr_bit_read cpsr val k :
  0 <= k → flag (truth (Z.land (set_bit (truth (Z.land val 1)) (Z.shiftl 1 k) cpsr) (Z.shiftl 1 k))) = Z.land val 1.
Proof.
  intros Hk. rewrite truth_land_bit by done. change (Z.land val 1) with (Z.land val (Z.shiftl 1 0)) at 1.
  rewrite truth_land_bit by lia. rewrite <- (Z.shiftr_0_r val) at 2. rewrite land1_bit by lia. f_equal. unfold set_bit.
  destruct (Z.testbit val 0); rewrite ?Z.lor_spec, ?Z.ldiff_spec, testbit_bit, Z.eqb_refl by done; [apply orb_true_r|apply andb_false_r].
Qed.

(** Writing a special register and reading it back is as documented for each of
    them: the status registers change the bits they can change, keep the others, and show
    the bits they show; the stack pointers, the masks, BASEPRI (which BASEPRI_MAX can only
    make more restrictive) and CONTROL give what was written. *)
Theorem msr_mrs k val e e' :
  env_wf e → is_u32 val → v7m_msr k val e = Ok e' → v7m_mrs k e' = Ok (special_value k val e).
Proof.
  intros W Hv. assert (∀ mask, mask ∈ [0xf8000000; 0xfe00fc00; 0x0600fc00] →
    xpsr_read (xpsr_write val mask e) = Z.lor (Z.land val mask) (Z.ldiff (xpsr_read e) mask)) as Hw.
  { intros mask Hm. apply xpsr_write_read; [done|done| |by apply group_masks].
    apply list_elem_of_In in Hm. destruct Hm as [<- | [<- | [<- | []]]]; by vm_compute. }
  pose proof (Hw _ (list_elem_of_here _ _)) as Hw1. pose proof (Hw 0xfe00fc00 ltac:(set_solver)) as Hw2.
  pose proof (Hw 0x0600fc00 ltac:(set_solver)) as Hw3. clear Hw.
  assert (length (V7m.regs e) = 16%nat) as Hl by apply W. pose proof (wf_sp e W) as Hsp.
  unfold v7m_msr. case_match; try done; repeat case_match; try done; intros [= <-]; cbn [v7m_mrs special_value psr_shows psr_changes];
    rewrite ?Hw1, ?Hw2, ?Hw3; try done.
  all: f_equal; try (by apply cpsr_bit_read).
  all: cbn [current_sp set_reg set_sps other_sp reg basepri set_sysregs]; rewrite ?Z.land_0_r, ?Z.ldiff_0_r, ?Z.lor_0_l; try done.
  all: try (match goal with E : truth _ = _ |- _ => rewrite E end; by rewrite ?reg_set_same by lia).
  all: try (unfold switch_v7m_sp; by destruct (negb _)).
  all: revert select (negb _ && _ = _); set (a := Z.land val 0xff); set (b := basepri e);
    destruct (Z.eqb_spec a 0), (Z.ltb_spec a b), (Z.eqb_spec b 0), (Z.leb_spec b a); cbn; try lia; done.
Qed.

(** IEPSR hides a bit of the IT state that EPSR shows. *)
Theorem iepsr_hides_it_bit e v6 v7 :
  v7m_mrs 6 e = Ok v6 → v7m_mrs 7 e = Ok v7 → Z.testbit (xpsr_read e) 12 = true →
  Z.testbit v6 12 = true ∧ Z.testbit v7 12 = false.
Proof. intros [= <-] [= <-] Hb. by rewrite !Z.land_spec, Hb. Qed.

(** ** Examples *)

Definition example_cpu : v7m_cpu := mkV7mCpu example_env 2 0 0 0 (-1).

Lemma example_requested : irq_requested example_cpu.
Proof. by constructor. Qed.

Lemma example_no_reserved j : j = 0 ∨ 16 <= j < 32 → wants gic_raised j = false.
Proof.
  intros Hj. assert (∃ k : nat, j = Z.of_nat k ∧ (k < 32)%nat ∧ (k = 0 ∨ 16 ≤ k)%nat) as (k & -> & Hk & Hk') by (exists (Z.to_nat j); lia).
  do 32 (destruct k as [|k]; [by vm_compute || lia|]). lia.
Qed.

Lemma interrupt_cycle_transparent_witness :
  ∃ c1 m1, cpu_exec_requests no_semihosting 97 (example_cpu, λ _, 0) = Ok (Runs_block, (c1, m1)) ∧ exception (env c1) = 16 ∧
    let c2 := set_request (set_env c1 (set_reg 15 (reg (env c1) 14) (env c1))) 0 in
    ∃ c3, (cpu_exec_exception no_semihosting 97 (set_index c2 EXCP_EXCEPTION_EXIT, m1)) = Ok (None, (c3, m1)) ∧
      reg (env c3) 13 = 0x20001004 ∧ reg (env c3) 15 = 0x100 ∧ exception (env c3) = 3.
Proof.
  destruct gic_raised_inv as (I & N & Hl).
  destruct (interrupt_cycle_transparent (M := ram) no_semihosting 97 example_cpu (λ _, 0) [] example_requested example_env_wf)
    as (r & c1 & m1 & Hq & T & Hback); [by vm_compute|by vm_compute|lia|exact I|exact N|exact Hl|exact example_no_reserved|].
  assert (exception (env c1) = 16 ∧ length (V7m.regs (env c1)) = 16%nat ∧ exit_request c1 = 0 ∧ reg (env c1) 14 = 0xfffffff5) as (Hx & Hlen & He & H14)
    by (vm_compute in Hq; injection Hq as <- _; done).
  exists c1, m1. split; [exact Hq|]. split; [exact Hx|]. set (c2 := set_request _ 0).
  destruct (Hback c2 m1) as (c2' & c3 & Ha & Hex & Hr & Hs & _).
  - constructor; [cbn; by rewrite length_insert|intros n Hn; apply reg_set_other; lia|reflexivity|reflexivity|reflexivity
      |exact (tk_inv _ _ _ _ T)|exact (proj1 (nested_ack r _ _ [] I N (tk_entered _ _ _ _ T)))|intros b _; reflexivity|cbn [env c2 set_request set_env]; rewrite reg_set_same by lia; reflexivity].
  - constructor; [cbn [env c2 set_request set_env]; rewrite reg_set_same, H14 by lia; by vm_compute|reflexivity|exact He].
  - exists c3. rewrite (inner_returns (M := ram) no_semihosting 97 c2 m1) in Ha.
    + injection Ha as <-. split; [exact Hex|]. split; [exact (Hr 13%nat ltac:(lia))|]. split; [exact (Hr 15%nat ltac:(lia))|].
      exact (same_exception _ _ Hs).
    + constructor; [cbn [env c2 set_request set_env]; rewrite reg_set_same, H14 by lia; by vm_compute|reflexivity|exact He].
Defined.

(** The same program asleep, with SysTick about to expire. *)
Definition sleeping_cpu : v7m_cpu :=
  mkV7mCpu (set_nvic example_env (mkNvic gic_example (mkSystick 3 99 100000) 0 0)) 0 1 0 0 (-1).

Lemma systick_wakes_cpu_witness :
  ∃ c1 ops c2 c3 m3, cpu_systick 20 sleeping_cpu = Ok (c1, ops) ∧
    cpu_exec_start None 0 c1 var_init = (None, c2, var_init) ∧
    cpu_exec_requests (M := ram) no_semihosting 97 (c2, λ _, 0) = Ok (Runs_block, (c3, m3)) ∧ exception (env c3) = 15.
Proof.
  destruct (gic_started_inv (replicate 32 0) (0x40 :: replicate 63 0) eq_refl eq_refl) as [I _].
  destruct (systick_wakes_cpu (M := ram) no_semihosting 97 20 None 0 sleeping_cpu (λ _, 0) var_init (mkIrq true false false false false true))
    as (c1 & ops & c2 & r & c3 & m3 & Hs & Hst & _ & Hq & T & _);
    [by destruct example_env_wf; constructor|by vm_compute|by vm_compute|reflexivity|reflexivity|reflexivity|reflexivity|exact I|reflexivity
    |reflexivity|reflexivity|by vm_compute|by vm_compute|].
  exists c1, ops, c2, c3, m3. split; [exact Hs|]. split; [exact Hst|]. split; [exact Hq|].
  vm_compute in Hs. injection Hs as <- <-. vm_compute in Hst. injection Hst as <-.
  vm_compute in Hq. injection Hq as <- _. reflexivity.
Defined.

Lemma masks_do_not_mask_witness :
  ∃ e c1 m1, v7m_msr 16 1 example_env = Ok e ∧ v7m_mrs 16 e = Ok 1 ∧
    cpu_exec_requests (M := ram) no_semihosting 97 (set_env example_cpu e, λ _, 0) = Ok (Runs_block, (c1, m1)) ∧ exception (env c1) = 16.
Proof.
  destruct gic_raised_inv as (I & _ & Hl).
  destruct (masks_do_not_mask (M := ram) no_semihosting 97 example_cpu (λ _, 0) 16 1 (list_elem_of_here _ _) example_requested example_env_wf)
    as (e & c1 & m1 & He & Hq & T); [by vm_compute|by vm_compute|exact I|exact Hl|].
  exists e, c1, m1. split; [exact He|]. split; [vm_compute in He; injection He as <-; reflexivity|]. split; [exact Hq|].
  exact (tk_vector _ _ _ _ T).
Defined.

Lemma interrupt_at_magic_address_witness :
  ∃ c1 m1, cpu_exec_requests (M := ram) no_semihosting 97 (set_env example_cpu (set_reg 15 0xfffffff9 example_env), λ _, 0) =
    Ok (Runs_block, (c1, m1)) ∧ ldl_phys (0x20001000 - 8) m1 = 0xfffffff9.
Proof.
  destruct gic_raised_inv as (I & _ & Hl).
  destruct (interrupt_at_magic_address (M := ram) no_semihosting 97 (set_env example_cpu (set_reg 15 0xfffffff9 example_env)) (λ _, 0))
    as (r & c1 & m1 & Hq & _ & Hf); [by constructor| |by vm_compute|by vm_compute|reflexivity|exact I|exact Hl|].
  - destruct example_env_wf; constructor; try assumption.
    repeat (apply Forall_cons; split; [by vm_compute|]). by apply Forall_nil.
  - exists c1, m1. split; [exact Hq|exact Hf].
Defined.

Lemma msr_mrs_witness : ∃ e, v7m_msr 18 0x20 example_env = Ok e ∧ v7m_mrs 18 e = Ok 0x20.
Proof.
  destruct (v7m_msr 18 0x20 example_env) as [e|] eqn:He; [|by vm_compute in He]. exists e. split; [done|].
  exact (msr_mrs 18 0x20 example_env e example_env_wf ltac:(by vm_compute) He).
Defined.
