(* ===== verification/Stellaris.v ===== *)
(** * Stellaris: the timers and the clock of the Stellaris boards together

    What the system controller ([Ssys]) leaves in [system_clock_scale] is what the timer
    modules ([Gptm]) and SysTick ([Nvic]) count with, and what the emulator's main loop
    ([TimerList]) waits for. *)

From S2P Require Import Prelude QDict QObject InsnMap Variability PowerModel Energy VarMod TimerList Ssys Gptm.
Local Open Scope Z_scope.

(** A guest that starts a periodic timer at [start] on a board that was just started. *)
Lemma gptm_armed_by_start scale start v w l :
  gptm_wf (module w) → config (module w) = 0 → truth (Z.land (control (module w)) 1) = false → Z.land v 1 = 1 →
  qemu_del_timer 0 l = [] →
  ∃ w1, gptm_guest_write scale start 0x0c v w l = Ok (w1, [(0%nat, (Gptm.tick (module w1)).1)]) ∧
    (Gptm.tick (module w1)).1 = s64 (start + joined (load (module w)) * scale) ∧
    config (module w1) = 0 ∧ mode (module w1) = mode (module w) ∧ load (module w1) = load (module w).
Proof.
  intros W Hc Hoff Hv Hl. rewrite gptm_start by done. unfold qemu_mod_timer_ns. rewrite Hl.
  exists (mkGptmWorld (set_tick (set_control (module w) v)
    (set2 (Gptm.tick (module w)) 0 (s64 (start + joined (load (module w)) * scale))))
    (flag (truth (Z.land (state (module w)) (mask (module w))))) (pulses w)).
  split; [reflexivity|done].
Qed.

(** A Stellaris board hangs on its first periodic timer: on a board that was
    started and whose RCC the guest has not written, a periodic 32-bit timer with any load
    value makes the emulator's main loop run its callback for ever from the moment it is
    enabled: whatever the time at which the loop looks, no amount of fuel is enough. *)
Theorem stellaris_timer_hangs b mac g g1 g2 a wsys pm start now v w l fuel :
  length mac = 6%nat → stellaris_boot b mac g g1 g2 a = Ok (wsys, pm) →
  gptm_wf (module w) → config (module w) = 0 → truth (Z.land (mode (module w)).1 1) = false →
  truth (Z.land (control (module w)) 1) = false → Z.land v 1 = 1 → qemu_del_timer 0 l = [] →
  0 <= start <= now → now < 2 ^ 63 →
  ∃ w1 l1, gptm_guest_write (system_clock_scale wsys) start 0x0c v w l = Ok (w1, l1) ∧
    @qemu_run_timers _ (gptm_client (system_clock_scale wsys)) fuel true now w1 l1 = Err Out_of_fuel.
Proof.
  intros Hmac Hb W Hc Hm Hoff Hv Hl Hst Hnow. rewrite (boot_clock _ _ _ _ _ _ _ _ Hmac Hb).
  destruct (gptm_armed_by_start 0 start v w l W Hc Hoff Hv Hl) as (w1 & Hw & Ht & Hc1 & Hm1 & Hl1).
  rewrite Z.mul_0_r, Z.add_0_r, s64_small in Ht by (unfold is_s64; lia).
  eexists w1, _. split; [exact Hw|]. apply run_periodic_hangs; [|unfold is_s64; lia|lia].
  split_and!; [done|by rewrite Hm1|lia].
Qed.

Lemma example_boot :
  ∃ wsys pm, stellaris_boot lm3s811evb [0; 0; 0; 0; 0; 1] (example_freq_locals 0) zero_cycles zero_cycles var_init = Ok (wsys, pm).
Proof. by apply boot_ok; [|apply var_init_fresh|apply example_freq_locals_ok]. Qed.

Lemma stellaris_timer_hangs_witness :
  ∃ w1 l1, gptm_guest_write 0 5 0x0c 1 (mkGptmWorld example_module 0 0) [] = Ok (w1, l1) ∧
    @qemu_run_timers _ (gptm_client 0) 1000 true 6 w1 l1 = Err Out_of_fuel.
Proof.
  destruct example_boot as (wsys & pm & Hb).
  rewrite <- (boot_clock _ _ _ _ _ _ _ _ (eq_refl : length [0; 0; 0; 0; 0; 1] = 6%nat) Hb).
  apply (stellaris_timer_hangs _ [0; 0; 0; 0; 0; 1] _ _ _ _ _ _ 5 6 1 (mkGptmWorld example_module 0 0) [] 1000 eq_refl Hb);
    [by repeat constructor|reflexivity|reflexivity|reflexivity|reflexivity|reflexivity|lia|lia].
Defined.
