(* ===== verification/I2c.v ===== *)
(** * I2c: the I2C bus and the controller of the Stellaris boards (hw/i2c.c, hw/stellaris.c)

    A bus has slaves, of which at most one is addressed; what a slave does is an instance
    of the class [I2CSlave], and what the bus and the controller rely on is the class
    [I2CSlaveLaws].  The controller's theorems are proved for any slaves. *)

From S2P Require Import Prelude.
Local Open Scope Z_scope.

Inductive i2c_event := I2C_START_RECV | I2C_START_SEND | I2C_FINISH | I2C_NACK.

(** The callbacks of [I2CSlaveInfo]; [send] and [recv] return what the C functions do. *)
Class I2CSlave (D : Type) := {
  event_cb : i2c_event → D → res D;
  send_cb : Z → D → res (Z * D);
  recv_cb : D → res (Z * D);
}.

(** What a slave promises: in a state that satisfies [ok] no callback fails. *)
Class I2CSlaveLaws (D : Type) `{I2CSlave D} (ok : D → Prop) := {
  event_ok ev d : ok d → ∃ d', event_cb ev d = Ok d' ∧ ok d';
  send_ok b d : ok d → 0 <= b < 256 → ∃ r d', send_cb b d = Ok (r, d') ∧ ok d';
  recv_ok d : ok d → ∃ r d', recv_cb d = Ok (r, d') ∧ ok d';
}.

Record i2c_slave (D : Type) := mkSlave { address : Z; device : D }.
Arguments mkSlave {D} _ _.
Arguments address {D} _.
Arguments device {D} _.

(** [children] in the order of the list; [current_dev] is a place in it. *)
Record i2c_bus (D : Type) := mkBus { children : list (i2c_slave D); current_dev : option nat }.
Arguments mkBus {D} _ _.
Arguments children {D} _.
Arguments current_dev {D} _.

Section bus.
Context {D : Type} `{I2CSlave D}.

Definition i2c_bus_busy (b : i2c_bus D) : bool := match current_dev b with Some _ => true | None => false end.

(** A callback on the slave at place [i]. *)
Definition at_slave {A} (f : D → res (A * D)) (i : nat) (b : i2c_bus D) : res (A * i2c_bus D) :=
  match children b !! i with
  | Some s => '(r, d) ← f (device s); Ok (r, mkBus (<[i := mkSlave (address s) d]> (children b)) (current_dev b))
  | None => Err Freed_access
  end.
Definition notify (ev : i2c_event) (d : D) : res (unit * D) := d ← event_cb ev d; Ok ((), d).

Definition set_current (c : option nat) (b : i2c_bus D) : i2c_bus D := mkBus (children b) c.

(** The result is nonzero when no slave has the address. *)
Definition i2c_start_transfer (addr recv : Z) (b : i2c_bus D) : res (Z * i2c_bus D) :=
  match list_find (λ s, address s = addr) (children b) with
  | None => Ok (1, b)
  | Some (i, _) =>
      '(_, b) ← at_slave (notify (if truth recv then I2C_START_RECV else I2C_START_SEND)) i (set_current (Some i) b);
      Ok (0, b)
  end.

Definition i2c_end_transfer (b : i2c_bus D) : res (i2c_bus D) :=
  match current_dev b with
  | None => Ok b
  | Some i => '(_, b) ← at_slave (notify I2C_FINISH) i b; Ok (set_current None b)
  end.

Definition i2c_send (data : Z) (b : i2c_bus D) : res (Z * i2c_bus D) :=
  match current_dev b with None => Ok (-1, b) | Some i => at_slave (send_cb data) i b end.

Definition i2c_recv (b : i2c_bus D) : res (Z * i2c_bus D) :=
  match current_dev b with None => Ok (-1, b) | Some i => at_slave recv_cb i b end.

Definition i2c_nack (b : i2c_bus D) : res (i2c_bus D) :=
  match current_dev b with None => Ok b | Some i => '(_, b) ← at_slave (notify I2C_NACK) i b; Ok b end.

(** Migration: the address of the slave that is addressed is saved (-1 in a [uint8_t] when
    there is none), and each slave that is loaded compares its own with it. *)
Definition i2c_bus_pre_save (b : i2c_bus D) : res Z :=
  match current_dev b with
  | None => Ok 0xff
  | Some i => match children b !! i with Some s => Ok (address s) | None => Err Freed_access end
  end.
Definition i2c_bus_post_load (b : i2c_bus D) : i2c_bus D := set_current None b.
Definition i2c_slave_post_load (saved_address : Z) (b : i2c_bus D) (i : nat) : res (i2c_bus D) :=
  match children b !! i with
  | Some s => Ok (if saved_address =? address s then set_current (Some i) b else b)
  | None => Err Freed_access
  end.
(** The slaves are loaded in the order [places], after the bus. *)
Fixpoint load_slaves (saved_address : Z) (places : list nat) (b : i2c_bus D) : res (i2c_bus D) :=
  match places with [] => Ok b | i :: places => b ← i2c_slave_post_load saved_address b i; load_slaves saved_address places b end.
End bus.

(** ** The controller *)

Record stellaris_i2c_state := mkI2c { msa : Z; mcs : Z; mdr : Z; mtpr : Z; mimr : Z; mris : Z; mcr : Z }.

Record i2c_world (D : Type) := mkI2cWorld { ctl : stellaris_i2c_state; bus : i2c_bus D; i2c_irq : Z }.
Arguments mkI2cWorld {D} _ _ _.
Arguments ctl {D} _.
Arguments bus {D} _.
Arguments i2c_irq {D} _.

Definition MCS_ERROR : Z := 0x02.
Definition MCS_ARBLST : Z := 0x10.
Definition MCS_IDLE : Z := 0x20.
Definition MCS_BUSBSY : Z := 0x40.

Definition set_msa (s : stellaris_i2c_state) (x : Z) := mkI2c x (mcs s) (mdr s) (mtpr s) (mimr s) (mris s) (mcr s).
Definition set_mcs (s : stellaris_i2c_state) (x : Z) := mkI2c (msa s) x (mdr s) (mtpr s) (mimr s) (mris s) (mcr s).
Definition set_mdr (s : stellaris_i2c_state) (x : Z) := mkI2c (msa s) (mcs s) x (mtpr s) (mimr s) (mris s) (mcr s).
Definition set_mtpr (s : stellaris_i2c_state) (x : Z) := mkI2c (msa s) (mcs s) (mdr s) x (mimr s) (mris s) (mcr s).
Definition set_mimr (s : stellaris_i2c_state) (x : Z) := mkI2c (msa s) (mcs s) (mdr s) (mtpr s) x (mris s) (mcr s).
Definition set_mris (s : stellaris_i2c_state) (x : Z) := mkI2c (msa s) (mcs s) (mdr s) (mtpr s) (mimr s) x (mcr s).
Definition set_mcr (s : stellaris_i2c_state) (x : Z) := mkI2c (msa s) (mcs s) (mdr s) (mtpr s) (mimr s) (mris s) x.

Definition stellaris_i2c_read (offset : Z) (s : stellaris_i2c_state) : res Z :=
  match offset with
  | 0x00 => Ok (msa s)
  | 0x04 => Ok (Z.lor (mcs s) MCS_IDLE)
  | 0x08 => Ok (mdr s)
  | 0x0c => Ok (mtpr s)
  | 0x10 => Ok (mimr s)
  | 0x14 => Ok (mris s)
  | 0x18 => Ok (Z.land (mris s) (mimr s))
  | 0x20 => Ok (mcr s)
  | _ => Err Hw_error
  end.

Section controller.
Context {D : Type} `{I2CSlave D}.

Definition stellaris_i2c_update (w : i2c_world D) : i2c_world D :=
  mkI2cWorld (ctl w) (bus w) (flag (truth (Z.land (mris (ctl w)) (mimr (ctl w))))).

(** The parts of a write to MCS: grab the bus, transfer a byte, release the bus. *)
Definition mcs_start (value : Z) (s : stellaris_i2c_state) (b : i2c_bus D) : res (stellaris_i2c_state * i2c_bus D) :=
  if truth (Z.land value 2) && (Z.land (mcs s) MCS_BUSBSY =? 0) then
    '(r, b) ← i2c_start_transfer (Z.shiftr (msa s) 1) (Z.land (msa s) 1) b;
    Ok (if truth r then set_mcs s (Z.lor (mcs s) MCS_ARBLST)
        else set_mcs s (Z.lor (Z.ldiff (mcs s) MCS_ARBLST) MCS_BUSBSY), b)
  else Ok (s, b).

Definition mcs_run (value : Z) (s : stellaris_i2c_state) (b : i2c_bus D) : res (stellaris_i2c_state * i2c_bus D) :=
  if truth (Z.land value 1) then
    '(s, b) ← (if truth (Z.land (msa s) 1)
               then '(r, b) ← i2c_recv b; Ok (set_mdr s (Z.land r 0xff), b)
               else '(_, b) ← i2c_send (mdr s) b; Ok (s, b));
    Ok (set_mris s (Z.lor (mris s) 1), b)
  else Ok (s, b).

Definition mcs_stop (value : Z) (s : stellaris_i2c_state) (b : i2c_bus D) : res (stellaris_i2c_state * i2c_bus D) :=
  if truth (Z.land value 4) then b ← i2c_end_transfer b; Ok (set_mcs s (Z.ldiff (mcs s) MCS_BUSBSY), b)
  else Ok (s, b).

Definition write_mcs (value : Z) (s : stellaris_i2c_state) (b : i2c_bus D) : res (stellaris_i2c_state * i2c_bus D) :=
  if Z.land (mcr s) 0x10 =? 0 then Ok (s, b) else
  '(s, b) ← mcs_start value s b;
  if negb (i2c_bus_busy b) || (Z.land (mcs s) MCS_BUSBSY =? 0) then Ok (set_mcs s (Z.lor (mcs s) MCS_ERROR), b) else
  '(s, b) ← mcs_run value (set_mcs s (Z.ldiff (mcs s) MCS_ERROR)) b;
  mcs_stop value s b.

Definition stellaris_i2c_write (offset value : Z) (w : i2c_world D) : res (i2c_world D) :=
  let s := ctl w in
  let set (s : stellaris_i2c_state) := Ok (s, bus w) in
  '(s, b) ←
    match offset with
    | 0x00 => set (set_msa s (Z.land value 0xff))
    | 0x04 => write_mcs value s (bus w)
    | 0x08 => set (set_mdr s (Z.land value 0xff))
    | 0x0c => set (set_mtpr s (Z.land value 0xff))
    | 0x10 => set (set_mimr s 1)
    | 0x1c => set (set_mris s (Z.ldiff (mris s) value))
    | 0x20 =>
        if truth (Z.land value 1) then Err Hw_error
        else if truth (Z.land value 0x20) then Err Hw_error
        else set (set_mcr s (Z.land value 0x31))
    | _ => Err Hw_error
    end;
  Ok (stellaris_i2c_update (mkI2cWorld s b (i2c_irq w))).

Definition stellaris_i2c_reset (w : i2c_world D) : res (i2c_world D) :=
  b ← (if truth (Z.land (mcs (ctl w)) MCS_BUSBSY) then i2c_end_transfer (bus w) else Ok (bus w));
  Ok (stellaris_i2c_update (mkI2cWorld (mkI2c 0 0 0 1 0 0 0) b (i2c_irq w))).

(** The controller with the slaves that were put on its bus. *)
Definition stellaris_i2c_init (slaves : list (i2c_slave D)) : res (i2c_world D) :=
  stellaris_i2c_reset (mkI2cWorld (mkI2c 0 0 0 0 0 0 0) (mkBus slaves None) 0).
End controller.

(** ** Facts about the bus *)

Section facts.
Context {D : Type} `{I2CSlave D}.

(** The slave at place [i] answers a callback. *)
Lemma at_slave_ok {A} (f : D → res (A * D)) i (b : i2c_bus D) s r d :
  children b !! i = Some s → f (device s) = Ok (r, d) →
  at_slave f i b = Ok (r, mkBus (<[i := mkSlave (address s) d]> (children b)) (current_dev b)).
Proof. intros Hi Hf. unfold at_slave. by rewrite Hi, Hf. Qed.

Lemma notify_ok ev d d' : event_cb ev d = Ok d' → notify ev d = Ok ((), d').
Proof. intros He. unfold notify. by rewrite He. Qed.

(** Loading the slaves, in any order, leaves the one that was addressed addressed. *)
Lemma load_slaves_current saved (b : i2c_bus D) places :
  (∀ i, i ∈ places → (i < length (children b))%nat) → NoDup (address <$> children b) →
  ∃ c, load_slaves saved places b = Ok (set_current c b) ∧
    (∀ i s, children b !! i = Some s → address s = saved → c = if decide (i ∈ places) then Some i else current_dev b) ∧
    ((∀ s : i2c_slave D, s ∈ children b → address s ≠ saved) → c = current_dev b).
Proof.
  revert b. induction places as [|i places IH]; intros b His Hnd.
  - exists (current_dev b). split_and!; [by destruct b | |done]. intros i s _ _. by rewrite decide_False by set_solver.
  - destruct (lookup_lt_is_Some_2 (children b) i) as [s Hs]; [apply His; set_solver|]. cbn [load_slaves]. unfold i2c_slave_post_load.
    rewrite Hs. cbn [mbind res_bind]. destruct (saved =? address s) eqn:Heq.
    + apply Z.eqb_eq in Heq as ->. destruct (IH (set_current (Some i) b)) as (c & Hc & Hin & Hno); [|done|]; [set_solver|].
      exists c. split_and!; [done| |]; cycle 1. { intros Hall. exfalso. eapply Hall; [|done]. by eapply list_elem_of_lookup_2. }
      intros j t Ht Ha. assert (j = i) as ->.
      { eapply (NoDup_lookup (address <$> children b)); [done| |]; rewrite list_lookup_fmap; [by rewrite Ht|]. rewrite Hs. cbn. by rewrite Ha. }
      rewrite decide_True by set_solver. rewrite (Hin i s Hs eq_refl). by destruct (decide _).
    + apply Z.eqb_neq in Heq. destruct (IH b) as (c & Hc & Hin & Hno); [set_solver|done|]. exists c. split_and!; [done| |done].
      intros j t Ht Ha. rewrite (Hin j t Ht Ha). assert (j ≠ i) by (intros ->; congruence).
      destruct (decide (j ∈ places)); [by rewrite decide_True by set_solver|by rewrite decide_False by set_solver].
Qed.

(** A migration keeps the slave that is addressed: with addresses that differ and are
    addresses of the bus (below 128), saving the bus, loading it and loading the slaves in
    any order gives the bus that was saved. *)
Theorem i2c_bus_migrates (b : i2c_bus D) places :
  (∀ i, current_dev b = Some i → (i < length (children b))%nat) → NoDup (address <$> children b) →
  Forall (λ s, 0 <= address s < 128) (children b) → places ≡ₚ seq 0 (length (children b)) →
  (saved ← i2c_bus_pre_save b; load_slaves saved places (i2c_bus_post_load b)) = Ok b.
Proof.
  intros Hc Hnd Ha Hp. assert (∀ i, i ∈ places ↔ (i < length (children b))%nat) as His. { intros i. rewrite Hp, elem_of_seq. lia. }
  unfold i2c_bus_pre_save. destruct (current_dev b) as [i|] eqn:Hcur.
  - specialize (Hc i eq_refl). destruct (lookup_lt_is_Some_2 _ _ Hc) as [s Hs]. rewrite Hs. cbn [mbind res_bind].
    destruct (load_slaves_current (address s) (i2c_bus_post_load b) places) as (c & -> & Hin & _); [set_solver|done|].
    rewrite (Hin i s Hs eq_refl), decide_True by set_solver. destruct b. cbn in *. by rewrite Hcur.
  - cbn [mbind res_bind]. destruct (load_slaves_current 0xff (i2c_bus_post_load b) places) as (c & -> & _ & Hno); [set_solver|done|].
    rewrite Hno; [destruct b; cbn in *; by rewrite Hcur|]. intros s Hs. rewrite Forall_forall in Ha. specialize (Ha s Hs). lia.
Qed.

(** ** Transactions *)

(** The bytes as the slave gets them. *)
Fixpoint slave_sends (bs : list Z) (d : D) : res D :=
  match bs with [] => Ok d | b :: bs => '(_, d) ← send_cb b d; slave_sends bs d end.

(** A whole send transaction, for the slave. *)
Definition slave_transaction (bs : list Z) (d : D) : res D :=
  d ← event_cb I2C_START_SEND d; d ← slave_sends bs d; event_cb I2C_FINISH d.

Fixpoint i2c_writes (ws : list (Z * Z)) (w : i2c_world D) : res (i2c_world D) :=
  match ws with [] => Ok w | (offset, value) :: ws => w ← stellaris_i2c_write offset value w; i2c_writes ws w end.

Lemma i2c_writes_app ws1 ws2 w : i2c_writes (ws1 ++ ws2) w = (w ← i2c_writes ws1 w; i2c_writes ws2 w).
Proof.
  revert w. induction ws1 as [|[o v] ws1 IH]; intros w; [done|]. cbn [app i2c_writes].
  destruct (stellaris_i2c_write o v w) as [w1|]; [apply IH|done].
Qed.

(** What a driver writes to send [bs]: the address, then each byte with RUN (the first
    with START as well), then STOP. *)
Definition send_program (addr b : Z) (bs : list Z) : list (Z * Z) :=
  [(0x00, 2 * addr); (0x08, b); (0x04, 3)] ++ concat ((λ b, [(0x08, b); (0x04, 1)]) <$> bs) ++ [(0x04, 4)].

(** The controller is enabled, and holds the bus for the slave at place [i], or not at
    all. *)
Record i2c_ready (w : i2c_world D) (cur : option nat) : Prop := {
  rd_enabled : Z.testbit (mcr (ctl w)) 4 = true;
  rd_busy : Z.testbit (mcs (ctl w)) 6 = match cur with Some _ => true | None => false end;
  rd_current : current_dev (bus w) = cur;
}.

Lemma bit6 z : (Z.land z MCS_BUSBSY =? 0) = negb (Z.testbit z 6).
Proof. change MCS_BUSBSY with (Z.shiftl 1 6). rewrite <- truth_land_bit by lia. unfold truth. by rewrite negb_involutive. Qed.
Lemma bit0 z : truth (Z.land z 1) = Z.testbit z 0.
Proof. change (Z.land z 1) with (Z.land z (Z.shiftl 1 0)). by rewrite truth_land_bit by lia. Qed.
Lemma enabled_bit4 z : Z.testbit z 4 = true → (Z.land z 0x10 =? 0) = false.
Proof. intros Hz. change 0x10 with (Z.shiftl 1 4). rewrite <- truth_land_bit in Hz by lia. by apply negb_true_iff. Qed.

(** What a write does to the registers of a controller that is enabled and holds the bus
    for the slave at place [i]. *)
Lemma write_mcs_held w i value :
  i2c_ready w (Some i) →
  write_mcs value (ctl w) (bus w) =
    ('(s, b) ← mcs_run value (set_mcs (ctl w) (Z.ldiff (mcs (ctl w)) MCS_ERROR)) (bus w); mcs_stop value s b).
Proof.
  intros [Re Rb Rc]. unfold write_mcs, mcs_start. rewrite enabled_bit4, bit6, Rb by done. cbn [negb]. rewrite andb_false_r.
  cbn [mbind res_bind]. rewrite bit6, Rb. unfold i2c_bus_busy. by rewrite Rc.
Qed.

(** A byte goes to the slave that is addressed. *)
Lemma mcs_run_send value s b i sl r d :
  truth (Z.land value 1) = true → Z.testbit (msa s) 0 = false → current_dev b = Some i → children b !! i = Some sl → send_cb (mdr s) (device sl) = Ok (r, d) →
  mcs_run value s b = Ok (set_mris s (Z.lor (mris s) 1), mkBus (<[i := mkSlave (address sl) d]> (children b)) (Some i)).
Proof.
  intros Hv Hm Hc Hi Hs. unfold mcs_run. rewrite Hv, bit0, Hm. unfold i2c_send. rewrite Hc.
  by rewrite (at_slave_ok _ i b sl r d Hi Hs), Hc.
Qed.

Lemma mcs_stop_nothing value s (b : i2c_bus D) : truth (Z.land value 4) = false → mcs_stop value s b = Ok (s, b).
Proof. intros Hv. unfold mcs_stop. by rewrite Hv. Qed.

Lemma byte_land b : 0 <= b < 256 → Z.land b 0xff = b.
Proof. intros Hb. change 0xff with (2 ^ 8 - 1). rewrite land_mod, Z.mod_small; lia. Qed.

(** The writes a transaction is made of. *)
Lemma write_mdr w b :
  0 <= b < 256 → stellaris_i2c_write 0x08 b w = Ok (stellaris_i2c_update (mkI2cWorld (set_mdr (ctl w) b) (bus w) (i2c_irq w))).
Proof. intros Hb. unfold stellaris_i2c_write. cbn iota. by rewrite byte_land. Qed.
Lemma write_msa w b :
  0 <= b < 256 → stellaris_i2c_write 0x00 b w = Ok (stellaris_i2c_update (mkI2cWorld (set_msa (ctl w) b) (bus w) (i2c_irq w))).
Proof. intros Hb. unfold stellaris_i2c_write. cbn iota. by rewrite byte_land. Qed.
Lemma write_control w v s b :
  write_mcs v (ctl w) (bus w) = Ok (s, b) → stellaris_i2c_write 0x04 v w = Ok (stellaris_i2c_update (mkI2cWorld s b (i2c_irq w))).
Proof. intros Hw. unfold stellaris_i2c_write. cbn iota. by rewrite Hw. Qed.

(** Writes of the data register and of the control register while the bus is held. *)
Lemma run_byte w i sl b r d :
  i2c_ready w (Some i) → Z.testbit (msa (ctl w)) 0 = false → children (bus w) !! i = Some sl → 0 <= b < 256 →
  send_cb b (device sl) = Ok (r, d) →
  ∃ w', i2c_writes [(0x08, b); (0x04, 1)] w = Ok w' ∧ i2c_ready w' (Some i) ∧ msa (ctl w') = msa (ctl w) ∧
    mimr (ctl w') = mimr (ctl w) ∧ Z.testbit (mris (ctl w')) 0 = true ∧
    Z.testbit (mcs (ctl w')) 4 = Z.testbit (mcs (ctl w)) 4 ∧
    children (bus w') = <[i := mkSlave (address sl) d]> (children (bus w)).
Proof.
  intros [Re Rb Rc] Hm Hi Hb Hs. cbn [i2c_writes]. rewrite write_mdr by done. cbn [mbind res_bind].
  erewrite write_control; last first.
  { erewrite write_mcs_held by (by constructor). erewrite (mcs_run_send _ _ _ i) by done. by apply mcs_stop_nothing. }
  eexists. split; [reflexivity|]. split_and!; try done.
  - constructor; [done| |done]. cbn -[Z.ldiff Z.testbit]. rewrite Z.ldiff_spec, Rb. done.
  - cbn -[Z.lor Z.testbit]. rewrite Z.lor_spec. apply orb_true_r.
  - cbn -[Z.ldiff Z.testbit]. rewrite Z.ldiff_spec. apply andb_true_r.
Qed.

(** The bytes after the first. *)
Lemma run_bytes bs w i sl d :
  i2c_ready w (Some i) → Z.testbit (msa (ctl w)) 0 = false → children (bus w) !! i = Some sl → Forall (λ b, 0 <= b < 256) bs →
  slave_sends bs (device sl) = Ok d →
  ∃ w', i2c_writes (concat ((λ b, [(0x08, b); (0x04, 1)]) <$> bs)) w = Ok w' ∧ i2c_ready w' (Some i) ∧
    msa (ctl w') = msa (ctl w) ∧ mimr (ctl w') = mimr (ctl w) ∧
    (Z.testbit (mris (ctl w)) 0 = true → Z.testbit (mris (ctl w')) 0 = true) ∧
    Z.testbit (mcs (ctl w')) 4 = Z.testbit (mcs (ctl w)) 4 ∧
    children (bus w') = <[i := mkSlave (address sl) d]> (children (bus w)).
Proof.
  intros Hr Hm Hi Hb. revert w sl Hr Hm Hi. induction Hb as [|b bs Hb _ IH]; intros w sl Hr Hm Hi Hs.
  - injection Hs as <-. exists w. split_and!; try done. destruct sl. by rewrite list_insert_id.
  - cbn [slave_sends] in Hs. destruct (send_cb b (device sl)) as [[r d1]|] eqn:Hsend; [|done].
    destruct (run_byte w i sl b r d1 Hr Hm Hi Hb Hsend) as (w1 & Hw1 & Hr1 & Hm1 & Hmi1 & Hri1 & Hc1 & Hch1).
    destruct (IH w1 (mkSlave (address sl) d1) Hr1) as (w' & Hw' & Hr' & Hm' & Hmi' & Hri' & Hc' & Hch').
    + by rewrite Hm1.
    + rewrite Hch1. apply list_lookup_insert_eq. by eapply lookup_lt_Some.
    + done.
    + exists w'. rewrite fmap_cons. cbn [concat]. rewrite i2c_writes_app, Hw1. split_and!; try done; try congruence; [by auto|].
      rewrite Hch', Hch1. by rewrite list_insert_insert_eq.
Qed.

Lemma shift_msa addr : Z.shiftr (2 * addr) 1 = addr.
Proof. rewrite Z.shiftr_div_pow2 by lia. change (2 ^ 1) with 2. rewrite Z.mul_comm. apply Z.div_mul. lia. Qed.
Lemma even_msa addr : Z.testbit (2 * addr) 0 = false.
Proof. apply Z.testbit_even_0. Qed.

(** The start of a transaction to a slave that exists. *)
Lemma mcs_start_found s b value addr i sl d :
  truth (Z.land value 2) = true → Z.testbit (mcs s) 6 = false → msa s = 2 * addr →
  list_find (λ s, address s = addr) (children b) = Some (i, sl) → event_cb I2C_START_SEND (device sl) = Ok d →
  mcs_start value s b =
    Ok (set_mcs s (Z.lor (Z.ldiff (mcs s) MCS_ARBLST) MCS_BUSBSY), mkBus (<[i := mkSlave (address sl) d]> (children b)) (Some i)).
Proof.
  intros Hv Hb Ha Hf He. unfold mcs_start. rewrite Hv, bit6, Hb, Ha, shift_msa. cbn [negb andb]. unfold i2c_start_transfer. rewrite Hf.
  rewrite bit0, even_msa. pose proof (proj1 (proj1 (list_find_Some _ _ _ _) Hf)) as Hi.
  by rewrite (at_slave_ok _ i (set_current (Some i) b) sl () d Hi (notify_ok _ _ _ He)).
Qed.

(** The first three writes: address, first byte, START and RUN. *)
Lemma start_byte w addr b i sl d1 r d2 :
  i2c_ready w None → 0 <= addr < 128 → 0 <= b < 256 → list_find (λ s, address s = addr) (children (bus w)) = Some (i, sl) →
  event_cb I2C_START_SEND (device sl) = Ok d1 → send_cb b d1 = Ok (r, d2) →
  ∃ w', i2c_writes [(0x00, 2 * addr); (0x08, b); (0x04, 3)] w = Ok w' ∧ i2c_ready w' (Some i) ∧ msa (ctl w') = 2 * addr ∧
    mimr (ctl w') = mimr (ctl w) ∧ Z.testbit (mris (ctl w')) 0 = true ∧ Z.testbit (mcs (ctl w')) 4 = false ∧
    children (bus w') = <[i := mkSlave (address sl) d2]> (children (bus w)).
Proof.
  intros [Re Rb Rc] Ha Hb Hf He Hs. cbn [i2c_writes]. rewrite write_msa by lia. cbn [mbind res_bind]. rewrite write_mdr by done. cbn [mbind res_bind].
  pose proof (proj1 (proj1 (list_find_Some _ _ _ _) Hf)) as Hi.
  erewrite write_control; last first.
  { unfold write_mcs. rewrite enabled_bit4 by done. erewrite (mcs_start_found _ _ 3 addr i sl) by done. cbn [mbind res_bind].
    cbn [i2c_bus_busy current_dev negb orb]. rewrite bit6.
    replace (Z.testbit _ 6) with true by (cbn [set_mcs mcs]; rewrite Z.lor_spec; symmetry; apply orb_true_r). cbn [negb].
    erewrite (mcs_run_send 3 _ _ i (mkSlave (address sl) d1) r d2); [by apply mcs_stop_nothing| reflexivity | apply even_msa | reflexivity | | exact Hs].
    apply list_lookup_insert_eq. by eapply lookup_lt_Some. }
  eexists. split; [reflexivity|]. split_and!; try done.
  - constructor; [done| |done]. cbn -[Z.lor Z.ldiff Z.testbit]. rewrite Z.ldiff_spec, Z.lor_spec, orb_true_r. done.
  - cbn -[Z.lor Z.testbit]. rewrite Z.lor_spec. apply orb_true_r.
  - cbn -[Z.ldiff Z.lor Z.testbit]. rewrite Z.ldiff_spec, Z.lor_spec, Z.ldiff_spec, andb_false_r. done.
  - cbn [bus stellaris_i2c_update children]. cbn [address]. apply list_insert_insert_eq.
Qed.

(** The last write: STOP. *)
Lemma stop_transfer w i sl d :
  i2c_ready w (Some i) → children (bus w) !! i = Some sl → event_cb I2C_FINISH (device sl) = Ok d →
  ∃ w', i2c_writes [(0x04, 4)] w = Ok w' ∧ i2c_ready w' None ∧ msa (ctl w') = msa (ctl w) ∧ mimr (ctl w') = mimr (ctl w) ∧
    mris (ctl w') = mris (ctl w) ∧ Z.testbit (mcs (ctl w')) 4 = Z.testbit (mcs (ctl w)) 4 ∧ Z.testbit (mcs (ctl w')) 1 = false ∧
    i2c_irq w' = flag (truth (Z.land (mris (ctl w)) (mimr (ctl w)))) ∧
    children (bus w') = <[i := mkSlave (address sl) d]> (children (bus w)).
Proof.
  intros Hr Hi He. cbn [i2c_writes]. erewrite write_control; last first.
  { rewrite (write_mcs_held _ i) by done. unfold mcs_run. change (truth (Z.land 4 1)) with false. cbn [mbind res_bind].
    unfold mcs_stop. change (truth (Z.land 4 4)) with true. unfold i2c_end_transfer. rewrite (rd_current _ _ Hr).
    rewrite (at_slave_ok _ i (bus w) sl () d Hi (notify_ok _ _ _ He)). reflexivity. }
  destruct Hr as [Re Rb Rc]. eexists. split; [reflexivity|]. split_and!; try done.
  - constructor; [done| |done]. cbn -[Z.ldiff Z.testbit]. rewrite !Z.ldiff_spec. apply andb_false_r.
  - cbn -[Z.ldiff Z.testbit]. rewrite !Z.ldiff_spec. by rewrite !andb_true_r.
  - cbn -[Z.ldiff Z.testbit]. rewrite !Z.ldiff_spec. rewrite andb_false_r. done.
Qed.

(** What the guest writes to send bytes is, for the slave that has the address, the
    transaction with these bytes; the other slaves see nothing, and the bus is free again,
    without an error. *)
Theorem send_transaction addr b bs w i sl d :
  i2c_ready w None → 0 <= addr < 128 → Forall (λ b, 0 <= b < 256) (b :: bs) →
  list_find (λ s, address s = addr) (children (bus w)) = Some (i, sl) →
  slave_transaction (b :: bs) (device sl) = Ok d →
  ∃ w', i2c_writes (send_program addr b bs) w = Ok w' ∧ i2c_ready w' None ∧
    children (bus w') = <[i := mkSlave (address sl) d]> (children (bus w)) ∧
    Z.testbit (mcs (ctl w')) 1 = false ∧ Z.testbit (mcs (ctl w')) 4 = false ∧
    mimr (ctl w') = mimr (ctl w) ∧ (mimr (ctl w) = 1 → i2c_irq w' = 1).
Proof.
  intros Hr Ha Hbs Hf Ht. apply Forall_cons in Hbs as [Hb Hbs].
  unfold slave_transaction in Ht. destruct (event_cb I2C_START_SEND (device sl)) as [d1|] eqn:He; [|done].
  cbn [mbind res_bind slave_sends] in Ht. destruct (send_cb b d1) as [[r d2]|] eqn:Hs; [|done]. cbn [mbind res_bind] in Ht.
  destruct (slave_sends bs d2) as [d3|] eqn:Hss; [|done]. cbn [mbind res_bind] in Ht.
  pose proof (proj1 (proj1 (list_find_Some _ _ _ _) Hf)) as Hi. pose proof (lookup_lt_Some _ _ _ Hi) as Hl.
  destruct (start_byte w addr b i sl d1 r d2 Hr Ha Hb Hf He Hs) as (w1 & Hw1 & Hr1 & Hm1 & Hmi1 & Hri1 & Hc1 & Hch1).
  destruct (run_bytes bs w1 i (mkSlave (address sl) d2) d3 Hr1) as (w2 & Hw2 & Hr2 & Hm2 & Hmi2 & Hri2 & Hc2 & Hch2); [| |done|done|].
  { rewrite Hm1. apply even_msa. }
  { rewrite Hch1. by apply list_lookup_insert_eq. }
  destruct (stop_transfer w2 i (mkSlave (address sl) d3) d Hr2) as (w3 & Hw3 & Hr3 & Hm3 & Hmi3 & Hri3 & Hc3 & He3 & Hq3 & Hch3); [|done|].
  { rewrite Hch2, Hch1, list_insert_insert_eq. by apply list_lookup_insert_eq. }
  exists w3. unfold send_program. rewrite i2c_writes_app, Hw1. cbn [mbind res_bind]. rewrite i2c_writes_app, Hw2. split_and!; try done.
  - by rewrite Hch3, Hch2, Hch1, !list_insert_insert_eq.
  - congruence.
  - congruence.
  - intros Hm. rewrite Hq3, Hmi2, Hmi1, Hm, bit0, Hri2; done.
Qed.

(** START while no slave has the address: an error and a lost arbitration are reported, the
    bus is not taken and no slave is told anything. *)
Theorem i2c_no_slave w a v :
  i2c_ready w None → 0 <= a < 256 → list_find (λ s, address s = Z.shiftr a 1) (children (bus w)) = None → truth (Z.land v 2) = true →
  ∃ w', i2c_writes [(0x00, a); (0x04, v)] w = Ok w' ∧ bus w' = bus w ∧ i2c_ready w' None ∧
    Z.testbit (mcs (ctl w')) 1 = true ∧ Z.testbit (mcs (ctl w')) 4 = true.
Proof.
  intros [Re Rb Rc] Ha Hf Hv. cbn [i2c_writes]. rewrite write_msa by done. cbn [mbind res_bind]. erewrite write_control; last first.
  { unfold write_mcs. rewrite enabled_bit4 by done. unfold mcs_start. rewrite Hv, bit6. cbn [ctl bus stellaris_i2c_update mcs msa set_msa].
    rewrite Rb. cbn [negb andb]. unfold i2c_start_transfer. rewrite Hf. cbn [mbind res_bind]. change (truth 1) with true. cbn iota.
    unfold i2c_bus_busy. rewrite Rc. cbn [negb orb]. reflexivity. }
  eexists. split; [reflexivity|]. split_and!; try done.
  - constructor; try done. cbn -[Z.lor Z.testbit]. by rewrite !Z.lor_spec, Rb.
  - cbn -[Z.lor Z.testbit]. rewrite !Z.lor_spec. apply orb_true_r.
  - cbn -[Z.lor Z.testbit]. rewrite !Z.lor_spec, orb_true_r. done.
Qed.

(** A repeated START does not change the slave: with the bus held, the byte that follows
    another address goes to the slave that was addressed before. *)
Theorem repeated_start_ignored w i sl addr b r d :
  i2c_ready w (Some i) → children (bus w) !! i = Some sl → 0 <= addr < 128 → 0 <= b < 256 → send_cb b (device sl) = Ok (r, d) →
  ∃ w', i2c_writes [(0x00, 2 * addr); (0x08, b); (0x04, 3)] w = Ok w' ∧
    bus w' = mkBus (<[i := mkSlave (address sl) d]> (children (bus w))) (Some i).
Proof.
  intros [Re Rb Rc] Hi Ha Hb Hs. cbn [i2c_writes]. rewrite write_msa by lia. cbn [mbind res_bind]. rewrite write_mdr by done. cbn [mbind res_bind].
  erewrite write_control; last first.
  { erewrite write_mcs_held by (by constructor). erewrite (mcs_run_send _ _ _ i sl r d); [|done|apply even_msa|done|done|done].
    by apply mcs_stop_nothing. }
  by eexists.
Qed.
End facts.

(** ** The controller never fails *)

(** The writes that the controller takes: a register it has, and neither loopback nor the
    slave mode. *)
Definition access_ok (offset value : Z) : bool :=
  match offset with
  | 0x00 | 0x04 | 0x08 | 0x0c | 0x10 | 0x1c => true
  | 0x20 => negb (truth (Z.land value 1)) && negb (truth (Z.land value 0x20))
  | _ => false
  end.

Section safety.
Context {D : Type} `{I2CSlaveLaws D ok}.

(** BUSBSY says whether a slave is addressed, a place of the list then; the interrupt line
    is the masked status; address and data are bytes; every slave is in a good state. *)
Record i2c_inv (w : i2c_world D) : Prop := {
  inv_busy : Z.testbit (mcs (ctl w)) 6 = i2c_bus_busy (bus w);
  inv_current : ∀ i, current_dev (bus w) = Some i → (i < length (children (bus w)))%nat;
  inv_slaves : Forall (λ s, ok (device s)) (children (bus w));
  inv_bytes : 0 <= msa (ctl w) < 256 ∧ 0 <= mdr (ctl w) < 256;
  inv_irq : i2c_irq w = flag (truth (Z.land (mris (ctl w)) (mimr (ctl w))));
}.

(** The bus alone. *)
Definition bus_ok (b : i2c_bus D) : Prop :=
  (∀ i, current_dev b = Some i → (i < length (children b))%nat) ∧ Forall (λ s, ok (device s)) (children b).

Definition same_places (b b' : i2c_bus D) : Prop := address <$> children b' = address <$> children b.

Lemma at_slave_safe {A} (f : D → res (A * D)) i (b : i2c_bus D) :
  bus_ok b → (i < length (children b))%nat → (∀ d, ok d → ∃ r d', f d = Ok (r, d') ∧ ok d') →
  ∃ r b', at_slave f i b = Ok (r, b') ∧ bus_ok b' ∧ current_dev b' = current_dev b ∧ same_places b b'.
Proof.
  intros [Hc Hs] Hi Hf. destruct (lookup_lt_is_Some_2 _ _ Hi) as [s Hl].
  destruct (Hf (device s)) as (r & d & Hd & Hok). { by eapply (Forall_lookup_1 _ _ _ _ Hs Hl). }
  exists r. eexists. split; [by eapply at_slave_ok|]. split_and!; [|done|].
  - split; cbn [children current_dev]; [by rewrite length_insert|]. by apply Forall_insert.
  - unfold same_places. cbn [children]. rewrite list_fmap_insert. cbn [address]. apply list_insert_id. by rewrite list_lookup_fmap, Hl.
Qed.

Lemma notify_safe ev d : ok d → ∃ r d', notify ev d = Ok (r, d') ∧ ok d'.
Proof. intros Hd. destruct (event_ok ev d Hd) as (d' & He & Hok). exists (), d'. by rewrite (notify_ok _ _ _ He). Qed.

Lemma start_transfer_safe addr recv b :
  bus_ok b → ∃ r b', i2c_start_transfer addr recv b = Ok (r, b') ∧ bus_ok b' ∧ same_places b b' ∧
    current_dev b' = if truth r then current_dev b else fst <$> list_find (λ s, address s = addr) (children b).
Proof.
  intros Hb. unfold i2c_start_transfer. destruct (list_find _ (children b)) as [[i sl]|] eqn:Hf; [|by exists 1, b].
  apply list_find_Some in Hf as (Hi & _). apply lookup_lt_Some in Hi.
  destruct (at_slave_safe (notify (if truth recv then I2C_START_RECV else I2C_START_SEND)) i (set_current (Some i) b))
    as (r & b' & Hr & Hb' & Hc & Hp); [| |apply notify_safe|].
  - destruct Hb as [_ Hs]. split; [|done]. intros j Hj. cbn in Hj. by injection Hj as <-.
  - done.
  - rewrite Hr. by exists 0, b'.
Qed.

Lemma i2c_send_safe data b :
  bus_ok b → 0 <= data < 256 → ∃ r b', i2c_send data b = Ok (r, b') ∧ bus_ok b' ∧ current_dev b' = current_dev b ∧ same_places b b'.
Proof.
  intros Hb Hd. unfold i2c_send. destruct (current_dev b) as [i|] eqn:Hc; [|by exists (-1), b].
  rewrite <- Hc. apply at_slave_safe; [done| by apply Hb |]. intros d Hok. by apply send_ok.
Qed.

Lemma i2c_recv_safe b :
  bus_ok b → ∃ r b', i2c_recv b = Ok (r, b') ∧ bus_ok b' ∧ current_dev b' = current_dev b ∧ same_places b b'.
Proof.
  intros Hb. unfold i2c_recv. destruct (current_dev b) as [i|] eqn:Hc; [|by exists (-1), b].
  rewrite <- Hc. apply at_slave_safe; [done| by apply Hb |]. intros d Hok. by apply recv_ok.
Qed.

Lemma end_transfer_safe b :
  bus_ok b → ∃ b', i2c_end_transfer b = Ok b' ∧ bus_ok b' ∧ current_dev b' = None ∧ same_places b b'.
Proof.
  intros Hb. unfold i2c_end_transfer. destruct (current_dev b) as [i|] eqn:Hc; [|by exists b].
  destruct (at_slave_safe (notify I2C_FINISH) i b) as (r & b' & Hr & Hb' & _ & Hp); [done| by apply Hb | apply notify_safe |].
  rewrite Hr. exists (set_current None b'). split_and!; try done. by split; [|apply Hb'].
Qed.

(** Registers and bus together; what the parts of a write to MCS keep. *)
Record ctl_ok (s : stellaris_i2c_state) (b : i2c_bus D) : Prop := {
  co_bus : bus_ok b;
  co_busy : Z.testbit (mcs s) 6 = i2c_bus_busy b;
  co_msa : 0 <= msa s < 256;
  co_mdr : 0 <= mdr s < 256;
}.

Definition part_safe (s : stellaris_i2c_state) (b : i2c_bus D) (f : res (stellaris_i2c_state * i2c_bus D)) : Prop :=
  ∃ s' b', f = Ok (s', b') ∧ ctl_ok s' b' ∧ same_places b b'.

Lemma part_same s b : ctl_ok s b → part_safe s b (Ok (s, b)).
Proof. intros Hok. by exists s, b. Qed.

Lemma busy_same (b b' : i2c_bus D) : current_dev b' = current_dev b → i2c_bus_busy b' = i2c_bus_busy b.
Proof. unfold i2c_bus_busy. by intros ->. Qed.

Lemma mcs_start_safe v s b : ctl_ok s b → part_safe s b (mcs_start v s b).
Proof.
  intros Hok. unfold mcs_start. destruct (_ && _) eqn:Hv; [|by apply part_same].
  apply andb_true_iff in Hv as [_ Hb]. rewrite bit6 in Hb. apply negb_true_iff in Hb. destruct Hok as [Hbus Hbusy Hm Hd].
  destruct (start_transfer_safe (Z.shiftr (msa s) 1) (Z.land (msa s) 1) b Hbus) as (r & b' & Hr & Hb' & Hp & Hc). rewrite Hr.
  cbn [mbind res_bind]. eexists _, b'. split; [done|]. split; [|done]. destruct (truth r) eqn:Ht; constructor; try done.
  - cbn -[Z.lor Z.testbit]. rewrite Z.lor_spec, Hbusy, (busy_same _ _ Hc). apply orb_false_r.
  - cbn -[Z.lor Z.testbit Z.ldiff]. rewrite Z.lor_spec. rewrite orb_true_r. unfold i2c_bus_busy. rewrite Hc.
    destruct (list_find _ _) as [[i sl]|] eqn:Hf; [done|]. unfold i2c_start_transfer in Hr. rewrite Hf in Hr. by injection Hr as <-.
Qed.

Lemma mcs_run_safe v s b : ctl_ok s b → part_safe s b (mcs_run v s b).
Proof.
  intros Hok. unfold mcs_run. destruct (truth (Z.land v 1)); [|by apply part_same]. destruct Hok as [Hbus Hbusy Hm Hd].
  destruct (truth (Z.land (msa s) 1)).
  - destruct (i2c_recv_safe b Hbus) as (r & b' & -> & Hb' & Hc & Hp). eexists _, b'. split; [done|]. split; [|done].
    constructor; try done; [by rewrite (busy_same _ _ Hc)|]. cbn -[Z.land]. change 0xff with (2 ^ 8 - 1). rewrite land_mod by lia.
    apply Z.mod_pos_bound. lia.
  - destruct (i2c_send_safe (mdr s) b Hbus Hd) as (r & b' & -> & Hb' & Hc & Hp). eexists _, b'. split; [done|]. split; [|done].
    constructor; try done. by rewrite (busy_same _ _ Hc).
Qed.

Lemma mcs_stop_safe v s b : ctl_ok s b → part_safe s b (mcs_stop v s b).
Proof.
  intros Hok. unfold mcs_stop. destruct (truth (Z.land v 4)); [|by apply part_same]. destruct Hok as [Hbus Hbusy Hm Hd].
  destruct (end_transfer_safe b Hbus) as (b' & -> & Hb' & Hc & Hp). eexists _, b'. split; [done|]. split; [|done].
  constructor; try done. cbn -[Z.ldiff Z.testbit]. rewrite Z.ldiff_spec. unfold i2c_bus_busy. rewrite Hc. apply andb_false_r.
Qed.

Lemma part_bind s b f g :
  part_safe s b f → (∀ s' b', ctl_ok s' b' → part_safe s' b' (g s' b')) → part_safe s b ('(s, b) ← f; g s b).
Proof.
  intros (s1 & b1 & -> & Hok & Hp) Hg. destruct (Hg s1 b1 Hok) as (s2 & b2 & Hs2 & Hok2 & Hp2). exists s2, b2.
  split_and!; [done|done|]. unfold same_places in *. congruence.
Qed.

Lemma write_mcs_safe v s b : ctl_ok s b → part_safe s b (write_mcs v s b).
Proof.
  intros Hok. unfold write_mcs. destruct (Z.land (mcr s) 0x10 =? 0); [by apply part_same|].
  apply part_bind; [by apply mcs_start_safe|]. intros s1 b1 H1.
  assert (∀ x, Z.testbit x 6 = Z.testbit (mcs s1) 6 → ctl_ok (set_mcs s1 x) b1) as Hx.
  { intros x Hx. destruct H1. constructor; try done. cbn [set_mcs mcs]. congruence. }
  destruct (_ || _).
  - exists (set_mcs s1 (Z.lor (mcs s1) MCS_ERROR)), b1. split_and!; try done. apply Hx. rewrite Z.lor_spec. apply orb_false_r.
  - destruct (part_bind (set_mcs s1 (Z.ldiff (mcs s1) MCS_ERROR)) b1 (mcs_run v (set_mcs s1 (Z.ldiff (mcs s1) MCS_ERROR)) b1) (mcs_stop v))
      as (s2 & b2 & H2 & Hok2 & Hp2); [| |by exists s2, b2].
    + apply mcs_run_safe, Hx. rewrite Z.ldiff_spec. apply andb_true_r.
    + intros s' b' Hs'. by apply mcs_stop_safe.
Qed.

Lemma i2c_inv_ctl w : i2c_inv w → ctl_ok (ctl w) (bus w).
Proof. intros [Hb Hc Hs [Hm Hd] _]. by constructor. Qed.
Lemma ctl_i2c_inv s b q : ctl_ok s b → i2c_inv (stellaris_i2c_update (mkI2cWorld s b q)).
Proof. intros [[Hc Hs] Hb Hm Hd]. by constructor. Qed.

Lemma land_byte_range v : 0 <= Z.land v 0xff < 256.
Proof. change 0xff with (2 ^ 8 - 1). rewrite land_mod by lia. apply Z.mod_pos_bound. lia. Qed.

(** A write that the controller takes. *)
Lemma write_safe w offset value :
  i2c_inv w → access_ok offset value = true →
  ∃ w', stellaris_i2c_write offset value w = Ok w' ∧ i2c_inv w' ∧ same_places (bus w) (bus w').
Proof.
  intros Hinv Ha. pose proof (i2c_inv_ctl _ Hinv) as Hok.
  assert (∀ f, part_safe (ctl w) (bus w) f →
    ∃ w', ('(s, b) ← f; Ok (stellaris_i2c_update (mkI2cWorld s b (i2c_irq w)))) = Ok w' ∧ i2c_inv w' ∧ same_places (bus w) (bus w')) as Hf.
  { intros f (s & b & -> & Hsb & Hp). eexists. split; [reflexivity|]. split; [by apply ctl_i2c_inv|done]. }
  assert (∀ s, mcs s = mcs (ctl w) → 0 <= msa s < 256 → 0 <= mdr s < 256 → part_safe (ctl w) (bus w) (Ok (s, bus w))) as Hs.
  { intros s H1 H2 H3. exists s, (bus w). split_and!; try done. destruct Hok. constructor; try done. by rewrite H1. }
  pose proof (co_msa _ _ Hok) as Hm. pose proof (co_mdr _ _ Hok) as Hd. unfold access_ok in Ha. unfold stellaris_i2c_write.
  apply Hf. repeat case_match; try done; try (apply Hs; cbn -[Z.land]; try done; apply land_byte_range).
  by apply write_mcs_safe.
Qed.

Lemma write_refused (w : i2c_world D) offset value : access_ok offset value = false → stellaris_i2c_write offset value w = Err Hw_error.
Proof. intros Ha. unfold access_ok in Ha. unfold stellaris_i2c_write. by repeat case_match. Qed.

Lemma init_safe slaves :
  Forall (λ s, ok (device s)) slaves → ∃ w, stellaris_i2c_init slaves = Ok w ∧ i2c_inv w ∧ address <$> children (bus w) = address <$> slaves.
Proof. intros Hs. eexists. split; [reflexivity|]. split; [by constructor|done]. Qed.

(** [C30]: From power on, whatever the guest writes to the I2C controller and whatever slaves
    are on its bus, each keeping its own promise: the only failure is the hardware error
    that ends the emulation, and that exactly when some write is one the controller does not
    take; otherwise BUSBSY tells whether a slave is addressed, the slave is one of the bus,
    the interrupt line is the masked status, address and data stay bytes, every slave is in
    a good state, and no slave has changed its address. *)
Theorem i2c_controller_safe slaves ws :
  Forall (λ s, ok (device s)) slaves →
  match (w ← stellaris_i2c_init slaves; i2c_writes ws w) with
  | Ok w => forallb (λ '(o, v), access_ok o v) ws = true ∧ i2c_inv w ∧ address <$> children (bus w) = address <$> slaves
  | Err e => e = Hw_error ∧ forallb (λ '(o, v), access_ok o v) ws = false
  end.
Proof.
  intros Hs. destruct (init_safe slaves Hs) as (w & -> & Hinv & <-). cbn [mbind res_bind]. clear Hs slaves.
  revert w Hinv. induction ws as [|[o v] ws IH]; intros w Hinv; [done|]. cbn [i2c_writes forallb].
  destruct (access_ok o v) eqn:Ha; [|by rewrite write_refused].
  destruct (write_safe w o v Hinv Ha) as (w1 & -> & Hinv1 & Hp). specialize (IH w1 Hinv1). cbn [mbind res_bind andb].
  unfold same_places in Hp. by rewrite <- Hp.
Qed.
End safety.
