(* ===== verification/Display.v ===== *)
(** * Display: what the two display controllers share (hw/ssd0303.c, hw/ssd0323.c)

    The factor of magnification, the bytes of a pixel, [memset] and [memcpy] with their
    bounds, and lists made of blocks of one length. *)

From S2P Require Import Prelude.
Local Open Scope Z_scope.

Definition MAGNIFY : Z := 4.

(** The colour depths that have a size; the others leave the surface alone. *)
Definition bytes_per_pixel (bpp : Z) : option Z :=
  match bpp with 15 | 16 => Some 2 | 24 => Some 3 | 32 => Some 4 | _ => None end.

Definition memset {A} (tab : list A) (off : Z) (v : A) (n : Z) : res (list A) := for_upto n (λ i tab, awrite tab (off + i) v) tab.

(** What [memcpy] reads: [n] bytes from [off] on. *)
Definition copied {A} (tab : list A) (off n : Z) : res (list A) :=
  if (0 <=? off) && (off + n <=? Z.of_nat (length tab)) then Ok (take (Z.to_nat n) (drop (Z.to_nat off) tab)) else Err Out_of_bounds.

#[global] Instance res_eq_dec {A} `{EqDecision A} : EqDecision (res A).
Proof. solve_decision. Defined.

(** ** Blocks of one length *)

Lemma concat_lookup {A} (f : nat → list A) n m j k :
  (∀ i, (i < n)%nat → length (f i) = m) → (j < n)%nat → (k < m)%nat → concat (f <$> seq 0 n) !! (j * m + k)%nat = f j !! k.
Proof.
  revert f j. induction n as [|n IH]; intros f j Hf Hj Hk; [lia|]. cbn [seq]. rewrite fmap_cons. cbn [concat].
  destruct j as [|j]; [rewrite lookup_app_l by (rewrite Hf; lia); done|].
  rewrite lookup_app_r by (rewrite Hf; nia). rewrite Hf by lia. replace (S j * m + k - m)%nat with (j * m + k)%nat by nia.
  rewrite <- fmap_S_seq, <- list_fmap_compose. by rewrite (IH (f ∘ S) j) by (try intros i Hi; try apply Hf; lia).
Qed.
Lemma concat_length {A} (f : nat → list A) n m : (∀ i, (i < n)%nat → length (f i) = m) → length (concat (f <$> seq 0 n)) = (n * m)%nat.
Proof.
  revert f. induction n as [|n IH]; intros f Hf; [done|]. cbn [seq]. rewrite fmap_cons. cbn [concat]. rewrite length_app, Hf by lia.
  rewrite <- fmap_S_seq, <- list_fmap_compose, (IH (f ∘ S)); [lia|]. intros i Hi. apply Hf. lia.
Qed.
Lemma concat_S {A} (f : nat → list A) n : concat (f <$> seq 0 (S n)) = concat (f <$> seq 0 n) ++ f n.
Proof. rewrite seq_S, fmap_app, concat_app. cbn. by rewrite app_nil_r. Qed.

Lemma copied_last {A} (a b : list A) n : n = Z.of_nat (length b) → copied (a ++ b) (Z.of_nat (length (a ++ b)) - n) n = Ok b.
Proof.
  intros ->. unfold copied. rewrite length_app, (proj2 (Z.leb_le _ _)), (proj2 (Z.leb_le _ _)) by lia. cbn [andb].
  rewrite Nat2Z.id. replace (Z.to_nat _) with (length a) by lia. rewrite drop_app_length. by rewrite firstn_all.
Qed.

