(* ===== verification/Ssd0303.v ===== *)
(** * Ssd0303: the OLED display on the I2C bus (hw/ssd0303.c)

    The display controller is a slave of the bus: the bytes of a transaction are control
    bytes, commands and pixels, and a refresh of the console copies its frame buffer to the
    surface, each pixel magnified four times in both directions. *)

From S2P Require Import Prelude Display I2c.
Local Open Scope Z_scope.

Inductive ssd0303_mode := SSD0303_IDLE | SSD0303_DATA | SSD0303_CMD.
Inductive ssd0303_cmd := SSD0303_CMD_NONE | SSD0303_CMD_SKIP1.

Record ssd0303_state := mkSsd {
  row : Z; col : Z; start_line : Z; mirror : Z; flash : Z; enabled : Z; inverse : Z; redraw : Z;
  mode : ssd0303_mode; cmd_state : ssd0303_cmd; framebuffer : list Z;
}.

Definition set_pos (s : ssd0303_state) (r c : Z) : ssd0303_state :=
  mkSsd r c (start_line s) (mirror s) (flash s) (enabled s) (inverse s) (redraw s) (mode s) (cmd_state s) (framebuffer s).
Definition set_flags (s : ssd0303_state) (mi fl en iv : Z) : ssd0303_state :=
  mkSsd (row s) (col s) (start_line s) mi fl en iv (redraw s) (mode s) (cmd_state s) (framebuffer s).
Definition set_start_line (s : ssd0303_state) (l : Z) : ssd0303_state :=
  mkSsd (row s) (col s) l (mirror s) (flash s) (enabled s) (inverse s) (redraw s) (mode s) (cmd_state s) (framebuffer s).
Definition set_mode (s : ssd0303_state) (m : ssd0303_mode) : ssd0303_state :=
  mkSsd (row s) (col s) (start_line s) (mirror s) (flash s) (enabled s) (inverse s) (redraw s) m (cmd_state s) (framebuffer s).
Definition set_cmd_state (s : ssd0303_state) (c : ssd0303_cmd) : ssd0303_state :=
  mkSsd (row s) (col s) (start_line s) (mirror s) (flash s) (enabled s) (inverse s) (redraw s) (mode s) c (framebuffer s).
Definition set_redraw (s : ssd0303_state) (r : Z) : ssd0303_state :=
  mkSsd (row s) (col s) (start_line s) (mirror s) (flash s) (enabled s) (inverse s) r (mode s) (cmd_state s) (framebuffer s).
Definition set_framebuffer (s : ssd0303_state) (fb : list Z) : ssd0303_state :=
  mkSsd (row s) (col s) (start_line s) (mirror s) (flash s) (enabled s) (inverse s) (redraw s) (mode s) (cmd_state s) fb.

Definition between (lo hi x : Z) : bool := (lo <=? x) && (x <=? hi).

(** The switch over the commands.  An unknown one is only reported. *)
Definition ssd0303_command (data : Z) (s : ssd0303_state) : ssd0303_state :=
  if between 0x00 0x0f data then set_pos s (row s) (Z.lor (Z.land (col s) 0xf0) (Z.land data 0xf))
  else if between 0x10 0x20 data then set_pos s (row s) (Z.lor (Z.land (col s) 0x0f) (Z.shiftl (Z.land data 0xf) 4))
  else if between 0x40 0x7f data then set_start_line s 0
  else if data =? 0x81 then set_cmd_state s SSD0303_CMD_SKIP1
  else if data =? 0xa0 then set_flags s 0 (flash s) (enabled s) (inverse s)
  else if data =? 0xa1 then set_flags s 1 (flash s) (enabled s) (inverse s)
  else if data =? 0xa4 then set_flags s (mirror s) 0 (enabled s) (inverse s)
  else if data =? 0xa5 then set_flags s (mirror s) 1 (enabled s) (inverse s)
  else if data =? 0xa6 then set_flags s (mirror s) (flash s) (enabled s) 0
  else if data =? 0xa7 then set_flags s (mirror s) (flash s) (enabled s) 1
  else if data =? 0xa8 then set_cmd_state s SSD0303_CMD_SKIP1
  else if data =? 0xad then set_cmd_state s SSD0303_CMD_SKIP1
  else if data =? 0xae then set_flags s (mirror s) (flash s) 0 (inverse s)
  else if data =? 0xaf then set_flags s (mirror s) (flash s) 1 (inverse s)
  else if between 0xb0 0xbf data then set_pos s (Z.land data 7) (col s)
  else if between 0xc0 0xc8 data then s
  else if data =? 0xd3 then set_cmd_state s SSD0303_CMD_SKIP1
  else if data =? 0xd5 then set_cmd_state s SSD0303_CMD_SKIP1
  else if between 0xd8 0xdb data then set_cmd_state s SSD0303_CMD_SKIP1
  else s.

Definition ssd0303_recv (s : ssd0303_state) : res (Z * ssd0303_state) := Ok (-1, s).

Definition ssd0303_send (data : Z) (s : ssd0303_state) : res (Z * ssd0303_state) :=
  s ← match mode s with
      | SSD0303_IDLE =>
          Ok (if data =? 0x80 then set_mode s SSD0303_CMD else if data =? 0x40 then set_mode s SSD0303_DATA else s)
      | SSD0303_DATA =>
          if col s <? 132 then
            fb ← awrite (framebuffer s) (col s + row s * 132) data;
            Ok (set_redraw (set_pos (set_framebuffer s fb) (row s) (col s + 1)) 1)
          else Ok s
      | SSD0303_CMD =>
          let old_cmd_state := cmd_state s in
          let s := set_cmd_state s SSD0303_CMD_NONE in
          Ok match old_cmd_state with
             | SSD0303_CMD_NONE => ssd0303_command data (set_mode s SSD0303_IDLE)
             | SSD0303_CMD_SKIP1 => s
             end
      end;
  Ok (0, s).

Definition ssd0303_event (event : i2c_event) (s : ssd0303_state) : res ssd0303_state :=
  Ok match event with
     | I2C_FINISH => set_mode s SSD0303_IDLE
     | I2C_START_RECV | I2C_START_SEND | I2C_NACK => s
     end.

#[global] Instance ssd0303_info : I2CSlave ssd0303_state := {
  event_cb := ssd0303_event; send_cb := ssd0303_send; recv_cb := ssd0303_recv;
}.

Definition ssd0303_invalidate_display (s : ssd0303_state) : ssd0303_state := set_redraw s 1.

(** The state is zero when the device is made. *)
Definition ssd0303_init : ssd0303_state :=
  mkSsd 0 0 0 0 0 0 0 0 SSD0303_IDLE SSD0303_CMD_NONE (replicate (132 * 8) 0).

(** ** Refresh *)

(** One row of pixels, then the copies of it; [dest] is what is written on the surface so
    far. *)
Definition draw_line (s : ssd0303_state) (colortab : list Z) (c0 c1 dest_width y : Z) (dest : list Z) : res (list Z) :=
  let line := Z.land (y + start_line s) 63 in
  let src := 132 * Z.shiftr line 3 + 36 in
  let mask := Z.shiftl 1 (Z.land line 7) in
  dest ← for_upto 96 (λ x dest,
           p ← aread (framebuffer s) (src + x);
           c ← copied colortab (if truth (Z.land p mask) then c1 else c0) dest_width;
           Ok (dest ++ c)) dest;
  for_upto (MAGNIFY - 1) (λ _ dest,
    c ← copied dest (Z.of_nat (length dest) - dest_width * 96) (dest_width * 96); Ok (dest ++ c)) dest.

(** The surface gets [Some] bytes, or is left alone. *)
Definition ssd0303_update_display (bpp : Z) (s : ssd0303_state) : res (option (list Z) * ssd0303_state) :=
  if redraw s =? 0 then Ok (None, s) else
  match bytes_per_pixel bpp with
  | None => Ok (None, s)
  | Some dest_width =>
      let dest_width := dest_width * MAGNIFY in
      colortab ← memset (replicate (Z.to_nat (MAGNIFY * 8)) 0) 0 0xff dest_width;
      colortab ← memset colortab dest_width 0 dest_width;
      let '(c0, c1) :=
        if truth (flash s) then (0, 0) else if truth (inverse s) then (0, dest_width) else (dest_width, 0) in
      dest ← for_upto 16 (draw_line s colortab c0 c1 dest_width) [];
      Ok (Some dest, set_redraw s 0)
  end.

(** ** The device keeps its promise to the bus *)

Record ssd_ok (s : ssd0303_state) : Prop := {
  ok_row : 0 <= row s < 8;
  ok_col : 0 <= col s < 256;
  ok_start : start_line s = 0;
  ok_size : length (framebuffer s) = (132 * 8)%nat;
  ok_pixels : Forall (λ p, 0 <= p < 256) (framebuffer s);
}.

Lemma low_column c d : 0 <= Z.lor (Z.land c 0xf0) (Z.land d 0xf) < 256.
Proof.
  pose proof (land_le c 0xf0 ltac:(lia)). pose proof (land_le d 0xf ltac:(lia)).
  pose proof (lor_le (Z.land c 0xf0) (Z.land d 0xf)). lia.
Qed.
Lemma high_column c d : 0 <= Z.lor (Z.land c 0x0f) (Z.shiftl (Z.land d 0xf) 4) < 256.
Proof.
  pose proof (land_le c 0x0f ltac:(lia)). pose proof (land_le d 0xf ltac:(lia)). rewrite Z.shiftl_mul_pow2 by lia.
  pose proof (lor_le (Z.land c 0x0f) (Z.land d 0xf * 2 ^ 4)). lia.
Qed.

Lemma command_ok d s : ssd_ok s → ssd_ok (ssd0303_command d s).
Proof.
  intros Hok. unfold ssd0303_command.
  repeat (match goal with |- context [if ?b then _ else _] => destruct b end; [by destruct Hok; constructor;
    cbn [set_pos set_flags set_start_line set_cmd_state row col start_line framebuffer];
    first [apply low_column | apply high_column | pose proof (land_le d 7 ltac:(lia)); lia | done]|]). done.
Qed.

(** The same registers and pixels: the mode and the flags do not matter. *)
Lemma ssd_ok_mode s m c : ssd_ok s → ssd_ok (set_cmd_state (set_mode s m) c).
Proof. intros []. by constructor. Qed.

Lemma send_data s d :
  ssd_ok s → mode s = SSD0303_DATA → col s < 132 →
  ssd0303_send d s = Ok (0, set_redraw (set_pos (set_framebuffer s (<[Z.to_nat (col s + row s * 132) := d]> (framebuffer s))) (row s) (col s + 1)) 1).
Proof.
  intros [Hr Hc _ Hl _] Hm Hlt. unfold ssd0303_send. rewrite Hm, (proj2 (Z.ltb_lt _ _) Hlt). rewrite awrite_in by lia. done.
Qed.

Lemma ssd0303_send_ok d s : ssd_ok s → 0 <= d < 256 → ∃ r s', ssd0303_send d s = Ok (r, s') ∧ ssd_ok s'.
Proof.
  intros Hok Hd. destruct (mode s) eqn:Hm.
  - unfold ssd0303_send. rewrite Hm. eexists _, _. split; [reflexivity|]. destruct Hok.
    repeat (match goal with |- context [if ?b then _ else _] => destruct b end; [by constructor|]). by constructor.
  - destruct (Z.lt_ge_cases (col s) 132) as [Hc|Hc].
    + rewrite send_data by done. eexists _, _. split; [reflexivity|]. destruct Hok. constructor; try done.
      * cbn. lia.
      * cbn [framebuffer set_redraw set_pos set_framebuffer]. by rewrite length_insert.
      * cbn [framebuffer set_redraw set_pos set_framebuffer]. by apply Forall_insert.
    + unfold ssd0303_send. rewrite Hm, (proj2 (Z.ltb_ge _ _) Hc). by eexists _, _.
  - unfold ssd0303_send. rewrite Hm. eexists _, _. split; [reflexivity|]. destruct (cmd_state s).
    + apply command_ok. destruct Hok. by constructor.
    + destruct Hok. by constructor.
Qed.

#[global] Instance ssd0303_laws : I2CSlaveLaws ssd0303_state ssd_ok.
Proof.
  split.
  - intros ev s Hok. eexists. split; [reflexivity|]. destruct ev; try done. destruct Hok. by constructor.
  - intros b s Hok Hb. by apply ssd0303_send_ok.
  - intros s Hok. by exists (-1), s.
Qed.

Lemma ssd0303_init_ok : ssd_ok ssd0303_init.
Proof. constructor; try done. by apply Forall_replicate. Qed.

(** ** What a refresh shows *)

(** The bit of the frame buffer behind the pixel at column [x], line [y]: a byte is eight
    pixels of a column, and the panel starts at column 36. *)
Definition pixel (s : ssd0303_state) (y x : nat) : bool :=
  match framebuffer s !! (132 * (y / 8) + 36 + x)%nat with Some p => Z.testbit p (Z.of_nat (y mod 8)) | None => false end.

(** Whether the pixel is lit: all are while the display is forced on, and the inverse
    display swaps the two colours. *)
Definition lit (s : ssd0303_state) (y x : nat) : bool := truth (flash s) || xorb (truth (inverse s)) (pixel s y x).

Section screen.
Context (s : ssd0303_state) (colortab : list Z) (c0 c1 : Z) (w : nat).
Context (Hok : ssd_ok s).
Context (col0 col1 : Z) (Hc0 : copied colortab c0 (Z.of_nat w) = Ok (replicate w col0)) (Hc1 : copied colortab c1 (Z.of_nat w) = Ok (replicate w col1)).

Definition colour (y x : nat) : Z := if pixel s y x then col1 else col0.
Definition screen_row (y : nat) : list Z := concat ((λ x, replicate w (colour y x)) <$> seq 0 96).

Lemma line_of_row y : (y < 16)%nat → Z.land (Z.of_nat y + start_line s) 63 = Z.of_nat y.
Proof.
  intros Hy. rewrite (ok_start _ Hok), Z.add_0_r. change 63 with (2 ^ 6 - 1). rewrite land_mod, Z.mod_small; lia.
Qed.

Lemma draw_line_spec y dest :
  (y < 16)%nat →
  draw_line s colortab c0 c1 (Z.of_nat w) (Z.of_nat y) dest = Ok (dest ++ concat ((λ _, screen_row y) <$> seq 0 4)).
Proof using Hok Hc0 Hc1.
  intros Hy. unfold draw_line. rewrite line_of_row by done. rewrite Z.shiftr_div_pow2 by lia.
  change 7 with (2 ^ 3 - 1). rewrite land_mod by lia. change (2 ^ 3) with (Z.of_nat 8). rewrite <- Nat2Z.inj_div, <- Nat2Z.inj_mod.
  pose proof (ok_size _ Hok) as Hl. assert (y / 8 <= 1)%nat as Hq by (apply Nat.lt_succ_r, Nat.Div0.div_lt_upper_bound; lia).
  replace dest with (dest ++ concat ((λ x, replicate w (colour y x)) <$> seq 0 0)) at 1 by apply app_nil_r.
  rewrite (for_upto_spec _ (λ j, dest ++ concat ((λ x, replicate w (colour y x)) <$> seq 0 j))); last first.
  { intros j Hj. destruct (lookup_lt_is_Some_2 (framebuffer s) (132 * (y / 8) + 36 + j)%nat) as [p Hp]; [lia|].
    replace (132 * Z.of_nat (y / 8) + 36 + Z.of_nat j) with (Z.of_nat (132 * (y / 8) + 36 + j)) by lia.
    rewrite (aread_nat _ _ _ Hp). cbn [mbind res_bind]. rewrite truth_land_bit by lia.
    assert (colour y j = if Z.testbit p (Z.of_nat (y mod 8)) then col1 else col0) as Hcol by (unfold colour, pixel; by rewrite Hp).
    rewrite (concat_S _ j), Hcol, app_assoc. destruct (Z.testbit p _); [by rewrite Hc1|by rewrite Hc0]. }
  cbn [mbind res_bind]. change (Z.to_nat 96) with 96%nat. fold (screen_row y).
  assert (length (screen_row y) = 96 * w)%nat as Hr by (apply concat_length; intros; apply length_replicate).
  replace (dest ++ screen_row y) with (dest ++ concat ((λ _, screen_row y) <$> seq 0 1)) by (cbn; by rewrite app_nil_r).
  rewrite (for_upto_spec _ (λ j, dest ++ concat ((λ _ : nat, screen_row y) <$> seq 0 (S j)))); [done|].
  intros j Hj. rewrite (concat_S _ j), app_assoc, copied_last by lia. cbn [mbind res_bind].
  by rewrite (concat_S _ (S j)), (concat_S _ j), !app_assoc.
Qed.

Definition screen : list Z := concat ((λ y, concat ((λ _ : nat, screen_row y) <$> seq 0 4)) <$> seq 0 16).

Lemma draw_lines_spec : for_upto 16 (draw_line s colortab c0 c1 (Z.of_nat w)) [] = Ok screen.
Proof using Hok Hc0 Hc1.
  change (@nil Z) with (concat ((λ y, concat ((λ _ : nat, screen_row y) <$> seq 0 4)) <$> seq 0 0)).
  rewrite (for_upto_spec (draw_line s colortab c0 c1 (Z.of_nat w))
    (λ j, concat ((λ y, concat ((λ _ : nat, screen_row y) <$> seq 0 4)) <$> seq 0 j)) 16); [done|].
  intros j Hj. rewrite draw_line_spec by lia. by rewrite (concat_S _ j).
Qed.

Lemma length_screen_row y : length (screen_row y) = (96 * w)%nat.
Proof. apply concat_length. intros. apply length_replicate. Qed.
Lemma length_lines y : length (concat ((λ _ : nat, screen_row y) <$> seq 0 4)) = (4 * (96 * w))%nat.
Proof. apply concat_length. intros. apply length_screen_row. Qed.
Lemma length_screen : length screen = (16 * (4 * (96 * w)))%nat.
Proof. apply concat_length. intros. apply length_lines. Qed.

Lemma screen_lookup y v x k :
  (y < 16)%nat → (v < 4)%nat → (x < 96)%nat → (k < w)%nat →
  screen !! (y * (4 * (96 * w)) + (v * (96 * w) + (x * w + k)))%nat = Some (colour y x).
Proof.
  intros Hy Hv Hx Hk. assert (x * w + k < 96 * w)%nat by nia.
  unfold screen. rewrite (concat_lookup _ 16 (4 * (96 * w))) by (try (intros; apply length_lines); nia).
  rewrite (concat_lookup _ 4 (96 * w)) by (try (intros; apply length_screen_row); nia).
  unfold screen_row. rewrite (concat_lookup _ 96 w) by (try (intros; apply length_replicate); nia).
  by apply lookup_replicate_2.
Qed.
End screen.

(** The table of the two colours, for a pixel of [n] bytes. *)
Lemma colour_table bpp n :
  bytes_per_pixel bpp = Some n →
  ∃ tab, (tab ← memset (replicate (Z.to_nat (MAGNIFY * 8)) 0) 0 0xff (n * MAGNIFY); memset tab (n * MAGNIFY) 0 (n * MAGNIFY)) = Ok tab ∧
    copied tab 0 (Z.of_nat (Z.to_nat (n * MAGNIFY))) = Ok (replicate (Z.to_nat (n * MAGNIFY)) 0xff) ∧
    copied tab (n * MAGNIFY) (Z.of_nat (Z.to_nat (n * MAGNIFY))) = Ok (replicate (Z.to_nat (n * MAGNIFY)) 0).
Proof.
  unfold bytes_per_pixel. intros Hn. assert (n = 2 ∨ n = 3 ∨ n = 4) as [-> | [-> | ->]] by (repeat case_match; simplify_eq; auto);
    eexists; split_and!; vm_compute; reflexivity.
Qed.

(** A refresh that is due draws the whole panel, every colour depth: it reads and writes
    within the frame buffer, the table of colours and a surface of 384 by 64 pixels, which it
    fills; each pixel of the surface is white or black as the pixel of the panel that it
    magnifies is lit or not; and no refresh is due afterwards. *)
Theorem refresh_shows_pixels bpp n s :
  ssd_ok s → redraw s ≠ 0 → bytes_per_pixel bpp = Some n →
  ∃ dest, ssd0303_update_display bpp s = Ok (Some dest, set_redraw s 0) ∧ Z.of_nat (length dest) = 64 * (384 * n) ∧
    ∀ Y X c, (Y < 64)%nat → (X < 384)%nat → (c < Z.to_nat n)%nat →
      dest !! ((Y * 384 + X) * Z.to_nat n + c)%nat = Some (if lit s (Y / 4) (X / 4) then 0xff else 0).
Proof.
  intros Hok Hr Hn. destruct (colour_table bpp n Hn) as (tab & Htab & H1 & H0).
  assert (0 < n) as Hpos by (unfold bytes_per_pixel in Hn; repeat case_match; simplify_eq; lia).
  set (w := Z.to_nat (n * MAGNIFY)) in *. assert (w = 4 * Z.to_nat n)%nat as Hw by (unfold w, MAGNIFY; lia).
  set (cs := if truth (flash s) then (0, 0) else if truth (inverse s) then (0, n * MAGNIFY) else (n * MAGNIFY, 0)).
  set (v := λ c, if c =? 0 then 0xff else 0).
  assert (∀ c, c = 0 ∨ c = n * MAGNIFY → copied tab c (Z.of_nat w) = Ok (replicate w (v c))) as Hcop.
  { unfold v. intros c [-> | ->]; [done|]. rewrite (proj2 (Z.eqb_neq _ _)); [done|unfold MAGNIFY; lia]. }
  assert (copied tab cs.1 (Z.of_nat w) = Ok (replicate w (v cs.1))) as Hc0 by (apply Hcop; unfold cs; repeat case_match; auto).
  assert (copied tab cs.2 (Z.of_nat w) = Ok (replicate w (v cs.2))) as Hc1 by (apply Hcop; unfold cs; repeat case_match; auto).
  exists (screen s w (v cs.1) (v cs.2)). split_and!.
  - unfold ssd0303_update_display. rewrite (proj2 (Z.eqb_neq _ _) Hr), Hn.
    destruct (memset _ 0 0xff _) as [t1|]; [|done]. cbn [mbind res_bind] in *. rewrite Htab. cbn [mbind res_bind].
    fold cs. rewrite (surjective_pairing cs). replace (n * MAGNIFY) with (Z.of_nat w) by (unfold w, MAGNIFY; lia).
    by rewrite (draw_lines_spec s tab cs.1 cs.2 w Hok (v cs.1) (v cs.2)).
  - rewrite length_screen. lia.
  - intros Y X c HY HX Hc.
    pose proof (Nat.div_mod_eq Y 4) as EY. pose proof (Nat.div_mod_eq X 4) as EX.
    pose proof (Nat.mod_upper_bound Y 4 ltac:(lia)) as MY. pose proof (Nat.mod_upper_bound X 4 ltac:(lia)) as MX.
    replace ((Y * 384 + X) * Z.to_nat n + c)%nat
      with (Y / 4 * (4 * (96 * w)) + (Y mod 4 * (96 * w) + (X / 4 * w + (X mod 4 * Z.to_nat n + c))))%nat by (rewrite Hw; nia).
    rewrite screen_lookup; [|apply Nat.Div0.div_lt_upper_bound; lia|done|apply Nat.Div0.div_lt_upper_bound; lia|rewrite Hw; nia].
    f_equal. unfold colour, lit, cs, v. assert (n * MAGNIFY =? 0 = false) as Hne by (apply Z.eqb_neq; unfold MAGNIFY; lia).
    destruct (truth (flash s)), (truth (inverse s)), (pixel s (Y / 4) (X / 4)); cbn [fst snd orb xorb]; rewrite ?Hne; done.
Qed.

(** ** From the registers of the I2C controller to the panel *)

(** The bytes that go to a place of the frame buffer: page, low and high half of the column,
    then pixels. *)
Definition draw_bytes (page c : Z) (data : list Z) : list Z :=
  [0xb0 + page; 0x80; c mod 16; 0x80; 0x10 + c / 16; 0x40] ++ data.

Lemma between_true lo hi x : lo <= x <= hi → between lo hi x = true.
Proof. intros Hx. unfold between. rewrite !(proj2 (Z.leb_le _ _)); lia || done. Qed.
Lemma between_false lo hi x : x < lo ∨ hi < x → between lo hi x = false.
Proof. intros Hx. unfold between. apply andb_false_iff. rewrite !Z.leb_gt. lia. Qed.

Lemma command_page p s : 0 <= p < 8 → ssd0303_command (0xb0 + p) s = set_pos s p (col s).
Proof. intros Hp. assert (∃ k, (k < 8)%nat ∧ p = Z.of_nat k) as (k & Hk & ->) by (exists (Z.to_nat p); lia). by do 8 (destruct k as [|k]; [done|]); lia. Qed.
Lemma command_low l s : 0 <= l < 16 → ssd0303_command l s = set_pos s (row s) (Z.lor (Z.land (col s) 0xf0) l).
Proof.
  intros Hl. unfold ssd0303_command. rewrite between_true by lia. change 0xf with (2 ^ 4 - 1) at 1. by rewrite land_mod, Z.mod_small by lia.
Qed.
Lemma command_high h s : 0 <= h < 16 → ssd0303_command (0x10 + h) s = set_pos s (row s) (Z.lor (Z.land (col s) 0x0f) (Z.shiftl h 4)).
Proof.
  intros Hh. unfold ssd0303_command. rewrite between_false, between_true by lia. f_equal. f_equal. f_equal.
  change 0xf with (2 ^ 4 - 1). rewrite land_mod by lia. replace (0x10 + h) with (h + 1 * 2 ^ 4) by lia. rewrite Z.mod_add, Z.mod_small; lia.
Qed.

(** The two halves of a column. *)
Lemma column_halves x c : 0 <= c < 256 → Z.lor (Z.land (Z.lor (Z.land x 0xf0) (c mod 16)) 0x0f) (Z.shiftl (c / 16) 4) = c.
Proof.
  intros Hc. rewrite Z.land_lor_distr_l, <- Z.land_assoc. change (Z.land 0xf0 0x0f) with 0. rewrite Z.land_0_r, Z.lor_0_l.
  change 0x0f with (2 ^ 4 - 1). change 16 with (2 ^ 4). rewrite land_mod, Z.mod_mod by lia.
  rewrite Z.shiftl_mul_pow2, Z.lor_comm, lor_add by (try apply Z.mod_pos_bound; lia). rewrite Z.mul_comm. symmetry. apply Z.div_mod. lia.
Qed.

(** A command, after its control byte. *)
Lemma send_command d bs s :
  mode s = SSD0303_IDLE → cmd_state s = SSD0303_CMD_NONE → slave_sends (0x80 :: d :: bs) s = slave_sends bs (ssd0303_command d s).
Proof. destruct s. cbn. by intros -> ->. Qed.

(** Sending pixels: they land side by side. *)
Lemma sends_data data s :
  ssd_ok s → mode s = SSD0303_DATA → Forall (λ d, 0 <= d < 256) data → col s + Z.of_nat (length data) <= 132 →
  ∃ s', slave_sends data s = Ok s' ∧ ssd_ok s' ∧
    framebuffer s' = list_inserts (Z.to_nat (col s + row s * 132)) data (framebuffer s) ∧
    flash s' = flash s ∧ inverse s' = inverse s ∧ (data ≠ [] → redraw s' ≠ 0).
Proof.
  intros Hok Hm Hd Hc. revert s Hok Hm Hc. induction Hd as [|d data Hd _ IH]; intros s Hok Hm Hc; [by exists s|]. cbn [length] in Hc.
  destruct (ssd0303_send_ok d s Hok Hd) as (r & s1 & Hs1 & Hok1). rewrite send_data in Hs1 by (done || lia). injection Hs1 as <- Hs1.
  cbn [slave_sends send_cb ssd0303_info]. rewrite send_data by (done || lia). rewrite Hs1. cbn [mbind res_bind].
  destruct (IH s1 Hok1) as (s' & Hs' & Hok' & Hfb & Hfl & Hin & Hr); [by subst s1|subst s1; cbn; lia|].
  exists s'. split_and!; [done|done| |by rewrite Hfl; subst s1|by rewrite Hin; subst s1|].
  - rewrite Hfb. subst s1. cbn [framebuffer col row set_redraw set_pos set_framebuffer]. cbn [list_inserts].
    destruct Hok as [Hrow Hcol _ _ _]. replace (Z.to_nat (col s + 1 + row s * 132)) with (S (Z.to_nat (col s + row s * 132))) by lia.
    symmetry. apply list_insert_inserts_lt. lia.
  - intros _. destruct data; [|by apply Hr]. injection Hs' as <-. subst s1. done.
Qed.

(** A transaction that draws. *)
Lemma draw_transaction page c data s :
  ssd_ok s → mode s = SSD0303_IDLE → cmd_state s = SSD0303_CMD_NONE → 0 <= page < 8 → 0 <= c < 256 →
  Forall (λ d, 0 <= d < 256) data → c + Z.of_nat (length data) <= 132 →
  ∃ s', slave_transaction (0x80 :: draw_bytes page c data) s = Ok s' ∧ ssd_ok s' ∧
    framebuffer s' = list_inserts (Z.to_nat (c + page * 132)) data (framebuffer s) ∧
    flash s' = flash s ∧ inverse s' = inverse s ∧ (data ≠ [] → redraw s' ≠ 0).
Proof.
  intros Hok Hm Hcs Hp Hc Hd Hl. set (s1 := set_mode (set_pos s page c) SSD0303_DATA).
  assert (ssd_ok s1) as Hok1 by (destruct Hok; by constructor).
  destruct (sends_data data s1 Hok1 eq_refl Hd Hl) as (s2 & Hs2 & Hok2 & Hfb & Hfl & Hin & Hr).
  exists (set_mode s2 SSD0303_IDLE). split_and!; try done; [|by destruct Hok2; constructor].
  unfold slave_transaction. cbn [event_cb ssd0303_info ssd0303_event mbind res_bind].
  assert (slave_sends (0x80 :: draw_bytes page c data) s = slave_sends data s1) as ->; [|by rewrite Hs2].
  pose proof (Z.mod_pos_bound c 16 ltac:(lia)). assert (0 <= c / 16 < 16) by (split; [apply Z.div_pos; lia|apply Z.div_lt_upper_bound; lia]).
  unfold draw_bytes. cbn [app].
  rewrite send_command, command_page by done. rewrite send_command, command_low by done. rewrite send_command, command_high by done.
  cbn [set_pos row col]. rewrite column_halves by done. cbn [slave_sends send_cb ssd0303_info]. unfold ssd0303_send. cbn [mode set_pos]. rewrite Hm. done.
Qed.

(** The picture after [data] is drawn on page [page] from the column [x0] of the panel on. *)
Definition drawn (s : ssd0303_state) (page x0 : nat) (data : list Z) (y x : nat) : bool :=
  if decide (y / 8 = page ∧ x0 <= x)%nat then
    match data !! (x - x0)%nat with Some p => Z.testbit p (Z.of_nat (y mod 8)) | None => pixel s y x end
  else pixel s y x.

Lemma pixel_drawn s s' page x0 data y x :
  ssd_ok s → (page < 8)%nat → (x0 + length data <= 96)%nat → (x < 96)%nat →
  framebuffer s' = list_inserts (Z.to_nat (Z.of_nat (36 + x0) + Z.of_nat page * 132)) data (framebuffer s) →
  pixel s' y x = drawn s page x0 data y x.
Proof.
  intros Hok Hp Hx0 Hx Hfb. unfold drawn, pixel. rewrite Hfb. replace (Z.to_nat _) with (132 * page + 36 + x0)%nat by lia.
  pose proof (ok_size _ Hok) as Hl.
  destruct (decide _) as [[<- Hge]|Hout].
  - destruct (Nat.lt_ge_cases (x - x0) (length data)) as [Hlt|Hge'].
    + rewrite list_lookup_inserts by lia. replace (_ - _)%nat with (x - x0)%nat by lia.
      by destruct (lookup_lt_is_Some_2 data (x - x0) Hlt) as [p ->].
    + rewrite list_lookup_inserts_ge by lia. by rewrite (lookup_ge_None_2 data) by lia.
  - destruct (decide (y / 8 = page)%nat) as [<-|Hne].
    + rewrite list_lookup_inserts_lt by lia. done.
    + destruct (Nat.lt_ge_cases (y / 8) page); [rewrite list_lookup_inserts_lt by lia|rewrite list_lookup_inserts_ge by lia]; done.
Qed.

(** [C14]: What the guest draws is what the panel shows.  With the controller enabled as a
    master, the bus free and the display idle between commands, the writes to the registers
    of the I2C controller that send a page, a column and pixels to the address of the
    display, on any bus, change that device alone and leave the bus free without an error;
    the refresh that follows, whatever the colour depth, stays within the frame buffer, the
    table of colours and a surface of 384 by 64 pixels, which it fills; and each pixel of the
    surface is white or black by the bit that was drawn, outside the drawn columns by the
    picture that was there, as the flash and inverse settings say. *)
Theorem guest_draws_on_panel (w : i2c_world ssd0303_state) addr i sl page x0 data bpp n :
  let s := device sl in
  i2c_ready w None → 0 <= addr < 128 → list_find (λ t, address t = addr) (children (bus w)) = Some (i, sl) →
  ssd_ok s → mode s = SSD0303_IDLE → cmd_state s = SSD0303_CMD_NONE →
  (page < 2)%nat → (x0 + length data <= 96)%nat → data ≠ [] → Forall (λ d, 0 <= d < 256) data → bytes_per_pixel bpp = Some n →
  ∃ w' s' dest,
    i2c_writes (send_program addr 0x80 (draw_bytes (Z.of_nat page) (Z.of_nat (36 + x0)) data)) w = Ok w' ∧
    i2c_ready w' None ∧ Z.testbit (mcs (ctl w')) 1 = false ∧ children (bus w') = <[i := mkSlave (address sl) s']> (children (bus w)) ∧
    ssd0303_update_display bpp s' = Ok (Some dest, set_redraw s' 0) ∧ Z.of_nat (length dest) = 64 * (384 * n) ∧
    ∀ Y X c, (Y < 64)%nat → (X < 384)%nat → (c < Z.to_nat n)%nat →
      dest !! ((Y * 384 + X) * Z.to_nat n + c)%nat =
        Some (if truth (flash s) || xorb (truth (inverse s)) (drawn s page x0 data (Y / 4) (X / 4)) then 0xff else 0).
Proof.
  intros s Hw Ha Hf Hok Hm Hcs Hp Hx0 Hne Hd Hn.
  assert (0 <= Z.of_nat (36 + x0) <= 132) as Hc by lia.
  destruct (draw_transaction (Z.of_nat page) (Z.of_nat (36 + x0)) data s) as (s' & Hs' & Hok' & Hfb & Hfl & Hin & Hr); [done|done|done|lia|lia|done|lia|].
  destruct (send_transaction addr 0x80 (draw_bytes (Z.of_nat page) (Z.of_nat (36 + x0)) data) w i sl s') as (w' & Hw' & Hr' & Hch & He & _ & _);
    [done|done| |done|done|].
  { unfold draw_bytes. pose proof (Z.mod_pos_bound (Z.of_nat (36 + x0)) 16 ltac:(lia)).
    assert (0 <= Z.of_nat (36 + x0) / 16 < 16) by (split; [apply Z.div_pos; lia|apply Z.div_lt_upper_bound; lia]).
    repeat (apply Forall_cons; split; [lia|]). done. }
  destruct (refresh_shows_pixels bpp n s') as (dest & Hup & Hlen & Hpix); [done|by apply Hr|done|].
  exists w', s', dest. split_and!; try done. intros Y X k HY HX Hk. rewrite Hpix by done. unfold lit. rewrite Hfl, Hin.
  erewrite (pixel_drawn s s'); [done|done|lia|lia|apply Nat.Div0.div_lt_upper_bound; lia|done].
Qed.

(** The board: the controller, enabled, with the panel at its address. *)
Definition panel_board : i2c_world ssd0303_state :=
  mkI2cWorld (mkI2c 0 0 0 1 0 0 0x10) (mkBus [mkSlave 0x3d ssd0303_init] None) 0.

Lemma guest_draws_on_panel_witness :
  ∃ w' s' dest,
    i2c_writes (send_program 0x3d 0x80 (draw_bytes 1 41 [0x81])) panel_board = Ok w' ∧ children (bus w') = [mkSlave 0x3d s'] ∧
    ssd0303_update_display 32 s' = Ok (Some dest, set_redraw s' 0) ∧ dest !! ((32 * 384 + 20) * Z.to_nat 4 + 0)%nat = Some 0xff ∧
    dest !! ((36 * 384 + 20) * Z.to_nat 4 + 0)%nat = Some 0.
Proof.
  pose proof (guest_draws_on_panel panel_board 0x3d 0 (mkSlave 0x3d ssd0303_init) 1 5 [0x81] 32 4) as Hdraw. cbn [device address] in Hdraw.
  destruct Hdraw as (w' & s' & dest & Hw' & _ & _ & Hch & Hup & _ & Hpix).
  - by constructor.
  - lia.
  - reflexivity.
  - apply ssd0303_init_ok.
  - reflexivity.
  - reflexivity.
  - lia.
  - cbn [length]. lia.
  - discriminate.
  - by repeat constructor.
  - reflexivity.
  - exists w', s', dest. split_and!; [exact Hw'|exact Hch|exact Hup| |].
    + rewrite (Hpix 32%nat 20%nat 0%nat) by lia. vm_compute. reflexivity.
    + rewrite (Hpix 36%nat 20%nat 0%nat) by lia. vm_compute. reflexivity.
Defined.

(** After the argument of a command that has one, the device still waits for a command: the
    control byte of the next command is taken for the command, and the command for a control
    byte.  So a driver that sets the contrast and then turns the display on, in one
    transaction, does not turn it on. *)
Theorem skipped_argument_swallows s arg :
  mode s = SSD0303_IDLE → cmd_state s = SSD0303_CMD_NONE →
  slave_sends [0x80; 0x81; 0x80; arg; 0x80; 0xaf] s = Ok s ∧
  slave_sends [0x80; 0x81; 0x80; arg] s = Ok (set_mode s SSD0303_CMD).
Proof. destruct s. cbn. by intros -> ->. Qed.

(** The commands for the inverse display and for the forced display do not ask for a
    refresh: without further pixels the surface keeps the old picture. *)
Theorem inverse_is_not_shown s d bpp :
  mode s = SSD0303_IDLE → cmd_state s = SSD0303_CMD_NONE → redraw s = 0 → d ∈ [0xa4; 0xa5; 0xa6; 0xa7] →
  ∃ s', slave_sends [0x80; d] s = Ok s' ∧ ssd0303_update_display bpp s' = Ok (None, s').
Proof.
  intros Hm Hc Hr Hd. rewrite send_command by done. eexists. split; [reflexivity|].
  destruct s. cbn in *. subst. repeat (apply elem_of_cons in Hd as [-> | Hd]; [done|]). by apply elem_of_nil in Hd.
Qed.

(** ** The theorems about the bus and the controller, on this board *)

Lemma i2c_controller_safe_witness :
  match (w ← stellaris_i2c_init [mkSlave 0x3d ssd0303_init]; i2c_writes [(0x20, 0x10); (0x00, 0x7a); (0x04, 3); (0x20, 1)] w) with
  | Ok _ => False
  | Err e => e = Hw_error
  end.
Proof.
  pose proof (i2c_controller_safe (ok := ssd_ok) [mkSlave 0x3d ssd0303_init] [(0x20, 0x10); (0x00, 0x7a); (0x04, 3); (0x20, 1)]) as Hs.
  destruct (stellaris_i2c_init _ ≫= _) as [w|e]; destruct Hs as [Hs _]; try done; (constructor; [apply ssd0303_init_ok|done]).
Defined.

Lemma i2c_bus_migrates_witness :
  let b := mkBus [mkSlave 0x3d ssd0303_init; mkSlave 0x48 ssd0303_init] (Some 1%nat) in
  (saved ← i2c_bus_pre_save b; load_slaves saved [1%nat; 0%nat] (i2c_bus_post_load b)) = Ok b.
Proof.
  apply i2c_bus_migrates.
  - intros i [= <-]. cbn. lia.
  - cbn. by apply (bool_decide_unpack _).
  - by repeat constructor.
  - cbn. by constructor.
Defined.
