(* ===== verification/Ssi.v ===== *)
(** * Ssi: the synchronous serial port (hw/ssi.c, hw/pl022.c)

    The bus has one slave, which answers a word with a word; it is an instance of the
    class [SSISlave], and what the port relies on is the class [SSISlaveLaws].  The PL022
    port has a transmit and a receive FIFO of 8 words, rings both, and exchanges words as
    long as there is one to send and room for the answer. *)

From S2P Require Import Prelude.
Local Open Scope Z_scope.

(** The callback of [SSISlaveInfo]. *)
Class SSISlave (D : Type) := { ssi_cb : Z → D → res (Z * D) }.

(** What a slave promises, for words of 16 bits: in a state that satisfies [ok] it answers. *)
Class SSISlaveLaws (D : Type) `{SSISlave D} (ok : D → Prop) := {
  transfer_ok v d : ok d → 0 <= v < 2 ^ 16 → ∃ r d', ssi_cb v d = Ok (r, d') ∧ ok d';
}.

(** The bus without a slave answers 0. *)
Definition ssi_transfer {D} `{SSISlave D} (bus : option D) (val : Z) : res (Z * option D) :=
  match bus with None => Ok (0, None) | Some d => '(r, d) ← ssi_cb val d; Ok (r, Some d) end.

(** ** PL022 *)

Definition PL022_CR1_LBM : Z := 0x01.
Definition PL022_CR1_SSE : Z := 0x02.
Definition PL022_CR1_MS : Z := 0x04.
Definition PL022_SR_TFE : Z := 0x01.
Definition PL022_SR_TNF : Z := 0x02.
Definition PL022_SR_RNE : Z := 0x04.
Definition PL022_SR_RFF : Z := 0x08.
Definition PL022_SR_BSY : Z := 0x10.
Definition PL022_INT_RX : Z := 0x04.
Definition PL022_INT_TX : Z := 0x08.

Record pl022_state := mkPl022 {
  cr0 : Z; cr1 : Z; bitmask : Z; sr : Z; cpsr : Z; is_ : Z; im : Z;
  tx_fifo_head : Z; rx_fifo_head : Z; tx_fifo_len : Z; rx_fifo_len : Z;
  tx_fifo : list Z; rx_fifo : list Z;
}.

(** The port, the device on its bus, and the level of its interrupt line. *)
Record pl022_world (D : Type) := mkPort { port : pl022_state; ssi : option D; port_irq : Z }.
Arguments mkPort {D} _ _ _.
Arguments port {D} _.
Arguments ssi {D} _.
Arguments port_irq {D} _.

Definition set_tx (s : pl022_state) (head len : Z) (f : list Z) : pl022_state :=
  mkPl022 (cr0 s) (cr1 s) (bitmask s) (sr s) (cpsr s) (is_ s) (im s) head (rx_fifo_head s) len (rx_fifo_len s) f (rx_fifo s).
Definition set_rx (s : pl022_state) (head len : Z) (f : list Z) : pl022_state :=
  mkPl022 (cr0 s) (cr1 s) (bitmask s) (sr s) (cpsr s) (is_ s) (im s) (tx_fifo_head s) head (tx_fifo_len s) len (tx_fifo s) f.
Definition set_status (s : pl022_state) (r i : Z) : pl022_state :=
  mkPl022 (cr0 s) (cr1 s) (bitmask s) r (cpsr s) i (im s) (tx_fifo_head s) (rx_fifo_head s) (tx_fifo_len s) (rx_fifo_len s) (tx_fifo s) (rx_fifo s).
Definition set_control (s : pl022_state) (c0 c1 b p m : Z) : pl022_state :=
  mkPl022 c0 c1 b (sr s) p (is_ s) m (tx_fifo_head s) (rx_fifo_head s) (tx_fifo_len s) (rx_fifo_len s) (tx_fifo s) (rx_fifo s).

Definition pl022_id : list Z := [0x22; 0x10; 0x04; 0x00; 0x0d; 0xf0; 0x05; 0xb1].

(** The status and the raw interrupts, from the lengths of the FIFOs. *)
Definition status_of (tx rx : Z) : Z :=
  let r := 0 in
  let r := if tx =? 0 then Z.lor r PL022_SR_TFE else r in
  let r := if negb (tx =? 8) then Z.lor r PL022_SR_TNF else r in
  let r := if negb (rx =? 0) then Z.lor r PL022_SR_RNE else r in
  let r := if rx =? 8 then Z.lor r PL022_SR_RFF else r in
  if truth tx then Z.lor r PL022_SR_BSY else r.
Definition raw_of (tx rx : Z) : Z :=
  let i := 0 in
  let i := if 4 <=? rx then Z.lor i PL022_INT_RX else i in
  if tx <=? 4 then Z.lor i PL022_INT_TX else i.

Section pl022.
Context {D : Type} `{SSISlave D}.

Definition pl022_update (w : pl022_world D) : pl022_world D :=
  let s := set_status (port w) (status_of (tx_fifo_len (port w)) (rx_fifo_len (port w))) (raw_of (tx_fifo_len (port w)) (rx_fifo_len (port w))) in
  mkPort s (ssi w) (flag (truth (Z.land (is_ s) (im s)))).

(** One round of the loop of [pl022_xfer], and the loop; [i] and [o] are its indices. *)
Definition xfer_word (i o : Z) (s : pl022_state) (bus : option D) : res (pl022_state * option D) :=
  val ← aread (tx_fifo s) i;
  '(val, bus) ← (if truth (Z.land (cr1 s) PL022_CR1_LBM) then Ok (val, bus) else ssi_transfer bus val);
  f ← awrite (rx_fifo s) o (Z.land val (bitmask s));
  Ok (set_rx (set_tx s (tx_fifo_head s) (tx_fifo_len s - 1) (tx_fifo s)) (rx_fifo_head s) (rx_fifo_len s + 1) f, bus).

Fixpoint xfer_loop (fuel : nat) (i o : Z) (s : pl022_state) (bus : option D) : res (Z * pl022_state * option D) :=
  if truth (tx_fifo_len s) && (rx_fifo_len s <? 8) then
    match fuel with
    | O => Err Out_of_fuel
    | S fuel => '(s, bus) ← xfer_word i o s bus; xfer_loop fuel (Z.land (i + 1) 7) (Z.land (o + 1) 7) s bus
    end
  else Ok (o, s, bus).

Definition pl022_xfer (w : pl022_world D) : res (pl022_world D) :=
  let s := port w in
  if Z.land (cr1 s) PL022_CR1_SSE =? 0 then Ok (pl022_update w) else
  '(o, s, bus) ← xfer_loop 8 (Z.land (tx_fifo_head s - tx_fifo_len s) 7) (rx_fifo_head s) s (ssi w);
  Ok (pl022_update (mkPort (set_rx s o (rx_fifo_len s) (rx_fifo s)) bus (port_irq w))).

Definition pl022_read (offset : Z) (w : pl022_world D) : res (Z * pl022_world D) :=
  let s := port w in
  if in_window 0xfe0 0x1000 offset then v ← aread pl022_id (Z.shiftr (offset - 0xfe0) 2); Ok (v, w) else
  match offset with
  | 0x00 => Ok (cr0 s, w)
  | 0x04 => Ok (cr1 s, w)
  | 0x08 =>
      if truth (rx_fifo_len s) then
        val ← aread (rx_fifo s) (Z.land (rx_fifo_head s - rx_fifo_len s) 7);
        w ← pl022_xfer (mkPort (set_rx s (rx_fifo_head s) (rx_fifo_len s - 1) (rx_fifo s)) (ssi w) (port_irq w));
        Ok (val, w)
      else Ok (0, w)
  | 0x0c => Ok (sr s, w)
  | 0x10 => Ok (cpsr s, w)
  | 0x14 => Ok (im s, w)
  | 0x18 => Ok (is_ s, w)
  | 0x1c => Ok (Z.land (im s) (is_ s), w)
  | 0x20 => Ok (0, w)
  | _ => Err Hw_error
  end.

Definition pl022_write (offset value : Z) (w : pl022_world D) : res (pl022_world D) :=
  let s := port w in
  let put s := mkPort s (ssi w) (port_irq w) in
  match offset with
  | 0x00 => Ok (put (set_control s value (cr1 s) (Z.shiftl 1 (Z.land value 15 + 1) - 1) (cpsr s) (im s)))
  | 0x04 => pl022_xfer (put (set_control s (cr0 s) value (bitmask s) (cpsr s) (im s)))
  | 0x08 =>
      if tx_fifo_len s <? 8 then
        f ← awrite (tx_fifo s) (tx_fifo_head s) (Z.land value (bitmask s));
        pl022_xfer (put (set_tx s (Z.land (tx_fifo_head s + 1) 7) (tx_fifo_len s + 1) f))
      else Ok w
  | 0x10 => Ok (put (set_control s (cr0 s) (cr1 s) (bitmask s) (Z.land value 0xff) (im s)))
  | 0x14 => Ok (pl022_update (put (set_control s (cr0 s) (cr1 s) (bitmask s) (cpsr s) value)))
  | 0x20 => if truth value then Err Hw_error else Ok w
  | _ => Err Hw_error
  end.

Definition pl022_reset (s : pl022_state) : pl022_state :=
  mkPl022 (cr0 s) (cr1 s) (bitmask s) (Z.lor PL022_SR_TFE PL022_SR_TNF) (cpsr s) PL022_INT_TX 0
    (tx_fifo_head s) (rx_fifo_head s) 0 0 (tx_fifo s) (rx_fifo s).

(** The state is zero when the device is made. *)
Definition pl022_init (bus : option D) : pl022_world D :=
  mkPort (pl022_reset (mkPl022 0 0 0 0 0 0 0 0 0 0 0 (replicate 8 0) (replicate 8 0))) bus 0.
End pl022.

(** ** The FIFOs are queues *)

Lemma land7 z : Z.land z 7 = z mod 8.
Proof. change 7 with (2 ^ 3 - 1). by rewrite land_mod by lia. Qed.

Section queues.
Context {D : Type} `{SSISlave D}.

(** What the loop does to the queues: words go to the slave, or back in the loopback mode,
    as long as there is room for the answers. *)
Fixpoint drain (loopback : bool) (mask : Z) (tx rx : list Z) (bus : option D) : res (list Z * list Z * option D) :=
  match tx with
  | [] => Ok ([], rx, bus)
  | v :: tx' =>
      if Z.of_nat (length rx) <? 8 then
        '(r, bus) ← (if loopback then Ok (v, bus) else ssi_transfer bus v);
        drain loopback mask tx' (rx ++ [Z.land r mask]) bus
      else Ok (tx, rx, bus)
  end.

(** The rings of [s] hold the queues, with [o] as the head of the receive FIFO. *)
Record fifos (s : pl022_state) (o : Z) (tx rx : list Z) : Prop := {
  f_tx_cells : length (tx_fifo s) = 8%nat;
  f_rx_cells : length (rx_fifo s) = 8%nat;
  f_tx_head : 0 <= tx_fifo_head s < 8;
  f_rx_head : 0 <= o < 8;
  f_tx_len : tx_fifo_len s = Z.of_nat (length tx);
  f_rx_len : rx_fifo_len s = Z.of_nat (length rx);
  f_tx_room : (length tx <= 8)%nat;
  f_rx_room : (length rx <= 8)%nat;
  f_tx : ring_holds 8 (tx_fifo s) (tx_fifo_head s - Z.of_nat (length tx)) tx;
  f_rx : ring_holds 8 (rx_fifo s) (o - Z.of_nat (length rx)) rx;
}.

(** The registers that a transfer does not change. *)
Definition same_control (s s' : pl022_state) : Prop :=
  cr0 s' = cr0 s ∧ cr1 s' = cr1 s ∧ bitmask s' = bitmask s ∧ cpsr s' = cpsr s ∧ im s' = im s ∧ tx_fifo_head s' = tx_fifo_head s.

Definition same_control_but_head (s s' : pl022_state) : Prop :=
  cr0 s' = cr0 s ∧ cr1 s' = cr1 s ∧ bitmask s' = bitmask s ∧ cpsr s' = cpsr s ∧ im s' = im s.

Definition looped (s : pl022_state) : bool := truth (Z.land (cr1 s) PL022_CR1_LBM).

(** One word. *)
Lemma xfer_word_moves s o v tx rx bus r bus' :
  fifos s o (v :: tx) rx → (length rx < 8)%nat → (if looped s then Ok (v, bus) else ssi_transfer bus v) = Ok (r, bus') →
  ∃ s', xfer_word ((tx_fifo_head s - tx_fifo_len s) mod 8) o s bus = Ok (s', bus') ∧
    fifos s' ((o + 1) mod 8) tx (rx ++ [Z.land r (bitmask s)]) ∧ same_control s s'.
Proof.
  intros F Hr Hv. destruct F as [Htc Hrc Hth Hrh Htl Hrl Htr Hrr Htx Hrx]. cbn [length] in *. unfold xfer_word.
  rewrite Htl, (ring_head 8 _ tx _ v) by (lia || done). cbn [mbind res_bind]. unfold looped in Hv. rewrite Hv. cbn [mbind res_bind].
  rewrite awrite_in by lia. cbn [mbind res_bind]. eexists. split; [reflexivity|]. split; [|done].
  constructor; cbn [set_rx set_tx tx_fifo rx_fifo tx_fifo_head tx_fifo_len rx_fifo_len]; rewrite ?length_insert, ?length_app; cbn [length]; try done; try lia.
  - apply Z.mod_pos_bound. lia.
  - replace (tx_fifo_head s - Z.of_nat (length tx)) with (tx_fifo_head s - Z.of_nat (S (length tx)) + 1) by lia.
    apply ring_mod. by eapply ring_tail.
  - pose proof (ring_put 8 _ rx (rx_fifo s) (Z.land r (bitmask s)) ltac:(lia) ltac:(lia) Hrx) as Hput.
    replace (o - Z.of_nat (length rx) + Z.of_nat (length rx)) with o in Hput by lia. rewrite (Z.mod_small o) in Hput by lia.
    apply ring_mod. rewrite Zminus_mod_idemp_l. apply (ring_mod 8 (o + 1 - _)).
    by replace (o + 1 - Z.of_nat (length rx + 1)) with (o - Z.of_nat (length rx)) by lia.
Qed.

Lemma xfer_loop_drains fuel s o tx rx bus tx' rx' bus' :
  fifos s o tx rx → (length tx <= fuel)%nat → drain (looped s) (bitmask s) tx rx bus = Ok (tx', rx', bus') →
  ∃ o' s', xfer_loop fuel ((tx_fifo_head s - tx_fifo_len s) mod 8) o s bus = Ok (o', s', bus') ∧ fifos s' o' tx' rx' ∧ same_control s s'.
Proof.
  revert fuel s o rx bus. induction tx as [|v tx IH]; intros fuel s o rx bus F Hf Hd; pose proof (f_tx_len _ _ _ _ F) as Hl;
    pose proof (f_rx_len _ _ _ _ F) as Hrl; cbn [length] in *.
  - injection Hd as <- <- <-. exists o, s. destruct fuel; cbn [xfer_loop]; rewrite Hl; done.
  - destruct fuel as [|fuel]; [lia|]. cbn [drain] in Hd. cbn [xfer_loop].
    assert (truth (tx_fifo_len s) && (rx_fifo_len s <? 8) = (Z.of_nat (length rx) <? 8)) as ->.
    { rewrite Hl, Hrl. unfold truth. by rewrite (proj2 (Z.eqb_neq (Z.of_nat (S (length tx))) 0)) by lia. }
    destruct (Z.ltb_spec (Z.of_nat (length rx)) 8).
    + destruct (if looped s then Ok (v, bus) else ssi_transfer bus v) as [[r bus1]|] eqn:Hv; [|done]. cbn [mbind res_bind] in Hd.
      destruct (xfer_word_moves s o v tx rx bus r bus1 F ltac:(lia) Hv) as (s1 & Hs1 & F1 & C1). rewrite Hs1. cbn [mbind res_bind].
      destruct C1 as (E0 & E1 & E2 & E3 & E4 & E5).
      destruct (IH fuel s1 ((o + 1) mod 8) (rx ++ [Z.land r (bitmask s)]) bus1 F1 ltac:(lia)) as (o' & s' & Hs' & F' & C').
      { unfold looped in *. by rewrite E1, E2. }
      exists o', s'. rewrite !land7. pose proof (f_tx_len _ _ _ _ F1) as Hl1. rewrite Zplus_mod_idemp_l.
      replace (tx_fifo_head s - tx_fifo_len s + 1) with (tx_fifo_head s1 - tx_fifo_len s1) by (rewrite E5, Hl, Hl1; lia).
      split_and!; [done|done|]. unfold same_control in *. destruct C' as (?&?&?&?&?&?). split_and!; congruence.
    + injection Hd as <- <- <-. by exists o, s.
Qed.
End queues.

(** ** The port with a slave that keeps its promise *)

Section port.
Context {D : Type} `{SSISlaveLaws D ok}.

Notation word v := (0 <= v < 2 ^ 16).

Definition bus_good (bus : option D) : Prop := match bus with Some d => ok d | None => True end.

(** The answers of the slave to the words [vs], one by one. *)
Fixpoint exchange (loopback : bool) (vs : list Z) (bus : option D) : res (list Z * option D) :=
  match vs with
  | [] => Ok ([], bus)
  | v :: vs =>
      '(r, bus) ← (if loopback then Ok (v, bus) else ssi_transfer bus v);
      '(rs, bus) ← exchange loopback vs bus;
      Ok (r :: rs, bus)
  end.

Lemma exchange_app l vs1 vs2 bus rs1 bus1 rs2 bus2 :
  exchange l vs1 bus = Ok (rs1, bus1) → exchange l vs2 bus1 = Ok (rs2, bus2) → exchange l (vs1 ++ vs2) bus = Ok (rs1 ++ rs2, bus2).
Proof.
  revert bus rs1. induction vs1 as [|v vs1 IH]; intros bus rs1 H1 H2; [by injection H1 as <- <-|]. cbn [exchange app] in *.
  destruct (if l then Ok (v, bus) else ssi_transfer bus v) as [[r bus']|]; [|done]. cbn [mbind res_bind] in *.
  destruct (exchange l vs1 bus') as [[rs bus'']|] eqn:He; [|done]. injection H1 as <- <-.
  by rewrite (IH bus' rs He H2).
Qed.

Lemma transfer_good (l : bool) v bus : bus_good bus → word v → ∃ r bus', (if l then Ok (v, bus) else ssi_transfer bus v) = Ok (r, bus') ∧ bus_good bus'.
Proof.
  intros Hb Hv. destruct l; [by exists v, bus|]. destruct bus as [d|]; [|by exists 0, None]. unfold ssi_transfer.
  destruct (transfer_ok v d Hb Hv) as (r & d' & -> & Hok). by exists r, (Some d').
Qed.

(** Draining sends a prefix of the transmit queue; what stays does so for want of room. *)
Lemma drain_good l mask tx rx bus :
  bus_good bus → Forall (λ v, word v) tx → (length rx <= 8)%nat →
  ∃ k rs bus', drain l mask tx rx bus = Ok (drop k tx, rx ++ ((λ r, Z.land r mask) <$> rs), bus') ∧
    exchange l (take k tx) bus = Ok (rs, bus') ∧ bus_good bus' ∧
    (length (rx ++ ((λ r, Z.land r mask) <$> rs)) <= 8)%nat ∧ (drop k tx ≠ [] → length (rx ++ ((λ r, Z.land r mask) <$> rs)) = 8%nat).
Proof.
  intros Hb Ht. revert rx bus Hb. induction Ht as [|v tx Hv _ IH]; intros rx bus Hb Hr.
  - exists 0%nat, [], bus. rewrite fmap_nil, app_nil_r. done.
  - cbn [drain]. destruct (Z.ltb_spec (Z.of_nat (length rx)) 8).
    + destruct (transfer_good l v bus Hb Hv) as (r & bus1 & Hr1 & Hb1). rewrite Hr1. cbn [mbind res_bind].
      destruct (IH (rx ++ [Z.land r mask]) bus1 Hb1) as (k & rs & bus' & Hd & He & Hb' & Hlen & Hfull); [rewrite length_app; cbn; lia|].
      exists (S k), (r :: rs), bus'. rewrite fmap_cons. cbn [drop take exchange]. rewrite <- app_assoc in Hd, Hlen, Hfull. cbn [app] in *.
      rewrite Hr1. cbn [mbind res_bind]. by rewrite He.
    + exists 0%nat, [], bus. rewrite fmap_nil, app_nil_r. split_and!; try done. intros _. lia.
Qed.

(** The state of the port apart from what it shows: rings, words, width, slave. *)
Record port_pre (w : pl022_world D) (tx rx : list Z) : Prop := {
  pp_fifos : fifos (port w) (rx_fifo_head (port w)) tx rx;
  pp_words : Forall (λ v, word v) tx;
  pp_mask : 0 <= bitmask (port w) < 2 ^ 16;
  pp_bus : bus_good (ssi w);
}.

Definition port_enabled (w : pl022_world D) : bool := negb (Z.land (cr1 (port w)) PL022_CR1_SSE =? 0).

(** With what it shows: status, raw interrupts and the interrupt line follow the lengths of
    the queues; an enabled port that still has words to send has no room for an answer. *)
Record port_inv (w : pl022_world D) (tx rx : list Z) : Prop := {
  pi_pre : port_pre w tx rx;
  pi_status : sr (port w) = status_of (Z.of_nat (length tx)) (Z.of_nat (length rx));
  pi_raw : is_ (port w) = raw_of (Z.of_nat (length tx)) (Z.of_nat (length rx));
  pi_irq : port_irq w = flag (truth (Z.land (is_ (port w)) (im (port w))));
  pi_stall : port_enabled w = true → tx ≠ [] → length rx = 8%nat;
}.

Lemma update_inv w tx rx :
  port_pre w tx rx → (port_enabled w = true → tx ≠ [] → length rx = 8%nat) → port_inv (pl022_update w) tx rx.
Proof.
  intros [F Hw Hm Hb] Hs. pose proof (f_tx_len _ _ _ _ F) as Ht. pose proof (f_rx_len _ _ _ _ F) as Hr.
  constructor; [constructor; [by destruct F; constructor|done|done|done]| | |done|done]; cbn [pl022_update port set_status sr is_]; by rewrite Ht, Hr.
Qed.

(** What a transfer does. *)
Lemma xfer_good w tx rx :
  port_pre w tx rx →
  ∃ k rs w', pl022_xfer w = Ok w' ∧ port_inv w' (drop k tx) (rx ++ ((λ r, Z.land r (bitmask (port w))) <$> rs)) ∧
    exchange (looped (port w)) (take k tx) (ssi w) = Ok (rs, ssi w') ∧ same_control (port w) (port w').
Proof.
  intros P. unfold pl022_xfer. destruct (Z.land (cr1 (port w)) PL022_CR1_SSE =? 0) eqn:He.
  - exists 0%nat, [], (pl022_update w). rewrite fmap_nil, app_nil_r. split_and!; try done. apply update_inv; [done|].
    unfold port_enabled. by rewrite He.
  - destruct P as [F Hw Hm Hb]. destruct (drain_good (looped (port w)) (bitmask (port w)) tx rx (ssi w) Hb Hw (f_rx_room _ _ _ _ F))
      as (k & rs & bus' & Hd & Hex & Hb' & Hlen & Hfull).
    destruct (xfer_loop_drains 8 (port w) _ tx rx (ssi w) _ _ _ F (f_tx_room _ _ _ _ F) Hd) as (o' & s' & Hl & F' & C').
    exists k, rs. rewrite land7, Hl. cbn [mbind res_bind]. eexists. split; [reflexivity|].
    split_and!; [|done|by destruct C' as (?&?&?&?&?&?); split_and!]. apply update_inv; [|done]. destruct C' as (_ & _ & Hmask & _).
    constructor; [|by apply Forall_drop|by rewrite <- Hmask in Hm|done]. by destruct F'; constructor.
Qed.

(** A word written to the data register, one read from it. *)
Lemma put_word w tx rx v :
  port_pre w tx rx → (length tx < 8)%nat →
  ∃ f, awrite (tx_fifo (port w)) (tx_fifo_head (port w)) (Z.land v (bitmask (port w))) = Ok f ∧
    port_pre (mkPort (set_tx (port w) (Z.land (tx_fifo_head (port w) + 1) 7) (tx_fifo_len (port w) + 1) f) (ssi w) (port_irq w))
      (tx ++ [Z.land v (bitmask (port w))]) rx.
Proof.
  intros [[Htc Hrc Hth Hrh Htl Hrl Htr Hrr Htx Hrx] Hw Hm Hb] Hlt. eexists. split; [apply awrite_in; lia|].
  pose proof (land_le v (bitmask (port w)) ltac:(lia)) as Hv.
  constructor; [|apply Forall_app; split; [done|apply Forall_singleton; lia]|done|done].
  constructor; cbn [port set_tx tx_fifo rx_fifo tx_fifo_head rx_fifo_head tx_fifo_len rx_fifo_len];
    rewrite ?length_insert, ?length_app, ?land7; cbn [length]; try done; try lia.
  - apply Z.mod_pos_bound. lia.
  - pose proof (ring_put 8 _ tx (tx_fifo (port w)) (Z.land v (bitmask (port w))) ltac:(lia) ltac:(lia) Htx) as Hput.
    replace (tx_fifo_head (port w) - Z.of_nat (length tx) + Z.of_nat (length tx)) with (tx_fifo_head (port w)) in Hput by lia.
    rewrite (Z.mod_small (tx_fifo_head _)) in Hput by lia.
    apply ring_mod. rewrite Zminus_mod_idemp_l. apply (ring_mod 8 (tx_fifo_head (port w) + 1 - _)).
    by replace (tx_fifo_head (port w) + 1 - Z.of_nat (length tx + 1)) with (tx_fifo_head (port w) - Z.of_nat (length tx)) by lia.
Qed.

Lemma get_word w tx x rx :
  port_pre w tx (x :: rx) →
  aread (rx_fifo (port w)) (Z.land (rx_fifo_head (port w) - rx_fifo_len (port w)) 7) = Ok x ∧
  port_pre (mkPort (set_rx (port w) (rx_fifo_head (port w)) (rx_fifo_len (port w) - 1) (rx_fifo (port w))) (ssi w) (port_irq w)) tx rx.
Proof.
  intros [[Htc Hrc Hth Hrh Htl Hrl Htr Hrr Htx Hrx] Hw Hm Hb]. cbn [length] in *. rewrite land7, Hrl. split; [by eapply ring_head; [lia|]|].
  constructor; [|done|done|done]. constructor; cbn [port set_rx tx_fifo rx_fifo tx_fifo_head rx_fifo_head tx_fifo_len rx_fifo_len]; try done; try lia.
  apply ring_tail, ring_mod in Hrx. by replace (_ - Z.of_nat (S (length rx)) + 1) with (rx_fifo_head (port w) - Z.of_nat (length rx)) in Hrx by lia.
Qed.

(** Both with the transfer that follows. *)
Lemma write_data w tx rx v :
  port_inv w tx rx → (length tx < 8)%nat →
  ∃ k rs w', pl022_write 0x08 v w = Ok w' ∧
    port_inv w' (drop k (tx ++ [Z.land v (bitmask (port w))])) (rx ++ ((λ r, Z.land r (bitmask (port w))) <$> rs)) ∧
    exchange (looped (port w)) (take k (tx ++ [Z.land v (bitmask (port w))])) (ssi w) = Ok (rs, ssi w') ∧
    same_control_but_head (port w) (port w').
Proof.
  intros I Hlt. pose proof (pi_pre _ _ _ I) as P. destruct (put_word w tx rx v P Hlt) as (f & Hf & P').
  destruct (xfer_good _ _ _ P') as (k & rs & w' & Hx & I' & He & C'). exists k, rs, w'.
  unfold pl022_write. rewrite (f_tx_len _ _ _ _ (pp_fifos _ _ _ P)), (proj2 (Z.ltb_lt _ 8)) by lia. rewrite Hf. cbn [mbind res_bind].
  rewrite (f_tx_len _ _ _ _ (pp_fifos _ _ _ P)) in Hx. split_and!; try done. by destruct C' as (?&?&?&?&?&?).
Qed.

Lemma read_data w tx x rx :
  port_inv w tx (x :: rx) →
  ∃ k rs w', pl022_read 0x08 w = Ok (x, w') ∧ port_inv w' (drop k tx) (rx ++ ((λ r, Z.land r (bitmask (port w))) <$> rs)) ∧
    exchange (looped (port w)) (take k tx) (ssi w) = Ok (rs, ssi w') ∧ same_control_but_head (port w) (port w').
Proof.
  intros I. pose proof (pi_pre _ _ _ I) as P. destruct (get_word w tx x rx P) as (Hx & P').
  destruct (xfer_good _ _ _ P') as (k & rs & w' & Hx' & I' & He & C'). exists k, rs, w'.
  unfold pl022_read. cbn iota. pose proof (f_rx_len _ _ _ _ (pp_fifos _ _ _ P)) as Hl. cbn [length] in Hl.
  replace (truth (rx_fifo_len (port w))) with true by (symmetry; apply negb_true_iff, Z.eqb_neq; lia).
  rewrite Hx. cbn [mbind res_bind]. rewrite Hx'. split_and!; try done. by destruct C' as (?&?&?&?&?&?).
Qed.

Lemma exchange_length l vs bus rs bus' : exchange l vs bus = Ok (rs, bus') → length rs = length vs.
Proof.
  revert bus rs. induction vs as [|v vs IH]; intros bus rs He; [by injection He as <- <-|]. cbn [exchange] in He.
  destruct (if l then Ok (v, bus) else ssi_transfer bus v) as [[r bus1]|]; [|done]. cbn [mbind res_bind] in He.
  destruct (exchange l vs bus1) as [[rs1 bus2]|] eqn:He1; [|done]. injection He as <- <-. cbn [length]. by rewrite (IH _ _ He1).
Qed.

(** A port with empty FIFOs: a word that is sent reaches the slave at once. *)
Lemma send_at_once w v :
  port_inv w [] [] → port_enabled w = true →
  ∃ r w', pl022_write 0x08 v w = Ok w' ∧ port_inv w' [] [Z.land r (bitmask (port w))] ∧
    exchange (looped (port w)) [Z.land v (bitmask (port w))] (ssi w) = Ok ([r], ssi w') ∧ same_control_but_head (port w) (port w').
Proof.
  intros I He. destruct (write_data w [] [] v I ltac:(cbn; lia)) as (k & rs & w' & Hw & I' & Hx & C). cbn [app] in *.
  assert (port_enabled w' = true) as He' by (unfold port_enabled in *; destruct C as (_ & -> & _); done).
  pose proof (exchange_length _ _ _ _ _ Hx) as Hl. destruct k as [|k].
  - pose proof (pi_stall _ _ _ I' He' ltac:(done)) as Hst. rewrite length_fmap, Hl in Hst. done.
  - cbn [take drop] in *. rewrite drop_nil in I'. rewrite take_nil in Hx, Hl. destruct rs as [|r [|]]; [done| |done]. by exists r, w'.
Qed.
Lemma receive_last w x :
  port_inv w [] [x] → ∃ w', pl022_read 0x08 w = Ok (x, w') ∧ port_inv w' [] [] ∧ ssi w' = ssi w ∧ same_control_but_head (port w) (port w').
Proof.
  intros I. destruct (read_data w [] x [] I) as (k & rs & w' & Hw & I' & Hx & C). rewrite drop_nil in I'. rewrite take_nil in Hx.
  injection Hx as <- Hx. exists w'. split_and!; done.
Qed.

(** ** A driver that polls the status *)

Lemma status_tnf t r : truth (Z.land (status_of t r) PL022_SR_TNF) = negb (t =? 8).
Proof. unfold status_of. destruct (t =? 0), (t =? 8), (r =? 0), (r =? 8), (truth t); reflexivity. Qed.
Lemma status_rne t r : truth (Z.land (status_of t r) PL022_SR_RNE) = negb (r =? 0).
Proof. unfold status_of. destruct (t =? 0), (t =? 8), (r =? 0), (r =? 8), (truth t); reflexivity. Qed.

(** Send a word if the transmit FIFO is not full, fetch one if the receive FIFO is not
    empty; the words that were accepted and the words that came. *)
Inductive driver_op := Send (v : Z) | Receive.

Definition driver_step (op : driver_op) (w : pl022_world D) : res (list Z * list Z * pl022_world D) :=
  '(st, w) ← pl022_read 0x0c w;
  match op with
  | Send v => if truth (Z.land st PL022_SR_TNF) then w ← pl022_write 0x08 v w; Ok ([v], [], w) else Ok ([], [], w)
  | Receive => if truth (Z.land st PL022_SR_RNE) then '(v, w) ← pl022_read 0x08 w; Ok ([], [v], w) else Ok ([], [], w)
  end.

Lemma driver_send w tx rx v :
  port_inv w tx rx → (length tx < 8)%nat → driver_step (Send v) w = (w ← pl022_write 0x08 v w; Ok ([v], [], w)).
Proof.
  intros I Hl. unfold driver_step. change (pl022_read 0x0c w) with (Ok (sr (port w), w)). cbn [mbind res_bind]. rewrite (pi_status _ _ _ I), status_tnf.
  by rewrite (proj2 (Z.eqb_neq _ 8)) by lia.
Qed.
Lemma driver_receive w tx x rx :
  port_inv w tx (x :: rx) → driver_step Receive w = ('(v, w) ← pl022_read 0x08 w; Ok ([], [v], w)).
Proof.
  intros I. unfold driver_step. change (pl022_read 0x0c w) with (Ok (sr (port w), w)). cbn [mbind res_bind]. rewrite (pi_status _ _ _ I), status_rne.
  cbn [length]. by rewrite (proj2 (Z.eqb_neq _ 0)) by lia.
Qed.

Fixpoint driver_run (ops : list driver_op) (w : pl022_world D) : res (list Z * list Z * pl022_world D) :=
  match ops with
  | [] => Ok ([], [], w)
  | op :: ops =>
      '(a1, r1, w) ← driver_step op w;
      '(a2, r2, w) ← driver_run ops w;
      Ok (a1 ++ a2, r1 ++ r2, w)
  end.

(** What one step adds: words sent, and their answers. *)
Lemma driver_step_good op w tx rx :
  port_inv w tx rx →
  ∃ acc recv w' sent rs tx' rx', driver_step op w = Ok (acc, recv, w') ∧ port_inv w' tx' rx' ∧
    same_control_but_head (port w) (port w') ∧ exchange (looped (port w)) sent (ssi w) = Ok (rs, ssi w') ∧
    tx ++ ((λ v, Z.land v (bitmask (port w))) <$> acc) = sent ++ tx' ∧
    rx ++ ((λ r, Z.land r (bitmask (port w))) <$> rs) = recv ++ rx'.
Proof.
  intros I. unfold driver_step. change (pl022_read 0x0c w) with (Ok (sr (port w), w)). cbn [mbind res_bind]. rewrite (pi_status _ _ _ I).
  assert (∃ acc recv w' sent rs tx' rx', Ok ([], [], w) = Ok (acc, recv, w') ∧ port_inv w' tx' rx' ∧
    same_control_but_head (port w) (port w') ∧ exchange (looped (port w)) sent (ssi w) = Ok (rs, ssi w') ∧
    tx ++ ((λ v, Z.land v (bitmask (port w))) <$> acc) = sent ++ tx' ∧
    rx ++ ((λ r, Z.land r (bitmask (port w))) <$> rs) = recv ++ rx') as Hnone.
  { exists [], [], w, [], [], tx, rx. rewrite !fmap_nil, !app_nil_r. done. }
  destruct op as [v|].
  - rewrite status_tnf. destruct (Z.eqb_spec (Z.of_nat (length tx)) 8) as [|Hlt]; [done|]. cbn [negb].
    pose proof (f_tx_room _ _ _ _ (pp_fifos _ _ _ (pi_pre _ _ _ I))).
    destruct (write_data w tx rx v I ltac:(lia)) as (k & rs & w' & Hw & I' & He & C). rewrite Hw. cbn [mbind res_bind].
    eexists _, _, w', _, rs, _, _. split_and!; [reflexivity|exact I'|done|exact He| |done]. cbn [fmap list_fmap]. by rewrite take_drop.
  - rewrite status_rne. destruct rx as [|x rx]; [done|]. cbn [length]. rewrite (proj2 (Z.eqb_neq _ 0)) by lia. cbn [negb].
    destruct (read_data w tx x rx I) as (k & rs & w' & Hw & I' & He & C). rewrite Hw. cbn [mbind res_bind].
    eexists _, _, w', _, rs, _, _. split_and!; [reflexivity|exact I'|done|exact He| |done]. cbn [fmap list_fmap]. by rewrite app_nil_r, take_drop.
Qed.

(** [C12]: A driver that polls the status register loses nothing, whatever the order in which
    it sends and receives, and whatever the slave: the words that the port accepted are, in
    their order, the words that the slave got followed by those still in the transmit FIFO;
    the answers of the slave are, in their order and cut to the width of a word, the words
    that the driver received followed by those still in the receive FIFO; and words wait for
    the slave only when an enabled port has no room for its answers.  In the loopback mode
    the same with the words themselves as answers. *)
Theorem pl022_full_duplex ops w :
  port_inv w [] [] →
  ∃ acc recv w' sent rs tx rx, driver_run ops w = Ok (acc, recv, w') ∧ port_inv w' tx rx ∧
    exchange (looped (port w)) sent (ssi w) = Ok (rs, ssi w') ∧
    (λ v, Z.land v (bitmask (port w))) <$> acc = sent ++ tx ∧ (λ r, Z.land r (bitmask (port w))) <$> rs = recv ++ rx ∧
    (length rx <= 8)%nat ∧ (port_enabled w = true → tx ≠ [] → length rx = 8%nat).
Proof.
  intros I. set (mask := bitmask (port w)).
  assert (∀ tx0 rx0 w0, port_inv w0 tx0 rx0 → cr1 (port w0) = cr1 (port w) → bitmask (port w0) = mask →
    ∃ acc recv w' sent rs tx rx, driver_run ops w0 = Ok (acc, recv, w') ∧ port_inv w' tx rx ∧ cr1 (port w') = cr1 (port w) ∧
      exchange (looped (port w)) sent (ssi w0) = Ok (rs, ssi w') ∧
      tx0 ++ ((λ v, Z.land v mask) <$> acc) = sent ++ tx ∧ rx0 ++ ((λ r, Z.land r mask) <$> rs) = recv ++ rx) as Hrun.
  { induction ops as [|op ops IH]; intros tx0 rx0 w0 I0 E1 E2.
    - exists [], [], w0, [], [], tx0, rx0. rewrite !fmap_nil, !app_nil_r. done.
    - destruct (driver_step_good op w0 tx0 rx0 I0) as (a1 & r1 & w1 & s1 & rs1 & tx1 & rx1 & Hs & I1 & (_ & C1 & C2 & _) & He1 & Ht1 & Hr1).
      destruct (IH tx1 rx1 w1 I1 ltac:(congruence) ltac:(congruence)) as (a2 & r2 & w2 & s2 & rs2 & tx2 & rx2 & Hr & I2 & E3 & He2 & Ht2 & Hr2).
      cbn [driver_run]. rewrite Hs. cbn [mbind res_bind]. rewrite Hr. cbn [mbind res_bind].
      exists (a1 ++ a2), (r1 ++ r2), w2, (s1 ++ s2), (rs1 ++ rs2), tx2, rx2. rewrite E2 in *. unfold looped in He1. rewrite E1 in He1.
      split_and!; [done|done|done|by eapply exchange_app| |].
      + by rewrite fmap_app, app_assoc, Ht1, <- !app_assoc, Ht2.
      + by rewrite fmap_app, app_assoc, Hr1, <- !app_assoc, Hr2. }
  destruct (Hrun [] [] w I eq_refl eq_refl) as (acc & recv & w' & sent & rs & tx & rx & Hr & I' & E & He & Ht & Hrx).
  exists acc, recv, w', sent, rs, tx, rx. split_and!; try done.
  - apply (f_rx_room _ _ _ _ (pp_fifos _ _ _ (pi_pre _ _ _ I'))).
  - intros Hen. apply (pi_stall _ _ _ I'). unfold port_enabled in *. by rewrite E.
Qed.

(** ** Any accesses *)

Inductive port_op := Rd (offset : Z) | Wr (offset value : Z).

Definition port_step (op : port_op) (w : pl022_world D) : res (pl022_world D) :=
  match op with Rd offset => '(_, w) ← pl022_read offset w; Ok w | Wr offset value => pl022_write offset value w end.
Fixpoint port_run (ops : list port_op) (w : pl022_world D) : res (pl022_world D) :=
  match ops with [] => Ok w | op :: ops => w ← port_step op w; port_run ops w end.

(** The accesses that the port takes: the registers it has, and no DMA. *)
Definition port_takes (op : port_op) : bool :=
  match op with
  | Rd offset => in_window 0xfe0 0x1000 offset || bool_decide (offset ∈ [0x00; 0x04; 0x08; 0x0c; 0x10; 0x14; 0x18; 0x1c; 0x20])
  | Wr offset value => bool_decide (offset ∈ [0x00; 0x04; 0x08; 0x10; 0x14]) || ((offset =? 0x20) && negb (truth value))
  end.

Lemma mask_range value : 0 <= Z.shiftl 1 (Z.land value 15 + 1) - 1 < 2 ^ 16.
Proof.
  pose proof (land_le value 15 ltac:(lia)). rewrite Z.shiftl_1_l. assert (2 ^ 0 <= 2 ^ (Z.land value 15 + 1) <= 2 ^ 16) by (split; apply Z.pow_le_mono_r; lia).
  lia.
Qed.

(** A change of the control registers. *)
Lemma control_pre w tx rx c0 c1 b p m :
  port_pre w tx rx → 0 <= b < 2 ^ 16 → port_pre (mkPort (set_control (port w) c0 c1 b p m) (ssi w) (port_irq w)) tx rx.
Proof. intros [[] Hw Hm Hb] Hr. constructor; [by constructor|done|done|done]. Qed.
Lemma control_inv w tx rx c0 b p :
  port_inv w tx rx → 0 <= b < 2 ^ 16 → port_inv (mkPort (set_control (port w) c0 (cr1 (port w)) b p (im (port w))) (ssi w) (port_irq w)) tx rx.
Proof. intros [P Hs Hr Hi Hst] Hb. by constructor; [apply control_pre|..]. Qed.

Lemma port_read_safe offset w tx rx :
  port_inv w tx rx → port_takes (Rd offset) = true → ∃ v w' tx' rx', pl022_read offset w = Ok (v, w') ∧ port_inv w' tx' rx'.
Proof.
  intros I Ho. unfold port_takes in Ho. unfold pl022_read. destruct (in_window 0xfe0 0x1000 offset) eqn:Hw.
  - pose proof (window_index _ _ _ Hw). change ((0x1000 - 0xfe0 + 3) / 4) with 8 in *.
    destruct (aread_in pl022_id (Z.shiftr (offset - 0xfe0) 2)) as [v ->]; [done|]. by exists v, w, tx, rx.
  - apply bool_decide_eq_true in Ho.
    repeat (apply elem_of_cons in Ho as [-> | Ho]; [try (by eexists _, w, tx, rx)|]); [|by apply elem_of_nil in Ho].
    destruct rx as [|x rx].
    + rewrite (f_rx_len _ _ _ _ (pp_fifos _ _ _ (pi_pre _ _ _ I))). by exists 0, w, tx, [].
    + destruct (read_data w tx x rx I) as (k & rs & w' & Hr & I' & _). unfold pl022_read in Hr. change (in_window _ _ 8) with false in Hr.
      cbn iota in Hr. rewrite Hr. by eexists _, _, _, _.
Qed.

Lemma port_write_safe offset value w tx rx :
  port_inv w tx rx → port_takes (Wr offset value) = true → ∃ w' tx' rx', pl022_write offset value w = Ok w' ∧ port_inv w' tx' rx'.
Proof.
  intros I Ho. pose proof (pi_pre _ _ _ I) as P. pose proof (pp_mask _ _ _ P) as Hm.
  assert (∀ w', port_pre w' tx rx → ∃ w'' tx' rx', pl022_xfer w' = Ok w'' ∧ port_inv w'' tx' rx') as Hx.
  { intros w' P'. destruct (xfer_good w' tx rx P') as (k & rs & w'' & Hw'' & I'' & _). by eexists _, _, _. }
  unfold port_takes in Ho. apply orb_true_iff in Ho as [Ho|Ho].
  - apply bool_decide_eq_true in Ho.
    repeat (apply elem_of_cons in Ho as [-> | Ho]; [unfold pl022_write; cbn iota|]); [..|by apply elem_of_nil in Ho].
    + eexists _, tx, rx. split; [reflexivity|]. apply control_inv; [done|apply mask_range].
    + apply Hx. by apply control_pre.
    + destruct (Z.ltb_spec (tx_fifo_len (port w)) 8) as [Hlt|]; [|by exists w, tx, rx].
      rewrite (f_tx_len _ _ _ _ (pp_fifos _ _ _ P)) in Hlt.
      destruct (write_data w tx rx value I ltac:(lia)) as (k & rs & w' & Hw & I' & _). unfold pl022_write in Hw. cbn iota in Hw.
      rewrite (f_tx_len _ _ _ _ (pp_fifos _ _ _ P)), (proj2 (Z.ltb_lt _ 8)) in Hw by lia. rewrite (f_tx_len _ _ _ _ (pp_fifos _ _ _ P)).
      rewrite Hw. by eexists _, _, _.
    + eexists _, tx, rx. split; [reflexivity|]. by apply control_inv.
    + eexists _, tx, rx. split; [reflexivity|]. apply update_inv; [by apply control_pre|]. apply (pi_stall _ _ _ I).
  - apply andb_true_iff in Ho as [Ho Hv]. apply Z.eqb_eq in Ho as ->. apply negb_true_iff in Hv. unfold pl022_write. cbn iota. rewrite Hv. by exists w, tx, rx.
Qed.

Lemma port_refuses op (w : pl022_world D) : port_takes op = false → port_step op w = Err Hw_error.
Proof.
  destruct op as [offset|offset value]; unfold port_takes, port_step, pl022_read, pl022_write; intros Ho; apply orb_false_iff in Ho as [H1 H2].
  - rewrite H1. apply bool_decide_eq_false in H2. repeat case_match; try done; exfalso; apply H2; set_solver.
  - apply bool_decide_eq_false in H1. repeat case_match; try done; exfalso; apply H1; set_solver.
Qed.

Lemma port_run_safe ops w tx rx :
  port_inv w tx rx →
  match port_run ops w with
  | Ok w => forallb port_takes ops = true ∧ ∃ tx rx, port_inv w tx rx
  | Err e => e = Hw_error ∧ forallb port_takes ops = false
  end.
Proof.
  revert w tx rx. induction ops as [|op ops IH]; intros w tx rx I0; cbn [port_run forallb]; [by eauto|].
  destruct (port_takes op) eqn:Ht; [|by rewrite port_refuses].
  assert (∃ w' tx' rx', port_step op w = Ok w' ∧ port_inv w' tx' rx') as (w' & tx' & rx' & -> & I').
  { destruct op as [offset|offset value]; cbn [port_step]; [|by eapply port_write_safe].
    destruct (port_read_safe offset w tx rx I0 Ht) as (v & w' & tx' & rx' & -> & I'). by exists w', tx', rx'. }
  cbn [mbind res_bind andb]. by eapply IH.
Qed.

Lemma init_inv bus : bus_good bus → port_inv (pl022_init bus) [] [].
Proof.
  intros Hb. constructor; try done. constructor; try done. constructor; try done; first [apply ring_empty | cbn; lia].
Qed.

(** From power on, whatever the guest reads and writes, and with any slave that keeps
    its promise: the only failure is the hardware error that ends the emulation, exactly on
    an access that the port does not take; otherwise the FIFOs are never indexed out of
    their bounds, the status register and the raw interrupts describe them, the interrupt
    line is the masked interrupt status, and an enabled port keeps words to send only when
    the receive FIFO is full. *)
Theorem pl022_port_safe bus ops :
  bus_good bus →
  match port_run ops (pl022_init bus) with
  | Ok w => forallb port_takes ops = true ∧ ∃ tx rx, port_inv w tx rx
  | Err e => e = Hw_error ∧ forallb port_takes ops = false
  end.
Proof.
  intros Hb. by eapply port_run_safe, init_inv.
Qed.
End port.

(** ** The multiplexer of the LM3S6965EVB (hw/stellaris.c)

    A slave of the port with a bus of its own for the SD card and one for the display; a
    line selects between them. *)

Record stellaris_ssi_bus_state (D0 D1 : Type) := mkMux { current_dev : Z; bus0 : option D0; bus1 : option D1 }.
Arguments mkMux {D0 D1} _ _ _.
Arguments current_dev {D0 D1} _.
Arguments bus0 {D0 D1} _.
Arguments bus1 {D0 D1} _.

Section mux.
Context {D0 D1 : Type} `{SSISlaveLaws D0 ok0} `{SSISlaveLaws D1 ok1}.

Definition stellaris_ssi_bus_select (level : Z) (m : stellaris_ssi_bus_state D0 D1) : stellaris_ssi_bus_state D0 D1 :=
  mkMux level (bus0 m) (bus1 m).

Definition stellaris_ssi_bus_transfer (val : Z) (m : stellaris_ssi_bus_state D0 D1) : res (Z * stellaris_ssi_bus_state D0 D1) :=
  match current_dev m with
  | 0 => '(r, b) ← ssi_transfer (bus0 m) val; Ok (r, mkMux (current_dev m) b (bus1 m))
  | 1 => '(r, b) ← ssi_transfer (bus1 m) val; Ok (r, mkMux (current_dev m) (bus0 m) b)
  | _ => Err Out_of_bounds
  end.

#[global] Instance stellaris_ssi_bus_info : SSISlave (stellaris_ssi_bus_state D0 D1) := { ssi_cb := stellaris_ssi_bus_transfer }.

Definition mux_ok (m : stellaris_ssi_bus_state D0 D1) : Prop :=
  (current_dev m = 0 ∨ current_dev m = 1) ∧ bus_good (ok := ok0) (bus0 m) ∧ bus_good (ok := ok1) (bus1 m).

#[global] Instance stellaris_ssi_bus_laws : SSISlaveLaws (stellaris_ssi_bus_state D0 D1) mux_ok.
Proof.
  split. intros v m (Hc & H0' & H1') Hv. cbn [ssi_cb stellaris_ssi_bus_info]. unfold stellaris_ssi_bus_transfer. destruct Hc as [Hc|Hc]; rewrite Hc.
  - destruct (transfer_good false v (bus0 m) H0' Hv) as (r & b & -> & Hb). eexists _, _. split; [done|]. split_and!; auto.
  - destruct (transfer_good false v (bus1 m) H1' Hv) as (r & b & -> & Hb). eexists _, _. split; [done|]. split_and!; auto.
Qed.

(** With the display selected, words go to the display alone. *)
Lemma exchange_selected vs m rs b :
  current_dev m = 1 → exchange false vs (bus1 m) = Ok (rs, b) → exchange false vs (Some m) = Ok (rs, Some (mkMux 1 (bus0 m) b)).
Proof.
  revert m rs b. induction vs as [|v vs IH]; intros m rs b Hc He.
  - injection He as <- <-. destruct m. cbn in *. by subst.
  - cbn [exchange] in *. cbn [ssi_transfer ssi_cb stellaris_ssi_bus_info]. unfold stellaris_ssi_bus_transfer. rewrite Hc.
    destruct (ssi_transfer (bus1 m) v) as [[r b1]|]; [|done]. cbn [mbind res_bind] in *.
    destruct (exchange false vs b1) as [[rs' b']|] eqn:He'; [|done]. cbn [mbind res_bind] in He. injection He as <- <-.
    by rewrite (IH (mkMux 1 (bus0 m) b1) rs' b' eq_refl He').
Qed.
End mux.
