(* ===== verification/Ssd0323.v ===== *)
(** * Ssd0323: the OLED display on the SSI bus (hw/ssd0323.c)

    The words of the bus are commands with their arguments or pixels, as the line for
    command and data says; pixels fill a window of the frame buffer, row by row or column
    by column.  A byte is two pixels of 16 grey levels. *)

From S2P Require Import Prelude Display Ssi.
Local Open Scope Z_scope.

Inductive ssd0323_mode := SSD0323_CMD | SSD0323_DATA.

Definition REMAP_VERTICAL : Z := 0x04.

Record ssd0323_state := mkOled {
  cmd_len : Z; cmd : Z; cmd_data : list Z;
  row : Z; row_start : Z; row_end : Z; col : Z; col_start : Z; col_end : Z;
  redraw : Z; remap : Z; mode : ssd0323_mode; framebuffer : list Z;
}.

Definition set_command (s : ssd0323_state) (len c : Z) (d : list Z) : ssd0323_state :=
  mkOled len c d (row s) (row_start s) (row_end s) (col s) (col_start s) (col_end s) (redraw s) (remap s) (mode s) (framebuffer s).
Definition set_rows (s : ssd0323_state) (r rs re : Z) : ssd0323_state :=
  mkOled (cmd_len s) (cmd s) (cmd_data s) r rs re (col s) (col_start s) (col_end s) (redraw s) (remap s) (mode s) (framebuffer s).
Definition set_cols (s : ssd0323_state) (c cs ce : Z) : ssd0323_state :=
  mkOled (cmd_len s) (cmd s) (cmd_data s) (row s) (row_start s) (row_end s) c cs ce (redraw s) (remap s) (mode s) (framebuffer s).
Definition set_remap (s : ssd0323_state) (m : Z) : ssd0323_state :=
  mkOled (cmd_len s) (cmd s) (cmd_data s) (row s) (row_start s) (row_end s) (col s) (col_start s) (col_end s) (redraw s) m (mode s) (framebuffer s).
Definition set_mode (s : ssd0323_state) (m : ssd0323_mode) : ssd0323_state :=
  mkOled (cmd_len s) (cmd s) (cmd_data s) (row s) (row_start s) (row_end s) (col s) (col_start s) (col_end s) (redraw s) (remap s) m (framebuffer s).
Definition set_picture (s : ssd0323_state) (r : Z) (fb : list Z) : ssd0323_state :=
  mkOled (cmd_len s) (cmd s) (cmd_data s) (row s) (row_start s) (row_end s) (col s) (col_start s) (col_end s) r (remap s) (mode s) fb.

(** The next place of the window: down the column in the vertical mode, along the row
    otherwise. *)
Definition advance (s : ssd0323_state) : ssd0323_state :=
  if truth (Z.land (remap s) REMAP_VERTICAL) then
    let '(r, c) := if row_end s <? row s + 1 then (row_start s, col s + 1) else (row s + 1, col s) in
    let c := if col_end s <? c then col_start s else c in
    set_cols (set_rows s r (row_start s) (row_end s)) c (col_start s) (col_end s)
  else
    let '(r, c) := if col_end s <? col s + 1 then (row s + 1, col_start s) else (row s, col s + 1) in
    let r := if row_end s <? r then row_start s else r in
    set_cols (set_rows s r (row_start s) (row_end s)) c (col_start s) (col_end s).

(** The words that a command waits for after itself; the macro [DATA]. *)
Definition data_needed (c : Z) : option Z :=
  match c with
  | 0x15 | 0x75 => Some 2
  | 0x81 | 0xa0 | 0xa1 | 0xa2 | 0xa8 | 0xad | 0xb1 | 0xb2 | 0xb3 | 0xbc | 0xbe | 0xbf => Some 1
  | 0x84 | 0x85 | 0x86 | 0xa4 | 0xa5 | 0xa6 | 0xa7 | 0xae | 0xaf | 0xe3 => Some 0
  | 0xb8 => Some 8
  | _ => None
  end.

(** The commands that have an effect. *)
Definition ssd0323_command (s : ssd0323_state) : res ssd0323_state :=
  match cmd s with
  | 0x15 => a ← aread (cmd_data s) 0; b ← aread (cmd_data s) 1; Ok (set_cols s (Z.rem a 64) (Z.rem a 64) (Z.rem b 64))
  | 0x75 => a ← aread (cmd_data s) 0; b ← aread (cmd_data s) 1; Ok (set_rows s (Z.rem a 80) (Z.rem a 80) (Z.rem b 80))
  | 0xa0 => a ← aread (cmd_data s) 0; Ok (set_remap s a)
  | _ => Ok s
  end.

Definition ssd0323_transfer (data : Z) (s : ssd0323_state) : res (Z * ssd0323_state) :=
  match mode s with
  | SSD0323_DATA =>
      fb ← awrite (framebuffer s) (col s + row s * 64) (Z.land data 0xff);
      Ok (0, set_picture (advance s) 1 fb)
  | SSD0323_CMD =>
      s ← (if cmd_len s =? 0 then Ok (set_command s (cmd_len s) data (cmd_data s))
           else d ← awrite (cmd_data s) (cmd_len s - 1) data; Ok (set_command s (cmd_len s) (cmd s) d));
      let s := set_command s (cmd_len s + 1) (cmd s) (cmd_data s) in
      if match data_needed (cmd s) with Some x => cmd_len s <=? x | None => false end then Ok (0, s) else
      s ← ssd0323_command s;
      Ok (0, set_command s 0 (cmd s) (cmd_data s))
  end.

#[global] Instance ssd0323_info : SSISlave ssd0323_state := { ssi_cb := ssd0323_transfer }.

Definition ssd0323_cd (level : Z) (s : ssd0323_state) : ssd0323_state := set_mode s (if truth level then SSD0323_DATA else SSD0323_CMD).
Definition ssd0323_invalidate_display (s : ssd0323_state) : ssd0323_state := set_picture s 1 (framebuffer s).

(** The state is zero when the device is made. *)
Definition ssd0323_init : ssd0323_state :=
  mkOled 0 0 (replicate 8 0) 0 0 79 0 0 63 0 0 SSD0323_CMD (replicate (128 * 80 / 2) 0).

(** ** Refresh *)

(** The bytes of grey level [i]; the fourth byte of a pixel is never set. *)
Definition grey_bytes (bpp i : Z) : list (option Z) :=
  let byte z := Some (Z.land z 0xff) in
  match bpp with
  | 15 => let n := i * 2 + Z.shiftr i 3 in [byte (Z.lor n (Z.shiftl n 5)); byte (Z.lor (Z.shiftl n 2) (Z.shiftr n 3))]
  | 16 => let n := i * 2 + Z.shiftr i 3 in
          [byte (Z.lor (Z.lor n (Z.shiftl n 6)) (Z.land (Z.shiftl n 1) 0x20)); byte (Z.lor (Z.shiftl n 3) (Z.shiftr n 2))]
  | _ => let n := Z.lor (Z.shiftl i 4) i in [byte n; byte n; byte n]
  end.

Fixpoint store_bytes {A} (l : list A) (tab : list A) (off : Z) : res (list A) :=
  match l with [] => Ok tab | b :: l => tab ← awrite tab off b; store_bytes l tab (off + 1) end.

Definition grey_table (bpp dest_width : Z) : res (list (option Z)) :=
  for_upto 16 (λ i tab, store_bytes (grey_bytes bpp i) tab (i * dest_width)) (replicate (Z.to_nat (MAGNIFY * 64)) None).

(** A pixel of level [val], magnified along the row. *)
Definition draw_pixel (colortab : list (option Z)) (dest_width val : Z) (dest : list (option Z)) : res (list (option Z)) :=
  for_upto MAGNIFY (λ _ dest, c ← copied colortab (val * dest_width) dest_width; Ok (dest ++ c)) dest.

Definition draw_row (s : ssd0323_state) (colortab : list (option Z)) (dest_width y : Z) (dest : list (option Z)) : res (list (option Z)) :=
  dest ← for_upto 64 (λ x dest,
           src ← aread (framebuffer s) (64 * y + x);
           dest ← draw_pixel colortab dest_width (Z.shiftr src 4) dest;
           draw_pixel colortab dest_width (Z.land src 0xf) dest) dest;
  for_upto (MAGNIFY - 1) (λ _ dest,
    c ← copied dest (Z.of_nat (length dest) - dest_width * MAGNIFY * 128) (dest_width * 128 * MAGNIFY); Ok (dest ++ c)) dest.

(** The surface gets [Some] bytes, or is left alone. *)
Definition ssd0323_update_display (bpp : Z) (s : ssd0323_state) : res (option (list (option Z)) * ssd0323_state) :=
  if redraw s =? 0 then Ok (None, s) else
  match bytes_per_pixel bpp with
  | None => Ok (None, s)
  | Some dest_width =>
      colortab ← grey_table bpp dest_width;
      dest ← for_upto 64 (draw_row s colortab dest_width) [];
      Ok (Some dest, set_picture s 0 (framebuffer s))
  end.

(** ** The device keeps its promise to the bus *)

(** The window lies in the frame buffer; a command in progress has room for its arguments. *)
Record oled_base (s : ssd0323_state) : Prop := {
  ok_args : length (cmd_data s) = 8%nat ∧ Forall (λ v, 0 <= v) (cmd_data s);
  ok_rows : 0 <= row s < 80 ∧ 0 <= row_start s < 80 ∧ 0 <= row_end s < 80;
  ok_cols : 0 <= col s < 64 ∧ 0 <= col_start s < 64 ∧ 0 <= col_end s < 64;
  ok_size : length (framebuffer s) = (128 * 80 / 2)%nat;
  ok_bytes : Forall (λ v, 0 <= v < 256) (framebuffer s);
}.
Definition pending_ok (s : ssd0323_state) : Prop := cmd_len s = 0 ∨ ∃ x, data_needed (cmd s) = Some x ∧ 0 <= cmd_len s <= x.
Definition oled_ok (s : ssd0323_state) : Prop := oled_base s ∧ pending_ok s.

Lemma needed_small c x : data_needed c = Some x → 0 <= x <= 8.
Proof. unfold data_needed. intros Hx. repeat case_match; simplify_eq; lia. Qed.

(** Moving on changes the place only. *)
Lemma advance_place s :
  ∃ r c, advance s = set_cols (set_rows s r (row_start s) (row_end s)) c (col_start s) (col_end s) ∧
    (oled_base s → 0 <= r < 80 ∧ 0 <= c < 64).
Proof.
  unfold advance. destruct (truth _).
  - destruct (Z.ltb_spec (row_end s) (row s + 1)); eexists _, _; (split; [reflexivity|]); intros []; repeat case_match; lia.
  - destruct (Z.ltb_spec (col_end s) (col s + 1)); eexists _, _; (split; [reflexivity|]); intros []; repeat case_match; lia.
Qed.

Lemma fb_length s : oled_base s → Z.of_nat (length (framebuffer s)) = 5120.
Proof. intros [_ _ _ Hl _]. by rewrite Hl. Qed.
Lemma place_range s : oled_base s → 0 <= col s + row s * 64 < Z.of_nat (length (framebuffer s)).
Proof. intros Hb. rewrite (fb_length s Hb). destruct Hb as [_ [Hr _] [Hc _] _ _]. lia. Qed.

Lemma base_command s l c d : oled_base s → length d = 8%nat → Forall (λ v, 0 <= v) d → oled_base (set_command s l c d).
Proof. intros [] H1 H2. by constructor. Qed.

Lemma oled_command_ok s : oled_base s → ∃ s', ssd0323_command s = Ok s' ∧ oled_base s'.
Proof.
  intros Hok. pose proof Hok as [[Hargs Hpos] Hrows Hcols Hsize Hbytes].
  destruct (aread_in (cmd_data s) 0) as [a Ha]; [lia|]. destruct (aread_in (cmd_data s) 1) as [b Hb]; [lia|].
  assert (0 <= a) as Ha0. { apply aread_lookup in Ha as [_ Ha]. by eapply (Forall_lookup_1 _ _ _ _ Hpos Ha). }
  assert (0 <= b) as Hb0. { apply aread_lookup in Hb as [_ Hb]. by eapply (Forall_lookup_1 _ _ _ _ Hpos Hb). }
  pose proof (Z.rem_bound_pos a 64 Ha0 ltac:(lia)). pose proof (Z.rem_bound_pos b 64 Hb0 ltac:(lia)).
  pose proof (Z.rem_bound_pos a 80 Ha0 ltac:(lia)). pose proof (Z.rem_bound_pos b 80 Hb0 ltac:(lia)).
  unfold ssd0323_command. rewrite Ha, Hb. cbn [mbind res_bind].
  repeat case_match; try (by exists s); eexists; (split; [reflexivity|]); by constructor.
Qed.

(** The word of a command or of an argument is stored. *)
Lemma store_word v s :
  oled_ok s → 0 <= v →
  ∃ c d, (if cmd_len s =? 0 then Ok (set_command s (cmd_len s) v (cmd_data s))
          else d ← awrite (cmd_data s) (cmd_len s - 1) v; Ok (set_command s (cmd_len s) (cmd s) d)) = Ok (set_command s (cmd_len s) c d) ∧
    length d = 8%nat ∧ Forall (λ v, 0 <= v) d.
Proof.
  intros [[[Hargs Hpos] _ _ _ _] Hpend] Hv. destruct (Z.eqb_spec (cmd_len s) 0) as [|Hne]; [by exists v, (cmd_data s)|].
  destruct Hpend as [|(x & Hx & Hle)]; [done|]. pose proof (needed_small _ _ Hx). rewrite awrite_in by lia. cbn [mbind res_bind].
  eexists _, _. split; [done|]. rewrite length_insert. split; [done|]. by apply Forall_insert.
Qed.

Lemma ssd0323_transfer_ok v s : oled_ok s → 0 <= v < 2 ^ 16 → ∃ r s', ssd0323_transfer v s = Ok (r, s') ∧ oled_ok s'.
Proof.
  intros Hok Hv. pose proof Hok as [Hb Hp]. unfold ssd0323_transfer. destruct (mode s) eqn:Hm.
  - destruct (store_word v s Hok ltac:(lia)) as (c & d & -> & Hd & Hpos). cbn [mbind res_bind]. cbv zeta.
    set (s0 := set_command s (cmd_len s) c d). change (set_command s0 (cmd_len s0 + 1) (cmd s0) (cmd_data s0)) with (set_command s (cmd_len s + 1) c d).
    clear s0. pose proof (base_command s (cmd_len s + 1) c d Hb Hd Hpos) as Hb1.
    change (cmd (set_command s (cmd_len s + 1) c d)) with c. change (cmd_len (set_command s (cmd_len s + 1) c d)) with (cmd_len s + 1).
    destruct (match data_needed c with Some x => cmd_len s + 1 <=? x | None => false end) eqn:Hwait.
    + eexists _, _. split; [reflexivity|]. split; [done|]. right. destruct (data_needed c) as [x|] eqn:Hx; [|done]. apply Z.leb_le in Hwait.
      exists x. split; [done|]. change (0 <= cmd_len s + 1 <= x). destruct Hp as [Hz|(y & Hy & ?)]; lia.
    + destruct (oled_command_ok _ Hb1) as (s' & -> & Hb'). eexists _, _. split; [reflexivity|]. split; [|by left].
      by destruct Hb' as [[??] ????]; apply base_command.
  - rewrite awrite_in by by apply place_range. cbn [mbind res_bind]. eexists _, _. split; [reflexivity|].
    destruct (advance_place s) as (r & c & -> & Hrc). specialize (Hrc Hb). destruct Hb as [? [??] [??] Hl Hf]. split; [|done].
    constructor; cbn [set_picture set_cols set_rows cmd_data row row_start row_end col col_start col_end framebuffer]; [done|naive_solver|naive_solver| |].
    + by rewrite length_insert.
    + apply Forall_insert; [done|]. pose proof (land_low v 8 ltac:(lia)). done.
Qed.

#[global] Instance ssd0323_laws : SSISlaveLaws ssd0323_state oled_ok.
Proof. split. intros v s Hok Hv. by apply ssd0323_transfer_ok. Qed.

Lemma ssd0323_cd_ok level s : oled_ok s → oled_ok (ssd0323_cd level s).
Proof. intros [[] Hp]. split; [by constructor|done]. Qed.

Lemma ssd0323_init_ok : oled_ok ssd0323_init.
Proof. split; [|by left]. constructor; try done; [split; [done|]|]; by apply Forall_replicate. Qed.

(** ** What a refresh shows *)

(** The level of the pixel at column [p], line [y]: the high half of a byte is the left
    pixel. *)
Definition level (s : ssd0323_state) (y p : nat) : Z :=
  match framebuffer s !! (64 * y + p / 2)%nat with
  | Some b => if Nat.even p then Z.shiftr b 4 else Z.land b 0xf
  | None => 0
  end.

(** The colour of a level: the same in red, green and blue, in the format of the depth. *)
Definition grey_word (bpp i : Z) : Z :=
  let n := i * 2 + Z.shiftr i 3 in
  match bpp with
  | 15 => n + Z.shiftl n 5 + Z.shiftl n 10
  | 16 => n + Z.shiftl (Z.shiftl n 1 + Z.shiftr n 4) 5 + Z.shiftl n 11
  | _ => i * 0x111111
  end.

(** The bytes of a pixel on the surface. *)
Definition grey_block (bpp i : Z) : list (option Z) := grey_bytes bpp i ++ (if bpp =? 32 then [None] else []).

Definition table_right (bpp : Z) : bool :=
  match bytes_per_pixel bpp with
  | None => false
  | Some n =>
      match grey_table bpp n with
      | Err _ => false
      | Ok tab =>
          forallb (λ i, bool_decide (copied tab (Z.of_nat i * n) n = Ok (grey_block bpp (Z.of_nat i))) &&
            bool_decide (length (grey_block bpp (Z.of_nat i)) = Z.to_nat n) &&
            forallb (λ c, bool_decide (grey_block bpp (Z.of_nat i) !! c =
               Some (Some (Z.land (Z.shiftr (grey_word bpp (Z.of_nat i)) (8 * Z.of_nat c)) 0xff)))) (seq 0 (Nat.min 3 (Z.to_nat n)))) (seq 0 16)
      end
  end.

Lemma tables_right bpp n : bytes_per_pixel bpp = Some n → table_right bpp = true.
Proof. unfold bytes_per_pixel. intros Hn. assert (bpp = 15 ∨ bpp = 16 ∨ bpp = 24 ∨ bpp = 32) as [->|[->|[->| ->]]] by (repeat case_match; simplify_eq; auto); vm_compute; reflexivity. Qed.

Lemma grey_table_spec bpp n :
  bytes_per_pixel bpp = Some n →
  ∃ tab, grey_table bpp n = Ok tab ∧
    ∀ i, 0 <= i < 16 → copied tab (i * n) n = Ok (grey_block bpp i) ∧ length (grey_block bpp i) = Z.to_nat n ∧
      ∀ c, (c < 3)%nat → (c < Z.to_nat n)%nat →
        grey_block bpp i !! c = Some (Some (Z.land (Z.shiftr (grey_word bpp i) (8 * Z.of_nat c)) 0xff)).
Proof.
  intros Hn. pose proof (tables_right bpp n Hn) as Ht. unfold table_right in Ht. rewrite Hn in Ht.
  destruct (grey_table bpp n) as [tab|]; [|done]. exists tab. split; [done|]. intros i Hi. rewrite forallb_forall in Ht.
  specialize (Ht (Z.to_nat i) ltac:(apply in_seq; lia)). rewrite Z2Nat.id in Ht by lia. apply andb_true_iff in Ht as [Ht H3].
  apply andb_true_iff in Ht as [H1 H2]. apply bool_decide_eq_true in H1, H2. split_and!; [done|done|]. intros c Hc3 Hcn.
  rewrite forallb_forall in H3. specialize (H3 c ltac:(apply in_seq; lia)). by apply bool_decide_eq_true in H3.
Qed.

Section screen.
Context (s : ssd0323_state) (colortab : list (option Z)) (w : nat) (blk : Z → list (option Z)).
Context (Hok : oled_base s).
Context (Hblk : ∀ i, 0 <= i < 16 → copied colortab (i * Z.of_nat w) (Z.of_nat w) = Ok (blk i) ∧ length (blk i) = w).

Definition px (y p : nat) : list (option Z) := concat ((λ _ : nat, blk (level s y p)) <$> seq 0 4).
Definition row_cells (y : nat) : list (option Z) := concat (px y <$> seq 0 128).
Definition screen : list (option Z) := concat ((λ y, concat ((λ _ : nat, row_cells y) <$> seq 0 4)) <$> seq 0 64).

Lemma level_range y p : 0 <= level s y p < 16.
Proof.
  unfold level. destruct (framebuffer s !! _) as [b|] eqn:Hb; [|lia]. pose proof (Forall_lookup_1 _ _ _ _ (ok_bytes _ Hok) Hb) as Hr. cbn in Hr.
  destruct (Nat.even p).
  - rewrite Z.shiftr_div_pow2 by lia. change (2 ^ 4) with 16. split; [apply Z.div_pos; lia|apply Z.div_lt_upper_bound; lia].
  - pose proof (land_low b 4 ltac:(lia)). done.
Qed.

Lemma draw_pixel_spec v dest :
  0 <= v < 16 → draw_pixel colortab (Z.of_nat w) v dest = Ok (dest ++ concat ((λ _ : nat, blk v) <$> seq 0 4)).
Proof using Hblk.
  intros Hv. unfold draw_pixel. replace dest with (dest ++ concat ((λ _ : nat, blk v) <$> seq 0 0)) at 1 by apply app_nil_r.
  rewrite (for_upto_spec _ (λ j, dest ++ concat ((λ _ : nat, blk v) <$> seq 0 j)) MAGNIFY); [done|].
  intros j _. rewrite (proj1 (Hblk v Hv)). cbn [mbind res_bind]. by rewrite (concat_S _ j), app_assoc.
Qed.

Lemma length_px y p : length (px y p) = (4 * w)%nat.
Proof using Hok Hblk. apply concat_length. intros. apply Hblk, level_range. Qed.
Lemma length_row_cells y : length (row_cells y) = (128 * (4 * w))%nat.
Proof using Hok Hblk. apply concat_length. intros. apply length_px. Qed.

Lemma draw_row_spec y dest :
  (y < 64)%nat → draw_row s colortab (Z.of_nat w) (Z.of_nat y) dest = Ok (dest ++ concat ((λ _ : nat, row_cells y) <$> seq 0 4)).
Proof using Hok Hblk.
  intros Hy. unfold draw_row. replace dest with (dest ++ concat (px y <$> seq 0 (2 * 0))) at 1 by apply app_nil_r.
  rewrite (for_upto_spec _ (λ j, dest ++ concat (px y <$> seq 0 (2 * j))) 64); last first.
  { intros j Hj. destruct (lookup_lt_is_Some_2 (framebuffer s) (64 * y + j)%nat) as [b Hb].
    { pose proof (fb_length _ Hok). lia. }
    assert (level s y (2 * j) = Z.shiftr b 4 ∧ level s y (S (2 * j)) = Z.land b 0xf) as [L0 L1].
    { unfold level. rewrite Nat.even_succ, <- Nat.negb_even, Nat.even_mul. cbn [Nat.even orb negb].
      replace (2 * j / 2)%nat with j by (apply (Nat.div_unique _ 2 j 0); lia).
      replace (S (2 * j) / 2)%nat with j by (apply (Nat.div_unique _ 2 j 1); lia).
      by rewrite Hb. }
    replace (64 * Z.of_nat y + Z.of_nat j) with (Z.of_nat (64 * y + j)) by lia. rewrite (aread_nat _ _ _ Hb). cbn [mbind res_bind].
    rewrite draw_pixel_spec by (rewrite <- L0; apply level_range). cbn [mbind res_bind].
    rewrite draw_pixel_spec by (rewrite <- L1; apply level_range).
    replace (2 * S j)%nat with (S (S (2 * j))) by lia. rewrite (concat_S _ (S (2 * j))), (concat_S _ (2 * j)), !app_assoc.
    unfold px at 3 4. by rewrite L0, L1. }
  cbn [mbind res_bind]. change (2 * Z.to_nat 64)%nat with 128%nat. fold (row_cells y). pose proof (length_row_cells y) as Hr.
  replace (dest ++ row_cells y) with (dest ++ concat ((λ _ : nat, row_cells y) <$> seq 0 1)) by (cbn; by rewrite app_nil_r).
  rewrite (for_upto_spec _ (λ j, dest ++ concat ((λ _ : nat, row_cells y) <$> seq 0 (S j))) (MAGNIFY - 1)); [done|].
  intros j Hj. replace (Z.of_nat w * MAGNIFY * 128) with (Z.of_nat w * 128 * MAGNIFY) by lia.
  rewrite (concat_S _ j), app_assoc, copied_last by (rewrite Hr; unfold MAGNIFY; lia). cbn [mbind res_bind].
  by rewrite (concat_S _ (S j)), (concat_S _ j), !app_assoc.
Qed.

Lemma draw_rows_spec : for_upto 64 (draw_row s colortab (Z.of_nat w)) [] = Ok screen.
Proof using Hok Hblk.
  change (@nil (option Z)) with (concat ((λ y, concat ((λ _ : nat, row_cells y) <$> seq 0 4)) <$> seq 0 0)).
  rewrite (for_upto_spec (draw_row s colortab (Z.of_nat w))
    (λ j, concat ((λ y, concat ((λ _ : nat, row_cells y) <$> seq 0 4)) <$> seq 0 j)) 64); [done|].
  intros j Hj. rewrite draw_row_spec by lia. by rewrite (concat_S _ j).
Qed.

Lemma length_rows y : length (concat ((λ _ : nat, row_cells y) <$> seq 0 4)) = (4 * (128 * (4 * w)))%nat.
Proof using Hok Hblk. apply concat_length. intros. apply length_row_cells. Qed.
Lemma oled_screen_length : length screen = (64 * (4 * (128 * (4 * w))))%nat.
Proof using Hok Hblk. apply concat_length. intros. apply length_rows. Qed.

Lemma oled_screen_lookup y v p u c :
  (y < 64)%nat → (v < 4)%nat → (p < 128)%nat → (u < 4)%nat → (c < w)%nat →
  screen !! (y * (4 * (128 * (4 * w))) + (v * (128 * (4 * w)) + (p * (4 * w) + (u * w + c))))%nat = blk (level s y p) !! c.
Proof using Hok Hblk.
  intros Hy Hv Hp Hu Hc. assert (u * w + c < 4 * w)%nat by nia. assert (p * (4 * w) + (u * w + c) < 128 * (4 * w))%nat by nia.
  unfold screen. rewrite (concat_lookup _ 64 (4 * (128 * (4 * w)))) by (try (intros; apply length_rows); nia).
  rewrite (concat_lookup _ 4 (128 * (4 * w))) by (try (intros; apply length_row_cells); nia).
  unfold row_cells. rewrite (concat_lookup _ 128 (4 * w)) by (try (intros; apply length_px); nia).
  unfold px. by rewrite (concat_lookup _ 4 w) by (try (intros; apply Hblk, level_range); nia).
Qed.
End screen.

(** A refresh that is due fills a surface of 512 by 256 pixels, each with the grey level of
    the pixel of the panel that it magnifies. *)
Theorem refresh_shows_levels bpp n s :
  oled_base s → redraw s ≠ 0 → bytes_per_pixel bpp = Some n →
  ∃ dest, ssd0323_update_display bpp s = Ok (Some dest, set_picture s 0 (framebuffer s)) ∧ Z.of_nat (length dest) = 256 * (512 * n) ∧
    ∀ Y X c, (Y < 256)%nat → (X < 512)%nat → (c < 3)%nat → (c < Z.to_nat n)%nat →
      dest !! ((Y * 512 + X) * Z.to_nat n + c)%nat =
        Some (Some (Z.land (Z.shiftr (grey_word bpp (level s (Y / 4) (X / 4))) (8 * Z.of_nat c)) 0xff)).
Proof.
  intros Hok Hr Hn. destruct (grey_table_spec bpp n Hn) as (tab & Htab & Hblk).
  assert (0 < n) as Hpos by (unfold bytes_per_pixel in Hn; repeat case_match; simplify_eq; lia).
  set (w := Z.to_nat n) in *. assert (Z.of_nat w = n) as Hw by lia.
  assert (∀ i, 0 <= i < 16 → copied tab (i * Z.of_nat w) (Z.of_nat w) = Ok (grey_block bpp i) ∧ length (grey_block bpp i) = w) as Hb.
  { intros i Hi. rewrite Hw. destruct (Hblk i Hi) as (H1 & H2 & _). done. }
  exists (screen s (grey_block bpp)). split_and!.
  - unfold ssd0323_update_display. rewrite (proj2 (Z.eqb_neq _ _) Hr), Hn, Htab. cbn [mbind res_bind]. rewrite <- Hw.
    by rewrite (draw_rows_spec s tab w (grey_block bpp) Hok Hb).
  - rewrite (oled_screen_length s tab w _ Hok Hb). lia.
  - intros Y X c HY HX Hc3 Hc.
    pose proof (Nat.div_mod_eq Y 4) as EY. pose proof (Nat.div_mod_eq X 4) as EX.
    pose proof (Nat.mod_upper_bound Y 4 ltac:(lia)) as MY. pose proof (Nat.mod_upper_bound X 4 ltac:(lia)) as MX.
    replace ((Y * 512 + X) * w + c)%nat
      with (Y / 4 * (4 * (128 * (4 * w))) + (Y mod 4 * (128 * (4 * w)) + (X / 4 * (4 * w) + (X mod 4 * w + c))))%nat by nia.
    rewrite (oled_screen_lookup s tab w _ Hok Hb); [|apply Nat.Div0.div_lt_upper_bound; lia|done|apply Nat.Div0.div_lt_upper_bound; lia|done|done].
    by apply Hblk; [apply level_range|..].
Qed.

(** ** Drawing in a window *)

(** The words as the device gets them, one by one. *)
Fixpoint oled_words (vs : list Z) (s : ssd0323_state) : res ssd0323_state :=
  match vs with [] => Ok s | v :: vs => '(_, s) ← ssd0323_transfer v s; oled_words vs s end.

(** The line for command and data alone changes the mode. *)
Lemma transfer_mode v s r s' : ssd0323_transfer v s = Ok (r, s') → mode s' = mode s.
Proof.
  unfold ssd0323_transfer. destruct (mode s) eqn:Hm.
  - destruct (if cmd_len s =? 0 then _ else _) as [s1|] eqn:H1; [|done]. cbn [mbind res_bind]. cbv zeta.
    assert (mode s1 = SSD0323_CMD) as Hm1.
    { destruct (cmd_len s =? 0); [by injection H1 as <-|]. destruct (awrite _ _ _); [|done]. by injection H1 as <-. }
    intros Hs. destruct (match data_needed _ with Some x => _ | None => _ end); [by injection Hs as <- <-|].
    unfold ssd0323_command in Hs. cbn [cmd set_command] in Hs. repeat case_match; try done; simplify_eq; try (injection Hs as <- <-; done);
      destruct (aread _ 0); try done; cbn [mbind res_bind] in Hs; try (destruct (aread _ 1); [|done]); cbn [mbind res_bind] in Hs; by injection Hs as <- <-.
  - destruct (awrite _ _ _); [|done]. cbn [mbind res_bind]. intros [= <- <-]. destruct (advance_place s) as (r' & c' & -> & _). done.
Qed.

(** A window of [w] bytes by [h] rows at column [c0], row [r0]; the place of its [k]-th
    byte, and a picture after the bytes [data] from the [k]-th on. *)
Definition place (c0 r0 w k : nat) : nat := (c0 + k mod w + (r0 + k / w) * 64)%nat.
Fixpoint paint (c0 r0 w k : nat) (data : list Z) (fb : list Z) : list Z :=
  match data with [] => fb | d :: data => paint c0 r0 w (S k) data (<[place c0 r0 w k := d]> fb) end.

(** The state in which the [k]-th byte is next. *)
Record in_window_at (s : ssd0323_state) (c0 r0 w h k : nat) : Prop := {
  iw_mode : mode s = SSD0323_DATA;
  iw_horizontal : truth (Z.land (remap s) REMAP_VERTICAL) = false;
  iw_cols : col_start s = Z.of_nat c0 ∧ col_end s = Z.of_nat (c0 + w) - 1;
  iw_rows : row_start s = Z.of_nat r0 ∧ row_end s = Z.of_nat (r0 + h) - 1;
  iw_col : col s = Z.of_nat (c0 + k mod w);
  iw_row : row s = Z.of_nat (r0 + k / w);
}.

Lemma div_mod_next k w :
  (0 < w)%nat →
  (k mod w + 1 < w ∧ S k mod w = S (k mod w) ∧ S k / w = k / w)%nat ∨ (k mod w + 1 = w ∧ S k mod w = 0 ∧ S k / w = S (k / w))%nat.
Proof.
  intros Hw. pose proof (Nat.div_mod_eq k w) as E. pose proof (Nat.mod_upper_bound k w ltac:(lia)) as U.
  destruct (decide (k mod w + 1 = w)%nat) as [He|Hne].
  - right. assert (S k / w = S (k / w))%nat as Hd by (symmetry; apply (Nat.div_unique _ w _ 0); lia).
    split_and!; [done| |done]. pose proof (Nat.div_mod_eq (S k) w). rewrite Hd in *. lia.
  - left. assert (S k / w = k / w)%nat as Hd by (symmetry; apply (Nat.div_unique _ w _ (S (k mod w))); lia).
    split_and!; [lia| |done]. pose proof (Nat.div_mod_eq (S k) w). rewrite Hd in *. lia.
Qed.

(** One byte, when another follows in the window. *)
Lemma paint_byte s c0 r0 w h k v :
  oled_base s → in_window_at s c0 r0 w h k → (0 < w)%nat → (k / w < h)%nat → 0 <= v < 256 →
  ∃ s', ssd0323_transfer v s = Ok (0, s') ∧ framebuffer s' = <[place c0 r0 w k := v]> (framebuffer s) ∧ redraw s' = 1 ∧
    ((S k / w < h)%nat → in_window_at s' c0 r0 w h (S k)).
Proof.
  intros Hb [Hm Hv [Hcs Hce] [Hrs Hre] Hc Hr] Hw Hk Hd. unfold ssd0323_transfer. rewrite Hm, awrite_in by by apply place_range.
  cbn [mbind res_bind]. eexists. split; [reflexivity|]. split_and!.
  - cbn [set_picture framebuffer]. rewrite Hc, Hr. change 0xff with (2 ^ 8 - 1). rewrite land_mod, Z.mod_small by lia. f_equal. unfold place. lia.
  - done.
  - intros Hnext. unfold advance. rewrite Hv.
    destruct (div_mod_next k w Hw) as [(H1 & H2 & H3)|(H1 & H2 & H3)].
    + rewrite (proj2 (Z.ltb_ge _ _)) by lia. rewrite (proj2 (Z.ltb_ge _ _)) by lia. constructor; cbn; auto; lia.
    + rewrite (proj2 (Z.ltb_lt _ _)) by lia. rewrite (proj2 (Z.ltb_ge _ _)) by lia. constructor; cbn; auto; lia.
Qed.

Lemma paint_bytes data s c0 r0 w h k :
  oled_ok s → in_window_at s c0 r0 w h k → (0 < w)%nat → (k + length data <= w * h)%nat → Forall (λ v, 0 <= v < 256) data →
  ∃ s', oled_words data s = Ok s' ∧ oled_ok s' ∧ framebuffer s' = paint c0 r0 w k data (framebuffer s) ∧ (data ≠ [] → redraw s' ≠ 0).
Proof.
  intros Hok Hwin Hw Hlen Hd. revert s k Hok Hwin Hlen. induction Hd as [|v data Hv Hd IH]; intros s k Hok Hwin Hlen; [by exists s|].
  cbn [length] in Hlen. assert (k / w < h)%nat as Hk by (apply Nat.Div0.div_lt_upper_bound; lia).
  destruct (paint_byte s c0 r0 w h k v (proj1 Hok) Hwin Hw Hk Hv) as (s1 & Hs1 & Hfb1 & Hr1 & Hwin1).
  destruct (ssd0323_transfer_ok v s Hok ltac:(lia)) as (r & s1' & Hs1' & Hok1). rewrite Hs1 in Hs1'. injection Hs1' as <- <-.
  cbn [oled_words]. rewrite Hs1. cbn [mbind res_bind]. destruct data as [|v2 data].
  - exists s1. split_and!; [done|done| |by rewrite Hr1]. by cbn [paint].
  - assert (S k / w < h)%nat as Hk1 by (apply Nat.Div0.div_lt_upper_bound; cbn [length] in Hlen; lia).
    destruct (IH s1 (S k) Hok1 (Hwin1 Hk1) ltac:(lia)) as (s' & Hs' & Hok' & Hfb & Hr'). exists s'. split_and!; [done|done| |by auto].
    rewrite Hfb, Hfb1. done.
Qed.

(** Different bytes of the window lie at different places. *)
Lemma place_inj c0 r0 w j k : (0 < w)%nat → (c0 + w <= 64)%nat → place c0 r0 w j = place c0 r0 w k → j = k.
Proof.
  intros Hw Hc. unfold place. intros E. pose proof (Nat.mod_upper_bound j w ltac:(lia)). pose proof (Nat.mod_upper_bound k w ltac:(lia)).
  assert (j / w = k / w ∧ j mod w = k mod w)%nat as [E1 E2] by lia. rewrite (Nat.div_mod_eq j w), (Nat.div_mod_eq k w), E1, E2. done.
Qed.

Lemma paint_length c0 r0 w k data fb : length (paint c0 r0 w k data fb) = length fb.
Proof. revert k fb. induction data as [|d data IH]; intros k fb; [done|]. cbn [paint]. by rewrite IH, length_insert. Qed.

Lemma paint_outside c0 r0 w k data fb i :
  (∀ j, (k <= j < k + length data)%nat → place c0 r0 w j ≠ i) → paint c0 r0 w k data fb !! i = fb !! i.
Proof.
  revert k fb. induction data as [|d data IH]; intros k fb Hi; [done|]. cbn [paint length] in *.
  rewrite IH by (intros j Hj; apply Hi; lia). rewrite list_lookup_insert_ne; [done|]. apply Hi. lia.
Qed.

Lemma paint_inside c0 r0 w k data fb j v :
  (0 < w)%nat → (c0 + w <= 64)%nat → (place c0 r0 w (k + j) < length fb)%nat → data !! j = Some v →
  paint c0 r0 w k data fb !! place c0 r0 w (k + j) = Some v.
Proof.
  intros Hw Hc. revert k j fb. induction data as [|d data IH]; intros k j fb Hl Hj; [done|]. cbn [paint]. destruct j as [|j].
  - injection Hj as ->. rewrite Nat.add_0_r in *. rewrite paint_outside; [by apply list_lookup_insert_eq|].
    intros j Hj E. apply place_inj in E; [lia|done|done].
  - replace (k + S j)%nat with (S k + j)%nat in * by lia. apply IH; [by rewrite length_insert|done].
Qed.

(** The level of a pixel after the window is drawn: the byte of the window, or what was
    there. *)
Definition drawn (s : ssd0323_state) (c0 r0 w : nat) (data : list Z) (y p : nat) : Z :=
  if decide (c0 <= p / 2 < c0 + w ∧ r0 <= y)%nat then
    match data !! ((y - r0) * w + (p / 2 - c0))%nat with
    | Some b => if Nat.even p then Z.shiftr b 4 else Z.land b 0xf
    | None => level s y p
    end
  else level s y p.

Lemma level_drawn s s' c0 r0 w data y p :
  oled_base s → (0 < w)%nat → (c0 + w <= 64)%nat → (y < 80)%nat → (p < 128)%nat →
  framebuffer s' = paint c0 r0 w 0 data (framebuffer s) → level s' y p = drawn s c0 r0 w data y p.
Proof.
  intros Hok Hw Hc Hy Hp Hfb. unfold drawn. assert (p / 2 < 64)%nat as Hq by (apply Nat.Div0.div_lt_upper_bound; lia).
  assert (∀ j, place c0 r0 w j = (64 * y + p / 2)%nat → (c0 <= p / 2 < c0 + w ∧ r0 <= y ∧ j = (y - r0) * w + (p / 2 - c0)))%nat as Hplace.
  { intros j E. unfold place in E. pose proof (Nat.mod_upper_bound j w ltac:(lia)).
    assert (c0 + j mod w = p / 2 ∧ r0 + j / w = y)%nat as [E1 E2] by lia. split_and!; try lia. rewrite (Nat.div_mod_eq j w). nia. }
  destruct (decide _) as [[Hcol Hrow]|Hout].
  - set (k := ((y - r0) * w + (p / 2 - c0))%nat).
    assert (k / w = y - r0 ∧ k mod w = p / 2 - c0)%nat as [Ek1 Ek2].
    { unfold k. rewrite (Nat.add_comm (_ * w)), Nat.div_add, Nat.Div0.mod_add, Nat.div_small, Nat.mod_small by lia. lia. }
    assert (place c0 r0 w k = 64 * y + p / 2)%nat as Ek by (unfold place; lia).
    unfold level. rewrite Hfb, <- Ek. destruct (data !! k) as [b|] eqn:Hb.
    + pose proof (fb_length _ Hok). by rewrite (paint_inside c0 r0 w 0 data _ k b) by (done || (cbn [Nat.add]; rewrite Ek; lia)).
    + rewrite paint_outside; [by rewrite Ek|]. intros j Hj E. apply place_inj in E; [|done|done]. subst j.
      apply lookup_ge_None_1 in Hb. lia.
  - unfold level. rewrite Hfb, paint_outside; [done|]. intros j _ E. apply Hplace in E. tauto.
Qed.

(** The words that set the window. *)
Definition window_words (c0 r0 w h : nat) : list Z :=
  [0xa0; 0; 0x15; Z.of_nat c0; Z.of_nat (c0 + w) - 1; 0x75; Z.of_nat r0; Z.of_nat (r0 + h) - 1].

(** A command with one or two arguments that has an effect. *)
Lemma send_command2 (f : ssd0323_state → Z → Z → Z → ssd0323_state) c m a b vs s :
  (c = 0x15 ∧ f = set_cols ∧ m = 64) ∨ (c = 0x75 ∧ f = set_rows ∧ m = 80) →
  mode s = SSD0323_CMD → cmd_len s = 0 → length (cmd_data s) = 8%nat →
  oled_words (c :: a :: b :: vs) s =
    oled_words vs (set_command (f s (Z.rem a m) (Z.rem a m) (Z.rem b m)) 0 c (<[1%nat := b]> (<[0%nat := a]> (cmd_data s)))).
Proof.
  intros Hc. destruct s as [l c' d ro rs re co cs ce rd rm mo fb]. cbn [mode cmd_len cmd_data]. intros -> -> Hd.
  do 8 (destruct d as [|? d]; [done|]). destruct d; [|done]. destruct Hc as [(-> & -> & ->)|(-> & -> & ->)]; reflexivity.
Qed.
Lemma send_remap a vs s :
  mode s = SSD0323_CMD → cmd_len s = 0 → length (cmd_data s) = 8%nat →
  oled_words (0xa0 :: a :: vs) s = oled_words vs (set_command (set_remap s a) 0 0xa0 (<[0%nat := a]> (cmd_data s))).
Proof.
  destruct s as [l c' d ro rs re co cs ce rd rm mo fb]. cbn [mode cmd_len cmd_data]. intros -> -> Hd.
  do 8 (destruct d as [|? d]; [done|]). destruct d; [|done]. reflexivity.
Qed.

Lemma set_window c0 r0 w h s :
  oled_ok s → mode s = SSD0323_CMD → cmd_len s = 0 → (0 < w)%nat → (c0 + w <= 64)%nat → (0 < h)%nat → (r0 + h <= 80)%nat →
  ∃ s', oled_words (window_words c0 r0 w h) s = Ok s' ∧ oled_ok s' ∧ framebuffer s' = framebuffer s ∧ redraw s' = redraw s ∧
    in_window_at (ssd0323_cd 1 s') c0 r0 w h 0 ∧ mode s' = SSD0323_CMD ∧ cmd_len s' = 0.
Proof.
  intros [Hbase Hp] Hm Hz Hw Hc Hh Hr. pose proof (ok_args _ Hbase) as [Ha Hpos].
  pose proof (Z.rem_small (Z.of_nat c0) 64 ltac:(lia)) as R1. pose proof (Z.rem_small (Z.of_nat (c0 + w) - 1) 64 ltac:(lia)) as R2.
  pose proof (Z.rem_small (Z.of_nat r0) 80 ltac:(lia)) as R3. pose proof (Z.rem_small (Z.of_nat (r0 + h) - 1) 80 ltac:(lia)) as R4.
  unfold window_words. rewrite send_remap by done. rewrite (send_command2 set_cols 0x15 64); [|by left|done|done|cbn [set_remap set_command cmd_data]; by rewrite ?length_insert].
  
  rewrite (send_command2 set_rows 0x75 80); [|by right|done|done|cbn [set_remap set_cols set_command cmd_data]; by rewrite ?length_insert].
  rewrite R1, R2, R3, R4.
  eexists. split; [reflexivity|]. split_and!; try done.
  - split; [|by left]. destruct Hbase as [_ Hrows Hcols Hl Hb].
    constructor; cbn [set_rows set_cols set_remap set_command cmd_data row row_start row_end col col_start col_end framebuffer]; [|lia|lia|done|done].
    rewrite !length_insert. split; [done|]. repeat (apply Forall_insert; [|lia]). done.
  - constructor; cbn [ssd0323_cd set_mode set_rows set_cols set_remap set_command mode remap row row_start row_end col col_start col_end]; try done;
      by rewrite ?Nat.Div0.mod_0_l, ?Nat.Div0.div_0_l, Nat.add_0_r.
Qed.
