(* ===== verification/Pl061.v ===== *)
(** * Pl061: general purpose I/O and the gamepad (hw/pl061.c, hw/stellaris_input.c)

    A port of 8 pins with masked access to its data, and the buttons of the evaluation
    board, which are wired to such pins.  An operation returns the lines that it sets, in
    their order. *)

From S2P Require Import Prelude.
Local Open Scope Z_scope.

Definition pl061_id : list Z := [0x00; 0x00; 0x00; 0x00; 0x61; 0x10; 0x04; 0x00; 0x0d; 0xf0; 0x05; 0xb1].
Definition pl061_id_luminary : list Z := [0x00; 0x00; 0x00; 0x00; 0x61; 0x00; 0x18; 0x01; 0x0d; 0xf0; 0x05; 0xb1].

Record pl061_state := mkGpio {
  locked : Z;
  data : Z;
  old_data : Z;
  dir : Z;
  isense : Z;
  ibe : Z;
  iev : Z;
  im : Z;
  istate : Z;
  afsel : Z;
  dr2r : Z;
  dr4r : Z;
  dr8r : Z;
  odr : Z;
  pur : Z;
  pdr : Z;
  slr : Z;
  den : Z;
  cr : Z;
}.

Definition set_locked (s : pl061_state) (v : Z) : pl061_state :=
  mkGpio v (data s) (old_data s) (dir s) (isense s) (ibe s) (iev s) (im s) (istate s) (afsel s) (dr2r s) (dr4r s) (dr8r s) (odr s) (pur s) (pdr s) (slr s) (den s) (cr s).
Definition set_data (s : pl061_state) (v : Z) : pl061_state :=
  mkGpio (locked s) v (old_data s) (dir s) (isense s) (ibe s) (iev s) (im s) (istate s) (afsel s) (dr2r s) (dr4r s) (dr8r s) (odr s) (pur s) (pdr s) (slr s) (den s) (cr s).
Definition set_old_data (s : pl061_state) (v : Z) : pl061_state :=
  mkGpio (locked s) (data s) v (dir s) (isense s) (ibe s) (iev s) (im s) (istate s) (afsel s) (dr2r s) (dr4r s) (dr8r s) (odr s) (pur s) (pdr s) (slr s) (den s) (cr s).
Definition set_dir (s : pl061_state) (v : Z) : pl061_state :=
  mkGpio (locked s) (data s) (old_data s) v (isense s) (ibe s) (iev s) (im s) (istate s) (afsel s) (dr2r s) (dr4r s) (dr8r s) (odr s) (pur s) (pdr s) (slr s) (den s) (cr s).
Definition set_isense (s : pl061_state) (v : Z) : pl061_state :=
  mkGpio (locked s) (data s) (old_data s) (dir s) v (ibe s) (iev s) (im s) (istate s) (afsel s) (dr2r s) (dr4r s) (dr8r s) (odr s) (pur s) (pdr s) (slr s) (den s) (cr s).
Definition set_ibe (s : pl061_state) (v : Z) : pl061_state :=
  mkGpio (locked s) (data s) (old_data s) (dir s) (isense s) v (iev s) (im s) (istate s) (afsel s) (dr2r s) (dr4r s) (dr8r s) (odr s) (pur s) (pdr s) (slr s) (den s) (cr s).
Definition set_iev (s : pl061_state) (v : Z) : pl061_state :=
  mkGpio (locked s) (data s) (old_data s) (dir s) (isense s) (ibe s) v (im s) (istate s) (afsel s) (dr2r s) (dr4r s) (dr8r s) (odr s) (pur s) (pdr s) (slr s) (den s) (cr s).
Definition set_im (s : pl061_state) (v : Z) : pl061_state :=
  mkGpio (locked s) (data s) (old_data s) (dir s) (isense s) (ibe s) (iev s) v (istate s) (afsel s) (dr2r s) (dr4r s) (dr8r s) (odr s) (pur s) (pdr s) (slr s) (den s) (cr s).
Definition set_istate (s : pl061_state) (v : Z) : pl061_state :=
  mkGpio (locked s) (data s) (old_data s) (dir s) (isense s) (ibe s) (iev s) (im s) v (afsel s) (dr2r s) (dr4r s) (dr8r s) (odr s) (pur s) (pdr s) (slr s) (den s) (cr s).
Definition set_afsel (s : pl061_state) (v : Z) : pl061_state :=
  mkGpio (locked s) (data s) (old_data s) (dir s) (isense s) (ibe s) (iev s) (im s) (istate s) v (dr2r s) (dr4r s) (dr8r s) (odr s) (pur s) (pdr s) (slr s) (den s) (cr s).
Definition set_dr2r (s : pl061_state) (v : Z) : pl061_state :=
  mkGpio (locked s) (data s) (old_data s) (dir s) (isense s) (ibe s) (iev s) (im s) (istate s) (afsel s) v (dr4r s) (dr8r s) (odr s) (pur s) (pdr s) (slr s) (den s) (cr s).
Definition set_dr4r (s : pl061_state) (v : Z) : pl061_state :=
  mkGpio (locked s) (data s) (old_data s) (dir s) (isense s) (ibe s) (iev s) (im s) (istate s) (afsel s) (dr2r s) v (dr8r s) (odr s) (pur s) (pdr s) (slr s) (den s) (cr s).
Definition set_dr8r (s : pl061_state) (v : Z) : pl061_state :=
  mkGpio (locked s) (data s) (old_data s) (dir s) (isense s) (ibe s) (iev s) (im s) (istate s) (afsel s) (dr2r s) (dr4r s) v (odr s) (pur s) (pdr s) (slr s) (den s) (cr s).
Definition set_odr (s : pl061_state) (v : Z) : pl061_state :=
  mkGpio (locked s) (data s) (old_data s) (dir s) (isense s) (ibe s) (iev s) (im s) (istate s) (afsel s) (dr2r s) (dr4r s) (dr8r s) v (pur s) (pdr s) (slr s) (den s) (cr s).
Definition set_pur (s : pl061_state) (v : Z) : pl061_state :=
  mkGpio (locked s) (data s) (old_data s) (dir s) (isense s) (ibe s) (iev s) (im s) (istate s) (afsel s) (dr2r s) (dr4r s) (dr8r s) (odr s) v (pdr s) (slr s) (den s) (cr s).
Definition set_pdr (s : pl061_state) (v : Z) : pl061_state :=
  mkGpio (locked s) (data s) (old_data s) (dir s) (isense s) (ibe s) (iev s) (im s) (istate s) (afsel s) (dr2r s) (dr4r s) (dr8r s) (odr s) (pur s) v (slr s) (den s) (cr s).
Definition set_slr (s : pl061_state) (v : Z) : pl061_state :=
  mkGpio (locked s) (data s) (old_data s) (dir s) (isense s) (ibe s) (iev s) (im s) (istate s) (afsel s) (dr2r s) (dr4r s) (dr8r s) (odr s) (pur s) (pdr s) v (den s) (cr s).
Definition set_den (s : pl061_state) (v : Z) : pl061_state :=
  mkGpio (locked s) (data s) (old_data s) (dir s) (isense s) (ibe s) (iev s) (im s) (istate s) (afsel s) (dr2r s) (dr4r s) (dr8r s) (odr s) (pur s) (pdr s) (slr s) v (cr s).
Definition set_cr (s : pl061_state) (v : Z) : pl061_state :=
  mkGpio (locked s) (data s) (old_data s) (dir s) (isense s) (ibe s) (iev s) (im s) (istate s) (afsel s) (dr2r s) (dr4r s) (dr8r s) (odr s) (pur s) (pdr s) (slr s) (den s) v.

Definition pl061_update (s : pl061_state) : pl061_state * list (Z * Z) :=
  let out := u8 (Z.lor (Z.land (data s) (dir s)) (Z.lnot (dir s))) in
  let changed := Z.lxor (old_data s) out in
  if changed =? 0 then (s, []) else
  (set_old_data s out,
   omap (λ i, let mask := Z.shiftl 1 (Z.of_nat i) in
              if truth (Z.land changed mask) then Some (Z.of_nat i, flag (truth (Z.land out mask))) else None) (seq 0 8)).

Definition pl061_read (id : list Z) (offset : Z) (s : pl061_state) : res Z :=
  if in_window 0xfd0 0x1000 offset then aread id (Z.shiftr (offset - 0xfd0) 2) else
  if offset <? 0x400 then Ok (Z.land (data s) (Z.shiftr offset 2)) else
  match offset with
  | 0x400 => Ok (dir s)
  | 0x404 => Ok (isense s)
  | 0x408 => Ok (ibe s)
  | 0x40c => Ok (iev s)
  | 0x410 => Ok (im s)
  | 0x414 => Ok (istate s)
  | 0x418 => Ok (Z.lor (istate s) (im s))
  | 0x420 => Ok (afsel s)
  | 0x500 => Ok (dr2r s)
  | 0x504 => Ok (dr4r s)
  | 0x508 => Ok (dr8r s)
  | 0x50c => Ok (odr s)
  | 0x510 => Ok (pur s)
  | 0x514 => Ok (pdr s)
  | 0x518 => Ok (slr s)
  | 0x51c => Ok (den s)
  | 0x520 => Ok (locked s)
  | 0x524 => Ok (cr s)
  | _ => Err Hw_error
  end.

Definition pl061_write (offset value : Z) (s : pl061_state) : res (pl061_state * list (Z * Z)) :=
  if offset <? 0x400 then
    let mask := u8 (Z.land (Z.shiftr offset 2) (dir s)) in
    Ok (pl061_update (set_data s (u8 (Z.lor (Z.ldiff (data s) mask) (Z.land value mask)))))
  else
  s ← match offset with
      | 0x400 => Ok (set_dir s (u8 value))
      | 0x404 => Ok (set_isense s (u8 value))
      | 0x408 => Ok (set_ibe s (u8 value))
      | 0x40c => Ok (set_iev s (u8 value))
      | 0x410 => Ok (set_im s (u8 value))
      | 0x41c => Ok (set_istate s (u8 (Z.ldiff (istate s) value)))
      | 0x420 => Ok (set_afsel s (u8 (Z.lor (Z.ldiff (afsel s) (cr s)) (Z.land value (cr s)))))
      | 0x500 => Ok (set_dr2r s (u8 value))
      | 0x504 => Ok (set_dr4r s (u8 value))
      | 0x508 => Ok (set_dr8r s (u8 value))
      | 0x50c => Ok (set_odr s (u8 value))
      | 0x510 => Ok (set_pur s (u8 value))
      | 0x514 => Ok (set_pdr s (u8 value))
      | 0x518 => Ok (set_slr s (u8 value))
      | 0x51c => Ok (set_den s (u8 value))
      | 0x520 => Ok (set_locked s (flag (negb (value =? 0xacce551))))
      | 0x524 => Ok (if truth (locked s) then s else set_cr s (u8 value))
      | _ => Err Hw_error
      end;
  Ok (pl061_update s).

Definition pl061_reset (s : pl061_state) : pl061_state := set_cr (set_locked s 1) 0xff.

Definition pl061_set_irq (irq level : Z) (s : pl061_state) : pl061_state * list (Z * Z) :=
  let mask := u8 (Z.shiftl 1 irq) in
  if Z.land (dir s) mask =? 0 then
    let d := Z.ldiff (data s) mask in
    pl061_update (set_data s (if truth level then Z.lor d mask else d))
  else (s, []).

(** The state is zero when the device is made. *)
Definition pl061_init : pl061_state := pl061_reset (mkGpio 0 0 0 0 0 0 0 0 0 0 0 0 0 0 0 0 0 0 0).

(** ** Pins *)

(** The levels of the lines after they are set. *)
Definition drive (lines : Z → Z) (ev : Z * Z) : Z → Z := λ j, if j =? ev.1 then ev.2 else lines j.

Inductive gpio_op := Guest_write (offset value : Z) | Pin (i level : Z).

(** A port with the lines behind its pins. *)
Definition gpio_step (op : gpio_op) '((s, lines) : pl061_state * (Z → Z)) : res (pl061_state * (Z → Z)) :=
  '(s, ev) ← match op with Guest_write offset value => pl061_write offset value s | Pin i level => Ok (pl061_set_irq i level s) end;
  Ok (s, fold_left drive ev lines).
Fixpoint gpio_run (ops : list gpio_op) (st : pl061_state * (Z → Z)) : res (pl061_state * (Z → Z)) :=
  match ops with [] => Ok st | op :: ops => st ← gpio_step op st; gpio_run ops st end.

(** The specification: for each pin its direction and its level; outputs are driven from
    the first update on. *)
Record pins := mkPins { is_out : Z → bool; high : Z → bool; live : bool }.

Definition pins_step (op : gpio_op) (p : pins) : pins :=
  match op with
  | Guest_write offset value =>
      if offset <? 0x400
      then mkPins (is_out p) (λ i, if is_out p i && Z.testbit offset (i + 2) then Z.testbit value i else high p i) true
      else if offset =? 0x400 then mkPins (Z.testbit value) (high p) true
      else mkPins (is_out p) (high p) true
  | Pin i level => if is_out p i then p else mkPins (is_out p) (λ j, if j =? i then truth level else high p j) true
  end.

(** The level of a line: an output shows its level, an input floats high. *)
Definition pin_line (p : pins) (i : Z) : bool := live p && (negb (is_out p i) || high p i).

Record gpio_is (s : pl061_state) (lines : Z → Z) (p : pins) : Prop := {
  gi_dir : ∀ i, 0 <= i < 8 → Z.testbit (dir s) i = is_out p i;
  gi_data : ∀ i, 0 <= i < 8 → Z.testbit (data s) i = high p i;
  gi_old : ∀ i, 0 <= i < 8 → Z.testbit (old_data s) i = pin_line p i;
  gi_lines : ∀ i, 0 <= i < 8 → lines i = flag (pin_line p i);
  gi_small : 0 <= old_data s < 2 ^ 8;
}.

Lemma u8_bit z i : 0 <= i < 8 → Z.testbit (u8 z) i = Z.testbit z i.
Proof. intros Hi. unfold u8. apply Z.mod_pow2_bits_low. lia. Qed.
(** The events of an update, for one line. *)
Lemma drive_events (c : nat → bool) (v : nat → Z) a n lines j :
  fold_left drive (omap (λ i, if c i then Some (Z.of_nat i, v i) else None) (seq a n)) lines (Z.of_nat j) =
    if decide (a <= j < a + n)%nat then (if c j then v j else lines (Z.of_nat j)) else lines (Z.of_nat j).
Proof.
  revert a lines. induction n as [|n IH]; intros a lines; [by case_decide; [lia|]|]. cbn [seq omap list_omap].
  assert (∀ l1, fold_left drive (omap (λ i, if c i then Some (Z.of_nat i, v i) else None) (seq (S a) n)) l1 (Z.of_nat j) =
    if decide (S a <= j < S a + n)%nat then (if c j then v j else l1 (Z.of_nat j)) else l1 (Z.of_nat j)) as IH' by (intros; apply IH).
  destruct (c a) eqn:Hc; cbn [fold_left]; rewrite IH'.
  - unfold drive. cbn [fst snd]. destruct (decide (j = a)) as [->|Hne].
    + rewrite Z.eqb_refl, Hc. by repeat case_decide; try lia.
    + rewrite (proj2 (Z.eqb_neq _ _)) by lia. by repeat case_decide; try lia.
  - destruct (decide (j = a)) as [->|Hne]; repeat case_decide; try lia; try done; by rewrite ?Hc.
Qed.

(** An update drives the lines as the pins say. *)
Lemma update_pins s lines p q :
  (∀ i, 0 <= i < 8 → Z.testbit (dir s) i = is_out p i) → (∀ i, 0 <= i < 8 → Z.testbit (data s) i = high p i) → live p = true →
  (∀ i, 0 <= i < 8 → Z.testbit (old_data s) i = pin_line q i) → (∀ i, 0 <= i < 8 → lines i = flag (pin_line q i)) → 0 <= old_data s < 2 ^ 8 →
  gpio_is (pl061_update s).1 (fold_left drive (pl061_update s).2 lines) p.
Proof.
  intros Hd Ha Hl Ho Hli Hs. unfold pl061_update. set (out := u8 _).
  assert (∀ i, 0 <= i < 8 → Z.testbit out i = pin_line p i) as Hout.
  { intros i Hi. unfold out. rewrite u8_bit, Z.lor_spec, Z.land_spec, Z.lnot_spec, Hd, Ha by lia. unfold pin_line. rewrite Hl.
    by destruct (is_out p i), (high p i). }
  destruct (Z.eqb_spec (Z.lxor (old_data s) out) 0) as [Heq|Hne]; cbn [fst snd fold_left].
  - apply Z.lxor_eq in Heq. constructor; try done; intros i Hi; [by rewrite Heq, Hout|]. rewrite Hli by done. f_equal.
    rewrite <- Ho, <- Hout by done. congruence.
  - constructor; try done; [|apply u8_range]. intros i Hi. rewrite <- (Z2Nat.id i) at 1 by lia.
    rewrite (drive_events (λ i, truth (Z.land (Z.lxor (old_data s) out) (Z.shiftl 1 (Z.of_nat i))))
      (λ i, flag (truth (Z.land out (Z.shiftl 1 (Z.of_nat i)))))). rewrite decide_True by lia. rewrite Z2Nat.id by lia.
    rewrite !truth_land_bit, Z.lxor_spec, Hout, Hli, Ho by lia. by destruct (pin_line q i), (pin_line p i).
Qed.

(** One line after the events, from its level before. *)
Definition line_after (i : Z) (ev : list (Z * Z)) (l : Z) : Z := fold_left (λ l e, if i =? e.1 then e.2 else l) ev l.

Lemma drive_line ev lines i : fold_left drive ev lines i = line_after i ev (lines i).
Proof. revert lines. induction ev as [|e ev IH]; intros lines; [done|]. cbn [fold_left line_after]. rewrite IH. done. Qed.

(** An update sets the lines that change; [l] is any level that was there before. *)
Lemma update_line s i l :
  0 <= i < 8 → 0 <= old_data s < 2 ^ 8 →
  line_after i (pl061_update s).2 l =
    (if xorb (Z.testbit (old_data s) i) (Z.testbit (old_data (pl061_update s).1) i) then flag (Z.testbit (old_data (pl061_update s).1) i) else l).
Proof.
  intros Hi Hs. unfold pl061_update. set (out := u8 _). destruct (Z.eqb_spec (Z.lxor (old_data s) out) 0) as [Heq|Hne]; cbn [fst snd old_data set_old_data].
  - by rewrite xorb_nilpotent.
  - transitivity (fold_left drive (omap (λ i, if truth (Z.land (Z.lxor (old_data s) out) (Z.shiftl 1 (Z.of_nat i)))
      then Some (Z.of_nat i, flag (truth (Z.land out (Z.shiftl 1 (Z.of_nat i))))) else None) (seq 0 8)) (λ _, l) i); [by rewrite drive_line|].
    rewrite <- (Z2Nat.id i) at 1 by lia.
    rewrite (drive_events (λ i, truth (Z.land (Z.lxor (old_data s) out) (Z.shiftl 1 (Z.of_nat i))))
      (λ i, flag (truth (Z.land out (Z.shiftl 1 (Z.of_nat i)))))). rewrite decide_True by lia. rewrite Z2Nat.id by lia.
    by rewrite !truth_land_bit, Z.lxor_spec by lia.
Qed.

Lemma offset_bit offset i : 0 <= i → Z.testbit (Z.shiftr offset 2) i = Z.testbit offset (i + 2).
Proof. intros. by rewrite Z.shiftr_spec. Qed.

Definition pl061_writable : list Z :=
  [0x400; 0x404; 0x408; 0x40c; 0x410; 0x41c; 0x420; 0x500; 0x504; 0x508; 0x50c; 0x510; 0x514; 0x518; 0x51c; 0x520; 0x524].

(** The writes that the port takes; the inputs that it has. *)
Definition gpio_takes (op : gpio_op) : bool :=
  match op with
  | Guest_write offset _ => (offset <? 0x400) || bool_decide (offset ∈ pl061_writable)
  | Pin i _ => (0 <=? i) && (i <? 8)
  end.

Lemma write_pins offset value s lines p :
  gpio_is s lines p → gpio_takes (Guest_write offset value) = true →
  ∃ s' ev, pl061_write offset value s = Ok (s', ev) ∧ gpio_is s' (fold_left drive ev lines) (pins_step (Guest_write offset value) p).
Proof.
  intros [Hd Ha Ho Hl Hs] Ht. unfold gpio_takes in Ht. unfold pl061_write, pins_step. destruct (Z.ltb_spec offset 0x400) as [Hlt|Hge].
  - eexists _, _. split; [rewrite surjective_pairing at 1; reflexivity|]. eapply (update_pins _ _ _ p); cbn [set_data dir data old_data is_out high live]; try done.
    intros i Hi. rewrite u8_bit, Z.lor_spec, Z.ldiff_spec, Z.land_spec, !u8_bit, !Z.land_spec, offset_bit, Hd, Ha by lia.
    by destruct (is_out p i), (Z.testbit offset (i + 2)), (high p i), (Z.testbit value i).
  - cbn [orb] in Ht. apply bool_decide_eq_true in Ht. unfold pl061_writable in Ht. apply elem_of_cons in Ht as [-> | Ht].
    + eexists _, _. split; [cbn [mbind res_bind]; rewrite surjective_pairing at 1; reflexivity|].
      eapply (update_pins _ _ _ p); cbn [set_dir dir data old_data is_out high live]; try done. intros i Hi. by rewrite u8_bit.
    + repeat (apply elem_of_cons in Ht as [-> | Ht];
        [eexists _, _; split; [cbn [mbind res_bind]; rewrite surjective_pairing at 1; reflexivity|]; eapply (update_pins _ _ _ p); try done;
         try (cbn; by destruct (truth (locked s)))|]).
      by apply elem_of_nil in Ht.
Qed.

(** A write ends in an update, which moves the lines of the pins that change. *)
Lemma write_updates offset value s r : pl061_write offset value s = Ok r → ∃ t, r = pl061_update t ∧ old_data t = old_data s.
Proof.
  unfold pl061_write. intros Hw. destruct (offset <? 0x400); [injection Hw as <-; by eexists|].
  repeat case_match; try done; injection Hw as <-; (eexists; split; [reflexivity|done]).
Qed.
Lemma write_line offset value s lines p s' ev lines' p' i l :
  gpio_is s lines p → pl061_write offset value s = Ok (s', ev) → gpio_is s' lines' p' → 0 <= i < 8 →
  line_after i ev l = if xorb (pin_line p i) (pin_line p' i) then flag (pin_line p' i) else l.
Proof.
  intros G Hw G' Hi. destruct (write_updates _ _ _ _ Hw) as (t & Ht & Hold).
  pose proof (update_line t i l Hi ltac:(rewrite Hold; apply (gi_small _ _ _ G))) as Hl. rewrite <- Ht in Hl. cbn [fst snd] in Hl.
  by rewrite Hold, (gi_old _ _ _ G), (gi_old _ _ _ G') in Hl.
Qed.

Lemma input_pins i level s lines p :
  gpio_is s lines p → 0 <= i < 8 →
  gpio_is (pl061_set_irq i level s).1 (fold_left drive (pl061_set_irq i level s).2 lines) (pins_step (Pin i level) p).
Proof.
  intros G Hi. pose proof G as [Hd Ha Ho Hl Hs]. unfold pl061_set_irq, pins_step.
  assert (u8 (Z.shiftl 1 i) = Z.shiftl 1 i) as Hm.
  { apply u8_small. rewrite Z.shiftl_1_l. split; [lia|]. apply Z.pow_lt_mono_r; lia. }
  rewrite Hm. assert ((Z.land (dir s) (Z.shiftl 1 i) =? 0) = negb (is_out p i)) as ->.
  { rewrite <- Hd, <- truth_land_bit by lia. unfold truth. by rewrite negb_involutive. }
  destruct (is_out p i); cbn [negb]; [done|]. eapply (update_pins _ _ _ p); cbn [set_data dir data old_data is_out high live]; try done.
  intros j Hj. destruct (truth level); rewrite ?Z.lor_spec, Z.ldiff_spec, testbit_bit, Ha by lia; by destruct (j =? i), (high p j).
Qed.

Lemma gpio_step_pins op s lines p :
  gpio_is s lines p → gpio_takes op = true → ∃ s' lines', gpio_step op (s, lines) = Ok (s', lines') ∧ gpio_is s' lines' (pins_step op p).
Proof.
  intros G Ht. destruct op as [offset value|i level]; unfold gpio_step.
  - destruct (write_pins offset value s lines p G Ht) as (s' & ev & -> & G'). by eexists _, _.
  - cbn in Ht. apply andb_true_iff in Ht as [H0 H8]. apply Z.leb_le in H0. apply Z.ltb_lt in H8.
    pose proof (input_pins i level s lines p G (conj H0 H8)) as G'. destruct (pl061_set_irq i level s) as [s' ev]. by eexists _, _.
Qed.

Lemma gpio_refuses offset value st : gpio_takes (Guest_write offset value) = false → gpio_step (Guest_write offset value) st = Err Hw_error.
Proof.
  destruct st as [s lines]. unfold gpio_takes, gpio_step, pl061_write. intros Ht. apply orb_false_iff in Ht as [-> Ht].
  apply bool_decide_eq_false in Ht. unfold pl061_writable in Ht. repeat case_match; try done; exfalso; apply Ht; set_solver.
Qed.

(** The port at power on: all pins are inputs, low, and nothing has been driven. *)
Definition pins_init : pins := mkPins (λ _, false) (λ _, false) false.

(** [C31]: The GPIO port is a set of pins.  Whatever the guest writes and whatever comes in on
    the pins, from power on: a write to the data registers changes exactly the output pins
    that the address selects, an input changes a pin exactly when it is not an output, and
    the direction register and the rest change neither; each line behind a pin has the
    level of an output pin and floats high for an input; a read of the data registers gives
    the levels that its address selects; and the only failure is the hardware error for a
    register that the port does not have. *)
Theorem pl061_is_pins ops :
  (∀ i level, Pin i level ∈ ops → 0 <= i < 8) →
  match gpio_run ops (pl061_init, λ _, 0) with
  | Err e => e = Hw_error ∧ forallb gpio_takes ops = false
  | Ok (s, lines) =>
      let p := fold_left (λ p op, pins_step op p) ops pins_init in
      forallb gpio_takes ops = true ∧ (∀ i, 0 <= i < 8 → lines i = flag (pin_line p i)) ∧
      ∀ offset i, 0 <= offset < 0x400 → 0 <= i < 8 →
        ∃ v, pl061_read pl061_id_luminary offset s = Ok v ∧ Z.testbit v i = high p i && Z.testbit offset (i + 2)
  end.
Proof.
  intros Hin. assert (gpio_is pl061_init (λ _, 0) pins_init) as G0.
  { constructor; cbn; try done; intros i _; apply Z.bits_0. }
  revert Hin G0. generalize pl061_init, (λ _ : Z, 0), pins_init.
  induction ops as [|op ops IH]; intros s lines p Hin G; cbn [gpio_run fold_left forallb].
  - split; [done|]. split; [apply G|]. intros offset i Ho Hi. unfold pl061_read, in_window. rewrite (proj2 (Z.leb_gt 0xfd0 offset)) by lia. cbn [andb].
    rewrite (proj2 (Z.ltb_lt offset 0x400)) by lia. eexists. split; [done|]. by rewrite Z.land_spec, offset_bit, (gi_data _ _ _ G) by lia.
  - destruct (gpio_takes op) eqn:Ht.
    + destruct (gpio_step_pins op s lines p G Ht) as (s' & lines' & -> & G'). cbn [mbind res_bind andb]. apply IH; [set_solver|done].
    + destruct op as [offset value|i level]; [by rewrite gpio_refuses|].
      specialize (Hin i level ltac:(set_solver)). cbn in Ht. rewrite (proj2 (Z.leb_le _ _)), (proj2 (Z.ltb_lt _ _)) in Ht by lia. done.
Qed.

Lemma pl061_is_pins_witness :
  ∃ s lines, gpio_run [Guest_write 0x400 0xf0; Pin 1 1; Pin 7 1; Guest_write 0x3fc 0x5a] (pl061_init, λ _, 0) = Ok (s, lines) ∧
    lines 6 = 1 ∧ lines 7 = 0 ∧ lines 0 = 1.
Proof.
  pose proof (pl061_is_pins [Guest_write 0x400 0xf0; Pin 1 1; Pin 7 1; Guest_write 0x3fc 0x5a]) as Hrun.
  destruct (gpio_run _ _) as [[s lines]|e]; destruct Hrun as [H1 H2];
    try (intros i level Hi; rewrite !elem_of_cons, elem_of_nil in Hi; destruct Hi as [[=]|[[= -> ->]|[[= -> ->]|[[=]|[]]]]]; lia).
  - exists s, lines. split; [done|]. destruct H2 as [H2 _]. rewrite !H2 by lia. done.
  - discriminate.
Defined.

(** The masked interrupt status shows a pin that is not interrupting as soon as its mask bit
    is set: the register is the union of status and mask, not their intersection; the
    interrupt line itself is never driven. *)
Theorem masked_status_is_union s m :
  istate s = 0 → 0 <= m < 256 →
  ∃ s' ev, pl061_write 0x410 m s = Ok (s', ev) ∧ pl061_read pl061_id_luminary 0x418 s' = Ok m.
Proof.
  intros Hs Hm. eexists _, _. split; [unfold pl061_write; cbn [Z.ltb Z.compare Pos.compare Pos.compare_cont mbind res_bind]; rewrite surjective_pairing at 1; reflexivity|].
  assert (∀ t, istate (pl061_update t).1 = istate t ∧ im (pl061_update t).1 = im t) as Hup by (intros t; unfold pl061_update; by destruct (_ =? 0)).
  change (pl061_read _ 0x418 ?t) with (Ok (Z.lor (istate t) (im t))). destruct (Hup (set_im s (u8 m))) as [-> ->].
  cbn [set_im istate im]. rewrite Hs, Z.lor_0_l. f_equal. by apply u8_small.
Qed.

(** ** The gamepad *)

Record gamepad_button := mkButton { keycode : Z; pressed : Z }.
Record gamepad_state := mkPad { buttons : list gamepad_button; extension : Z }.

(** The buttons of a key change when its state does; the lines they set, by number. *)
Fixpoint press_buttons (i : nat) (key down : Z) (bs : list gamepad_button) : list gamepad_button * list (nat * Z) :=
  match bs with
  | [] => ([], [])
  | b :: bs =>
      let '(bs', ev) := press_buttons (S i) key down bs in
      if (keycode b =? key) && negb (pressed b =? down) then (mkButton (keycode b) down :: bs', (i, down) :: ev) else (b :: bs', ev)
  end.

Definition stellaris_gamepad_put_key (code : Z) (s : gamepad_state) : gamepad_state * list (nat * Z) :=
  if (code =? 0xe0) && (extension s =? 0) then (mkPad (buttons s) 0x80, []) else
  let down := flag (Z.land code 0x80 =? 0) in
  let '(bs, ev) := press_buttons 0 (Z.lor (Z.land code 0x7f) (extension s)) down (buttons s) in
  (mkPad bs 0, ev).

Definition stellaris_gamepad_init (keycodes : list Z) : gamepad_state := mkPad ((λ k, mkButton k 0) <$> keycodes) 0.

(** The specification: the scan codes are key events, an event for each code but the prefix
    of the extended keys, and a key is down when its last event says so. *)
Fixpoint key_events (extended : bool) (codes : list Z) : list (Z * bool) :=
  match codes with
  | [] => []
  | code :: codes =>
      if (code =? 0xe0) && negb extended then key_events true codes
      else (Z.lor (Z.land code 0x7f) (if extended then 0x80 else 0), Z.land code 0x80 =? 0) :: key_events false codes
  end.
Definition key_down (was : bool) (key : Z) (evs : list (Z * bool)) : bool :=
  fold_left (λ d ev, if ev.1 =? key then ev.2 else d) evs was.

Fixpoint put_keys (codes : list Z) (s : gamepad_state) : gamepad_state * list (nat * Z) :=
  match codes with
  | [] => (s, [])
  | code :: codes =>
      let '(s, ev1) := stellaris_gamepad_put_key code s in
      let '(s, ev2) := put_keys codes s in
      (s, ev1 ++ ev2)
  end.

(** The level of the line of button [i] after the lines are set. *)
Definition button_line (i : nat) (evs : list (nat * Z)) (was : Z) : Z := fold_left (λ l ev, if decide (ev.1 = i) then ev.2 else l) evs was.

Lemma button_line_app i e1 e2 was : button_line i (e1 ++ e2) was = button_line i e2 (button_line i e1 was).
Proof. apply fold_left_app. Qed.

Lemma press_buttons_spec n key down bs :
  (∀ k v, (k, v) ∈ (press_buttons n key down bs).2 → (n <= k < n + length bs)%nat) ∧
  ∀ j b, bs !! j = Some b →
    (press_buttons n key down bs).1 !! j = Some (mkButton (keycode b) (if keycode b =? key then down else pressed b)) ∧
    button_line (n + j) (press_buttons n key down bs).2 (pressed b) = (if keycode b =? key then down else pressed b).
Proof.
  revert n. induction bs as [|b bs IH]; intros n; [split; [|done]; cbn; set_solver|]. specialize (IH (S n)). cbn [press_buttons].
  destruct (press_buttons (S n) key down bs) as [bs' ev]. cbn [fst snd] in *. destruct IH as [Hlow IH].
  assert (button_line n ev (pressed b) = pressed b ∧ button_line n ev down = down) as [Hn1 Hn2].
  { assert (∀ was, button_line n ev was = was) as Hn; [|by rewrite !Hn]. intros was. clear IH. revert was. induction ev as [|[k v] ev IHe]; intros was; [done|].
    cbn. rewrite decide_False; [apply IHe; set_solver|]. specialize (Hlow k v ltac:(set_solver)). cbn. lia. }
  split.
  - intros k v Hk. destruct (_ && _); cbn [snd] in Hk; [apply elem_of_cons in Hk as [[= -> ->]|Hk]; [cbn; lia|]|]; specialize (Hlow k v Hk); cbn; lia.
  - intros j c Hj. destruct j as [|j].
    + injection Hj as ->. rewrite Nat.add_0_r. destruct (keycode c =? key) eqn:Hk; cbn [andb].
      * destruct (Z.eqb_spec (pressed c) down) as [<-|Hne]; cbn [negb fst snd]; [by destruct c|]. split; [done|]. cbn [button_line fold_left fst snd].
        rewrite decide_True by done. done.
      * cbn [fst snd]. by destruct c.
    + destruct (IH j c Hj) as [H1 H2]. replace (n + S j)%nat with (S n + j)%nat by lia. destruct (_ && _); cbn [fst snd]; [|done]. split; [done|].
      cbn [button_line fold_left fst snd]. by rewrite decide_False by (cbn; lia).
Qed.

Lemma press_buttons_length n key down bs : length (press_buttons n key down bs).1 = length bs.
Proof.
  revert n. induction bs as [|b bs IH]; intros n; [done|]. cbn [press_buttons]. specialize (IH (S n)). destruct (press_buttons (S n) key down bs) as [bs' ev].
  cbn [fst] in IH. destruct (_ && _); cbn [fst length]; by rewrite IH.
Qed.

(** A scan code sets lines of buttons that there are. *)
Lemma put_key_bounds code s k v :
  (k, v) ∈ (stellaris_gamepad_put_key code s).2 → (k < length (buttons s))%nat.
Proof.
  unfold stellaris_gamepad_put_key. destruct (_ && _); [cbn; set_solver|].
  destruct (press_buttons_spec 0 (Z.lor (Z.land code 0x7f) (extension s)) (flag (Z.land code 0x80 =? 0)) (buttons s)) as [Hb _].
  destruct (press_buttons _ _ _ _) as [bs ev]. cbn [fst snd] in *. intros Hk. specialize (Hb k v Hk). lia.
Qed.
Lemma put_key_length code s : length (buttons (stellaris_gamepad_put_key code s).1) = length (buttons s).
Proof.
  unfold stellaris_gamepad_put_key. destruct (_ && _); [done|].
  pose proof (press_buttons_length 0 (Z.lor (Z.land code 0x7f) (extension s)) (flag (Z.land code 0x80 =? 0)) (buttons s)) as Hl.
  by destruct (press_buttons _ _ _ _).
Qed.

Lemma put_keys_spec codes s was (ext : bool) i k :
  buttons s !! i = Some (mkButton k (flag was)) → extension s = (if ext then 0x80 else 0) →
  let '(s', ev) := put_keys codes s in
  buttons s' !! i = Some (mkButton k (flag (key_down was k (key_events ext codes)))) ∧
  button_line i ev (flag was) = flag (key_down was k (key_events ext codes)).
Proof.
  revert s was ext.
  induction codes as [|code codes IH]; intros s was ext Hb He; [done|]. cbn [put_keys key_events].
  unfold stellaris_gamepad_put_key. destruct ((code =? 0xe0) && negb ext) eqn:Hpre.
  - apply andb_true_iff in Hpre as [-> Hext]. apply negb_true_iff in Hext as ->. rewrite He. cbn [andb Z.eqb].
    specialize (IH (mkPad (buttons s) 0x80) was true Hb eq_refl). by destruct (put_keys codes _).
  - assert ((code =? 0xe0) && (extension s =? 0) = false) as ->. { rewrite He. by destruct ext. }
    rewrite He. set (key := Z.lor _ _). set (down := Z.land code 0x80 =? 0).
    destruct (press_buttons_spec 0 key (flag down) (buttons s)) as [_ Hp]. specialize (Hp i _ Hb). cbn [keycode pressed Nat.add] in Hp.
    destruct (press_buttons 0 key (flag down) (buttons s)) as [bs ev1]. cbn [fst snd] in Hp. destruct Hp as [Hp1 Hp2].
    specialize (IH (mkPad bs 0) (if key =? k then down else was) false).
    rewrite Z.eqb_sym in Hp1, Hp2. assert ((if key =? k then flag down else flag was) = flag (if key =? k then down else was)) as Hf by (by destruct (key =? k)).
    rewrite Hf in Hp1, Hp2. specialize (IH Hp1 eq_refl). destruct (put_keys codes (mkPad bs 0)) as [s' ev2].
    rewrite button_line_app, Hp2. exact IH.
Qed.

(** The gamepad follows the keyboard: after any scan codes, each button is pressed, and
    its line is high, exactly when the last event of its key, extended keys included, was a
    press. *)
Theorem gamepad_follows_keys keycodes codes i k :
  keycodes !! i = Some k →
  let '(s, ev) := put_keys codes (stellaris_gamepad_init keycodes) in
  buttons s !! i = Some (mkButton k (flag (key_down false k (key_events false codes)))) ∧
  button_line i ev 0 = flag (key_down false k (key_events false codes)).
Proof.
  intros Hk. apply (put_keys_spec codes (stellaris_gamepad_init keycodes) false false); [|done].
  cbn [buttons stellaris_gamepad_init]. by rewrite list_lookup_fmap, Hk.
Qed.

Lemma gamepad_follows_keys_witness :
  let '(s, ev) := put_keys [0xe0; 0x48; 0x1d; 0xe0; 0xc8; 0x9d] (stellaris_gamepad_init [0xc8; 0xd0; 0xcb; 0xcd; 0x1d]) in
  buttons s !! 4%nat = Some (mkButton 0x1d 0) ∧ button_line 4 ev 0 = 0.
Proof. apply (gamepad_follows_keys [0xc8; 0xd0; 0xcb; 0xcd; 0x1d] [0xe0; 0x48; 0x1d; 0xe0; 0xc8; 0x9d] 4 0x1d). reflexivity. Defined.
