(* ===== verification/Evb6965.v ===== *)
(** * Evb6965: displays, buttons and ports of the LM3S6965EVB together (hw/stellaris.c)

    The seven GPIO ports, the serial port with the multiplexer and the display behind it,
    and the gamepad, wired as [stellaris_init] does: pin 0 of port D selects the slave of
    the multiplexer, pin 7 of port C is the command/data line of the display, and the
    buttons are inputs of ports E and F, low when pressed.  The SD card is any slave. *)

From S2P Require Import Prelude Display Pl061 Ssi Ssd0323.
Local Open Scope Z_scope.

Definition GPIO_C : nat := 2.
Definition GPIO_D : nat := 3.
Definition GPIO_E : nat := 4.
Definition GPIO_F : nat := 5.

Section board.
Context {D0 : Type} `{SSISlaveLaws D0 ok0}.

Notation mux := (stellaris_ssi_bus_state D0 ssd0323_state).

Record evb := mkEvb { gpio_dev : list pl061_state; ssi_port : pl022_world mux; pad : gamepad_state }.

Definition set_mux (f : mux → mux) (b : evb) : evb :=
  mkEvb (gpio_dev b) (mkPort (port (ssi_port b)) (f <$> ssi (ssi_port b)) (port_irq (ssi_port b))) (pad b).

(** The lines of port [p] that go somewhere. *)
Definition gpio_out (p : nat) (b : evb) (ev : Z * Z) : evb :=
  if decide (p = GPIO_D ∧ ev.1 = 0) then set_mux (stellaris_ssi_bus_select ev.2) b
  else if decide (p = GPIO_C ∧ ev.1 = 7) then set_mux (λ m, mkMux (current_dev m) (bus0 m) (ssd0323_cd ev.2 <$> bus1 m)) b
  else b.

(** A port changes, and drives its lines. *)
Definition gpio_changed (p : nat) (r : pl061_state * list (Z * Z)) (b : evb) : evb :=
  fold_left (gpio_out p) r.2 (mkEvb (<[p := r.1]> (gpio_dev b)) (ssi_port b) (pad b)).

Definition gpio_write (p : nat) (offset value : Z) (b : evb) : res evb :=
  match gpio_dev b !! p with
  | None => Err Hw_error
  | Some s => r ← pl061_write offset value s; Ok (gpio_changed p r b)
  end.

Definition gpio_in (p : nat) (pin level : Z) (b : evb) : evb :=
  match gpio_dev b !! p with None => b | Some s => gpio_changed p (pl061_set_irq pin level s) b end.

(** The five buttons, through inverters. *)
Definition gpad_keycode : list Z := [0xc8; 0xd0; 0xcb; 0xcd; 0x1d].
Definition gpad_pin (i : nat) : nat * Z := if decide (i < 4)%nat then (GPIO_E, Z.of_nat i) else (GPIO_F, 1).
Definition gpad_irq (b : evb) (ev : nat * Z) : evb := let '(p, pin) := gpad_pin ev.1 in gpio_in p pin (flag (negb (truth ev.2))) b.
Definition put_key (code : Z) (b : evb) : evb :=
  let '(s, ev) := stellaris_gamepad_put_key code (pad b) in fold_left gpad_irq ev (mkEvb (gpio_dev b) (ssi_port b) s).

Definition on_port {A} (f : pl022_world mux → res (A * pl022_world mux)) (b : evb) : res (A * evb) :=
  '(a, w) ← f (ssi_port b); Ok (a, mkEvb (gpio_dev b) w (pad b)).

(** What happens on the board. *)
Inductive evb_op := Gpio (p : nat) (offset value : Z) | Ssp (op : driver_op) | Ssp_write (offset value : Z) | Key (code : Z).

Definition evb_step (op : evb_op) (b : evb) : res evb :=
  match op with
  | Gpio p offset value => gpio_write p offset value b
  | Ssp op => '(_, b) ← on_port (driver_step op) b; Ok b
  | Ssp_write offset value => w ← pl022_write offset value (ssi_port b); Ok (mkEvb (gpio_dev b) w (pad b))
  | Key code => Ok (put_key code b)
  end.
Fixpoint evb_run (ops : list evb_op) (b : evb) : res evb :=
  match ops with [] => Ok b | op :: ops => b ← evb_step op b; evb_run ops b end.

(** The board at power on: the select line is raised by hand before the ports are
    connected, and the inverters raise the inputs of the buttons. *)
Definition evb_init (sd : D0) : evb :=
  let m := stellaris_ssi_bus_select 1 (mkMux 0 (Some sd) (Some ssd0323_init)) in
  let b := mkEvb (replicate 7 pl061_init) (pl022_init (Some m)) (stellaris_gamepad_init gpad_keycode) in
  fold_left (λ b i, let '(p, pin) := gpad_pin i in gpio_in p pin 1 b) (seq 0 5) b.

Lemma evb_run_app ops1 ops2 b : evb_run (ops1 ++ ops2) b = (b ← evb_run ops1 b; evb_run ops2 b).
Proof.
  revert b. induction ops1 as [|op ops1 IH]; intros b; [done|]. cbn [app evb_run]. destruct (evb_step op b); [apply IH|done].
Qed.

(** ** What the board shows of the display *)

Notation is_data := (λ o : ssd0323_state, match mode o with SSD0323_DATA => true | SSD0323_CMD => false end).

(** Ports C and D with the pins [pC] and [pD], the card's bus [sd], the display [o]; the
    lines agree with what they control, the select line at least when it is high; the port
    is enabled for words of 8 bits, with nothing under way. *)
Record evb_view (b : evb) (sd : option D0) (o : ssd0323_state) (pC pD : pins) : Prop := {
  v_C : ∃ s l, gpio_dev b !! GPIO_C = Some s ∧ gpio_is s l pC;
  v_D : ∃ s l, gpio_dev b !! GPIO_D = Some s ∧ gpio_is s l pD;
  v_mux : ∃ c, ssi (ssi_port b) = Some (mkMux c sd (Some o)) ∧ (pin_line pD 0 = true → c = 1);
  v_mode : is_data o = pin_line pC 7;
  v_port : port_inv (ok := mux_ok (ok0 := ok0) (ok1 := oled_ok)) (ssi_port b) [] [];
  v_enabled : port_enabled (ssi_port b) = true;
  v_straight : looped (port (ssi_port b)) = false;
  v_mask : bitmask (port (ssi_port b)) = 0xff;
}.

(** Another state of the slave. *)
Lemma port_inv_bus {D} `{SSISlaveLaws D ok} (w : pl022_world D) tx rx bus :
  port_inv (ok := ok) w tx rx → bus_good (ok := ok) bus → port_inv (ok := ok) (mkPort (port w) bus (port_irq w)) tx rx.
Proof. intros [[F Hw Hm Hb] Hs Hr Hi Hst] Hbus. by constructor; [constructor|..]. Qed.

(** The events of port D move the multiplexer, those of port C the display. *)
Lemma events_D ev b c sd o :
  ssi (ssi_port b) = Some (mkMux c sd (Some o)) →
  fold_left (gpio_out GPIO_D) ev b = set_mux (λ _, mkMux (line_after 0 ev c) sd (Some o)) b.
Proof.
  revert b c. induction ev as [|e ev IH]; intros b c Hb; cbn [fold_left line_after].
  - destruct b as [g [po si ir] pd]. cbn in *. by subst.
  - unfold gpio_out at 2. rewrite (decide_False (P := GPIO_D = GPIO_C ∧ _)) by (by intros [? _]). rewrite Z.eqb_sym.
    destruct (Z.eqb_spec e.1 0) as [He|He].
    + rewrite decide_True by done. rewrite (IH _ e.2); [by destruct b as [g [po [m|] ir] pd]|]. cbn. by rewrite Hb.
    + rewrite decide_False by tauto. by apply IH.
Qed.

Lemma set_same_mode o : ssd0323_cd (flag (is_data o)) o = o.
Proof. by destruct o as [???????????[] ?]. Qed.
Lemma cd_cd l1 l2 o : ssd0323_cd l1 (ssd0323_cd l2 o) = ssd0323_cd l1 o.
Proof. done. Qed.
Lemma line_after_truth i ev l l' : truth l = truth l' → truth (line_after i ev l) = truth (line_after i ev l').
Proof. revert l l'. induction ev as [|e ev IH]; intros l l' Hl; [done|]. cbn [line_after fold_left]. apply IH. by destruct (i =? e.1). Qed.
Lemma cd_truth l l' o : truth l = truth l' → ssd0323_cd l o = ssd0323_cd l' o.
Proof. unfold ssd0323_cd. by intros ->. Qed.

Lemma events_C ev b c sd o :
  ssi (ssi_port b) = Some (mkMux c sd (Some o)) →
  fold_left (gpio_out GPIO_C) ev b = set_mux (λ _, mkMux c sd (Some (ssd0323_cd (line_after 7 ev (flag (is_data o))) o))) b.
Proof.
  revert b o. induction ev as [|e ev IH]; intros b o Hb; cbn [fold_left line_after].
  - rewrite set_same_mode. destruct b as [g [po si ir] pd]. cbn in *. by subst.
  - unfold gpio_out at 2. rewrite (decide_False (P := GPIO_C = GPIO_D ∧ _)) by (by intros [? _]). rewrite Z.eqb_sym.
    destruct (Z.eqb_spec e.1 7) as [He|He].
    + rewrite decide_True by done. rewrite (IH _ (ssd0323_cd e.2 o)); [|cbn; by rewrite Hb].
      rewrite cd_cd. rewrite (cd_truth _ (line_after 7 ev e.2)); [by destruct b as [g [po [m|] ir] pd]|].
      apply line_after_truth. unfold ssd0323_cd. cbn [set_mode mode]. by destruct (truth e.2).
    + rewrite decide_False by tauto. by apply IH.
Qed.

Lemma mux_parts b sd o pC pD : evb_view b sd o pC pD → bus_good (ok := ok0) sd ∧ oled_ok o ∧ (∃ c, ssi (ssi_port b) = Some (mkMux c sd (Some o)) ∧ (c = 0 ∨ c = 1)).
Proof.
  intros V. destruct (v_mux _ _ _ _ _ V) as (c & Hs & _). pose proof (pp_bus _ _ _ (pi_pre _ _ _ (v_port _ _ _ _ _ V))) as Hb. rewrite Hs in Hb.
  destruct Hb as (Hc & H1 & H2). split_and!; [done|done|]. by exists c.
Qed.

(** Writes to port D. *)
Lemma view_write_D offset value b sd o pC pD :
  evb_view b sd o pC pD → gpio_takes (Guest_write offset value) = true →
  ∃ b', gpio_write GPIO_D offset value b = Ok b' ∧ evb_view b' sd o pC (pins_step (Guest_write offset value) pD).
Proof.
  intros V Ht. destruct (mux_parts _ _ _ _ _ V) as (Hsd & Ho & c & Hmux & Hc). destruct V as [VC (s & l & Hs & G) (c' & Hmux' & Hsel) Vm Vp Ve Vl Vk].
  rewrite Hmux in Hmux'. injection Hmux' as <-.
  destruct (write_pins offset value s l pD G Ht) as (s' & ev & Hw & G'). unfold gpio_write. rewrite Hs, Hw. cbn [mbind res_bind].
  eexists. split; [reflexivity|]. unfold gpio_changed. cbn [fst snd]. rewrite (events_D ev _ c sd o) by done.
  rewrite (write_line _ _ _ _ _ _ _ _ _ 0 c G Hw G' ltac:(lia)). set (pD' := pins_step _ pD) in *.
  set (c' := if xorb _ _ then _ else c). assert (c' = 0 ∨ c' = 1) by (unfold c'; destruct (xorb _ _); [destruct (pin_line pD' 0); auto|done]).
  constructor; cbn [set_mux gpio_dev ssi_port pad port ssi port_irq]; try done.
  - destruct VC as (sC & lC & HC & GC). exists sC, lC. split; [|done]. by rewrite list_lookup_insert_ne.
  - exists s', (fold_left drive ev l). split; [|done]. apply list_lookup_insert_eq. by eapply lookup_lt_Some.
  - exists c'. rewrite Hmux. split; [done|]. intros Hhigh. unfold c'. rewrite Hhigh. destruct (pin_line pD 0); [by apply Hsel|done].
  - rewrite Hmux. by apply port_inv_bus.
Qed.

(** Writes to port C. *)
Lemma view_write_C offset value b sd o pC pD :
  evb_view b sd o pC pD → gpio_takes (Guest_write offset value) = true →
  let pC' := pins_step (Guest_write offset value) pC in
  ∃ b', gpio_write GPIO_C offset value b = Ok b' ∧ evb_view b' sd (ssd0323_cd (flag (pin_line pC' 7)) o) pC' pD.
Proof.
  intros V Ht pC'. destruct (mux_parts _ _ _ _ _ V) as (Hsd & Ho & c & Hmux & Hc). destruct V as [(s & l & Hs & G) VD (c' & Hmux' & Hsel) Vm Vp Ve Vl Vk].
  rewrite Hmux in Hmux'. injection Hmux' as <-.
  destruct (write_pins offset value s l pC G Ht) as (s' & ev & Hw & G'). unfold gpio_write. rewrite Hs, Hw. cbn [mbind res_bind].
  eexists. split; [reflexivity|]. unfold gpio_changed. cbn [fst snd]. rewrite (events_C ev _ c sd o) by done.
  rewrite (write_line _ _ _ _ _ _ _ _ _ 7 _ G Hw G' ltac:(lia)). fold pC'. rewrite Vm.
  replace (if xorb (pin_line pC 7) (pin_line pC' 7) then flag (pin_line pC' 7) else flag (pin_line pC 7)) with (flag (pin_line pC' 7))
    by (by destruct (pin_line pC 7), (pin_line pC' 7)).
  constructor; cbn [set_mux gpio_dev ssi_port pad port ssi port_irq]; try done.
  - exists s', (fold_left drive ev l). split; [|done]. apply list_lookup_insert_eq. by eapply lookup_lt_Some.
  - destruct VD as (sD & lD & HD & GD). exists sD, lD. split; [|done]. by rewrite list_lookup_insert_ne.
  - exists c. rewrite Hmux. split; [done|]. done.
  - cbn [ssd0323_cd set_mode mode]. rewrite truth_flag. by destruct (pin_line pC' 7).
  - rewrite Hmux. apply port_inv_bus; [done|]. split_and!; [done|done|]. by apply ssd0323_cd_ok.
Qed.

(** A word for the display, sent and its answer fetched. *)
Lemma view_word v b sd o r o' pC pD :
  evb_view b sd o pC pD → pin_line pD 0 = true → 0 <= v < 256 → ssd0323_transfer v o = Ok (r, o') →
  ∃ b', evb_run [Ssp (Send v); Ssp Receive] b = Ok b' ∧ evb_view b' sd o' pC pD.
Proof.
  intros V Hsel Hv Hx. destruct V as [VC VD (c & Hmux & Hc) Vm Vp Ve Vl Vk]. specialize (Hc Hsel) as ->.
  assert (Z.land v 0xff = v) as Hbyte by (change 0xff with (2 ^ 8 - 1); rewrite land_mod, Z.mod_small; lia).
  destruct (send_at_once (ssi_port b) v Vp Ve) as (r1 & w1 & Hw1 & I1 & Hx1 & C1). rewrite Vl, Vk, Hbyte in *.
  assert (ssi w1 = Some (mkMux 1 sd (Some o'))) as Hm1.
  { rewrite Hmux in Hx1. cbn [exchange] in Hx1. cbn [ssi_transfer ssi_cb stellaris_ssi_bus_info] in Hx1. unfold stellaris_ssi_bus_transfer in Hx1.
    cbn [current_dev bus1 bus0] in Hx1. cbn [ssi_transfer ssi_cb ssd0323_info] in Hx1. rewrite Hx in Hx1. cbn in Hx1. by injection Hx1 as _ <-. }
  destruct (receive_last w1 _ I1) as (w2 & Hw2 & I2 & Hs2 & C2).
  cbn [evb_run evb_step]. unfold on_port. rewrite (driver_send _ [] [] v Vp) by (cbn; lia). rewrite Hw1. cbn [mbind res_bind ssi_port].
  rewrite (driver_receive _ _ _ _ I1), Hw2. cbn [mbind res_bind]. eexists. split; [reflexivity|].
  destruct C1 as (_ & E1 & E2 & _), C2 as (_ & E3 & E4 & _).
  constructor; cbn [gpio_dev ssi_port pad]; try done.
  - exists 1. by rewrite Hs2, Hm1.
  - rewrite (transfer_mode _ _ _ _ Hx). done.
  - unfold port_enabled in *. by rewrite E3, E1.
  - unfold looped in *. by rewrite E3, E1.
  - congruence.
Qed.

Definition ssp_words (vs : list Z) : list evb_op := concat ((λ v, [Ssp (Send v); Ssp Receive]) <$> vs).

Lemma view_words vs b sd o o' pC pD :
  evb_view b sd o pC pD → pin_line pD 0 = true → Forall (λ v, 0 <= v < 256) vs → oled_words vs o = Ok o' →
  ∃ b', evb_run (ssp_words vs) b = Ok b' ∧ evb_view b' sd o' pC pD.
Proof.
  intros V Hsel Hvs. revert b o V. induction Hvs as [|v vs Hv _ IH]; intros b o V Ho; [injection Ho as <-; by exists b|].
  cbn [oled_words] in Ho. destruct (ssd0323_transfer v o) as [[r o1]|] eqn:Hx; [|done]. cbn [mbind res_bind] in Ho.
  destruct (view_word v b sd o r o1 pC pD V Hsel Hv Hx) as (b1 & Hb1 & V1). destruct (IH b1 o1 V1 Ho) as (b' & Hb' & V').
  exists b'. split; [|done]. unfold ssp_words. rewrite fmap_cons. cbn [concat]. by rewrite evb_run_app, Hb1.
Qed.

(** What a driver does to draw: make D0 an output and raise it, make C7 an output and lower
    it, send the commands for the window, raise C7, send the pixels. *)
Definition draw_program (c0 r0 w h : nat) (data : list Z) : list evb_op :=
  [Gpio GPIO_D 0x400 0x01; Gpio GPIO_D 0x004 0x01; Gpio GPIO_C 0x400 0x80; Gpio GPIO_C 0x200 0x00] ++
  ssp_words (window_words c0 r0 w h) ++ [Gpio GPIO_C 0x200 0x80] ++ ssp_words data.

(** The four writes to the ports. *)
Lemma view_prepare b sd o pC pD :
  evb_view b sd o pC pD →
  ∃ b' o' pC' pD', evb_run [Gpio GPIO_D 0x400 0x01; Gpio GPIO_D 0x004 0x01; Gpio GPIO_C 0x400 0x80; Gpio GPIO_C 0x200 0x00] b = Ok b' ∧
    evb_view b' sd o' pC' pD' ∧ o' = ssd0323_cd 0 o ∧ pin_line pD' 0 = true ∧ is_out pC' 7 = true.
Proof.
  intros V. destruct (view_write_D 0x400 0x01 _ _ _ _ _ V eq_refl) as (b1 & H1 & V1).
  destruct (view_write_D 0x004 0x01 _ _ _ _ _ V1 eq_refl) as (b2 & H2 & V2).
  destruct (view_write_C 0x400 0x80 _ _ _ _ _ V2 eq_refl) as (b3 & H3 & V3).
  destruct (view_write_C 0x200 0x00 _ _ _ _ _ V3 eq_refl) as (b4 & H4 & V4).
  eexists b4, _, _, _. split; [|split; [exact V4|done]]. cbn [evb_run evb_step]. rewrite H1. cbn [mbind res_bind]. rewrite H2. cbn [mbind res_bind].
  rewrite H3. cbn [mbind res_bind]. by rewrite H4.
Qed.

(** [C4]: What the guest draws is what the display of the LM3S6965EVB shows.  A driver that
    selects the display with GPIO D0, sends the window with C7 low and the pixels with C7
    high, each word over the serial port with the status polled.  It starts in any state of
    the board in which the port is enabled for words of 8 bits, without loopback and with
    empty FIFOs, the display is not in the middle of a command, and the lines of the GPIO
    ports agree with what they control (the select line at least when it is high).  Then no
    device fails, the SD card on the other side of the multiplexer sees nothing, the board
    is in such a state again, and the refresh that follows fills a surface of 512 by 256
    pixels, whatever the colour depth, on which each pixel has the grey level that was drawn
    there, or outside the window the level it had. *)
Theorem evb_guest_draws b sd o pC pD c0 r0 w h data bpp n :
  evb_view b sd o pC pD → cmd_len o = 0 →
  (0 < w)%nat → (c0 + w <= 64)%nat → (0 < h)%nat → (r0 + h <= 80)%nat →
  data ≠ [] → (length data <= w * h)%nat → Forall (λ v, 0 <= v < 256) data → bytes_per_pixel bpp = Some n →
  ∃ b' o' pC' pD' dest,
    evb_run (draw_program c0 r0 w h data) b = Ok b' ∧ evb_view b' sd o' pC' pD' ∧
    ssd0323_update_display bpp o' = Ok (Some dest, set_picture o' 0 (framebuffer o')) ∧ Z.of_nat (length dest) = 256 * (512 * n) ∧
    ∀ Y X c, (Y < 256)%nat → (X < 512)%nat → (c < 3)%nat → (c < Z.to_nat n)%nat →
      dest !! ((Y * 512 + X) * Z.to_nat n + c)%nat =
        Some (Some (Z.land (Z.shiftr (grey_word bpp (drawn o c0 r0 w data (Y / 4) (X / 4))) (8 * Z.of_nat c)) 0xff)).
Proof.
  intros V Hz Hw Hc Hh Hr Hne Hlen Hd Hn.
  destruct (view_prepare _ _ _ _ _ V) as (b1 & o1 & pC1 & pD1 & Hb1 & V1 & Ho1 & Hsel & HoutC). subst o1.
  destruct (mux_parts _ _ _ _ _ V) as (_ & Hoko & _).
  destruct (set_window c0 r0 w h (ssd0323_cd 0 o)) as (o2 & Ho2 & Hok2 & Hfb2 & _ & Hwin & Hm2 & Hz2); try done; [by apply ssd0323_cd_ok|].
  destruct (view_words (window_words c0 r0 w h) b1 sd _ o2 pC1 pD1 V1 Hsel) as (b2 & Hb2 & V2); [|done|].
  { unfold window_words. repeat (apply Forall_cons; split; [lia|]). done. }
  destruct (view_write_C 0x200 0x80 _ _ _ _ _ V2 eq_refl) as (b3 & Hb3 & V3).
  assert (pin_line (pins_step (Guest_write 0x200 0x80) pC1) 7 = true) as Hhigh. { unfold pin_line, pins_step. change (0x200 <? 0x400) with true. cbn [is_out high live]. by rewrite HoutC. }
  rewrite Hhigh in V3. change (flag true) with 1 in V3.
  destruct (paint_bytes data (ssd0323_cd 1 o2) c0 r0 w h 0) as (o4 & Ho4 & Hok4 & Hfb4 & Hr4); try done; [by apply ssd0323_cd_ok|].
  destruct (view_words data b3 sd _ o4 _ pD1 V3 Hsel Hd Ho4) as (b4 & Hb4 & V4).
  destruct (refresh_shows_levels bpp n o4 (proj1 Hok4) (Hr4 Hne) Hn) as (dest & Hup & Hdl & Hpix).
  exists b4, o4. eexists _, pD1, dest. split_and!; [|exact V4|done|done|].
  - unfold draw_program. rewrite evb_run_app, Hb1. cbn [mbind res_bind]. rewrite evb_run_app, Hb2. cbn [mbind res_bind].
    rewrite evb_run_app. cbn [evb_run evb_step]. rewrite Hb3. cbn [mbind res_bind]. done.
  - intros Y X k HY HX Hk3 Hk. rewrite Hpix by done. do 5 f_equal. apply level_drawn; try done.
    + apply Hoko.
    + assert (Y / 4 < 64)%nat by (apply Nat.Div0.div_lt_upper_bound; lia). lia.
    + apply Nat.Div0.div_lt_upper_bound. lia.
    + rewrite Hfb4. cbn [ssd0323_cd set_mode framebuffer]. by rewrite Hfb2.
Qed.

(** ** The buttons *)

(** The ports E and F with all pins inputs, the pins of the buttons at the inverse of the
    levels [lv]. *)
Record buttons_at (b : evb) (lv : nat → Z) : Prop := {
  b_port : ∀ p, p = GPIO_E ∨ p = GPIO_F →
    ∃ s l ps, gpio_dev b !! p = Some s ∧ gpio_is s l ps ∧ (∀ i, is_out ps i = false) ∧
      ∀ k pin, (k < 5)%nat → gpad_pin k = (p, pin) → high ps pin = negb (truth (lv k));
}.

Definition with_level (k : nat) (v : Z) (lv : nat → Z) : nat → Z := λ i, if decide (k = i) then v else lv i.

Lemma other_ports p ev b : p = GPIO_E ∨ p = GPIO_F → fold_left (gpio_out p) ev b = b.
Proof.
  intros Hp. induction ev as [|e ev IH]; [done|]. cbn [fold_left]. unfold gpio_out at 2.
  rewrite !decide_False; [done| |]; intros [E _]; by destruct Hp as [-> | ->].
Qed.

Lemma gpad_pin_inj k k' p pin : (k < 5)%nat → (k' < 5)%nat → gpad_pin k = (p, pin) → gpad_pin k' = (p, pin) → k = k'.
Proof. unfold gpad_pin. intros Hk Hk' H1 H2. repeat case_decide; simplify_eq; lia. Qed.
Lemma gpad_pin_port k : ∃ p pin, gpad_pin k = (p, pin) ∧ (p = GPIO_E ∨ p = GPIO_F) ∧ 0 <= pin < 8.
Proof. unfold gpad_pin. case_decide; eexists _, _; (split; [reflexivity|]); (split; [auto|lia]). Qed.

(** A line of a button, through its inverter. *)
Lemma button_moves k v b lv : buttons_at b lv → (k < 5)%nat → buttons_at (gpad_irq b (k, v)) (with_level k v lv).
Proof.
  intros [B] Hk. unfold gpad_irq. cbn [fst snd]. destruct (gpad_pin_port k) as (p & pin & Hg & Hp & Hpin). rewrite Hg.
  destruct (B p Hp) as (s & l & ps & Hs & G & Hin & Hh). unfold gpio_in, gpio_changed. rewrite Hs, other_ports by done.
  pose proof (input_pins pin (flag (negb (truth v))) s l ps G Hpin) as G'. cbn [pins_step] in G'. rewrite Hin in G'.
  constructor. intros q Hq. cbn [gpio_dev]. destruct (decide (q = p)) as [->|Hne].
  - eexists _, _, _. split; [apply list_lookup_insert_eq; by eapply lookup_lt_Some|]. split; [exact G'|]. cbn [is_out high]. split; [done|].
    intros k' pin' Hk' Hg'. unfold with_level. rewrite truth_flag. destruct (Z.eqb_spec pin' pin) as [->|Hd].
    + rewrite (gpad_pin_inj k k' p pin) by done. by rewrite decide_True.
    + rewrite decide_False by (intros ->; congruence). by apply Hh.
  - destruct (B q Hq) as (s1 & l1 & ps1 & Hs1 & G1 & Hin1 & Hh1). exists s1, l1, ps1. rewrite list_lookup_insert_ne by done. split_and!; try done.
    intros k' pin' Hk' Hg'. unfold with_level. rewrite decide_False by (intros ->; congruence). by apply Hh1.
Qed.

Lemma buttons_move ev b lv :
  buttons_at b lv → (∀ k v, (k, v) ∈ ev → (k < 5)%nat) →
  ∃ lv', buttons_at (fold_left gpad_irq ev b) lv' ∧ ∀ i, lv' i = button_line i ev (lv i).
Proof.
  revert b lv. induction ev as [|[k v] ev IH]; intros b lv B Hk; [by exists lv|]. cbn [fold_left].
  destruct (IH _ (with_level k v lv) (button_moves k v b lv B (Hk k v ltac:(set_solver)))) as (lv' & B' & Hl); [set_solver|].
  exists lv'. split; [done|]. intros i. rewrite Hl. cbn [button_line fold_left fst snd]. unfold with_level. done.
Qed.

Lemma gpad_irq_pad ev b : pad (fold_left gpad_irq ev b) = pad b.
Proof.
  revert b. induction ev as [|[k v] ev IH]; intros b; [done|]. cbn [fold_left]. rewrite IH. unfold gpad_irq. cbn [fst snd].
  destruct (gpad_pin_port k) as (p & pin & -> & Hp & _). unfold gpio_in, gpio_changed. destruct (gpio_dev b !! p); [|done]. by rewrite other_ports.
Qed.

Lemma keys_move codes b lv :
  buttons_at b lv → length (buttons (pad b)) = 5%nat →
  ∃ b' lv', evb_run (Key <$> codes) b = Ok b' ∧ pad b' = (put_keys codes (pad b)).1 ∧ buttons_at b' lv' ∧
    ∀ i, lv' i = button_line i (put_keys codes (pad b)).2 (lv i).
Proof.
  revert b lv. induction codes as [|code codes IH]; intros b lv B Hlen; [by exists b, lv|]. rewrite fmap_cons. cbn [evb_run evb_step put_keys].
  unfold put_key. pose proof (put_key_bounds code (pad b)) as Hbound. pose proof (put_key_length code (pad b)) as Hlen1.
  destruct (stellaris_gamepad_put_key code (pad b)) as [s1 ev1]. cbn [fst snd mbind res_bind] in *.
  assert (buttons_at (mkEvb (gpio_dev b) (ssi_port b) s1) lv) as B0 by (constructor; apply B).
  destruct (buttons_move ev1 _ lv B0) as (lv1 & B1 & Hl1). { intros k v Hk. specialize (Hbound k v Hk). lia. }
  destruct (IH _ lv1 B1) as (b' & lv' & Hr & Hp & B' & Hl'). { rewrite gpad_irq_pad. cbn. congruence. }
  rewrite gpad_irq_pad in Hp, Hl'. cbn [pad] in Hp, Hl'. exists b', lv'. destruct (put_keys codes s1) as [s2 ev2]. cbn [fst snd] in *.
  split_and!; [done|done|done|]. intros i. by rewrite Hl', Hl1, button_line_app.
Qed.

Lemma evb_init_buttons sd : buttons_at (evb_init sd) (λ i, button_line i ((λ i, (i, 0)) <$> seq 0 5) 1) ∧ pad (evb_init sd) = stellaris_gamepad_init gpad_keycode.
Proof.
  set (b0 := mkEvb (replicate 7 pl061_init) (pl022_init (Some (mkMux 1 (Some sd) (Some ssd0323_init)))) (stellaris_gamepad_init gpad_keycode)).
  change (evb_init sd) with (fold_left gpad_irq ((λ i, (i, 0)) <$> seq 0 5) b0). split; [|by rewrite gpad_irq_pad].
  assert (buttons_at b0 (λ _, 1)) as B0.
  { constructor. intros p Hp. exists pl061_init, (λ _, 0), pins_init. split_and!; try done; [by destruct Hp as [-> | ->]|].
    constructor; cbn; try done; intros i _; apply Z.bits_0. }
  destruct (buttons_move ((λ i, (i, 0)) <$> seq 0 5) b0 (λ _, 1) B0) as (lv' & B' & Hl).
  { intros k v Hk. apply list_elem_of_fmap in Hk as (j & [= -> ->] & Hj). apply elem_of_seq in Hj. lia. }
  constructor. intros p Hp. destruct (b_port _ _ B' p Hp) as (s & l & ps & Hs & G & Hin & Hh). exists s, l, ps. split_and!; try done.
  intros k pin Hk Hg. rewrite (Hh k pin Hk Hg). by rewrite Hl.
Qed.

(** [C34]: The guest sees the buttons: from power on, after any scan codes of the keyboard, a
    read of the data register at the pin of a button, four on port E and one on port F, gives
    0 exactly when the last event of the key of the button was a press. *)
Theorem evb_buttons_read sd codes i p pin k :
  gpad_pin i = (p, pin) → gpad_keycode !! i = Some k →
  ∃ b s v, evb_run (Key <$> codes) (evb_init sd) = Ok b ∧ gpio_dev b !! p = Some s ∧
    pl061_read pl061_id_luminary (Z.shiftl 1 (pin + 2)) s = Ok v ∧ truth v = negb (key_down false k (key_events false codes)).
Proof.
  intros Hg Hk. destruct (evb_init_buttons sd) as [B0 Hpad]. assert (i < 5)%nat as Hi by (apply lookup_lt_Some in Hk; done).
  destruct (keys_move codes (evb_init sd) _ B0) as (b & lv' & Hr & _ & [B'] & Hl); [by rewrite Hpad|].
  assert ((p = GPIO_E ∨ p = GPIO_F) ∧ 0 <= pin < 4) as [Hp Hpin]. { unfold gpad_pin in Hg. case_decide; simplify_eq; (split; [auto|lia]). }
  destruct (B' p Hp) as (s & l & ps & Hs & G & _ & Hh). exists b, s, (Z.land (data s) (Z.shiftl 1 pin)). split_and!; [done|done| |].
  - assert (Z.shiftl 1 (pin + 2) < 0x400 ∧ Z.shiftr (Z.shiftl 1 (pin + 2)) 2 = Z.shiftl 1 pin) as [Hlt Hsh].
    { assert (pin = 0 ∨ pin = 1 ∨ pin = 2 ∨ pin = 3) as [-> | [-> | [-> | ->]]] by lia; done. }
    unfold pl061_read, in_window. rewrite (proj2 (Z.leb_gt 0xfd0 _)) by lia. cbn [andb]. rewrite (proj2 (Z.ltb_lt _ 0x400)) by lia. by rewrite Hsh.
  - rewrite truth_land_bit, (gi_data _ _ _ G), (Hh i pin Hi Hg), Hl, Hpad by lia. do 2 f_equal.
    pose proof (put_keys_spec codes (stellaris_gamepad_init gpad_keycode) false false i k) as Hspec.
    destruct (put_keys codes (stellaris_gamepad_init gpad_keycode)) as [s' ev]. cbn [fst snd].
    assert (button_line i ((λ i, (i, 0)) <$> seq 0 5) 1 = flag false) as -> by (by do 5 (destruct i as [|i]; [done|]); lia).
    destruct Hspec as [_ ->]; [|done|by rewrite truth_flag]. cbn [buttons stellaris_gamepad_init]. by rewrite list_lookup_fmap, Hk.
Qed.

(** ** From power on *)

Definition enable_port : list evb_op := [Ssp_write 0x00 0x07; Ssp_write 0x04 0x02].

(** The board after power on, with the port enabled for bytes. *)
Lemma evb_boot_view sd :
  ok0 sd → ∃ b, evb_run enable_port (evb_init sd) = Ok b ∧ evb_view b (Some sd) ssd0323_init pins_init pins_init.
Proof.
  intros Hsd. set (m := mkMux 1 (Some sd) (Some ssd0323_init)).
  assert (gpio_is pl061_init (λ _, 0) pins_init) as G0. { constructor; cbn; try done; intros i _; apply Z.bits_0. }
  assert (bus_good (ok := mux_ok (ok0 := ok0) (ok1 := oled_ok)) (Some m)) as Hm. { split_and!; [by right|done|apply ssd0323_init_ok]. }
  pose proof (init_inv (Some m) Hm) as I0.
  pose proof (control_inv _ _ _ 0x07 0xff 0 I0 ltac:(lia)) as I1. cbn [cr1 im port pl022_init pl022_reset ssi port_irq] in I1.
  destruct (xfer_good _ [] [] (control_pre _ _ _ 0x07 0x02 0xff 0 0 (pi_pre _ _ _ I1) ltac:(lia))) as (k & rs & w' & Hx & I2 & He & C).
  rewrite drop_nil in I2. rewrite take_nil in He. injection He as <- Hbus. rewrite fmap_nil in I2. cbn [app] in I2.
  eexists. split.
  - cbn [evb_run enable_port evb_step]. change (ssi_port (evb_init sd)) with (pl022_init (Some m)).
    set (w1 := mkPort (set_control (port (pl022_init (Some m))) 0x07 0 0xff 0 0) (Some m) 0).
    change (pl022_write 0x00 0x07 (pl022_init (Some m))) with (Ok w1). cbn [mbind res_bind ssi_port].
    assert (pl022_write 0x04 0x02 w1 = Ok w') as -> by exact Hx. reflexivity.
  - destruct C as (_ & C1 & C2 & _). constructor; cbn [gpio_dev ssi_port pad]; try done.
    + by exists pl061_init, (λ _, 0).
    + by exists pl061_init, (λ _, 0).
    + exists 1. by rewrite <- Hbus.
    + unfold port_enabled. by rewrite C1.
    + unfold looped. by rewrite C1.
Qed.

(** The select line is raised by hand before the ports are connected.  A driver whose first
    act is to make D0 an output, low as it starts, selects the SD card on the pin, but port D
    reports no change, and the multiplexer stays on the display. *)
Theorem evb_first_select_lost sd :
  ∃ b m, evb_run [Gpio GPIO_D 0x400 0x01] (evb_init sd) = Ok b ∧
    (∃ s, gpio_dev b !! GPIO_D = Some s ∧ Z.testbit (old_data s) 0 = false) ∧ ssi (ssi_port b) = Some m ∧ current_dev m = 1.
Proof. eexists _, _. split; [reflexivity|]. split; [eexists; split; [reflexivity|]; vm_compute; reflexivity|]. split; [reflexivity|]. reflexivity. Qed.
End board.

(** ** A board with an idle card *)

#[global] Instance idle_card : SSISlave unit := { ssi_cb := λ _ d, Ok (0xff, d) }.
#[global] Instance idle_card_laws : SSISlaveLaws unit (λ _, True).
Proof. split. intros v d _ _. by exists 0xff, d. Qed.

Lemma evb_guest_draws_witness :
  ∃ b b' o' dest, evb_run enable_port (evb_init ()) = Ok b ∧ evb_run (draw_program 3 2 2 2 [0x5a; 0xff; 0x0c]) b = Ok b' ∧
    ssd0323_update_display 32 o' = Ok (Some dest, set_picture o' 0 (framebuffer o')) ∧
    dest !! ((8 * 512 + 24) * Z.to_nat 4 + 0)%nat = Some (Some 0x55) ∧ dest !! ((12 * 512 + 28) * Z.to_nat 4 + 2)%nat = Some (Some 0xcc).
Proof.
  destruct (evb_boot_view () Logic.I) as (b & Hb & V).
  destruct (evb_guest_draws b _ _ _ _ 3 2 2 2 [0x5a; 0xff; 0x0c] 32 4 V) as (b' & o' & pC' & pD' & dest & Hb' & _ & Hup & _ & Hpix).
  - reflexivity.
  - lia.
  - lia.
  - lia.
  - lia.
  - discriminate.
  - cbn. lia.
  - by repeat constructor.
  - reflexivity.
  - exists b, b', o', dest. split_and!; [exact Hb|exact Hb'|exact Hup| |].
    + rewrite (Hpix 8%nat 24%nat 0%nat) by lia. vm_compute. reflexivity.
    + rewrite (Hpix 12%nat 28%nat 2%nat) by lia. vm_compute. reflexivity.
Defined.

Lemma evb_buttons_read_witness :
  ∃ b s v, evb_run (Key <$> [0xe0; 0x48]) (evb_init ()) = Ok b ∧ gpio_dev b !! GPIO_E = Some s ∧
    pl061_read pl061_id_luminary (Z.shiftl 1 (0 + 2)) s = Ok v ∧ truth v = false.
Proof. apply (evb_buttons_read () [0xe0; 0x48] 0 GPIO_E 0 0xc8); reflexivity. Defined.

Lemma pl022_full_duplex_witness :
  ∃ acc recv w', driver_run [Send 5; Send 6; Receive] (mkPort (mkPl022 7 2 0xff 3 0 8 0 0 0 0 0 (replicate 8 0) (replicate 8 0)) (Some ()) 0) = Ok (acc, recv, w') ∧
    length acc = 2%nat.
Proof.
  destruct (pl022_full_duplex (ok := λ _ : unit, True) [Send 5; Send 6; Receive]
    (mkPort (mkPl022 7 2 0xff 3 0 8 0 0 0 0 0 (replicate 8 0) (replicate 8 0)) (Some ()) 0)) as (acc & recv & w' & sent & rs & tx & rx & Hr & _).
  - constructor; try done. constructor; try done. constructor; try done; first [apply ring_empty | cbn; lia].
  - exists acc, recv, w'. split; [exact Hr|]. revert Hr. vm_compute. intros [= <- _ _]. reflexivity.
Defined.

Lemma pl022_port_safe_witness :
  match port_run [Wr 0x00 7; Wr 0x04 2; Wr 0x08 0x41; Rd 0x08; Rd 0x24] (pl022_init (Some ())) with
  | Ok _ => False
  | Err e => e = Hw_error
  end.
Proof.
  pose proof (pl022_port_safe (ok := λ _ : unit, True) (Some ()) [Wr 0x00 7; Wr 0x04 2; Wr 0x08 0x41; Rd 0x08; Rd 0x24] Logic.I) as Hs.
  destruct (port_run _ _) as [w|e]; destruct Hs as [Hs _]; [discriminate|exact Hs].
Defined.
