(* ===== verification/Enet.v ===== *)
(** * Enet: the ethernet controller of the Stellaris boards (hw/stellaris_enet.c)

    The guest writes a frame as words to the data register, and the controller passes it
    to the network when it is complete; a packet that arrives is put, between its length
    and its checksum, into a ring of 31 buffers, from which the guest reads words.  The
    checksum ([crc32] of zlib) is a parameter.  An operation returns the levels of the
    interrupt line and the frames that it sends, in their order. *)

From S2P Require Import Prelude Display.
Local Open Scope Z_scope.

Definition SE_INT_RX : Z := 0x01.
Definition SE_INT_TXER : Z := 0x02.
Definition SE_INT_TXEMP : Z := 0x04.
Definition SE_INT_FOV : Z := 0x08.
Definition SE_INT_RXER : Z := 0x10.
Definition SE_INT_MD : Z := 0x20.
Definition SE_INT_PHY : Z := 0x40.
Definition SE_RCTL_RXEN : Z := 0x01.
Definition SE_RCTL_BADCRC : Z := 0x08.
Definition SE_RCTL_RSTFIFO : Z := 0x10.
Definition SE_TCTL_PADEN : Z := 0x02.
Definition SE_TCTL_CRC : Z := 0x04.

(** One of the 31 receive buffers. *)
Record rx_packet := mkRx { data : list Z; len : Z }.

(** [rx_fifo] points into a receive buffer: its number and the offset; NULL at first. *)
Record enet_state := mkEnet {
  ris : Z;
  im : Z;
  rctl : Z;
  tctl : Z;
  thr : Z;
  mctl : Z;
  mdv : Z;
  mtxd : Z;
  mrxd : Z;
  np : Z;
  tx_frame_len : Z;
  tx_fifo_len : Z;
  tx_fifo : list Z;
  rx : list rx_packet;
  rx_fifo : option (Z * Z);
  rx_fifo_len : Z;
  next_packet : Z;
  macaddr : list Z;
}.

Definition set_ris (s : enet_state) (v : Z) : enet_state :=
  mkEnet v (im s) (rctl s) (tctl s) (thr s) (mctl s) (mdv s) (mtxd s) (mrxd s) (np s) (tx_frame_len s) (tx_fifo_len s) (tx_fifo s) (rx s) (rx_fifo s) (rx_fifo_len s) (next_packet s) (macaddr s).
Definition set_im (s : enet_state) (v : Z) : enet_state :=
  mkEnet (ris s) v (rctl s) (tctl s) (thr s) (mctl s) (mdv s) (mtxd s) (mrxd s) (np s) (tx_frame_len s) (tx_fifo_len s) (tx_fifo s) (rx s) (rx_fifo s) (rx_fifo_len s) (next_packet s) (macaddr s).
Definition set_rctl (s : enet_state) (v : Z) : enet_state :=
  mkEnet (ris s) (im s) v (tctl s) (thr s) (mctl s) (mdv s) (mtxd s) (mrxd s) (np s) (tx_frame_len s) (tx_fifo_len s) (tx_fifo s) (rx s) (rx_fifo s) (rx_fifo_len s) (next_packet s) (macaddr s).
Definition set_tctl (s : enet_state) (v : Z) : enet_state :=
  mkEnet (ris s) (im s) (rctl s) v (thr s) (mctl s) (mdv s) (mtxd s) (mrxd s) (np s) (tx_frame_len s) (tx_fifo_len s) (tx_fifo s) (rx s) (rx_fifo s) (rx_fifo_len s) (next_packet s) (macaddr s).
Definition set_thr (s : enet_state) (v : Z) : enet_state :=
  mkEnet (ris s) (im s) (rctl s) (tctl s) v (mctl s) (mdv s) (mtxd s) (mrxd s) (np s) (tx_frame_len s) (tx_fifo_len s) (tx_fifo s) (rx s) (rx_fifo s) (rx_fifo_len s) (next_packet s) (macaddr s).
Definition set_mctl (s : enet_state) (v : Z) : enet_state :=
  mkEnet (ris s) (im s) (rctl s) (tctl s) (thr s) v (mdv s) (mtxd s) (mrxd s) (np s) (tx_frame_len s) (tx_fifo_len s) (tx_fifo s) (rx s) (rx_fifo s) (rx_fifo_len s) (next_packet s) (macaddr s).
Definition set_mdv (s : enet_state) (v : Z) : enet_state :=
  mkEnet (ris s) (im s) (rctl s) (tctl s) (thr s) (mctl s) v (mtxd s) (mrxd s) (np s) (tx_frame_len s) (tx_fifo_len s) (tx_fifo s) (rx s) (rx_fifo s) (rx_fifo_len s) (next_packet s) (macaddr s).
Definition set_mtxd (s : enet_state) (v : Z) : enet_state :=
  mkEnet (ris s) (im s) (rctl s) (tctl s) (thr s) (mctl s) (mdv s) v (mrxd s) (np s) (tx_frame_len s) (tx_fifo_len s) (tx_fifo s) (rx s) (rx_fifo s) (rx_fifo_len s) (next_packet s) (macaddr s).
Definition set_tx_frame_len (s : enet_state) (v : Z) : enet_state :=
  mkEnet (ris s) (im s) (rctl s) (tctl s) (thr s) (mctl s) (mdv s) (mtxd s) (mrxd s) (np s) v (tx_fifo_len s) (tx_fifo s) (rx s) (rx_fifo s) (rx_fifo_len s) (next_packet s) (macaddr s).
Definition set_macaddr (s : enet_state) (v : list Z) : enet_state :=
  mkEnet (ris s) (im s) (rctl s) (tctl s) (thr s) (mctl s) (mdv s) (mtxd s) (mrxd s) (np s) (tx_frame_len s) (tx_fifo_len s) (tx_fifo s) (rx s) (rx_fifo s) (rx_fifo_len s) (next_packet s) v.
Definition set_tx (s : enet_state) (l n : Z) (d : list Z) : enet_state :=
  mkEnet (ris s) (im s) (rctl s) (tctl s) (thr s) (mctl s) (mdv s) (mtxd s) (mrxd s) (np s) l n d (rx s) (rx_fifo s) (rx_fifo_len s) (next_packet s) (macaddr s).
Definition set_rx (s : enet_state) (v : list rx_packet) (n : Z) : enet_state :=
  mkEnet (ris s) (im s) (rctl s) (tctl s) (thr s) (mctl s) (mdv s) (mtxd s) (mrxd s) n (tx_frame_len s) (tx_fifo_len s) (tx_fifo s) v (rx_fifo s) (rx_fifo_len s) (next_packet s) (macaddr s).
Definition set_reader (s : enet_state) (p : option (Z * Z)) (n : Z) : enet_state :=
  mkEnet (ris s) (im s) (rctl s) (tctl s) (thr s) (mctl s) (mdv s) (mtxd s) (mrxd s) (np s) (tx_frame_len s) (tx_fifo_len s) (tx_fifo s) (rx s) p n (next_packet s) (macaddr s).
Definition set_ring (s : enet_state) (n k : Z) : enet_state :=
  mkEnet (ris s) (im s) (rctl s) (tctl s) (thr s) (mctl s) (mdv s) (mtxd s) (mrxd s) n (tx_frame_len s) (tx_fifo_len s) (tx_fifo s) (rx s) (rx_fifo s) (rx_fifo_len s) k (macaddr s).

Inductive enet_effect :=
| Irq (level : Z)
| Send_packet (buf : list Z) (size : Z).

Definition stellaris_enet_update (s : enet_state) : enet_effect := Irq (flag (truth (Z.land (ris s) (im s)))).

(** Bytes of a word, lowest first, and the word of four bytes. *)
Definition le_bytes (v : Z) : list Z := [u8 v; u8 (Z.shiftr v 8); u8 (Z.shiftr v 16); u8 (Z.shiftr v 24)].
Definition le_word (b0 b1 b2 b3 : Z) : Z :=
  Z.lor (Z.lor (Z.lor b0 (Z.shiftl b1 8)) (Z.shiftl b2 16)) (Z.shiftl b3 24).

(** Stores at a pointer that moves along the array. *)
Fixpoint store (d : list Z) (p : Z) (src : list Z) : res (list Z) :=
  match src with [] => Ok d | b :: src => d ← awrite d p b; store d (p + 1) src end.

Section device.
Context (crc32 : Z → list Z → Z).

Definition stellaris_enet_receive (buf : list Z) (s : enet_state) : res (Z * enet_state * list enet_effect) :=
  let size := Z.of_nat (length buf) in
  if Z.land (rctl s) SE_RCTL_RXEN =? 0 then Ok (-1, s, [])
  else if 31 <=? np s then Ok (-1, s, [])
  else
    let n := next_packet s + np s in
    let n := if 31 <=? n then n - 31 else n in
    p ← aread (rx s) n;
    d ← store (data p) 0 [u8 (size + 6); u8 (Z.shiftr (size + 6) 8)];
    d ← store d 2 buf;
    d ← store d (2 + size) (le_bytes (u32 (crc32 (2 ^ 32 - 1) buf)));
    d ← (if Z.land size 3 =? 2 then Ok d else memset d (2 + size + 4) 0 (Z.land (6 - size) 3));
    r ← awrite (rx s) n (mkRx d (size + 6));
    let s := set_rx s r (u32 (np s + 1)) in
    let s := set_ris s (Z.lor (ris s) SE_INT_RX) in
    Ok (size, s, [stellaris_enet_update s]).

Definition stellaris_enet_can_receive (s : enet_state) : Z :=
  if Z.land (rctl s) SE_RCTL_RXEN =? 0 then 1 else flag (np s <? 31).

(** The four bytes at the pointer into the receive buffers. *)
Definition word_at (d : list Z) (off : Z) : res Z :=
  b0 ← aread d off; b1 ← aread d (off + 1); b2 ← aread d (off + 2); b3 ← aread d (off + 3);
  Ok (le_word b0 b1 b2 b3).
Definition rx_word (s : enet_state) : res Z :=
  '(k, off) ← deref (rx_fifo s); p ← aread (rx s) k; word_at (data p) off.

(** The case of the data register; [BADF] only prints here. *)
Definition read_data (s : enet_state) : res (Z * enet_state) :=
  if (rx_fifo_len s =? 0) && (np s =? 0) then Ok (0, s)
  else
    s ← (if rx_fifo_len s =? 0 then p ← aread (rx s) (next_packet s); Ok (set_reader s (Some (next_packet s, 0)) (len p)) else Ok s);
    val ← rx_word s;
    let s := set_reader s ((λ '(k, off), (k, off + 4)) <$> rx_fifo s) (rx_fifo_len s - 4) in
    let s :=
      if rx_fifo_len s <=? 0 then
        let s := set_reader s (rx_fifo s) 0 in
        let k := next_packet s + 1 in
        set_ring s (u32 (np s - 1)) (if 31 <=? k then 0 else k)
      else s in
    Ok (val, s).

Definition mac (s : enet_state) (i : Z) : res Z := aread (macaddr s) i.

Definition stellaris_enet_read (offset : Z) (s : enet_state) : res (Z * enet_state) :=
  match offset with
  | 0x00 => Ok (ris s, s)
  | 0x04 => Ok (im s, s)
  | 0x08 => Ok (rctl s, s)
  | 0x0c => Ok (tctl s, s)
  | 0x10 => read_data s
  | 0x14 => a ← mac s 0; b ← mac s 1; c ← mac s 2; d ← mac s 3; Ok (le_word a b c d, s)
  | 0x18 => a ← mac s 4; b ← mac s 5; Ok (Z.lor a (Z.shiftl b 8), s)
  | 0x1c => Ok (thr s, s)
  | 0x20 => Ok (mctl s, s)
  | 0x24 => Ok (mdv s, s)
  | 0x28 => Ok (0, s)
  | 0x2c => Ok (mtxd s, s)
  | 0x30 => Ok (mrxd s, s)
  | 0x34 => Ok (np s, s)
  | 0x38 | 0x3c => Ok (0, s)
  | _ => Err Hw_error
  end.

(** The case of the data register: the first word of a frame, or the next one. *)
Definition start_frame (value : Z) (s : enet_state) : res (enet_state * list enet_effect) :=
  let l := Z.land value 0xffff in
  if 2032 <? l then
    let s := set_ris (set_tx_frame_len s 0) (Z.lor (ris s) SE_INT_TXER) in
    Ok (s, [stellaris_enet_update s])
  else
    let l := l + 14 in
    let l := if Z.land (tctl s) SE_TCTL_CRC =? 0 then l + 4 else l in
    d ← store (tx_fifo s) 0 [u8 (Z.shiftr value 16); u8 (Z.shiftr value 24)];
    Ok (set_tx s l 2 d, []).

Definition next_word (value : Z) (s : enet_state) : res (enet_state * list enet_effect) :=
  d ← store (tx_fifo s) (tx_fifo_len s) (le_bytes value);
  let n := tx_fifo_len s + 4 in
  if tx_frame_len s <=? n then
    let l := if Z.land (tctl s) SE_TCTL_CRC =? 0 then tx_frame_len s - 4 else tx_frame_len s in
    '(d, n) ← (if truth (Z.land (tctl s) SE_TCTL_PADEN) && (l <? 60) then d ← memset d l 0 (60 - l); Ok (d, 60) else Ok (d, n));
    let s := set_tx s (-1) n d in
    let s := set_ris s (Z.lor (ris s) SE_INT_TXEMP) in
    Ok (s, [Send_packet d l; stellaris_enet_update s])
  else Ok (set_tx s (tx_frame_len s) n d, []).

Definition stellaris_enet_write (offset value : Z) (s : enet_state) : res (enet_state * list enet_effect) :=
  match offset with
  | 0x00 =>
      let s := set_ris s (Z.ldiff (ris s) value) in
      let e := stellaris_enet_update s in
      Ok (if truth (Z.land value SE_INT_TXER) then set_tx_frame_len s (-1) else s, [e])
  | 0x04 => let s := set_im s value in Ok (s, [stellaris_enet_update s])
  | 0x08 =>
      let s := set_rctl s value in
      if truth (Z.land value SE_RCTL_RSTFIFO) then
        let s := set_ring (set_reader s (rx_fifo s) 0) 0 (next_packet s) in Ok (s, [stellaris_enet_update s])
      else Ok (s, [])
  | 0x0c => Ok (set_tctl s value, [])
  | 0x10 => if tx_frame_len s =? -1 then start_frame value s else next_word value s
  | 0x14 => m ← store (macaddr s) 0 (le_bytes value); Ok (set_macaddr s m, [])
  | 0x18 => m ← store (macaddr s) 4 [u8 value; u8 (Z.shiftr value 8)]; Ok (set_macaddr s m, [])
  | 0x1c => Ok (set_thr s value, [])
  | 0x20 => Ok (set_mctl s value, [])
  | 0x24 => Ok (set_mdv s value, [])
  | 0x28 => Ok (s, [])
  | 0x2c => Ok (set_mtxd s (Z.land value 0xff), [])
  | 0x30 | 0x34 | 0x38 | 0x3c => Ok (s, [])
  | _ => Err Hw_error
  end.

End device.

Definition stellaris_enet_reset (s : enet_state) : enet_state :=
  let all := Z.lor (Z.lor (Z.lor (Z.lor (Z.lor (Z.lor SE_INT_PHY SE_INT_MD) SE_INT_RXER) SE_INT_FOV) SE_INT_TXEMP) SE_INT_TXER) SE_INT_RX in
  set_tx_frame_len (set_thr (set_im (set_rctl (set_mdv s 0x80) SE_RCTL_BADCRC) all) 0x3f) (-1).

(** The state is allocated zeroed; [conf] is the configured address. *)
Definition stellaris_enet_init (conf : list Z) : enet_state :=
  stellaris_enet_reset
    (mkEnet 0 0 0 0 0 0 0 0 0 0 0 0 (replicate 2048 0) (replicate 31 (mkRx (replicate 2048 0) 0)) None 0 0 conf).

(** ** Words and bytes *)

(** The words of a sequence of bytes, the last one filled up with zeros. *)
Fixpoint words (l : list Z) : list Z :=
  match l with
  | [] => []
  | [a] => [le_word a 0 0 0]
  | [a; b] => [le_word a b 0 0]
  | [a; b; c] => [le_word a b c 0]
  | a :: b :: c :: d :: l => le_word a b c d :: words l
  end.

Definition is_byte (b : Z) : Prop := 0 <= b < 2 ^ 8.

(** ** The specification

    A queue of packets, each the words of it that are still to be read, and the frame that
    the guest is writing. *)

Inductive tx_state :=
| Idle
| Refused
| Filling (need : Z) (got : list Z).

Record enet_abs := mkAbs {
  a_ris : Z;
  a_im : Z;
  a_rctl : Z;
  a_tctl : Z;
  a_rx : list (list Z);
  a_tx : tx_state;
}.

Inductive enet_op :=
| Eread (offset : Z)
| Ewrite (offset value : Z)
| Epacket (buf : list Z).

(** What the guest and the network see: the value of a read, a frame, and the answers to
    the network. *)
Inductive enet_obs :=
| Value (offset v : Z)
| Sent (frame : list Z)
| Answer (can_receive ret : Z).

Definition shown (offset : Z) : bool := (offset =? 0) || (offset =? 0x10) || (offset =? 0x34).

Section spec.
Context (crc32 : Z → list Z → Z).

(** What is stored of a packet: length, contents, checksum. *)
Definition stored (buf : list Z) : list Z :=
  let size := Z.of_nat (length buf) in
  [u8 (size + 6); u8 (Z.shiftr (size + 6) 8)] ++ buf ++ le_bytes (u32 (crc32 (2 ^ 32 - 1) buf)).

Definition abs_read (offset : Z) (a : enet_abs) : res (list enet_obs * enet_abs) :=
  match offset with
  | 0x00 => Ok ([Value 0 (a_ris a)], a)
  | 0x10 =>
      match a_rx a with
      | (w :: ws) :: q =>
          Ok ([Value 0x10 w], mkAbs (a_ris a) (a_im a) (a_rctl a) (a_tctl a) (match ws with [] => q | _ => ws :: q end) (a_tx a))
      | _ => Ok ([Value 0x10 0], a)
      end
  | 0x34 => Ok ([Value 0x34 (Z.of_nat (length (a_rx a)))], a)
  | 0x04 | 0x08 | 0x0c | 0x14 | 0x18 | 0x1c | 0x20 | 0x24 | 0x28 | 0x2c | 0x30 | 0x38 | 0x3c => Ok ([], a)
  | _ => Err Hw_error
  end.

(** [Out_of_bounds]: what the controller has no room for, and a word of a refused frame. *)
Definition abs_data (value : Z) (a : enet_abs) : res (list enet_obs * enet_abs) :=
  let l := Z.land value 0xffff in
  let crc := if Z.land (a_tctl a) SE_TCTL_CRC =? 0 then 4 else 0 in
  match a_tx a with
  | Idle =>
      if 2032 <? l then Ok ([], mkAbs (Z.lor (a_ris a) SE_INT_TXER) (a_im a) (a_rctl a) (a_tctl a) (a_rx a) Refused)
      else if 2046 <? l + 14 + crc then Err Out_of_bounds
      else Ok ([], mkAbs (a_ris a) (a_im a) (a_rctl a) (a_tctl a) (a_rx a) (Filling (l + 14 + crc) [u8 (Z.shiftr value 16); u8 (Z.shiftr value 24)]))
  | Refused => Err Out_of_bounds
  | Filling need got =>
      let got := got ++ le_bytes value in
      if need <=? Z.of_nat (length got) then
        Ok ([Sent (take (Z.to_nat (need - crc)) got)], mkAbs (Z.lor (a_ris a) SE_INT_TXEMP) (a_im a) (a_rctl a) (a_tctl a) (a_rx a) Idle)
      else Ok ([], mkAbs (a_ris a) (a_im a) (a_rctl a) (a_tctl a) (a_rx a) (Filling need got))
  end.

Definition abs_write (offset value : Z) (a : enet_abs) : res (list enet_obs * enet_abs) :=
  match offset with
  | 0x00 => Ok ([], mkAbs (Z.ldiff (a_ris a) value) (a_im a) (a_rctl a) (a_tctl a) (a_rx a) (if truth (Z.land value SE_INT_TXER) then Idle else a_tx a))
  | 0x04 => Ok ([], mkAbs (a_ris a) value (a_rctl a) (a_tctl a) (a_rx a) (a_tx a))
  | 0x08 => Ok ([], mkAbs (a_ris a) (a_im a) value (a_tctl a) (if truth (Z.land value SE_RCTL_RSTFIFO) then [] else a_rx a) (a_tx a))
  | 0x0c => Ok ([], mkAbs (a_ris a) (a_im a) (a_rctl a) value (a_rx a) (a_tx a))
  | 0x10 => abs_data value a
  | 0x14 | 0x18 | 0x1c | 0x20 | 0x24 | 0x28 | 0x2c | 0x30 | 0x34 | 0x38 | 0x3c => Ok ([], a)
  | _ => Err Hw_error
  end.

Definition abs_packet (buf : list Z) (a : enet_abs) : res (list enet_obs * enet_abs) :=
  let size := Z.of_nat (length buf) in
  if Z.land (a_rctl a) SE_RCTL_RXEN =? 0 then Ok ([Answer 1 (-1)], a)
  else if (31 <=? length (a_rx a))%nat then Ok ([Answer 0 (-1)], a)
  else if 2042 <? size then Err Out_of_bounds
  else Ok ([Answer 1 size], mkAbs (Z.lor (a_ris a) SE_INT_RX) (a_im a) (a_rctl a) (a_tctl a) (a_rx a ++ [words (stored buf)]) (a_tx a)).

Definition abs_step (op : enet_op) (a : enet_abs) : res (list enet_obs * enet_abs) :=
  match op with
  | Eread offset => abs_read offset a
  | Ewrite offset value => abs_write offset value a
  | Epacket buf => abs_packet buf a
  end.

Fixpoint abs_run (ops : list enet_op) (a : enet_abs) : res (list enet_obs * enet_abs) :=
  match ops with
  | [] => Ok ([], a)
  | op :: ops => '(o, a) ← abs_step op a; '(os, a) ← abs_run ops a; Ok (o ++ os, a)
  end.

(** The controller, with what is seen of it and the level of its line. *)
Definition sent (e : enet_effect) : list enet_obs :=
  match e with Send_packet buf size => [Sent (take (Z.to_nat size) buf)] | Irq _ => [] end.
Definition line_after (out : Z) (e : enet_effect) : Z := match e with Irq l => l | _ => out end.

Definition enet_step (op : enet_op) (s : enet_state) : res (list enet_obs * enet_state * list enet_effect) :=
  match op with
  | Eread offset => '(v, s) ← stellaris_enet_read offset s; Ok (if shown offset then [Value offset v] else [], s, [])
  | Ewrite offset value => '(s, e) ← stellaris_enet_write offset value s; Ok (concat (sent <$> e), s, e)
  | Epacket buf =>
      '(r, s', e) ← stellaris_enet_receive crc32 buf s; Ok ([Answer (stellaris_enet_can_receive s) r], s', e)
  end.

Fixpoint enet_run (ops : list enet_op) (s : enet_state) (out : Z) : res (list enet_obs * enet_state * Z) :=
  match ops with
  | [] => Ok ([], s, out)
  | op :: ops =>
      '(o, s, e) ← enet_step op s;
      '(os, s, out) ← enet_run ops s (fold_left line_after e out);
      Ok (o ++ os, s, out)
  end.

End spec.

Definition abs_init : enet_abs := mkAbs 0 0x7f SE_RCTL_BADCRC 0 [] Idle.

(** ** The relation between the two *)

(** From [off] on, [n] bytes of a buffer are the words [ws]. *)
Record buffered (d : list Z) (off n : Z) (ws : list Z) : Prop := {
  b_len : 4 * Z.of_nat (length ws) - 3 <= n <= 4 * Z.of_nat (length ws);
  b_some : ws ≠ [];
  b_words : ∀ k w, ws !! k = Some w → word_at d (off + 4 * Z.of_nat k) = Ok w;
}.

Definition waiting (p : rx_packet) (ws : list Z) : Prop := length (data p) = 2048%nat ∧ buffered (data p) 0 (len p) ws.

(** The packet being read: [off] bytes of it are gone. *)
Definition reading (s : enet_state) (p : rx_packet) (ws : list Z) : Prop :=
  if rx_fifo_len s =? 0 then waiting p ws
  else ∃ off, rx_fifo s = Some (next_packet s, off) ∧ length (data p) = 2048%nat ∧ buffered (data p) off (rx_fifo_len s) ws.

Record rx_ok (q : list (list Z)) (s : enet_state) : Prop := {
  r_ring : length (rx s) = 31%nat;
  r_bufs : Forall (λ p, length (data p) = 2048%nat) (rx s);
  r_pos : 0 <= next_packet s < 31;
  r_count : np s = Z.of_nat (length q);
  r_room : (length q ≤ 31)%nat;
  r_holds : match q with
            | [] => rx_fifo_len s = 0
            | ws :: q => ∃ p ps, ring_holds 31 (rx s) (next_packet s) (p :: ps) ∧ reading s p ws ∧ Forall2 waiting ps q
            end;
}.

Definition tx_ok (t : tx_state) (s : enet_state) : Prop :=
  length (tx_fifo s) = 2048%nat ∧
  match t with
  | Idle => tx_frame_len s = -1
  | Refused => tx_frame_len s = 0
  | Filling need got =>
      tx_frame_len s = need ∧ 14 <= need <= 2046 ∧ tx_fifo_len s = Z.of_nat (length got) ∧ Z.of_nat (length got) < need ∧
      (∃ k, length got = 4 * k + 2)%nat ∧ take (length got) (tx_fifo s) = got
  end.

Record enet_ok (a : enet_abs) (s : enet_state) : Prop := {
  e_ris : ris s = a_ris a;
  e_im : im s = a_im a;
  e_rctl : rctl s = a_rctl a;
  e_tctl : tctl s = a_tctl a;
  e_mac : length (macaddr s) = 6%nat;
  e_rx : rx_ok (a_rx a) s;
  e_tx : tx_ok (a_tx a) s;
}.

Definition enet_line (s : enet_state) : Z := flag (truth (Z.land (ris s) (im s))).

(** ** Bytes stored one after another *)

Lemma awrite_app (pre rest : list Z) v :
  (0 < length rest)%nat → awrite (pre ++ rest) (Z.of_nat (length pre)) v = Ok ((pre ++ [v]) ++ drop 1 rest).
Proof.
  intros Hr. rewrite awrite_nat by (rewrite length_app; lia). f_equal. rewrite insert_app_r_alt, Nat.sub_diag by lia.
  destruct rest as [|x rest]; [cbn in Hr; lia|]. cbn. by rewrite <- app_assoc.
Qed.
Lemma store_app src pre rest :
  (length src ≤ length rest)%nat → store (pre ++ rest) (Z.of_nat (length pre)) src = Ok ((pre ++ src) ++ drop (length src) rest).
Proof.
  revert pre rest. induction src as [|b src IH]; intros pre rest Hl; cbn [store length] in *; [by rewrite app_nil_r|].
  rewrite awrite_app by lia. cbn [mbind res_bind].
  replace (Z.of_nat (length pre) + 1) with (Z.of_nat (length (pre ++ [b]))) by (rewrite length_app; cbn; lia).
  rewrite IH by (rewrite length_drop; lia). rewrite drop_drop. do 2 f_equal. by rewrite <- app_assoc.
Qed.
Lemma memset_app (pre rest : list Z) v (n : nat) :
  (n ≤ length rest)%nat → memset (pre ++ rest) (Z.of_nat (length pre)) v (Z.of_nat n) = Ok ((pre ++ replicate n v) ++ drop n rest).
Proof.
  intros Hn. unfold memset. pose (g := λ j : nat, (pre ++ replicate j v) ++ drop j rest).
  replace (pre ++ rest) with (g O) by (unfold g; cbn; by rewrite app_nil_r).
  rewrite (for_upto_spec _ g); [by rewrite Nat2Z.id|]. intros j Hj. rewrite Nat2Z.id in Hj. unfold g.
  replace (Z.of_nat (length pre) + Z.of_nat j) with (Z.of_nat (length (pre ++ replicate j v))) by (rewrite length_app, length_replicate; lia).
  rewrite awrite_app by (rewrite length_drop; lia). rewrite drop_drop. replace (j + 1)%nat with (S j) by lia. do 2 f_equal.
  rewrite <- app_assoc. f_equal. by rewrite replicate_S_end.
Qed.
Lemma store_prefix d n src :
  0 <= n → (Z.to_nat n + length src ≤ length d)%nat →
  store d n src = Ok ((take (Z.to_nat n) d ++ src) ++ drop (Z.to_nat n + length src) d).
Proof.
  intros Hn Hl. pose proof (store_app src (take (Z.to_nat n) d) (drop (Z.to_nat n) d)) as H.
  rewrite take_drop, length_take, length_drop, drop_drop in H. rewrite <- H by lia. f_equal. lia.
Qed.

(** Reading the words of a prefix. *)
Lemma word_at_app pre rest off a b c d :
  length pre = Z.to_nat off → 0 <= off → word_at (pre ++ a :: b :: c :: d :: rest) off = Ok (le_word a b c d).
Proof.
  intros Hp Ho. assert (∀ (k : nat) x, (a :: b :: c :: d :: rest) !! k = Some x → aread (pre ++ a :: b :: c :: d :: rest) (off + Z.of_nat k) = Ok x) as H.
  { intros k x Hx. apply aread_lookup. split; [lia|]. rewrite lookup_app_r by lia. rewrite <- Hx. f_equal. lia. }
  pose proof (H 0%nat a eq_refl) as H0. rewrite Z.add_0_r in H0. unfold word_at. rewrite H0.
  change (off + 1) with (off + Z.of_nat 1). change (off + 2) with (off + Z.of_nat 2). change (off + 3) with (off + Z.of_nat 3).
  by rewrite (H 1%nat b eq_refl), (H 2%nat c eq_refl), (H 3%nat d eq_refl).
Qed.

Lemma words_length l : 4 * Z.of_nat (length (words l)) - 3 <= Z.of_nat (length l) <= 4 * Z.of_nat (length (words l)) ∨ l = [].
Proof.
  induction l as [l IH] using (induction_ltof1 _ length). unfold ltof in IH.
  destruct l as [|a [|b [|c [|d l]]]]; [by right|left; cbn; lia..|]. left. cbn [words length].
  destruct (IH l ltac:(cbn; lia)) as [?| ->]; [lia|cbn; lia].
Qed.
Lemma words_nonnil l : l ≠ [] → words l ≠ [].
Proof. by destruct l as [|a [|b [|c [|d l]]]]. Qed.

(** A buffer that starts with some bytes, filled up with zeros to a word, holds their words. *)
Lemma words_at l pre rest k w :
  words l !! k = Some w →
  word_at (pre ++ (l ++ replicate (4 * length (words l) - length l) 0) ++ rest) (Z.of_nat (length pre) + 4 * Z.of_nat k) = Ok w.
Proof.
  revert pre k. induction l as [l IH] using (induction_ltof1 _ length). unfold ltof in IH. intros pre k.
  assert (∀ a b c d tl, le_word a b c d = w → k = O → word_at (pre ++ a :: b :: c :: d :: tl) (Z.of_nat (length pre) + 4 * Z.of_nat k) = Ok w) as H0.
  { intros a b c d tl <- ->. rewrite Z.add_0_r. apply word_at_app; lia. }
  destruct l as [|a [|b [|c [|d l]]]]; [done|cbn; intros [??]%list_lookup_singleton_Some; by apply H0..|].
  cbn [words]. destruct k as [|k]; cbn [lookup list_lookup]; [intros [= ?]; by apply H0|]. intros Hk.
  pose proof (IH l ltac:(cbn; lia) (pre ++ [a; b; c; d]) k Hk) as H. rewrite <- app_assoc in H. cbn [app] in *.
  rewrite length_app in H. cbn [length] in *. rewrite <- H.
  replace (4 * S (length (words l)) - S (S (S (S (length l)))))%nat with (4 * length (words l) - length l)%nat by lia.
  f_equal; lia.
Qed.
Lemma words_buffered l rest :
  l ≠ [] → buffered ((l ++ replicate (4 * length (words l) - length l) 0) ++ rest) 0 (Z.of_nat (length l)) (words l).
Proof.
  intros Hl. constructor; [by destruct (words_length l)|by apply words_nonnil|]. intros k w Hk.
  exact (words_at l [] rest k w Hk).
Qed.

(** ** What an operation leaves alone *)

(** The state depends on the receive side only through these fields. *)
Lemma rx_ok_frame q s s' :
  rx s' = rx s → next_packet s' = next_packet s → np s' = np s → rx_fifo_len s' = rx_fifo_len s → rx_fifo s' = rx_fifo s →
  rx_ok q s → rx_ok q s'.
Proof.
  intros E1 E2 E3 E4 E5 [H1 H2 H3 H4 H5 H6]. constructor; rewrite ?E1, ?E2, ?E3; try done.
  unfold reading in *. by rewrite E2, E4, E5.
Qed.

Lemma tx_ok_frame t s s' :
  tx_fifo s' = tx_fifo s → tx_frame_len s' = tx_frame_len s → tx_fifo_len s' = tx_fifo_len s → tx_ok t s → tx_ok t s'.
Proof. unfold tx_ok. by intros -> -> ->. Qed.

(** The abstract state carries over when only registers change. *)
Ltac enet_parts :=
  match goal with H : enet_ok _ _ |- _ =>
    let H1 := fresh "Hris" in let H2 := fresh "Him" in let H3 := fresh "Hrctl" in let H4 := fresh "Htctl" in
    let H5 := fresh "Hmac" in let H6 := fresh "Hrx" in let H7 := fresh "Htx" in destruct H as [H1 H2 H3 H4 H5 H6 H7] end.
Ltac enet_close :=
  constructor; cbn [ris im rctl tctl macaddr a_ris a_im a_rctl a_tctl a_rx a_tx set_ris set_im set_rctl set_tctl set_tx set_tx_frame_len set_macaddr set_thr
      set_mctl set_mdv set_mtxd set_rx set_reader set_ring];
  try congruence; try (eapply rx_ok_frame; [..|eassumption]; reflexivity); try (eapply tx_ok_frame; [..|eassumption]; reflexivity).

(** ** A packet arrives *)

Section refinement.
Context (crc32 : Z → list Z → Z).

Lemma store_at pre rest off src :
  off = Z.of_nat (length pre) → (length src ≤ length rest)%nat → store (pre ++ rest) off src = Ok ((pre ++ src) ++ drop (length src) rest).
Proof. intros ->. apply store_app. Qed.

Lemma stored_length buf : length (stored crc32 buf) = (length buf + 6)%nat.
Proof. unfold stored. rewrite !length_app. cbn. lia. Qed.

(** The zeros that complete the last word. *)
Definition pad (buf : list Z) : nat := 4 * length (words (stored crc32 buf)) - length (stored crc32 buf).

Lemma pad_small buf : (pad buf < 4)%nat ∧ ∃ k, Z.of_nat (length buf) + 6 + Z.of_nat (pad buf) = 4 * k.
Proof.
  unfold pad. pose proof (stored_length buf). destruct (words_length (stored crc32 buf)) as [?|E]; [|rewrite E in *; cbn in *; lia].
  split; [lia|]. exists (Z.of_nat (length (words (stored crc32 buf)))). lia.
Qed.
Lemma pad_value buf : Z.land (6 - Z.of_nat (length buf)) 3 = Z.of_nat (pad buf).
Proof.
  destruct (pad_small buf) as (? & k & Hk). change 3 with (2 ^ 2 - 1). rewrite land_mod by lia.
  replace (6 - Z.of_nat (length buf)) with (Z.of_nat (pad buf) + (3 - k) * 4) by lia. change (2 ^ 2) with 4.
  rewrite Z.mod_add by lia. apply Z.mod_small. lia.
Qed.
Lemma pad_zero buf : Z.land (Z.of_nat (length buf)) 3 = 2 → pad buf = O.
Proof.
  destruct (pad_small buf) as (? & k & Hk). change 3 with (2 ^ 2 - 1). rewrite land_mod by lia. change (2 ^ 2) with 4. intros Hm.
  pose proof (Z.div_mod (Z.of_nat (length buf)) 4). lia.
Qed.

(** The stores of [stellaris_enet_receive], which fit exactly when the packet has at most
    2042 bytes. *)
Definition store_packet (d buf : list Z) : res (list Z) :=
  let size := Z.of_nat (length buf) in
  d ← store d 0 [u8 (size + 6); u8 (Z.shiftr (size + 6) 8)];
  d ← store d 2 buf;
  d ← store d (2 + size) (le_bytes (u32 (crc32 (2 ^ 32 - 1) buf)));
  if Z.land size 3 =? 2 then Ok d else memset d (2 + size + 4) 0 (Z.land (6 - size) 3).

Lemma store_packet_ok d buf :
  length d = 2048%nat → Z.of_nat (length buf) <= 2042 →
  store_packet d buf = Ok ((stored crc32 buf ++ replicate (pad buf) 0) ++ drop (length (stored crc32 buf) + pad buf) d).
Proof.
  intros Hd Hb. destruct (pad_small buf) as (Hp & k & Hk). pose proof (stored_length buf) as Hs.
  assert (Z.of_nat (length d) = 2048) as Hd' by (rewrite Hd; reflexivity). clear Hd. unfold store_packet.
  change d with ([] ++ d) at 1. rewrite store_at by (cbn [length]; lia). cbn [mbind res_bind].
  rewrite store_at by (cbn [length app]; rewrite ?length_drop; cbn [length]; lia). cbn [mbind res_bind].
  rewrite store_at by (rewrite ?length_app, ?length_drop; cbn [length app le_bytes]; lia). cbn [mbind res_bind].
  match goal with |- context [((([] ++ ?h) ++ buf) ++ ?c)] => replace ((([] ++ h) ++ buf) ++ c) with (stored crc32 buf) by (unfold stored; by rewrite <- app_assoc) end.
  rewrite !drop_drop. match goal with |- context [drop (?x + (length buf + ?y)) d] => replace (x + (length buf + y))%nat with (length (stored crc32 buf)) by (rewrite Hs; cbn [length le_bytes]; lia) end.
  destruct (Z.eqb_spec (Z.land (Z.of_nat (length buf)) 3) 2) as [E|E].
  - rewrite (pad_zero _ E). cbn [replicate]. by rewrite app_nil_r, Nat.add_0_r.
  - rewrite pad_value. replace (2 + Z.of_nat (length buf) + 4) with (Z.of_nat (length (stored crc32 buf))) by lia.
    rewrite memset_app by (rewrite length_drop; lia). by rewrite drop_drop.
Qed.

Lemma receive_store buf s :
  Z.land (rctl s) SE_RCTL_RXEN ≠ 0 → np s < 31 →
  stellaris_enet_receive crc32 buf s =
    (let n := if 31 <=? next_packet s + np s then next_packet s + np s - 31 else next_packet s + np s in
     p ← aread (rx s) n; d ← store_packet (data p) buf; r ← awrite (rx s) n (mkRx d (Z.of_nat (length buf) + 6));
     let s := set_ris (set_rx s r (u32 (np s + 1))) (Z.lor (ris s) SE_INT_RX) in
     Ok (Z.of_nat (length buf), s, [stellaris_enet_update s])).
Proof.
  intros H1 H2. unfold stellaris_enet_receive. rewrite (proj2 (Z.eqb_neq _ _) H1). rewrite (proj2 (Z.leb_gt _ _)) by lia. cbv zeta.
  destruct (aread (rx s) _) as [p|]; [|done]. cbn [mbind res_bind]. unfold store_packet.
  destruct (store (data p) 0 _) as [d1|]; [|done]. cbn [mbind res_bind].
  destruct (store d1 2 _) as [d2|]; [|done]. cbn [mbind res_bind].
  by destruct (store d2 _ _) as [d3|].
Qed.

Lemma waiting_packet d buf :
  length d = 2048%nat → Z.of_nat (length buf) <= 2042 →
  waiting (mkRx ((stored crc32 buf ++ replicate (pad buf) 0) ++ drop (length (stored crc32 buf) + pad buf) d) (Z.of_nat (length buf) + 6)) (words (stored crc32 buf)).
Proof.
  intros Hd Hb. destruct (pad_small buf) as (? & k & Hk). pose proof (stored_length buf) as Hs. split; cbn [data len].
  - rewrite !length_app, length_replicate, length_drop. assert (Z.of_nat (length d) = 2048) by (rewrite Hd; reflexivity). lia.
  - replace (Z.of_nat (length buf) + 6) with (Z.of_nat (length (stored crc32 buf))) by lia. by apply words_buffered.
Qed.

Lemma ring_slot (x : Z) : 0 <= x < 62 → (if 31 <=? x then x - 31 else x) = x mod 31.
Proof.
  intros Hx. destruct (Z.leb_spec 31 x); [|by rewrite Z.mod_small by lia].
  replace x with (x - 31 + 1 * 31) at 2 by lia. rewrite Z.mod_add, Z.mod_small by lia. done.
Qed.

Lemma receive_queue q buf s :
  rx_ok q s → (length q < 31)%nat → Z.of_nat (length buf) <= 2042 → Z.land (rctl s) SE_RCTL_RXEN ≠ 0 →
  ∃ r, stellaris_enet_receive crc32 buf s =
         Ok (Z.of_nat (length buf), set_ris (set_rx s r (u32 (np s + 1))) (Z.lor (ris s) SE_INT_RX),
             [stellaris_enet_update (set_ris (set_rx s r (u32 (np s + 1))) (Z.lor (ris s) SE_INT_RX))]) ∧
       rx_ok (q ++ [words (stored crc32 buf)]) (set_ris (set_rx s r (u32 (np s + 1))) (Z.lor (ris s) SE_INT_RX)).
Proof.
  intros [H1 H2 H3 H4 H5 H6] Hq Hb He. rewrite receive_store by lia. cbv zeta. rewrite ring_slot by lia. rewrite H4.
  pose proof (Z.mod_pos_bound (next_packet s + Z.of_nat (length q)) 31 ltac:(lia)) as Hn.
  destruct (aread_in (rx s) ((next_packet s + Z.of_nat (length q)) mod 31) ltac:(lia)) as [p Hp]. rewrite Hp.
  assert (length (data p) = 2048%nat) as Hd. { apply aread_lookup in Hp as [_ Hp]. rewrite Forall_lookup in H2. by eapply H2. }
  cbn [mbind res_bind]. rewrite store_packet_ok by done. cbn [mbind res_bind]. rewrite awrite_in by lia. cbn [mbind res_bind].
  eexists. split; [reflexivity|]. pose proof (waiting_packet (data p) buf Hd Hb) as Hw. set (P := mkRx _ _) in *.
  constructor; cbn [rx np next_packet set_ris set_rx].
  - by rewrite length_insert.
  - apply Forall_insert; [done|]. apply Hw.
  - done.
  - rewrite length_app. cbn. rewrite u32_small; lia.
  - rewrite length_app. cbn. lia.
  - destruct q as [|ws q]; cbn [app].
    + exists P, []. split_and!; [|unfold reading; cbn; by rewrite H6|constructor].
      by apply (ring_put 31 (next_packet s) [] (rx s) P); [lia|done|apply ring_empty].
    + destruct H6 as (p0 & ps & Hr & Hc & Hf). exists p0, (ps ++ [P]). split_and!; [|exact Hc|by apply Forall2_app; [|constructor]].
      pose proof (Forall2_length _ _ _ Hf). change (p0 :: ps ++ [P]) with ((p0 :: ps) ++ [P]).
      replace (length (ws :: q)) with (length (p0 :: ps)) by (cbn; lia). apply ring_put; [lia|cbn in *; lia|done].
Qed.

(** ** The guest reads a word *)

Lemma buffered_tail d off n w w' ws : buffered d off n (w :: w' :: ws) → buffered d (off + 4) (n - 4) (w' :: ws) ∧ 4 < n.
Proof.
  intros [Hl _ Hw]. cbn [length] in Hl. split; [|lia]. constructor; [cbn [length]; lia|done|].
  intros k v Hk. rewrite <- (Hw (S k) v Hk). f_equal. lia.
Qed.

(** The part of the read after the pointer is set. *)
Definition take_word (s : enet_state) : res (Z * enet_state) :=
  val ← rx_word s;
  let s := set_reader s ((λ '(k, off), (k, off + 4)) <$> rx_fifo s) (rx_fifo_len s - 4) in
  let s :=
    if rx_fifo_len s <=? 0 then
      let s := set_reader s (rx_fifo s) 0 in
      let k := next_packet s + 1 in
      set_ring s (u32 (np s - 1)) (if 31 <=? k then 0 else k)
    else s in
  Ok (val, s).

Lemma take_word_ok s p ps w ws q off :
  length (rx s) = 31%nat → Forall (λ p, length (data p) = 2048%nat) (rx s) → 0 <= next_packet s < 31 →
  np s = Z.of_nat (S (length q)) → (S (length q) ≤ 31)%nat → ring_holds 31 (rx s) (next_packet s) (p :: ps) → Forall2 waiting ps q →
  rx_fifo s = Some (next_packet s, off) → buffered (data p) off (rx_fifo_len s) (w :: ws) →
  ∃ f n m k, take_word s = Ok (w, set_ring (set_reader s f n) m k) ∧
    rx_ok (match ws with [] => q | _ => ws :: q end) (set_ring (set_reader s f n) m k).
Proof.
  intros H1 H2 H3 H4 H5 Hr Hf Hp Hb. unfold take_word, rx_word. rewrite Hp. cbn [deref mbind res_bind].
  pose proof (ring_head 31 _ _ _ _ ltac:(lia) Hr) as Hh. rewrite Z.mod_small in Hh by lia. rewrite Hh. cbn [mbind res_bind].
  pose proof (b_words _ _ _ _ Hb O w eq_refl) as Hw. rewrite Z.add_0_r in Hw. rewrite Hw. cbn [mbind res_bind]. cbv zeta.
  assert (length (data p) = 2048%nat) as Hd. { apply aread_lookup in Hh as [_ Hh]. rewrite Forall_lookup in H2. by eapply H2. }
  cbn [rx_fifo_len set_reader]. destruct ws as [|w' ws].
  - pose proof (b_len _ _ _ _ Hb) as Hl. cbn [length] in Hl. rewrite (proj2 (Z.leb_le _ _)) by lia.
    eexists _, _, _, _. split; [reflexivity|]. cbn [rx_fifo next_packet np set_reader].
    assert ((if 31 <=? next_packet s + 1 then 0 else next_packet s + 1) = (next_packet s + 1) mod 31) as Hk.
    { rewrite <- ring_slot by lia. destruct (Z.leb_spec 31 (next_packet s + 1)); lia. }
    pose proof (Z.mod_pos_bound (next_packet s + 1) 31).
    constructor; cbn [rx np next_packet rx_fifo_len set_reader set_ring]; rewrite ?Hk; try done; try lia.
    + rewrite u32_small; lia.
    + apply ring_tail in Hr. destruct Hf as [|p' ws' ps q Hw' Hf]; [done|]. exists p', ps. split_and!; done.
  - destruct (buffered_tail _ _ _ _ _ _ Hb) as [Hb' Hn]. rewrite (proj2 (Z.leb_gt _ _)) by lia.
    exists (Some (next_packet s, off + 4)), (rx_fifo_len s - 4), (np s), (next_packet s). split; [reflexivity|].
    constructor; cbn [rx np next_packet set_reader set_ring]; try done.
    exists p, ps. split_and!; try done. unfold reading. cbn [rx_fifo_len rx_fifo next_packet set_reader set_ring].
    rewrite (proj2 (Z.eqb_neq _ _)) by lia. by exists (off + 4).
Qed.

Lemma read_packets q s :
  rx_ok q s →
  match q with
  | [] => read_data s = Ok (0, s)
  | ws :: q => ∃ w ws' f n m k, ws = w :: ws' ∧ read_data s = Ok (w, set_ring (set_reader s f n) m k) ∧
      rx_ok (match ws' with [] => q | _ => ws' :: q end) (set_ring (set_reader s f n) m k)
  end.
Proof.
  intros [H1 H2 H3 H4 H5 H6]. destruct q as [|ws q].
  { unfold read_data. by rewrite H6, H4. }
  destruct H6 as (p & ps & Hr & Hc & Hf). cbn [length] in *.
  assert (read_data s = s ← (if rx_fifo_len s =? 0 then p ← aread (rx s) (next_packet s); Ok (set_reader s (Some (next_packet s, 0)) (len p)) else Ok s); take_word s) as ->.
  { unfold read_data. rewrite H4, (proj2 (Z.eqb_neq (Z.of_nat _) 0)) by lia. by rewrite andb_false_r. }
  pose proof (ring_head 31 _ _ _ _ ltac:(lia) Hr) as Hh. rewrite Z.mod_small in Hh by lia. unfold reading in Hc.
  destruct (rx_fifo_len s =? 0).
  - rewrite Hh. cbn [mbind res_bind]. destruct Hc as [_ Hb]. destruct ws as [|w ws]; [by destruct (b_some _ _ _ _ Hb)|].
    destruct (take_word_ok (set_reader s (Some (next_packet s, 0)) (len p)) p ps w ws q 0) as (f & n & m & k & E & Hok); try done.
    exists w, ws, f, n, m, k. by rewrite E.
  - cbn [mbind res_bind]. destruct Hc as (off & Hp & _ & Hb). destruct ws as [|w ws]; [by destruct (b_some _ _ _ _ Hb)|].
    destruct (take_word_ok s p ps w ws q off) as (f & n & m & k & E & Hok); try done. exists w, ws, f, n, m, k. by rewrite E.
Qed.

(** ** The guest writes a word of a frame *)


Lemma memset_keeps (d : list Z) off v n :
  0 <= off → 0 <= n → off + n <= Z.of_nat (length d) →
  ∃ d', memset d off v n = Ok d' ∧ length d' = length d ∧ take (Z.to_nat off) d' = take (Z.to_nat off) d.
Proof.
  intros Ho Hn Hl. pose proof (memset_app (take (Z.to_nat off) d) (drop (Z.to_nat off) d) v (Z.to_nat n)) as H.
  rewrite take_drop, length_take, length_drop, Z2Nat.id, Nat.min_l, Z2Nat.id in H by lia.
  eexists. split; [apply H; lia|]. split.
  - rewrite !length_app, length_replicate, !length_drop, length_take. lia.
  - rewrite <- app_assoc. apply take_app_length'. rewrite length_take. lia.
Qed.

Lemma start_frame_ok v a s o a' :
  enet_ok a s → a_tx a = Idle → abs_data v a = Ok (o, a') →
  ∃ s' e, start_frame v s = Ok (s', e) ∧ concat (sent <$> e) = o ∧ enet_ok a' s' ∧ fold_left line_after e (enet_line s) = enet_line s'.
Proof.
  intros Hok Ea. unfold abs_data, start_frame. rewrite Ea. enet_parts. rewrite Htctl. cbv zeta.
  rewrite Ea in Htx. destruct Htx as [Hlen Hidle]. pose proof (land_low v 16 ltac:(lia)) as Hv. change (2 ^ 16 - 1) with 0xffff in Hv.
  destruct (Z.ltb_spec 2032 (Z.land v 0xffff)).
  { intros [= <- <-]. eexists _, _. split; [reflexivity|]. split_and!; [done| |done]. enet_close. by split. }
  set (crc := if Z.land (a_tctl a) SE_TCTL_CRC =? 0 then 4 else 0).
  replace (if Z.land (a_tctl a) SE_TCTL_CRC =? 0 then _ else _) with (Z.land v 0xffff + 14 + crc) by (unfold crc; destruct (_ =? 0); lia).
  assert (0 <= crc <= 4) by (unfold crc; destruct (_ =? 0); lia).
  destruct (Z.ltb_spec 2046 (Z.land v 0xffff + 14 + crc)); [done|]. intros [= <- <-].
  assert (Z.of_nat (length (tx_fifo s)) = 2048) by (rewrite Hlen; reflexivity).
  rewrite store_prefix by (cbn; lia). cbn [mbind res_bind]. eexists _, _. split; [reflexivity|]. split_and!; [done| |done].
  enet_close. split; cbn [tx_fifo tx_frame_len tx_fifo_len set_tx].
  - rewrite !length_app, length_take, length_drop. cbn [length]. lia.
  - split_and!; [done|lia..|done|cbn [length]; lia|by exists O|done].
Qed.

Lemma next_word_ok v need got a s o a' :
  enet_ok a s → a_tx a = Filling need got → abs_data v a = Ok (o, a') →
  ∃ s' e, next_word v s = Ok (s', e) ∧ concat (sent <$> e) = o ∧ enet_ok a' s' ∧ fold_left line_after e (enet_line s) = enet_line s'.
Proof.
  intros Hok Ea. unfold abs_data, next_word. rewrite Ea. enet_parts. rewrite Htctl. cbv zeta.
  rewrite Ea in Htx. destruct Htx as (Hlen & Hneed & Hr & Hn & Hlt & (k & Hk) & Hgot).
  assert (Z.of_nat (length (tx_fifo s)) = 2048) as Hlen' by (rewrite Hlen; reflexivity).
  rewrite Hn, Hneed. rewrite store_prefix by (cbn [length le_bytes]; lia). cbn [mbind res_bind]. rewrite Nat2Z.id, Hgot.
  set (d := (got ++ le_bytes v) ++ _). assert (length d = length (tx_fifo s)) as Hd.
  { unfold d. rewrite !length_app, length_drop. cbn [length le_bytes]. lia. }
  assert (∀ m, (m ≤ length got + 4)%nat → take m d = take m (got ++ le_bytes v)) as Hpre.
  { intros m Hm. unfold d. rewrite take_app_le; [done|]. rewrite length_app. cbn. lia. }
  replace (Z.of_nat (length (got ++ le_bytes v))) with (Z.of_nat (length got) + 4) by (rewrite length_app; cbn; lia).
  destruct (Z.leb_spec need (Z.of_nat (length got) + 4)).
  - set (crc := if Z.land (a_tctl a) SE_TCTL_CRC =? 0 then 4 else 0).
    replace (if Z.land (a_tctl a) SE_TCTL_CRC =? 0 then _ else _) with (need - crc) by (unfold crc; destruct (_ =? 0); lia).
    assert (0 <= crc <= 4) by (unfold crc; destruct (_ =? 0); lia). intros [= <- <-].
    assert (∃ d' n', (if truth (Z.land (a_tctl a) SE_TCTL_PADEN) && (need - crc <? 60) then d0 ← memset d (need - crc) 0 (60 - (need - crc)); Ok (d0, 60)
              else Ok (d, Z.of_nat (length got) + 4)) = Ok (d', n') ∧ length d' = length d ∧ take (Z.to_nat (need - crc)) d' = take (Z.to_nat (need - crc)) d) as (d' & n' & E & Hl & Ht).
    { destruct (truth _); cbn [andb]; [|by eexists _, _]. destruct (Z.ltb_spec (need - crc) 60); [|by eexists _, _].
      destruct (memset_keeps d (need - crc) 0 (60 - (need - crc))) as (d' & -> & ? & ?); [lia..|]. by eexists _, _. }
    rewrite E. cbn [mbind res_bind]. eexists _, _. split; [reflexivity|]. cbn [fmap list_fmap concat sent app]. split_and!.
    + rewrite Ht, Hpre by lia. done.
    + enet_close. split; [|done]. cbn [tx_fifo set_ris set_tx]. congruence.
    + done.
  - intros [= <- <-]. eexists _, _. split; [reflexivity|]. split_and!; [done| |done].
    enet_close. split; cbn [tx_fifo tx_frame_len tx_fifo_len set_tx]; [congruence|].
    replace (length (got ++ le_bytes v)) with (length got + 4)%nat by (rewrite length_app; cbn; lia).
    split_and!; [done|lia..| |].
    + exists (S k). lia.
    + rewrite Hpre by lia. apply firstn_all2. rewrite length_app. cbn. lia.
Qed.

(** ** Every access *)

Lemma enet_read_ok offset a s o a' :
  enet_ok a s → abs_read offset a = Ok (o, a') →
  ∃ v s', stellaris_enet_read offset s = Ok (v, s') ∧ o = (if shown offset then [Value offset v] else []) ∧ enet_ok a' s' ∧ enet_line s = enet_line s'.
Proof.
  intros Hok. pose proof (read_packets _ _ (e_rx _ _ Hok)) as Hq. pose proof (r_count _ _ (e_rx _ _ Hok)) as Hc. pose proof (e_ris _ _ Hok) as Hr.
  assert (∀ i, 0 <= i < 6 → ∃ b, mac s i = Ok b) as Hmac. { intros i Hi. apply aread_in. rewrite (e_mac _ _ Hok). lia. }
  unfold abs_read, stellaris_enet_read. destruct offset as [|p|p]; [intros [= <- <-]; eexists _, _; rewrite Hr; eauto| |done].
  do 6 (try (destruct p as [p|p|]; try done));
    try (intros [= <- <-]; destruct (Hmac 0) as [b0 ->]; [lia|]; destruct (Hmac 1) as [b1 ->]; [lia|]; destruct (Hmac 2) as [b2 ->]; [lia|];
         destruct (Hmac 3) as [b3 ->]; [lia|]; by eexists _, _);
    try (intros [= <- <-]; destruct (Hmac 4) as [b0 ->]; [lia|]; destruct (Hmac 5) as [b1 ->]; [lia|]; by eexists _, _);
    try (intros [= <- <-]; eexists _, _; rewrite ?Hc; by eauto).
  destruct (a_rx a) as [|ws q] eqn:Ea; [intros [= <- <-]; rewrite Hq; by eexists _, _|].
  destruct Hq as (w & ws' & f & n & m & k & -> & -> & Hrx). intros [= <- <-]. eexists _, _. split; [reflexivity|]. split_and!; [done| |done].
  enet_parts. enet_close.
Qed.

Lemma store_mac (m : list Z) off src : 0 <= off → (Z.to_nat off + length src ≤ length m)%nat → ∃ m', store m off src = Ok m' ∧ length m' = length m.
Proof.
  intros Ho Hl. rewrite store_prefix by done. eexists. split; [reflexivity|].
  rewrite !length_app, length_take, length_drop. lia.
Qed.

Lemma rx_ok_reset q s : rx_ok q s → rx_ok [] (set_ring (set_reader s (rx_fifo s) 0) 0 (next_packet s)).
Proof. intros [? ? ? ? ? ?]. constructor; cbn; try done. lia. Qed.

Lemma enet_data_ok v a s o a' :
  enet_ok a s → abs_data v a = Ok (o, a') →
  ∃ s' e, (if tx_frame_len s =? -1 then start_frame v s else next_word v s) = Ok (s', e) ∧
    concat (sent <$> e) = o ∧ enet_ok a' s' ∧ fold_left line_after e (enet_line s) = enet_line s'.
Proof.
  intros Hok Ha. pose proof (e_tx _ _ Hok) as [_ Htx]. destruct (a_tx a) as [| |need got] eqn:Ea.
  - rewrite Htx. by apply (start_frame_ok v a s).
  - unfold abs_data in Ha. by rewrite Ea in Ha.
  - destruct Htx as (Hl & ? & _). rewrite Hl, (proj2 (Z.eqb_neq _ _)) by lia. by apply (next_word_ok v need got a s).
Qed.

Lemma enet_write_ok offset v a s o a' :
  enet_ok a s → abs_write offset v a = Ok (o, a') →
  ∃ s' e, stellaris_enet_write offset v s = Ok (s', e) ∧ concat (sent <$> e) = o ∧ enet_ok a' s' ∧ fold_left line_after e (enet_line s) = enet_line s'.
Proof.
  intros Hok. pose proof (enet_data_ok v a s o a' Hok) as Hdata. enet_parts. unfold abs_write, stellaris_enet_write.
  destruct offset as [|p|p]; [| |done].
  - intros [= <- <-]. eexists _, _. split; [reflexivity|]. split_and!; [done| |by destruct (truth (Z.land v SE_INT_TXER))].
    destruct (truth (Z.land v SE_INT_TXER)); enet_close. by destruct Htx as [? _].
  - do 6 (try (destruct p as [p|p|]; try done));
      try (exact Hdata);
      try (intros [= <- <-]; eexists _, _; (split; [reflexivity|]); (split_and!; [done| |done]); enet_close; fail);
      intros [= <- <-].
    + destruct (store_mac (macaddr s) 0 (le_bytes v)) as (m & -> & Hm); [lia|cbn; lia|]. cbn [mbind res_bind].
      eexists _, _. split; [reflexivity|]. split_and!; [done| |done]. enet_close.
    + destruct (store_mac (macaddr s) 4 [u8 v; u8 (Z.shiftr v 8)]) as (m & -> & Hm); [lia|cbn; lia|]. cbn [mbind res_bind].
      eexists _, _. split; [reflexivity|]. split_and!; [done| |done]. enet_close.
    + destruct (truth (Z.land v SE_RCTL_RSTFIFO)); eexists _, _; (split; [reflexivity|]); (split_and!; [done| |done]); enet_close.
      eapply (rx_ok_reset _ (set_rctl s v)), rx_ok_frame; [..|exact Hrx]; done.
Qed.
Lemma enet_packet_ok buf a s o a' :
  enet_ok a s → abs_packet crc32 buf a = Ok (o, a') →
  ∃ r s' e, stellaris_enet_receive crc32 buf s = Ok (r, s', e) ∧ o = [Answer (stellaris_enet_can_receive s) r] ∧ enet_ok a' s' ∧
    fold_left line_after e (enet_line s) = enet_line s'.
Proof.
  intros Hok. pose proof (e_rx _ _ Hok) as Hrx. pose proof (r_count _ _ Hrx) as Hc. pose proof (e_rctl _ _ Hok) as Hr.
  unfold abs_packet, stellaris_enet_can_receive. rewrite Hr. cbv zeta.
  destruct (Z.eqb_spec (Z.land (a_rctl a) SE_RCTL_RXEN) 0) as [E|E].
  { intros [= <- <-]. exists (-1), s, []. unfold stellaris_enet_receive. by rewrite Hr, E. }
  destruct (Nat.leb_spec 31 (length (a_rx a))) as [Hf|Hf].
  { intros [= <- <-]. exists (-1), s, []. unfold stellaris_enet_receive.
    rewrite Hr, (proj2 (Z.eqb_neq _ _) E), (proj2 (Z.leb_le 31 (np s))), (proj2 (Z.ltb_ge (np s) 31)) by lia. done. }
  destruct (Z.ltb_spec 2042 (Z.of_nat (length buf))); [done|]. intros [= <- <-]. rewrite <- Hr in E.
  destruct (receive_queue (a_rx a) buf s Hrx Hf ltac:(lia) E) as (r & -> & Hq). eexists _, _, _. split; [reflexivity|].
  rewrite (proj2 (Z.ltb_lt (np s) 31)) by lia. split_and!; [done| |done]. enet_parts. enet_close.
Qed.

Lemma enet_step_ok op a s o a' :
  enet_ok a s → abs_step crc32 op a = Ok (o, a') →
  ∃ s' e, enet_step crc32 op s = Ok (o, s', e) ∧ enet_ok a' s' ∧ fold_left line_after e (enet_line s) = enet_line s'.
Proof.
  intros Hok. destruct op as [offset|offset v|buf]; cbn [abs_step enet_step]; intros Ha.
  - destruct (enet_read_ok _ _ _ _ _ Hok Ha) as (v & s' & -> & -> & ? & ?). by exists s', [].
  - destruct (enet_write_ok _ _ _ _ _ _ Hok Ha) as (s' & e & -> & <- & ? & ?). by exists s', e.
  - destruct (enet_packet_ok _ _ _ _ _ Hok Ha) as (r & s' & e & -> & -> & ? & ?). by exists s', e.
Qed.

(** An access that does not exist. *)
Lemma enet_step_bad op a s : abs_step crc32 op a = Err Hw_error → enet_step crc32 op s = Err Hw_error.
Proof.
  destruct op as [offset|offset v|buf]; cbn [abs_step enet_step].
  - unfold abs_read, stellaris_enet_read. destruct offset as [|p|p]; [done| |done]. do 6 (try (destruct p as [p|p|]; try done)).
    by destruct (a_rx a) as [|[|??] ?].
  - unfold abs_write, stellaris_enet_write. destruct offset as [|p|p]; [done| |done]. do 6 (try (destruct p as [p|p|]; try done)).
    unfold abs_data. cbv zeta. intros H. destruct (a_tx a); repeat (case_match; try done).
  - unfold abs_packet. cbv zeta. intros H. repeat (case_match; try done).
Qed.

Lemma enet_run_ok ops a s o a' :
  enet_ok a s → abs_run crc32 ops a = Ok (o, a') →
  ∃ s' out, enet_run crc32 ops s (enet_line s) = Ok (o, s', out) ∧ enet_ok a' s' ∧ out = enet_line s'.
Proof.
  revert a s o. induction ops as [|op ops IH]; intros a s o Hok Ha; cbn [abs_run enet_run] in *.
  { injection Ha as <- <-. by eexists _, _. }
  apply bind_Ok in Ha as ([o1 a1] & E1 & Ha). apply bind_Ok in Ha as ([o2 a2] & E2 & Ha). injection Ha as <- <-.
  destruct (enet_step_ok _ _ _ _ _ Hok E1) as (s1 & e & -> & Hok1 & Hl). cbn [mbind res_bind]. rewrite Hl.
  destruct (IH _ _ _ Hok1 E2) as (s' & out & -> & ? & ?). by eexists _, _.
Qed.
Lemma enet_run_bad ops a s :
  enet_ok a s → abs_run crc32 ops a = Err Hw_error → enet_run crc32 ops s (enet_line s) = Err Hw_error.
Proof.
  revert a s. induction ops as [|op ops IH]; intros a s Hok Ha; cbn [abs_run enet_run] in *; [done|].
  destruct (abs_step crc32 op a) as [[o1 a1]|e] eqn:E1; cbn [mbind res_bind] in Ha.
  - destruct (enet_step_ok _ _ _ _ _ Hok E1) as (s1 & e & -> & Hok1 & Hl). cbn [mbind res_bind]. rewrite Hl.
    rewrite (IH a1 s1 Hok1); [done|]. by destruct (abs_run crc32 ops a1) as [[??]|].
  - injection Ha as ->. by rewrite (enet_step_bad _ _ _ E1).
Qed.

Lemma enet_init_ok conf : length conf = 6%nat → enet_ok abs_init (stellaris_enet_init conf).
Proof.
  intros Hc. constructor; [done..| |].
  - constructor; [done| |done..|cbn [length a_rx abs_init]; lia|done].
    change (rx _) with (replicate 31 (mkRx (replicate 2048 0) 0)). apply Forall_replicate, length_replicate.
  - split; [apply length_replicate|done].
Qed.

(** ** Frames from one controller to another *)

Definition frame_words (f : list Z) : list Z :=
  let n := Z.of_nat (length f) - 14 in words ([u8 n; u8 (Z.shiftr n 8)] ++ f).

Lemma le_word_sum a b c d : is_byte a → is_byte b → is_byte c → is_byte d → le_word a b c d = a + b * 2 ^ 8 + c * 2 ^ 16 + d * 2 ^ 24.
Proof.
  unfold is_byte, le_word. intros. rewrite !Z.shiftl_mul_pow2 by lia.
  rewrite (Z.lor_comm a), (lor_add b a 8), (Z.lor_comm _ (c * _)), (lor_add c _ 16), (Z.lor_comm _ (d * _)), (lor_add d _ 24) by lia. lia.
Qed.
Lemma le_bytes_word a b c d : is_byte a → is_byte b → is_byte c → is_byte d → le_bytes (le_word a b c d) = [a; b; c; d].
Proof.
  intros Ha Hb Hc Hd. rewrite le_word_sum by done. unfold le_bytes, u8, is_byte in *. rewrite !Z.shiftr_div_pow2 by lia.
  change (2 ^ 8) with 256 in *. change (2 ^ 16) with 65536. change (2 ^ 24) with 16777216.
  f_equal; [|f_equal; [|f_equal; [|f_equal]]]; Z.div_mod_to_equations; lia.
Qed.
Lemma le_word_low a b c d : is_byte a → is_byte b → is_byte c → is_byte d → Z.land (le_word a b c d) 0xffff = a + 256 * b.
Proof.
  intros Ha Hb Hc Hd. change 0xffff with (2 ^ 16 - 1). rewrite land_mod, le_word_sum by (done || lia). unfold is_byte in *.
  change (2 ^ 8) with 256 in *. change (2 ^ 16) with 65536. change (2 ^ 24) with 16777216. Z.div_mod_to_equations. lia.
Qed.

(** The bytes of the words are the bytes that were put into them, and zeros. *)
Lemma words_bytes l : Forall is_byte l → concat (le_bytes <$> words l) = l ++ replicate (4 * length (words l) - length l) 0.
Proof.
  assert (is_byte 0) as H0 by (unfold is_byte; lia).
  induction l as [l IH] using (induction_ltof1 _ length). unfold ltof in IH. intros Hl.
  destruct l as [|a [|b [|c [|d l]]]]; [done|cbn [words fmap list_fmap concat app]; rewrite le_bytes_word by (decompose_Forall_hyps; done); done..|].
  cbn [words fmap list_fmap concat app length]. rewrite le_bytes_word by (decompose_Forall_hyps; done). cbn [app]. do 4 f_equal.
  etrans; [apply (IH l); [cbn; lia|by decompose_Forall_hyps]|]. do 2 f_equal. lia.
Qed.

Definition with_tx (a : enet_abs) (t : tx_state) : enet_abs := mkAbs (a_ris a) (a_im a) (a_rctl a) (a_tctl a) (a_rx a) t.
Definition with_rx (a : enet_abs) (q : list (list Z)) : enet_abs := mkAbs (a_ris a) (a_im a) (a_rctl a) (a_tctl a) q (a_tx a).
Definition frame_sent (a : enet_abs) : enet_abs := mkAbs (Z.lor (a_ris a) SE_INT_TXEMP) (a_im a) (a_rctl a) (a_tctl a) (a_rx a) Idle.

(** The words after the first one complete the frame. *)
Lemma fill_frame f got a :
  Z.land (a_tctl a) SE_TCTL_CRC ≠ 0 → Forall is_byte f → f ≠ [] →
  abs_run crc32 (Ewrite 0x10 <$> words f) (with_tx a (Filling (Z.of_nat (length got + length f)) got)) = Ok ([Sent (got ++ f)], frame_sent a).
Proof.
  intros Hc. assert (is_byte 0) as H0 by (unfold is_byte; lia). apply Z.eqb_neq in Hc.
  revert got. induction f as [f IH] using (induction_ltof1 _ length). unfold ltof in IH. intros got Hf Hne.
  assert (∀ w l, le_bytes w = f ++ l → (length f ≤ 4)%nat →
    abs_run crc32 [Ewrite 0x10 w] (with_tx a (Filling (Z.of_nat (length got + length f)) got)) = Ok ([Sent (got ++ f)], frame_sent a)) as Hlast.
  { intros w l Hw Hl. cbn [abs_run abs_step abs_write]. unfold abs_data. cbn [a_tx a_tctl with_tx]. rewrite Hc, Hw.
    assert (length (f ++ l) = 4%nat) as H4 by (by rewrite <- Hw). rewrite length_app in H4.
    rewrite !length_app, (proj2 (Z.leb_le _ _)) by lia. cbn [mbind res_bind app]. do 4 f_equal.
    rewrite Z.sub_0_r, Nat2Z.id, app_assoc. apply take_app_length'. rewrite length_app. lia. }
  destruct f as [|x [|y [|z [|t f]]]]; [done|cbn [words fmap list_fmap]; eapply Hlast; [rewrite le_bytes_word by (decompose_Forall_hyps; done); cbn [app]; reflexivity|cbn; lia]..|].
  cbn [words]. rewrite fmap_cons. assert (le_bytes (le_word x y z t) = [x; y; z; t]) as Hw by (apply le_bytes_word; decompose_Forall_hyps; done).
  destruct f as [|u f]; [eapply Hlast; [by rewrite Hw, app_nil_r|cbn; lia]|].
  cbn [abs_run abs_step abs_write]. unfold abs_data. cbn [a_tx a_tctl with_tx]. rewrite Hw.
  rewrite (proj2 (Z.leb_gt _ _)) by (rewrite length_app; cbn [length]; lia). cbn [mbind res_bind].
  specialize (IH (u :: f) ltac:(cbn; lia) (got ++ [x; y; z; t])).
  replace (length (got ++ [x; y; z; t]) + length (u :: f))%nat with (length got + length (x :: y :: z :: t :: u :: f))%nat in IH by (rewrite length_app; cbn; lia).
  unfold with_tx in *. cbn [a_ris a_im a_rctl a_tctl a_rx]. rewrite IH; [cbn; by rewrite <- app_assoc| |done]. by do 4 apply Forall_inv_tail in Hf.
Qed.

Lemma send_frame f a :
  a_tx a = Idle → Z.land (a_tctl a) SE_TCTL_CRC ≠ 0 → Forall is_byte f → 14 <= Z.of_nat (length f) <= 2046 →
  abs_run crc32 (Ewrite 0x10 <$> frame_words f) a = Ok ([Sent f], frame_sent a).
Proof.
  intros Ht Hc Hf Hl. destruct f as [|x [|y f]]; [cbn in Hl; lia..|]. unfold frame_words. set (n := Z.of_nat (length (x :: y :: f)) - 14) in *.
  cbn [app words]. rewrite fmap_cons. cbn [abs_run abs_step abs_write]. decompose_Forall_hyps.
  assert (is_byte (u8 n) ∧ is_byte (u8 (Z.shiftr n 8))) as [Hb1 Hb2] by (split; apply u8_range).
  assert (u8 n + 256 * u8 (Z.shiftr n 8) = n) as Hn.
  { unfold u8. rewrite Z.shiftr_div_pow2 by lia. change (2 ^ 8) with 256. Z.div_mod_to_equations. lia. }
  unfold abs_data. rewrite Ht, (proj2 (Z.eqb_neq _ _) Hc), le_word_low, Hn by done.
  rewrite (proj2 (Z.ltb_ge _ _)), (proj2 (Z.ltb_ge _ _)) by lia. cbn [mbind res_bind].
  assert ([u8 (Z.shiftr (le_word (u8 n) (u8 (Z.shiftr n 8)) x y) 16); u8 (Z.shiftr (le_word (u8 n) (u8 (Z.shiftr n 8)) x y) 24)] = [x; y]) as ->.
  { apply (f_equal (drop 2) (x := le_bytes _) (y := [u8 n; u8 (Z.shiftr n 8); x; y])). by apply le_bytes_word. }
  pose proof (fill_frame f [x; y] a Hc) as Hfill. replace (n + 14 + 0) with (Z.of_nat (length [x; y] + length f)) by (unfold n; cbn [length]; lia).
  unfold with_tx in Hfill. rewrite Hfill; [done|done|]. intros ->. cbn in Hl. lia.
Qed.

(** Reading all words of the queue. *)
Lemma read_words q a :
  a_rx a = q → Forall (λ ws, ws ≠ []) q →
  abs_run crc32 (replicate (length (concat q)) (Eread 0x10)) a = Ok (Value 0x10 <$> concat q, with_rx a []).
Proof.
  intros Ea Hq. remember (length (concat q)) as n eqn:Hn. revert q a Ea Hq Hn. induction n as [|n IH]; intros q a Ea Hq Hn.
  - destruct q as [|[|w ws] q]; [|by decompose_Forall_hyps|done]. cbn. destruct a. cbn in Ea. by rewrite Ea.
  - destruct q as [|[|w ws] q]; [done|by decompose_Forall_hyps|]. cbn [replicate abs_run abs_step abs_read]. rewrite Ea. cbn [mbind res_bind].
    set (q' := match ws with [] => q | _ => ws :: q end).
    assert (concat q' = ws ++ concat q) as Hq' by (unfold q'; by destruct ws).
    rewrite (IH q'); [cbn [mbind res_bind]; rewrite Hq'; done|done| |].
    + unfold q'. decompose_Forall_hyps. by destruct ws; [|constructor].
    + cbn in Hn. rewrite Hq'. lia.
Qed.

Lemma queue_nonempty q s : rx_ok q s → Forall (λ ws, ws ≠ []) q.
Proof.
  intros [_ _ _ _ _ H]. destruct q as [|ws q]; [constructor|]. destruct H as (p & ps & _ & Hr & Hf). constructor.
  - unfold reading in Hr. destruct (_ =? 0); [destruct Hr as [_ Hb]|destruct Hr as (off & _ & _ & Hb)]; by apply b_some in Hb.
  - eapply Forall2_Forall_r; [exact Hf|]. apply Forall_true. intros p' ws' [_ Hb]. by apply b_some in Hb.
Qed.

End refinement.

(** ** Theorems *)

(** [C11]: for any checksum function and any sequence of accesses, packets and answers,
    the controller is a queue of at most 31 packets, read word by word and in order (with
    its length before and its checksum after the contents), and a frame under
    construction, which is sent when its last word is written; the interrupt line is that
    of the status and the mask.  An access that does not exist stops the emulator; the
    specification leaves open what happens to a frame or packet that has no room
    ([abs_data], [abs_packet]). *)
Theorem enet_is_queues crc32 conf ops :
  length conf = 6%nat →
  match abs_run crc32 ops abs_init with
  | Ok (o, a) =>
      ∃ s, enet_run crc32 ops (stellaris_enet_init conf) 0 = Ok (o, s, flag (truth (Z.land (a_ris a) (a_im a)))) ∧
        np s = Z.of_nat (length (a_rx a)) ∧ (length (a_rx a) ≤ 31)%nat
  | Err Hw_error => enet_run crc32 ops (stellaris_enet_init conf) 0 = Err Hw_error
  | Err _ => True
  end.
Proof.
  intros Hc. pose proof (enet_init_ok conf Hc) as Hi. change 0 with (enet_line (stellaris_enet_init conf)).
  destruct (abs_run crc32 ops abs_init) as [[o a]|e] eqn:E.
  - destruct (enet_run_ok _ _ _ _ _ _ Hi E) as (s & out & -> & Hok & ->). exists s.
    unfold enet_line. rewrite (e_ris _ _ Hok), (e_im _ _ Hok). split; [done|].
    split; [apply (r_count _ _ (e_rx _ _ Hok))|apply (r_room _ _ (e_rx _ _ Hok))].
  - destruct e; try done. by apply (enet_run_bad _ _ _ _ Hi).
Qed.

(** [C5]: a frame that the guest of one board writes to its controller, a word at a time,
    is sent as it is; delivered to the controller of another board it raises the interrupt
    (unless masked), and the guest there reads, after what was waiting, its length, the
    same bytes and the checksum, filled up with zeros, and nothing is left. *)
Theorem enet_delivers_frame crc32 f a1 s1 a2 s2 :
  enet_ok a1 s1 → a_tx a1 = Idle → Z.land (tctl s1) SE_TCTL_CRC ≠ 0 →
  enet_ok a2 s2 → Z.land (rctl s2) SE_RCTL_RXEN ≠ 0 → np s2 < 31 →
  Forall is_byte f → 14 <= Z.of_nat (length f) <= 2042 →
  let ws := words (stored crc32 f) in
  let all := concat (a_rx a2) ++ ws in
  ∃ s1' s2' s2'' z,
    enet_run crc32 (Ewrite 0x10 <$> frame_words f) s1 (enet_line s1) = Ok ([Sent f], s1', enet_line s1') ∧
    enet_run crc32 [Epacket f] s2 (enet_line s2) = Ok ([Answer 1 (Z.of_nat (length f))], s2', enet_line s2') ∧
    (Z.testbit (im s2) 0 = true → enet_line s2' = 1) ∧
    enet_run crc32 (replicate (length all) (Eread 0x10)) s2' (enet_line s2') = Ok (Value 0x10 <$> all, s2'', enet_line s2'') ∧
    np s2'' = 0 ∧ (z < 4)%nat ∧ concat (le_bytes <$> ws) = stored crc32 f ++ replicate z 0.
Proof.
  intros Ho1 Ht Hc Ho2 Hr Hn Hf Hl ws all. rewrite (e_tctl _ _ Ho1) in Hc. rewrite (e_rctl _ _ Ho2) in Hr.
  pose proof (r_count _ _ (e_rx _ _ Ho2)) as Hcnt. pose proof (queue_nonempty _ _ (e_rx _ _ Ho2)) as Hne.
  destruct (enet_run_ok crc32 _ _ _ _ _ Ho1 (send_frame crc32 f a1 Ht Hc Hf ltac:(lia))) as (s1' & ? & -> & _ & ->).
  set (a2' := mkAbs (Z.lor (a_ris a2) SE_INT_RX) (a_im a2) (a_rctl a2) (a_tctl a2) (a_rx a2 ++ [ws]) (a_tx a2)).
  assert (abs_run crc32 [Epacket f] a2 = Ok ([Answer 1 (Z.of_nat (length f))], a2')) as Ha2.
  { cbn [abs_run abs_step]. unfold abs_packet. rewrite (proj2 (Z.eqb_neq _ _) Hr), (proj2 (Nat.leb_gt _ _)) by lia.
    rewrite (proj2 (Z.ltb_ge _ _)) by lia. done. }
  destruct (enet_run_ok crc32 _ _ _ _ _ Ho2 Ha2) as (s2' & ? & -> & Ho2' & ->).
  assert (Forall (λ ws, ws ≠ []) (a_rx a2')) as Hne'. { apply Forall_app. split; [done|]. constructor; [|done]. by apply words_nonnil. }
  assert (concat (a_rx a2') = all) as Hall by (cbn [a_rx a2']; rewrite concat_app; cbn; by rewrite app_nil_r).
  pose proof (read_words crc32 (a_rx a2') a2' eq_refl Hne') as Hread. rewrite Hall in Hread.
  destruct (enet_run_ok crc32 _ _ _ _ _ Ho2' Hread) as (s2'' & ? & E3 & Ho2'' & ->).
  exists s1', s2', s2'', (4 * length ws - length (stored crc32 f))%nat. split_and!; try done.
  - intros Him. unfold enet_line. rewrite (e_ris _ _ Ho2'), (e_im _ _ Ho2'). unfold a2'. cbn [a_ris a_im]. rewrite <- (e_im _ _ Ho2).
    replace (truth _) with true; [done|]. symmetry. unfold truth. apply negb_true_iff, Z.eqb_neq. intros E.
    apply (f_equal (λ z, Z.testbit z 0)) in E. rewrite Z.land_spec, Z.lor_spec, Him, Z.bits_0 in E. change (Z.testbit SE_INT_RX 0) with true in E.
    by rewrite orb_true_r in E.
  - apply (r_count _ _ (e_rx _ _ Ho2'')).
  - destruct (words_length (stored crc32 f)) as [?|E]; [fold ws in H; lia|]. pose proof (stored_length crc32 f). rewrite E in *. cbn in *. lia.
  - apply (words_bytes crc32). unfold stored. rewrite !Forall_app. split_and!; [repeat constructor; apply u8_range|done|repeat constructor; apply u8_range].
Qed.

Definition demo_conf : list Z := [0x52; 0x54; 0; 0x12; 0x34; 0x56].

Lemma enet_is_queues_witness :
  ∃ s, enet_run (λ _ _, 0xdeadbeef) [Ewrite 0x08 1; Epacket [7]; Eread 0x34; Eread 0x10; Eread 0x10] (stellaris_enet_init demo_conf) 0 =
    Ok ([Answer 1 1; Value 0x34 1; Value 0x10 0xef070007; Value 0x10 0xdeadbe], s, 1) ∧ np s = 0 ∧ (0 ≤ 31)%nat.
Proof. exact (enet_is_queues (λ _ _, 0xdeadbeef) demo_conf [Ewrite 0x08 1; Epacket [7]; Eread 0x34; Eread 0x10; Eread 0x10] eq_refl). Defined.

Lemma enet_delivers_frame_witness :
  let s1 := set_tctl (stellaris_enet_init demo_conf) 4 in
  let s2 := set_rctl (stellaris_enet_init demo_conf) 1 in
  ∃ s1', enet_run (λ _ _, 0) (Ewrite 0x10 <$> frame_words (replicate 15 7)) s1 0 = Ok ([Sent (replicate 15 7)], s1', enet_line s1').
Proof.
  intros s1 s2. pose proof (enet_init_ok demo_conf eq_refl) as Hok.
  destruct (enet_delivers_frame (λ _ _, 0) (replicate 15 7) (mkAbs 0 0x7f SE_RCTL_BADCRC 4 [] Idle) s1 (mkAbs 0 0x7f 1 0 [] Idle) s2) as (s1' & _ & _ & _ & H & _).
  - unfold s1. enet_parts. enet_close; assumption.
  - reflexivity.
  - discriminate.
  - unfold s2. enet_parts. enet_close; assumption.
  - discriminate.
  - reflexivity.
  - repeat constructor; discriminate.
  - split; vm_compute; discriminate.
  - exists s1'. exact H.
Defined.

(** A frame that is refused for its length leaves [tx_frame_len] at 0, not at -1: unless the
    guest acknowledges the error, the next word is appended where the last frame ended and
    a frame of length -4 (or 0, with the checksum bit) is passed on.  [tx_fifo_len] is never
    reset on this path: each such pair of words moves it by 4, and behind the end of the
    buffer the word is written out of bounds. *)
Theorem enet_refused_overflows s v :
  length (tx_fifo s) = 2048%nat → tx_frame_len s = -1 → tctl s = 0 → 0 <= tx_fifo_len s →
  ∃ s1 e1, stellaris_enet_write 0x10 0xffff s = Ok (s1, e1) ∧
    if tx_fifo_len s <=? 2044 then
      ∃ s2 d e2, stellaris_enet_write 0x10 v s1 = Ok (s2, Send_packet d (-4) :: e2) ∧
        length (tx_fifo s2) = 2048%nat ∧ tx_frame_len s2 = -1 ∧ tctl s2 = 0 ∧ tx_fifo_len s2 = tx_fifo_len s + 4
    else stellaris_enet_write 0x10 v s1 = Err Out_of_bounds.
Proof.
  intros Hl Hf Ht Hn. assert (Z.of_nat (length (tx_fifo s)) = 2048) as Hl' by (rewrite Hl; reflexivity).
  cbn [stellaris_enet_write]. rewrite Hf. eexists _, _. split; [reflexivity|]. cbn [tx_frame_len set_ris set_tx_frame_len].
  change (0 =? -1) with false. unfold next_word. cbn [tx_fifo tx_fifo_len set_ris set_tx_frame_len]. destruct (Z.leb_spec (tx_fifo_len s) 2044).
  - rewrite store_prefix by (cbn [length le_bytes]; lia). cbn [mbind res_bind tx_frame_len set_ris set_tx_frame_len tctl]. rewrite Ht.
    rewrite (proj2 (Z.leb_le _ _)) by lia. eexists _, _, _. split; [reflexivity|]. split_and!; try done.
    cbn [tx_fifo set_ris set_tx]. rewrite !length_app, length_take, length_drop. cbn [length le_bytes]. lia.
  - assert (∀ src d n, 0 <= n → n + Z.of_nat (length src) > Z.of_nat (length d) → n <= Z.of_nat (length d) → store d n src = Err Out_of_bounds) as Hoob.
    { induction src as [|b src IH]; intros d n H0 H1 H2; cbn [length] in H1; [lia|]. cbn [store].
      destruct (Z.eq_dec n (Z.of_nat (length d))) as [->|]; [rewrite awrite_oob by lia; done|]. rewrite awrite_in by lia. cbn [mbind res_bind].
      apply IH; rewrite ?length_insert; lia. }
    destruct (Z.leb_spec (tx_fifo_len s) 2048); [rewrite Hoob; [done|lia|cbn [length le_bytes]; lia|lia]|].
    cbn [store le_bytes]. by rewrite awrite_oob by lia.
Qed.

(** The largest accepted frames do not fit: with a checksum of its own (the bit clear) a
    frame may have 2032 + 14 + 4 bytes, and the last of 2029 and more are written behind the
    buffer of 2048.  A packet of more than 2042 bytes overruns its receive buffer. *)
Theorem enet_buffers_overflow crc32 conf :
  enet_run crc32 (Ewrite 0x10 2029 :: replicate 512 (Ewrite 0x10 0)) (stellaris_enet_init conf) 0 = Err Out_of_bounds ∧
  enet_run crc32 [Ewrite 0x08 1; Epacket (replicate 2043 0)] (stellaris_enet_init conf) 0 = Err Out_of_bounds.
Proof. split; vm_compute; reflexivity. Qed.

(** Padding fills the buffer with zeros up to 60 bytes, but the frame is sent with its own
    length. *)
Theorem enet_padding_not_sent crc32 conf :
  ∃ s, enet_run crc32 (Ewrite 0x0c 6 :: replicate 4 (Ewrite 0x10 0)) (stellaris_enet_init conf) 0 = Ok ([Sent (replicate 14 0)], s, 1).
Proof. eexists. vm_compute. reflexivity. Qed.
