(* ===== verification/TimerCpu.v ===== *)
(** * TimerCpu: from a timer module to the processor (hw/stellaris.c, hw/armv7m.c)

    A general purpose timer module ([Gptm]) wired to its input of the interrupt controller
    ([Nvic]) and through it to the processor ([V7mExec]), as [stellaris_init] and
    [armv7m_init] connect them: what a guest starts with a write to a register ends, after
    the timers of the main loop ran, in its interrupt handler. *)

From stdpp Require Import sorting.
From S2P Require Import Prelude Variability PowerModel CpuExec TimerList Gic GicFacts Nvic V7m V7mExec Gptm.
Local Open Scope Z_scope.

(** The inputs of the controller that the four modules are connected to. *)
Definition timer_irq : list Z := [19; 21; 23; 35].

(** A module and the processor. *)
Record timer_board := mkTimerBoard {
  timer : gptm_state;
  cpu : v7m_cpu;
}.

(** The interrupt output of the module drives input [k]. *)
Definition deliver (k : Z) (e : gptm_effect) (c : v7m_cpu) : res v7m_cpu :=
  match e with Set_irq level => pic_set_irq k level c | _ => Ok c end.
Fixpoint deliver_all (k : Z) (es : list gptm_effect) (c : v7m_cpu) : res v7m_cpu :=
  match es with [] => Ok c | e :: es => c ← deliver k e c; deliver_all k es c end.

(** The callback of the module's timers. *)
Definition timer_board_client (scale k : Z) : TimerClient timer_board := λ n b,
  '(s, es) ← gptm_tick scale n (timer b);
  c ← deliver_all k es (cpu b);
  Ok (mkTimerBoard s c, timer_ops_of es).

(** The guest writes a register of the module. *)
Definition timer_board_write (scale k now offset value : Z) (b : timer_board) (l : timer_list) : res (timer_board * timer_list) :=
  '(s, es) ← gptm_write scale now offset value (timer b);
  c ← deliver_all k es (cpu b);
  Ok (mkTimerBoard s c, fold_left timer_op (timer_ops_of es) l).

(** The processor waits for an interrupt (the [wfi] instruction). *)
Definition goes_to_sleep (b : timer_board) : timer_board := mkTimerBoard (timer b) (set_halted (cpu b) 1).

(** ** The wire *)

Lemma change_at f irq s i :
  0 <= irq → irq_state s !! Z.to_nat irq = Some i → gic_change f irq s = Ok (set_irqs s (<[Z.to_nat irq := f i]> (irq_state s))).
Proof.
  intros H0 Hi. unfold gic_change, gic_irq. rewrite (proj2 (aread_lookup _ _ i)) by done. cbn [mbind res_bind].
  pose proof (lookup_lt_Some _ _ _ Hi). by rewrite awrite_in by lia.
Qed.

(** A rising input makes its interrupt pending. *)
Lemma raise_input k s i :
  gic_inv s → 0 <= k < 64 → irq_state s !! Z.to_nat (k + 32) = Some i → i_enabled i = true → i_level i = false →
  ∃ s', gic_set_irq k 1 s = Ok s' ∧ gic_inv s' ∧ quiet s s' ∧ priority_mask s' = priority_mask s ∧
    irq_state s' = <[Z.to_nat (k + 32) := set_pending true (set_level true i)]> (irq_state s).
Proof.
  intros I Hk Hi He Hl. destruct (set_irq_ok k 1 s I Hk) as (s' & Hs & I' & Q). exists s'. split; [done|]. split; [done|]. split; [done|].
  unfold gic_set_irq in Hs. unfold gic_irq in Hs. rewrite (proj2 (aread_lookup _ _ i)) in Hs by (split; [lia|done]). cbn [mbind res_bind] in Hs.
  rewrite Hl in Hs. cbn [flag Z.eqb truth negb] in Hs. rewrite (change_at _ _ _ i) in Hs by (done || lia). cbn [mbind res_bind] in Hs.
  rewrite He, orb_true_r in Hs. pose proof (lookup_lt_Some _ _ _ Hi).
  rewrite (change_at _ _ _ (set_level true i)) in Hs; [|lia|cbn [irq_state set_irqs]; by rewrite list_lookup_insert_eq by lia].
  cbn [mbind res_bind irq_state set_irqs] in Hs. rewrite list_insert_insert_eq in Hs. set (s1 := set_irqs _ _) in Hs.
  unfold gic_update in Hs. destruct (negb (g_enabled s1) || negb (cpu_enabled s1)); [by injection Hs as <-|].
  destruct (for_upto _ _ _) as [[bp bi]|]; [|done]. cbn [mbind res_bind] in Hs. injection Hs as <-. by destruct (bp <=? _).
Qed.

(** An input that keeps its level changes nothing in the controller. *)
Lemma input_stays k level s i :
  0 <= k → irq_state s !! Z.to_nat (k + 32) = Some i → level = flag (i_level i) → gic_set_irq k level s = Ok s.
Proof.
  intros Hk Hi ->. unfold gic_set_irq, gic_irq. rewrite (proj2 (aread_lookup _ _ i)) by (split; [lia|done]). cbn [mbind res_bind].
  by rewrite Z.eqb_refl.
Qed.

Lemma set_same_gic c : set_env c (set_nvic (env c) (set_gic (nvic (env c)) (gic (nvic (env c))))) = c.
Proof. by destruct c as [[? ? ? ? ? ? ? ? ? ? ? ? [] ? ?]]. Qed.

Lemma pic_stays k level c i :
  0 <= k → irq_state (gic (nvic (env c))) !! Z.to_nat (k + 32) = Some i → level = flag (i_level i) →
  request c = (if truth (parent_irq (gic (nvic (env c)))) then 2 else 0) → pic_set_irq k level c = Ok c.
Proof.
  intros Hk Hi Hl Hr. unfold pic_set_irq. rewrite (input_stays k level _ i) by done. cbn [mbind res_bind]. rewrite set_same_gic, nvic_line_ok, Hr.
  destruct c as [e r h x ss ix]. cbn in *. rewrite Hr. by destruct (truth _).
Qed.

(** ** An expiry *)

(** The line of input [k] is high, and the processor has its request. *)
Definition line_high (k : Z) (c : v7m_cpu) : Prop :=
  (∃ i, irq_state (gic (nvic (env c))) !! Z.to_nat (k + 32) = Some i ∧ i_level i = true) ∧
  parent_irq (gic (nvic (env c))) = 1 ∧ request c = 2.

(** Interrupt [k] of the board is waiting and nothing but the controller changed. *)
Record raised (k : Z) (c c' : v7m_cpu) : Prop := {
  rz_env : ∃ g, env c' = set_nvic (env c) (set_gic (nvic (env c)) g);
  rz_high : line_high k c';
  rz_halted : v7m_halted c' = v7m_halted c;
  rz_exit : exit_request c' = exit_request c;
  rz_sstep : singlestep_enabled c' = singlestep_enabled c;
  rz_inv : gic_inv (gic (nvic (env c')));
  rz_best : selected (gic (nvic (env c'))) (current_pending (gic (nvic (env c'))));
  rz_prio : prio_of (gic (nvic (env c'))) (current_pending (gic (nvic (env c')))) <= prio_of (gic (nvic (env c'))) (k + 32);
  rz_wants : wants (gic (nvic (env c'))) (k + 32) = true;
  rz_others : ∀ j, 0 <= j → j ≠ k + 32 → wants (gic (nvic (env c'))) j = wants (gic (nvic (env c))) j;
}.

Lemma pic_raises k c i :
  let g := gic (nvic (env c)) in
  gic_inv g → 0 <= k < 64 → irq_state g !! Z.to_nat (k + 32) = Some i → i_enabled i = true → i_level i = false →
  prio_of g (k + 32) <= priority_mask g → prio_of g (k + 32) < running_priority g → request c = 0 →
  ∃ c', pic_set_irq k 1 c = Ok c' ∧ raised k c c'.
Proof.
  intros g I Hk Hi He Hl Hm Hp Hr. destruct (raise_input k g i I Hk Hi He Hl) as (g' & Hg & I' & Q & Hmask & Hirqs).
  assert (is_irq (k + 32)) as Hirq by (unfold is_irq; lia). pose proof (lookup_lt_Some _ _ _ Hi) as Hlt.
  assert (wants g' (k + 32) = true) as Hw.
  { unfold wants. rewrite Hirqs, list_lookup_insert_eq by lia. cbn. by rewrite He. }
  pose proof (quiet_prio _ _ Q (k + 32)) as Hprio.
  destruct (wants_line (k + 32) g' I' Hirq Hw) as (Hline & Hsel & Hbest); [by rewrite Hprio, Hmask|by rewrite Hprio, (q_running_prio _ _ Q)|].
  unfold pic_set_irq. fold g. rewrite Hg. cbn [mbind res_bind]. rewrite nvic_line_ok. cbn [env set_env set_nvic nvic set_gic gic request].
  rewrite Hline, Hr. eexists. split; [reflexivity|].
  constructor; cbn [env set_env set_request set_nvic nvic set_gic gic v7m_halted exit_request singlestep_enabled]; try done.
  - by exists g'.
  - split; [|done]. cbn [env set_env set_request set_nvic nvic set_gic gic]. rewrite Hirqs, list_lookup_insert_eq by lia. by eexists.
  - intros j H0 Hj. unfold wants. rewrite Hirqs, list_lookup_insert_ne; [done|lia].
Qed.

Lemma tick_periodic scale n s :
  config s = 0 → truth (Z.land (mode s).1 1) = false → Z.testbit (mask s) 0 = true →
  let t := s64 ((tick s).1 + joined (load s) * scale) in
  ∃ out, gptm_tick scale n s = Ok (set_tick (set_state s (Z.lor (state s) 1)) (set2 (tick s) 0 t), out ++ [Mod_timer 0 t; Set_irq 1]) ∧
    Forall (λ e, e = Pulse_trigger) out.
Proof.
  intros Hc Hm Hmask t. unfold gptm_tick. rewrite Hc. cbn [Z.eqb]. cbn [mode set_state at2]. rewrite Hm.
  unfold gptm_reload. cbn [config set_state load tick at2]. rewrite Hc. cbn [Z.eqb mbind res_bind].
  exists (if truth (Z.land (control s) 0x20) then [Pulse_trigger] else []). split; [|by destruct (truth (Z.land (control s) 0x20)); [apply Forall_singleton|constructor]].
  cbn [control set_state]. rewrite <- app_assoc. cbn [app]. unfold gptm_update_irq. cbn [state mask set_tick set_state].
  replace (truth (Z.land (Z.lor (state s) 1) (mask s))) with true; [done|]. symmetry. apply negb_true_iff, Z.eqb_neq. intros E.
  apply (f_equal (λ z, Z.testbit z 0)) in E. rewrite Z.land_spec, Z.lor_spec, Hmask, Z.bits_0, orb_true_r in E. done.
Qed.

Lemma deliver_pulses k out es c : Forall (λ e, e = Pulse_trigger) out → deliver_all k (out ++ es) c = deliver_all k es c.
Proof. induction 1 as [|e out -> _ IH]; done. Qed.
Lemma pulses_no_timers out es : Forall (λ e, e = Pulse_trigger) out → timer_ops_of (out ++ es) = timer_ops_of es.
Proof. induction 1 as [|e out -> _ IH]; done. Qed.

Definition no_irq (e : gptm_effect) : Prop := match e with Set_irq _ => False | _ => True end.
Lemma deliver_no_irq k out es c : Forall no_irq out → deliver_all k (out ++ es) c = deliver_all k es c.
Proof. induction 1 as [|e out He _ IH]; [done|]. by destruct e. Qed.
Lemma reload_no_irq scale now n r s s' e : gptm_reload scale now n r s = Ok (s', e) → Forall no_irq e.
Proof. unfold gptm_reload. intros H. inv_bind. by repeat constructor. Qed.
Lemma write_ctl_no_irq scale now v s s' e : gptm_write_ctl scale now v s = Ok (s', e) → Forall no_irq e.
Proof.
  unfold gptm_write_ctl. intros H. inv_bind. destruct a as [s1 e1]. inv_bind. destruct a as [s2 e2]. inv_bind.
  assert (∀ b v n s s' e, (if b : bool then if v : bool then gptm_reload scale now n true s else Ok (s, [gptm_stop n]) else Ok (s, [])) = Ok (s', e) → Forall no_irq e) as H.
  { intros b v' n s0 s0' e. destruct b; [|by intros [= _ <-]]. destruct v'; [apply reload_no_irq|]. intros [= _ <-]. by repeat constructor. }
  apply Forall_app. split; eapply H; eassumption.
Qed.

(** The callback, whatever the wire does to the processor. *)
Lemma board_tick scale k n b c' :
  config (timer b) = 0 → truth (Z.land (mode (timer b)).1 1) = false → Z.testbit (mask (timer b)) 0 = true →
  pic_set_irq k 1 (cpu b) = Ok c' →
  let t := s64 ((tick (timer b)).1 + joined (load (timer b)) * scale) in
  timer_board_client scale k n b =
    Ok (mkTimerBoard (set_tick (set_state (timer b) (Z.lor (state (timer b)) 1)) (set2 (tick (timer b)) 0 t)) c', [(0%nat, Some t)]).
Proof.
  intros Hc Hm Hmask Hpic t. destruct (tick_periodic scale n (timer b) Hc Hm Hmask) as (out & Ht & Hout). fold t in Ht.
  unfold timer_board_client. rewrite Ht. cbn [mbind res_bind]. rewrite deliver_pulses, pulses_no_timers by done.
  cbn [deliver_all deliver mbind res_bind]. rewrite Hpic. cbn [mbind res_bind]. do 2 f_equal. cbn.
  by rewrite Z.mul_1_r, (s64_small t) by apply s64_range.
Qed.

(** ** The run of the timers *)

Definition runs_periodically (scale p : Z) (b : timer_board) : Prop :=
  config (timer b) = 0 ∧ truth (Z.land (mode (timer b)).1 1) = false ∧ joined (load (timer b)) * scale = p ∧ Z.testbit (mask (timer b)) 0 = true.

(** One round of the loop. *)
Lemma board_round scale k p now b c' fuel :
  0 <= p < 2 ^ 40 → now < 2 ^ 62 → runs_periodically scale p b → 0 <= (tick (timer b)).1 <= now → pic_set_irq k 1 (cpu b) = Ok c' →
  let t := (tick (timer b)).1 in
  ∃ s', @run_timers_loop _ (timer_board_client scale k) (S fuel) now b [(0%nat, t)] =
      ('(w, l, fired) ← @run_timers_loop _ (timer_board_client scale k) fuel now (mkTimerBoard s' c') [(0%nat, t + p)]; Ok (w, l, (0%nat, t) :: fired)) ∧
    (tick s').1 = t + p ∧ runs_periodically scale p (mkTimerBoard s' c').
Proof.
  intros Hp Hnow (Hc & Hm & Hpp & Hmask) Ht Hpic t. cbn [run_timers_loop head qemu_timer_expired_ns].
  rewrite (proj2 (Z.leb_le _ now)) by lia. unfold timer_cb. rewrite (board_tick scale k _ b c') by done. rewrite Hpp.
  rewrite s64_small by (unfold is_s64; lia). cbn [mbind res_bind fold_left timer_op fst].
  unfold qemu_mod_timer_ns. cbn [qemu_del_timer insert_timer head qemu_timer_expired_ns]. eexists. by split_and!.
Qed.

(** While the line stays high further expiries change nothing for the processor. *)
Lemma board_runs_on scale k p now n b fuel :
  0 <= p < 2 ^ 40 → now < 2 ^ 62 → 0 <= k → runs_periodically scale p b → line_high k (cpu b) →
  0 <= (tick (timer b)).1 → (tick (timer b)).1 + (Z.of_nat n - 1) * p <= now → now < (tick (timer b)).1 + Z.of_nat n * p → (n < fuel)%nat →
  ∃ s', @run_timers_loop _ (timer_board_client scale k) fuel now b [(0%nat, (tick (timer b)).1)] =
    Ok (mkTimerBoard s' (cpu b), [(0%nat, (tick (timer b)).1 + Z.of_nat n * p)], expiries n (tick (timer b)).1 p).
Proof.
  intros Hp Hnow Hk. revert b fuel. induction n as [|n IH]; intros b fuel Hper Hh H0 Hlo Hhi Hf; (destruct fuel as [|fuel]; [lia|]).
  - exists (timer b). cbn [run_timers_loop head qemu_timer_expired_ns]. rewrite (proj2 (Z.leb_gt _ now)) by lia.
    rewrite Z.mul_0_l, Z.add_0_r. by destruct b.
  - destruct Hh as ((i & Hi & Hl) & Hline & Hreq).
    assert (pic_set_irq k 1 (cpu b) = Ok (cpu b)) as Hpic by (apply (pic_stays k 1 _ i); rewrite ?Hl, ?Hline; done).
    destruct (board_round scale k p now b (cpu b) fuel Hp Hnow Hper ltac:(lia) Hpic) as (s1 & -> & Ht1 & Hper1).
    destruct (IH (mkTimerBoard s1 (cpu b)) fuel) as (s' & Hr); try done; cbn [timer]; rewrite ?Ht1; try lia.
    + split; [by exists i|done].
    + cbn [timer cpu] in Hr. rewrite Ht1 in Hr. rewrite Hr. exists s'. cbn [mbind res_bind expiries].
      by replace ((tick (timer b)).1 + Z.of_nat (S n) * p) with ((tick (timer b)).1 + p + Z.of_nat n * p) by lia.
Qed.

Lemma board_start scale k now v b l i :
  config (timer b) = 0 → truth (Z.land (control (timer b)) 1) = false → Z.land v 1 = 1 → state (timer b) = 0 →
  0 <= k → irq_state (gic (nvic (env (cpu b)))) !! Z.to_nat (k + 32) = Some i → i_level i = false →
  request (cpu b) = 0 → parent_irq (gic (nvic (env (cpu b)))) = 0 →
  let t := s64 (now + joined (load (timer b)) * scale) in
  timer_board_write scale k now 0x0c v b l =
    Ok (mkTimerBoard (set_tick (set_control (timer b) v) (set2 (tick (timer b)) 0 t)) (cpu b), qemu_mod_timer_ns 0 t l).
Proof.
  intros Hc Hoff Hv Hst Hk Hi Hl Hr Hline t.
  pose proof (gptm_start scale now v (mkGptmWorld (timer b) 0 0) l Hc Hoff Hv) as H. unfold gptm_guest_write in H. unfold timer_board_write.
  cbn [module] in H. fold t in H. destruct (gptm_write scale now 0x0c v (timer b)) as [[s es]|] eqn:E; [|done]. cbn [mbind res_bind gptm_apply] in *.
  pose proof (effects_module es (mkGptmWorld s 0 0)) as Hmod. injection H as Hw Hops. rewrite Hw in Hmod. cbn [module] in Hmod. subst s.
  assert (deliver_all k es (cpu b) = Ok (cpu b)) as ->; [|cbn [mbind res_bind]; by rewrite Hops].
  unfold gptm_write in E. inv_bind. destruct a as [s1 e1]. inv_bind.
  rewrite (deliver_no_irq k e1) by (by eapply write_ctl_no_irq). cbn [deliver_all deliver gptm_update_irq state mask set_tick set_control].
  rewrite Hst, Z.land_0_l. rewrite (pic_stays k _ _ i); [done|done|done|by rewrite Hl|by rewrite Hline].
Qed.

(** ** The processor wakes up *)

Section wake.
Context {M : Type} `{PhysMemLaws M}.
Context (semihosting : semihosting_ops (M := M)) (fuel : nat).

(** The raised interrupt is found by the execution loop. *)
Lemma raised_is_taken k pm now c c' m s :
  raised k c c' → env_wf (env c) → 36 <= reg (env c) 13 → reg (env c) 15 < 0xfffffff0 →
  v7m_halted c = 1 → exit_request c = 0 → Z.testbit (singlestep_enabled c) 1 = false →
  ∃ c2 r c3 m3, cpu_exec_start pm now c' s = (None, c2, stop_sleep_cycle_count pm now s) ∧ v7m_halted c2 = 0 ∧
    cpu_exec_requests semihosting fuel (c2, m) = Ok (Runs_block, (c3, m3)) ∧ taken c2 r c3 m3 ∧
    prio_of (gic (nvic (env c2))) r <= prio_of (gic (nvic (env c2))) (k + 32) ∧ env c2 = env c' ∧ r = current_pending (gic (nvic (env c'))).
Proof.
  intros [[g Hg] Hhigh Hh Hx Hss I Hbest Hprio _ _] W Hsp Hpc Hhalt Hex Hstep. destruct Hhigh as (_ & Hline & Hreq).
  exists (set_index (set_halted c' 0) (-1)).
  destruct (requests_taken semihosting fuel (set_index (set_halted c' 0) (-1)) m) as (c3 & m3 & Hq & _ & T);
    cbn [env set_index set_halted request exit_request singlestep_enabled]; try done.
  - constructor; cbn [request set_index set_halted exit_request singlestep_enabled]; rewrite ?Hreq; try done; congruence.
  - rewrite Hg. destruct W. by constructor.
  - by rewrite Hg.
  - left. by rewrite Hg.
  - eexists _, c3, m3. split_and!; try done.
    unfold cpu_exec_start. rewrite Hh, Hhalt. cbn [truth Z.eqb negb]. unfold cpu_has_work. unfold common. cbn [CpuExec.interrupt_request].
    by rewrite Hreq.
Qed.

(** [C9]: a timer that the guest programs wakes it up: when the guest has loaded a count
    into module [n], enabled its interrupt in the module and in the controller, and starts
    it with a write to the control register at [start], and the processor then waits for an
    interrupt, the main loop's run of the timers at any time after the first period ends,
    with an expiry for each period; [cpu_exec] then finds work (which ends the sleep of the
    accounting) and takes an interrupt of at least the timer's priority, and if no other
    interrupt is waiting, it is the handler of module [n] that runs next. *)
Theorem gptm_wakes_cpu n k scale start now v b l pm m s i loops :
  let c := cpu b in
  let g := gic (nvic (env c)) in
  let p := joined (load (timer b)) * scale in
  let e := Z.to_nat ((now - start) / p) in
  timer_irq !! n = Some k →
  gptm_wf (timer b) → config (timer b) = 0 → truth (Z.land (mode (timer b)).1 1) = false →
  truth (Z.land (control (timer b)) 1) = false → Z.land v 1 = 1 → state (timer b) = 0 → Z.testbit (mask (timer b)) 0 = true →
  0 < joined (load (timer b)) → 0 < scale <= 80 → 0 <= start → start + p <= now < 2 ^ 62 → qemu_del_timer 0 l = [] → (e < loops)%nat →
  env_wf (env c) → 36 <= reg (env c) 13 → reg (env c) 15 < 0xfffffff0 →
  request c = 0 → exit_request c = 0 → Z.testbit (singlestep_enabled c) 1 = false →
  gic_inv g → parent_irq g = 0 → irq_state g !! Z.to_nat (k + 32) = Some i → i_enabled i = true → i_level i = false →
  prio_of g (k + 32) <= priority_mask g → prio_of g (k + 32) < running_priority g →
  ∃ b1 l1 b2 c2 r c3 m3,
    timer_board_write scale k start 0x0c v b l = Ok (b1, l1) ∧
    @qemu_run_timers _ (timer_board_client scale k) loops true now (goes_to_sleep b1) l1 =
      Ok (b2, [(0%nat, start + p + Z.of_nat e * p)], expiries e (start + p) p) ∧
    cpu_exec_start pm now (cpu b2) s = (None, c2, stop_sleep_cycle_count pm now s) ∧ v7m_halted c2 = 0 ∧
    cpu_exec_requests semihosting fuel (c2, m) = Ok (Runs_block, (c3, m3)) ∧ taken c2 r c3 m3 ∧
    prio_of (gic (nvic (env c2))) r <= prio_of (gic (nvic (env c2))) (k + 32) ∧
    ((∀ j, is_irq j → wants g j = false) → exception (env c3) = k + 16).
Proof.
  intros c g p e Hk W Hc Hm Hoff Hv Hst Hmask Hcnt Hs Hstart0 Hnow Hl Hf We Hsp Hpc Hr Hx Hss I Hline Hi He Hlv Hpm Hrun.
  assert (0 <= k < 64 ∧ 32 <= k + 32) as [Hk64 _].
  { apply list_elem_of_lookup_2 in Hk. unfold timer_irq in Hk. repeat (apply elem_of_cons in Hk as [-> | Hk]; [lia|]). by apply elem_of_nil in Hk. }
  destruct (joined_half (load (timer b))) as [_ Hj]; [apply W|]. unfold is_u32 in Hj. assert (0 < p < 2 ^ 40) as Hp by (subst p; nia).
  rewrite (board_start scale k start v b l i) by (done || lia). fold p. rewrite s64_small by (unfold is_s64; lia).
  unfold qemu_mod_timer_ns. rewrite Hl. cbn [insert_timer head qemu_timer_expired_ns]. set (s1 := Gptm.set_tick _ _).
  pose proof (Z.div_mod (now - start) p ltac:(lia)) as Hdm. pose proof (Z.mod_pos_bound (now - start) p ltac:(lia)).
  assert (Z.of_nat e = (now - start) / p) as Hke by (apply Z2Nat.id, Z.div_pos; lia).
  assert (1 <= (now - start) / p) as Hone by (apply Z.div_le_lower_bound; lia).
  destruct e as [|e']; [lia|]. destruct loops as [|loops]; [lia|].
  destruct (pic_raises k (set_halted c 1) i) as (c1 & Hpic & R); try done.
  set (b1 := goes_to_sleep (mkTimerBoard s1 (cpu b))).
  destruct (board_round scale k p now b1 c1 loops) as (s2 & Hround & Ht2 & Hper2); [lia|lia|done| |done|].
  { change ((tick (timer b1)).1) with (start + p). lia. }
  change ((tick (timer b1)).1) with (start + p) in *.
  destruct (board_runs_on scale k p now e' (mkTimerBoard s2 c1) loops) as (s3 & Hon); cbn [timer cpu]; rewrite ?Ht2; try done; try lia;
    [apply R|..]; try (rewrite Nat2Z.inj_succ in Hke; nia).
  cbn [timer cpu] in Hon. rewrite Ht2 in Hon.
  destruct (raised_is_taken k pm now (set_halted c 1) c1 m s R We Hsp Hpc eq_refl Hx Hss) as (c2 & r & c3 & m3 & Hstart & Hh & Hq & T & Hprio & He2 & Hr2).
  eexists _, _, (mkTimerBoard s3 c1), c2, r, c3, m3. split; [reflexivity|]. split_and!; try done.
  - unfold qemu_run_timers. cbn [negb]. fold b1. rewrite Hround, Hon. cbn [mbind res_bind expiries].
    by replace (start + p + Z.of_nat (S e') * p) with (start + p + p + Z.of_nat e' * p) by lia.
  - intros Hquiet. rewrite (tk_vector _ _ _ _ T), Hr2. pose proof (rz_best _ _ _ R) as (Hirq & Hw & _).
    assert (current_pending (gic (nvic (env c1))) = k + 32) as ->.
    { destruct (decide (current_pending (gic (nvic (env c1))) = k + 32)) as [|Hne]; [done|]. exfalso.
      rewrite (rz_others _ _ _ R) in Hw by (done || apply Hirq). cbn [env set_halted] in Hw. fold g in Hw. rewrite Hquiet in Hw by done. done. }
    unfold vector. rewrite (proj2 (Z.leb_le 32 _)) by lia. lia.
Qed.

End wake.

(** ** Example: module 0, its interrupt enabled in the controller *)

(** The byte of the enable register that holds input 19. *)
Definition gic_timer0 : gic_state :=
  match gic_run 1 [Store 0x102 8] gic_example with Ok (_, s) => s | Err _ => gic_example end.

Lemma gic_timer0_inv : gic_inv gic_timer0.
Proof.
  destruct (gic_started_inv (replicate 32 0) (0x40 :: replicate 63 0) eq_refl eq_refl) as [I _].
  assert (Forall gic_event_ok [Store 0x102 8]) as Hev by gic_events_ok.
  pose proof (run_inv 1 _ _ I Hev) as Hr. unfold gic_timer0, gic_example.
  destruct (gic_run _ _ _) as [[os s]|]; [exact Hr|exact I].
Qed.

Definition example_timer_board : timer_board :=
  mkTimerBoard example_module (mkV7mCpu (set_nvic example_env (mkNvic gic_timer0 (mkSystick 0 0 0) 0 0)) 0 0 0 0 (-1)).

Lemma gptm_wakes_cpu_witness :
  ∃ b1 l1 b2 c2 c3 m3,
    timer_board_write 20 19 5 0x0c 1 example_timer_board [] = Ok (b1, l1) ∧
    @qemu_run_timers _ (timer_board_client 20 19) 10 true 70000 (goes_to_sleep b1) l1 =
      Ok (b2, [(0%nat, 80005)], [(0%nat, 20005); (0%nat, 40005); (0%nat, 60005)]) ∧
    cpu_exec_start None 70000 (cpu b2) var_init = (None, c2, var_init) ∧
    cpu_exec_requests (M := ram) no_semihosting 97 (c2, λ _, 0) = Ok (Runs_block, (c3, m3)) ∧ exception (env c3) = 35.
Proof.
  destruct (gptm_wakes_cpu (M := ram) no_semihosting 97 0 19 20 5 70000 1 example_timer_board [] None (λ _, 0) var_init
    (mkIrq true false false false false false) 10)
    as (b1 & l1 & b2 & c2 & r & c3 & m3 & Hw & Hr & Hs & _ & Hq & _ & _ & Hx);
    [reflexivity|by repeat constructor|reflexivity|reflexivity|reflexivity|reflexivity|reflexivity|reflexivity|reflexivity|lia|lia
    |vm_compute; intuition discriminate|reflexivity|vm_compute; lia|by destruct example_env_wf; constructor|by vm_compute|by vm_compute
    |reflexivity|reflexivity|reflexivity|exact gic_timer0_inv|reflexivity|reflexivity|reflexivity|reflexivity|by vm_compute|by vm_compute|].
  exists b1, l1, b2, c2, c3, m3. split; [exact Hw|]. split; [exact Hr|]. split; [exact Hs|]. split; [exact Hq|]. apply Hx.
  intros j [H0 H96]. assert (∃ k : nat, j = Z.of_nat k ∧ (k < 96)%nat) as (k & -> & Hk) by (exists (Z.to_nat j); lia).
  clear - Hk. do 96 (destruct k as [|k]; [by vm_compute|]). lia.
Defined.
