(* ===== verification/HostUtils.v ===== *)
(** * HostUtils: bit counting and wide multiplication (host-utils.h, host-utils.c)

    The portable versions, which are compiled where the compiler or the processor has no
    instruction of its own: leading and trailing bits by binary search, and the product of
    two 64-bit numbers from products of their halves. *)

From S2P Require Import Prelude.
Local Open Scope Z_scope.

(** ** Counting *)

(** One step of the binary search: if no bit of [mask] is set, [n] bits are skipped. *)
Definition clz_step (mask n : Z) '((cnt, val) : Z * Z) : Z * Z :=
  if negb (truth (Z.land val mask)) then (cnt + n, u32 (Z.shiftl val n)) else (cnt, val).
Definition clz32 (val : Z) : Z :=
  let st := clz_step 0xFFFF0000 16 (0, val) in
  let st := clz_step 0xFF000000 8 st in
  let st := clz_step 0xF0000000 4 st in
  let st := clz_step 0xC0000000 2 st in
  let st := clz_step 0x80000000 1 st in
  if negb (truth (Z.land st.2 0x80000000)) then st.1 + 1 else st.1.
Definition clo32 (val : Z) : Z := clz32 (u32 (Z.lnot val)).

Definition clz64 (val : Z) : Z :=
  if negb (truth (Z.shiftr val 32)) then 32 + clz32 (u32 val) else clz32 (u32 (Z.shiftr val 32)).
Definition clo64 (val : Z) : Z := clz64 (u64 (Z.lnot val)).

Definition ctz_step (mask n : Z) '((cnt, val) : Z * Z) : Z * Z :=
  if negb (truth (Z.land val mask)) then (cnt + n, Z.shiftr val n) else (cnt, val).
Definition ctz32 (val : Z) : Z :=
  let st := ctz_step 0x0000FFFF 16 (0, val) in
  let st := ctz_step 0x000000FF 8 st in
  let st := ctz_step 0x0000000F 4 st in
  let st := ctz_step 0x00000003 2 st in
  let st := ctz_step 0x00000001 1 st in
  if negb (truth (Z.land st.2 0x00000001)) then st.1 + 1 else st.1.
Definition cto32 (val : Z) : Z := ctz32 (u32 (Z.lnot val)).
Definition ctz64 (val : Z) : Z :=
  if negb (truth (u32 val)) then 32 + ctz32 (u32 (Z.shiftr val 32)) else ctz32 (u32 val).
Definition cto64 (val : Z) : Z := ctz64 (u64 (Z.lnot val)).

(** The number of set bits: fields of [k] bits are added to their neighbours, in a
    variable of [w] bits. *)
Definition pop_step (w k mask val : Z) : Z := (Z.land val mask + Z.land (Z.shiftr val k) mask) mod 2 ^ w.
Definition ctpop8 (val : Z) : Z :=
  let val := pop_step 8 1 0x55 val in
  let val := pop_step 8 2 0x33 val in
  pop_step 8 4 0x0f val.
Definition ctpop16 (val : Z) : Z :=
  let val := pop_step 16 1 0x5555 val in
  let val := pop_step 16 2 0x3333 val in
  let val := pop_step 16 4 0x0f0f val in
  pop_step 16 8 0x00ff val.
Definition ctpop32 (val : Z) : Z :=
  let val := pop_step 32 1 0x55555555 val in
  let val := pop_step 32 2 0x33333333 val in
  let val := pop_step 32 4 0x0f0f0f0f val in
  let val := pop_step 32 8 0x00ff00ff val in
  pop_step 32 16 0x0000ffff val.
Definition ctpop64 (val : Z) : Z :=
  let val := pop_step 64 1 0x5555555555555555 val in
  let val := pop_step 64 2 0x3333333333333333 val in
  let val := pop_step 64 4 0x0f0f0f0f0f0f0f0f val in
  let val := pop_step 64 8 0x00ff00ff00ff00ff val in
  let val := pop_step 64 16 0x0000ffff0000ffff val in
  pop_step 64 32 0x00000000ffffffff val.

(** ** 64 by 64 bits *)

(** A number of 128 bits: low and high word. *)
Definition add128 (a b : Z) '((low, high) : Z * Z) : Z * Z :=
  let low := u64 (low + a) in
  let high := if low <? a then u64 (high + 1) else high in
  (low, u64 (high + b)).
Definition neg128 '((low, high) : Z * Z) : Z * Z :=
  add128 1 0 (u64 (Z.lnot low), u64 (Z.lnot high)).
Definition mul64 (a b : Z) : Z * Z :=
  let a0 := u32 a in
  let a1 := u32 (Z.shiftr a 32) in
  let b0 := u32 b in
  let b1 := u32 (Z.shiftr b 32) in
  let p := (a0 * b0, 0) in
  let v := a0 * b1 in
  let p := add128 (u64 (Z.shiftl v 32)) (Z.shiftr v 32) p in
  let v := a1 * b0 in
  let p := add128 (u64 (Z.shiftl v 32)) (Z.shiftr v 32) p in
  let v := a1 * b1 in
  (p.1, u64 (p.2 + v)).
Definition mulu64 (a b : Z) : Z * Z := mul64 a b.

(** [-a] overflows for the smallest number; the wrapped value is passed on as unsigned. *)
Definition muls64 (a b : Z) : Z * Z :=
  let sa := a <? 0 in
  let a := if sa then s64 (- a) else a in
  let sb := b <? 0 in
  let b := if sb then s64 (- b) else b in
  let p := mul64 (u64 a) (u64 b) in
  if xorb sa sb then neg128 p else p.

(** ** Leading bits *)

(** No bit of a mask of high bits. *)
Lemma no_high_bits val k :
  0 <= val < 2 ^ 32 → 0 <= k <= 32 → negb (truth (Z.land val (2 ^ 32 - 2 ^ k))) = (val <? 2 ^ k).
Proof.
  intros Hv Hk. unfold truth. rewrite negb_involutive.
  assert (Z.land val (2 ^ 32 - 2 ^ k) = val / 2 ^ k * 2 ^ k) as ->.
  { replace (2 ^ 32 - 2 ^ k) with (Z.shiftl (Z.ones (32 - k)) k).
    - apply Z.bits_inj'. intros n Hn. rewrite Z.land_spec, <- Z.shiftr_div_pow2, <- Z.shiftl_mul_pow2 by lia. rewrite !Z.shiftl_spec by lia.
      destruct (Z.lt_ge_cases n k); [rewrite !(Z.testbit_neg_r _ (n - k)) by lia; apply andb_false_r|].
      rewrite Z.shiftr_spec by lia. replace (n - k + k) with n by lia. destruct (Z.lt_ge_cases n 32).
      + rewrite Z.ones_spec_low by lia. apply andb_true_r.
      + rewrite is_u32_high by done. done.
    - rewrite Z.shiftl_mul_pow2, Z.ones_equiv by lia. rewrite <- Z.sub_1_r, Z.mul_sub_distr_r, <- Z.pow_add_r by lia.
      replace (32 - k + k) with 32 by lia. lia. }
  pose proof (Z.pow_pos_nonneg 2 k ltac:(lia) ltac:(lia)). pose proof (Z.div_mod val (2 ^ k)). pose proof (Z.mod_pos_bound val (2 ^ k)).
  pose proof (Z.div_pos val (2 ^ k)).
  destruct (Z.ltb_spec val (2 ^ k)); [rewrite Z.div_small by lia; done|]. apply Z.eqb_neq. nia.
Qed.

(** A step keeps what is counted: [cnt] bits of [x] were skipped, and the highest bit of
    the rest is among its first [n]. *)
Record skipped (x n cnt val : Z) : Prop := {
  sk_value : val = x * 2 ^ cnt;
  sk_cnt : 0 <= cnt;
  sk_word : is_u32 val;
  sk_high : 0 < x → 2 ^ (32 - n) <= val;
}.

Lemma clz_step_ok mask x n st :
  0 < n <= 16 → mask = 2 ^ 32 - 2 ^ (32 - n) → skipped x (2 * n) st.1 st.2 →
  skipped x n (clz_step mask n st).1 (clz_step mask n st).2 ∧ (x = 0 → (clz_step mask n st).1 = st.1 + n).
Proof.
  intros Hn -> [Hv Hc Hw Hh]. destruct st as [cnt val]. cbn [fst snd] in *. unfold clz_step. unfold is_u32 in *. rewrite no_high_bits by lia.
  pose proof (Z.pow_pos_nonneg 2 n ltac:(lia) ltac:(lia)). pose proof (Z.pow_pos_nonneg 2 (32 - n) ltac:(lia) ltac:(lia)).
  destruct (Z.ltb_spec val (2 ^ (32 - n))) as [Hlt|Hge]; cbn [fst snd].
  - split; [|done]. assert (0 <= val * 2 ^ n < 2 ^ 32) as Hr.
    { replace (2 ^ 32) with (2 ^ (32 - n) * 2 ^ n) by (rewrite <- Z.pow_add_r by lia; f_equal; lia). nia. }
    rewrite Z.shiftl_mul_pow2, u32_small by lia. constructor; [|lia|exact Hr|].
    + rewrite Hv, <- Z.mul_assoc, <- Z.pow_add_r by lia. done.
    + intros Hx. specialize (Hh Hx). replace (2 ^ (32 - n)) with (2 ^ (32 - 2 * n) * 2 ^ n) by (rewrite <- Z.pow_add_r by lia; f_equal; lia). nia.
  - split; [by constructor|]. intros ->. subst val. nia.
Qed.

(** Leading zeros: the position of the highest bit, or 32. *)
Lemma clz32_ok x : is_u32 x → clz32 x = if x =? 0 then 32 else 31 - Z.log2 x.
Proof.
  intros Hx. unfold clz32.
  assert (skipped x (2 * 16) (0, x).1 (0, x).2) as S0 by (constructor; cbn; lia || done).
  destruct (clz_step_ok 0xFFFF0000 x 16 _ ltac:(lia) eq_refl S0) as [S1 Z1]. set (st1 := clz_step 0xFFFF0000 16 _) in *.
  destruct (clz_step_ok 0xFF000000 x 8 _ ltac:(lia) eq_refl S1) as [S2 Z2]. set (st2 := clz_step 0xFF000000 8 _) in *.
  destruct (clz_step_ok 0xF0000000 x 4 _ ltac:(lia) eq_refl S2) as [S3 Z3]. set (st3 := clz_step 0xF0000000 4 _) in *.
  destruct (clz_step_ok 0xC0000000 x 2 _ ltac:(lia) eq_refl S3) as [S4 Z4]. set (st4 := clz_step 0xC0000000 2 _) in *.
  destruct (clz_step_ok 0x80000000 x 1 _ ltac:(lia) eq_refl S4) as [S5 Z5]. set (st5 := clz_step 0x80000000 1 _) in *.
  destruct S5 as [Hv Hc Hw Hh]. unfold is_u32 in *. change 0x80000000 with (2 ^ 32 - 2 ^ 31). rewrite no_high_bits by lia.
  destruct (Z.eqb_spec x 0) as [E|E].
  - rewrite Hv, E, Z.mul_0_l. cbn [Z.ltb Z.compare]. rewrite (Z5 E), (Z4 E), (Z3 E), (Z2 E), (Z1 E). done.
  - specialize (Hh ltac:(lia)). rewrite (proj2 (Z.ltb_ge _ _)) by lia. rewrite Hv in *.
    assert (Z.log2 (x * 2 ^ st5.1) = 31) as H by (apply Z.log2_unique; lia). rewrite Z.log2_mul_pow2 in H by lia. lia.
Qed.

Lemma clz64_ok x : is_u64 x → clz64 x = if x =? 0 then 64 else 63 - Z.log2 x.
Proof.
  intros Hx. unfold clz64, truth. rewrite negb_involutive. unfold is_u64 in Hx. rewrite Z.shiftr_div_pow2 by lia.
  pose proof (Z.div_mod x (2 ^ 32) ltac:(lia)). pose proof (Z.mod_pos_bound x (2 ^ 32) ltac:(lia)). pose proof (Z.div_pos x (2 ^ 32) ltac:(lia) ltac:(lia)).
  destruct (Z.eqb_spec (x / 2 ^ 32) 0) as [E|E].
  - rewrite u32_small, clz32_ok by (unfold is_u32; lia). destruct (x =? 0); lia.
  - assert (x / 2 ^ 32 < 2 ^ 32) by (apply Z.div_lt_upper_bound; lia). rewrite u32_small, clz32_ok by (unfold is_u32; lia).
    rewrite (proj2 (Z.eqb_neq _ _) E), (proj2 (Z.eqb_neq x 0)) by lia. rewrite <- Z.shiftr_div_pow2, Z.log2_shiftr by lia.
    assert (32 <= Z.log2 x) by (apply Z.log2_le_pow2; nia). lia.
Qed.

(** ** Trailing bits *)

Lemma half_words a : is_u64 a → is_u32 (u32 a) ∧ is_u32 (u32 (Z.shiftr a 32)) ∧ u32 a + 2 ^ 32 * u32 (Z.shiftr a 32) = a.
Proof. intros Ha. split; [apply u32_range|]. split; [apply u32_range|]. by apply u64_halves. Qed.

(** [cnt] zero bits of [x] were cut off, and the lowest bit of the rest is among its first
    [n]. *)
Record cut (x n cnt val : Z) : Prop := {
  cut_value : x = val * 2 ^ cnt;
  cut_cnt : 0 <= cnt;
  cut_word : 0 <= val;
  cut_low : 0 < x → val mod 2 ^ n <> 0;
}.

Lemma ctz_step_ok x n st :
  0 < n → cut x (2 * n) st.1 st.2 →
  cut x n (ctz_step (Z.ones n) n st).1 (ctz_step (Z.ones n) n st).2 ∧ (x = 0 → (ctz_step (Z.ones n) n st).1 = st.1 + n).
Proof.
  intros Hn [Hv Hc Hw Hl]. destruct st as [cnt val]. cbn [fst snd] in *. unfold ctz_step, truth. rewrite negb_involutive, Z.land_ones, Z.shiftr_div_pow2 by lia.
  pose proof (Z.pow_pos_nonneg 2 n ltac:(lia) ltac:(lia)). pose proof (Z.pow_pos_nonneg 2 cnt ltac:(lia) ltac:(lia)). pose proof (Z.div_mod val (2 ^ n) ltac:(lia)).
  destruct (Z.eqb_spec (val mod 2 ^ n) 0) as [E|E]; cbn [fst snd].
  - split; [|done]. constructor; [|lia|by apply Z.div_pos; lia|].
    + rewrite Z.pow_add_r by lia. nia.
    + intros Hx Hm. apply (Hl Hx). replace (2 * n) with (n + n) by lia. rewrite Z.pow_add_r, Z.rem_mul_r, E, Hm by lia. lia.
  - split; [by constructor|]. intros ->. assert (val = 0) as -> by nia. by rewrite Z.mod_0_l in E by lia.
Qed.

Lemma ctz32_ok x : is_u32 x → if x =? 0 then ctz32 x = 32 else ∃ q, 0 <= ctz32 x ∧ x = (2 * q + 1) * 2 ^ ctz32 x.
Proof.
  intros Hx. unfold ctz32. unfold is_u32 in Hx.
  assert (cut x (2 * 16) (0, x).1 (0, x).2) as S0 by (constructor; cbn [fst snd]; [lia..|]; intros ?; rewrite Z.mod_small; lia).
  destruct (ctz_step_ok x 16 _ ltac:(lia) S0) as [S1 Z1]. change (Z.ones 16) with 0xFFFF in *. set (st1 := ctz_step 0xFFFF 16 _) in *.
  destruct (ctz_step_ok x 8 _ ltac:(lia) S1) as [S2 Z2]. change (Z.ones 8) with 0xFF in *. set (st2 := ctz_step 0xFF 8 _) in *.
  destruct (ctz_step_ok x 4 _ ltac:(lia) S2) as [S3 Z3]. change (Z.ones 4) with 0xF in *. set (st3 := ctz_step 0xF 4 _) in *.
  destruct (ctz_step_ok x 2 _ ltac:(lia) S3) as [S4 Z4]. change (Z.ones 2) with 3 in *. set (st4 := ctz_step 3 2 _) in *.
  destruct (ctz_step_ok x 1 _ ltac:(lia) S4) as [S5 Z5]. change (Z.ones 1) with 1 in *. set (st5 := ctz_step 1 1 _) in *.
  destruct S5 as [Hv Hc Hw Hl]. unfold truth. rewrite negb_involutive. change (Z.land st5.2 1) with (Z.land st5.2 (Z.ones 1)). rewrite Z.land_ones by lia.
  pose proof (Z.div_mod st5.2 (2 ^ 1) ltac:(lia)). pose proof (Z.mod_pos_bound st5.2 (2 ^ 1) ltac:(lia)).
  destruct (Z.eqb_spec x 0) as [E|E].
  - assert (st5.2 = 0) as -> by (pose proof (Z.pow_pos_nonneg 2 st5.1 ltac:(lia) ltac:(lia)); nia). cbn [Z.modulo Z.div_eucl Z.eqb]. rewrite (Z5 E), (Z4 E), (Z3 E), (Z2 E), (Z1 E). done.
  - specialize (Hl ltac:(lia)). rewrite (proj2 (Z.eqb_neq _ _)) by done. exists (st5.2 / 2). split; [done|]. rewrite Hv at 1. f_equal. change (2 ^ 1) with 2 in *. lia.
Qed.

(** ** Set bits *)

(** A number from its fields of [k] bits, lowest first. *)
Definition fields (k : Z) (l : list Z) : Z := foldr (λ v acc, v + 2 ^ k * acc) 0 l.
Fixpoint evens (l : list Z) : list Z := match l with x :: l => x :: match l with _ :: l => evens l | [] => [] end | [] => [] end.
(** Each field added to its neighbour. *)
Fixpoint pairs (l : list Z) : list Z := match l with x :: y :: l => (x + y) :: pairs l | _ => l end.
Definition total (l : list Z) : Z := foldr Z.add 0 l.
(** The mask that keeps the even of [2 * n] fields. *)
Definition even_mask (k : Z) (n : nat) : Z := fields (2 * k) (replicate n (Z.ones k)).

Lemma fields_range k l : 0 <= k → Forall (λ x, 0 <= x < 2 ^ k) l → 0 <= fields k l < 2 ^ (k * Z.of_nat (length l)).
Proof.
  intros Hk. induction 1 as [|x l Hx Hl IH]; cbn [fields foldr length].
  - rewrite Z.mul_0_r. done.
  - replace (k * Z.of_nat (S (length l))) with (k + k * Z.of_nat (length l)) by lia. rewrite Z.pow_add_r by lia. unfold fields in IH. nia.
Qed.

Lemma land_fields k a b A B : 0 <= k → 0 <= a < 2 ^ k → 0 <= b < 2 ^ k → Z.land (a + 2 ^ k * A) (b + 2 ^ k * B) = Z.land a b + 2 ^ k * Z.land A B.
Proof.
  intros Hk Ha Hb. assert (∀ x y, 0 <= x < 2 ^ k → x + 2 ^ k * y = Z.lor x (Z.shiftl y k)) as H.
  { intros x y Hx. rewrite Z.shiftl_mul_pow2, Z.lor_comm, lor_add by lia. lia. }
  assert (0 <= Z.land a b < 2 ^ k) as Hab.
  { pose proof (land_le a b). lia. }
  rewrite !H by done. apply Z.bits_inj'. intros n Hn. rewrite !Z.land_spec, !Z.lor_spec, !Z.shiftl_spec, !Z.land_spec by lia.
  destruct (Z.lt_ge_cases n k).
  - rewrite !(Z.testbit_neg_r _ (n - k)) by lia. by rewrite !orb_false_r.
  - assert (∀ x, 0 <= x < 2 ^ k → Z.testbit x n = false) as Hz by (intros x Hx; rewrite Z.testbit_eqb, Z.div_small by (pose proof (Z.pow_le_mono_r 2 k n); lia); done).
    rewrite !Hz by done. done.
Qed.

(** Masking keeps the even fields. *)
Lemma land_evens k n l :
  0 <= k → length l = (2 * n)%nat → Forall (λ x, 0 <= x < 2 ^ k) l → Z.land (fields k l) (even_mask k n) = fields (2 * k) (evens l).
Proof.
  intros Hk. revert l. induction n as [|n IH]; intros l Hl F; [by destruct l|]. destruct l as [|x [|y l]]; [done|cbn in Hl; lia|].
  apply Forall_cons in F as [Hx F]. apply Forall_cons in F as [Hy F]. specialize (IH l ltac:(cbn in Hl; lia) F).
  unfold even_mask, fields in *. cbn [replicate foldr evens]. rewrite <- IH.
  replace (x + 2 ^ k * (y + 2 ^ k * foldr (λ v acc, v + 2 ^ k * acc) 0 l)) with ((x + 2 ^ k * y) + 2 ^ (2 * k) * foldr (λ v acc, v + 2 ^ k * acc) 0 l)
    by (replace (2 * k) with (k + k) by lia; rewrite Z.pow_add_r by lia; lia).
  assert (0 <= Z.ones k < 2 ^ k) as Ho by (rewrite Z.ones_equiv; lia).
  rewrite land_fields; [|lia|..]; try (replace (2 * k) with (k + k) by lia; rewrite Z.pow_add_r by lia; nia).
  f_equal. rewrite Z.land_ones, Z.mul_comm, Z.mod_add, Z.mod_small by lia. done.
Qed.

Lemma fields_snoc k l : fields k (l ++ [0]) = fields k l.
Proof. unfold fields. induction l as [|x l IH]; cbn [app foldr]; [lia|]. by rewrite IH. Qed.

Lemma evens_add k l : Nat.Even (length l) → fields k (evens l) + fields k (evens (drop 1 l ++ [0])) = fields k (pairs l).
Proof.
  intros [n Hn]. revert l Hn. induction n as [|n IH]; intros l Hl; [destruct l; [cbn; lia|done]|]. destruct l as [|x [|y l]]; [done|cbn in Hl; lia|].
  specialize (IH l ltac:(cbn in Hl; lia)). unfold fields in *. cbn [drop app evens pairs foldr].
  destruct l as [|z l]; [cbn; lia|]. cbn [app drop] in *. rewrite drop_0 in IH. lia.
Qed.

Lemma pairs_total l : total (pairs l) = total l.
Proof.
  unfold total. induction l as [l IH] using (induction_ltof1 _ length). destruct l as [|x [|y l]]; [done..|].
  cbn [pairs foldr]. rewrite IH by (unfold ltof; cbn; lia). lia.
Qed.

(** The fields of a number with [n] of them, none above [c]. *)
Definition bounded (c : Z) (n : nat) (l : list Z) : Prop := length l = n ∧ Forall (λ x, 0 <= x <= c) l.

Lemma pairs_bounded c n l : bounded c (2 * n) l → bounded (2 * c) n (pairs l).
Proof.
  unfold bounded. revert l. induction n as [|n IH]; intros l [Hl F]; [by destruct l|]. destruct l as [|x [|y l]]; [done|cbn in Hl; lia|].
  apply Forall_cons in F as [Hx F]. apply Forall_cons in F as [Hy F]. destruct (IH l) as [IL IF]; [split; [cbn in Hl; lia|done]|].
  cbn [pairs length]. split; [by rewrite IL|]. constructor; [lia|done].
Qed.

Lemma pop_step_ok w k c n l :
  0 < k → 0 <= c → 2 * c < 2 ^ (2 * k) → c < 2 ^ k → w = 2 * k * Z.of_nat n → bounded c (2 * n) l →
  pop_step w k (even_mask k n) (fields k l) = fields (2 * k) (pairs l) ∧ bounded (2 * c) n (pairs l).
Proof.
  intros Hk Hc0 Hc2 Hc -> S. pose proof (pairs_bounded c n l S) as S'. split; [|done]. destruct S as [Hl F].
  assert (Forall (λ x, 0 <= x < 2 ^ k) l) as F' by (eapply Forall_impl; [exact F|]; cbn; lia).
  unfold pop_step. rewrite land_evens by (done || lia).
  assert (Z.shiftr (fields k l) k = fields k (drop 1 l ++ [0])) as ->.
  { rewrite fields_snoc, Z.shiftr_div_pow2 by lia. destruct F' as [|x l' Hx _]; [by rewrite Z.div_0_l by lia|].
    unfold fields. cbn [foldr drop]. rewrite drop_0, Z.mul_comm, Z.div_add, Z.div_small by lia. lia. }
  destruct l as [|x l]. { destruct n; [|done]. cbn. rewrite Z.mul_0_r. done. }
  rewrite land_evens; [|lia|rewrite length_app, length_drop; cbn in *; lia|apply Forall_app; split; [by apply Forall_drop|repeat constructor; lia]].
  rewrite evens_add by (exists n; lia). apply Z.mod_small. destruct S' as [L' F2]. rewrite <- L'. apply fields_range; [lia|].
  eapply Forall_impl; [exact F2|]. cbn. lia.
Qed.

(** The bits of a number. *)
Definition bits (n : nat) (x : Z) : list Z := (λ i, Z.b2z (Z.testbit x (Z.of_nat i))) <$> seq 0 n.

Lemma bits_fields n x : 0 <= x < 2 ^ Z.of_nat n → fields 1 (bits n x) = x ∧ bounded 1 n (bits n x).
Proof.
  unfold bounded. split; [|split; [by unfold bits; rewrite length_fmap, length_seq|]].
  2: { unfold bits. apply Forall_fmap, Forall_forall. intros i _. cbn. destruct (Z.testbit x _); cbn; lia. }
  revert x H. induction n as [|n IH]; intros x Hx. { cbn in *. lia. }
  assert (bits (S n) x = Z.b2z (Z.odd x) :: bits n (x / 2)) as ->.
  { unfold bits. cbn [seq fmap list_fmap]. rewrite Z.bit0_odd. f_equal. rewrite <- (fmap_S_seq 0 n), <- list_fmap_compose.
    apply list_fmap_ext. intros i j Hj. cbn [compose]. rewrite Z.div2_bits by lia. do 2 f_equal. lia. }
  unfold fields in *. cbn [foldr]. rewrite IH.
  - rewrite (Z.div_mod x 2) at 3 by lia. rewrite Zmod_odd. destruct (Z.odd x); cbn [Z.b2z]; lia.
  - pose proof (Z.div_mod x 2). pose proof (Z.mod_pos_bound x 2). replace (Z.of_nat (S n)) with (1 + Z.of_nat n) in Hx by lia. rewrite Z.pow_add_r in Hx by lia. lia.
Qed.

Lemma one_field c k l : bounded c 1 l → fields k l = total l.
Proof. intros [Hl _]. destruct l as [|x [|]]; [done| |done]. unfold fields, total. cbn [foldr]. lia. Qed.

(** One step on a number given by its fields. *)
Ltac pop_step_with k n :=
  match goal with S : bounded ?c _ ?l |- context [pop_step ?w k ?m _] =>
    let E := fresh "E" in let S' := fresh "S" in
    destruct (pop_step_ok w k c n l) as [E S']; [lia| |reflexivity..|exact S|]; [|change (even_mask k n) with m in E];
    [lia|rewrite E; clear E; clear S; rewrite <- (pairs_total l)];
    let k' := eval compute in (2 * k) in let c' := eval compute in (2 * c) in
    change (fields (2 * k)) with (fields k'); change (bounded (2 * c)) with (bounded c') in S'
  end.

(** The set bits are counted. *)
Lemma ctpop64_ok x : is_u64 x → ctpop64 x = total (bits 64 x).
Proof.
  intros Hx. destruct (bits_fields 64 x Hx) as [E S]. unfold ctpop64. cbv zeta. rewrite <- E at 1. clear E.
  pop_step_with 1 32%nat.
  pop_step_with 2 16%nat. pop_step_with 4 8%nat. pop_step_with 8 4%nat. pop_step_with 16 2%nat. pop_step_with 32 1%nat.
  by eapply one_field.
Qed.
Lemma ctpop32_ok x : is_u32 x → ctpop32 x = total (bits 32 x).
Proof.
  intros Hx. destruct (bits_fields 32 x Hx) as [E S]. unfold ctpop32. cbv zeta. rewrite <- E at 1. clear E.
  pop_step_with 1 16%nat. pop_step_with 2 8%nat. pop_step_with 4 4%nat. pop_step_with 8 2%nat. pop_step_with 16 1%nat. by eapply one_field.
Qed.
Lemma ctpop16_ok x : 0 <= x < 2 ^ 16 → ctpop16 x = total (bits 16 x).
Proof.
  intros Hx. destruct (bits_fields 16 x Hx) as [E S]. unfold ctpop16. cbv zeta. rewrite <- E at 1. clear E.
  pop_step_with 1 8%nat. pop_step_with 2 4%nat. pop_step_with 4 2%nat. pop_step_with 8 1%nat. by eapply one_field.
Qed.
Lemma ctpop8_ok x : 0 <= x < 2 ^ 8 → ctpop8 x = total (bits 8 x).
Proof.
  intros Hx. destruct (bits_fields 8 x Hx) as [E S]. unfold ctpop8. cbv zeta. rewrite <- E at 1. clear E.
  pop_step_with 1 4%nat. pop_step_with 2 2%nat. pop_step_with 4 1%nat. by eapply one_field.
Qed.

Lemma ctz64_ok x : is_u64 x → if x =? 0 then ctz64 x = 64 else ∃ q, 0 <= ctz64 x ∧ x = (2 * q + 1) * 2 ^ ctz64 x.
Proof.
  intros Hx. unfold ctz64, truth. rewrite negb_involutive. destruct (half_words x Hx) as (W0 & W1 & E).
  destruct (Z.eqb_spec (u32 x) 0) as [E0|E0].
  - rewrite E0 in E. pose proof (ctz32_ok _ W1) as H. destruct (Z.eqb_spec (u32 (Z.shiftr x 32)) 0) as [E1|E1].
    + rewrite H, (proj2 (Z.eqb_eq x 0)) by lia. done.
    + rewrite (proj2 (Z.eqb_neq x 0)) by lia. destruct H as (q & H0 & Hq). exists q. split; [lia|]. rewrite Z.pow_add_r by lia. lia.
  - pose proof (ctz32_ok _ W0) as H. rewrite (proj2 (Z.eqb_neq (u32 x) 0)) in H by done. rewrite (proj2 (Z.eqb_neq x 0)) by (unfold is_u32 in *; lia).
    destruct H as (q & H0 & Hq). assert (ctz32 (u32 x) < 32) as Hlt.
    { apply Z.nle_gt. intros Hge. unfold is_u32 in W0. pose proof (Z.pow_le_mono_r 2 32 (ctz32 (u32 x)) ltac:(lia) Hge).
      assert (0 < 2 * q + 1) by nia. nia. }
    exists (q + 2 ^ (31 - ctz32 (u32 x)) * u32 (Z.shiftr x 32)). split; [done|].
    rewrite <- E at 1. rewrite Hq at 1. replace 32 with (1 + (31 - ctz32 (u32 x)) + ctz32 (u32 x)) at 1 by lia. rewrite !Z.pow_add_r by lia. lia.
Qed.

(** The counts of host-utils.h for a 64-bit argument: leading zeros give the position of
    the highest bit, trailing zeros the power of two that divides it, and the parallel
    sums of fields the number of its bits; on zero the first two give the width. *)
Theorem bit_counts_exact x :
  is_u64 x →
  clz64 x = (if x =? 0 then 64 else 63 - Z.log2 x) ∧
  (if x =? 0 then ctz64 x = 64 else ∃ q, 0 <= ctz64 x ∧ x = (2 * q + 1) * 2 ^ ctz64 x) ∧
  ctpop64 x = total (bits 64 x).
Proof. intros Hx. split; [by apply clz64_ok|]. split; [by apply ctz64_ok|by apply ctpop64_ok]. Qed.
(** ** Products *)

Lemma add128_ok a b low high :
  is_u64 a → is_u64 low → let p := add128 a b (low, high) in
  is_u64 p.1 ∧ is_u64 p.2 ∧ (p.1 + 2 ^ 64 * p.2) mod 2 ^ 128 = (low + a + 2 ^ 64 * (high + b)) mod 2 ^ 128.
Proof.
  intros Ha Hl. cbn [add128 fst snd]. split; [apply u64_range|]. split; [apply u64_range|].
  assert (∀ y c, y = c + 2 ^ 64 * ((low + a - c) / 2 ^ 64) → (c + 2 ^ 64 * u64 (high + (low + a - c) / 2 ^ 64 + b)) mod 2 ^ 128 =
    (y + 2 ^ 64 * (high + b)) mod 2 ^ 128) as H.
  { intros y c ->. unfold u64. change (2 ^ 128) with (2 ^ 64 * 2 ^ 64).
    set (z := high + (low + a - c) / 2 ^ 64 + b). replace (c + 2 ^ 64 * ((low + a - c) / 2 ^ 64) + 2 ^ 64 * (high + b)) with (c + 2 ^ 64 * z) by (unfold z; lia).
    rewrite (Z.div_mod z (2 ^ 64)) at 2 by lia. replace (c + 2 ^ 64 * (2 ^ 64 * (z / 2 ^ 64) + z mod 2 ^ 64)) with (c + 2 ^ 64 * (z mod 2 ^ 64) + (z / 2 ^ 64) * (2 ^ 64 * 2 ^ 64)) by lia.
    by rewrite Z.mod_add by lia. }
  unfold is_u64 in *. destruct (Z.lt_ge_cases (low + a) (2 ^ 64)) as [Hlt|Hge].
  - rewrite (u64_small (low + a)), (proj2 (Z.ltb_ge _ _)) by lia. specialize (H (low + a) (low + a)).
    rewrite Z.sub_diag, Z.div_0_l, (Z.add_0_r high) in H by lia. apply H. lia.
  - assert (u64 (low + a) = low + a - 2 ^ 64) as E. { unfold u64. rewrite <- (Z.mod_small (low + a - 2 ^ 64) (2 ^ 64)) by lia. rewrite <- (Z.mod_add (low + a - 2 ^ 64) 1) by lia. f_equal. lia. }
    rewrite E, (proj2 (Z.ltb_lt _ _)) by lia. specialize (H (low + a) (low + a - 2 ^ 64)).
    replace (low + a - (low + a - 2 ^ 64)) with (1 * 2 ^ 64) in H by lia. rewrite Z.div_mul in H by lia.
    rewrite u64_add_l. apply H. lia.
Qed.

Definition word128 (p : Z * Z) : Prop := is_u64 p.1 ∧ is_u64 p.2.
Definition value128 (p : Z * Z) : Z := p.1 + 2 ^ 64 * p.2.

Lemma value128_small p : word128 p → value128 p mod 2 ^ 128 = value128 p.
Proof.
  unfold word128, value128, is_u64. change (2 ^ 128) with (2 ^ 64 * 2 ^ 64). intros [? ?]. apply Z.mod_small. nia.
Qed.

(** The product of two halves, added at bit 32. *)
Lemma add_product v p :
  is_u64 v → word128 p →
  let p' := add128 (u64 (Z.shiftl v 32)) (Z.shiftr v 32) p in word128 p' ∧ value128 p' mod 2 ^ 128 = (value128 p + v * 2 ^ 32) mod 2 ^ 128.
Proof.
  intros Hv [H1 H2]. destruct p as [low high]. cbn [fst snd] in *.
  destruct (add128_ok (u64 (Z.shiftl v 32)) (Z.shiftr v 32) low high) as (W1 & W2 & E); [apply u64_range|done|].
  split; [by split|]. unfold value128 at 1. rewrite E. f_equal. unfold value128. cbn [fst snd].
  rewrite Z.shiftl_mul_pow2, Z.shiftr_div_pow2 by lia. unfold u64. change (2 ^ 64) with (2 ^ 32 * 2 ^ 32).
  rewrite Z.mul_mod_distr_r by lia. rewrite (Z.div_mod v (2 ^ 32)) at 3 by lia. lia.
Qed.

Lemma mul64_ok a b : is_u64 a → is_u64 b → word128 (mul64 a b) ∧ value128 (mul64 a b) = a * b.
Proof.
  intros Ha Hb. destruct (half_words a Ha) as (A0 & A1 & Ea). destruct (half_words b Hb) as (B0 & B1 & Eb). unfold mul64.
  set (a0 := u32 a) in *. set (a1 := u32 (Z.shiftr a 32)) in *. set (b0 := u32 b) in *. set (b1 := u32 (Z.shiftr b 32)) in *.
  assert (∀ x y, is_u32 x → is_u32 y → is_u64 (x * y)) as Hm. { unfold is_u32, is_u64. change (2 ^ 64) with (2 ^ 32 * 2 ^ 32). intros. nia. }
  assert (word128 (a0 * b0, 0)) as W0 by (split; [by apply Hm|unfold is_u64; cbn; lia]). cbv zeta.
  destruct (add_product (a0 * b1) _ (Hm _ _ A0 B1) W0) as [W1 E1]. set (p1 := add128 _ _ (a0 * b0, 0)) in *.
  destruct (add_product (a1 * b0) p1 (Hm _ _ A1 B0) W1) as [W2 E2]. set (p2 := add128 _ _ p1) in *.
  split; [split; [apply W2|apply u64_range]|].
  rewrite <- value128_small by (split; [apply W2|apply u64_range]).
  assert (value128 (p2.1, u64 (p2.2 + a1 * b1)) mod 2 ^ 128 = (value128 p2 + 2 ^ 64 * (a1 * b1)) mod 2 ^ 128) as ->.
  { unfold value128. cbn [fst snd]. unfold u64. change (2 ^ 128) with (2 ^ 64 * 2 ^ 64).
    rewrite (Z.add_mod p2.1), Z.mul_mod_distr_l, Z.mod_mod, <- Z.mul_mod_distr_l, <- Z.add_mod by lia. f_equal. lia. }
  rewrite Z.add_mod, E2, <- Z.add_mod by lia. rewrite <- Z.add_assoc, Z.add_mod, E1, <- Z.add_mod by lia.
  unfold value128. cbn [fst snd]. rewrite Z.mod_small; [rewrite <- Ea, <- Eb; lia|].
  replace (_ + _ + _) with (a * b) by (rewrite <- Ea, <- Eb; lia). unfold is_u64 in *. change (2 ^ 128) with (2 ^ 64 * 2 ^ 64). nia.
Qed.

Lemma neg128_ok p : word128 p → word128 (neg128 p) ∧ value128 (neg128 p) mod 2 ^ 128 = (- value128 p) mod 2 ^ 128.
Proof.
  intros [W1 W2]. destruct p as [low high]. cbn [fst snd] in *. unfold neg128, is_u64 in *.
  assert (∀ x, 0 <= x < 2 ^ 64 → u64 (Z.lnot x) = 2 ^ 64 - 1 - x) as Hn.
  { intros x Hx. unfold u64. rewrite <- (Z.mod_small (2 ^ 64 - 1 - x) (2 ^ 64)) by lia. rewrite <- (Z.mod_add (Z.lnot x) 1) by lia. f_equal. unfold Z.lnot. lia. }
  rewrite !Hn by lia. destruct (add128_ok 1 0 (2 ^ 64 - 1 - low) (2 ^ 64 - 1 - high)) as (V1 & V2 & E); [unfold is_u64; lia..|].
  split; [by split|]. unfold value128 at 1. rewrite E. unfold value128. cbn [fst snd].
  replace (2 ^ 64 - 1 - low + 1 + 2 ^ 64 * (2 ^ 64 - 1 - high + 0)) with (- (low + 2 ^ 64 * high) + 1 * 2 ^ 128) by (change (2 ^ 128) with (2 ^ 64 * 2 ^ 64); lia).
  by rewrite Z.mod_add by lia.
Qed.

(** The two words that [mulu64] computes from products of 32-bit halves, with the
    carries of [add128], are the 128-bit product of its arguments, and [muls64] computes
    the product of signed ones, in two's complement, also for the smallest number, whose
    negation overflows. *)
Theorem mul64_exact a b :
  (is_u64 a → is_u64 b → word128 (mulu64 a b) ∧ value128 (mulu64 a b) = a * b) ∧
  (is_s64 a → is_s64 b → word128 (muls64 a b) ∧ value128 (muls64 a b) = (a * b) mod 2 ^ 128).
Proof.
  split; [apply mul64_ok|]. intros Ha Hb. unfold muls64, is_s64 in *.
  assert (∀ x, - 2 ^ 63 <= x < 2 ^ 63 → u64 (if x <? 0 then s64 (- x) else x) = Z.abs x ∧ is_u64 (Z.abs x)) as Habs.
  { intros x Hx. split; [|unfold is_u64; lia]. destruct (Z.ltb_spec x 0).
    - destruct (Z.eq_dec x (- 2 ^ 63)) as [->|]; [done|]. rewrite s64_small by (unfold is_s64; lia). rewrite u64_small; lia.
    - rewrite u64_small; lia. }
  destruct (Habs a Ha) as [-> Ua]. destruct (Habs b Hb) as [-> Ub]. destruct (mul64_ok _ _ Ua Ub) as [W E].
  destruct (neg128_ok _ W) as [WN EN]. rewrite E in EN. rewrite (value128_small _ WN) in EN.
  destruct (Z.ltb_spec a 0), (Z.ltb_spec b 0); cbn [xorb].
  - split; [done|]. rewrite <- (value128_small _ W), E. f_equal. lia.
  - split; [done|]. rewrite EN. f_equal. lia.
  - split; [done|]. rewrite EN. f_equal. lia.
  - split; [done|]. rewrite <- (value128_small _ W), E. f_equal. lia.
Qed.

Lemma mul64_exact_witness :
  value128 (mulu64 (2 ^ 64 - 1) (2 ^ 64 - 1)) = (2 ^ 64 - 1) * (2 ^ 64 - 1) ∧ value128 (muls64 (- 2 ^ 63) 3) = (- 3 * 2 ^ 63) mod 2 ^ 128.
Proof.
  split.
  - refine (proj2 (proj1 (mul64_exact (2 ^ 64 - 1) (2 ^ 64 - 1)) _ _)); unfold is_u64; lia.
  - refine (proj2 (proj2 (mul64_exact (- 2 ^ 63) 3) _ _)); unfold is_s64; lia.
Defined.
