(* ===== verification/ArmHelper.v ===== *)
(** * ArmHelper: the arithmetic of the ARM instructions (target-arm/op_helper.c, target-arm/helper.c, op_addsub.h)

    The helpers that translated code calls for what the code generator cannot express:
    arithmetic that sets the flags, shifts by a register, saturation, division, and the
    parallel operations on bytes and halfwords.  A word is an integer below [2^32]; the
    flags are the fields of the processor ([V7m.arm_env]). *)

From S2P Require Import Prelude Gic Nvic V7m HostUtils.
Local Open Scope Z_scope.

Definition SIGNBIT : Z := 0x80000000.
Definition s16 (z : Z) : Z := (z + 2 ^ 15) mod 2 ^ 16 - 2 ^ 15.

(** ** Arithmetic that sets the flags *)

Definition add_cc (a b : Z) (e : arm_env) : Z * arm_env :=
  let result := u32 (a + b) in
  (result, set_flags e result result (flag (result <? a)) (Z.land (u32 (Z.lxor (Z.lxor a b) (-1))) (Z.lxor a result))).
Definition adc_cc (a b : Z) (e : arm_env) : Z * arm_env :=
  let '(result, c) :=
    if CF e =? 0 then let result := u32 (a + b) in (result, flag (result <? a))
    else let result := u32 (a + b + 1) in (result, flag (result <=? a)) in
  (result, set_flags e result result c (Z.land (u32 (Z.lxor (Z.lxor a b) (-1))) (Z.lxor a result))).
Definition sub_cc (a b : Z) (e : arm_env) : Z * arm_env :=
  let result := u32 (a - b) in
  (result, set_flags e result result (flag (b <=? a)) (Z.land (Z.lxor a b) (Z.lxor a result))).
Definition sbc_cc (a b : Z) (e : arm_env) : Z * arm_env :=
  let '(result, c) :=
    if CF e =? 0 then (u32 (a - b - 1), flag (b <? a)) else (u32 (a - b), flag (b <=? a)) in
  (result, set_flags e result result c (Z.land (Z.lxor a b) (Z.lxor a result))).

(** ** Shifts by a register: the low byte of it counts *)

Definition shl (x i : Z) : Z := let shift := Z.land i 0xff in if 32 <=? shift then 0 else u32 (Z.shiftl x shift).
Definition shr (x i : Z) : Z := let shift := Z.land i 0xff in if 32 <=? shift then 0 else Z.shiftr x shift.
Definition sar (x i : Z) : Z :=
  let shift := Z.land i 0xff in
  let shift := if 32 <=? shift then 31 else shift in u32 (Z.shiftr (s32 x) shift).

Definition set_CF (e : arm_env) (c : Z) : arm_env := set_flags e (ZF e) (NF e) c (VF e).

Definition shl_cc (x i : Z) (e : arm_env) : Z * arm_env :=
  let shift := Z.land i 0xff in
  if 32 <=? shift then (0, set_CF e (if shift =? 32 then Z.land x 1 else 0))
  else if negb (shift =? 0) then (u32 (Z.shiftl x shift), set_CF e (Z.land (Z.shiftr x (32 - shift)) 1))
  else (x, e).
Definition shr_cc (x i : Z) (e : arm_env) : Z * arm_env :=
  let shift := Z.land i 0xff in
  if 32 <=? shift then (0, set_CF e (if shift =? 32 then Z.land (Z.shiftr x 31) 1 else 0))
  else if negb (shift =? 0) then (Z.shiftr x shift, set_CF e (Z.land (Z.shiftr x (shift - 1)) 1))
  else (x, e).
Definition sar_cc (x i : Z) (e : arm_env) : Z * arm_env :=
  let shift := Z.land i 0xff in
  if 32 <=? shift then (u32 (Z.shiftr (s32 x) 31), set_CF e (Z.land (Z.shiftr x 31) 1))
  else if negb (shift =? 0) then (u32 (Z.shiftr (s32 x) shift), set_CF e (Z.land (Z.shiftr x (shift - 1)) 1))
  else (x, e).
Definition ror_cc (x i : Z) (e : arm_env) : Z * arm_env :=
  let shift1 := Z.land i 0xff in
  let shift := Z.land shift1 0x1f in
  if shift =? 0 then (x, if negb (shift1 =? 0) then set_CF e (Z.land (Z.shiftr x 31) 1) else e)
  else (Z.lor (Z.shiftr x shift) (u32 (Z.shiftl x (32 - shift))), set_CF e (Z.land (Z.shiftr x (shift - 1)) 1)).

(** ** Saturation *)

Definition add_setq (a b : Z) (e : arm_env) : Z * arm_env :=
  let res := u32 (a + b) in
  (res, if truth (Z.land (Z.lxor res a) SIGNBIT) && negb (truth (Z.land (Z.lxor a b) SIGNBIT)) then set_QF e 1 else e).
Definition add_saturate (a b : Z) (e : arm_env) : Z * arm_env :=
  let res := u32 (a + b) in
  if truth (Z.land (Z.lxor res a) SIGNBIT) && negb (truth (Z.land (Z.lxor a b) SIGNBIT))
  then (u32 (Z.lnot (Z.lxor (u32 (Z.shiftr (s32 a) 31)) SIGNBIT)), set_QF e 1) else (res, e).
Definition sub_saturate (a b : Z) (e : arm_env) : Z * arm_env :=
  let res := u32 (a - b) in
  if truth (Z.land (Z.lxor res a) SIGNBIT) && truth (Z.land (Z.lxor a b) SIGNBIT)
  then (u32 (Z.lnot (Z.lxor (u32 (Z.shiftr (s32 a) 31)) SIGNBIT)), set_QF e 1) else (res, e).

(** [val] is a signed number. *)
Definition double_saturate (val : Z) (e : arm_env) : Z * arm_env :=
  if 0x40000000 <=? val then (u32 (Z.lnot SIGNBIT), set_QF e 1)
  else if val <=? s32 0xc0000000 then (SIGNBIT, set_QF e 1)
  else (u32 (Z.shiftl val 1), e).
Definition add_usaturate (a b : Z) (e : arm_env) : Z * arm_env :=
  let res := u32 (a + b) in if res <? a then (2 ^ 32 - 1, set_QF e 1) else (res, e).
Definition sub_usaturate (a b : Z) (e : arm_env) : Z * arm_env :=
  let res := u32 (a - b) in if a <? res then (0, set_QF e 1) else (res, e).

Definition do_ssat (val shift : Z) (e : arm_env) : Z * arm_env :=
  let top := Z.shiftr val shift in
  let mask := u32 (Z.shiftl 1 shift) - 1 in
  if 0 <? top then (mask, set_QF e 1)
  else if top <? -1 then (u32 (Z.lnot mask), set_QF e 1)
  else (u32 val, e).
Definition do_usat (val shift : Z) (e : arm_env) : Z * arm_env :=
  let max := u32 (Z.shiftl 1 shift) - 1 in
  if val <? 0 then (0, set_QF e 1)
  else if max <? u32 val then (max, set_QF e 1)
  else (u32 val, e).
Definition ssat (x shift : Z) (e : arm_env) : Z * arm_env := do_ssat (s32 x) shift e.
Definition usat (x shift : Z) (e : arm_env) : Z * arm_env := do_usat (s32 x) shift e.
Definition ssat16 (x shift : Z) (e : arm_env) : Z * arm_env :=
  let '(lo, e) := do_ssat (s16 x) shift e in
  let '(hi, e) := do_ssat (Z.shiftr (s32 x) 16) shift e in
  (Z.lor (u16 lo) (u32 (Z.shiftl hi 16)), e).
Definition usat16 (x shift : Z) (e : arm_env) : Z * arm_env :=
  let '(lo, e) := do_usat (s16 x) shift e in
  let '(hi, e) := do_usat (Z.shiftr (s32 x) 16) shift e in
  (Z.lor (u16 lo) (u32 (Z.shiftl hi 16)), e).

(** ** Extension, division, bits *)

Definition sxtb16 (x : Z) : Z := Z.lor (u16 (s8 x)) (u32 (Z.shiftl (u32 (s8 (Z.shiftr x 16))) 16)).
Definition uxtb16 (x : Z) : Z := Z.lor (u16 (u8 x)) (u32 (Z.shiftl (u8 (Z.shiftr x 16)) 16)).
Definition clz (x : Z) : Z := clz32 x.
Definition INT_MIN : Z := - 2 ^ 31.
Definition sdiv (num den : Z) : Z :=
  if den =? 0 then 0 else if (num =? INT_MIN) && (den =? -1) then INT_MIN else Z.quot num den.
Definition udiv (num den : Z) : Z := if den =? 0 then 0 else Z.quot num den.
Definition rbit (x : Z) : Z :=
  let x := Z.lor (Z.lor (Z.lor (Z.shiftr (Z.land x 0xff000000) 24) (Z.shiftr (Z.land x 0x00ff0000) 8))
                        (u32 (Z.shiftl (Z.land x 0x0000ff00) 8))) (u32 (Z.shiftl (Z.land x 0x000000ff) 24)) in
  let x := Z.lor (Z.shiftr (Z.land x 0xf0f0f0f0) 4) (u32 (Z.shiftl (Z.land x 0x0f0f0f0f) 4)) in
  Z.lor (Z.lor (Z.lor (Z.shiftr (Z.land x 0x88888888) 3) (Z.shiftr (Z.land x 0x44444444) 1))
               (u32 (Z.shiftl (Z.land x 0x22222222) 1))) (u32 (Z.shiftl (Z.land x 0x11111111) 3)).
Definition abs (x : Z) : Z := if s32 x <? 0 then u32 (- x) else x.
Definition do_usad (a b : Z) : Z := let a := u8 a in let b := u8 b in if b <? a then a - b else b - a.
Definition usad8 (a b : Z) : Z :=
  u32 (do_usad a b + do_usad (Z.shiftr a 8) (Z.shiftr b 8) + do_usad (Z.shiftr a 16) (Z.shiftr b 16) + do_usad (Z.shiftr a 24) (Z.shiftr b 24)).
Definition sel_flags (flags a b : Z) : Z :=
  let mask := fold_left Z.lor
    [if truth (Z.land flags 1) then 0xff else 0; if truth (Z.land flags 2) then 0xff00 else 0;
     if truth (Z.land flags 4) then 0xff0000 else 0; if truth (Z.land flags 8) then 0xff000000 else 0] 0 in
  Z.lor (Z.land a mask) (Z.land b (u32 (Z.lnot mask))).
Definition logicq_cc (val : Z) : Z := u32 (Z.lor (Z.shiftr val 32) (flag (negb (val =? 0)))).

(** ** Sign bits *)

Lemma sign_bit x : is_u32 x → Z.testbit x 31 = (2 ^ 31 <=? x).
Proof.
  unfold is_u32. intros Hx. rewrite Z.testbit_eqb by lia. destruct (Z.leb_spec (2 ^ 31) x).
  - apply Z.eqb_eq. replace (x / 2 ^ 31) with 1; [done|]. apply (Z.div_unique x (2 ^ 31) 1 (x - 2 ^ 31)); lia.
  - rewrite Z.div_small by lia. done.
Qed.
Lemma truth_sign x : truth (Z.land x SIGNBIT) = Z.testbit x 31.
Proof. exact (truth_land_bit x 31 ltac:(lia)). Qed.
Lemma s32_cases x : is_u32 x → s32 x = if 2 ^ 31 <=? x then x - 2 ^ 32 else x.
Proof.
  unfold is_u32, s32. intros Hx. destruct (Z.leb_spec (2 ^ 31) x).
  - rewrite <- (Z.mod_add _ (-1)) by lia. rewrite Z.mod_small by lia. lia.
  - rewrite Z.mod_small by lia. lia.
Qed.
Lemma u32_cases z : - 2 ^ 32 <= z < 2 ^ 33 → u32 z = if z <? 0 then z + 2 ^ 32 else if z <? 2 ^ 32 then z else z - 2 ^ 32.
Proof.
  intros Hz. unfold u32. destruct (Z.ltb_spec z 0); [|destruct (Z.ltb_spec z (2 ^ 32))].
  - rewrite <- (Z.mod_add z 1) by lia. rewrite Z.mod_small; lia.
  - rewrite Z.mod_small; lia.
  - rewrite <- (Z.mod_add z (-1)) by lia. rewrite Z.mod_small; lia.
Qed.
Lemma u32_lnot x : is_u32 x → u32 (Z.lnot x) = 2 ^ 32 - 1 - x.
Proof. unfold is_u32. intros Hx. rewrite u32_cases by (unfold Z.lnot; lia). unfold Z.lnot. destruct (Z.ltb_spec (Z.pred (- x)) 0); lia. Qed.

(** Comparisons decided one after another. *)
Ltac compare_all :=
  repeat match goal with
  | |- context [if ?a <? ?b then _ else _] => destruct (Z.ltb_spec a b)
  | |- context [if ?a <=? ?b then _ else _] => destruct (Z.leb_spec a b)
  | |- context [?a <=? ?b] => destruct (Z.leb_spec a b)
  | |- context [?a <? ?b] => destruct (Z.ltb_spec a b)
  | |- context [?a =? ?b] => destruct (Z.eqb_spec a b)
  end; try (exfalso; lia); try reflexivity; try lia.

(** ** The reference: addition with a carry, as the architecture defines it *)

Definition AddWithCarry (x y c : Z) : Z * (bool * bool * bool * bool) :=
  let unsigned_sum := x + y + c in
  let signed_sum := s32 x + s32 y + c in
  let result := u32 unsigned_sum in
  (result, (2 ^ 31 <=? result, result =? 0, negb (unsigned_sum =? result), negb (signed_sum =? s32 result))).

Inductive arith_op := ADD | ADC | SUB | SBC.
Definition arith_cc (op : arith_op) : Z → Z → arm_env → Z * arm_env :=
  match op with ADD => add_cc | ADC => adc_cc | SUB => sub_cc | SBC => sbc_cc end.
Definition arith_ref (op : arith_op) (a b c : Z) : Z * (bool * bool * bool * bool) :=
  match op with
  | ADD => AddWithCarry a b 0
  | ADC => AddWithCarry a b c
  | SUB => AddWithCarry a (2 ^ 32 - 1 - b) 1
  | SBC => AddWithCarry a (2 ^ 32 - 1 - b) c
  end.
(** The flags as MRS shows them. *)
Definition nzcv (e : arm_env) : bool * bool * bool * bool :=
  (Z.testbit (xpsr_read e) 31, Z.testbit (xpsr_read e) 30, Z.testbit (xpsr_read e) 29, Z.testbit (xpsr_read e) 28).

Lemma overflow_bit_add a b r : is_u32 a → is_u32 b → is_u32 r →
  Z.testbit (Z.land (u32 (Z.lxor (Z.lxor a b) (-1))) (Z.lxor a r)) 31 = negb (xorb (2 ^ 31 <=? a) (2 ^ 31 <=? b)) && xorb (2 ^ 31 <=? a) (2 ^ 31 <=? r).
Proof.
  intros Ha Hb Hr. unfold u32. rewrite Z.land_spec, Z.mod_pow2_bits_low, !Z.lxor_spec, Z.bits_m1, !sign_bit by (done || lia). by destruct (_ <=? a), (_ <=? b).
Qed.
Lemma overflow_bit_sub a b r : is_u32 a → is_u32 b → is_u32 r →
  Z.testbit (Z.land (Z.lxor a b) (Z.lxor a r)) 31 = xorb (2 ^ 31 <=? a) (2 ^ 31 <=? b) && xorb (2 ^ 31 <=? a) (2 ^ 31 <=? r).
Proof. intros Ha Hb Hr. by rewrite Z.land_spec, !Z.lxor_spec, !sign_bit. Qed.

Lemma set_flags_wf e z n c v : env_wf e → c = 0 ∨ c = 1 → env_wf (set_flags e z n c v).
Proof. intros [] Hc. by constructor. Qed.

Lemma nzcv_flags e : env_wf e → nzcv e = (Z.testbit (NF e) 31, ZF e =? 0, CF e =? 1, Z.testbit (VF e) 31).
Proof.
  intros W. unfold nzcv. rewrite !xpsr_bits by (done || lia). cbn [Z.eqb Pos.eqb Z.leb Z.ltb Z.compare Pos.compare Pos.compare_cont andb orb].
  by rewrite !orb_false_r.
Qed.

(** What a flag setting operation leaves alone. *)
Definition flags_only (e e' : arm_env) : Prop :=
  regs e' = regs e ∧ ∀ i, 0 <= i < 28 → Z.testbit (xpsr_read e') i = Z.testbit (xpsr_read e) i.
Lemma set_flags_only e z n c v : env_wf e → c = 0 ∨ c = 1 → flags_only e (set_flags e z n c v).
Proof.
  intros W Hc. split; [done|]. intros i Hi. rewrite !xpsr_bits by (apply set_flags_wf || done || lia; done).
  rewrite (proj2 (Z.eqb_neq i 31)), (proj2 (Z.eqb_neq i 30)), (proj2 (Z.eqb_neq i 29)), (proj2 (Z.eqb_neq i 28)) by lia. done.
Qed.

Lemma flag_01 b : flag b = 0 ∨ flag b = 1.
Proof. destruct b; auto. Qed.
Lemma flag_is_1 b : (flag b =? 1) = b.
Proof. by destruct b. Qed.

(** The flags of the reference, by comparisons of the operands. *)
Lemma add_with_carry_flags x y c :
  is_u32 x → is_u32 y → 0 <= c <= 1 →
  let r := u32 (x + y + c) in
  AddWithCarry x y c = (r, (2 ^ 31 <=? r, r =? 0, 2 ^ 32 <=? x + y + c,
    negb (xorb (2 ^ 31 <=? x) (2 ^ 31 <=? y)) && xorb (2 ^ 31 <=? x) (2 ^ 31 <=? r))).
Proof.
  intros Hx Hy Hc r. unfold is_u32 in *. unfold AddWithCarry. fold r. pose proof (u32_range (x + y + c)) as Hr. fold r in Hr.
  assert (r = if x + y + c <? 2 ^ 32 then x + y + c else x + y + c - 2 ^ 32) as Er by (unfold r; rewrite u32_cases by lia; compare_all).
  repeat f_equal.
  - destruct (Z.ltb_spec (x + y + c) (2 ^ 32)); compare_all.
  - rewrite !s32_cases by (unfold is_u32; lia). destruct (Z.ltb_spec (x + y + c) (2 ^ 32)); compare_all.
Qed.

(** [C10]: flag setting arithmetic is the architecture's: for all words and any carry, the
    four helpers return the result of [AddWithCarry] (of the second operand or its
    complement), the N, Z, C and V bits of the program status register are those of the
    reference, and the rest of it and the registers are as before. *)
Theorem arith_cc_exact op a b e :
  is_u32 a → is_u32 b → env_wf e →
  let '(r, e') := arith_cc op a b e in
  (r, nzcv e') = arith_ref op a b (CF e) ∧ env_wf e' ∧ flags_only e e'.
Proof.
  intros Ha Hb W.
  assert (∀ r c v ref, is_u32 r → ref = (r, (2 ^ 31 <=? r, r =? 0, c, Z.testbit v 31)) →
    let e' := set_flags e r r (flag c) v in (r, nzcv e') = ref ∧ env_wf e' ∧ flags_only e e') as Hfin.
  { intros r c v ref Hr ->. cbn zeta. pose proof (set_flags_wf e r r (flag c) v W (flag_01 c)) as W'.
    split_and!; [|done|by apply set_flags_only, flag_01]. rewrite nzcv_flags by done. cbn [NF ZF CF VF set_flags]. by rewrite sign_bit, flag_is_1. }
  assert (is_u32 (2 ^ 32 - 1 - b)) as Hnb by (unfold is_u32 in *; lia).
  assert ((2 ^ 31 <=? 2 ^ 32 - 1 - b) = negb (2 ^ 31 <=? b)) as Hmsb by (unfold is_u32 in *; compare_all).
  assert (u32 (a + (2 ^ 32 - 1 - b) + 1) = u32 (a - b) ∧ u32 (a + (2 ^ 32 - 1 - b) + 0) = u32 (a - b - 1)) as [Es1 Es0].
  { unfold u32. split; [rewrite <- (Z.mod_add (a - b) 1)|rewrite <- (Z.mod_add (a - b - 1) 1)]; try lia; f_equal; lia. }
  assert (∀ x y : bool, negb (xorb x (negb y)) = xorb x y) as Hx by by intros [] [].
  unfold arith_cc, arith_ref, add_cc, adc_cc, sub_cc, sbc_cc.
  destruct op; [|destruct (wf_CF e W) as [-> | ->]|..|destruct (wf_CF e W) as [-> | ->]]; cbn [Z.eqb];
    rewrite add_with_carry_flags by (done || lia); rewrite ?Es1, ?Es0, ?Hmsb, ?Hx, ?Z.add_0_r; apply Hfin; try apply u32_range;
    rewrite ?overflow_bit_add, ?overflow_bit_sub by (done || apply u32_range); do 3 f_equal; unfold is_u32 in *; rewrite ?u32_cases by lia; compare_all.
Qed.

Lemma arith_cc_exact_witness :
  let '(r, e') := sub_cc 0x7fffffff 0xffffffff example_env in
  r = 0x80000000 ∧ nzcv e' = (true, false, false, true).
Proof.
  pose proof (arith_cc_exact SUB 0x7fffffff 0xffffffff example_env ltac:(unfold is_u32; lia) ltac:(unfold is_u32; lia) example_env_wf) as H.
  cbn [arith_cc] in H. destruct (sub_cc 0x7fffffff 0xffffffff example_env) as [r e']. destruct H as [H _].
  change (arith_ref SUB 0x7fffffff 0xffffffff (CF example_env)) with (0x80000000, (true, false, false, true)) in H.
  split; [exact (f_equal fst H)|exact (f_equal snd H)].
Defined.

(** ** The reference for shifts: where each bit comes from *)

Inductive shift_op := LSL | LSR | ASR | ROR.
Definition shift_cc (op : shift_op) : Z → Z → arm_env → Z * arm_env :=
  match op with LSL => shl_cc | LSR => shr_cc | ASR => sar_cc | ROR => ror_cc end.
Definition source_bit (op : shift_op) (n j : Z) : Z :=
  match op with
  | LSL => j - n
  | LSR => j + n
  | ASR => Z.min 31 (j + n)
  | ROR => (j + n) mod 32
  end.
(** The last bit that was shifted out. *)
Definition carry_bit (op : shift_op) (n : Z) : Z :=
  match op with
  | LSL => 32 - n
  | LSR => n - 1
  | ASR => Z.min 31 (n - 1)
  | ROR => (n - 1) mod 32
  end.

Lemma s32_bits x m : is_u32 x → 0 <= m → Z.testbit (s32 x) m = Z.testbit x (Z.min 31 m).
Proof.
  intros Hx Hm. destruct (Z.lt_ge_cases m 32) as [Hlt|Hge].
  - rewrite <- (Z.mod_pow2_bits_low (s32 x) 32 m) by lia. assert (s32 x mod 2 ^ 32 = x) as ->.
    { rewrite s32_cases by done. unfold is_u32 in Hx. destruct (_ <=? _); [rewrite <- (Z.mod_add _ 1) by lia|]; rewrite Z.mod_small; lia. }
    destruct (decide (m = 31)) as [->|]; [done|]. by rewrite Z.min_r by lia.
  - rewrite Z.min_l, sign_bit by (done || lia). rewrite s32_cases by done. unfold is_u32 in Hx. destruct (Z.leb_spec (2 ^ 31) x).
    + apply Z.bits_above_log2_neg; [lia|].
      destruct (Z.eq_dec (Z.pred (- (x - 2 ^ 32))) 0) as [->|]; [cbn; lia|].
      assert (Z.log2 (Z.pred (- (x - 2 ^ 32))) < 32) by (apply Z.log2_lt_pow2; lia). lia.
    + apply (small_bit _ 32); lia.
Qed.

Lemma u32_bit z j : 0 <= j < 32 → Z.testbit (u32 z) j = Z.testbit z j.
Proof. intros Hj. unfold u32. apply Z.mod_pow2_bits_low. lia. Qed.

Lemma is_u32_shiftr x n : is_u32 x → 0 <= n → is_u32 (Z.shiftr x n).
Proof.
  unfold is_u32. intros Hx Hn. rewrite Z.shiftr_div_pow2 by done. pose proof (Z.pow_pos_nonneg 2 n ltac:(lia) Hn).
  split; [apply Z.div_pos; lia|]. apply Z.div_lt_upper_bound; nia.
Qed.

(** A result and a carry that are the ones of the reference. *)
Definition shifted (op : shift_op) (x n : Z) (e : arm_env) '((r, e') : Z * arm_env) : Prop :=
  is_u32 r ∧ (∀ j, 0 <= j < 32 → Z.testbit r j = Z.testbit x (source_bit op n j)) ∧
  (if n =? 0 then e' = e else e' = set_CF e (flag (Z.testbit x (carry_bit op n)))).

Lemma not_shifted op x e : is_u32 x → shifted op x 0 e (x, e).
Proof.
  intros Hx. split; [done|]. split; [|done]. intros j Hj. f_equal. destruct op; cbn [source_bit]; rewrite ?Z.sub_0_r, ?Z.add_0_r; [done|done|by rewrite Z.min_r by lia|].
  by rewrite Z.mod_small.
Qed.

Lemma land_1 x : Z.land x 1 = flag (Z.testbit x 0).
Proof. exact (land1_bit x 0 ltac:(lia)). Qed.

Lemma shl_cc_ok x n e : is_u32 x → 0 <= n < 256 → shifted LSL x n e (shl_cc x n e).
Proof.
  intros Hx Hn. unfold shl_cc. change 0xff with (2 ^ 8 - 1). rewrite land_mod, Z.mod_small by lia.
  destruct (Z.leb_spec 32 n).
  - split; [unfold is_u32; lia|]. split; [intros j Hj; cbn [source_bit]; by rewrite Z.bits_0, Z.testbit_neg_r by lia|].
    rewrite (proj2 (Z.eqb_neq n 0)) by lia. cbn [carry_bit]. destruct (Z.eqb_spec n 32) as [->|]; [by rewrite land_1|].
    by rewrite Z.testbit_neg_r by lia.
  - destruct (Z.eqb_spec n 0) as [->|]; [by apply not_shifted|]. cbn [negb]. split; [apply u32_range|]. split.
    + intros j Hj. by rewrite u32_bit, Z.shiftl_spec by lia.
    + rewrite (proj2 (Z.eqb_neq n 0)) by lia. by rewrite land1_bit by lia.
Qed.
Lemma shr_cc_ok x n e : is_u32 x → 0 <= n < 256 → shifted LSR x n e (shr_cc x n e).
Proof.
  intros Hx Hn. unfold shr_cc. change 0xff with (2 ^ 8 - 1). rewrite land_mod, Z.mod_small by lia.
  destruct (Z.leb_spec 32 n).
  - split; [unfold is_u32; lia|]. split; [intros j Hj; cbn [source_bit]; by rewrite Z.bits_0, is_u32_high by (done || lia)|].
    rewrite (proj2 (Z.eqb_neq n 0)) by lia. cbn [carry_bit]. destruct (Z.eqb_spec n 32) as [->|]; [by rewrite land1_bit|].
    by rewrite is_u32_high by (done || lia).
  - destruct (Z.eqb_spec n 0) as [->|]; [by apply not_shifted|]. cbn [negb]. split; [apply is_u32_shiftr; [done|lia]|]. split.
    + intros j Hj. by rewrite Z.shiftr_spec by lia.
    + rewrite (proj2 (Z.eqb_neq n 0)) by lia. by rewrite land1_bit by lia.
Qed.
Lemma sar_cc_ok x n e : is_u32 x → 0 <= n < 256 → shifted ASR x n e (sar_cc x n e).
Proof.
  intros Hx Hn. unfold sar_cc. change 0xff with (2 ^ 8 - 1). rewrite land_mod, Z.mod_small by lia.
  assert (∀ k, 0 <= k → (∀ j, 0 <= j < 32 → Z.testbit (u32 (Z.shiftr (s32 x) k)) j = Z.testbit x (Z.min 31 (j + k)))) as Hs.
  { intros k Hk j Hj. by rewrite u32_bit, Z.shiftr_spec, s32_bits by (done || lia). }
  destruct (Z.leb_spec 32 n).
  - split; [apply u32_range|]. split; [intros j Hj; rewrite Hs by lia; cbn [source_bit]; f_equal; lia|].
    rewrite (proj2 (Z.eqb_neq n 0)) by lia. cbn [carry_bit]. by rewrite land1_bit, Z.min_l by lia.
  - destruct (Z.eqb_spec n 0) as [->|]; [by apply not_shifted|]. cbn [negb]. split; [apply u32_range|]. split; [apply Hs; lia|].
    rewrite (proj2 (Z.eqb_neq n 0)) by lia. cbn [carry_bit]. by rewrite land1_bit, Z.min_r by lia.
Qed.
Lemma ror_cc_ok x n e : is_u32 x → 0 <= n < 256 → shifted ROR x n e (ror_cc x n e).
Proof.
  intros Hx Hn. unfold ror_cc. change 0xff with (2 ^ 8 - 1). change 0x1f with (2 ^ 5 - 1). rewrite !land_mod, (Z.mod_small n) by lia. change (2 ^ 5) with 32.
  pose proof (Z.mod_pos_bound n 32 ltac:(lia)) as Hm. pose proof (Z.div_mod n 32 ltac:(lia)) as Hd.
  destruct (Z.eqb_spec (n mod 32) 0) as [E|E].
  - destruct (Z.eqb_spec n 0) as [->|Hn0]; [by apply not_shifted|]. cbn [negb]. split; [done|]. split.
    + intros j Hj. cbn [source_bit]. by rewrite <- Z.add_mod_idemp_r, E, Z.add_0_r, Z.mod_small by lia.
    + rewrite (proj2 (Z.eqb_neq n 0)) by lia. cbn [carry_bit]. rewrite land1_bit by lia. do 3 f_equal.
      rewrite <- Zminus_mod_idemp_l, E. done.
  - split; [apply is_u32_lor; [apply is_u32_shiftr; [done|lia]|apply u32_range]|]. split.
    + intros j Hj. rewrite Z.lor_spec, Z.shiftr_spec, u32_bit, Z.shiftl_spec by lia. cbn [source_bit]. rewrite <- Z.add_mod_idemp_r by lia.
      destruct (Z.lt_ge_cases (j + n mod 32) 32).
      * rewrite (Z.testbit_neg_r _ (j - _)), orb_false_r, (Z.mod_small (j + n mod 32)) by lia. done.
      * rewrite (is_u32_high _ (j + _)) by (done || lia). cbn [orb]. rewrite <- (Z.mod_add (j + n mod 32) (-1)), (Z.mod_small (j + n mod 32 + -1 * 32)) by lia. f_equal. lia.
    + rewrite (proj2 (Z.eqb_neq n 0)) by (intros ->; done). cbn [carry_bit]. rewrite land1_bit by lia. do 3 f_equal.
      rewrite <- Zminus_mod_idemp_l. by rewrite (Z.mod_small (n mod 32 - 1)) by lia.
Qed.

(** [C24]: shifts by a register are the architecture's: for every word and every value of
    the shifting register, of which the low byte counts, each bit of the result is the
    bit of the operand that it should come from (a zero or the sign beyond its ends), the
    carry is the last bit shifted out and is kept when the amount is 0, and no other flag
    changes; and the helpers without flags give the same results. *)
Theorem shifts_exact op x i e :
  is_u32 x → 0 <= i →
  shifted op x (i mod 256) e (shift_cc op x i e) ∧
  match op with LSL => shl x i = (shl_cc x i e).1 | LSR => shr x i = (shr_cc x i e).1 | ASR => sar x i = (sar_cc x i e).1 | ROR => True end.
Proof.
  intros Hx Hi. pose proof (Z.mod_pos_bound i 256 ltac:(lia)) as Hm.
  assert (Z.land i 0xff = i mod 256) as Hl by (change 0xff with (2 ^ 8 - 1); by rewrite land_mod).
  assert (Z.land (i mod 256) 0xff = i mod 256) as Hl' by (change 0xff with (2 ^ 8 - 1); rewrite land_mod by lia; apply Z.mod_small; lia).
  assert (u32 (s32 x) = x) as Hux.
  { rewrite s32_cases by done. unfold is_u32 in Hx. rewrite u32_cases by (destruct (_ <=? _); lia). compare_all. }
  split.
  - destruct op; cbn [shift_cc]; [pose proof (shl_cc_ok x _ e Hx Hm) as H|pose proof (shr_cc_ok x _ e Hx Hm) as H|pose proof (sar_cc_ok x _ e Hx Hm) as H|pose proof (ror_cc_ok x _ e Hx Hm) as H];
      revert H; unfold shl_cc, shr_cc, sar_cc, ror_cc; by rewrite Hl, Hl'.
  - destruct op; unfold shl, shl_cc, shr, shr_cc, sar, sar_cc; rewrite ?Hl; try done; destruct (Z.leb_spec 32 (i mod 256)); try done;
      destruct (Z.eqb_spec (i mod 256) 0) as [->|]; cbn [negb fst]; try done; by rewrite ?Z.shiftl_0_r, ?Z.shiftr_0_r, ?u32_small.
Qed.

Lemma shifts_exact_witness :
  let '(r, e') := ror_cc 0x80000001 33 example_env in
  is_u32 r ∧ Z.testbit r 31 = true ∧ e' = set_CF example_env 1.
Proof.
  destruct (shifts_exact ROR 0x80000001 33 example_env ltac:(unfold is_u32; lia) ltac:(lia)) as [H _]. cbn [shift_cc] in H.
  destruct (ror_cc 0x80000001 33 example_env) as [r e']. destruct H as (Hr & Hb & He). split; [exact Hr|]. split; [exact (Hb 31 ltac:(lia))|exact He].
Defined.

(** ** The reference for saturation *)

(** [z] brought between [lo] and [hi], as a word; the sticky flag tells that it was not. *)
Definition saturated (lo hi z : Z) (e : arm_env) : Z * arm_env :=
  if z <? lo then (u32 lo, set_QF e 1) else if hi <? z then (u32 hi, set_QF e 1) else (u32 z, e).
Definition signed_sat (n : Z) : Z → arm_env → Z * arm_env := saturated (- 2 ^ (n - 1)) (2 ^ (n - 1) - 1).
Definition unsigned_sat (n : Z) : Z → arm_env → Z * arm_env := saturated 0 (2 ^ n - 1).

Lemma xor_sign a b : is_u32 a → is_u32 b → truth (Z.land (Z.lxor a b) SIGNBIT) = xorb (2 ^ 31 <=? a) (2 ^ 31 <=? b).
Proof. intros Ha Hb. by rewrite truth_sign, Z.lxor_spec, !sign_bit. Qed.

(** The bound that has the sign of [a]. *)
Lemma bound_of_sign a : is_u32 a → u32 (Z.lnot (Z.lxor (u32 (Z.shiftr (s32 a) 31)) SIGNBIT)) = if 2 ^ 31 <=? a then u32 (- 2 ^ 31) else u32 (2 ^ 31 - 1).
Proof.
  intros Ha. rewrite s32_cases by done. unfold is_u32 in Ha. rewrite Z.shiftr_div_pow2 by lia. destruct (Z.leb_spec (2 ^ 31) a).
  - replace ((a - 2 ^ 32) / 2 ^ 31) with (-1); [done|]. apply (Z.div_unique _ _ _ (a - 2 ^ 31)); lia.
  - by rewrite Z.div_small by lia.
Qed.
Lemma u32_s32 z : u32 (s32 z) = u32 z.
Proof.
  unfold u32, s32. rewrite Zminus_mod_idemp_l. f_equal. lia.
Qed.

Lemma add_saturate_ok a b e : is_u32 a → is_u32 b → add_saturate a b e = signed_sat 32 (s32 a + s32 b) e.
Proof.
  intros Ha Hb. unfold add_saturate, signed_sat, saturated. cbv zeta. pose proof (u32_range (a + b)) as Hr.
  rewrite !xor_sign, bound_of_sign by done. assert (u32 (s32 a + s32 b) = u32 (a + b)) as ->.
  { unfold u32. rewrite Zplus_mod. fold (u32 (s32 a)). fold (u32 (s32 b)). rewrite !u32_s32. unfold u32. by rewrite <- Zplus_mod. }
  rewrite !s32_cases by done. unfold is_u32 in *. change (32 - 1) with 31. revert Hr. rewrite !(u32_cases (a + b)) by lia. intros Hr.
  compare_all; cbn [xorb andb negb]; try done; lia.
Qed.
Lemma sub_saturate_ok a b e : is_u32 a → is_u32 b → sub_saturate a b e = signed_sat 32 (s32 a - s32 b) e.
Proof.
  intros Ha Hb. unfold sub_saturate, signed_sat, saturated. cbv zeta. pose proof (u32_range (a - b)) as Hr.
  rewrite !xor_sign, bound_of_sign by done. assert (u32 (s32 a - s32 b) = u32 (a - b)) as ->.
  { unfold u32. rewrite Zminus_mod. fold (u32 (s32 a)). fold (u32 (s32 b)). rewrite !u32_s32. unfold u32. by rewrite <- Zminus_mod. }
  rewrite !s32_cases by done. unfold is_u32 in *. change (32 - 1) with 31. revert Hr. rewrite !(u32_cases (a - b)) by lia. intros Hr.
  compare_all; cbn [xorb andb negb]; try done; lia.
Qed.
Lemma add_usaturate_ok a b e : is_u32 a → is_u32 b → add_usaturate a b e = unsigned_sat 32 (a + b) e.
Proof.
  unfold is_u32. intros Ha Hb. unfold add_usaturate, unsigned_sat, saturated. cbv zeta. rewrite !(u32_cases (a + b)) by lia. compare_all.
Qed.
Lemma sub_usaturate_ok a b e : is_u32 a → is_u32 b → sub_usaturate a b e = unsigned_sat 32 (a - b) e.
Proof.
  unfold is_u32. intros Ha Hb. unfold sub_usaturate, unsigned_sat, saturated. cbv zeta. rewrite !(u32_cases (a - b)) by lia. compare_all.
Qed.

Lemma do_ssat_ok val k e : - 2 ^ 31 <= val < 2 ^ 31 → 0 <= k < 32 → do_ssat val k e = signed_sat (k + 1) val e.
Proof.
  intros Hv Hk. unfold do_ssat, signed_sat, saturated. replace (k + 1 - 1) with k by lia. rewrite Z.shiftl_1_l, Z.shiftr_div_pow2 by lia. cbv zeta.
  pose proof (Z.pow_pos_nonneg 2 k ltac:(lia) ltac:(lia)) as Hp. pose proof (Z.pow_lt_mono_r 2 k 32 ltac:(lia) ltac:(lia) ltac:(lia)) as H32.
  rewrite (u32_small (2 ^ k)) by lia. pose proof (Z.div_mod val (2 ^ k) ltac:(lia)) as Hd. pose proof (Z.mod_pos_bound val (2 ^ k) ltac:(lia)) as Hm.
  rewrite u32_lnot by (unfold is_u32; lia). set (q := val / 2 ^ k) in *. set (m := val mod 2 ^ k) in *.
  destruct (Z.ltb_spec 0 q); [|destruct (Z.ltb_spec q (-1))].
  - rewrite (proj2 (Z.ltb_ge val _)), (proj2 (Z.ltb_lt _ val)) by nia. by rewrite u32_small by lia.
  - rewrite (proj2 (Z.ltb_lt val _)) by nia. rewrite u32_cases by lia. by rewrite (proj2 (Z.ltb_lt (- 2 ^ k) 0)) by lia; f_equal; lia.
  - assert (q = 0 ∨ q = -1) as Hq by lia. rewrite (proj2 (Z.ltb_ge val _)), (proj2 (Z.ltb_ge _ val)) by nia. done.
Qed.
Lemma do_usat_ok val k e : - 2 ^ 31 <= val < 2 ^ 31 → 0 <= k < 32 → do_usat val k e = unsigned_sat k val e.
Proof.
  intros Hv Hk. unfold do_usat, unsigned_sat, saturated. rewrite Z.shiftl_1_l. cbv zeta.
  pose proof (Z.pow_pos_nonneg 2 k ltac:(lia) ltac:(lia)) as Hp. pose proof (Z.pow_lt_mono_r 2 k 32 ltac:(lia) ltac:(lia) ltac:(lia)) as H32.
  rewrite (u32_small (2 ^ k)) by lia. destruct (Z.ltb_spec val 0); [by rewrite u32_small by lia|].
  rewrite (u32_small val) by lia. destruct (Z.ltb_spec (2 ^ k - 1) val); [|done]. by rewrite u32_small by lia.
Qed.

(** The halfwords of a word, as signed numbers. *)
Lemma s16_low x : - 2 ^ 15 <= s16 x < 2 ^ 15.
Proof. unfold s16. pose proof (Z.mod_pos_bound (x + 2 ^ 15) (2 ^ 16)). lia. Qed.
Lemma s32_high x : is_u32 x → Z.shiftr (s32 x) 16 = s16 (Z.shiftr x 16).
Proof.
  intros Hx. rewrite s32_cases by done. unfold is_u32, s16 in *. rewrite !Z.shiftr_div_pow2 by lia.
  assert (x / 2 ^ 16 = (x - 2 ^ 32) / 2 ^ 16 + 2 ^ 16) as E.
  { replace (x - 2 ^ 32) with (x + (- 2 ^ 16) * 2 ^ 16) by lia. rewrite Z.div_add by lia. lia. }
  pose proof (Z.div_mod x (2 ^ 16)). pose proof (Z.mod_pos_bound x (2 ^ 16)). destruct (Z.leb_spec (2 ^ 31) x).
  - rewrite E. replace ((x - 2 ^ 32) / 2 ^ 16 + 2 ^ 16 + 2 ^ 15) with ((x - 2 ^ 32) / 2 ^ 16 + 2 ^ 15 + 1 * 2 ^ 16) by lia.
    rewrite Z.mod_add, Z.mod_small by lia. lia.
  - rewrite Z.mod_small by lia. lia.
Qed.

(** Both halves of a word. *)
Definition on_halves (f : Z → arm_env → Z * arm_env) (x : Z) (e : arm_env) : Z * arm_env :=
  let '(lo, e) := f (s16 x) e in
  let '(hi, e) := f (s16 (Z.shiftr x 16)) e in
  (lo mod 2 ^ 16 + 2 ^ 16 * (hi mod 2 ^ 16), e).

Lemma halves_joined lo hi : is_u32 hi → Z.lor (u16 lo) (u32 (Z.shiftl hi 16)) = lo mod 2 ^ 16 + 2 ^ 16 * (hi mod 2 ^ 16).
Proof.
  intros Hh. unfold u16, u32. rewrite Z.shiftl_mul_pow2 by lia. change (2 ^ 32) with (2 ^ 16 * 2 ^ 16). rewrite Z.mul_mod_distr_r by lia.
  rewrite Z.lor_comm, lor_add by (pose proof (Z.mod_pos_bound lo (2 ^ 16)); lia). lia.
Qed.
Lemma saturated_word lo hi z e : is_u32 (saturated lo hi z e).1.
Proof. unfold saturated. destruct (_ <? _); [apply u32_range|]. destruct (_ <? _); apply u32_range. Qed.

(** [C28]: saturating instructions clamp: the sum and the difference of words taken as signed
    or as unsigned numbers, and a word or each of its halves brought to [k + 1] signed or
    [k] unsigned bits, are the exact result between the bounds, and the sticky flag Q is
    set exactly if a bound was passed. *)
Theorem saturation_exact a b k e :
  is_u32 a → is_u32 b → 0 <= k < 32 →
  add_saturate a b e = signed_sat 32 (s32 a + s32 b) e ∧ sub_saturate a b e = signed_sat 32 (s32 a - s32 b) e ∧
  add_usaturate a b e = unsigned_sat 32 (a + b) e ∧ sub_usaturate a b e = unsigned_sat 32 (a - b) e ∧
  add_setq a b e = (u32 (a + b), (signed_sat 32 (s32 a + s32 b) e).2) ∧
  ssat a k e = signed_sat (k + 1) (s32 a) e ∧ usat a k e = unsigned_sat k (s32 a) e ∧
  ssat16 a k e = on_halves (signed_sat (k + 1)) a e ∧ usat16 a k e = on_halves (unsigned_sat k) a e.
Proof.
  intros Ha Hb Hk. pose proof (s16_low a) as Hlo. pose proof (s16_low (Z.shiftr a 16)) as Hhi.
  assert (- 2 ^ 31 <= s32 a < 2 ^ 31) as Hs by (rewrite s32_cases by done; unfold is_u32 in Ha; compare_all).
  split_and!; [by apply add_saturate_ok|by apply sub_saturate_ok|by apply add_usaturate_ok|by apply sub_usaturate_ok| |by apply do_ssat_ok|by apply do_usat_ok|..].
  - rewrite <- add_saturate_ok by done. unfold add_setq, add_saturate. cbv zeta. by destruct (_ && _).
  - unfold ssat16, on_halves. rewrite do_ssat_ok, s32_high by (done || lia). destruct (signed_sat _ _ e) as [lo e1].
    rewrite do_ssat_ok by (done || lia). pose proof (saturated_word (- 2 ^ (k + 1 - 1)) (2 ^ (k + 1 - 1) - 1) (s16 (Z.shiftr a 16)) e1) as Hw.
    fold (signed_sat (k + 1) (s16 (Z.shiftr a 16)) e1) in Hw. destruct (signed_sat _ _ e1) as [hi e2]. by rewrite halves_joined.
  - unfold usat16, on_halves. rewrite do_usat_ok, s32_high by (done || lia). destruct (unsigned_sat _ _ e) as [lo e1].
    rewrite do_usat_ok by (done || lia). pose proof (saturated_word 0 (2 ^ k - 1) (s16 (Z.shiftr a 16)) e1) as Hw.
    fold (unsigned_sat k (s16 (Z.shiftr a 16)) e1) in Hw. destruct (unsigned_sat _ _ e1) as [hi e2]. by rewrite halves_joined.
Qed.

Lemma saturation_exact_witness : add_saturate 0x7fffffff 1 example_env = (0x7fffffff, set_QF example_env 1).
Proof. exact (proj1 (saturation_exact 0x7fffffff 1 0 example_env ltac:(unfold is_u32; lia) ltac:(unfold is_u32; lia) ltac:(lia))). Defined.

(** Doubling clamps correctly, but at the smallest number whose double still fits the
    sticky flag is set although nothing was lost. *)
Theorem double_saturate_flag val e :
  - 2 ^ 31 <= val < 2 ^ 31 →
  (double_saturate val e).1 = (signed_sat 32 (2 * val) e).1 ∧
  (double_saturate val e).2 = if val =? - 2 ^ 30 then set_QF e 1 else (signed_sat 32 (2 * val) e).2.
Proof.
  intros Hv. unfold double_saturate, signed_sat, saturated. change (s32 0xc0000000) with (- 2 ^ 30). change 0x40000000 with (2 ^ 30).
  change (32 - 1) with 31. rewrite Z.shiftl_mul_pow2 by lia. change (2 ^ 1) with 2. rewrite (Z.mul_comm val).
  destruct (Z.eq_dec val (- 2 ^ 30)) as [->|]; [done|]. rewrite (proj2 (Z.eqb_neq _ _)) by done. compare_all; by split.
Qed.
