(* ===== verification/ArmSimd.v ===== *)
(** * ArmSimd: parallel arithmetic on halfwords and bytes (target-arm/helper.c, target-arm/op_addsub.h)

    The source includes one template, [op_addsub.h], six times, with the four operations
    on a lane defined differently each time.  Here the template is a function of these
    operations. *)

From S2P Require Import Prelude Gic Nvic V7m HostUtils ArmHelper.
Local Open Scope Z_scope.

(** ** Operations on a lane *)

Definition add16_sat (a b : Z) : Z :=
  let a := u16 a in let b := u16 b in
  let res := u16 (a + b) in
  if truth (Z.land (Z.lxor res a) 0x8000) && negb (truth (Z.land (Z.lxor a b) 0x8000))
  then if truth (Z.land a 0x8000) then 0x8000 else 0x7fff else res.
Definition add8_sat (a b : Z) : Z :=
  let a := u8 a in let b := u8 b in
  let res := u8 (a + b) in
  if truth (Z.land (Z.lxor res a) 0x80) && negb (truth (Z.land (Z.lxor a b) 0x80))
  then if truth (Z.land a 0x80) then 0x80 else 0x7f else res.
Definition sub16_sat (a b : Z) : Z :=
  let a := u16 a in let b := u16 b in
  let res := u16 (a - b) in
  if truth (Z.land (Z.lxor res a) 0x8000) && truth (Z.land (Z.lxor a b) 0x8000)
  then if truth (Z.land a 0x8000) then 0x8000 else 0x7fff else res.
Definition sub8_sat (a b : Z) : Z :=
  let a := u8 a in let b := u8 b in
  let res := u8 (a - b) in
  if truth (Z.land (Z.lxor res a) 0x80) && truth (Z.land (Z.lxor a b) 0x80)
  then if truth (Z.land a 0x80) then 0x80 else 0x7f else res.
Definition add16_usat (a b : Z) : Z :=
  let a := u16 a in let b := u16 b in let res := u16 (a + b) in if res <? a then 0xffff else res.
Definition sub16_usat (a b : Z) : Z :=
  let a := u16 a in let b := u16 b in if b <? a then a - b else 0.
Definition add8_usat (a b : Z) : Z :=
  let a := u8 a in let b := u8 b in let res := u8 (a + b) in if res <? a then 0xff else res.
Definition sub8_usat (a b : Z) : Z :=
  let a := u8 a in let b := u8 b in if b <? a then a - b else 0.

(** The value of a lane and whether its GE bits are set. *)
Definition SARITH16 (op : Z → Z → Z) (a b : Z) : Z * bool := let sum := op (s16 a) (s16 b) in (sum, 0 <=? sum).
Definition SARITH8 (op : Z → Z → Z) (a b : Z) : Z * bool := let sum := op (s8 a) (s8 b) in (sum, 0 <=? sum).
Definition UADD16 (a b : Z) : Z * bool := let sum := u16 a + u16 b in (sum, Z.shiftr sum 16 =? 1).
Definition UADD8 (a b : Z) : Z * bool := let sum := u8 a + u8 b in (sum, Z.shiftr sum 8 =? 1).
Definition USUB16 (a b : Z) : Z * bool := let sum := u32 (u16 a - u16 b) in (sum, Z.shiftr sum 16 =? 0).
Definition USUB8 (a b : Z) : Z * bool := let sum := u32 (u8 a - u8 b) in (sum, Z.shiftr sum 8 =? 0).

(** ** The template *)

Record lane_ops := mkLanes {
  ADD16 : Z → Z → Z * bool;
  SUB16 : Z → Z → Z * bool;
  ADD8 : Z → Z → Z * bool;
  SUB8 : Z → Z → Z * bool;
  ARITH_GE : bool;                  (* the GE bits are stored *)
}.

Definition RESULT (val n width res : Z) : Z := Z.lor res (u32 (Z.shiftl (val mod 2 ^ width) (n * width))).
(** A lane of 16 bits sets two GE bits, one of 8 bits sets one. *)
Definition LANE (width n : Z) (r : Z * bool) '((res, ge) : Z * Z) : Z * Z :=
  (RESULT r.1 n width res, if r.2 then Z.lor ge (if width =? 16 then Z.shiftl 3 (n * 2) else Z.shiftl 1 n) else ge).
(** What is stored through the pointer to the GE bits, and the result. *)
Definition finish (l : lane_ops) '((res, ge) : Z * Z) : Z * option Z := (res, if ARITH_GE l then Some ge else None).

Section template.
Context (l : lane_ops).

Definition add16 (a b : Z) : Z * option Z :=
  finish l (LANE 16 1 (ADD16 l (Z.shiftr a 16) (Z.shiftr b 16)) (LANE 16 0 (ADD16 l a b) (0, 0))).
Definition sub16 (a b : Z) : Z * option Z :=
  finish l (LANE 16 1 (SUB16 l (Z.shiftr a 16) (Z.shiftr b 16)) (LANE 16 0 (SUB16 l a b) (0, 0))).
Definition subaddx (a b : Z) : Z * option Z :=
  finish l (LANE 16 1 (SUB16 l (Z.shiftr a 16) b) (LANE 16 0 (ADD16 l a (Z.shiftr b 16)) (0, 0))).
Definition addsubx (a b : Z) : Z * option Z :=
  finish l (LANE 16 1 (ADD16 l (Z.shiftr a 16) b) (LANE 16 0 (SUB16 l a (Z.shiftr b 16)) (0, 0))).
Definition lanes8 (op : Z → Z → Z * bool) (a b : Z) : Z * Z :=
  LANE 8 3 (op (Z.shiftr a 24) (Z.shiftr b 24)) (LANE 8 2 (op (Z.shiftr a 16) (Z.shiftr b 16))
    (LANE 8 1 (op (Z.shiftr a 8) (Z.shiftr b 8)) (LANE 8 0 (op a b) (0, 0)))).
Definition add8 (a b : Z) : Z * option Z := finish l (lanes8 (ADD8 l) a b).
Definition sub8 (a b : Z) : Z * option Z := finish l (lanes8 (SUB8 l) a b).
End template.

Definition no_ge (f : Z → Z → Z) (a b : Z) : Z * bool := (f a b, false).

(** The six inclusions, by the prefix of their names. *)
Inductive pfx := Pq | Puq | Ps | Pu | Psh | Puh.
Definition lanes_of (p : pfx) : lane_ops :=
  match p with
  | Pq => mkLanes (no_ge add16_sat) (no_ge sub16_sat) (no_ge add8_sat) (no_ge sub8_sat) false
  | Puq => mkLanes (no_ge add16_usat) (no_ge sub16_usat) (no_ge add8_usat) (no_ge sub8_usat) false
  | Ps => mkLanes (SARITH16 Z.add) (SARITH16 Z.sub) (SARITH8 Z.add) (SARITH8 Z.sub) true
  | Pu => mkLanes UADD16 USUB16 UADD8 USUB8 true
  | Psh => mkLanes (no_ge (λ a b, Z.shiftr (s16 a + s16 b) 1)) (no_ge (λ a b, Z.shiftr (s16 a - s16 b) 1))
            (no_ge (λ a b, Z.shiftr (s8 a + s8 b) 1)) (no_ge (λ a b, Z.shiftr (s8 a - s8 b) 1)) false
  | Puh => mkLanes (no_ge (λ a b, Z.shiftr (u16 a + u16 b) 1)) (no_ge (λ a b, Z.shiftr (u32 (u16 a - u16 b)) 1))
            (no_ge (λ a b, Z.shiftr (u8 a + u8 b) 1)) (no_ge (λ a b, Z.shiftr (u32 (u8 a - u8 b)) 1)) false
  end.

(** ** The reference: exact arithmetic on each lane *)

(** A lane as a signed number. *)
Definition signed (w x : Z) : Z := if 2 ^ (w - 1) <=? x then x - 2 ^ w else x.
Definition clamp (lo hi z : Z) : Z := Z.max lo (Z.min hi z).
Definition exact (sub : bool) (x y : Z) : Z := if sub then x - y else x + y.

(** The lane of the result (below [2^w]) and the GE bit, from the lanes of the operands. *)
Definition lane_ref (p : pfx) (sub : bool) (w x y : Z) : Z * bool :=
  let sz := exact sub (signed w x) (signed w y) in
  let uz := exact sub x y in
  match p with
  | Pq => (clamp (- 2 ^ (w - 1)) (2 ^ (w - 1) - 1) sz mod 2 ^ w, false)
  | Puq => (clamp 0 (2 ^ w - 1) uz, false)
  | Ps => (sz mod 2 ^ w, 0 <=? sz)
  | Pu => (uz mod 2 ^ w, if sub then 0 <=? uz else 2 ^ w <=? uz)
  | Psh => ((sz / 2) mod 2 ^ w, false)
  | Puh => ((uz / 2) mod 2 ^ w, false)
  end.

(** The operations: the width, and per lane of the result whether it is a difference and
    which lanes of the operands it is made of. *)
Inductive simd_op := Add16 | Sub16 | Subaddx | Addsubx | Add8 | Sub8.
Definition simd (op : simd_op) (l : lane_ops) : Z → Z → Z * option Z :=
  match op with
  | Add16 => add16 l | Sub16 => sub16 l | Subaddx => subaddx l | Addsubx => addsubx l | Add8 => add8 l | Sub8 => sub8 l
  end.
Definition width (op : simd_op) : Z := match op with Add8 | Sub8 => 8 | _ => 16 end.
Definition wiring (op : simd_op) : list (bool * Z * Z) :=
  match op with
  | Add16 => [(false, 0, 0); (false, 1, 1)]
  | Sub16 => [(true, 0, 0); (true, 1, 1)]
  | Subaddx => [(false, 0, 1); (true, 1, 0)]
  | Addsubx => [(true, 0, 1); (false, 1, 0)]
  | Add8 => [(false, 0, 0); (false, 1, 1); (false, 2, 2); (false, 3, 3)]
  | Sub8 => [(true, 0, 0); (true, 1, 1); (true, 2, 2); (true, 3, 3)]
  end.
Definition lane (w i x : Z) : Z := (x / 2 ^ (w * i)) mod 2 ^ w.

(** Lanes put together, lowest first; a lane of 16 bits has two GE bits. *)
Definition join (w : Z) (l : list Z) : Z := foldr (λ v acc, v + 2 ^ w * acc) 0 l.
Definition join_ge (w : Z) (l : list bool) : Z := join (w / 8) ((λ g : bool, if g then 2 ^ (w / 8) - 1 else 0) <$> l).

(** ** Proofs *)

Lemma mod_cases m z : - m <= z < 2 * m → z mod m = if z <? 0 then z + m else if z <? m then z else z - m.
Proof.
  intros Hz. destruct (Z.ltb_spec z 0); [|destruct (Z.ltb_spec z m)].
  - rewrite <- (Z.mod_add z 1) by lia. rewrite Z.mod_small; lia.
  - rewrite Z.mod_small; lia.
  - rewrite <- (Z.mod_add z (-1)) by lia. rewrite Z.mod_small; lia.
Qed.
Lemma high_bit w x : 0 < w → 0 <= x < 2 ^ w → Z.testbit x (w - 1) = (2 ^ (w - 1) <=? x).
Proof.
  intros Hw Hx. assert (2 ^ w = 2 * 2 ^ (w - 1)) as E by (rewrite <- Z.pow_succ_r by lia; f_equal; lia).
  pose proof (Z.pow_pos_nonneg 2 (w - 1) ltac:(lia) ltac:(lia)).
  rewrite Z.testbit_eqb by lia. destruct (Z.leb_spec (2 ^ (w - 1)) x).
  - apply Z.eqb_eq. replace (x / 2 ^ (w - 1)) with 1; [done|]. apply (Z.div_unique x (2 ^ (w - 1)) 1 (x - 2 ^ (w - 1))); lia.
  - rewrite Z.div_small by lia. done.
Qed.
Lemma xor_high w x y : 0 < w → 0 <= x < 2 ^ w → 0 <= y < 2 ^ w →
  truth (Z.land (Z.lxor x y) (Z.shiftl 1 (w - 1))) = xorb (2 ^ (w - 1) <=? x) (2 ^ (w - 1) <=? y).
Proof. intros Hw Hx Hy. by rewrite truth_land_bit, Z.lxor_spec, !high_bit by (done || lia). Qed.
Lemma truth_high w x : 0 < w → 0 <= x < 2 ^ w → truth (Z.land x (Z.shiftl 1 (w - 1))) = (2 ^ (w - 1) <=? x).
Proof. intros Hw Hx. by rewrite truth_land_bit, high_bit by (done || lia). Qed.
Lemma s16_signed a : s16 a = signed 16 (a mod 2 ^ 16).
Proof.
  unfold s16, signed. rewrite <- Z.add_mod_idemp_l by lia. pose proof (Z.mod_pos_bound a (2 ^ 16) ltac:(lia)).
  change (16 - 1) with 15. rewrite mod_cases by lia. compare_all.
Qed.
Lemma s8_signed a : s8 a = signed 8 (a mod 2 ^ 8).
Proof.
  unfold s8, signed. rewrite <- Z.add_mod_idemp_l by lia. pose proof (Z.mod_pos_bound a (2 ^ 8) ltac:(lia)).
  change (8 - 1) with 7. rewrite mod_cases by lia. compare_all.
Qed.

(** An operation of a lane computes the reference, up to the bits that are cut off. *)
Definition lane_exact (p : pfx) (sub : bool) (w : Z) (f : Z → Z → Z * bool) : Prop :=
  ∀ a b, ((f a b).1 mod 2 ^ w, (f a b).2) = lane_ref p sub w (a mod 2 ^ w) (b mod 2 ^ w).

Ltac lane_intro w :=
  let x := fresh "x" in let y := fresh "y" in let a := fresh "a" in let b := fresh "b" in
  intros a b; pose proof (Z.mod_pos_bound a (2 ^ w) ltac:(lia)); pose proof (Z.mod_pos_bound b (2 ^ w) ltac:(lia));
  set (x := a mod 2 ^ w) in *; set (y := b mod 2 ^ w) in *; clearbody x y; clear a b.

(** Saturating signed arithmetic, for lanes of any width. *)
Lemma sat_lane w x y :
  w = 16 ∨ w = 8 → 0 <= x < 2 ^ w → 0 <= y < 2 ^ w →
  let h := Z.shiftl 1 (w - 1) in
  (if truth (Z.land (Z.lxor ((x + y) mod 2 ^ w) x) h) && negb (truth (Z.land (Z.lxor x y) h))
   then if truth (Z.land x h) then h else h - 1 else (x + y) mod 2 ^ w) mod 2 ^ w = (lane_ref Pq false w x y).1 ∧
  (if truth (Z.land (Z.lxor ((x - y) mod 2 ^ w) x) h) && truth (Z.land (Z.lxor x y) h)
   then if truth (Z.land x h) then h else h - 1 else (x - y) mod 2 ^ w) mod 2 ^ w = (lane_ref Pq true w x y).1.
Proof.
  intros Hw Hx Hy. cbv zeta. cbn [lane_ref fst exact]. unfold signed, clamp.
  pose proof (Z.mod_pos_bound (x + y) (2 ^ w) ltac:(lia)). pose proof (Z.mod_pos_bound (x - y) (2 ^ w) ltac:(lia)).
  rewrite !xor_high, !truth_high by lia. rewrite Z.shiftl_1_l.
  assert (2 ^ w = 2 * 2 ^ (w - 1) ∧ 0 < 2 ^ (w - 1)) as [E Hp] by (destruct Hw as [-> | ->]; split; reflexivity).
  rewrite E in *. set (h := 2 ^ (w - 1)) in *. clearbody h. clear Hw E w.
  rewrite (mod_cases (2 * h) (x + y)) in * by lia. rewrite (mod_cases (2 * h) (x - y)) in * by lia.
  split; compare_all; cbn [xorb andb negb]; rewrite ?mod_cases by lia; compare_all.
Qed.

Lemma div_pow2_cases w z : 0 < w → 0 <= z < 2 * 2 ^ w → z / 2 ^ w = if z <? 2 ^ w then 0 else 1.
Proof.
  intros Hw Hz. pose proof (Z.pow_pos_nonneg 2 w). destruct (Z.ltb_spec z (2 ^ w)); [apply Z.div_small; lia|].
  symmetry. apply (Z.div_unique z (2 ^ w) 1 (z - 2 ^ w)); lia.
Qed.
(** A difference of lanes, computed in 32 bits. *)
Lemma wide_difference w x y :
  w = 16 ∨ w = 8 → 0 <= x < 2 ^ w → 0 <= y < 2 ^ w →
  u32 (x - y) mod 2 ^ w = (x - y) mod 2 ^ w ∧ (Z.shiftr (u32 (x - y)) w =? 0) = (0 <=? x - y) ∧
  Z.shiftr (u32 (x - y)) 1 mod 2 ^ w = ((x - y) / 2) mod 2 ^ w.
Proof.
  intros Hw Hx Hy. assert (0 < 2 ^ w <= 2 ^ 16) as Hp by (destruct Hw as [-> | ->]; lia). rewrite u32_cases by lia.
  rewrite !Z.shiftr_div_pow2 by lia. change (2 ^ 1) with 2.
  assert (∃ k, 2 ^ 32 = 2 * (k * 2 ^ w) ∧ 2 ^ 15 <= k) as (k & Ek & Hk) by (destruct Hw as [-> | ->]; [exists (2 ^ 15); lia|exists (2 ^ 23); lia]).
  destruct (Z.ltb_spec (x - y) 0); [|rewrite (proj2 (Z.ltb_lt _ _)) by lia; split_and!; [done| |done]].
  - split_and!.
    + rewrite Ek. replace (x - y + 2 * (k * 2 ^ w)) with (x - y + (2 * k) * 2 ^ w) by lia. by rewrite Z.mod_add by lia.
    + rewrite (proj2 (Z.leb_gt 0 (x - y))) by lia. apply Z.eqb_neq. apply Z.neq_sym, Z.lt_neq, Z.div_str_pos. lia.
    + rewrite Ek. replace (x - y + 2 * (k * 2 ^ w)) with (x - y + (k * 2 ^ w) * 2) by lia. by rewrite Z.div_add, Z.mod_add by lia.
  - rewrite Z.div_small by lia. by rewrite (proj2 (Z.leb_le 0 (x - y))) by lia.
Qed.

Lemma usat_lane w x y :
  0 <= x < 2 ^ w → 0 <= y < 2 ^ w →
  (let res := (x + y) mod 2 ^ w in if res <? x then 2 ^ w - 1 else res) mod 2 ^ w = (lane_ref Puq false w x y).1 ∧
  (if y <? x then x - y else 0) mod 2 ^ w = (lane_ref Puq true w x y).1.
Proof.
  intros Hx Hy. cbn [lane_ref fst exact]. unfold clamp. cbv zeta. rewrite (mod_cases (2 ^ w) (x + y)), (proj2 (Z.ltb_ge (x + y) 0)) by lia.
  set (m := 2 ^ w) in *. clearbody m. split; [destruct (Z.ltb_spec (x + y) m)|]; compare_all; rewrite Z.mod_small by lia; lia.
Qed.

Lemma lanes_exact p :
  lane_exact p false 16 (ADD16 (lanes_of p)) ∧ lane_exact p true 16 (SUB16 (lanes_of p)) ∧
  lane_exact p false 8 (ADD8 (lanes_of p)) ∧ lane_exact p true 8 (SUB8 (lanes_of p)).
Proof.
  assert (∀ w a, w = 16 ∨ w = 8 → 0 <= a mod 2 ^ w < 2 ^ w) as Hr by (intros w a [-> | ->]; apply Z.mod_pos_bound; lia).
  destruct p; cbn [lanes_of ADD16 SUB16 ADD8 SUB8 no_ge]; unfold lane_exact, no_ge, SARITH16, SARITH8, UADD16, USUB16, UADD8, USUB8;
    split_and!; intros a b; cbn [fst snd];
    pose proof (Hr 16 a ltac:(auto)); pose proof (Hr 16 b ltac:(auto)); pose proof (Hr 8 a ltac:(auto)); pose proof (Hr 8 b ltac:(auto)).
  1-4: (destruct (sat_lane 16 (a mod 2 ^ 16) (b mod 2 ^ 16)) as [S1 S2]; [auto|done|done|];
    destruct (sat_lane 8 (a mod 2 ^ 8) (b mod 2 ^ 8)) as [S3 S4]; [auto|done|done|];
    match goal with |- (_, false) = ?r => change r with (r.1, false) end; f_equal; assumption).
  1-4: (destruct (usat_lane 16 (a mod 2 ^ 16) (b mod 2 ^ 16)) as [S1 S2]; [done|done|];
    destruct (usat_lane 8 (a mod 2 ^ 8) (b mod 2 ^ 8)) as [S3 S4]; [done|done|];
    match goal with |- (_, false) = ?r => change r with (r.1, false) end; f_equal; assumption).
  1-4: (rewrite ?s16_signed, ?s8_signed; reflexivity).
  1-4: (unfold u16, u8; cbn [lane_ref exact];
    destruct (wide_difference 16 (a mod 2 ^ 16) (b mod 2 ^ 16)) as (D1 & D2 & _); [auto|done|done|];
    destruct (wide_difference 8 (a mod 2 ^ 8) (b mod 2 ^ 8)) as (D3 & D4 & _); [auto|done|done|];
    first [ by rewrite D1, D2 | by rewrite D3, D4
          | f_equal; rewrite Z.shiftr_div_pow2, div_pow2_cases by lia; compare_all ]).
  1-4: (rewrite ?s16_signed, ?s8_signed, Z.shiftr_div_pow2 by lia; reflexivity).
  all: (unfold u16, u8; cbn [lane_ref exact];
    destruct (wide_difference 16 (a mod 2 ^ 16) (b mod 2 ^ 16)) as (_ & _ & D1); [auto|done|done|];
    destruct (wide_difference 8 (a mod 2 ^ 8) (b mod 2 ^ 8)) as (_ & _ & D2); [auto|done|done|];
    first [by rewrite D1|by rewrite D2|rewrite Z.shiftr_div_pow2 by lia; reflexivity]).
Qed.

(** The template joins the lanes. *)
Lemma result_0 v w : 0 < w <= 16 → RESULT v 0 w 0 = v mod 2 ^ w.
Proof.
  intros Hw. unfold RESULT. rewrite Z.lor_0_l, Z.mul_0_l, Z.shiftl_0_r. pose proof (Z.mod_pos_bound v (2 ^ w)). pose proof (Z.pow_le_mono_r 2 w 16).
  apply u32_small. lia.
Qed.
Lemma result_next v n w res :
  0 < w → 0 <= n → n * w + w <= 32 → 0 <= res < 2 ^ (n * w) → RESULT v n w res = res + v mod 2 ^ w * 2 ^ (n * w) ∧ 0 <= RESULT v n w res < 2 ^ (n * w + w).
Proof.
  intros Hw Hn Hle Hr. unfold RESULT. pose proof (Z.mod_pos_bound v (2 ^ w) ltac:(lia)) as Hv. rewrite Z.shiftl_mul_pow2 by nia.
  pose proof (Z.pow_pos_nonneg 2 (n * w) ltac:(lia) ltac:(nia)). pose proof (Z.pow_le_mono_r 2 (n * w + w) 32 ltac:(lia) ltac:(lia)) as H32.
  assert (2 ^ (n * w + w) = 2 ^ (n * w) * 2 ^ w) as E by (apply Z.pow_add_r; nia).
  rewrite u32_small by nia. rewrite Z.lor_comm, lor_add by nia. split; [lia|]. rewrite E. nia.
Qed.

Lemma join_two l r0 r1 :
  finish l (LANE 16 1 r1 (LANE 16 0 r0 (0, 0))) =
  (join 16 [r0.1 mod 2 ^ 16; r1.1 mod 2 ^ 16], if ARITH_GE l then Some (join_ge 16 [r0.2; r1.2]) else None).
Proof.
  unfold LANE. cbn [finish]. f_equal.
  - rewrite (result_0 r0.1) by lia. pose proof (Z.mod_pos_bound r0.1 (2 ^ 16)).
    rewrite (proj1 (result_next r1.1 1 16 (r0.1 mod 2 ^ 16) ltac:(lia) ltac:(lia) ltac:(lia) ltac:(lia))). cbn [join foldr]. lia.
  - destruct (ARITH_GE l); [|done]. f_equal. by destruct r0 as [? []], r1 as [? []].
Qed.
Lemma join_four l op a b :
  finish l (lanes8 op a b) =
  let r i := op (Z.shiftr a (8 * i)) (Z.shiftr b (8 * i)) in
  (join 8 [(r 0).1 mod 2 ^ 8; (r 1).1 mod 2 ^ 8; (r 2).1 mod 2 ^ 8; (r 3).1 mod 2 ^ 8],
   if ARITH_GE l then Some (join_ge 8 [(r 0).2; (r 1).2; (r 2).2; (r 3).2]) else None).
Proof.
  unfold lanes8. cbv zeta. change (8 * 0) with 0. change (8 * 1) with 8. change (8 * 2) with 16. change (8 * 3) with 24. rewrite !Z.shiftr_0_r.
  set (r0 := op a b). set (r1 := op (Z.shiftr a 8) _). set (r2 := op (Z.shiftr a 16) _). set (r3 := op (Z.shiftr a 24) _). unfold LANE. cbn [finish]. f_equal.
  - rewrite (result_0 r0.1) by lia. pose proof (Z.mod_pos_bound r0.1 (2 ^ 8) ltac:(lia)).
    destruct (result_next r1.1 1 8 (r0.1 mod 2 ^ 8)) as [E1 H1]; [lia..|]. destruct (result_next r2.1 2 8 _ ltac:(lia) ltac:(lia) ltac:(lia) H1) as [E2 H2].
    destruct (result_next r3.1 3 8 _ ltac:(lia) ltac:(lia) ltac:(lia) H2) as [E3 _]. rewrite E3, E2, E1. cbn [join foldr]. lia.
  - destruct (ARITH_GE l); [|done]. f_equal. by destruct r0 as [? []], r1 as [? []], r2 as [? []], r3 as [? []].
Qed.

Lemma lane_shift w i x : 0 <= i → 0 <= w → Z.shiftr x (w * i) mod 2 ^ w = lane w i x.
Proof. intros Hi Hw. unfold lane. by rewrite Z.shiftr_div_pow2 by nia. Qed.

(** [C23]: the 36 parallel instructions are their definition: for each of the six
    arithmetics (saturating, modular and halving, signed and unsigned) and each way of
    pairing lanes, every lane of the result is exact arithmetic on the lanes of the
    operands, clamped, reduced or halved, with no carry between lanes, and the modular
    ones set the GE bits of a lane by its sign, carry or borrow. *)
Theorem simd_exact p op a b :
  let w := width op in
  let refs := (λ '(sub, i, j), lane_ref p sub w (lane w i a) (lane w j b)) <$> wiring op in
  simd op (lanes_of p) a b =
  (join w refs.*1, if ARITH_GE (lanes_of p) then Some (join_ge w refs.*2) else None).
Proof.
  destruct (lanes_exact p) as (H16 & H16' & H8 & H8').
  assert (∀ f sub w, lane_exact p sub w f → ∀ i j, 0 <= i → 0 <= j → 0 <= w →
    lane_ref p sub w (lane w i a) (lane w j b) = ((f (Z.shiftr a (w * i)) (Z.shiftr b (w * j))).1 mod 2 ^ w, (f (Z.shiftr a (w * i)) (Z.shiftr b (w * j))).2)) as Hl.
  { intros f sub w Hf i j Hi Hj Hw. rewrite Hf, !lane_shift by lia. done. }
  pose proof (Hl _ _ _ H16) as L16. pose proof (Hl _ _ _ H16') as L16'. pose proof (Hl _ _ _ H8) as L8. pose proof (Hl _ _ _ H8') as L8'. clear Hl.
  destruct op; cbn [simd width wiring fmap list_fmap]; cbv zeta; unfold add16, sub16, subaddx, addsubx, add8, sub8; rewrite ?join_two, ?join_four; cbv zeta;
    rewrite ?L16, ?L16', ?L8, ?L8' by lia; change (16 * 0) with 0; change (16 * 1) with 16; rewrite ?Z.shiftr_0_r; reflexivity.
Qed.

(** ** Division and bits *)

Definition reversed (x r : Z) : Prop := is_u32 r ∧ ∀ j, 0 <= j < 32 → Z.testbit r j = Z.testbit x (31 - j).

(** A word whose bits are moved by masks and shifts: look at each of the 32 positions. *)
Ltac mask_bits :=
  repeat match goal with |- context [Z.testbit (Zpos ?m) ?c] => let v := eval vm_compute in (Z.testbit (Zpos m) c) in change (Z.testbit (Zpos m) c) with v end.
Ltac moved_bit :=
  rewrite ?Z.lor_spec, ?u32_bit, ?Z.shiftl_spec, ?Z.shiftr_spec, ?Z.land_spec by lia; mask_bits;
  rewrite ?andb_true_r, ?andb_false_r, ?orb_false_r; cbn [orb]; reflexivity.
Ltac each_bit :=
  let j := fresh "j" in let Hj := fresh "Hj" in let k := fresh "k" in
  intros j Hj; assert (∃ k : nat, j = Z.of_nat k ∧ (k < 32)%nat) as (k & -> & Hk) by (exists (Z.to_nat j); lia);
  do 32 (destruct k as [|k]; [clear; moved_bit|]); lia.

Lemma swap_bytes x j :
  0 <= j < 32 → Z.testbit (Z.lor (Z.lor (Z.lor (Z.shiftr (Z.land x 0xff000000) 24) (Z.shiftr (Z.land x 0x00ff0000) 8))
    (u32 (Z.shiftl (Z.land x 0x0000ff00) 8))) (u32 (Z.shiftl (Z.land x 0x000000ff) 24))) j = Z.testbit x (Z.lxor j 24).
Proof. revert j. each_bit. Qed.
Lemma swap_nibbles x j :
  0 <= j < 32 → Z.testbit (Z.lor (Z.shiftr (Z.land x 0xf0f0f0f0) 4) (u32 (Z.shiftl (Z.land x 0x0f0f0f0f) 4))) j = Z.testbit x (Z.lxor j 4).
Proof. revert j. each_bit. Qed.
Lemma swap_bits x j :
  0 <= j < 32 → Z.testbit (Z.lor (Z.lor (Z.lor (Z.shiftr (Z.land x 0x88888888) 3) (Z.shiftr (Z.land x 0x44444444) 1))
    (u32 (Z.shiftl (Z.land x 0x22222222) 1))) (u32 (Z.shiftl (Z.land x 0x11111111) 3))) j = Z.testbit x (Z.lxor j 3).
Proof. revert j. each_bit. Qed.

Lemma rbit_ok x : reversed x (rbit x).
Proof.
  unfold rbit. split.
  - repeat apply is_u32_lor; try apply u32_range; (apply is_u32_shiftr; [|lia]);
      match goal with |- is_u32 (Z.land ?y ?m) => pose proof (land_le y m ltac:(lia)); unfold is_u32; lia end.
  - assert (∀ j, 0 <= j < 32 → ∀ k, k ∈ [3; 4; 24] → 0 <= Z.lxor j k < 32) as Hr.
    { intros j Hj k Hk. assert (0 <= k < 2 ^ 5) by (repeat (apply elem_of_cons in Hk as [-> | Hk]; [lia|]); by apply elem_of_nil in Hk).
      split; [apply Z.lxor_nonneg; lia|]. change 32 with (2 ^ 5). destruct (Z.eq_dec (Z.lxor j k) 0) as [->|]; [lia|].
      apply Z.log2_lt_pow2; [pose proof (proj2 (Z.lxor_nonneg j k)); lia|].
      pose proof (Z.log2_lxor j k ltac:(lia) ltac:(lia)). assert (∀ z, 0 <= z < 2 ^ 5 → Z.log2 z < 5) as Hz by (intros z Hz; destruct (Z.eq_dec z 0) as [->|]; [cbn; lia|apply Z.log2_lt_pow2; lia]).
      pose proof (Hz j Hj). pose proof (Hz k ltac:(lia)). lia. }
    intros j Hj. rewrite swap_bits, swap_nibbles, swap_bytes by (try apply Hr; try apply Hr; try done; set_solver).
    f_equal. assert (∃ k : nat, j = Z.of_nat k ∧ (k < 32)%nat) as (k & -> & Hk) by (exists (Z.to_nat j); lia).
    do 32 (destruct k as [|k]; [reflexivity|]). lia.
Qed.

Lemma word_eq x y : is_u32 x → is_u32 y → (∀ j, 0 <= j < 32 → Z.testbit x j = Z.testbit y j) → x = y.
Proof.
  intros Hx Hy H. apply Z.bits_inj'. intros n Hn. destruct (Z.lt_ge_cases n 32); [apply H; lia|]. by rewrite !is_u32_high.
Qed.

Lemma sdiv_ok n d : - 2 ^ 31 <= n < 2 ^ 31 → - 2 ^ 31 <= d < 2 ^ 31 → sdiv n d = if d =? 0 then 0 else s32 (Z.quot n d).
Proof.
  intros Hn Hd. unfold sdiv, INT_MIN. destruct (Z.eqb_spec d 0); [done|].
  destruct (Z.eqb_spec n (- 2 ^ 31)) as [->|]; [destruct (Z.eqb_spec d (-1)) as [->|]; [done|]|]; cbn [andb].
  - destruct (Z.eq_dec d 1) as [->|]; [done|]. rewrite s32_small; [done|]. assert (Z.abs (Z.quot (- 2 ^ 31) d) <= 2 ^ 31 - 1); [|lia].
    rewrite <- Z.quot_abs by done. change (Z.abs (- 2 ^ 31)) with (2 ^ 31). rewrite Z.quot_div_nonneg by lia.
    pose proof (Z.div_le_compat_l (2 ^ 31) 2 (Z.abs d) ltac:(lia) ltac:(lia)) as H. change (2 ^ 31 / 2) with (2 ^ 30) in H. lia.
  - rewrite s32_small; [done|]. assert (Z.abs (Z.quot n d) <= 2 ^ 31 - 1); [|lia].
    rewrite <- Z.quot_abs by done. rewrite Z.quot_div_nonneg by lia.
    pose proof (Z.div_le_compat_l (Z.abs n) 1 (Z.abs d) ltac:(lia) ltac:(lia)) as H. rewrite Z.div_1_r in H. lia.
Qed.

Lemma abs_ok x : is_u32 x → abs x = Z.abs (s32 x).
Proof.
  intros Hx. unfold abs. rewrite s32_cases by done. unfold is_u32 in Hx. rewrite u32_cases by lia. compare_all.
Qed.

Lemma sel_ok flags a b j : is_u32 a → is_u32 b → 0 <= j < 32 → Z.testbit (sel_flags flags a b) j = Z.testbit (if Z.testbit flags (j / 8) then a else b) j.
Proof.
  intros Ha Hb Hj. unfold sel_flags. cbn [fold_left].
  rewrite (truth_land_bit flags 0 : _ → truth (Z.land flags 1) = _), (truth_land_bit flags 1 : _ → truth (Z.land flags 2) = _),
    (truth_land_bit flags 2 : _ → truth (Z.land flags 4) = _), (truth_land_bit flags 3 : _ → truth (Z.land flags 8) = _) by lia.
  rewrite Z.lor_spec, !Z.land_spec, u32_bit, Z.lnot_spec by lia. rewrite !Z.lor_spec, Z.bits_0. cbn [orb].
  assert (∃ k : nat, j = Z.of_nat k ∧ (k < 32)%nat) as (k & -> & Hk) by (exists (Z.to_nat j); lia).
  destruct (Z.testbit flags 0) eqn:E0, (Z.testbit flags 1) eqn:E1, (Z.testbit flags 2) eqn:E2, (Z.testbit flags 3) eqn:E3;
    do 32 (destruct k as [|k]; [match goal with |- _ = Z.testbit (if Z.testbit flags ?c then _ else _) _ =>
      let c' := eval vm_compute in c in change c with c' end; rewrite ?E0, ?E1, ?E2, ?E3; mask_bits; rewrite ?Z.bits_0;
      cbn [orb negb]; by rewrite ?andb_true_r, ?andb_false_r, ?orb_false_r|]); lia.
Qed.

Lemma usad_lane a b i : 0 <= i → do_usad (Z.shiftr a (8 * i)) (Z.shiftr b (8 * i)) = Z.abs (lane 8 i a - lane 8 i b).
Proof. intros Hi. unfold do_usad, u8. rewrite !lane_shift by lia. compare_all. Qed.
Lemma usad8_ok a b : usad8 a b = Z.abs (lane 8 0 a - lane 8 0 b) + Z.abs (lane 8 1 a - lane 8 1 b) + Z.abs (lane 8 2 a - lane 8 2 b) + Z.abs (lane 8 3 a - lane 8 3 b).
Proof.
  unfold usad8. rewrite <- !usad_lane by lia. change (8 * 0) with 0. rewrite !Z.shiftr_0_r. change (8 * 1) with 8. change (8 * 2) with 16. change (8 * 3) with 24.
  assert (∀ x y, 0 <= do_usad x y < 2 ^ 8) as H.
  { intros x y. unfold do_usad. cbv zeta. pose proof (u8_range x). pose proof (u8_range y). destruct (_ <? _) eqn:E; bool_to_prop; lia. }
  apply u32_small. pose proof (H a b). pose proof (H (Z.shiftr a 8) (Z.shiftr b 8)). pose proof (H (Z.shiftr a 16) (Z.shiftr b 16)).
  pose proof (H (Z.shiftr a 24) (Z.shiftr b 24)). lia.
Qed.

Lemma logicq_ok v : is_u64 v → (logicq_cc v =? 0) = (v =? 0) ∧ Z.testbit (logicq_cc v) 31 = Z.testbit v 63.
Proof.
  intros Hv. unfold logicq_cc. split.
  - destruct (Z.eqb_spec v 0) as [->|]; [done|]. cbn [negb flag]. apply Z.eqb_neq. intros E. apply (f_equal (λ z, Z.testbit z 0)) in E.
    rewrite u32_bit, Z.lor_spec, Z.bits_0, orb_true_r in E by lia. done.
  - rewrite u32_bit, Z.lor_spec, Z.shiftr_spec by lia. change (31 + 32) with 63. replace (Z.testbit (flag _) 31) with false by by destruct (v =? 0). apply orb_false_r.
Qed.

(** The other helpers on words are their definitions: bits reversed, leading zeros,
    division rounded towards zero (0 by 0, and wrapping at the smallest number), absolute
    value, bytes selected by the GE bits, sum of absolute differences of bytes, bytes
    extended to halfwords, and the Z and N flags of a 64-bit result. *)
Theorem word_helpers_exact a b v flags :
  is_u32 a → is_u32 b → is_u64 v →
  (reversed a (rbit a) ∧ rbit (rbit a) = a) ∧
  clz a = (if a =? 0 then 32 else 31 - Z.log2 a) ∧
  sdiv (s32 a) (s32 b) = (if b =? 0 then 0 else s32 (Z.quot (s32 a) (s32 b))) ∧
  udiv a b = (if b =? 0 then 0 else a / b) ∧
  abs a = Z.abs (s32 a) ∧
  (∀ j, 0 <= j < 32 → Z.testbit (sel_flags flags a b) j = Z.testbit (if Z.testbit flags (j / 8) then a else b) j) ∧
  usad8 a b = Z.abs (lane 8 0 a - lane 8 0 b) + Z.abs (lane 8 1 a - lane 8 1 b) + Z.abs (lane 8 2 a - lane 8 2 b) + Z.abs (lane 8 3 a - lane 8 3 b) ∧
  sxtb16 a = s8 a mod 2 ^ 16 + 2 ^ 16 * (s8 (Z.shiftr a 16) mod 2 ^ 16) ∧
  uxtb16 a = lane 8 0 a + 2 ^ 16 * lane 8 2 a ∧
  (logicq_cc v =? 0) = (v =? 0) ∧ Z.testbit (logicq_cc v) 31 = Z.testbit v 63.
Proof.
  intros Ha Hb Hv.
  assert (∀ x, is_u32 x → - 2 ^ 31 <= s32 x < 2 ^ 31 ∧ (s32 x =? 0) = (x =? 0)) as Hs.
  { intros x Hx. rewrite s32_cases by done. unfold is_u32 in Hx. split; compare_all. }
  split_and!; try apply (rbit_ok a); try apply (logicq_ok v Hv).
  - destruct (rbit_ok a) as [R1 B1]. destruct (rbit_ok (rbit a)) as [R2 B2]. apply word_eq; [done|done|]. intros j Hj. rewrite B2, B1 by lia. f_equal. lia.
  - by apply clz32_ok.
  - destruct (Hs a Ha) as [? _]. destruct (Hs b Hb) as [? <-]. by apply sdiv_ok.
  - unfold udiv, is_u32 in *. destruct (Z.eqb_spec b 0); [done|]. apply Z.quot_div_nonneg; lia.
  - by apply abs_ok.
  - intros j Hj. by apply sel_ok.
  - apply usad8_ok.
  - unfold sxtb16. rewrite halves_joined by apply u32_range. do 2 f_equal. unfold u32. symmetry. apply Znumtheory.Zmod_div_mod; [lia|lia|]. by exists (2 ^ 16).
  - unfold uxtb16. pose proof (u8_range (Z.shiftr a 16)) as H8. rewrite halves_joined by (unfold is_u32; lia).
    pose proof (u8_range a). rewrite !Z.mod_small by lia. unfold u8, lane. rewrite Z.shiftr_div_pow2 by lia. change (2 ^ (8 * 0)) with 1. by rewrite Z.div_1_r.
Qed.

Lemma word_helpers_exact_witness : rbit (rbit 0x12345678) = 0x12345678 ∧ sdiv (s32 0x80000000) (s32 0xffffffff) = - 2 ^ 31.
Proof.
  destruct (word_helpers_exact 0x80000000 0xffffffff 0 0 ltac:(unfold is_u32; lia) ltac:(unfold is_u32; lia) ltac:(unfold is_u64; lia)) as (_ & _ & H & _).
  destruct (word_helpers_exact 0x12345678 1 0 0 ltac:(unfold is_u32; lia) ltac:(unfold is_u32; lia) ltac:(unfold is_u64; lia)) as ((_ & R) & _).
  split; [exact R|exact H].
Defined.
