(* ===== verification/Sd.v ===== *)
(** * Sd: the SD card (hw/sd.c, hw/sd.h)

    The card as its host sees it: commands with their responses, and blocks of data byte by
    byte, over the image of the block layer.  The image is any instance of [BlockDriver]:
    what [block.c] promises for one sector is the class [BlockLaws]. *)

From S2P Require Import Prelude.
Local Open Scope Z_scope.

(** ** The block layer *)

(** [bdrv_read] and [bdrv_write] for one sector: the result, 0 or a negative error, with
    the buffer, or the device, afterwards. *)
Class BlockDriver (B : Type) := {
  bdrv_get_geometry : B → Z;
  bdrv_is_inserted : B → bool;
  bdrv_is_read_only : B → bool;
  bdrv_read : B → Z → list Z → Z * list Z;
  bdrv_write : B → Z → list Z → Z * B;
}.

(** ** Memory *)

Definition memcpy (dst : list Z) (d : Z) (src : list Z) (s n : Z) : res (list Z) :=
  if (0 <=? d) && (0 <=? s) && (0 <=? n) && (d + n <=? Z.of_nat (length dst)) && (s + n <=? Z.of_nat (length src))
  then Ok (take (Z.to_nat d) dst ++ take (Z.to_nat n) (drop (Z.to_nat s) src) ++ drop (Z.to_nat (d + n)) dst)
  else Err Out_of_bounds.
Definition memset (dst : list Z) (d v n : Z) : res (list Z) := memcpy dst d (replicate (Z.to_nat n) v) 0 n.

(** ** Constants *)

Definition OUT_OF_RANGE : Z := Z.shiftl 1 31.
Definition ADDRESS_ERROR : Z := Z.shiftl 1 30.
Definition BLOCK_LEN_ERROR : Z := Z.shiftl 1 29.
Definition ERASE_SEQ_ERROR : Z := Z.shiftl 1 28.
Definition ERASE_PARAM : Z := Z.shiftl 1 27.
Definition WP_VIOLATION : Z := Z.shiftl 1 26.
Definition CARD_IS_LOCKED : Z := Z.shiftl 1 25.
Definition LOCK_UNLOCK_FAILED : Z := Z.shiftl 1 24.
Definition COM_CRC_ERROR : Z := Z.shiftl 1 23.
Definition ILLEGAL_COMMAND : Z := Z.shiftl 1 22.
Definition CARD_ECC_FAILED : Z := Z.shiftl 1 21.
Definition CC_ERROR : Z := Z.shiftl 1 20.
Definition SD_ERROR : Z := Z.shiftl 1 19.
Definition CID_CSD_OVERWRITE : Z := Z.shiftl 1 16.
Definition WP_ERASE_SKIP : Z := Z.shiftl 1 15.
Definition ERASE_RESET : Z := Z.shiftl 1 13.
Definition CURRENT_STATE : Z := Z.shiftl 7 9.
Definition APP_CMD : Z := Z.shiftl 1 5.
Definition CARD_STATUS_B : Z := 0x00c01e00.
Definition CARD_STATUS_C : Z := 0xfd39a028.

Definition HWBLOCK_SHIFT : Z := 9.
Definition SECTOR_SHIFT : Z := 5.
Definition WPGROUP_SHIFT : Z := 7.
Definition CMULT_SHIFT : Z := 9.
Definition WPGROUP_SIZE : Z := Z.shiftl 1 (HWBLOCK_SHIFT + SECTOR_SHIFT + WPGROUP_SHIFT).
(** The write-protection group of an address. *)
Definition wp_group (addr : Z) : Z := Z.shiftr addr (HWBLOCK_SHIFT + SECTOR_SHIFT + WPGROUP_SHIFT).

Inductive sd_cmd_type_t := sd_none | sd_bc | sd_bcr | sd_ac | sd_adtc.
Definition sd_cmd_type : list sd_cmd_type_t := [
    sd_bc;   sd_none; sd_bcr;  sd_bcr;  sd_none; sd_none; sd_none; sd_ac;
    sd_bcr;  sd_ac;   sd_ac;   sd_adtc; sd_ac;   sd_ac;   sd_none; sd_ac;
    sd_ac;   sd_adtc; sd_adtc; sd_none; sd_none; sd_none; sd_none; sd_none;
    sd_adtc; sd_adtc; sd_adtc; sd_adtc; sd_ac;   sd_ac;   sd_adtc; sd_none;
    sd_ac;   sd_ac;   sd_none; sd_none; sd_none; sd_none; sd_ac;   sd_none;
    sd_none; sd_none; sd_bc;   sd_none; sd_none; sd_none; sd_none; sd_none;
    sd_none; sd_none; sd_none; sd_none; sd_none; sd_none; sd_none; sd_ac;
    sd_adtc; sd_none; sd_none; sd_none; sd_none; sd_none; sd_none; sd_none].
Definition sd_cmd_class : list Z := [
    0;  0;  0;  0;  0;  9; 10;  0;  0;  0;  0;  1;  0;  0;  0;  0;
    2;  2;  2;  2;  3;  3;  3;  3;  4;  4;  4;  4;  6;  6;  6;  6;
    5;  5; 10; 10; 10; 10;  5;  9;  9;  9;  7;  7;  7;  7;  7;  7;
    7;  7; 10;  7;  9;  9;  9;  8;  8; 10;  8;  8;  8;  8;  8;  8].
Definition sd_csd_rw_mask : list Z := [0; 0; 0; 0; 0; 0; 0; 0; 0; 0; 0; 0; 0; 0; 0xfc; 0xfe].

(** ** The state *)

Inductive sd_rsp_type_t := sd_r0 | sd_r1 | sd_r2_i | sd_r2_s | sd_r3 | sd_r6 | sd_r7 | sd_r1b.
Inductive sd_mode := sd_inactive | sd_card_identification_mode | sd_data_transfer_mode.
Inductive sd_state :=
| sd_inactive_state | sd_idle_state | sd_ready_state | sd_identification_state | sd_standby_state
| sd_transfer_state | sd_sendingdata_state | sd_receivingdata_state | sd_programming_state | sd_disconnect_state.
Definition state_number (st : sd_state) : Z :=
  match st with
  | sd_inactive_state => -1 | sd_idle_state => 0 | sd_ready_state => 1 | sd_identification_state => 2 | sd_standby_state => 3
  | sd_transfer_state => 4 | sd_sendingdata_state => 5 | sd_receivingdata_state => 6 | sd_programming_state => 7 | sd_disconnect_state => 8
  end.
#[global] Instance sd_state_eq_dec : EqDecision sd_state.
Proof. solve_decision. Defined.

Record SDRequest := mkReq { cmd : Z; arg : Z }.

Section state.
Context {B : Type}.

Record SDState := mkSD {
  mode : sd_mode; state : sd_state;
  ocr : Z; scr : list Z; cid : list Z; csd : list Z; rca : Z; card_status : Z; sd_status : list Z; vhs : Z;
  wp_switch : Z; wp_groups : list Z; sd_size : Z; blk_len : Z; erase_start : Z; erase_end : Z;
  pwd : list Z; pwd_len : Z; function_group : list Z;
  spi : bool; current_cmd : Z; blk_written : Z; data_start : Z; data_offset : Z; data : list Z;
  bdrv : option B; buf : list Z; enable : Z;
}.

Definition set_mode (s : SDState) (v : sd_mode) : SDState :=
  mkSD v (state s) (ocr s) (scr s) (cid s) (csd s) (rca s) (card_status s) (sd_status s) (vhs s) (wp_switch s) (wp_groups s)
    (sd_size s) (blk_len s) (erase_start s) (erase_end s) (pwd s) (pwd_len s) (function_group s) (spi s) (current_cmd s) (blk_written
    s) (data_start s) (data_offset s) (data s) (bdrv s) (buf s) (enable s).
Definition set_state (s : SDState) (v : sd_state) : SDState :=
  mkSD (mode s) v (ocr s) (scr s) (cid s) (csd s) (rca s) (card_status s) (sd_status s) (vhs s) (wp_switch s) (wp_groups s) (sd_size
    s) (blk_len s) (erase_start s) (erase_end s) (pwd s) (pwd_len s) (function_group s) (spi s) (current_cmd s) (blk_written s)
    (data_start s) (data_offset s) (data s) (bdrv s) (buf s) (enable s).
Definition set_ocr (s : SDState) (v : Z) : SDState :=
  mkSD (mode s) (state s) v (scr s) (cid s) (csd s) (rca s) (card_status s) (sd_status s) (vhs s) (wp_switch s) (wp_groups s)
    (sd_size s) (blk_len s) (erase_start s) (erase_end s) (pwd s) (pwd_len s) (function_group s) (spi s) (current_cmd s) (blk_written
    s) (data_start s) (data_offset s) (data s) (bdrv s) (buf s) (enable s).
Definition set_scr (s : SDState) (v : list Z) : SDState :=
  mkSD (mode s) (state s) (ocr s) v (cid s) (csd s) (rca s) (card_status s) (sd_status s) (vhs s) (wp_switch s) (wp_groups s)
    (sd_size s) (blk_len s) (erase_start s) (erase_end s) (pwd s) (pwd_len s) (function_group s) (spi s) (current_cmd s) (blk_written
    s) (data_start s) (data_offset s) (data s) (bdrv s) (buf s) (enable s).
Definition set_cid (s : SDState) (v : list Z) : SDState :=
  mkSD (mode s) (state s) (ocr s) (scr s) v (csd s) (rca s) (card_status s) (sd_status s) (vhs s) (wp_switch s) (wp_groups s)
    (sd_size s) (blk_len s) (erase_start s) (erase_end s) (pwd s) (pwd_len s) (function_group s) (spi s) (current_cmd s) (blk_written
    s) (data_start s) (data_offset s) (data s) (bdrv s) (buf s) (enable s).
Definition set_csd (s : SDState) (v : list Z) : SDState :=
  mkSD (mode s) (state s) (ocr s) (scr s) (cid s) v (rca s) (card_status s) (sd_status s) (vhs s) (wp_switch s) (wp_groups s)
    (sd_size s) (blk_len s) (erase_start s) (erase_end s) (pwd s) (pwd_len s) (function_group s) (spi s) (current_cmd s) (blk_written
    s) (data_start s) (data_offset s) (data s) (bdrv s) (buf s) (enable s).
Definition set_rca (s : SDState) (v : Z) : SDState :=
  mkSD (mode s) (state s) (ocr s) (scr s) (cid s) (csd s) v (card_status s) (sd_status s) (vhs s) (wp_switch s) (wp_groups s)
    (sd_size s) (blk_len s) (erase_start s) (erase_end s) (pwd s) (pwd_len s) (function_group s) (spi s) (current_cmd s) (blk_written
    s) (data_start s) (data_offset s) (data s) (bdrv s) (buf s) (enable s).
Definition set_card_status (s : SDState) (v : Z) : SDState :=
  mkSD (mode s) (state s) (ocr s) (scr s) (cid s) (csd s) (rca s) v (sd_status s) (vhs s) (wp_switch s) (wp_groups s) (sd_size s)
    (blk_len s) (erase_start s) (erase_end s) (pwd s) (pwd_len s) (function_group s) (spi s) (current_cmd s) (blk_written s)
    (data_start s) (data_offset s) (data s) (bdrv s) (buf s) (enable s).
Definition set_sd_status (s : SDState) (v : list Z) : SDState :=
  mkSD (mode s) (state s) (ocr s) (scr s) (cid s) (csd s) (rca s) (card_status s) v (vhs s) (wp_switch s) (wp_groups s) (sd_size s)
    (blk_len s) (erase_start s) (erase_end s) (pwd s) (pwd_len s) (function_group s) (spi s) (current_cmd s) (blk_written s)
    (data_start s) (data_offset s) (data s) (bdrv s) (buf s) (enable s).
Definition set_vhs (s : SDState) (v : Z) : SDState :=
  mkSD (mode s) (state s) (ocr s) (scr s) (cid s) (csd s) (rca s) (card_status s) (sd_status s) v (wp_switch s) (wp_groups s)
    (sd_size s) (blk_len s) (erase_start s) (erase_end s) (pwd s) (pwd_len s) (function_group s) (spi s) (current_cmd s) (blk_written
    s) (data_start s) (data_offset s) (data s) (bdrv s) (buf s) (enable s).
Definition set_wp_switch (s : SDState) (v : Z) : SDState :=
  mkSD (mode s) (state s) (ocr s) (scr s) (cid s) (csd s) (rca s) (card_status s) (sd_status s) (vhs s) v (wp_groups s) (sd_size s)
    (blk_len s) (erase_start s) (erase_end s) (pwd s) (pwd_len s) (function_group s) (spi s) (current_cmd s) (blk_written s)
    (data_start s) (data_offset s) (data s) (bdrv s) (buf s) (enable s).
Definition set_wp_groups (s : SDState) (v : list Z) : SDState :=
  mkSD (mode s) (state s) (ocr s) (scr s) (cid s) (csd s) (rca s) (card_status s) (sd_status s) (vhs s) (wp_switch s) v (sd_size s)
    (blk_len s) (erase_start s) (erase_end s) (pwd s) (pwd_len s) (function_group s) (spi s) (current_cmd s) (blk_written s)
    (data_start s) (data_offset s) (data s) (bdrv s) (buf s) (enable s).
Definition set_sd_size (s : SDState) (v : Z) : SDState :=
  mkSD (mode s) (state s) (ocr s) (scr s) (cid s) (csd s) (rca s) (card_status s) (sd_status s) (vhs s) (wp_switch s) (wp_groups s)
    v (blk_len s) (erase_start s) (erase_end s) (pwd s) (pwd_len s) (function_group s) (spi s) (current_cmd s) (blk_written s)
    (data_start s) (data_offset s) (data s) (bdrv s) (buf s) (enable s).
Definition set_blk_len (s : SDState) (v : Z) : SDState :=
  mkSD (mode s) (state s) (ocr s) (scr s) (cid s) (csd s) (rca s) (card_status s) (sd_status s) (vhs s) (wp_switch s) (wp_groups s)
    (sd_size s) v (erase_start s) (erase_end s) (pwd s) (pwd_len s) (function_group s) (spi s) (current_cmd s) (blk_written s)
    (data_start s) (data_offset s) (data s) (bdrv s) (buf s) (enable s).
Definition set_erase_start (s : SDState) (v : Z) : SDState :=
  mkSD (mode s) (state s) (ocr s) (scr s) (cid s) (csd s) (rca s) (card_status s) (sd_status s) (vhs s) (wp_switch s) (wp_groups s)
    (sd_size s) (blk_len s) v (erase_end s) (pwd s) (pwd_len s) (function_group s) (spi s) (current_cmd s) (blk_written s) (data_start
    s) (data_offset s) (data s) (bdrv s) (buf s) (enable s).
Definition set_erase_end (s : SDState) (v : Z) : SDState :=
  mkSD (mode s) (state s) (ocr s) (scr s) (cid s) (csd s) (rca s) (card_status s) (sd_status s) (vhs s) (wp_switch s) (wp_groups s)
    (sd_size s) (blk_len s) (erase_start s) v (pwd s) (pwd_len s) (function_group s) (spi s) (current_cmd s) (blk_written s)
    (data_start s) (data_offset s) (data s) (bdrv s) (buf s) (enable s).
Definition set_pwd (s : SDState) (v : list Z) : SDState :=
  mkSD (mode s) (state s) (ocr s) (scr s) (cid s) (csd s) (rca s) (card_status s) (sd_status s) (vhs s) (wp_switch s) (wp_groups s)
    (sd_size s) (blk_len s) (erase_start s) (erase_end s) v (pwd_len s) (function_group s) (spi s) (current_cmd s) (blk_written s)
    (data_start s) (data_offset s) (data s) (bdrv s) (buf s) (enable s).
Definition set_pwd_len (s : SDState) (v : Z) : SDState :=
  mkSD (mode s) (state s) (ocr s) (scr s) (cid s) (csd s) (rca s) (card_status s) (sd_status s) (vhs s) (wp_switch s) (wp_groups s)
    (sd_size s) (blk_len s) (erase_start s) (erase_end s) (pwd s) v (function_group s) (spi s) (current_cmd s) (blk_written s)
    (data_start s) (data_offset s) (data s) (bdrv s) (buf s) (enable s).
Definition set_function_group (s : SDState) (v : list Z) : SDState :=
  mkSD (mode s) (state s) (ocr s) (scr s) (cid s) (csd s) (rca s) (card_status s) (sd_status s) (vhs s) (wp_switch s) (wp_groups s)
    (sd_size s) (blk_len s) (erase_start s) (erase_end s) (pwd s) (pwd_len s) v (spi s) (current_cmd s) (blk_written s) (data_start s)
    (data_offset s) (data s) (bdrv s) (buf s) (enable s).
Definition set_spi (s : SDState) (v : bool) : SDState :=
  mkSD (mode s) (state s) (ocr s) (scr s) (cid s) (csd s) (rca s) (card_status s) (sd_status s) (vhs s) (wp_switch s) (wp_groups s)
    (sd_size s) (blk_len s) (erase_start s) (erase_end s) (pwd s) (pwd_len s) (function_group s) v (current_cmd s) (blk_written s)
    (data_start s) (data_offset s) (data s) (bdrv s) (buf s) (enable s).
Definition set_current_cmd (s : SDState) (v : Z) : SDState :=
  mkSD (mode s) (state s) (ocr s) (scr s) (cid s) (csd s) (rca s) (card_status s) (sd_status s) (vhs s) (wp_switch s) (wp_groups s)
    (sd_size s) (blk_len s) (erase_start s) (erase_end s) (pwd s) (pwd_len s) (function_group s) (spi s) v (blk_written s) (data_start
    s) (data_offset s) (data s) (bdrv s) (buf s) (enable s).
Definition set_blk_written (s : SDState) (v : Z) : SDState :=
  mkSD (mode s) (state s) (ocr s) (scr s) (cid s) (csd s) (rca s) (card_status s) (sd_status s) (vhs s) (wp_switch s) (wp_groups s)
    (sd_size s) (blk_len s) (erase_start s) (erase_end s) (pwd s) (pwd_len s) (function_group s) (spi s) (current_cmd s) v (data_start
    s) (data_offset s) (data s) (bdrv s) (buf s) (enable s).
Definition set_data_start (s : SDState) (v : Z) : SDState :=
  mkSD (mode s) (state s) (ocr s) (scr s) (cid s) (csd s) (rca s) (card_status s) (sd_status s) (vhs s) (wp_switch s) (wp_groups s)
    (sd_size s) (blk_len s) (erase_start s) (erase_end s) (pwd s) (pwd_len s) (function_group s) (spi s) (current_cmd s) (blk_written
    s) v (data_offset s) (data s) (bdrv s) (buf s) (enable s).
Definition set_data_offset (s : SDState) (v : Z) : SDState :=
  mkSD (mode s) (state s) (ocr s) (scr s) (cid s) (csd s) (rca s) (card_status s) (sd_status s) (vhs s) (wp_switch s) (wp_groups s)
    (sd_size s) (blk_len s) (erase_start s) (erase_end s) (pwd s) (pwd_len s) (function_group s) (spi s) (current_cmd s) (blk_written
    s) (data_start s) v (data s) (bdrv s) (buf s) (enable s).
Definition set_data (s : SDState) (v : list Z) : SDState :=
  mkSD (mode s) (state s) (ocr s) (scr s) (cid s) (csd s) (rca s) (card_status s) (sd_status s) (vhs s) (wp_switch s) (wp_groups s)
    (sd_size s) (blk_len s) (erase_start s) (erase_end s) (pwd s) (pwd_len s) (function_group s) (spi s) (current_cmd s) (blk_written
    s) (data_start s) (data_offset s) v (bdrv s) (buf s) (enable s).
Definition set_bdrv (s : SDState) (v : option B) : SDState :=
  mkSD (mode s) (state s) (ocr s) (scr s) (cid s) (csd s) (rca s) (card_status s) (sd_status s) (vhs s) (wp_switch s) (wp_groups s)
    (sd_size s) (blk_len s) (erase_start s) (erase_end s) (pwd s) (pwd_len s) (function_group s) (spi s) (current_cmd s) (blk_written
    s) (data_start s) (data_offset s) (data s) v (buf s) (enable s).
Definition set_buf (s : SDState) (v : list Z) : SDState :=
  mkSD (mode s) (state s) (ocr s) (scr s) (cid s) (csd s) (rca s) (card_status s) (sd_status s) (vhs s) (wp_switch s) (wp_groups s)
    (sd_size s) (blk_len s) (erase_start s) (erase_end s) (pwd s) (pwd_len s) (function_group s) (spi s) (current_cmd s) (blk_written
    s) (data_start s) (data_offset s) (data s) (bdrv s) v (enable s).
Definition set_enable (s : SDState) (v : Z) : SDState :=
  mkSD (mode s) (state s) (ocr s) (scr s) (cid s) (csd s) (rca s) (card_status s) (sd_status s) (vhs s) (wp_switch s) (wp_groups s)
    (sd_size s) (blk_len s) (erase_start s) (erase_end s) (pwd s) (pwd_len s) (function_group s) (spi s) (current_cmd s) (blk_written
    s) (data_start s) (data_offset s) (data s) (bdrv s) (buf s) v.
End state.
Arguments SDState : clear implicits.

(** ** Checksums *)

Definition crc7_bit (msg shift_reg bit : Z) : Z :=
  let shift_reg := u8 (Z.shiftl shift_reg 1) in
  if truth (Z.lxor (Z.shiftr shift_reg 7) (Z.land (Z.shiftr msg bit) 1)) then Z.lxor shift_reg 0x89 else shift_reg.
Definition crc7_byte (shift_reg msg : Z) : Z := fold_left (crc7_bit msg) [7; 6; 5; 4; 3; 2; 1; 0] shift_reg.
Definition sd_crc7 (message : list Z) : Z := fold_left crc7_byte message 0.

Definition crc16_bit (msg shift_reg bit : Z) : Z :=
  let shift_reg := u16 (Z.shiftl shift_reg 1) in
  if truth (Z.lxor (Z.shiftr shift_reg 15) (Z.land (Z.shiftr msg bit) 1)) then Z.lxor shift_reg 0x1011 else shift_reg.
(** [width << 1] words of 16 bits, as the host reads them from the bytes of the message. *)
Definition sd_crc16 (message : list Z) (width : Z) : res Z :=
  for_upto (Z.shiftl width 1) (λ i reg,
    lo ← aread message (2 * i);
    hi ← aread message (2 * i + 1);
    Ok (fold_left (crc16_bit (Z.lor lo (Z.shiftl hi 8))) [15; 14; 13; 12; 11; 10; 9; 8; 7; 6; 5; 4; 3; 2; 1; 0] reg)) 0.

Section card.
Context {B : Type} `{BlockDriver B}.
Local Notation SDState := (SDState B).

(** Flags of the card status are or-ed in and masked out. *)
Definition raise (s : SDState) (f : Z) : SDState := set_card_status s (Z.lor (card_status s) f).
Definition mask_out (s : SDState) (f : Z) : SDState := set_card_status s (Z.ldiff (card_status s) f).
Definition begin_data (s : SDState) (st : sd_state) (start : Z) : SDState :=
  set_data_offset (set_data_start (set_state s st) start) 0.

(** Shifting the number of the inactive state, -1, is undefined. *)
Definition sd_set_status (s : SDState) : res SDState :=
  let s := set_mode s match state s with
    | sd_inactive_state => sd_inactive
    | sd_idle_state | sd_ready_state | sd_identification_state => sd_card_identification_mode
    | _ => sd_data_transfer_mode
    end in
  let s := mask_out s CURRENT_STATE in
  if state_number (state s) <? 0 then Err Bad_shift else Ok (raise s (Z.shiftl (state_number (state s)) 9)).

Definition sd_set_ocr (s : SDState) : SDState := set_ocr s 0x80ffff00.
Definition sd_set_scr (s : SDState) : SDState := set_scr s [0; 0x2f; 0; 0; 0; 0; 0; 0].
(** The manufacturer is "XY", the product "QEMU!", made in February 2006. *)
Definition sd_set_cid (s : SDState) : SDState :=
  let c := [0xaa; 0x58; 0x59; 0x51; 0x45; 0x4d; 0x55; 0x21; 0x01; 0xde; 0xad; 0xbe; 0xef; (2006 - 2000) / 10; Z.lor (Z.shiftl (2006 mod 10) 4) 2] in
  set_cid s (c ++ [u8 (Z.lor (Z.shiftl (sd_crc7 c) 1) 1)]).
Definition sd_set_csd (s : SDState) (size : Z) : SDState :=
  let csize := u32 (Z.shiftr size (CMULT_SHIFT + HWBLOCK_SHIFT) - 1) in
  let sectsize := Z.shiftl 1 (SECTOR_SHIFT + 1) - 1 in
  let wpsize := Z.shiftl 1 (WPGROUP_SHIFT + 1) - 1 in
  if size <=? 0x40000000 then
    let c := [0x00; 0x26; 0x00; 0x5a; 0x5f;
      Z.lor 0x50 HWBLOCK_SHIFT;
      Z.lor 0xe0 (Z.land (Z.shiftr csize 10) 0x03);
      Z.land (Z.shiftr csize 2) 0xff;
      Z.lor 0x3f (Z.land (u32 (Z.shiftl csize 6)) 0xc0);
      Z.lor 0xfc (Z.shiftr (CMULT_SHIFT - 2) 1);
      Z.lor (Z.lor 0x40 (Z.land (Z.shiftl (CMULT_SHIFT - 2) 7) 0x80)) (Z.shiftr sectsize 1);
      Z.lor (Z.land (Z.shiftl sectsize 7) 0x80) wpsize;
      Z.lor 0x90 (Z.shiftr HWBLOCK_SHIFT 2);
      Z.lor 0x20 (Z.land (Z.shiftl HWBLOCK_SHIFT 6) 0xc0);
      0x00] in
    set_csd s (c ++ [u8 (Z.lor (Z.shiftl (sd_crc7 c) 1) 1)])
  else
    let size := u64 (Z.quot size (512 * 1024) - 1) in
    let s := set_csd s [0x40; 0x0e; 0x00; 0x32; 0x5b; 0x59; 0x00; Z.land (Z.shiftr size 16) 0xff; Z.land (Z.shiftr size 8) 0xff;
                        Z.land size 0xff; 0x7f; 0x80; 0x0a; 0x40; 0x00; 0x00] in
    set_ocr s (Z.lor (ocr s) (Z.shiftl 1 30)).
Definition sd_set_rca (s : SDState) : SDState := set_rca s (u16 (rca s + 0x4567)).
Definition sd_set_cardstatus (s : SDState) : SDState := set_card_status s 0x00000100.
Definition sd_set_sdstatus (s : SDState) : SDState := set_sd_status s (replicate 64 0).
(** The checksum of a command is not validated (the code returns before). *)
Definition sd_req_crc_validate (req : SDRequest) : Z := 0.

(** ** Responses *)

Definition be_word (v : Z) : list Z := [u8 (Z.shiftr v 24); u8 (Z.shiftr v 16); u8 (Z.shiftr v 8); u8 v].
Definition sd_response_r1_make (s : SDState) (last_status : Z) : list Z * SDState :=
  let mask := Z.lxor CARD_STATUS_B ILLEGAL_COMMAND in
  let status := Z.lor (Z.ldiff (card_status s) mask) (Z.land last_status mask) in
  (be_word status, set_card_status s (Z.land (card_status s) (Z.lor (u32 (Z.lnot CARD_STATUS_C)) APP_CMD))).
Definition sd_response_r3_make (s : SDState) : list Z := be_word (ocr s).
Definition sd_response_r6_make (s : SDState) : list Z :=
  let arg := rca s in
  let status := u16 (Z.lor (Z.lor (Z.land (Z.shiftr (card_status s) 8) 0xc000) (Z.land (Z.shiftr (card_status s) 6) 0x2000))
                     (Z.land (card_status s) 0x1fff)) in
  [u8 (Z.shiftr arg 8); u8 arg; u8 (Z.shiftr status 8); u8 status].
Definition sd_response_r7_make (s : SDState) : list Z := be_word (vhs s).

(** ** Reset, insertion *)

Definition sd_reset (s : SDState) (bs : option B) : SDState :=
  let sect := match bs with Some b => bdrv_get_geometry b | None => 0 end in
  let sect := u64 (Z.shiftl sect 9) in
  let size := u64 (sect + 1) in
  let sect := wp_group size + 1 in
  let s := set_rca (set_state s sd_idle_state) 0 in
  let s := sd_set_cid (sd_set_scr (sd_set_ocr s)) in
  let s := sd_set_sdstatus (sd_set_cardstatus (sd_set_csd s size)) in
  let s := set_bdrv s bs in
  let s := set_wp_switch s match bs with Some b => flag (bdrv_is_read_only b) | None => 0 end in
  let s := set_wp_groups s (replicate (Z.to_nat sect) 0) in
  let s := set_function_group s (replicate 6 0) in
  let s := set_erase_end (set_erase_start s 0) 0 in
  set_pwd_len (set_blk_len (set_sd_size s size) 0x200) 0.

(** The levels that are set on the board's lines. *)
Inductive sd_line := Inserted (level : Z) | Readonly (level : Z).
Definition CHANGE_MEDIA : Z := 0x01.
Definition sd_cardchange (reason : Z) (s : SDState) : res (SDState * list sd_line) :=
  if negb (truth (Z.land reason CHANGE_MEDIA)) then Ok (s, [])
  else
    b ← deref (bdrv s);
    if bdrv_is_inserted b
    then let s := sd_reset s (bdrv s) in Ok (s, [Inserted 1; Readonly (wp_switch s)])
    else Ok (s, [Inserted 0]).

(** [buf] is what the allocator returns; the rest of the memory is zeroed. *)
Definition sd_init (bs : option B) (is_spi : bool) (block : list Z) : SDState :=
  sd_reset (mkSD sd_inactive sd_idle_state 0 (replicate 8 0) (replicate 16 0) (replicate 16 0) 0 0 (replicate 64 0) 0 0 [] 0 0 0 0
    (replicate 16 0) 0 (replicate 6 0) is_spi 0 0 0 0 (replicate 512 0) None block 1) bs.
Definition sd_set_cb (s : SDState) : list sd_line :=
  [Readonly match bdrv s with Some b => flag (bdrv_is_read_only b) | None => 0 end;
   Inserted match bdrv s with Some b => flag (bdrv_is_inserted b) | None => 0 end].
Definition sd_data_ready (s : SDState) : Z := flag (bool_decide (state s = sd_sendingdata_state)).
Definition sd_enable (s : SDState) (e : Z) : SDState := set_enable s e.

(** ** Write protection, erasing, functions, locking *)

Definition sd_erase (s : SDState) : res SDState :=
  if negb (truth (erase_start s)) || negb (truth (erase_end s)) then Ok (raise s ERASE_SEQ_ERROR)
  else
    let start := wp_group (erase_start s) in
    let stop := wp_group (erase_end s) in
    c14 ← aread (csd s) 14;
    c ← awrite (csd s) 14 (Z.lor c14 0x40);
    let s := set_csd (set_erase_end (set_erase_start s 0) 0) c in
    for_upto (stop - start + 1) (λ i s, g ← aread (wp_groups s) (start + i); Ok (if truth g then raise s WP_ERASE_SKIP else s)) s.

Definition sd_wpbits (s : SDState) (addr : Z) : res Z :=
  let wpnum := u32 (wp_group addr) in
  for_upto 32 (λ i ret,
    if u64 (addr + i * WPGROUP_SIZE) <? sd_size s
    then g ← aread (wp_groups s) (u32 (wpnum + i)); Ok (if truth g then Z.lor ret (Z.shiftl 1 i) else ret)
    else Ok ret) 0.

Definition switch_step (arg i : Z) (s : SDState) : res SDState :=
  let mode := truth (Z.land arg 0x80000000) in
  let new_func := Z.land (Z.shiftr arg (i * 4)) 0x0f in
  g ← (if mode && negb (new_func =? 0x0f) then awrite (function_group s) i new_func else Ok (function_group s));
  d ← awrite (data s) (14 + Z.shiftr i 1) (u8 (Z.shiftl new_func (Z.land (i * 4) 4)));
  Ok (set_data (set_function_group s g) d).
Definition sd_function_switch (s : SDState) (arg : Z) : res SDState :=
  d ← memcpy (data s) 0 [0x00; 0x01; 0x80; 0x01; 0x80; 0x01; 0x80; 0x01; 0x80; 0x01; 0x80; 0x43; 0x80; 0x03] 0 14;
  s ← for_upto 6 (switch_step arg) (set_data s d);
  d ← memset (data s) 17 0 47;
  crc ← sd_crc16 d 64;
  d ← awrite d 65 (u8 (Z.shiftr crc 8));
  d ← awrite d 66 (Z.land crc 0xff);
  Ok (set_data s d).

(** The address is a parameter of 32 bits. *)
Definition sd_wp_addr (s : SDState) (addr : Z) : res Z := aread (wp_groups s) (wp_group (u32 addr)).

Definition lock_failed (s : SDState) : res SDState := Ok (raise s LOCK_UNLOCK_FAILED).
Definition force_erase (s : SDState) : res SDState :=
  w ← memset (wp_groups s) 0 0 (wp_group (sd_size s));
  c14 ← aread (csd s) 14;
  c ← awrite (csd s) 14 (Z.ldiff c14 0x10);
  Ok (set_pwd_len (mask_out (set_csd (set_wp_groups s w) c) CARD_IS_LOCKED) 0).
Definition sd_lock_command (s : SDState) : res SDState :=
  d0 ← aread (data s) 0;
  let erase := truth (Z.land d0 0x08) in
  let lock := truth (Z.land d0 0x04) in
  let clr_pwd := truth (Z.land d0 0x02) in
  let set_pwd_ := truth (Z.land d0 0x01) in
  n ← (if 1 <? blk_len s then aread (data s) 1 else Ok 0);
  let locked := truth (Z.land (card_status s) CARD_IS_LOCKED) in
  if erase then
    c14 ← aread (csd s) 14;
    if negb locked || (1 <? blk_len s) || set_pwd_ || clr_pwd || lock || truth (wp_switch s) || truth (Z.land c14 0x20)
    then lock_failed s else force_erase s
  else if (blk_len s <? 2 + n) || (n <=? pwd_len s) || (pwd_len s + 16 <? n) then lock_failed s
  else if truth (pwd_len s) && negb (bool_decide (take (Z.to_nat (pwd_len s)) (pwd s) = take (Z.to_nat (pwd_len s)) (drop 2 (data s)))) then lock_failed s
  else
    let n := n - pwd_len s in
    if (truth n && negb set_pwd_) || (clr_pwd && (set_pwd_ || lock)) || (lock && negb (truth (pwd_len s)) && negb set_pwd_) ||
       (negb set_pwd_ && negb clr_pwd && ((locked && lock) || (negb locked && negb lock))) then lock_failed s
    else
      s ← (if set_pwd_ then p ← memcpy (pwd s) 0 (data s) (2 + pwd_len s) n; Ok (set_pwd_len (set_pwd s p) n) else Ok s);
      let s := if clr_pwd then set_pwd_len s 0 else s in
      Ok (if lock then raise s CARD_IS_LOCKED else mask_out s CARD_IS_LOCKED).

(** ** Commands *)

Definition sd_result : Type := res (sd_rsp_type_t * SDState).
(** A command that is unknown, not implemented in SPI mode, or in a wrong state. *)
Definition illegal (s : SDState) : sd_result := Ok (sd_r0, raise s ILLEGAL_COMMAND).
(** The position of the lowest set bit, from 1. *)
Definition ffs (x : Z) : Z := if x =? 0 then 0 else 1 + Z.log2 (Z.land x (- x)).

(** The address of a block: counted in blocks on a high capacity card. *)
Definition block_addr (s : SDState) (arg : Z) : Z := if truth (Z.land (ocr s) (Z.shiftl 1 30)) then u64 (Z.shiftl arg 9) else arg.
Definition beyond (s : SDState) : bool := sd_size s <? u64 (data_start s + blk_len s).

(** Commands 0 to 8: reset and identification. *)
Definition sd_identification_command (s : SDState) (req : SDRequest) (rca_ : Z) : sd_result :=
  match cmd req with
  | 0 =>
      let r := if spi s then sd_r1 else sd_r0 in
      match state s with
      | sd_inactive_state => Ok (r, s)
      | _ => Ok (r, sd_reset (set_state s sd_idle_state) (bdrv s))
      end
  | 1 => if negb (spi s) then illegal s else Ok (sd_r1, set_state s sd_transfer_state)
  | 2 =>
      if spi s then illegal s else
      match state s with
      | sd_ready_state => Ok (sd_r2_i, set_state s sd_identification_state)
      | _ => illegal s
      end
  | 3 =>
      if spi s then illegal s else
      match state s with
      | sd_identification_state | sd_standby_state => Ok (sd_r6, sd_set_rca (set_state s sd_standby_state))
      | _ => illegal s
      end
  | 6 =>
      if spi s then illegal s else
      match mode s with
      | sd_data_transfer_mode => s ← sd_function_switch s (arg req); Ok (sd_r1, begin_data s sd_sendingdata_state 0)
      | _ => illegal s
      end
  | 7 =>
      if spi s then illegal s else
      match state s with
      | sd_standby_state => if negb (rca s =? rca_) then Ok (sd_r0, s) else Ok (sd_r1b, set_state s sd_transfer_state)
      | sd_transfer_state | sd_sendingdata_state => if rca s =? rca_ then illegal s else Ok (sd_r1b, set_state s sd_standby_state)
      | sd_disconnect_state => if negb (rca s =? rca_) then Ok (sd_r0, s) else Ok (sd_r1b, set_state s sd_programming_state)
      | sd_programming_state => if rca s =? rca_ then illegal s else Ok (sd_r1b, set_state s sd_disconnect_state)
      | _ => illegal s
      end
  | 8 =>
      match state s with
      | sd_idle_state =>
          let s := set_vhs s 0 in
          let refused := Ok (if spi s then sd_r7 else sd_r0, s) in
          if negb (truth (Z.shiftr (arg req) 8)) then refused
          else
            let k := ffs (Z.land (arg req) (u32 (Z.lnot 0xff))) in
            if 32 <=? k then Err Bad_shift
            else if truth (Z.shiftr (arg req) k) then refused
            else Ok (sd_r7, set_vhs s (arg req))
      | _ => illegal s
      end
  | _ => illegal s
  end.

(** Commands 9 to 15: registers, stopping, status. *)
Definition send_register (s : SDState) (reg : list Z) (r : sd_rsp_type_t) (addr rca_ : Z) : sd_result :=
  match state s with
  | sd_standby_state => if negb (rca s =? rca_) then Ok (sd_r0, s) else Ok (r, s)
  | sd_transfer_state =>
      if negb (spi s) then illegal s
      else d ← memcpy (data s) 0 reg 0 16; Ok (sd_r1, begin_data (set_data s d) sd_sendingdata_state addr)
  | _ => illegal s
  end.
Definition sd_register_command (s : SDState) (req : SDRequest) (addr rca_ : Z) : sd_result :=
  match cmd req with
  | 9 => send_register s (csd s) sd_r2_s addr rca_
  | 10 => send_register s (cid s) sd_r2_i addr rca_
  | 11 =>
      if spi s then illegal s else
      match state s with
      | sd_transfer_state =>
          let s := begin_data s sd_sendingdata_state (arg req) in
          Ok (sd_r0, if beyond s then raise s ADDRESS_ERROR else s)
      | _ => illegal s
      end
  | 12 =>
      match state s with
      | sd_sendingdata_state | sd_receivingdata_state => Ok (sd_r1b, set_state s sd_transfer_state)
      | _ => illegal s
      end
  | 13 =>
      match mode s with
      | sd_data_transfer_mode => if negb (rca s =? rca_) then Ok (sd_r0, s) else Ok (sd_r1, s)
      | _ => illegal s
      end
  | 15 =>
      if spi s then illegal s else
      match mode s with
      | sd_data_transfer_mode => if negb (rca s =? rca_) then Ok (sd_r0, s) else Ok (sd_r0, set_state s sd_inactive_state)
      | _ => illegal s
      end
  | _ => illegal s
  end.

(** In the transfer state only. *)
Definition in_transfer (s : SDState) (r : sd_result) : sd_result :=
  match state s with sd_transfer_state => r | _ => illegal s end.

(** Commands 16 to 27: blocks are read and written. *)
Definition start_reading (s : SDState) (addr : Z) : sd_result :=
  let s := begin_data s sd_sendingdata_state addr in
  Ok (sd_r1, if beyond s then raise s ADDRESS_ERROR else s).
Definition start_writing (s : SDState) (addr : Z) : sd_result :=
  let s := set_blk_written (begin_data s sd_receivingdata_state addr) 0 in
  let s := if beyond s then raise s ADDRESS_ERROR else s in
  w ← sd_wp_addr s (data_start s);
  let s := if truth w then raise s WP_VIOLATION else s in
  c14 ← aread (csd s) 14;
  Ok (sd_r1, if truth (Z.land c14 0x30) then raise s WP_VIOLATION else s).
Definition sd_block_command (s : SDState) (req : SDRequest) (addr : Z) : sd_result :=
  match cmd req with
  | 16 => in_transfer s (Ok (sd_r1, if Z.shiftl 1 HWBLOCK_SHIFT <? arg req then raise s BLOCK_LEN_ERROR else set_blk_len s (arg req)))
  | 17 | 18 => in_transfer s (start_reading s addr)
  | 24 | 25 => if spi s then illegal s else in_transfer s (start_writing s addr)
  | 26 | 27 => if spi s then illegal s else in_transfer s (Ok (sd_r1, begin_data s sd_receivingdata_state 0))
  | _ => illegal s
  end.

(** Commands 28 to 38: write protection, erasing. *)
Definition set_protection (s : SDState) (addr v : Z) : sd_result :=
  if sd_size s <=? addr then Ok (sd_r1b, set_card_status s ADDRESS_ERROR)
  else w ← awrite (wp_groups s) (wp_group addr) v; Ok (sd_r1b, set_state (set_wp_groups s w) sd_transfer_state).
(** A word stored at the start of the buffer by the host. *)
Definition le_word4 (v : Z) : list Z := [u8 v; u8 (Z.shiftr v 8); u8 (Z.shiftr v 16); u8 (Z.shiftr v 24)].
Definition sd_protect_command (s : SDState) (req : SDRequest) (addr : Z) : sd_result :=
  match cmd req with
  | 28 => in_transfer s (set_protection s addr 1)
  | 29 => in_transfer s (set_protection s addr 0)
  | 30 =>
      in_transfer s (b ← sd_wpbits s (arg req);
                     d ← memcpy (data s) 0 (le_word4 b) 0 4;
                     Ok (sd_r1b, begin_data (set_data s d) sd_sendingdata_state addr))
  | 32 => in_transfer s (Ok (sd_r1, set_erase_start s (arg req)))
  | 33 => in_transfer s (Ok (sd_r1, set_erase_end s (arg req)))
  | 38 =>
      in_transfer s (c14 ← aread (csd s) 14;
                     if truth (Z.land c14 0x30) then Ok (sd_r1b, raise s WP_VIOLATION)
                     else s ← sd_erase (set_state s sd_programming_state); Ok (sd_r1b, set_state s sd_transfer_state))
  | _ => illegal s
  end.

(** Commands 42 to 56: locking, application commands, general commands. *)
Definition sd_other_command (s : SDState) (req : SDRequest) (rca_ : Z) : sd_result :=
  match cmd req with
  | 42 => if spi s then illegal s else in_transfer s (Ok (sd_r1, begin_data s sd_receivingdata_state 0))
  | 55 => if negb (rca s =? rca_) then Ok (sd_r0, s) else Ok (sd_r1, raise s APP_CMD)
  | 56 =>
      in_transfer s (let s := set_data_offset s 0 in
                     Ok (sd_r1, set_state s (if truth (Z.land (arg req) 1) then sd_sendingdata_state else sd_receivingdata_state)))
  | _ => illegal s
  end.

Definition sd_normal_command (s : SDState) (req : SDRequest) : sd_result :=
  let addr := block_addr s (arg req) in
  t ← aread sd_cmd_type (cmd req);
  let rca_ := match t with sd_ac | sd_adtc => Z.shiftr (arg req) 16 | _ => 0 end in
  if cmd req <=? 8 then sd_identification_command s req rca_
  else if cmd req <=? 15 then sd_register_command s req addr rca_
  else if cmd req <=? 27 then sd_block_command s req addr
  else if cmd req <=? 38 then sd_protect_command s req addr
  else sd_other_command s req rca_.

(** An application command in a wrong state does not raise a flag. *)
Definition app_in_transfer (s : SDState) (r : sd_result) : sd_result :=
  match state s with sd_transfer_state => r | _ => Ok (sd_r0, s) end.
Definition sd_app_command (s : SDState) (req : SDRequest) : sd_result :=
  match cmd req with
  | 6 =>
      app_in_transfer s (v ← aread (sd_status s) 0;
                         l ← awrite (sd_status s) 0 (u8 (Z.lor (Z.land v 0x3f) (Z.shiftl (Z.land (arg req) 0x03) 6)));
                         Ok (sd_r1, set_sd_status s l))
  | 13 => app_in_transfer s (Ok (sd_r1, begin_data s sd_sendingdata_state 0))
  | 22 =>
      app_in_transfer s (d ← memcpy (data s) 0 (le_word4 (u32 (blk_written s))) 0 4;
                         Ok (sd_r1, begin_data (set_data s d) sd_sendingdata_state 0))
  | 23 => app_in_transfer s (Ok (sd_r1, s))
  | 41 =>
      if spi s then Ok (sd_r1, set_state s sd_transfer_state) else
      match state s with
      | sd_idle_state => Ok (sd_r3, if truth (arg req) then set_state s sd_ready_state else s)
      | _ => Ok (sd_r0, s)
      end
  | 42 => app_in_transfer s (Ok (sd_r1, s))
  | 51 => app_in_transfer s (Ok (sd_r1, begin_data s sd_sendingdata_state 0))
  | _ => sd_normal_command (mask_out s APP_CMD) req
  end.

(** No image, no medium in it, or the card disabled. *)
Definition absent (s : SDState) : bool :=
  match bdrv s with None => true | Some b => negb (bdrv_is_inserted b) || negb (truth (enable s)) end.

(** What a locked card refuses. *)
Definition lock_refuses (last_status : Z) (c : Z) : res bool :=
  if truth (Z.land last_status CARD_IS_LOCKED) then
    if truth (Z.land last_status APP_CMD) then Ok (c =? 41)
    else k ← aread sd_cmd_class c; Ok ((k =? 0) || (k =? 7) || (c =? 16) || (c =? 55))
  else Ok false.

Definition make_response (r : sd_rsp_type_t) (last_status : Z) (s : SDState) : list Z * SDState :=
  match r with
  | sd_r1 | sd_r1b => sd_response_r1_make s last_status
  | sd_r2_i => (cid s, s)
  | sd_r2_s => (csd s, s)
  | sd_r3 => (sd_response_r3_make s, s)
  | sd_r6 => (sd_response_r6_make s, s)
  | sd_r7 => (sd_response_r7_make s, s)
  | sd_r0 => ([], s)
  end.

(** The response: as many bytes as the length that is returned. *)
Definition sd_do_command (s : SDState) (req : SDRequest) : res (list Z * SDState) :=
  let last_status := card_status s in
  if absent s then Ok ([], s)
  else if truth (sd_req_crc_validate req) then Ok ([], mask_out s COM_CRC_ERROR)
  else
    s ← sd_set_status (mask_out s CARD_STATUS_B);
    refused ← lock_refuses last_status (cmd req);
    if refused : bool then Ok ([], raise s ILLEGAL_COMMAND)
    else
      '(r, s) ← (if truth (Z.land last_status APP_CMD)
                 then '(r, s) ← sd_app_command s req; Ok (r, mask_out s APP_CMD)
                 else sd_normal_command s req);
      let s := set_current_cmd s (cmd req) in
      let '(response, s) := make_response r last_status s in
      Ok (if truth (Z.land (card_status s) ILLEGAL_COMMAND) then [] else response, s).

(** ** Blocks *)

Definition sd_blk_read (s : SDState) (addr len : Z) : res SDState :=
  let stop := u64 (addr + len) in
  match bdrv s with
  | None => Ok s
  | Some b =>
      let '(r, m) := bdrv_read b (Z.shiftr addr 9) (buf s) in
      let s := set_buf s m in
      if r =? -1 then Ok s
      else if u64 (Z.ldiff addr 511 + 512) <? stop then
        d ← memcpy (data s) 0 (buf s) (Z.land addr 511) (512 - Z.land addr 511);
        let s := set_data s d in
        let '(r, m) := bdrv_read b (Z.shiftr stop 9) (buf s) in
        let s := set_buf s m in
        if r =? -1 then Ok s
        else d ← memcpy (data s) (512 - Z.land addr 511) (buf s) 0 (Z.land stop 511); Ok (set_data s d)
      else d ← memcpy (data s) 0 (buf s) (Z.land addr 511) len; Ok (set_data s d)
  end.

Definition write_sector (s : SDState) (b : B) (sector : Z) : Z * SDState :=
  let '(r, b) := bdrv_write b sector (buf s) in (r, set_bdrv s (Some b)).
Definition sd_blk_write (s : SDState) (addr len : Z) : res SDState :=
  let stop := u64 (addr + len) in
  let '(failed, s) :=
    if truth (Z.land addr 511) || (len <? 512) then
      match bdrv s with
      | None => (true, s)
      | Some b => let '(r, m) := bdrv_read b (Z.shiftr addr 9) (buf s) in (r =? -1, set_buf s m)
      end
    else (false, s) in
  if failed : bool then Ok s
  else if u64 (Z.ldiff addr 511 + 512) <? stop then
    m ← memcpy (buf s) (Z.land addr 511) (data s) 0 (512 - Z.land addr 511);
    b ← deref (bdrv s);
    let '(r, s) := write_sector (set_buf s m) b (Z.shiftr addr 9) in
    if r =? -1 then Ok s
    else
      b ← deref (bdrv s);
      let '(r, m) := bdrv_read b (Z.shiftr stop 9) (buf s) in
      let s := set_buf s m in
      if r =? -1 then Ok s
      else
        m ← memcpy (buf s) 0 (data s) (512 - Z.land addr 511) (Z.land stop 511);
        Ok (write_sector (set_buf s m) b (Z.shiftr stop 9)).2
  else
    m ← memcpy (buf s) (Z.land addr 511) (data s) 0 len;
    let s := set_buf s m in
    match bdrv s with None => Ok s | Some b => Ok (write_sector s b (Z.shiftr addr 9)).2 end.

(** ** Data *)

(** [sd->data[sd->data_offset ++] = value]. *)
Definition put_byte (s : SDState) (value : Z) : res SDState :=
  d ← awrite (data s) (data_offset s) value;
  Ok (set_data_offset (set_data s d) (u32 (data_offset s + 1))).
Definition written (s : SDState) : res SDState :=
  c14 ← aread (csd s) 14;
  c ← awrite (csd s) 14 (Z.lor c14 0x40);
  Ok (set_csd s c).
Definition write_block (s : SDState) : res SDState :=
  s ← sd_blk_write (set_state s sd_programming_state) (data_start s) (data_offset s);
  Ok (set_blk_written s (blk_written s + 1)).

Definition program_cid (s : SDState) : SDState :=
  let s := if forallb (λ p, p.1 =? p.2) (zip (cid s) (data s)) then s else raise s CID_CSD_OVERWRITE in
  if truth (Z.land (card_status s) CID_CSD_OVERWRITE) then s
  else set_cid s (zip_with Z.land (cid s) (data s)).
Definition program_csd (s : SDState) : res SDState :=
  let changed := λ '((c, m), d), Z.lor c m =? Z.lor d m in
  let s := if forallb changed (zip (zip (csd s) sd_csd_rw_mask) (data s)) then s else raise s CID_CSD_OVERWRITE in
  c14 ← aread (csd s) 14;
  d14 ← aread (data s) 14;
  let s := if truth (Z.land (Z.ldiff c14 d14) 0x60) then raise s CID_CSD_OVERWRITE else s in
  Ok (if truth (Z.land (card_status s) CID_CSD_OVERWRITE) then s
      else set_csd s (zip_with Z.land (zip_with Z.lor (csd s) sd_csd_rw_mask) (data s))).

Definition sd_write_data (s : SDState) (value : Z) : res SDState :=
  if absent s then Ok s
  else if negb (bool_decide (state s = sd_receivingdata_state)) then Ok s
  else if truth (Z.land (card_status s) (Z.lor ADDRESS_ERROR WP_VIOLATION)) then Ok s
  else
    match current_cmd s with
    | 24 =>
        s ← put_byte s value;
        if blk_len s <=? data_offset s
        then s ← write_block s; s ← written s; Ok (set_state s sd_transfer_state)
        else Ok s
    | 25 =>
        s ← put_byte s value;
        if blk_len s <=? data_offset s then
          s ← write_block s;
          let s := set_data_offset (set_data_start s (u64 (data_start s + blk_len s))) 0 in
          if beyond s then Ok (raise s ADDRESS_ERROR)
          else
            w ← sd_wp_addr s (data_start s);
            if truth w then Ok (raise s WP_VIOLATION)
            else s ← written s; Ok (set_state s sd_receivingdata_state)
        else Ok s
    | 26 =>
        s ← put_byte s value;
        Ok (if 16 <=? data_offset s then set_state (program_cid s) sd_transfer_state else s)
    | 27 =>
        s ← put_byte s value;
        if 16 <=? data_offset s then s ← program_csd s; Ok (set_state s sd_transfer_state) else Ok s
    | 42 =>
        s ← put_byte s value;
        if blk_len s <=? data_offset s then s ← sd_lock_command (set_state s sd_programming_state); Ok (set_state s sd_transfer_state) else Ok s
    | 56 =>
        s ← put_byte s value;
        Ok (if blk_len s <=? data_offset s then set_state s sd_transfer_state else s)
    | _ => Ok s
    end.

(** [ret = l[sd->data_offset ++]], after which [n] bytes end the transfer. *)
Definition get_byte (s : SDState) (l : list Z) : res (Z * SDState) :=
  v ← aread l (data_offset s);
  Ok (v, set_data_offset s (u32 (data_offset s + 1))).
Definition get_last (s : SDState) (l : list Z) (n : Z) : res (Z * SDState) :=
  '(v, s) ← get_byte s l;
  Ok (v, if n <=? data_offset s then set_state s sd_transfer_state else s).
(** A block is fetched with its first byte. *)
Definition fetch (s : SDState) (io_len : Z) : res SDState :=
  if data_offset s =? 0 then sd_blk_read s (data_start s) io_len else Ok s.
Definition read_on (s : SDState) (io_len : Z) : res (Z * SDState) :=
  s ← fetch s io_len;
  '(v, s) ← get_byte s (data s);
  if io_len <=? data_offset s then
    let s := set_data_offset (set_data_start s (u64 (data_start s + io_len))) 0 in
    Ok (v, if sd_size s <? u64 (data_start s + io_len) then raise s ADDRESS_ERROR else s)
  else Ok (v, s).

Definition sd_read_data (s : SDState) : res (Z * SDState) :=
  if absent s then Ok (0x00, s)
  else if negb (bool_decide (state s = sd_sendingdata_state)) then Ok (0x00, s)
  else if truth (Z.land (card_status s) (Z.lor ADDRESS_ERROR WP_VIOLATION)) then Ok (0x00, s)
  else
    let io_len := if truth (Z.land (ocr s) (Z.shiftl 1 30)) then 512 else blk_len s in
    match current_cmd s with
    | 6 => get_last s (data s) 64
    | 9 | 10 => get_last s (data s) 16
    | 11 | 18 => read_on s io_len
    | 13 => get_last s (sd_status s) 64
    | 17 => s ← fetch s io_len; get_last s (data s) io_len
    | 22 | 30 => get_last s (data s) 4
    | 51 => get_last s (scr s) 8
    | 56 =>
        s ← (if data_offset s =? 0 then d ← memset (data s) 0 0xec (blk_len s); Ok (set_data s d) else Ok s);
        get_last s (data s) (blk_len s)
    | _ => Ok (0x00, s)
    end.
End card.
