(* ===== verification/SdFacts.v ===== *)
(** * SdFacts: the card as an array of bytes, its registers, and what is not enforced

    Theory of [Sd]: for any block layer that keeps its laws, reading and writing blocks with
    commands and data bytes is reading and writing an array of bytes; the registers of the
    card describe the image; and the places where the code does not do what it means to. *)

From S2P Require Import Prelude Sd.
Local Open Scope Z_scope.

(** ** The block layer's promises *)

(** An inserted image of [bdrv_get_geometry] sectors of 512 bytes. *)
Class BlockLaws (B : Type) `{BlockDriver B} := {
  sector : B → Z → list Z;
  sector_length b k : 0 <= k < bdrv_get_geometry b → length (sector b k) = 512%nat;
  read_length b k m : length m = 512%nat → length (bdrv_read b k m).2 = 512%nat;
  read_sector b k m :
    bdrv_is_inserted b = true → length m = 512%nat → 0 <= k < bdrv_get_geometry b → bdrv_read b k m = (0, sector b k);
  write_keeps b k m b' :
    (bdrv_write b k m).2 = b' →
    bdrv_get_geometry b' = bdrv_get_geometry b ∧ bdrv_is_inserted b' = bdrv_is_inserted b ∧ bdrv_is_read_only b' = bdrv_is_read_only b;
  write_sector_ok b k m :
    bdrv_is_inserted b = true → bdrv_is_read_only b = false → length m = 512%nat → 0 <= k < bdrv_get_geometry b →
    (bdrv_write b k m).1 = 0 ∧ ∀ j, 0 <= j → sector (bdrv_write b k m).2 j = if j =? k then m else sector b j;
}.

(** The image as bytes. *)
Definition byte_at {B} `{BlockLaws B} (b : B) (a : Z) : Z := default 0 (sector b (a / 512) !! Z.to_nat (a mod 512)).
(** [n] values of a function of addresses from [a] on. *)
Definition stretch (f : Z → Z) (a : Z) (n : nat) : list Z := (λ i, f (a + Z.of_nat i)) <$> seq 0 n.

(** ** Memory *)

Lemma memcpy_in dst d src s n :
  0 <= d → 0 <= s → 0 <= n → d + n <= Z.of_nat (length dst) → s + n <= Z.of_nat (length src) →
  memcpy dst d src s n = Ok (take (Z.to_nat d) dst ++ take (Z.to_nat n) (drop (Z.to_nat s) src) ++ drop (Z.to_nat (d + n)) dst).
Proof. intros. unfold memcpy. by rewrite !(proj2 (Z.leb_le _ _)) by lia. Qed.

Lemma memcpy_length dst d src s n l : memcpy dst d src s n = Ok l → length l = length dst.
Proof.
  unfold memcpy. destruct (0 <=? d) eqn:E1, (0 <=? s) eqn:E2, (0 <=? n) eqn:E3, (d + n <=? _) eqn:E4, (s + n <=? _) eqn:E5; try done. bool_to_prop.
  intros [= <-]. rewrite !length_app, !length_take, !length_drop. lia.
Qed.

(** The cell [i] after a copy. *)
Lemma memcpy_lookup dst d src s n l i :
  memcpy dst d src s n = Ok l → 0 <= i →
  l !! Z.to_nat i = if (d <=? i) && (i <? d + n) then src !! Z.to_nat (s + (i - d)) else dst !! Z.to_nat i.
Proof.
  unfold memcpy. destruct (0 <=? d) eqn:E1, (0 <=? s) eqn:E2, (0 <=? n) eqn:E3, (d + n <=? _) eqn:E4, (s + n <=? _) eqn:E5; try done. bool_to_prop.
  intros [= <-] Hi. destruct (Z.leb_spec d i), (Z.ltb_spec i (d + n)); cbn [andb]; try lia.
  - rewrite lookup_app_r by (rewrite length_take; lia). rewrite length_take.
    rewrite lookup_app_l by (rewrite length_take, length_drop; lia). rewrite lookup_take_lt by lia. rewrite lookup_drop. f_equal. lia.
  - rewrite lookup_app_r by (rewrite length_take; lia). rewrite length_take.
    rewrite lookup_app_r by (rewrite length_take, length_drop; lia). rewrite length_take, length_drop, lookup_drop. f_equal. lia.
  - rewrite lookup_app_l by (rewrite length_take; lia). by rewrite lookup_take_lt by lia.
Qed.

Lemma stretch_length f a n : length (stretch f a n) = n.
Proof. unfold stretch. by rewrite length_fmap, length_seq. Qed.
Lemma stretch_lookup f a n i : (i < n)%nat → stretch f a n !! i = Some (f (a + Z.of_nat i)).
Proof. intros Hi. unfold stretch. by rewrite list_lookup_fmap, lookup_seq_lt by lia. Qed.
Lemma stretch_ext f g a n : (∀ x, a <= x < a + Z.of_nat n → f x = g x) → stretch f a n = stretch g a n.
Proof. intros E. apply list_fmap_ext. intros i j [-> ?]%lookup_seq. apply E. lia. Qed.
Lemma stretch_S f a n : stretch f a (S n) = f a :: stretch f (a + 1) n.
Proof.
  unfold stretch. cbn [seq fmap list_fmap]. f_equal; [f_equal; lia|]. rewrite <- (fmap_S_seq 0 n), <- list_fmap_compose.
  apply list_fmap_ext. intros i j _. unfold compose. f_equal. lia.
Qed.

Ltac sd_simp := cbn [mode state ocr scr cid csd rca card_status sd_status vhs wp_switch wp_groups sd_size blk_len erase_start erase_end pwd pwd_len
  function_group spi current_cmd blk_written data_start data_offset data bdrv buf enable set_mode set_state set_ocr set_scr set_cid set_csd set_rca
  set_card_status set_sd_status set_vhs set_wp_switch set_wp_groups set_sd_size set_blk_len set_erase_start set_erase_end set_pwd set_pwd_len
  set_function_group set_spi set_current_cmd set_blk_written set_data_start set_data_offset set_data set_bdrv set_buf set_enable raise mask_out begin_data
  mbind res_bind fst snd] in *.

Section blocks.
Context {B : Type} {DB : BlockDriver B} {LB : BlockLaws B}.
Implicit Types (s : SDState B) (b : B).

Lemma addr_split addr : 0 <= addr → Z.land addr 511 = addr mod 512 ∧ Z.shiftr addr 9 = addr / 512 ∧ Z.ldiff addr 511 = addr - addr mod 512.
Proof.
  intros Ha. change 511 with (Z.ones 9) at 1 2. rewrite Z.land_ones, Z.shiftr_div_pow2 by lia. change (2 ^ 9) with 512. split; [done|]. split; [done|].
  change 511 with (Z.ones 9). rewrite Z.ldiff_ones_r by lia.
  rewrite Z.shiftl_mul_pow2, Z.shiftr_div_pow2 by lia. change (2 ^ 9) with 512. pose proof (Z.div_mod addr 512). lia.
Qed.

(** A block is read into the buffer of the card. *)
Lemma blk_read_ok s b addr len :
  bdrv s = Some b → bdrv_is_inserted b = true → 0 <= bdrv_get_geometry b < 2 ^ 32 → length (buf s) = 512%nat → length (data s) = 512%nat →
  0 <= addr → 0 <= len <= 512 → addr + len <= 512 * bdrv_get_geometry b → addr < 512 * bdrv_get_geometry b →
  ∃ d m, sd_blk_read s addr len = Ok (set_buf (set_data s d) m) ∧ length d = 512%nat ∧ length m = 512%nat ∧
    ∀ i, 0 <= i < len → d !! Z.to_nat i = Some (byte_at b (addr + i)).
Proof.
  intros Hb Hins Hg Hbuf Hdata Ha Hl Hr Hr'. destruct (addr_split addr Ha) as (El & Es & Ed).
  destruct (addr_split (addr + len) ltac:(lia)) as (El' & Es' & _).
  pose proof (Z.div_mod addr 512 ltac:(lia)). pose proof (Z.mod_pos_bound addr 512 ltac:(lia)).
  assert (0 <= addr / 512 < bdrv_get_geometry b) as Hk by (split; [apply Z.div_pos; lia|apply Z.div_lt_upper_bound; lia]).
  unfold sd_blk_read. rewrite Hb, El, Es, Ed. rewrite (u64_small (addr + len)), (u64_small (addr - addr mod 512 + 512)) by lia.
  rewrite (read_sector b) by done. cbn [Z.eqb]. pose proof (sector_length b _ Hk) as Hsl.
  assert (∀ i, 0 <= i → addr mod 512 + i < 512 → sector b (addr / 512) !! Z.to_nat (addr mod 512 + i) = Some (byte_at b (addr + i))) as Hbyte.
  { intros i Hi Hlt. unfold byte_at. replace ((addr + i) / 512) with (addr / 512) by (apply (Z.div_unique _ _ _ (addr mod 512 + i)); lia).
    replace ((addr + i) mod 512) with (addr mod 512 + i) by (apply (Z.mod_unique _ _ (addr / 512)); lia).
    destruct (lookup_lt_is_Some_2 (sector b (addr / 512)) (Z.to_nat (addr mod 512 + i)) ltac:(lia)) as [x ->]. done. }
  destruct (Z.ltb_spec (addr - addr mod 512 + 512) (addr + len)) as [Hx|Hx].
  - assert ((addr + len) / 512 = addr / 512 + 1) as Eq by (symmetry; apply (Z.div_unique _ _ _ (addr mod 512 + len - 512)); lia).
    assert ((addr + len) mod 512 = addr mod 512 + len - 512) as Em by (symmetry; apply (Z.mod_unique _ _ (addr / 512 + 1)); lia).
    assert (0 <= addr / 512 + 1 < bdrv_get_geometry b) as Hk' by lia. pose proof (sector_length b _ Hk') as Hsl'.
    sd_simp. rewrite memcpy_in by lia. set (d := _ ++ _ ++ _). assert (memcpy (data s) 0 (sector b (addr / 512)) (addr mod 512) (512 - addr mod 512) = Ok d) as Hd by (by apply memcpy_in; lia).
    pose proof (memcpy_length _ _ _ _ _ _ Hd) as Ld. sd_simp. rewrite El', Es', Eq, Em, (read_sector b) by done. cbn [Z.eqb].
    destruct (memcpy d (512 - addr mod 512) (sector b (addr / 512 + 1)) 0 (addr mod 512 + len - 512)) as [d'|] eqn:Hd'; [|by rewrite memcpy_in in Hd' by lia].
    exists d', (sector b (addr / 512 + 1)). split; [done|]. pose proof (memcpy_length _ _ _ _ _ _ Hd'). split; [lia|]. split; [done|].
    intros i Hi. rewrite (memcpy_lookup _ _ _ _ _ _ _ Hd') by lia. destruct (Z.leb_spec (512 - addr mod 512) i).
    + rewrite (proj2 (Z.ltb_lt _ _)) by lia. cbn [andb]. unfold byte_at.
      replace ((addr + i) / 512) with (addr / 512 + 1) by (apply (Z.div_unique _ _ _ (addr mod 512 + i - 512)); lia).
      replace ((addr + i) mod 512) with (0 + (i - (512 - addr mod 512))) by (apply (Z.mod_unique _ _ (addr / 512 + 1)); lia).
      destruct (lookup_lt_is_Some_2 (sector b (addr / 512 + 1)) (Z.to_nat (0 + (i - (512 - addr mod 512)))) ltac:(lia)) as [x ->]. done.
    + cbn [andb]. rewrite (memcpy_lookup _ _ _ _ _ _ _ Hd) by lia. rewrite (proj2 (Z.leb_le _ _)), (proj2 (Z.ltb_lt _ _)) by lia. cbn [andb].
      rewrite Z.sub_0_r. apply Hbyte; lia.
  - sd_simp. destruct (memcpy (data s) 0 (sector b (addr / 512)) (addr mod 512) len) as [d|] eqn:Hd; [|by rewrite memcpy_in in Hd by lia].
    exists d, (sector b (addr / 512)). split; [done|]. pose proof (memcpy_length _ _ _ _ _ _ Hd). split; [lia|]. split; [done|].
    intros i Hi. rewrite (memcpy_lookup _ _ _ _ _ _ _ Hd) by lia. rewrite (proj2 (Z.leb_le _ _)), (proj2 (Z.ltb_lt _ _)) by lia. cbn [andb].
    rewrite Z.sub_0_r. apply Hbyte; lia.
Qed.

(** A sector is written from a buffer that holds its contents but for [n] bytes. *)
Lemma put_sector b k base off src soff n m :
  bdrv_is_inserted b = true → bdrv_is_read_only b = false → 0 <= k < bdrv_get_geometry b → length base = 512%nat →
  memcpy base off src soff n = Ok m → 0 <= off → base = sector b k ∨ off = 0 ∧ n = 512 →
  ∃ b', bdrv_write b k m = (0, b') ∧ bdrv_get_geometry b' = bdrv_get_geometry b ∧ bdrv_is_inserted b' = true ∧ bdrv_is_read_only b' = false ∧
    ∀ a, 0 <= a → byte_at b' a = if (512 * k + off <=? a) && (a <? 512 * k + off + n) then default 0 (src !! Z.to_nat (soff + (a - (512 * k + off)))) else byte_at b a.
Proof.
  intros Hins Hro Hk Hlen Hm Hoff Hbase. pose proof (memcpy_length _ _ _ _ _ _ Hm) as Lm.
  destruct (write_sector_ok b k m Hins Hro ltac:(lia) Hk) as [H0 Hs]. destruct (write_keeps b k m _ eq_refl) as (Hg & Hi & Hr).
  destruct (bdrv_write b k m) as [r b'] eqn:Hw. cbn [fst snd] in *. subst r. exists b'. split; [done|]. split; [done|].
  split; [by rewrite Hi|]. split; [by rewrite Hr|].
  assert (off + n <= 512) as Hon. { unfold memcpy in Hm. destruct (off + n <=? _) eqn:E; [bool_to_prop; lia|]. by rewrite !andb_false_r in Hm. }
  intros a Ha. pose proof (Z.div_mod a 512 ltac:(lia)). pose proof (Z.mod_pos_bound a 512 ltac:(lia)). unfold byte_at. rewrite Hs by (apply Z.div_pos; lia). destruct (Z.eqb_spec (a / 512) k) as [Ek|Ek].
  - rewrite (memcpy_lookup _ _ _ _ _ _ _ Hm) by lia. destruct (Z.leb_spec off (a mod 512)), (Z.ltb_spec (a mod 512) (off + n)); cbn [andb].
    + rewrite (proj2 (Z.leb_le _ _)), (proj2 (Z.ltb_lt _ _)) by lia. cbn [andb]. do 2 f_equal. lia.
    + rewrite (proj2 (Z.ltb_ge a _)) by lia. rewrite andb_false_r. destruct Hbase as [->|[-> ->]]; [by rewrite Ek|lia].
    + rewrite (proj2 (Z.leb_gt _ a)) by lia. cbn [andb]. destruct Hbase as [->|[-> ->]]; [by rewrite Ek|lia].
    + rewrite (proj2 (Z.leb_gt _ a)) by lia. cbn [andb]. destruct Hbase as [->|[-> ->]]; [by rewrite Ek|lia].
  - destruct (Z.leb_spec (512 * k + off) a), (Z.ltb_spec a (512 * k + off + n)); cbn [andb]; try done.
    exfalso. apply Ek. symmetry. apply (Z.div_unique _ _ _ (a - 512 * k)); lia.
Qed.

(** A block is written from the buffer of the card: those bytes of the image change. *)
Lemma blk_write_ok s b addr len :
  bdrv s = Some b → bdrv_is_inserted b = true → bdrv_is_read_only b = false → 0 <= bdrv_get_geometry b < 2 ^ 32 → length (buf s) = 512%nat → length (data s) = 512%nat →
  0 <= addr → 0 < len <= 512 → addr + len <= 512 * bdrv_get_geometry b →
  ∃ b' m, sd_blk_write s addr len = Ok (set_bdrv (set_buf s m) (Some b')) ∧ length m = 512%nat ∧
    bdrv_get_geometry b' = bdrv_get_geometry b ∧ bdrv_is_inserted b' = true ∧ bdrv_is_read_only b' = false ∧
    ∀ a, 0 <= a → byte_at b' a = if (addr <=? a) && (a <? addr + len) then default 0 (data s !! Z.to_nat (a - addr)) else byte_at b a.
Proof.
  intros Hb Hins Hro Hg Hbuf Hdata Ha Hl Hr. destruct (addr_split addr Ha) as (El & Es & Ed).
  destruct (addr_split (addr + len) ltac:(lia)) as (El' & Es' & _).
  pose proof (Z.div_mod addr 512 ltac:(lia)). pose proof (Z.mod_pos_bound addr 512 ltac:(lia)).
  assert (0 <= addr / 512 < bdrv_get_geometry b) as Hk by (split; [apply Z.div_pos; lia|apply Z.div_lt_upper_bound; lia]).
  unfold sd_blk_write. rewrite Hb, El, Es, Ed. rewrite (u64_small (addr + len)), (u64_small (addr - addr mod 512 + 512)) by lia.
  rewrite (read_sector b) by done. cbn [Z.eqb]. pose proof (sector_length b _ Hk) as Hsl.
  set (base := if truth (addr mod 512) || (len <? 512) then sector b (addr / 512) else buf s).
  assert (length base = 512%nat) as Lb by (unfold base; by destruct (_ || _)).
  assert (base = sector b (addr / 512) ∨ addr mod 512 = 0 ∧ len = 512) as Hbase.
  { unfold base, truth. destruct (Z.eqb_spec (addr mod 512) 0), (Z.ltb_spec len 512); cbn [negb orb]; [by left|right; lia|by left..]. }
  replace (if truth (addr mod 512) || (len <? 512) then (false, set_buf s (sector b (addr / 512))) else (false, s)) with (false, set_buf s base)
    by (unfold base; destruct (_ || _); [done|]; by destruct s). cbv iota beta.
  destruct (Z.ltb_spec (addr - addr mod 512 + 512) (addr + len)) as [Hx|Hx].
  - assert ((addr + len) / 512 = addr / 512 + 1) as Eq by (symmetry; apply (Z.div_unique _ _ _ (addr mod 512 + len - 512)); lia).
    assert ((addr + len) mod 512 = addr mod 512 + len - 512) as Em by (symmetry; apply (Z.mod_unique _ _ (addr / 512 + 1)); lia).
    assert (0 <= addr / 512 + 1 < bdrv_get_geometry b) as Hk' by lia. sd_simp.
    destruct (memcpy base (addr mod 512) (data s) 0 (512 - addr mod 512)) as [m|] eqn:Hm; [|by rewrite memcpy_in in Hm by lia]. sd_simp. rewrite Hb. cbn [deref].
    destruct (put_sector b (addr / 512) base (addr mod 512) (data s) 0 (512 - addr mod 512) m) as (b1 & W1 & G1 & I1 & R1 & B1); [done..|lia| |].
    { destruct Hbase as [Hbase|[? ?]]; [by left|lia]. }
    unfold write_sector at 1. sd_simp. rewrite W1. sd_simp. cbn [Z.eqb deref]. sd_simp. rewrite El', Es', Eq, Em.
    pose proof (memcpy_length _ _ _ _ _ _ Hm). rewrite <- G1 in Hk'. pose proof (sector_length b1 _ Hk') as Hsl'. rewrite (read_sector b1) by (done || lia). cbn [Z.eqb].
    destruct (memcpy (sector b1 (addr / 512 + 1)) 0 (data s) (512 - addr mod 512) (addr mod 512 + len - 512)) as [m2|] eqn:Hm2; [|by rewrite memcpy_in in Hm2 by lia]. sd_simp.
    destruct (put_sector b1 (addr / 512 + 1) (sector b1 (addr / 512 + 1)) 0 (data s) (512 - addr mod 512) (addr mod 512 + len - 512) m2) as (b2 & W2 & G2 & I2 & R2 & B2); [done..| |by left|].
    { lia. }
    unfold write_sector. sd_simp. rewrite W2. sd_simp. exists b2, m2. split; [done|]. pose proof (memcpy_length _ _ _ _ _ _ Hm2). split; [lia|]. split; [lia|].
    split; [done|]. split; [done|]. intros a Ha0. rewrite B2, B1 by done.
    destruct (Z.leb_spec addr a), (Z.ltb_spec a (addr + len)), (Z.leb_spec (512 * (addr / 512 + 1) + 0) a), (Z.ltb_spec a (512 * (addr / 512 + 1) + 0 + (addr mod 512 + len - 512))); cbn [andb]; try lia;
      destruct (Z.leb_spec (512 * (addr / 512) + addr mod 512) a), (Z.ltb_spec a (512 * (addr / 512) + addr mod 512 + (512 - addr mod 512))); cbn [andb]; try lia; try done; do 2 f_equal; lia.
  - sd_simp. destruct (memcpy base (addr mod 512) (data s) 0 len) as [m|] eqn:Hm; [|by rewrite memcpy_in in Hm by lia]. sd_simp. rewrite Hb.
    destruct (put_sector b (addr / 512) base (addr mod 512) (data s) 0 len m) as (b1 & W1 & G1 & I1 & R1 & B1); [done..|lia| |].
    { destruct Hbase as [Hbase|[? ?]]; [by left|right; lia]. }
    unfold write_sector. sd_simp. rewrite W1. sd_simp. exists b1, m. split; [done|]. pose proof (memcpy_length _ _ _ _ _ _ Hm). split; [lia|]. split; [done|]. split; [done|]. split; [done|].
    intros a Ha0. rewrite B1 by done. replace (512 * (addr / 512) + addr mod 512) with addr by lia. destruct (Z.leb_spec addr a), (Z.ltb_spec a (addr + len)); cbn [andb]; done.
Qed.
End blocks.

(** ** Commands in the transfer state *)

(** The host reads and writes data bytes. *)
Fixpoint read_bytes {B} `{BlockDriver B} (n : nat) (s : SDState B) : res (list Z * SDState B) :=
  match n with O => Ok ([], s) | S n => '(v, s) ← sd_read_data s; '(l, s) ← read_bytes n s; Ok (v :: l, s) end.
Fixpoint write_bytes {B} `{BlockDriver B} (l : list Z) (s : SDState B) : res (SDState B) :=
  match l with [] => Ok s | v :: l => s ← sd_write_data s v; write_bytes l s end.

(** What the host does with the card: one block length, one block, several blocks until
    the transmission is stopped, or a block written. *)
Inductive card_op := SetLen (n : Z) | ReadBlock (a : Z) | ReadBlocks (a : Z) (k : nat) | WriteBlock (a : Z) (l : list Z).

(** The length of a block that is read: 512 on a high capacity card. *)
Definition io_len {B} (s : SDState B) : Z := if truth (Z.land (ocr s) (Z.shiftl 1 30)) then 512 else blk_len s.

Definition host_op {B} `{BlockDriver B} (op : card_op) (s : SDState B) : res (list Z * SDState B) :=
  match op with
  | SetLen n => '(_, s) ← sd_do_command s (mkReq 16 n); Ok ([], s)
  | ReadBlock a => '(_, s) ← sd_do_command s (mkReq 17 a); read_bytes (Z.to_nat (io_len s)) s
  | ReadBlocks a k =>
      '(_, s) ← sd_do_command s (mkReq 18 a);
      '(l, s) ← read_bytes (k * Z.to_nat (io_len s)) s;
      '(_, s) ← sd_do_command s (mkReq 12 0);
      Ok (l, s)
  | WriteBlock a l => '(_, s) ← sd_do_command s (mkReq 24 a); s ← write_bytes l s; Ok ([], s)
  end.
Fixpoint host_run {B} `{BlockDriver B} (ops : list card_op) (s : SDState B) : res (list (list Z) * SDState B) :=
  match ops with [] => Ok ([], s) | op :: ops => '(l, s) ← host_op op s; '(ls, s) ← host_run ops s; Ok (l :: ls, s) end.

(** The specification: an array of bytes and a block length. *)
Record abs_card := mkCard { bytes : Z → Z; blen : Z }.
Definition address (hc : bool) (a : Z) : Z := if hc then 512 * a else a.
Definition abs_op (hc : bool) (op : card_op) (c : abs_card) : list Z * abs_card :=
  match op with
  | SetLen n => ([], mkCard (bytes c) n)
  | ReadBlock a => (stretch (bytes c) (address hc a) (Z.to_nat (blen c)), c)
  | ReadBlocks a k => (stretch (bytes c) (address hc a) (k * Z.to_nat (blen c)), c)
  | WriteBlock a l =>
      let a := address hc a in
      ([], mkCard (λ x, if (a <=? x) && (x <? a + blen c) then default 0 (l !! Z.to_nat (x - a)) else bytes c x) (blen c))
  end.
Fixpoint abs_card_run (hc : bool) (ops : list card_op) (c : abs_card) : list (list Z) * abs_card :=
  match ops with [] => ([], c) | op :: ops => let '(l, c) := abs_op hc op c in let '(ls, c) := abs_card_run hc ops c in (l :: ls, c) end.

(** Blocks within an image of [total] bytes; a high capacity card keeps to 512. *)
Definition op_valid (hc : bool) (total : Z) (op : card_op) (n : Z) : Prop :=
  match op with
  | SetLen m => 0 < m <= 512 ∧ (hc = true → m = 512)
  | ReadBlock a => 0 <= a < 2 ^ 32 ∧ address hc a + n <= total
  | ReadBlocks a k => 0 <= a < 2 ^ 32 ∧ (0 < k)%nat ∧ address hc a + Z.of_nat k * n <= total
  | WriteBlock a l => 0 <= a < 2 ^ 32 ∧ Z.of_nat (length l) = n ∧ address hc a + n <= total
  end.
Fixpoint ops_valid (hc : bool) (total : Z) (ops : list card_op) (c : abs_card) : Prop :=
  match ops with [] => True | op :: ops => op_valid hc total op (blen c) ∧ ops_valid hc total ops (abs_op hc op c).2 end.

Definition mode_of (st : sd_state) : sd_mode :=
  match st with
  | sd_inactive_state => sd_inactive
  | sd_idle_state | sd_ready_state | sd_identification_state => sd_card_identification_mode
  | _ => sd_data_transfer_mode
  end.
(** A status with no flag but [READY_FOR_DATA], and some state. *)
Definition calm (cs : Z) : Prop := ∃ k, 0 <= k < 16 ∧ cs = 0x100 + 512 * k.

Section ready.
Context {B : Type} {DB : BlockDriver B} (sp : bool).

(** A card with an image [b], block length [n], of high capacity or not, on an SPI bus or
    not. *)
Record present (b : B) (n : Z) (hc : bool) (s : SDState B) : Prop := {
  pr_bdrv : bdrv s = Some b;
  pr_inserted : bdrv_is_inserted b = true;
  pr_geometry : 0 <= bdrv_get_geometry b < 2 ^ 32;
  pr_enable : enable s <> 0;
  pr_data : length (data s) = 512%nat;
  pr_buf : length (buf s) = 512%nat;
  pr_csd : length (csd s) = 16%nat;
  pr_size : sd_size s = 512 * bdrv_get_geometry b + 1;
  pr_groups : Z.of_nat (length (wp_groups s)) = wp_group (sd_size s) + 1;
  pr_len : blk_len s = n;
  pr_range : 0 < n <= 512;
  pr_hc : truth (Z.land (ocr s) (Z.shiftl 1 30)) = hc;
  pr_hc_len : hc = true → n = 512;
  pr_spi : spi s = sp;
}.
Record ready (b : B) (n : Z) (hc : bool) (s : SDState B) : Prop := {
  rd_present : present b n hc s;
  rd_state : state s = sd_transfer_state;
  rd_calm : calm (card_status s);
}.

End ready.
Ltac present_tac := match goal with P : present _ _ _ _ _ |- _ => destruct P; constructor; sd_simp; done end.

Section transfer.
Context {B : Type} {DB : BlockDriver B} {LB : BlockLaws B} {sp : bool}.
Local Notation present := (present sp).
Local Notation ready := (ready sp).
Implicit Types (s : SDState B) (b : B).

Lemma present_absent b n hc s : present b n hc s → absent s = false.
Proof. intros [Hb Hi _ He]. unfold absent. rewrite Hb, Hi. cbn [negb orb]. unfold truth. by rewrite (proj2 (Z.eqb_neq _ _) He). Qed.

Lemma calm_state cs st : calm cs → 0 <= state_number st →
  Z.lor (Z.ldiff (Z.ldiff cs CARD_STATUS_B) CURRENT_STATE) (Z.shiftl (state_number st) 9) = 0x100 + 512 * state_number st ∧
  Z.land cs CARD_IS_LOCKED = 0 ∧ Z.land cs APP_CMD = 0 ∧
  Z.lor (Z.ldiff 0x900 (Z.lxor CARD_STATUS_B ILLEGAL_COMMAND)) (Z.land cs (Z.lxor CARD_STATUS_B ILLEGAL_COMMAND)) = cs.
Proof.
  intros (k & Hk & ->) Hst.
  assert (k = 0 ∨ k = 1 ∨ k = 2 ∨ k = 3 ∨ k = 4 ∨ k = 5 ∨ k = 6 ∨ k = 7 ∨ k = 8 ∨ k = 9 ∨ k = 10 ∨ k = 11 ∨ k = 12 ∨ k = 13 ∨ k = 14 ∨ k = 15) as Hks by lia.
  destruct_or! Hks; subst k; destruct st; try (cbn in Hst; lia); vm_compute; done.
Qed.

(** What a card that is there does with a command. *)
Lemma command_any b n hc s req :
  present b n hc s → 0 <= state_number (state s) →
  sd_do_command s req =
    let s1 := set_card_status (set_mode s (mode_of (state s)))
                (Z.lor (Z.ldiff (Z.ldiff (card_status s) CARD_STATUS_B) CURRENT_STATE) (Z.shiftl (state_number (state s)) 9)) in
    refused ← lock_refuses (card_status s) (cmd req);
    if refused : bool then Ok ([], raise s1 ILLEGAL_COMMAND)
    else
      '(r, s') ← (if truth (Z.land (card_status s) APP_CMD)
                  then '(r, s') ← sd_app_command s1 req; Ok (r, mask_out s' APP_CMD)
                  else sd_normal_command s1 req);
      let s' := set_current_cmd s' (cmd req) in
      let '(response, s') := make_response r (card_status s) s' in
      Ok (if truth (Z.land (card_status s') ILLEGAL_COMMAND) then [] else response, s').
Proof.
  intros P Hst. unfold sd_do_command. rewrite (present_absent _ _ _ _ P). cbn [sd_req_crc_validate truth Z.eqb negb]. cbv zeta.
  assert (sd_set_status (mask_out s CARD_STATUS_B) = Ok (set_card_status (set_mode s (mode_of (state s)))
    (Z.lor (Z.ldiff (Z.ldiff (card_status s) CARD_STATUS_B) CURRENT_STATE) (Z.shiftl (state_number (state s)) 9)))) as ->; [|done].
  unfold sd_set_status. sd_simp. by rewrite (proj2 (Z.ltb_ge _ _)) by done.
Qed.

(** Without flags it runs on the status with the present state. *)
Lemma command_calm b n hc s req :
  present b n hc s → calm (card_status s) → 0 <= state_number (state s) →
  sd_do_command s req =
    '(r, s') ← sd_normal_command (set_card_status (set_mode s (mode_of (state s))) (0x100 + 512 * state_number (state s))) req;
    let s' := set_current_cmd s' (cmd req) in
    let '(response, s') := make_response r (card_status s) s' in
    Ok (if truth (Z.land (card_status s') ILLEGAL_COMMAND) then [] else response, s').
Proof.
  intros P C Hst. destruct (calm_state _ _ C Hst) as (E & L & A & _). rewrite (command_any b n hc) by done. cbv zeta. rewrite E. unfold lock_refuses. by rewrite L, A.
Qed.

(** While a block is sent: [i] bytes of the block at [start] are out. *)
Record sending (b : B) (n : Z) (hc : bool) (c start i : Z) (s : SDState B) : Prop := {
  sn_present : present b n hc s;
  sn_state : state s = sd_sendingdata_state;
  sn_status : card_status s = 0x900;
  sn_cmd : current_cmd s = c;
  sn_start : data_start s = start;
  sn_off : data_offset s = i;
  sn_bytes : 0 < i → ∀ j, 0 <= j < n → data s !! Z.to_nat j = Some (byte_at b (start + j));
}.
(** While a block is received: [i] bytes of [l] are in. *)
Record receiving (b : B) (n : Z) (hc : bool) (start i : Z) (l : list Z) (s : SDState B) : Prop := {
  rc_present : present b n hc s;
  rc_state : state s = sd_receivingdata_state;
  rc_status : card_status s = 0x900;
  rc_cmd : current_cmd s = 24;
  rc_start : data_start s = start;
  rc_off : data_offset s = i;
  rc_bytes : ∀ j, 0 <= j < i → data s !! Z.to_nat j = l !! Z.to_nat j;
}.

Lemma address_ok b n hc s a : present b n hc s → 0 <= a < 2 ^ 32 → block_addr s a = address hc a ∧ 0 <= address hc a < 2 ^ 41.
Proof.
  intros P Ha. unfold block_addr, address. rewrite (pr_hc _ _ _ _ _ P). destruct hc; [|lia].
  rewrite Z.shiftl_mul_pow2 by lia. change (2 ^ 9) with 512. rewrite u64_small by lia. lia.
Qed.
Lemma present_io_len b n hc s : present b n hc s → io_len s = n.
Proof. intros P. unfold io_len. rewrite (pr_hc _ _ _ _ _ P). pose proof (pr_hc_len _ _ _ _ _ P). rewrite (pr_len _ _ _ _ _ P). destruct hc; [symmetry; auto|done]. Qed.
Lemma within b n hc s st start : present b n hc s → 0 <= start → start + n <= 512 * bdrv_get_geometry b → beyond (begin_data s st start) = false.
Proof.
  intros P H0 Hs. unfold beyond. sd_simp. rewrite (pr_size _ _ _ _ _ P), (pr_len _ _ _ _ _ P). pose proof (pr_geometry _ _ _ _ _ P). pose proof (pr_range _ _ _ _ _ P).
  rewrite u64_small by lia. apply Z.ltb_ge. lia.
Qed.

(** Reading starts. *)
Lemma read_starts b n hc s c a :
  ready b n hc s → c = 17 ∨ c = 18 → 0 <= a < 2 ^ 32 → address hc a + n <= 512 * bdrv_get_geometry b →
  ∃ s', sd_do_command s (mkReq c a) = Ok (be_word (card_status s), s') ∧ sending b n hc c (address hc a) 0 s'.
Proof.
  intros [P Hst C] Hc Ha Hr. destruct (address_ok b n hc s a P Ha) as [Ea Hrange]. pose proof (within b n hc s sd_sendingdata_state _ P (proj1 Hrange) Hr) as Hw.
  rewrite (command_calm b n hc) by (done || by rewrite Hst). rewrite Hst. set (s1 := set_card_status _ _).
  assert (sd_normal_command s1 (mkReq c a) = start_reading s1 (address hc a)) as ->.
  { rewrite <- Ea. destruct Hc as [-> | ->]; unfold sd_normal_command; cbn; unfold in_transfer, s1; sd_simp; by rewrite Hst. }
  unfold start_reading. change (beyond (begin_data s1 sd_sendingdata_state (address hc a))) with (beyond (begin_data s sd_sendingdata_state (address hc a))). rewrite Hw.
  destruct (calm_state _ sd_idle_state C ltac:(done)) as (_ & _ & _ & E). cbn [mbind res_bind make_response sd_response_r1_make]. eexists. split.
  { refine (f_equal (λ l, Ok (l, _)) _). transitivity (be_word (Z.lor (Z.ldiff 0x900 (Z.lxor CARD_STATUS_B ILLEGAL_COMMAND)) (Z.land (card_status s) (Z.lxor CARD_STATUS_B ILLEGAL_COMMAND)))); [reflexivity|by rewrite E]. }
  constructor; try done. present_tac.
Qed.

Lemma fetch_ok b n hc c start i s :
  sending b n hc c start i s → 0 <= start → 0 <= i < n → start + n <= 512 * bdrv_get_geometry b →
  ∃ s', fetch s n = Ok s' ∧ sending b n hc c start i s' ∧ ∀ j, 0 <= j < n → data s' !! Z.to_nat j = Some (byte_at b (start + j)).
Proof.
  intros [P Hst Hcs Hc Hs Ho Hb] H0 Hi Hr. pose proof (pr_range _ _ _ _ _ P). unfold fetch. rewrite Ho. destruct (Z.eqb_spec i 0) as [->|Hne].
  - rewrite Hs. destruct (blk_read_ok s b start n) as (d & m & E & Ld & Lm & Hd); [apply P|apply P|apply P|apply P|apply P|lia..|].
    exists (set_buf (set_data s d) m). split; [done|]. split; [|done]. constructor; try done. present_tac.
  - exists s. split; [done|]. split; [done|]. apply Hb. lia.
Qed.

Lemma get_byte_ok b n hc c start i s :
  sending b n hc c start i s → 0 <= i < n → (∀ j, 0 <= j < n → data s !! Z.to_nat j = Some (byte_at b (start + j))) →
  get_byte s (data s) = Ok (byte_at b (start + i), set_data_offset s (i + 1)).
Proof.
  intros [P Hst Hcs Hc Hs Ho Hb] Hi Hd. pose proof (pr_range _ _ _ _ _ P). unfold get_byte. rewrite Ho.
  rewrite (proj2 (aread_lookup _ _ (byte_at b (start + i)))) by (split; [lia|by apply Hd]). sd_simp. by rewrite u32_small by lia.
Qed.

(** One byte of a block is read. *)
Lemma read_byte b n hc c start i s :
  sending b n hc c start i s → c = 17 ∨ c = 18 → 0 <= start → 0 <= i < n → start + n <= 512 * bdrv_get_geometry b →
  ∃ s1, sending b n hc c start i s1 ∧ (∀ j, 0 <= j < n → data s1 !! Z.to_nat j = Some (byte_at b (start + j))) ∧
  sd_read_data s = Ok (byte_at b (start + i),
    let s' := set_data_offset s1 (i + 1) in
    if c =? 17 then (if n <=? i + 1 then set_state s' sd_transfer_state else s')
    else if n <=? i + 1 then
      let s' := set_data_offset (set_data_start s' (start + n)) 0 in
      (if sd_size s1 <? start + n + n then raise s' ADDRESS_ERROR else s')
    else s').
Proof.
  intros S Hc H0 Hi Hr. destruct (fetch_ok _ _ _ _ _ _ _ S H0 Hi Hr) as (s1 & Ef & S1 & Hd). exists s1. split; [done|]. split; [done|].
  pose proof (get_byte_ok _ _ _ _ _ _ _ S1 Hi Hd) as Eg. destruct S as [P Hst Hcs Hcc Hs Ho Hb]. pose proof (pr_range _ _ _ _ _ P). pose proof (pr_geometry _ _ _ _ _ P).
  unfold sd_read_data. rewrite (present_absent _ _ _ _ P), Hst, Hcs. rewrite bool_decide_true by done. cbn [negb].
  change (truth (Z.land 0x900 (Z.lor ADDRESS_ERROR WP_VIOLATION))) with false. cbv iota. fold (io_len s). rewrite (present_io_len _ _ _ _ P), Hcc.
  destruct Hc as [-> | ->]; cbn [Z.eqb Pos.eqb].
  - rewrite Ef. cbn [mbind res_bind]. unfold get_last. rewrite Eg. sd_simp. done.
  - unfold read_on. rewrite Ef. cbn [mbind res_bind]. rewrite Eg. cbn [mbind res_bind]. change (data_offset (set_data_offset s1 (i + 1))) with (i + 1).
    destruct (n <=? i + 1); [|done]. sd_simp. rewrite (sn_start _ _ _ _ _ _ _ S1). rewrite !u64_small by (rewrite ?u64_small; lia). done.
Qed.

Lemma read_bytes_app m1 m2 s : read_bytes (m1 + m2) s = '(l1, s1) ← read_bytes m1 s; '(l2, s2) ← read_bytes m2 s1; Ok (l1 ++ l2, s2).
Proof.
  revert s. induction m1 as [|m1 IH]; intros s; cbn [read_bytes Nat.add].
  - cbn [mbind res_bind]. by destruct (read_bytes m2 s) as [[]|].
  - destruct (sd_read_data s) as [[v s']|]; [|done]. cbn [mbind res_bind]. rewrite IH. destruct (read_bytes m1 s') as [[l1 s1]|]; [|done]. cbn [mbind res_bind].
    by destruct (read_bytes m2 s1) as [[]|].
Qed.

(** The rest of a block, up to its last byte. *)
Lemma read_more b n hc c start m i s :
  sending b n hc c start i s → c = 17 ∨ c = 18 → 0 <= start → 0 <= i → i + Z.of_nat m < n → start + n <= 512 * bdrv_get_geometry b →
  ∃ s', read_bytes m s = Ok (stretch (byte_at b) (start + i) m, s') ∧ sending b n hc c start (i + Z.of_nat m) s'.
Proof.
  intros Sn Hc H0 Hi Hn Hr. revert i s Sn Hi Hn. induction m as [|m IH]; intros i s Sn Hi Hn.
  - exists s. split; [done|]. by rewrite Z.add_0_r.
  - destruct (read_byte b n hc c start i s Sn Hc H0 ltac:(lia) Hr) as (s1 & S1 & Hd & E). rewrite (proj2 (Z.leb_gt n (i + 1))) in E by lia.
    assert (sd_read_data s = Ok (byte_at b (start + i), set_data_offset s1 (i + 1))) as E' by (rewrite E; by destruct (c =? 17)).
    destruct (IH (i + 1) (set_data_offset s1 (i + 1))) as (s' & E2 & S2); [|lia..|].
    { destruct S1 as [P1 ? ? ? ? ?]. constructor; try done. present_tac. }
    exists s'. cbn [read_bytes]. rewrite E'. cbn [mbind res_bind]. rewrite E2. cbn [mbind res_bind]. split.
    + rewrite stretch_S. by rewrite Z.add_assoc.
    + by replace (i + Z.of_nat (S m)) with (i + 1 + Z.of_nat m) by lia.
Qed.

(** A single block is read. *)
Lemma read_single b n hc start s :
  sending b n hc 17 start 0 s → 0 <= start → start + n <= 512 * bdrv_get_geometry b →
  ∃ s', read_bytes (Z.to_nat n) s = Ok (stretch (byte_at b) start (Z.to_nat n), s') ∧ ready b n hc s'.
Proof.
  intros Sn H0 Hr. pose proof (pr_range _ _ _ _ _ (sn_present _ _ _ _ _ _ _ Sn)). assert (Z.to_nat n = Z.to_nat (n - 1) + 1)%nat as En by lia.
  destruct (read_more b n hc 17 start (Z.to_nat (n - 1)) 0 s Sn ltac:(by left) H0 ltac:(lia) ltac:(lia) Hr) as (s1 & E1 & S1).
  destruct (read_byte b n hc 17 start (0 + Z.of_nat (Z.to_nat (n - 1))) s1 S1 ltac:(by left) H0 ltac:(lia) Hr) as (s2 & S2 & Hd & E2). cbn [Z.eqb Pos.eqb] in E2.
  rewrite (proj2 (Z.leb_le n _)) in E2 by lia. cbv zeta in E2. eexists. rewrite En, read_bytes_app, E1. cbn [mbind res_bind read_bytes]. rewrite E2. cbn [mbind res_bind]. split.
  - do 2 f_equal. rewrite !Z.add_0_r. unfold stretch. rewrite seq_app, fmap_app. done.
  - destruct S2 as [P2 ? Hcs]. constructor; [present_tac|done|]. sd_simp. rewrite Hcs. by exists 4.
Qed.

(** A transmission of blocks that may have come to the end of the card. *)
Record streaming (b : B) (n : Z) (hc : bool) (s : SDState B) : Prop := {
  st_present : present b n hc s;
  st_state : state s = sd_sendingdata_state;
  st_status : card_status s = 0x900 ∨ card_status s = Z.lor 0x900 ADDRESS_ERROR;
}.

Lemma read_one_of b n hc start s :
  sending b n hc 18 start 0 s → 0 <= start → start + n <= 512 * bdrv_get_geometry b →
  ∃ s', read_bytes (Z.to_nat n) s = Ok (stretch (byte_at b) start (Z.to_nat n), s') ∧ streaming b n hc s' ∧
    (start + n + n <= 512 * bdrv_get_geometry b → sending b n hc 18 (start + n) 0 s').
Proof.
  intros Sn H0 Hr. pose proof (pr_range _ _ _ _ _ (sn_present _ _ _ _ _ _ _ Sn)). assert (Z.to_nat n = Z.to_nat (n - 1) + 1)%nat as En by lia.
  destruct (read_more b n hc 18 start (Z.to_nat (n - 1)) 0 s Sn ltac:(by right) H0 ltac:(lia) ltac:(lia) Hr) as (s1 & E1 & S1).
  destruct (read_byte b n hc 18 start (0 + Z.of_nat (Z.to_nat (n - 1))) s1 S1 ltac:(by right) H0 ltac:(lia) Hr) as (s2 & S2 & Hd & E2). cbn [Z.eqb Pos.eqb] in E2.
  rewrite (proj2 (Z.leb_le n _)) in E2 by lia. cbv zeta in E2. eexists. rewrite En, read_bytes_app, E1. cbn [mbind res_bind read_bytes]. rewrite E2. cbn [mbind res_bind]. split; [|split].
  - do 2 f_equal. rewrite !Z.add_0_r. unfold stretch. rewrite seq_app, fmap_app. done.
  - destruct S2 as [P2 ? Hcs]. destruct (_ <? _); (constructor; [present_tac|done|sd_simp; rewrite Hcs; auto]).
  - intros Hr2. destruct S2 as [P2 ? Hcs ? ? ? ?]. rewrite (pr_size _ _ _ _ _ P2), (proj2 (Z.ltb_ge _ _)) by lia. constructor; try done. present_tac.
Qed.

Lemma stretch_app f a m1 m2 : stretch f a (m1 + m2) = stretch f a m1 ++ stretch f (a + Z.of_nat m1) m2.
Proof.
  revert a. induction m1 as [|m1 IH]; intros a; cbn [Nat.add]; [by rewrite Z.add_0_r|]. rewrite !stretch_S, IH. cbn [app]. do 3 f_equal. lia.
Qed.

(** Blocks are read one after the other. *)
Lemma read_blocks b n hc k start s :
  sending b n hc 18 start 0 s → (0 < k)%nat → 0 <= start → start + Z.of_nat k * n <= 512 * bdrv_get_geometry b →
  ∃ s', read_bytes (k * Z.to_nat n) s = Ok (stretch (byte_at b) start (k * Z.to_nat n), s') ∧ streaming b n hc s'.
Proof.
  revert start s. induction k as [|k IH]; intros start s Sn Hk H0 Hr; [lia|]. pose proof (pr_range _ _ _ _ _ (sn_present _ _ _ _ _ _ _ Sn)).
  destruct (read_one_of b n hc start s Sn H0 ltac:(nia)) as (s1 & E1 & T1 & S1). cbn [Nat.mul]. rewrite read_bytes_app, stretch_app, E1. cbn [mbind res_bind].
  destruct (decide (k = 0%nat)) as [->|]; [by exists s1|].
  destruct (IH (start + n) s1) as (s2 & E2 & T2); [apply S1; nia|lia..|]. exists s2. rewrite E2. cbn [mbind res_bind]. by rewrite Z2Nat.id by lia.
Qed.

(** Stopping gives back a card that is ready. *)
Lemma stop_ok b n hc s : streaming b n hc s → ∃ r s', sd_do_command s (mkReq 12 0) = Ok (r, s') ∧ ready b n hc s'.
Proof.
  intros [P Hst Hcs]. rewrite (command_any b n hc), Hst by (done || by rewrite Hst). cbv zeta.
  destruct Hcs as [Hcs|Hcs]; rewrite Hcs; set (s1 := set_card_status _ _);
    (assert (sd_normal_command s1 (mkReq 12 0) = Ok (sd_r1b, set_state s1 sd_transfer_state)) as En by (unfold sd_normal_command; cbn; unfold s1; sd_simp; by rewrite Hst));
    eexists _, _; (split; [cbn -[sd_normal_command]; rewrite En; cbn [mbind res_bind make_response sd_response_r1_make]; done|]);
    (constructor; [present_tac|done|by exists 5]).
Qed.

(** The length of a block is set. *)
Lemma set_len_ok b n hc s m :
  ready b n hc s → 0 < m <= 512 → (hc = true → m = 512) → ∃ r s', sd_do_command s (mkReq 16 m) = Ok (r, s') ∧ ready b m hc s'.
Proof.
  intros [P Hst C] Hm Hh. rewrite (command_calm b n hc) by (done || by rewrite Hst). rewrite Hst. set (s1 := set_card_status _ _).
  assert (sd_normal_command s1 (mkReq 16 m) = Ok (sd_r1, set_blk_len s1 m)) as ->.
  { unfold sd_normal_command. cbn. unfold in_transfer, s1. sd_simp. rewrite Hst. change (Z.shiftl 1 HWBLOCK_SHIFT) with 512. by rewrite (proj2 (Z.ltb_ge _ _)) by lia. }
  eexists _, _. split; [cbn [mbind res_bind make_response sd_response_r1_make]; done|]. constructor; [present_tac|done|by exists 4].
Qed.

(** The groups of write protection cover the card. *)
Lemma wp_addr_ok b n hc s a : present b n hc s → 0 <= a <= 512 * bdrv_get_geometry b → ∃ w, sd_wp_addr s a = Ok w.
Proof.
  intros P Ha. unfold sd_wp_addr. apply aread_in. rewrite (pr_groups _ _ _ _ _ P), (pr_size _ _ _ _ _ P). unfold wp_group. change (HWBLOCK_SHIFT + SECTOR_SHIFT + WPGROUP_SHIFT) with 21. rewrite !Z.shiftr_div_pow2 by lia.
  set (e := 2 ^ _). assert (0 < e) by (by unfold e). assert (0 <= u32 a <= a) by (split; [apply u32_range|apply Z.mod_le; lia]).
  pose proof (Z.div_pos (u32 a) e). pose proof (Z.div_le_mono (u32 a) (512 * bdrv_get_geometry b + 1) e). lia.
Qed.

End transfer.

(** ** Writing, and the card against its specification *)

Section writing.
Context {B : Type} {DB : BlockDriver B} {LB : BlockLaws B}.
Local Notation present := (present false).
Local Notation ready := (ready false).
Local Notation receiving := (receiving (sp:=false)).
Implicit Types (s : SDState B) (b : B).

(** A flag in the first byte of a response. *)
Lemma r1_flag x y : Z.testbit x 26 = true → Z.testbit (default 0 (be_word (Z.lor x y) !! 0%nat)) 2 = true.
Proof.
  intros Hx. change (Z.testbit (u8 (Z.shiftr (Z.lor x y) 24)) 2 = true). unfold u8. rewrite Z.mod_pow2_bits_low, Z.shiftr_spec, Z.lor_spec by lia.
  change (2 + 24) with 26. by rewrite Hx.
Qed.

(** Writing starts, whatever the write protection says. *)
Lemma write_starts b n hc s a l :
  ready b n hc s → 0 <= a < 2 ^ 32 → address hc a + n <= 512 * bdrv_get_geometry b →
  ∃ r s', sd_do_command s (mkReq 24 a) = Ok (r, s') ∧ receiving b n hc (address hc a) 0 l s' ∧
    (∀ w, sd_wp_addr s (address hc a) = Ok w → truth w = true → Z.testbit (default 0 (r !! 0%nat)) 2 = true).
Proof.
  intros [P Hst C] Ha Hr. destruct (address_ok b n hc s a P Ha) as [Ea Hrange]. pose proof (within b n hc s sd_receivingdata_state _ P (proj1 Hrange) Hr) as Hw.
  pose proof (pr_range _ _ _ _ _ P). destruct (wp_addr_ok b n hc s (address hc a) P ltac:(lia)) as [w Ew].
  destruct (aread_in (csd s) 14) as [c14 Ec]; [rewrite (pr_csd _ _ _ _ _ P); lia|].
  rewrite (command_calm b n hc) by (done || by rewrite Hst). rewrite Hst. set (s1 := set_card_status _ _).
  assert (sd_normal_command s1 (mkReq 24 a) = start_writing s1 (address hc a)) as ->.
  { rewrite <- Ea. unfold sd_normal_command. cbn. unfold in_transfer, s1. sd_simp. rewrite Hst, (pr_spi _ _ _ _ _ P). done. }
  unfold start_writing. change (beyond (set_blk_written (begin_data s1 sd_receivingdata_state (address hc a)) 0)) with (beyond (begin_data s sd_receivingdata_state (address hc a))). rewrite Hw.
  change (sd_wp_addr (set_blk_written _ _) _) with (sd_wp_addr s (address hc a)). rewrite Ew. cbn [mbind res_bind].
  destruct (truth w) eqn:Htw; cbn -[make_response calm Z.land aread]; rewrite Ec; cbn -[make_response calm Z.land aread]; destruct (truth (Z.land c14 48)).
  all: (eexists _, _; split; [cbn [mbind res_bind make_response sd_response_r1_make]; done|]).
  all: (split; [constructor; try done; [present_tac|intros j Hj; lia]|]).
  all: (intros w' [= <-] Hw'; try congruence); match goal with |- context [be_word (Z.lor ?x _)] => exact (r1_flag x _ eq_refl) end.
Qed.

(** A byte of a block is written. *)
Lemma write_byte b n hc start i l s v :
  receiving b n hc start i l s → 0 <= i → i + 1 < n → l !! Z.to_nat i = Some v → ∃ s', sd_write_data s v = Ok s' ∧ receiving b n hc start (i + 1) l s'.
Proof.
  intros [P Hst Hcs Hc Hs Ho Hb] Hi Hn Hv. pose proof (pr_range _ _ _ _ _ P). unfold sd_write_data. rewrite (present_absent _ _ _ _ P), Hst, Hcs, Hc. rewrite bool_decide_true by done. cbn [negb].
  change (truth (Z.land 0x900 (Z.lor ADDRESS_ERROR WP_VIOLATION))) with false. cbv iota. unfold put_byte. rewrite Ho, awrite_in by (rewrite (pr_data _ _ _ _ _ P); lia). sd_simp.
  rewrite (pr_len _ _ _ _ _ P), u32_small, (proj2 (Z.leb_gt _ _)) by lia. eexists. split; [done|]. constructor; try done.
  - pose proof P as P'. destruct P; constructor; sd_simp; try done. by rewrite length_insert.
  - intros j Hj. sd_simp. destruct (decide (j = i)) as [->|]; [rewrite list_lookup_insert_eq by (rewrite (pr_data _ _ _ _ _ P); lia); done|].
    rewrite list_lookup_insert_ne by lia. apply Hb. lia.
Qed.

(** The last byte: the block goes to the image. *)
Lemma write_last b n hc start l s v :
  receiving b n hc start (n - 1) l s → bdrv_is_read_only b = false → 0 <= start → start + n <= 512 * bdrv_get_geometry b →
  l !! Z.to_nat (n - 1) = Some v →
  ∃ s' b', sd_write_data s v = Ok s' ∧ ready b' n hc s' ∧ bdrv_get_geometry b' = bdrv_get_geometry b ∧ bdrv_is_read_only b' = false ∧
    ∀ a, 0 <= a → byte_at b' a = if (start <=? a) && (a <? start + n) then default 0 (l !! Z.to_nat (a - start)) else byte_at b a.
Proof.
  intros [P Hst Hcs Hc Hs Ho Hb] Hro H0 Hr Hv. pose proof (pr_range _ _ _ _ _ P) as Hn. unfold sd_write_data. rewrite (present_absent _ _ _ _ P), Hst, Hcs, Hc. rewrite bool_decide_true by done. cbn [negb].
  change (truth (Z.land 0x900 (Z.lor ADDRESS_ERROR WP_VIOLATION))) with false. cbv iota. unfold put_byte. rewrite Ho, awrite_in by (rewrite (pr_data _ _ _ _ _ P); lia). cbn [mbind res_bind].
  set (d := <[_ := _]> _). assert (length d = 512%nat) as Ld by (unfold d; rewrite length_insert; apply P).
  assert (∀ j, 0 <= j < n → d !! Z.to_nat j = l !! Z.to_nat j) as Hd.
  { intros j Hj. unfold d. destruct (decide (j = n - 1)) as [->|]; [rewrite list_lookup_insert_eq by (rewrite (pr_data _ _ _ _ _ P); lia); done|].
    rewrite list_lookup_insert_ne by lia. apply Hb. lia. }
  replace (n - 1 + 1) with n by lia. rewrite u32_small by lia. set (s1 := set_data_offset _ _).
  change (blk_len s1 <=? data_offset s1) with (blk_len s <=? n). rewrite (pr_len _ _ _ _ _ P), Z.leb_refl. unfold write_block.
  destruct (blk_write_ok (set_state s1 sd_programming_state) b start n) as (b' & m & E & Lm & G & I & R & Hbytes); [apply P|apply P|done|apply P|apply P|done|lia|lia|lia|].
  change (data_start s1) with (data_start s). change (data_offset s1) with n. rewrite Hs, E. cbn [mbind res_bind]. unfold written. sd_simp. change (csd s1) with (csd s).
  destruct (aread_in (csd s) 14) as [c14 Ec]; [rewrite (pr_csd _ _ _ _ _ P); lia|]. rewrite Ec. sd_simp. rewrite awrite_in by (rewrite (pr_csd _ _ _ _ _ P); lia). sd_simp.
  eexists _, b'. split; [done|]. split; [|split; [done|split; [done|]]].
  - constructor; [|done|unfold s1; sd_simp; rewrite Hcs; by exists 4]. unfold s1. destruct P; constructor; sd_simp; try done; [by rewrite G|by rewrite length_insert|by rewrite G].
  - intros a Ha0. rewrite Hbytes by done. change (data (set_state s1 sd_programming_state)) with d. destruct (Z.leb_spec start a), (Z.ltb_spec a (start + n)); cbn [andb]; try done. by rewrite Hd by lia.
Qed.

(** A block is written. *)
Lemma write_block_ok b n hc start s l :
  receiving b n hc start 0 l s → bdrv_is_read_only b = false → 0 <= start → start + n <= 512 * bdrv_get_geometry b → Z.of_nat (length l) = n →
  ∃ s' b', write_bytes l s = Ok s' ∧ ready b' n hc s' ∧ bdrv_get_geometry b' = bdrv_get_geometry b ∧ bdrv_is_read_only b' = false ∧
    ∀ a, 0 <= a → byte_at b' a = if (start <=? a) && (a <? start + n) then default 0 (l !! Z.to_nat (a - start)) else byte_at b a.
Proof.
  intros R0 Hro H0 Hr Hl. pose proof (pr_range _ _ _ _ _ (rc_present _ _ _ _ _ _ _ R0)) as Hn.
  assert (∀ l2 l1 s, l = l1 ++ l2 → l2 <> [] → receiving b n hc start (Z.of_nat (length l1)) l s →
    ∃ s' b', write_bytes l2 s = Ok s' ∧ ready b' n hc s' ∧ bdrv_get_geometry b' = bdrv_get_geometry b ∧ bdrv_is_read_only b' = false ∧
      ∀ a, 0 <= a → byte_at b' a = if (start <=? a) && (a <? start + n) then default 0 (l !! Z.to_nat (a - start)) else byte_at b a) as Hgen.
  2: { apply (Hgen l [] s); [done| |done]. intros ->. cbn in Hl. lia. }
  clear R0 s. induction l2 as [|v l2 IH]; intros l1 s El Hne R; [done|]. cbn [write_bytes].
  assert (l !! Z.to_nat (Z.of_nat (length l1)) = Some v) as Hv by (rewrite Nat2Z.id, El; by apply list_lookup_middle).
  assert (Z.of_nat (length l1) + 1 + Z.of_nat (length l2) = n) as El' by (rewrite <- Hl, El, length_app; cbn [length]; lia).
  destruct (decide (l2 = [])) as [->|Hne2].
  - cbn in El'. replace (Z.of_nat (length l1)) with (n - 1) in * by lia.
    destruct (write_last b n hc start l s v R Hro H0 Hr Hv) as (s' & b' & E & Hrest). exists s', b'. by rewrite E.
  - destruct l2 as [|v2 l2]; [done|]. destruct (write_byte b n hc start (Z.of_nat (length l1)) l s v R ltac:(lia) ltac:(cbn [length] in El'; lia) Hv) as (s1 & E & R1).
    rewrite E. cbn [mbind res_bind]. apply (IH (l1 ++ [v]) s1); [by rewrite <- app_assoc|done|].
    rewrite length_app. cbn [length]. by rewrite Nat2Z.inj_add.
Qed.

(** The card against its specification. *)
Definition card_is (b : B) (c : abs_card) : Prop := ∀ a, 0 <= a < 512 * bdrv_get_geometry b → byte_at b a = bytes c a.

Lemma host_op_ok b hc c s op :
  ready b (blen c) hc s → bdrv_is_read_only b = false → card_is b c → op_valid hc (512 * bdrv_get_geometry b) op (blen c) →
  ∃ s' b', host_op op s = Ok ((abs_op hc op c).1, s') ∧ ready b' (blen (abs_op hc op c).2) hc s' ∧ bdrv_get_geometry b' = bdrv_get_geometry b ∧
    bdrv_is_read_only b' = false ∧ card_is b' (abs_op hc op c).2.
Proof.
  intros R Hro Hb Hv. pose proof (pr_range _ _ _ _ _ (rd_present _ _ _ _ _ R)) as Hn. destruct op as [m|a|a k|a l]; cbn [op_valid host_op abs_op fst snd] in *.
  - destruct Hv as [Hm Hh]. destruct (set_len_ok _ _ _ _ m R Hm Hh) as (r & s' & E & R'). exists s', b. by rewrite E.
  - destruct Hv as [Ha Hr]. destruct (read_starts _ _ _ _ 17 a R ltac:(by left) Ha Hr) as (s1 & E & S1). rewrite E. cbn [mbind res_bind].
    pose proof (address_ok _ _ _ _ a (sn_present _ _ _ _ _ _ _ S1) Ha) as [_ Hrange]. rewrite (present_io_len _ _ _ _ (sn_present _ _ _ _ _ _ _ S1)).
    destruct (read_single _ _ _ _ _ S1 ltac:(lia) Hr) as (s2 & E2 & R2). exists s2, b. rewrite E2. split; [|done]. do 2 f_equal. apply stretch_ext. intros x Hx. apply Hb. lia.
  - destruct Hv as (Ha & Hk & Hr). destruct (read_starts _ _ _ _ 18 a R ltac:(by right) Ha ltac:(nia)) as (s1 & E & S1). rewrite E. cbn [mbind res_bind].
    pose proof (address_ok _ _ _ _ a (sn_present _ _ _ _ _ _ _ S1) Ha) as [_ Hrange]. rewrite (present_io_len _ _ _ _ (sn_present _ _ _ _ _ _ _ S1)).
    destruct (read_blocks _ _ _ k _ _ S1 Hk ltac:(lia) Hr) as (s2 & E2 & T2). rewrite E2. cbn [mbind res_bind].
    destruct (stop_ok _ _ _ _ T2) as (r3 & s3 & E3 & R3). exists s3, b. rewrite E3. cbn [mbind res_bind]. split; [|done]. do 2 f_equal. apply stretch_ext. intros x Hx. apply Hb. nia.
  - destruct Hv as (Ha & Hl & Hr). destruct (write_starts _ _ _ _ a l R Ha Hr) as (r & s1 & E & S1 & _). rewrite E. cbn [mbind res_bind].
    pose proof (address_ok _ _ _ _ a (rc_present _ _ _ _ _ _ _ S1) Ha) as [_ Hrange].
    destruct (write_block_ok _ _ _ _ _ _ S1 Hro ltac:(lia) Hr Hl) as (s2 & b2 & E2 & R2 & G2 & Ro2 & B2). exists s2, b2. rewrite E2. cbn [mbind res_bind].
    split; [done|]. split; [done|]. split; [done|]. split; [done|]. intros x Hx. cbn [bytes]. rewrite B2 by lia. destruct (_ && _); [done|]. apply Hb. lia.
Qed.

(** [C6]: for any block layer that keeps its laws, a card that is not in SPI mode, on a
    writable image, in the transfer state, is an array of bytes: whatever blocks the host
    reads, alone or in a row that it stops, and writes, with commands and data bytes, in any
    order, at any address and with any block length (512 bytes on a high capacity card) that
    the image holds, it reads the bytes that it wrote last or that the image had, and no
    other byte of the image changes; also where a block lies across two sectors. *)
Theorem sd_card_is_array b hc c s ops :
  ready b (blen c) hc s → bdrv_is_read_only b = false → card_is b c → ops_valid hc (512 * bdrv_get_geometry b) ops c →
  ∃ s' b', host_run ops s = Ok ((abs_card_run hc ops c).1, s') ∧ ready b' (blen (abs_card_run hc ops c).2) hc s' ∧ card_is b' (abs_card_run hc ops c).2.
Proof.
  revert b c s. induction ops as [|op ops IH]; intros b c s R Hro Hb Hv; cbn [host_run abs_card_run]; [by exists s, b|]. destruct Hv as [Hv Hvs].
  destruct (host_op_ok b hc c s op R Hro Hb Hv) as (s1 & b1 & E & R1 & G1 & Ro1 & B1). rewrite E. cbn [mbind res_bind]. destruct (abs_op hc op c) as [l c1]. cbn [fst snd] in *.
  rewrite <- G1 in Hvs. destruct (IH b1 c1 s1 R1 Ro1 B1 Hvs) as (s2 & b2 & E2 & R2 & B2). rewrite E2. cbn [mbind res_bind]. exists s2, b2. by destruct (abs_card_run hc ops c1).
Qed.
End writing.

(** ** Reset and identification *)

Fixpoint commands {B} `{BlockDriver B} (reqs : list SDRequest) (s : SDState B) : res (list (list Z) * SDState B) :=
  match reqs with [] => Ok ([], s) | r :: reqs => '(l, s) ← sd_do_command s r; '(ls, s) ← commands reqs s; Ok (l :: ls, s) end.

(** An image of more than 1 GiB makes a high capacity card. *)
Definition high_capacity (g : Z) : bool := 0x40000000 <? 512 * g + 1.

Section identification.
Context {B : Type} {DB : BlockDriver B} {LB : BlockLaws B}.
Implicit Types (s : SDState B) (b : B).

Lemma size_ok g : 0 <= g < 2 ^ 32 → u64 (u64 (Z.shiftl g 9) + 1) = 512 * g + 1.
Proof. intros Hg. rewrite Z.shiftl_mul_pow2 by lia. change (2 ^ 9) with 512. rewrite !u64_small by (rewrite ?u64_small; lia). lia. Qed.

Lemma wp_group_nonneg z : 0 <= z → 0 <= wp_group z.
Proof. intros. unfold wp_group. by apply Z.shiftr_nonneg. Qed.

Lemma reset_present sp b s :
  bdrv_is_inserted b = true → 0 <= bdrv_get_geometry b < 2 ^ 32 → enable s <> 0 → length (data s) = 512%nat → length (buf s) = 512%nat → spi s = sp →
  present sp b 512 (high_capacity (bdrv_get_geometry b)) (sd_reset s (Some b)) ∧ state (sd_reset s (Some b)) = sd_idle_state ∧
  card_status (sd_reset s (Some b)) = 0x100 ∧ rca (sd_reset s (Some b)) = 0.
Proof.
  intros Hi Hg He Hd Hb Hs. unfold sd_reset. rewrite (size_ok _ Hg). set (size := 512 * _ + 1). set (s1 := sd_set_cid _).
  assert (0 <= wp_group size) as Hw by (apply wp_group_nonneg; lia).
  unfold high_capacity. fold size. unfold sd_set_csd. destruct (Z.leb_spec size 0x40000000) as [Hle|Hgt].
  - rewrite (proj2 (Z.ltb_ge _ _)) by lia. split; [|done]. constructor; try done. change (Z.of_nat (length (replicate (Z.to_nat (wp_group size + 1)) 0)) = wp_group size + 1). rewrite length_replicate. lia.
  - rewrite (proj2 (Z.ltb_lt _ _)) by lia. split; [|done]. constructor; try done. change (Z.of_nat (length (replicate (Z.to_nat (wp_group size + 1)) 0)) = wp_group size + 1). rewrite length_replicate. lia.
Qed.

(** A fresh card. *)
Lemma init_present sp b blk :
  bdrv_is_inserted b = true → 0 <= bdrv_get_geometry b < 2 ^ 32 → length blk = 512%nat →
  present sp b 512 (high_capacity (bdrv_get_geometry b)) (sd_init (Some b) sp blk) ∧ state (sd_init (Some b) sp blk) = sd_idle_state ∧
  card_status (sd_init (Some b) sp blk) = 0x100 ∧ rca (sd_init (Some b) sp blk) = 0.
Proof. intros Hi Hg Hb. unfold sd_init. set (s0 := mkSD _ _ _ _ _ _ _ _ _ _ _ _ _ _ _ _ _ _ _ _ _ _ _ _ _ _ _ _). by apply (reset_present sp b s0). Qed.

Local Notation present := (present false).

(** A card in a state, with a status and an address. *)
Record stands (b : B) (n : Z) (hc : bool) (st : sd_state) (cs addr : Z) (s : SDState B) : Prop := {
  sa_present : present b n hc s;
  sa_state : state s = st;
  sa_status : card_status s = cs;
  sa_rca : rca s = addr;
}.
(** A command takes the card from one to another. *)
Definition leads (req : SDRequest) (P Q : SDState B → Prop) : Prop := ∀ s, P s → ∃ r s', sd_do_command s req = Ok (r, s') ∧ Q s'.
Ltac id_step := intros s [P Hst Hcs Hrca]; rewrite (command_any _ _ _ s _ P) by (by rewrite Hst); cbv zeta; rewrite Hst, Hcs; set (s1 := set_card_status _ _);
  match goal with |- context [lock_refuses ?c ?k] => change (lock_refuses c k) with (Ok false) end; cbn [mbind res_bind];
  match goal with |- context [truth (Z.land ?c APP_CMD)] =>
    let v := eval vm_compute in (truth (Z.land c APP_CMD)) in change (truth (Z.land c APP_CMD)) with v; cbv iota
  end;
  match goal with |- context [sd_normal_command s1 ?req] => set (run := sd_normal_command s1 req) | |- context [sd_app_command s1 ?req] => set (run := sd_app_command s1 req) end.

Lemma id_app b n hc : leads (mkReq 55 0) (stands b n hc sd_idle_state 0x100 0) (stands b n hc sd_idle_state 0x120 0).
Proof.
  id_step. assert (run = Ok (sd_r1, raise s1 APP_CMD)) as Er by (unfold run, sd_normal_command; cbn; unfold s1; sd_simp; by rewrite Hrca).
  rewrite Er. cbn [mbind res_bind make_response]. eexists _, _. split; [done|]. constructor; try done; [present_tac].
Qed.
Lemma id_op_cond b n hc v : v <> 0 → leads (mkReq 41 v) (stands b n hc sd_idle_state 0x120 0) (stands b n hc sd_ready_state 0x100 0).
Proof.
  intros Hv. id_step. assert (run = Ok (sd_r3, set_state s1 sd_ready_state)) as Er.
  { unfold run. cbn. unfold s1. sd_simp.
    rewrite (pr_spi _ _ _ _ _ P), Hst. unfold truth. by rewrite (proj2 (Z.eqb_neq _ _) Hv). }
  rewrite Er. cbn [mbind res_bind make_response]. eexists _, _. split; [done|]. constructor; try done; [present_tac].
Qed.
Lemma id_cid b n hc : leads (mkReq 2 0) (stands b n hc sd_ready_state 0x100 0) (stands b n hc sd_identification_state 0x300 0).
Proof.
  id_step. assert (run = Ok (sd_r2_i, set_state s1 sd_identification_state)) as Er.
  { unfold run, sd_normal_command. cbn. unfold s1. sd_simp. by rewrite (pr_spi _ _ _ _ _ P), Hst. }
  rewrite Er. cbn [mbind res_bind make_response]. eexists _, _. split; [done|]. constructor; try done; [present_tac].
Qed.
Lemma id_rca b n hc : leads (mkReq 3 0) (stands b n hc sd_identification_state 0x300 0) (stands b n hc sd_standby_state 0x500 0x4567).
Proof.
  id_step. assert (run = Ok (sd_r6, set_rca (set_state s1 sd_standby_state) 0x4567)) as Er.
  { unfold run, sd_normal_command. cbn. unfold s1. sd_simp. rewrite (pr_spi _ _ _ _ _ P), Hst. unfold sd_set_rca. sd_simp. by rewrite Hrca. }
  rewrite Er. cbn [mbind res_bind make_response]. eexists _, _. split; [done|]. constructor; try done; [present_tac].
Qed.
Lemma id_select b n hc : leads (mkReq 7 0x45670000) (stands b n hc sd_standby_state 0x500 0x4567) (stands b n hc sd_transfer_state 0x700 0x4567).
Proof.
  id_step. assert (run = Ok (sd_r1b, set_state s1 sd_transfer_state)) as Er.
  { unfold run, sd_normal_command. cbn. unfold s1. sd_simp. by rewrite (pr_spi _ _ _ _ _ P), Hst, Hrca. }
  rewrite Er. cbn [mbind res_bind make_response]. eexists _, _. split; [done|]. constructor; try done; [present_tac].
Qed.
Lemma id_reset b n hc :
  bdrv_is_inserted b = true → 0 <= bdrv_get_geometry b < 2 ^ 32 →
  leads (mkReq 0 0) (stands b n hc sd_idle_state 0x100 0) (stands b 512 (high_capacity (bdrv_get_geometry b)) sd_idle_state 0x100 0).
Proof.
  intros Hi Hg. id_step. assert (run = Ok (sd_r0, sd_reset (set_state s1 sd_idle_state) (Some b))) as Er.
  { unfold run, sd_normal_command. cbn -[sd_reset]. unfold s1. sd_simp. by rewrite (pr_spi _ _ _ _ _ P), Hst, (pr_bdrv _ _ _ _ _ P). }
  rewrite Er. cbn [mbind res_bind make_response]. destruct (reset_present false b (set_state s1 sd_idle_state)) as (P' & Hst' & Hcs' & Hr'); [done|done|apply P..|].
  eexists _, _. split; [reflexivity|]. clear Er. generalize dependent (sd_reset (set_state s1 sd_idle_state) (Some b)). intros s2 P' Hst' Hcs' Hr'.
  constructor; [destruct P'; constructor; sd_simp; done|done..].
Qed.

Lemma leads_then req reqs P Q R s :
  leads req P Q → (∀ s, Q s → ∃ rs s', commands reqs s = Ok (rs, s') ∧ R s') → P s → ∃ rs s', commands (req :: reqs) s = Ok (rs, s') ∧ R s'.
Proof. intros L K Hs. destruct (L s Hs) as (r & s1 & E & H1). destruct (K s1 H1) as (rs & s2 & E2 & H2). exists (r :: rs), s2. cbn [commands]. rewrite E. cbn [mbind res_bind]. by rewrite E2. Qed.

(** The commands with which a host finds and selects a fresh card. *)
Definition identification (v : Z) : list SDRequest := [mkReq 0 0; mkReq 55 0; mkReq 41 v; mkReq 2 0; mkReq 3 0; mkReq 7 0x45670000].
Lemma identified b blk v :
  bdrv_is_inserted b = true → 0 <= bdrv_get_geometry b < 2 ^ 32 → length blk = 512%nat → v <> 0 →
  ∃ rs s, commands (identification v) (sd_init (Some b) false blk) = Ok (rs, s) ∧ ready false b 512 (high_capacity (bdrv_get_geometry b)) s.
Proof.
  intros Hi Hg Hb Hv. eapply leads_then; [by eapply (id_reset b 512 (high_capacity (bdrv_get_geometry b)))| |].
  2: { destruct (init_present false b blk Hi Hg Hb) as (P & ? & ? & ?). by constructor. }
  intros s1 S1. eapply leads_then; [apply id_app| |exact S1]. intros s2 S2. eapply leads_then; [by apply id_op_cond| |exact S2].
  intros s3 S3. eapply leads_then; [apply id_cid| |exact S3]. intros s4 S4. eapply leads_then; [apply id_rca| |exact S4].
  intros s5 S5. eapply leads_then; [apply id_select| |exact S5]. intros s6 [P Hst Hcs _]. exists [], s6. split; [done|]. constructor; [done|done|]. rewrite Hcs. by exists 3.
Qed.
End identification.

(** ** Registers *)

(** What a host computes from the CSD register, by the formulas of the SD specification. *)
Definition reg_byte (l : list Z) (k : nat) : Z := default 0 (l !! k).
Definition csd_c_size (c6 c7 c8 : Z) : Z := Z.lor (Z.lor (Z.shiftl (Z.land c6 3) 10) (Z.shiftl c7 2)) (Z.shiftr c8 6).
Definition csd_capacity (l : list Z) : Z :=
  if Z.shiftr (reg_byte l 0) 6 =? 0 then
    let mult := Z.lor (Z.shiftl (Z.land (reg_byte l 9) 3) 1) (Z.shiftr (reg_byte l 10) 7) in
    (csd_c_size (reg_byte l 6) (reg_byte l 7) (reg_byte l 8) + 1) * 2 ^ (mult + 2) * 2 ^ Z.land (reg_byte l 5) 15
  else
    (Z.lor (Z.lor (Z.shiftl (Z.land (reg_byte l 7) 0x3f) 16) (Z.shiftl (reg_byte l 8) 8)) (reg_byte l 9) + 1) * 2 ^ 19.

(** The twelve bits of the size, as they are spread over three bytes. *)
Definition spread_c_size (csize : Z) : Z :=
  csd_c_size (Z.lor 0xe0 (Z.land (Z.shiftr csize 10) 0x03)) (Z.land (Z.shiftr csize 2) 0xff) (Z.lor 0x3f (Z.land (u32 (Z.shiftl csize 6)) 0xc0)).
Lemma spread_c_size_ok csize : 0 <= csize < 4096 → spread_c_size csize = csize.
Proof.
  intros Hc. assert (forallb (λ k, spread_c_size (Z.of_nat k) =? Z.of_nat k) (seq 0 4096) = true) as Hall by (vm_compute; done).
  rewrite forallb_forall in Hall. specialize (Hall (Z.to_nat csize)). rewrite Z2Nat.id in Hall by lia. apply Z.eqb_eq, Hall, in_seq. lia.
Qed.

Lemma join_bytes v : 0 <= v < 2 ^ 22 →
  Z.lor (Z.lor (Z.shiftl (Z.land (Z.land (Z.shiftr v 16) 0xff) 0x3f) 16) (Z.shiftl (Z.land (Z.shiftr v 8) 0xff) 8)) (Z.land v 0xff) = v.
Proof.
  intros Hv. change 0xff with (Z.ones 8). change 0x3f with (Z.ones 6). rewrite !Z.land_ones, !Z.shiftr_div_pow2, !Z.shiftl_mul_pow2 by lia.
  pose proof (Z.div_mod v (2 ^ 8) ltac:(lia)) as E0. pose proof (Z.mod_pos_bound v (2 ^ 8) ltac:(lia)). pose proof (Z.div_mod (v / 2 ^ 8) (2 ^ 8) ltac:(lia)) as E1.
  pose proof (Z.mod_pos_bound (v / 2 ^ 8) (2 ^ 8) ltac:(lia)). rewrite Z.div_div in E1 by lia. change (2 ^ 8 * 2 ^ 8) with (2 ^ 16) in E1.
  pose proof (Z.div_pos v (2 ^ 16) ltac:(lia) ltac:(lia)). assert (v / 2 ^ 16 < 2 ^ 6) by (apply Z.div_lt_upper_bound; lia).
  rewrite (Z.mod_small (v / 2 ^ 16)) by lia. rewrite (Z.mod_small (v / 2 ^ 16)) by lia.
  change (2 ^ 16) with (2 ^ 8 * 2 ^ 8) at 2. rewrite Z.mul_assoc, <- Z.lor_assoc. rewrite (Z.lor_assoc (_ * _)).
  replace (Z.lor (v / 2 ^ 16 * 2 ^ 8 * 2 ^ 8) ((v / 2 ^ 8) mod 2 ^ 8 * 2 ^ 8)) with ((v / 2 ^ 16 * 2 ^ 8 + (v / 2 ^ 8) mod 2 ^ 8) * 2 ^ 8).
  - rewrite lor_add by lia. lia.
  - rewrite <- lor_add by lia. rewrite <- !Z.shiftl_mul_pow2 by lia. by rewrite Z.shiftl_lor.
Qed.

(** The checksum: polynomials over the field of two elements are numbers, one bit per
    coefficient; this is the product with [x^7 + x^3 + 1]. *)
Definition times_g (q : Z) : Z := Z.lxor (Z.lxor (Z.shiftl q 7) (Z.shiftl q 3)) q.
Definition message_value (l : list Z) : Z := fold_left (λ acc b, 256 * acc + b) l 0.
(** [reg] holds the remainder of [m * x^7], below a bit of no meaning. *)
Definition remainder_of (m reg : Z) : Prop := 0 <= reg < 256 ∧ ∃ q, 0 <= q ∧ Z.shiftl m 7 = Z.lxor (times_g q) (Z.land reg 0x7f).

Lemma times_g_lxor a b : times_g (Z.lxor a b) = Z.lxor (times_g a) (times_g b).
Proof.
  unfold times_g. rewrite !Z.shiftl_lxor. apply Z.bits_inj'. intros n _. rewrite !Z.lxor_spec.
  by destruct (Z.testbit (Z.shiftl a 7) n), (Z.testbit (Z.shiftl b 7) n), (Z.testbit (Z.shiftl a 3) n), (Z.testbit (Z.shiftl b 3) n), (Z.testbit a n), (Z.testbit b n).
Qed.
Lemma times_g_shiftl q : 0 <= q → times_g (Z.shiftl q 1) = Z.shiftl (times_g q) 1.
Proof. intros Hq. unfold times_g. rewrite !Z.shiftl_lxor, !Z.shiftl_shiftl by lia. done. Qed.

(** The register as a function of its value and of the next bit, for all of them. *)
Definition crc7_taps (reg m : Z) : bool := xorb (Z.testbit reg 6) (Z.testbit m 0).
Lemma crc7_bit_cases msg reg bit m :
  0 <= reg < 256 → Z.land (Z.shiftr msg bit) 1 = m → m = 0 ∨ m = 1 →
  0 <= crc7_bit msg reg bit < 256 ∧
  Z.land (crc7_bit msg reg bit) 0x7f = Z.lxor (Z.lxor (Z.shiftl (Z.land reg 0x7f) 1) (Z.shiftl m 7)) (if crc7_taps reg m then 0x89 else 0).
Proof.
  intros Hr Em Hm. unfold crc7_bit. rewrite Em. clear Em.
  set (f := λ reg m, let r := u8 (Z.shiftl reg 1) in if truth (Z.lxor (Z.shiftr r 7) m) then Z.lxor r 0x89 else r).
  change (0 <= f reg m < 256 ∧ Z.land (f reg m) 0x7f = Z.lxor (Z.lxor (Z.shiftl (Z.land reg 0x7f) 1) (Z.shiftl m 7)) (if crc7_taps reg m then 0x89 else 0)).
  assert (forallb (λ k, forallb (λ m, let reg := Z.of_nat k in (0 <=? f reg m) && (f reg m <? 256) &&
    (Z.land (f reg m) 0x7f =? Z.lxor (Z.lxor (Z.shiftl (Z.land reg 0x7f) 1) (Z.shiftl m 7)) (if crc7_taps reg m then 0x89 else 0))) [0; 1]) (seq 0 256) = true) as Hall by (vm_compute; done).
  rewrite forallb_forall in Hall. specialize (Hall (Z.to_nat reg) ltac:(apply in_seq; lia)). rewrite forallb_forall in Hall.
  specialize (Hall m ltac:(destruct Hm as [-> | ->]; cbn; auto)). cbv zeta in Hall. rewrite Z2Nat.id in Hall by lia. bool_to_prop. lia.
Qed.

Lemma crc7_step m msg reg bit v :
  remainder_of m reg → v = 0 ∨ v = 1 → Z.land (Z.shiftr msg bit) 1 = v → remainder_of (2 * m + v) (crc7_bit msg reg bit).
Proof.
  intros [Hr (q & Hq & E)] Hv Ev. destruct (crc7_bit_cases msg reg bit v Hr Ev Hv) as [Hr' E']. split; [done|]. rewrite E'.
  assert (2 * m + v = Z.lxor (Z.shiftl m 1) v) as ->.
  { rewrite Z.shiftl_mul_pow2 by lia. change (m * 2 ^ 1) with (m * 2). destruct Hv as [-> | ->]; [rewrite Z.lxor_0_r; lia|].
    rewrite <- Z.add_nocarry_lxor; [lia|]. apply Z.bits_inj'. intros n Hn. rewrite Z.land_spec, Z.bits_0. destruct (Z.eq_dec n 0) as [->|].
    - by rewrite Z.mul_comm, Z.testbit_even_0.
    - destruct n; [done|by rewrite andb_comm|lia]. }
  exists (if crc7_taps reg v then Z.lxor (Z.shiftl q 1) 1 else Z.shiftl q 1). rewrite Z.shiftl_lxor, Z.shiftl_shiftl by lia. rewrite (Z.add_comm 1 7), <- Z.shiftl_shiftl, E, Z.shiftl_lxor, <- times_g_shiftl by lia.
  assert (0 <= Z.shiftl q 1) by (by apply Z.shiftl_nonneg). destruct (crc7_taps reg v).
  - split; [by apply Z.lxor_nonneg|]. rewrite times_g_lxor. change (times_g 1) with 0x89. apply Z.bits_inj'. intros n _. rewrite !Z.lxor_spec.
    by destruct (Z.testbit (times_g _) n), (Z.testbit (Z.shiftl (Z.land _ _) _) n), (Z.testbit (Z.shiftl v 7) n), (Z.testbit 0x89 n).
  - split; [done|]. by rewrite Z.lxor_0_r, Z.lxor_assoc.
Qed.

Definition bit_of (b k : Z) : Z := Z.land (Z.shiftr b k) 1.
Lemma bit_of_cases b k : bit_of b k = 0 ∨ bit_of b k = 1.
Proof. unfold bit_of. pose proof (land_low (Z.shiftr b k) 1 ltac:(lia)) as H. change (2 ^ 1 - 1) with 1 in H. change (2 ^ 1) with 2 in H. lia. Qed.
Lemma byte_bits b : 0 <= b < 256 → b = fold_left (λ acc k, 2 * acc + bit_of b k) [7; 6; 5; 4; 3; 2; 1; 0] 0.
Proof.
  intros Hb. assert (forallb (λ k, let b := Z.of_nat k in b =? fold_left (λ acc k, 2 * acc + bit_of b k) [7; 6; 5; 4; 3; 2; 1; 0] 0) (seq 0 256) = true) as Hall by (vm_compute; done).
  rewrite forallb_forall in Hall. specialize (Hall (Z.to_nat b) ltac:(apply in_seq; lia)). cbv zeta in Hall. rewrite Z2Nat.id in Hall by lia. by apply Z.eqb_eq.
Qed.

Lemma fold_left_step {A C} (f : A → C → A) x l a : fold_left f (x :: l) a = fold_left f l (f a x).
Proof. done. Qed.
Lemma crc7_bits b ks : ∀ m reg, remainder_of m reg → remainder_of (fold_left (λ acc k, 2 * acc + bit_of b k) ks m) (fold_left (crc7_bit b) ks reg).
Proof. induction ks as [|k ks IH]; intros m reg H; [exact H|]. rewrite !fold_left_step. apply IH. apply (crc7_step _ _ _ _ (bit_of b k)); [exact H|apply bit_of_cases|reflexivity]. Qed.
Lemma byte_value b m : 0 <= b < 256 → fold_left (λ acc k, 2 * acc + bit_of b k) [7; 6; 5; 4; 3; 2; 1; 0] m = 256 * m + b.
Proof. intros Hb. pose proof (byte_bits b Hb) as E. cbn [fold_left] in *. lia. Qed.

(** The checksum of the registers and of commands is the remainder of the message, times
    [x^7], divided by the polynomial of the SD specification. *)
Theorem sd_crc7_is_remainder l : Forall (λ b, 0 <= b < 256) l → remainder_of (message_value l) (sd_crc7 l).
Proof.
  intros F. unfold message_value, sd_crc7. assert (∀ m reg, remainder_of m reg → remainder_of (fold_left (λ acc b, 256 * acc + b) l m) (fold_left crc7_byte l reg)) as Hgen.
  { induction F as [|b l Hb F IH]; intros m reg H; [exact H|]. rewrite !fold_left_step. apply IH. rewrite <- (byte_value b m Hb). by apply crc7_bits. }
  apply Hgen. split; [lia|]. exists 0. split; [lia|reflexivity].
Qed.

Section registers.
Context {B : Type} {DB : BlockDriver B}.

Lemma reset_csd b (s : SDState B) :
  0 <= bdrv_get_geometry b < 2 ^ 32 → csd (sd_reset s (Some b)) = csd (sd_set_csd (sd_set_cid (sd_set_scr (sd_set_ocr (set_rca (set_state s sd_idle_state) 0)))) (512 * bdrv_get_geometry b + 1)).
Proof. intros Hg. unfold sd_reset. by rewrite (size_ok _ Hg). Qed.

(** [C33]: the CSD register of a card, read by the formulas of the SD specification, gives
    the size of the image, rounded down to the unit in which the register counts: 256 KiB,
    and 512 KiB on a high capacity card; images of less than 256 KiB are excluded. *)
Theorem csd_reports_capacity b (s : SDState B) :
  512 <= bdrv_get_geometry b < 2 ^ 32 →
  let unit := if high_capacity (bdrv_get_geometry b) then 1024 else 512 in
  csd_capacity (csd (sd_reset s (Some b))) = 512 * (bdrv_get_geometry b - bdrv_get_geometry b mod unit).
Proof.
  intros Hg. rewrite reset_csd by lia. set (s1 := sd_set_cid _). unfold high_capacity. set (g := bdrv_get_geometry b) in *. unfold sd_set_csd.
  assert (Z.shiftr (512 * g + 1) (CMULT_SHIFT + HWBLOCK_SHIFT) = g / 512) as Eq.
  { change (CMULT_SHIFT + HWBLOCK_SHIFT) with 18. rewrite Z.shiftr_div_pow2 by lia. change (2 ^ 18) with (512 * 512). rewrite <- Z.div_div by lia.
    f_equal. symmetry. apply (Z.div_unique _ _ _ 1); lia. }
  destruct (Z.leb_spec (512 * g + 1) 0x40000000) as [Hle|Hgt].
  - rewrite (proj2 (Z.ltb_ge _ _)) by lia. rewrite Eq. assert (1 <= g / 512 <= 4096) as Hq by (split; [apply Z.div_le_lower_bound; lia|apply Z.div_le_upper_bound; lia]).
    rewrite u32_small by lia. set (c := g / 512 - 1).
    transitivity ((spread_c_size c + 1) * 2 ^ 9 * 2 ^ 9); [reflexivity|]. rewrite spread_c_size_ok by lia. unfold c. pose proof (Z.div_mod g 512). lia.
  - rewrite (proj2 (Z.ltb_lt _ _)) by lia. assert (Z.quot (512 * g + 1) (512 * 1024) = g / 1024) as ->.
    { rewrite Z.quot_div_nonneg by lia. rewrite <- Z.div_div by lia. f_equal. symmetry. apply (Z.div_unique _ _ _ 1); lia. }
    assert (1 <= g / 1024 <= 2 ^ 22) as Hq by (split; [apply Z.div_le_lower_bound; lia|apply Z.div_le_upper_bound; lia]).
    rewrite u64_small by lia. set (c := g / 1024 - 1).
    transitivity ((Z.lor (Z.lor (Z.shiftl (Z.land (Z.land (Z.shiftr c 16) 0xff) 0x3f) 16) (Z.shiftl (Z.land (Z.shiftr c 8) 0xff) 8)) (Z.land c 0xff) + 1) * 2 ^ 19); [reflexivity|].
    rewrite join_bytes by lia. unfold c. pose proof (Z.div_mod g 1024). lia.
Qed.

(** An image of less than 256 KiB is reported as one of 1 GiB. *)
Theorem csd_small_image b (s : SDState B) :
  0 <= bdrv_get_geometry b < 512 → csd_capacity (csd (sd_reset s (Some b))) = 2 ^ 30.
Proof.
  intros Hg. rewrite reset_csd by lia. set (s1 := sd_set_cid _). set (g := bdrv_get_geometry b) in *. unfold sd_set_csd.
  assert (Z.shiftr (512 * g + 1) (CMULT_SHIFT + HWBLOCK_SHIFT) = 0) as ->.
  { change (CMULT_SHIFT + HWBLOCK_SHIFT) with 18. rewrite Z.shiftr_div_pow2, Z.div_small by lia. done. }
  by rewrite (proj2 (Z.leb_le _ _)) by lia.
Qed.
End registers.

(** ** Images *)

(** An image in memory; a sector that is too short is filled with zeros. *)
Record image := mkImage { sectors : list (list Z); inserted : bool; read_only : bool }.
Definition EIO : Z := 5.
Definition image_sector (b : image) (k : Z) : list Z := take 512 (default [] (sectors b !! Z.to_nat k) ++ replicate 512 0).
Definition image_has (b : image) (k : Z) : bool := inserted b && (0 <=? k) && (k <? Z.of_nat (length (sectors b))).
#[global] Instance image_driver : BlockDriver image := {
  bdrv_get_geometry b := Z.of_nat (length (sectors b));
  bdrv_is_inserted := inserted;
  bdrv_is_read_only := read_only;
  bdrv_read b k m := if image_has b k then (0, image_sector b k) else (- EIO, m);
  bdrv_write b k m := if image_has b k && negb (read_only b) then (0, mkImage (<[Z.to_nat k := m]> (sectors b)) (inserted b) (read_only b)) else (- EIO, b);
}.

Lemma image_sector_length b k : length (image_sector b k) = 512%nat.
Proof. unfold image_sector. rewrite length_take, length_app, length_replicate. lia. Qed.

#[global, refine] Instance image_laws : BlockLaws image := {| sector := image_sector |}.
Proof.
  all: cbn [bdrv_get_geometry bdrv_is_inserted bdrv_is_read_only bdrv_read bdrv_write image_driver].
  - intros b k _. apply image_sector_length.
  - intros b k m Hm. destruct (image_has b k); [apply image_sector_length|done].
  - intros b k m Hi _ Hk. unfold image_has. by rewrite Hi, (proj2 (Z.leb_le _ _)), (proj2 (Z.ltb_lt _ _)) by lia.
  - intros b k m b' <-. destruct (_ && _); cbn; [|done]. by rewrite length_insert.
  - intros b k m Hi Hro Hm Hk. unfold image_has. rewrite Hi, Hro, (proj2 (Z.leb_le _ _)), (proj2 (Z.ltb_lt _ _)) by lia. cbn [andb negb fst snd]. split; [done|].
    intros j Hj. unfold image_sector at 1. cbn [sectors]. destruct (Z.eqb_spec j k) as [->|Hne].
    + rewrite list_lookup_insert_eq by lia. cbn. apply take_app_length'. lia.
    + by rewrite list_lookup_insert_ne by lia.
Defined.

(** ** Examples, and what is not enforced *)

Definition demo_image : image := mkImage [replicate 512 0x11; replicate 512 0x22] true false.
Definition demo_card : SDState image :=
  match commands (identification 0x00ff8000) (sd_init (Some demo_image) false (replicate 512 0)) with Ok (_, s) => s | Err _ => sd_init None false [] end.
Lemma demo_ready : ready false demo_image 512 false demo_card.
Proof.
  destruct (identified demo_image (replicate 512 0) 0x00ff8000) as (rs & s & E & R); [done|cbn; lia|done|lia|].
  change (high_capacity (bdrv_get_geometry demo_image)) with false in R. unfold demo_card. rewrite E. exact R.
Qed.
Definition demo_ops : list card_op := [SetLen 16; WriteBlock 504 (Z.of_nat <$> seq 0 16); ReadBlock 500; SetLen 512; ReadBlocks 0 2].

Lemma sd_card_is_array_witness :
  ∃ s b, host_run demo_ops demo_card = Ok ((abs_card_run false demo_ops (mkCard (byte_at demo_image) 512)).1, s) ∧
    ready false b 512 false s ∧ card_is b (abs_card_run false demo_ops (mkCard (byte_at demo_image) 512)).2.
Proof.
  apply (sd_card_is_array demo_image false (mkCard (byte_at demo_image) 512) demo_card demo_ops demo_ready); [reflexivity|by intros a _|].
  repeat split; cbn; lia.
Defined.
Lemma csd_reports_capacity_witness : csd_capacity (csd (sd_reset demo_card (Some (mkImage (replicate 1025 []) true false)))) = 512 * 1024.
Proof. refine (csd_reports_capacity (mkImage (replicate 1025 []) true false) demo_card _). cbn [bdrv_get_geometry image_driver sectors]. rewrite length_replicate. lia. Defined.

(** Writing to a protected group is reported with [WP_VIOLATION], and the block is written
    nevertheless: the response clears the flag that [sd_write_data] tests. *)
Theorem write_protection_not_enforced {B} `{BlockLaws B} b n hc (s : SDState B) a l w :
  ready false b n hc s → bdrv_is_read_only b = false → 0 <= a < 2 ^ 32 → address hc a + n <= 512 * bdrv_get_geometry b → Z.of_nat (length l) = n →
  sd_wp_addr s (address hc a) = Ok w → truth w = true →
  ∃ r s1 s2 b', sd_do_command s (mkReq 24 a) = Ok (r, s1) ∧ Z.testbit (default 0 (r !! 0%nat)) 2 = true ∧
    write_bytes l s1 = Ok s2 ∧ bdrv s2 = Some b' ∧
    ∀ i, 0 <= i < n → byte_at b' (address hc a + i) = default 0 (l !! Z.to_nat i).
Proof.
  intros R Hro Ha Hr Hl Hw Ht. destruct (write_starts _ _ _ _ a l R Ha Hr) as (r & s1 & E & S1 & Hf).
  pose proof (address_ok _ _ _ _ a (rc_present _ _ _ _ _ _ _ S1) Ha) as [_ Hrange].
  destruct (write_block_ok _ _ _ _ _ _ S1 Hro ltac:(lia) Hr Hl) as (s2 & b2 & E2 & R2 & G2 & Ro2 & B2). exists r, s1, s2, b2.
  split; [done|]. split; [by apply (Hf w)|]. split; [done|]. split; [apply R2|]. intros i Hi. rewrite B2 by lia.
  rewrite (proj2 (Z.leb_le _ _)), (proj2 (Z.ltb_lt _ _)) by lia. cbn [andb]. do 3 f_equal. lia.
Qed.

(** A locked card refuses the commands of class 0 and 7, SET_BLOCKLEN and APP_CMD, which are
    the ones that a locked card has to take, and takes the others. *)
Theorem lock_is_inverted cs c :
  truth (Z.land cs CARD_IS_LOCKED) = true → truth (Z.land cs APP_CMD) = false →
  (c ∈ [0; 12; 13; 16; 42; 55] → lock_refuses cs c = Ok true) ∧ (c ∈ [17; 18; 24; 25; 28; 29; 32; 33; 38] → lock_refuses cs c = Ok false).
Proof.
  intros HL HA. unfold lock_refuses. rewrite HL, HA. split; intros Hc; repeat (apply elem_of_cons in Hc as [-> | Hc]; [done|]); by apply elem_of_nil in Hc.
Qed.

(** The right password does not unlock the card. *)
Theorem unlock_impossible {B} (s : SDState B) d0 :
  aread (data s) 0 = Ok d0 → truth (Z.land d0 0x08) = false → 1 < blk_len s → aread (data s) 1 = Ok (pwd_len s) →
  sd_lock_command s = Ok (raise s LOCK_UNLOCK_FAILED).
Proof.
  intros E0 He Hb E1. unfold sd_lock_command. rewrite E0. cbn [mbind res_bind]. rewrite He, (proj2 (Z.ltb_lt _ _) Hb), E1. cbn [mbind res_bind].
  by rewrite Z.leb_refl, orb_true_r.
Qed.

(** After the last block of the card is written with WRITE_MULTIPLE_BLOCK the card stays in
    the programming state: it refuses STOP_TRANSMISSION, and every read. *)
Theorem last_block_hangs :
  ('(_, s) ← sd_do_command demo_card (mkReq 25 512);
   s ← write_bytes (replicate 512 0x33) s;
   '(r1, s1) ← sd_do_command s (mkReq 12 0);
   '(r2, s2) ← sd_do_command s1 (mkReq 17 0);
   Ok (state s, r1, r2, state s2)) = Ok (sd_programming_state, [], [], sd_programming_state).
Proof. vm_compute. reflexivity. Qed.

(** The end of the range to erase is not compared with the size of the card, and a voltage
    of CMD8 can make the shift undefined. *)
Theorem erase_out_of_bounds : commands [mkReq 32 512; mkReq 33 0x200000; mkReq 38 0] demo_card = Err Out_of_bounds.
Proof. vm_compute. reflexivity. Qed.
Theorem if_cond_bad_shift : sd_do_command (sd_init (Some demo_image) false (replicate 512 0)) (mkReq 8 0x80000000) = Err Bad_shift.
Proof. vm_compute. reflexivity. Qed.

(** A write beyond the end is flagged, and then looked up in the table of protected groups
    all the same. *)
Theorem write_beyond_out_of_bounds : sd_do_command demo_card (mkReq 24 0x400000) = Err Out_of_bounds.
Proof. vm_compute. reflexivity. Qed.
