(* ===== verification/SsiSd.v ===== *)
(** * SsiSd: the SD card on a serial bus (hw/ssi-sd.c)

    The adapter that makes the card of [Sd] a slave of the SSI bus: it collects the bytes of
    a command, answers with the status in the form of SPI mode, and passes data bytes on. *)

From S2P Require Import Prelude Ssi Sd SdFacts.
Local Open Scope Z_scope.

(** ** The adapter *)

Definition SSI_SD_CMD : Z := 0.
Definition SSI_SD_CMDARG : Z := 1.
Definition SSI_SD_RESPONSE : Z := 2.
Definition SSI_SD_DATA_START : Z := 3.
Definition SSI_SD_DATA_READ : Z := 4.

Definition SSI_SDR_LOCKED : Z := 0x0001.
Definition SSI_SDR_WP_ERASE : Z := 0x0002.
Definition SSI_SDR_ERROR : Z := 0x0004.
Definition SSI_SDR_CC_ERROR : Z := 0x0008.
Definition SSI_SDR_ECC_FAILED : Z := 0x0010.
Definition SSI_SDR_WP_VIOLATION : Z := 0x0020.
Definition SSI_SDR_ERASE_PARAM : Z := 0x0040.
Definition SSI_SDR_OUT_OF_RANGE : Z := 0x0080.
Definition SSI_SDR_IDLE : Z := 0x0100.
Definition SSI_SDR_ERASE_RESET : Z := 0x0200.
Definition SSI_SDR_ILLEGAL_COMMAND : Z := 0x0400.
Definition SSI_SDR_COM_CRC_ERROR : Z := 0x0800.
Definition SSI_SDR_ERASE_SEQ_ERROR : Z := 0x1000.
Definition SSI_SDR_ADDRESS_ERROR : Z := 0x2000.
Definition SSI_SDR_PARAMETER_ERROR : Z := 0x4000.

Section adapter.
Context {B : Type} `{BlockDriver B}.

(** The members of the structure that other devices have as well carry a prefix. *)
Record ssi_sd_state := mkSsiSd {
  ss_mode : Z; ss_cmd : Z; cmdarg : list Z; response : list Z; arglen : Z; response_pos : Z; stopping : Z;
  card : SDState B;
}.
Definition set_ss_mode (s : ssi_sd_state) (v : Z) : ssi_sd_state :=
  mkSsiSd v (ss_cmd s) (cmdarg s) (response s) (arglen s) (response_pos s) (stopping s) (card s).
Definition set_stopping (s : ssi_sd_state) (v : Z) : ssi_sd_state :=
  mkSsiSd (ss_mode s) (ss_cmd s) (cmdarg s) (response s) (arglen s) (response_pos s) v (card s).
Definition set_pos (s : ssi_sd_state) (v : Z) : ssi_sd_state :=
  mkSsiSd (ss_mode s) (ss_cmd s) (cmdarg s) (response s) (arglen s) v (stopping s) (card s).
Definition set_card (s : ssi_sd_state) (v : SDState B) : ssi_sd_state :=
  mkSsiSd (ss_mode s) (ss_cmd s) (cmdarg s) (response s) (arglen s) (response_pos s) (stopping s) v.
Definition set_args (s : ssi_sd_state) (c : Z) (a : list Z) (n : Z) : ssi_sd_state :=
  mkSsiSd (ss_mode s) c a (response s) n (response_pos s) (stopping s) (card s).
Definition set_response (s : ssi_sd_state) (r : list Z) (n : Z) : ssi_sd_state :=
  mkSsiSd (ss_mode s) (ss_cmd s) (cmdarg s) r n (response_pos s) (stopping s) (card s).

(** The status word of SPI mode. *)
Definition spi_status (cardstatus : Z) : Z :=
  let on flags bit := if truth (Z.land cardstatus flags) then bit else 0 in
  let status := if Z.land (Z.shiftr cardstatus 9) 0xf <? 4 then SSI_SDR_IDLE else 0 in
  let status := Z.lor status (on ERASE_RESET SSI_SDR_ERASE_RESET) in
  let status := Z.lor status (on ILLEGAL_COMMAND SSI_SDR_ILLEGAL_COMMAND) in
  let status := Z.lor status (on COM_CRC_ERROR SSI_SDR_COM_CRC_ERROR) in
  let status := Z.lor status (on ERASE_SEQ_ERROR SSI_SDR_ERASE_SEQ_ERROR) in
  let status := Z.lor status (on ADDRESS_ERROR SSI_SDR_ADDRESS_ERROR) in
  let status := Z.lor status (on CARD_IS_LOCKED SSI_SDR_LOCKED) in
  let status := Z.lor status (on (Z.lor LOCK_UNLOCK_FAILED WP_ERASE_SKIP) SSI_SDR_WP_ERASE) in
  let status := Z.lor status (on SD_ERROR SSI_SDR_ERROR) in
  let status := Z.lor status (on CC_ERROR SSI_SDR_CC_ERROR) in
  let status := Z.lor status (on CARD_ECC_FAILED SSI_SDR_ECC_FAILED) in
  let status := Z.lor status (on WP_VIOLATION SSI_SDR_WP_VIOLATION) in
  let status := Z.lor status (on ERASE_PARAM SSI_SDR_ERASE_PARAM) in
  let status := Z.lor status (on (Z.lor OUT_OF_RANGE CID_CSD_OVERWRITE) SSI_SDR_OUT_OF_RANGE) in
  if truth (Z.land status 0xff) then Z.lor status SSI_SDR_PARAMETER_ERROR else status.

Definition be_value (l : list Z) : res Z :=
  b0 ← aread l 0; b1 ← aread l 1; b2 ← aread l 2; b3 ← aread l 3;
  Ok (u32 (Z.lor (Z.lor (Z.lor (Z.shiftl b0 24) (Z.shiftl b1 16)) (Z.shiftl b2 8)) b3)).

(** The command is complete: it runs, and its response is made. *)
Definition run_command (s : ssi_sd_state) : res ssi_sd_state :=
  a ← be_value (cmdarg s);
  '(longresp, sd) ← sd_do_command (card s) (mkReq (ss_cmd s) a);
  let s := set_card s sd in
  let arglen := Z.of_nat (length longresp) in
  s ← (if arglen <=? 0 then r ← awrite (response s) 0 4; Ok (set_response s r 1)
       else if ss_cmd s =? 58 then
         r ← awrite (response s) 0 1;
         r ← memcpy r 1 longresp 0 4;
         Ok (set_response s r 5)
       else if negb (arglen =? 4) then r ← awrite (response s) 0 4; Ok (set_response s r 1)
       else
         cardstatus ← be_value longresp;
         let status := spi_status cardstatus in
         r ← awrite (response s) 0 (u8 (Z.shiftr status 8));
         r ← awrite r 1 (u8 status);
         Ok (set_response s r (if ss_cmd s =? 13 then 2 else 1)));
  Ok (set_pos (set_ss_mode s SSI_SD_RESPONSE) 0).

Definition ssi_sd_transfer (val : Z) (s : ssi_sd_state) : res (Z * ssi_sd_state) :=
  let s := if (ss_mode s =? SSI_SD_DATA_READ) && (val =? 0x4d) then set_stopping (set_ss_mode s SSI_SD_CMD) 1 else s in
  if ss_mode s =? SSI_SD_CMD then
    if val =? 0xff then Ok (0xff, s)
    else Ok (0xff, set_ss_mode (set_args s (Z.land val 0x3f) (cmdarg s) 0) SSI_SD_CMDARG)
  else if ss_mode s =? SSI_SD_CMDARG then
    if arglen s =? 4 then s ← run_command s; Ok (0xff, s)
    else l ← awrite (cmdarg s) (arglen s) (u8 val); Ok (0xff, set_args s (ss_cmd s) l (arglen s + 1))
  else if ss_mode s =? SSI_SD_RESPONSE then
    if truth (stopping s) then Ok (0xff, set_stopping s 0)
    else if response_pos s <? arglen s then v ← aread (response s) (response_pos s); Ok (v, set_pos s (response_pos s + 1))
    else Ok (0xff, set_ss_mode s (if truth (sd_data_ready (card s)) then SSI_SD_DATA_START else SSI_SD_CMD))
  else if ss_mode s =? SSI_SD_DATA_START then Ok (0xfe, set_ss_mode s SSI_SD_DATA_READ)
  else if ss_mode s =? SSI_SD_DATA_READ then
    '(v, sd) ← sd_read_data (card s);
    let s := set_card s sd in
    Ok (v, if truth (sd_data_ready sd) then s else set_ss_mode s SSI_SD_CMD)
  else Ok (0xff, s).

#[global] Instance ssi_sd_slave : SSISlave ssi_sd_state := {| ssi_cb := ssi_sd_transfer |}.

(** The drive may be missing; [blk] is what the allocator returns for the sector buffer. *)
Definition ssi_sd_init (bs : option B) (blk : list Z) : ssi_sd_state :=
  mkSsiSd SSI_SD_CMD 0 (replicate 4 0) (replicate 5 0) 0 0 0 (sd_init bs true blk).

(** ** Saving and loading

    A file is its bytes; reading past its end gives zeros. *)

Definition qemu_put_be32 (f : list Z) (v : Z) : list Z := f ++ be_word v.
Definition qemu_get_byte (f : list Z) : Z * list Z := match f with [] => (0, []) | b :: f => (b, f) end.
Definition qemu_get_be32 (f : list Z) : Z * list Z :=
  let '(b0, f) := qemu_get_byte f in
  let '(b1, f) := qemu_get_byte f in
  let '(b2, f) := qemu_get_byte f in
  let '(b3, f) := qemu_get_byte f in
  (u32 (Z.lor (Z.lor (Z.lor (Z.shiftl b0 24) (Z.shiftl b1 16)) (Z.shiftl b2 8)) b3), f).

Definition ssi_sd_save (s : ssi_sd_state) (f : list Z) : list Z :=
  let f := qemu_put_be32 f (ss_mode s) in
  let f := qemu_put_be32 f (ss_cmd s) in
  let f := fold_left qemu_put_be32 (cmdarg s) f in
  let f := fold_left qemu_put_be32 (response s) f in
  let f := qemu_put_be32 f (arglen s) in
  let f := qemu_put_be32 f (response_pos s) in
  qemu_put_be32 f (stopping s).
(** [n] bytes, each from a word. *)
Fixpoint get_cells (n : nat) (f : list Z) : list Z * list Z :=
  match n with
  | O => ([], f)
  | S n => let '(v, f) := qemu_get_be32 f in let '(l, f) := get_cells n f in (u8 v :: l, f)
  end.
Definition EINVAL : Z := 22.
Definition ssi_sd_load (version_id : Z) (f : list Z) (s : ssi_sd_state) : Z * ssi_sd_state * list Z :=
  if negb (version_id =? 1) then (- EINVAL, s, f)
  else
    let '(m, f) := qemu_get_be32 f in
    let '(c, f) := qemu_get_be32 f in
    let '(a, f) := get_cells 4 f in
    let '(r, f) := get_cells 5 f in
    let '(n, f) := qemu_get_be32 f in
    let '(p, f) := qemu_get_be32 f in
    let '(st, f) := qemu_get_be32 f in
    (0, mkSsiSd m (s32 c) a r (s32 n) (s32 p) (s32 st) (card s), f).
End adapter.
Arguments ssi_sd_state : clear implicits.

(** ** Reading blocks *)

Fixpoint transfers {B} `{BlockDriver B} (vals : list Z) (s : ssi_sd_state B) : res (list Z * ssi_sd_state B) :=
  match vals with [] => Ok ([], s) | v :: vals => '(r, s) ← ssi_sd_transfer v s; '(rs, s) ← transfers vals s; Ok (r :: rs, s) end.

(** The bytes of a command, with its checksum. *)
Definition cmd_frame (c a crc : Z) : list Z := (0x40 + c) :: be_word a ++ [crc].

Lemma be_value_word a : is_u32 a → be_value (be_word a) = Ok a.
Proof.
  intros Ha. transitivity (Ok (u32 (Z.lor (Z.lor (Z.lor (Z.shiftl (u8 (Z.shiftr a 24)) 24) (Z.shiftl (u8 (Z.shiftr a 16)) 16)) (Z.shiftl (u8 (Z.shiftr a 8)) 8)) (u8 a)))); [reflexivity|].
  f_equal. unfold u8, is_u32 in *.
  rewrite !Z.shiftr_div_pow2, !Z.shiftl_mul_pow2 by lia.
  pose proof (Z.div_mod a (2 ^ 8) ltac:(lia)). pose proof (Z.mod_pos_bound a (2 ^ 8) ltac:(lia)).
  pose proof (Z.div_mod (a / 2 ^ 8) (2 ^ 8) ltac:(lia)) as E1. pose proof (Z.mod_pos_bound (a / 2 ^ 8) (2 ^ 8) ltac:(lia)). rewrite Z.div_div in E1 by lia.
  pose proof (Z.div_mod (a / 2 ^ 16) (2 ^ 8) ltac:(lia)) as E2. pose proof (Z.mod_pos_bound (a / 2 ^ 16) (2 ^ 8) ltac:(lia)). rewrite Z.div_div in E2 by lia.
  change (2 ^ 8 * 2 ^ 8) with (2 ^ 16) in E1. change (2 ^ 16 * 2 ^ 8) with (2 ^ 24) in E2. assert (0 <= a / 2 ^ 24 < 2 ^ 8) by (split; [apply Z.div_pos; lia|apply Z.div_lt_upper_bound; lia]).
  rewrite (Z.mod_small (a / 2 ^ 24)) by lia. set (b3 := a / 2 ^ 24) in *. set (b2 := (a / 2 ^ 16) mod 2 ^ 8) in *. set (b1 := (a / 2 ^ 8) mod 2 ^ 8) in *. set (b0 := a mod 2 ^ 8) in *.
  rewrite (lor_add b3 (b2 * 2 ^ 16) 24) by lia. replace (b3 * 2 ^ 24 + b2 * 2 ^ 16) with ((b3 * 2 ^ 8 + b2) * 2 ^ 16) by lia.
  rewrite (lor_add _ (b1 * 2 ^ 8) 16) by lia. replace ((b3 * 2 ^ 8 + b2) * 2 ^ 16 + b1 * 2 ^ 8) with (((b3 * 2 ^ 8 + b2) * 2 ^ 8 + b1) * 2 ^ 8) by lia.
  rewrite lor_add by lia. rewrite u32_small; lia.
Qed.
Lemma u8_u8 v : u8 (u8 v) = u8 v.
Proof. unfold u8. apply Z.mod_mod. lia. Qed.

Section reading.
Context {B : Type} {DB : BlockDriver B} {LB : BlockLaws B}.
Local Notation ready := (ready true).
Local Notation sending := (sending (sp:=true)).
Implicit Types (w : ssi_sd_state B) (s : SDState B) (b : B).

(** Between commands. *)
Record at_rest w : Prop := {
  ar_mode : ss_mode w = SSI_SD_CMD;
  ar_args : length (cmdarg w) = 4%nat;
  ar_response : length (response w) = 5%nat;
  ar_stopping : stopping w = 0;
}.

Lemma transfers_app v1 v2 w : transfers (v1 ++ v2) w = '(r1, w1) ← transfers v1 w; '(r2, w2) ← transfers v2 w1; Ok (r1 ++ r2, w2).
Proof.
  revert w. induction v1 as [|v v1 IH]; intros w; cbn [transfers app].
  - cbn [mbind res_bind]. by destruct (transfers v2 w) as [[]|].
  - destruct (ssi_sd_transfer v w) as [[r w1]|]; [|done]. cbn [mbind res_bind]. rewrite IH. destruct (transfers v1 w1) as [[r1 w2]|]; [|done]. cbn [mbind res_bind].
    by destruct (transfers v2 w2) as [[]|].
Qed.

(** One transfer in each mode. *)
Lemma transfer_cmd v w : ss_mode w = SSI_SD_CMD →
  ssi_sd_transfer v w = Ok (0xff, if v =? 0xff then w else set_ss_mode (set_args w (Z.land v 0x3f) (cmdarg w) 0) SSI_SD_CMDARG).
Proof. intros Hm. unfold ssi_sd_transfer. rewrite Hm. change (SSI_SD_CMD =? SSI_SD_DATA_READ) with false. cbn [andb]. rewrite Hm. change (SSI_SD_CMD =? SSI_SD_CMD) with true. by destruct (v =? 0xff). Qed.
Lemma transfer_arg v w : ss_mode w = SSI_SD_CMDARG → arglen w <> 4 →
  ssi_sd_transfer v w = l ← awrite (cmdarg w) (arglen w) (u8 v); Ok (0xff, set_args w (ss_cmd w) l (arglen w + 1)).
Proof. intros Hm Hn. unfold ssi_sd_transfer. rewrite Hm. cbn [SSI_SD_CMDARG SSI_SD_DATA_READ SSI_SD_CMD Z.eqb andb Pos.eqb]. rewrite Hm. cbn [SSI_SD_CMDARG SSI_SD_CMD Z.eqb Pos.eqb]. by rewrite (proj2 (Z.eqb_neq _ _) Hn). Qed.
Lemma transfer_run v w : ss_mode w = SSI_SD_CMDARG → arglen w = 4 → ssi_sd_transfer v w = w' ← run_command w; Ok (0xff, w').
Proof. intros Hm Hn. unfold ssi_sd_transfer. rewrite Hm. cbn [SSI_SD_CMDARG SSI_SD_DATA_READ SSI_SD_CMD Z.eqb andb Pos.eqb]. rewrite Hm. cbn [SSI_SD_CMDARG SSI_SD_CMD Z.eqb Pos.eqb]. by rewrite Hn. Qed.
Lemma transfer_response v w : ss_mode w = SSI_SD_RESPONSE →
  ssi_sd_transfer v w =
    if truth (stopping w) then Ok (0xff, set_stopping w 0)
    else if response_pos w <? arglen w then r ← aread (response w) (response_pos w); Ok (r, set_pos w (response_pos w + 1))
    else Ok (0xff, set_ss_mode w (if truth (sd_data_ready (card w)) then SSI_SD_DATA_START else SSI_SD_CMD)).
Proof. intros Hm. unfold ssi_sd_transfer. rewrite Hm. cbn [SSI_SD_RESPONSE SSI_SD_DATA_READ SSI_SD_CMD Z.eqb andb Pos.eqb]. by rewrite Hm. Qed.
Lemma transfer_start v w : ss_mode w = SSI_SD_DATA_START → ssi_sd_transfer v w = Ok (0xfe, set_ss_mode w SSI_SD_DATA_READ).
Proof. intros Hm. unfold ssi_sd_transfer. rewrite Hm. cbn [SSI_SD_DATA_START SSI_SD_DATA_READ SSI_SD_CMD Z.eqb andb Pos.eqb]. by rewrite Hm. Qed.
Lemma transfer_data v w : ss_mode w = SSI_SD_DATA_READ → v <> 0x4d →
  ssi_sd_transfer v w = '(r, sd) ← sd_read_data (card w); Ok (r, if truth (sd_data_ready sd) then set_card w sd else set_ss_mode (set_card w sd) SSI_SD_CMD).
Proof. intros Hm Hv. unfold ssi_sd_transfer. rewrite Hm, (proj2 (Z.eqb_neq _ _) Hv), andb_false_r. by rewrite Hm. Qed.

(** A command is collected and runs. *)
Lemma frame_runs c a crc w :
  at_rest w → 0 <= c < 64 →
  transfers (cmd_frame c a crc) w =
    w' ← run_command (mkSsiSd SSI_SD_CMDARG c (be_word a) (response w) 4 (response_pos w) 0 (card w)); Ok (replicate 6 0xff, w').
Proof.
  intros [Hm Ha Hr Hs] Hc. destruct w as [m c0 args resp n p st k]. cbn in Hm, Ha, Hr, Hs. subst m st.
  destruct args as [|x0 [|x1 [|x2 [|x3 [|]]]]]; try done. unfold cmd_frame, be_word. cbn [app transfers].
  assert (Z.land (0x40 + c) 0x3f = c) as Ec.
  { change 0x3f with (Z.ones 6). rewrite Z.land_ones by lia. change 0x40 with (1 * 2 ^ 6). rewrite Z.add_comm, Z.mod_add, Z.mod_small by lia. done. }
  rewrite transfer_cmd by done. rewrite (proj2 (Z.eqb_neq (0x40 + c) 0xff)), Ec by lia.
  do 4 (cbn [mbind res_bind]; rewrite transfer_arg by done; rewrite awrite_in by done).
  cbn [mbind res_bind]. rewrite transfer_run by done. cbn [set_ss_mode set_args ss_mode ss_cmd cmdarg response arglen response_pos stopping card Z.to_nat].
  rewrite !u8_u8. change (arglen _ + 1) with 4. cbn [insert list_insert Pos.to_nat Pos.iter_op Nat.add]. destruct (run_command _) as [w'|]; done.
Qed.

(** The answer to a command: 1 while the status that is reported is that of an idle card. *)
Definition r1_of (cs : Z) : Z := if cs <? 0x900 then 1 else 0.
Lemma calm_r1 cs : calm cs → u8 (Z.shiftr (spi_status cs) 8) = r1_of cs ∧ is_u32 cs.
Proof.
  intros (k & Hk & ->).
  assert (k = 0 ∨ k = 1 ∨ k = 2 ∨ k = 3 ∨ k = 4 ∨ k = 5 ∨ k = 6 ∨ k = 7 ∨ k = 8 ∨ k = 9 ∨ k = 10 ∨ k = 11 ∨ k = 12 ∨ k = 13 ∨ k = 14 ∨ k = 15) as Hks by lia.
  split; [|unfold is_u32; lia]. destruct_or! Hks; subst k; vm_compute; done.
Qed.

Lemma run_read b n hc a resp p s :
  ready b n hc s → 0 <= a < 2 ^ 32 → address hc a + n <= 512 * bdrv_get_geometry b → length resp = 5%nat →
  ∃ resp' s', run_command (mkSsiSd SSI_SD_CMDARG 17 (be_word a) resp 4 p 0 s) = Ok (mkSsiSd SSI_SD_RESPONSE 17 (be_word a) resp' 1 0 0 s') ∧
    resp' !! 0%nat = Some (r1_of (card_status s)) ∧ length resp' = 5%nat ∧ sending b n hc 17 (address hc a) 0 s'.
Proof.
  intros R Ha Hr Hl. destruct (read_starts _ _ _ _ 17 a R ltac:(by left) Ha Hr) as (s' & E & S1). destruct (calm_r1 _ (rd_calm _ _ _ _ _ R)) as [E1 Hu].
  unfold run_command. cbn [cmdarg ss_cmd card]. rewrite be_value_word by (unfold is_u32; lia). cbn [mbind res_bind]. rewrite E. cbn [mbind res_bind].
  cbv zeta. change (Z.of_nat (length (be_word (card_status s)))) with 4. cbn [Z.leb Z.compare negb Z.eqb Pos.eqb ss_cmd set_card response].
  rewrite be_value_word by done. cbn [mbind res_bind]. rewrite !awrite_in by (rewrite ?length_insert; lia). cbn [mbind res_bind].
  rewrite awrite_in by (rewrite ?length_insert; lia). cbn [mbind res_bind].
  exists (<[Z.to_nat 1 := u8 (spi_status (card_status s))]> (<[Z.to_nat 0 := u8 (Z.shiftr (spi_status (card_status s)) 8)]> resp)), s'. split; [reflexivity|]. rewrite E1. split; [|split; [|done]].
  - rewrite list_lookup_insert_ne by lia. apply list_lookup_insert_eq. lia.
  - by rewrite !length_insert.
Qed.

Lemma ready_flag b n hc c start i s : sending b n hc c start i s → truth (sd_data_ready s) = true.
Proof. intros Sn. unfold sd_data_ready. rewrite (sn_state _ _ _ _ _ _ _ Sn). by rewrite bool_decide_true. Qed.

(** Data bytes, up to the last. *)
Lemma data_more b n hc start fill i w :
  ss_mode w = SSI_SD_DATA_READ → sending b n hc 17 start i (card w) → Forall (λ v, v <> 0x4d) fill → 0 <= start → 0 <= i →
  i + Z.of_nat (length fill) < n → start + n <= 512 * bdrv_get_geometry b →
  ∃ s', transfers fill w = Ok (stretch (byte_at b) (start + i) (length fill), set_card w s') ∧ sending b n hc 17 start (i + Z.of_nat (length fill)) s'.
Proof.
  intros Hm Sn F H0. revert i w Hm Sn. induction F as [|v fill Hv F IH]; intros i w Hm Sn Hi Hn Hr; cbn [length transfers] in *.
  - exists (card w). rewrite Z.add_0_r. by destruct w.
  - destruct (read_byte b n hc 17 start i (card w) Sn ltac:(by left) H0 ltac:(lia) Hr) as (s1 & S1 & Hd & E). rewrite (proj2 (Z.leb_gt n (i + 1))) in E by lia. cbn [Z.eqb Pos.eqb] in E. cbv zeta in E.
    assert (sending b n hc 17 start (i + 1) (set_data_offset s1 (i + 1))) as S2. { destruct S1 as [P1 ? ? ? ? ?]. constructor; try done. present_tac. }
    rewrite transfer_data, E by done. cbn [mbind res_bind]. rewrite (ready_flag _ _ _ _ _ _ _ S2).
    destruct (IH (i + 1) (set_card w (set_data_offset s1 (i + 1)))) as (s' & E2 & S3); [done|done|lia..|]. rewrite E2. cbn [mbind res_bind]. exists s'. split.
    + rewrite stretch_S. by rewrite Z.add_assoc.
    + by replace (i + Z.of_nat (S (length fill))) with (i + 1 + Z.of_nat (length fill)) by lia.
Qed.

(** A block is read: command, answer, start of data, data. *)
Lemma spi_block b n hc a crc fill w :
  at_rest w → ready b n hc (card w) → 0 <= a < 2 ^ 32 → address hc a + n <= 512 * bdrv_get_geometry b →
  Forall (λ v, v <> 0x4d) fill → Z.of_nat (length fill) = 3 + n →
  ∃ w', transfers (cmd_frame 17 a crc ++ fill) w =
      Ok (replicate 6 0xff ++ [r1_of (card_status (card w)); 0xff; 0xfe] ++ stretch (byte_at b) (address hc a) (Z.to_nat n), w') ∧
    at_rest w' ∧ ready b n hc (card w') ∧ card_status (card w') = 0x900.
Proof.
  intros A R Ha Hr F Hl. pose proof (pr_range _ _ _ _ _ (rd_present _ _ _ _ _ R)) as Hn. pose proof (address_ok _ _ _ _ a (rd_present _ _ _ _ _ R) Ha) as [_ Hrange].
  destruct (run_read b n hc a (response w) (response_pos w) (card w) R Ha Hr ltac:(apply A)) as (resp & s1 & E1 & H0 & Lr & S1).
  rewrite transfers_app, frame_runs by (done || lia). rewrite E1. cbn [mbind res_bind].
  destruct fill as [|f0 [|f1 [|f2 fill]]]; cbn [length] in Hl; [lia..|]. apply Forall_cons in F as [_ F]. apply Forall_cons in F as [_ F]. apply Forall_cons in F as [_ F].
  assert (∃ fl v, fill = fl ++ [v] ∧ Z.of_nat (length fl) = n - 1) as (fl & v & -> & Hfl).
  { destruct (exists_last (l := fill)) as (fl & v & ->); [intros ->; cbn in Hl; lia|]. exists fl, v. split; [done|]. rewrite length_app in Hl. cbn in Hl. lia. }
  apply Forall_app in F as [F Fv]. apply Forall_cons in Fv as [Hv _]. cbn [transfers].
  rewrite transfer_response by done. cbn [stopping response_pos arglen response truth Z.eqb negb Z.ltb Z.compare]. rewrite (proj2 (aread_lookup resp 0 _)) by (split; [lia|exact H0]). cbn [mbind res_bind].
  rewrite transfer_response by done. cbn [set_pos stopping response_pos arglen response truth Z.eqb negb Z.ltb Z.compare card]. change (0 + 1 <? 1) with false. cbn [mbind res_bind].
  rewrite (ready_flag _ _ _ _ _ _ _ S1). rewrite transfer_start by done. cbn [mbind res_bind].
  set (w1 := set_ss_mode _ SSI_SD_DATA_READ). destruct (data_more b n hc (address hc a) fl 0 w1) as (s2 & E2 & S2); [done|done|done|lia..|]. rewrite transfers_app, E2. cbn [mbind res_bind transfers].
  destruct (read_byte b n hc 17 (address hc a) (0 + Z.of_nat (length fl)) s2 S2 ltac:(by left) ltac:(lia) ltac:(lia) Hr) as (s3 & S3 & Hd & E3).
  rewrite (proj2 (Z.leb_le n _)) in E3 by lia. cbn [Z.eqb Pos.eqb] in E3. cbv zeta in E3. rewrite transfer_data by done. change (card (set_card w1 s2)) with s2. rewrite E3. cbn [mbind res_bind].
  eexists. split; [|split; [|split]].
  - do 2 f_equal. cbn [replicate app]. do 9 f_equal. rewrite !Z.add_0_l, !Z.add_0_r, Hfl. replace (Z.to_nat n) with (length fl + 1)%nat by lia. rewrite stretch_app. f_equal. unfold stretch. cbn. do 2 f_equal. lia.
  - constructor; try done.
  - change (ready b n hc (set_state (set_data_offset s3 (0 + Z.of_nat (length fl) + 1)) sd_transfer_state)).
    destruct S3 as [P3 ? Hcs]. constructor; [present_tac|done|]. sd_simp. rewrite Hcs. by exists 4.
  - exact (sn_status _ _ _ _ _ _ _ S3).
Qed.

Lemma run_simple c a resp p cs s s' :
  length resp = 5%nat → c <> 13 → c <> 58 → is_u32 a → is_u32 cs → sd_do_command s (mkReq c a) = Ok (be_word cs, s') →
  run_command (mkSsiSd SSI_SD_CMDARG c (be_word a) resp 4 p 0 s) =
    Ok (mkSsiSd SSI_SD_RESPONSE c (be_word a) (<[Z.to_nat 1 := u8 (spi_status cs)]> (<[Z.to_nat 0 := u8 (Z.shiftr (spi_status cs) 8)]> resp)) 1 0 0 s').
Proof.
  intros Lr Hc1 Hc2 Ha Hcs E. unfold run_command. cbn [cmdarg ss_cmd card]. rewrite be_value_word by done. cbn [mbind res_bind]. rewrite E. cbn [mbind res_bind]. cbv zeta.
  change (Z.of_nat (length (be_word cs))) with 4. cbn [ss_cmd set_card response]. rewrite (proj2 (Z.eqb_neq _ _) Hc1), (proj2 (Z.eqb_neq _ _) Hc2). cbn [Z.leb Z.compare negb Z.eqb Pos.eqb].
  rewrite be_value_word by done. cbn [mbind res_bind]. generalize (spi_status cs) as st. intros st. rewrite awrite_in by lia. cbn [mbind res_bind]. rewrite awrite_in by (rewrite ?length_insert; lia). reflexivity.
Qed.

(** A command without data: two more transfers bring the answer and the end. *)
Lemma spi_simple c a crc f0 f1 cs s' w :
  at_rest w → 0 <= c < 64 → c <> 13 → c <> 58 → is_u32 a → is_u32 cs → sd_do_command (card w) (mkReq c a) = Ok (be_word cs, s') → state s' <> sd_sendingdata_state →
  ∃ w', transfers (cmd_frame c a crc ++ [f0; f1]) w = Ok (replicate 6 0xff ++ [u8 (Z.shiftr (spi_status cs) 8); 0xff], w') ∧ at_rest w' ∧ card w' = s'.
Proof.
  intros A Hc Hc1 Hc2 Ha Hcs E Hst. pose proof (ar_response _ A) as Lr. rewrite transfers_app, frame_runs by done.
  rewrite (run_simple c a (response w) (response_pos w) cs (card w) s') by done. generalize (spi_status cs) as st. intros st.
  cbn [mbind res_bind transfers]. rewrite transfer_response by done. cbn [stopping response_pos arglen response truth Z.eqb negb Z.ltb Z.compare].
  rewrite (proj2 (aread_lookup _ 0 (u8 (Z.shiftr st 8)))) by (split; [lia|]; rewrite list_lookup_insert_ne by lia; apply list_lookup_insert_eq; lia). cbn [mbind res_bind].
  rewrite transfer_response by done. cbn [set_pos stopping response_pos arglen response truth Z.eqb negb Z.ltb Z.compare card]. change (0 + 1 <? 1) with false. cbn [mbind res_bind].
  unfold sd_data_ready. rewrite bool_decide_false by done. eexists. split; [reflexivity|]. split; [|done]. constructor; try done. cbn. by rewrite !length_insert.
Qed.

(** Reset and initialisation of the card. *)
Record fresh (b : B) (hc : bool) (st : sd_state) s : Prop := {
  fr_present : present true b 512 hc s;
  fr_state : state s = st;
  fr_status : card_status s = 0x100;
}.
Lemma spi_cmd0 b hc s :
  fresh b hc sd_idle_state s → hc = high_capacity (bdrv_get_geometry b) → ∃ s', sd_do_command s (mkReq 0 0) = Ok (be_word 0x100, s') ∧ fresh b hc sd_idle_state s'.
Proof.
  intros [P Hst Hcs] Ehc. rewrite (command_calm b 512 hc) by (done || (by rewrite Hcs; exists 0) || by rewrite Hst). rewrite Hst, Hcs. set (s1 := set_card_status _ _).
  assert (sd_normal_command s1 (mkReq 0 0) = Ok (sd_r1, sd_reset (set_state s1 sd_idle_state) (Some b))) as ->.
  { unfold sd_normal_command. cbn -[sd_reset]. unfold s1. sd_simp. by rewrite (pr_spi _ _ _ _ _ P), Hst, (pr_bdrv _ _ _ _ _ P). }
  destruct (reset_present true b (set_state s1 sd_idle_state)) as (P' & St' & Cs' & _); [apply P|apply P|apply P..|]. rewrite <- Ehc in P'.
  generalize dependent (sd_reset (set_state s1 sd_idle_state) (Some b)). intros s2 P' St' Cs'. clear s1.
  cbn [mbind res_bind make_response sd_response_r1_make]. sd_simp. rewrite Cs'. eexists. split; [reflexivity|]. constructor; [|done|done]. destruct P'; constructor; sd_simp; done.
Qed.
Lemma spi_cmd1 b hc s : fresh b hc sd_idle_state s → ∃ s', sd_do_command s (mkReq 1 0) = Ok (be_word 0x100, s') ∧ fresh b hc sd_transfer_state s'.
Proof.
  intros [P Hst Hcs]. rewrite (command_calm b 512 hc) by (done || (by rewrite Hcs; exists 0) || by rewrite Hst). rewrite Hst, Hcs. set (s1 := set_card_status _ _).
  assert (sd_normal_command s1 (mkReq 1 0) = Ok (sd_r1, set_state s1 sd_transfer_state)) as ->.
  { unfold sd_normal_command. cbn. unfold s1. sd_simp. by rewrite (pr_spi _ _ _ _ _ P). }
  cbn [mbind res_bind make_response sd_response_r1_make]. eexists. split; [reflexivity|]. constructor; [present_tac|done|done].
Qed.

Definition spi_start : list Z := cmd_frame 0 0 0x95 ++ [0xff; 0xff] ++ cmd_frame 1 0 0xff ++ [0xff; 0xff].
Lemma spi_starts b blk :
  bdrv_is_inserted b = true → 0 <= bdrv_get_geometry b < 2 ^ 32 → length blk = 512%nat →
  ∃ w, transfers spi_start (ssi_sd_init (Some b) blk) = Ok (replicate 6 0xff ++ [1; 0xff] ++ replicate 6 0xff ++ [1; 0xff], w) ∧
    at_rest w ∧ ready b 512 (high_capacity (bdrv_get_geometry b)) (card w) ∧ card_status (card w) = 0x100.
Proof.
  intros Hi Hg Hb. destruct (init_present true b blk Hi Hg Hb) as (P0 & St0 & Cs0 & _). set (hc := high_capacity _) in *.
  assert (at_rest (ssi_sd_init (Some b) blk) ∧ fresh b hc sd_idle_state (card (ssi_sd_init (Some b) blk))) as [A0 F0] by (split; constructor; [reflexivity..|exact P0|exact St0|exact Cs0]).
  generalize dependent (ssi_sd_init (Some b) blk). intros w0 A0 F0. clear P0 St0 Cs0.
  destruct (spi_cmd0 b hc (card w0) F0 eq_refl) as (s1 & E1 & F1).
  destruct (spi_simple 0 0 0x95 0xff 0xff 0x100 s1 w0) as (w1 & T1 & A1 & C1); [done|lia|lia|lia|unfold is_u32; lia|unfold is_u32; lia|done|by rewrite (fr_state _ _ _ _ F1)|].
  destruct (spi_cmd1 b hc s1 F1) as (s2 & E2 & F2). rewrite <- C1 in E2.
  destruct (spi_simple 1 0 0xff 0xff 0xff 0x100 s2 w1) as (w2 & T2 & A2 & C2); [done|lia|lia|lia|unfold is_u32; lia|unfold is_u32; lia|done|by rewrite (fr_state _ _ _ _ F2)|].
  change (u8 (Z.shiftr (spi_status 0x100) 8)) with 1 in T1, T2. unfold spi_start. rewrite (app_assoc (cmd_frame 0 0 0x95)), transfers_app, T1. cbn [mbind res_bind]. rewrite T2. cbn [mbind res_bind].
  exists w2. rewrite C2. destruct F2 as [P2 St2 Cs2]. split; [reflexivity|]. split; [done|]. split; [|done]. constructor; [done|done|]. rewrite Cs2. by exists 0.
Qed.

(** What the host sends for a block, and what it gets. *)
Definition block_request (a : Z) : list Z := cmd_frame 17 a 0xff ++ replicate 515 0xff.
Definition block_answer (r1 : Z) (l : list Z) : list Z := replicate 6 0xff ++ [r1; 0xff; 0xfe] ++ l.

Lemma spi_more b hc addrs w :
  at_rest w → ready b 512 hc (card w) → card_status (card w) = 0x900 →
  Forall (λ a, 0 <= a < 2 ^ 32 ∧ address hc a + 512 <= 512 * bdrv_get_geometry b) addrs →
  ∃ w', transfers (concat (block_request <$> addrs)) w = Ok (concat ((λ a, block_answer 0 (stretch (byte_at b) (address hc a) 512)) <$> addrs), w').
Proof.
  intros A R C F. revert w A R C. induction F as [|a addrs [Ha Hr] F IH]; intros w A R C; cbn [fmap list_fmap concat]; [by exists w|].
  destruct (spi_block b 512 hc a 0xff (replicate 515 0xff) w A R Ha Hr) as (w1 & E1 & A1 & R1 & C1); [by apply Forall_replicate|by rewrite length_replicate|].
  destruct (IH w1 A1 R1 C1) as (w2 & E2). exists w2. unfold block_request at 1. rewrite transfers_app, E1. cbn [mbind res_bind]. rewrite E2. cbn [mbind res_bind].
  by rewrite C.
Qed.

(** [C16]: a host on the serial bus that resets and initialises a card and then reads any
    blocks of the image, with the bytes of READ_SINGLE_BLOCK, gets for each an answer, the
    start of data, and the 512 bytes of the image at that place, whatever the block layer
    is that keeps its laws; the answer to the first read still reports an idle card. *)
Theorem spi_reads_blocks b blk addrs :
  bdrv_is_inserted b = true → 0 <= bdrv_get_geometry b < 2 ^ 32 → length blk = 512%nat →
  Forall (λ a, 0 <= a < 2 ^ 32 ∧ address (high_capacity (bdrv_get_geometry b)) a + 512 <= 512 * bdrv_get_geometry b) addrs →
  let block a := stretch (byte_at b) (address (high_capacity (bdrv_get_geometry b)) a) 512 in
  ∃ w, transfers (spi_start ++ concat (block_request <$> addrs)) (ssi_sd_init (Some b) blk) =
    Ok ((replicate 6 0xff ++ [1; 0xff] ++ replicate 6 0xff ++ [1; 0xff]) ++
        match addrs with [] => [] | a :: rest => block_answer 1 (block a) ++ concat ((λ a, block_answer 0 (block a)) <$> rest) end, w).
Proof.
  intros Hi Hg Hb F. cbv zeta. destruct (spi_starts b blk Hi Hg Hb) as (w0 & E0 & A0 & R0 & C0). rewrite transfers_app, E0. cbn [mbind res_bind].
  destruct F as [|a rest [Ha Hr] F]; [by exists w0|]. cbn [fmap list_fmap concat].
  destruct (spi_block b 512 _ a 0xff (replicate 515 0xff) w0 A0 R0 Ha Hr) as (w1 & E1 & A1 & R1 & C1); [by apply Forall_replicate|by rewrite length_replicate|].
  destruct (spi_more b _ rest w1 A1 R1 C1 F) as (w2 & E2). exists w2. unfold block_request at 1. rewrite transfers_app, E1. cbn [mbind res_bind]. rewrite E2. cbn [mbind res_bind].
  by rewrite C0.
Qed.
End reading.

(** ** Saving and loading *)

Lemma get_be32_word v f : is_u32 v → qemu_get_be32 (be_word v ++ f) = (v, f).
Proof. intros Hv. pose proof (be_value_word v Hv) as E. cbn in E. injection E as E. unfold qemu_get_be32, be_word. cbn [app qemu_get_byte]. by rewrite E. Qed.

Lemma save_cells l f : fold_left qemu_put_be32 l f = f ++ concat (be_word <$> l).
Proof.
  revert f. induction l as [|v l IH]; intros f; cbn [fold_left fmap list_fmap concat]; [by rewrite app_nil_r|]. rewrite IH. unfold qemu_put_be32. by rewrite <- app_assoc.
Qed.
Lemma load_cells l f : Forall (λ v, 0 <= v < 2 ^ 8) l → get_cells (length l) (concat (be_word <$> l) ++ f) = (l, f).
Proof.
  induction 1 as [|v l Hv F IH]; cbn [length get_cells fmap list_fmap concat]; [done|]. rewrite <- app_assoc, get_be32_word by (unfold is_u32; lia). rewrite IH.
  unfold u8. by rewrite Z.mod_small by lia.
Qed.

(** The members at their widths. *)
Record adapter_typed {B} (w : ssi_sd_state B) : Prop := {
  at_mode : is_u32 (ss_mode w);
  at_cmd : - 2 ^ 31 <= ss_cmd w < 2 ^ 31;
  at_args : length (cmdarg w) = 4%nat ∧ Forall (λ v, 0 <= v < 2 ^ 8) (cmdarg w);
  at_response : length (response w) = 5%nat ∧ Forall (λ v, 0 <= v < 2 ^ 8) (response w);
  at_arglen : - 2 ^ 31 <= arglen w < 2 ^ 31;
  at_pos : - 2 ^ 31 <= response_pos w < 2 ^ 31;
  at_stopping : - 2 ^ 31 <= stopping w < 2 ^ 31;
}.

Lemma be_word_u32 v : be_word (u32 v) = be_word v.
Proof.
  unfold be_word. assert (∀ k, 0 <= k <= 24 → u8 (Z.shiftr (u32 v) k) = u8 (Z.shiftr v k)) as H.
  { intros k Hk. unfold u8, u32. apply Z.bits_inj'. intros n Hn. destruct (Z.lt_ge_cases n 8).
    - rewrite !Z.mod_pow2_bits_low, !Z.shiftr_spec, Z.mod_pow2_bits_low by lia. done.
    - by rewrite !Z.mod_pow2_bits_high by lia. }
  rewrite !H by lia. f_equal. f_equal. f_equal. f_equal. exact (H 0 ltac:(lia)).
Qed.
Lemma get_be32_int v f : - 2 ^ 31 <= v < 2 ^ 31 → ∃ x, qemu_get_be32 (be_word v ++ f) = (x, f) ∧ s32 x = v.
Proof.
  intros Hv. exists (u32 v). rewrite <- be_word_u32, get_be32_word by apply u32_range. split; [done|]. unfold s32, u32. rewrite Zplus_mod_idemp_l. rewrite Z.mod_small; lia.
Qed.

(** What is saved is loaded; the card itself is not part of it. *)
Theorem ssi_sd_save_load {B} (w w0 : ssi_sd_state B) rest :
  adapter_typed w → ssi_sd_load 1 (ssi_sd_save w [] ++ rest) w0 = (0, set_card w (card w0), rest).
Proof.
  intros [Hm Hc [La Fa] [Lr Fr] Hn Hp Hs]. unfold ssi_sd_save. rewrite !save_cells. unfold qemu_put_be32. rewrite !app_nil_l, <- !app_assoc.
  unfold ssi_sd_load. cbn [Z.eqb Pos.eqb negb]. rewrite get_be32_word by done.
  destruct (get_be32_int (ss_cmd w) (concat (be_word <$> cmdarg w) ++ concat (be_word <$> response w) ++ be_word (arglen w) ++ be_word (response_pos w) ++ be_word (stopping w) ++ rest) Hc) as (c & -> & Ec).
  rewrite <- La at 1. rewrite load_cells by done. rewrite <- Lr at 1. rewrite load_cells by done.
  destruct (get_be32_int (arglen w) (be_word (response_pos w) ++ be_word (stopping w) ++ rest) Hn) as (n & -> & En).
  destruct (get_be32_int (response_pos w) (be_word (stopping w) ++ rest) Hp) as (p & -> & Ep). destruct (get_be32_int (stopping w) rest Hs) as (st & -> & Es).
  rewrite Ec, En, Ep, Es. done.
Qed.

Lemma spi_reads_blocks_witness :
  let block a := stretch (byte_at demo_image) (address (high_capacity (bdrv_get_geometry demo_image)) a) 512 in
  ∃ w, transfers (spi_start ++ concat (block_request <$> [512; 0; 100])) (ssi_sd_init (Some demo_image) (replicate 512 0)) =
    Ok ((replicate 6 0xff ++ [1; 0xff] ++ replicate 6 0xff ++ [1; 0xff]) ++
        block_answer 1 (block 512) ++ concat ((λ a, block_answer 0 (block a)) <$> [0; 100]), w).
Proof.
  refine (spi_reads_blocks demo_image (replicate 512 0) [512; 0; 100] _ _ _ _); [reflexivity|cbn; lia|reflexivity|].
  do 3 (apply Forall_cons_2; [split; [lia|by vm_compute]|]). apply Forall_nil_2.
Defined.
