(* ===== verification/SpiSafe.v ===== *)
(** * SpiSafe: the SD card on the serial bus meets no fault (hw/ssi-sd.c, hw/sd.c)

    An invariant of adapter and card that every transfer keeps, whatever the guest sends,
    but for the transfers of which [SdFacts] and the end of this file show that they do lead
    to a fault: a CMD13 in the middle of data, a CMD8 with a voltage in the topmost bit, and
    an ERASE beyond the card. *)

From S2P Require Import Prelude Ssi Sd SdFacts SsiSd.
Local Open Scope Z_scope.

Section safety.
Context {B : Type} {DB : BlockDriver B} {LB : BlockLaws B}.
Implicit Types (s : SDState B) (w : ssi_sd_state B).

(** ** The invariant of the card *)

Record static s : Prop := {
  sc_data : length (data s) = 512%nat;
  sc_buf : length (buf s) = 512%nat;
  sc_csd : length (csd s) = 16%nat;
  sc_cid : length (cid s) = 16%nat;
  sc_scr : length (scr s) = 8%nat;
  sc_status : length (sd_status s) = 64%nat;
  sc_size : 0 < sd_size s < 2 ^ 41;
  sc_groups : Z.of_nat (length (wp_groups s)) = wp_group (sd_size s) + 1;
  sc_len : 0 <= blk_len s <= 512;
  sc_spi : spi s = true;
  sc_erase : 0 <= erase_start s ∧ 0 <= erase_end s;
  sc_image b : bdrv s = Some b → 0 <= bdrv_get_geometry b < 2 ^ 32;
}.
Definition at_ease s : Prop := state s = sd_idle_state ∨ state s = sd_transfer_state ∨ state s = sd_receivingdata_state.
(** The array that data is sent from, by command. *)
Definition limit (c : Z) : Z := if c =? 13 then 64 else if c =? 51 then 8 else 512.
Record data_out s : Prop := {
  do_state : state s = sd_sendingdata_state;
  do_cmd : 0 <= current_cmd s < 64;
  do_off : 0 <= data_offset s < limit (current_cmd s);
  do_start : current_cmd s = 11 ∨ current_cmd s = 17 ∨ current_cmd s = 18 → 0 <= data_start s ∧ (data_start s < 2 ^ 41 ∨ truth (Z.land (card_status s) ADDRESS_ERROR) = true);
}.
Definition card_inv s : Prop := static s ∧ (at_ease s ∨ data_out s).

(** After command [c]: at ease, or data starts. *)
Definition outcome (c : Z) s : Prop :=
  static s ∧ (at_ease s ∨ state s = sd_sendingdata_state ∧ data_offset s = 0 ∧ (c = 11 ∨ c = 17 ∨ c = 18 → 0 <= data_start s < 2 ^ 41)).
Definition good (c : Z) (r : sd_result (B:=B)) : Prop := ∃ t s, r = Ok (t, s) ∧ outcome c s.

(** Members that the invariant does not speak of. *)
Ltac static_tac := match goal with P : static _ |- _ => destruct P; constructor; sd_simp; try done end.
Lemma static_status s v : static s → static (set_card_status s v).
Proof. intros P. static_tac. Qed.
Lemma static_begin s st start : static s → static (begin_data s st start).
Proof. intros P. static_tac. Qed.
Lemma static_data s d : static s → length d = 512%nat → static (set_data s d).
Proof. intros P Hd. static_tac. Qed.
Lemma outcome_status c s v : outcome c s → outcome c (set_card_status s v).
Proof. intros [P H]. split; [by apply static_status|exact H]. Qed.

Lemma good_ease c t s : static s → at_ease s → good c (Ok (t, s)).
Proof. intros P A. exists t, s. split; [done|]. split; [done|by left]. Qed.
Lemma good_illegal c s : static s → at_ease s → good c (illegal s).
Proof. intros P A. apply good_ease; [by apply static_status|done]. Qed.
Lemma good_begin c t s start : static s → (c = 11 ∨ c = 17 ∨ c = 18 → 0 <= start < 2 ^ 41) → good c (Ok (t, begin_data s sd_sendingdata_state start)).
Proof. intros P H. eexists _, _. split; [done|]. split; [by apply static_begin|]. right. done. Qed.
Lemma good_status c t s v : good c (Ok (t, s)) → good c (Ok (t, set_card_status s v)).
Proof. intros (t' & s' & [= <- <-] & O). eexists _, _. split; [done|]. by apply outcome_status. Qed.

Lemma in_transfer_good c s r : static s → at_ease s → (state s = sd_transfer_state → good c r) → good c (in_transfer s r).
Proof. intros P A H. unfold in_transfer. destruct (state s) eqn:E; try (by apply good_illegal). by apply H. Qed.
Lemma app_in_transfer_good c s r : static s → at_ease s → (state s = sd_transfer_state → good c r) → good c (app_in_transfer s r).
Proof. intros P A H. unfold app_in_transfer. destruct (state s) eqn:E; try (by apply good_ease). by apply H. Qed.

(** ** Commands *)

Lemma wp_group_div a : wp_group a = a / 2 ^ 21.
Proof. unfold wp_group. change (HWBLOCK_SHIFT + SECTOR_SHIFT + WPGROUP_SHIFT) with 21. by rewrite Z.shiftr_div_pow2 by lia. Qed.
Lemma wp_group_in s a : static s → 0 <= a < sd_size s → 0 <= wp_group a < Z.of_nat (length (wp_groups s)).
Proof.
  intros P Ha. rewrite (sc_groups _ P), !wp_group_div. pose proof (Z.div_pos a (2 ^ 21) ltac:(lia) ltac:(lia)). pose proof (Z.div_le_mono a (sd_size s) (2 ^ 21)). lia.
Qed.

Lemma memcpy_ok d src n : length d = 512%nat → 0 <= n → n <= Z.of_nat (length src) → n <= 512 → ∃ d', memcpy d 0 src 0 n = Ok d' ∧ length d' = 512%nat.
Proof.
  intros Hd H0 Hn Hs. destruct (memcpy d 0 src 0 n) as [d'|] eqn:E; [|by rewrite memcpy_in in E by lia]. exists d'. split; [done|]. by rewrite (memcpy_length _ _ _ _ _ _ E).
Qed.

Lemma reset_good bs s :
  length (data s) = 512%nat → length (buf s) = 512%nat → spi s = true → (∀ b, bs = Some b → 0 <= bdrv_get_geometry b < 2 ^ 32) →
  static (sd_reset s bs) ∧ state (sd_reset s bs) = sd_idle_state.
Proof.
  intros Hd Hb Hs Hg. assert (∃ g, match bs with Some b => bdrv_get_geometry b | None => 0 end = g ∧ 0 <= g < 2 ^ 32) as (g & E & Hr).
  { destruct bs as [b|]; eexists; split; [done|by apply Hg|done|lia]. }
  unfold sd_reset. rewrite E, (size_ok _ Hr). set (size := 512 * _ + 1). set (s1 := sd_set_cid _).
  assert (0 <= wp_group size) by (apply wp_group_nonneg; lia).
  unfold sd_set_csd. destruct (size <=? 0x40000000); (split; [|done]); constructor; try done.
  all: try (change (0 < size < 2 ^ 41); lia).
  all: change (Z.of_nat (length (replicate (Z.to_nat (wp_group size + 1)) 0)) = wp_group size + 1); rewrite length_replicate; lia.
Qed.

Lemma send_register_good c s reg r addr rca_ : static s → at_ease s → length reg = 16%nat → c = 9 ∨ c = 10 → good c (send_register s reg r addr rca_).
Proof.
  intros P A Hr Hc. unfold send_register. destruct A as [A|[A|A]]; rewrite A; try (apply good_illegal; [done|unfold at_ease; auto]).
  rewrite (sc_spi _ P). cbn [negb]. destruct (memcpy_ok (data s) reg 16 (sc_data _ P)) as (d & -> & Hd); [lia..|]. cbn [mbind res_bind].
  apply good_begin; [by apply static_data|lia].
Qed.

Lemma start_reading_good c s addr : static s → 0 <= addr < 2 ^ 41 → good c (start_reading s addr).
Proof. intros P Ha. unfold start_reading. assert (good c (Ok (sd_r1, begin_data s sd_sendingdata_state addr))) as G by (by apply good_begin). destruct (beyond _); [by apply good_status|done]. Qed.

Lemma set_protection_good c s addr v : static s → at_ease s → 0 <= addr → good c (set_protection s addr v).
Proof.
  intros P A Ha. unfold set_protection. destruct (Z.leb_spec (sd_size s) addr); [apply good_ease; [by apply static_status|done]|].
  rewrite awrite_in by (apply wp_group_in; [done|lia]). cbn [mbind res_bind]. apply good_ease; [|right; by left]. static_tac. by rewrite length_insert.
Qed.

Lemma wpbits_ok s addr : static s → 0 <= addr < 2 ^ 32 → ∃ v, sd_wpbits s addr = Ok v.
Proof.
  intros P Ha. unfold sd_wpbits. destruct (for_upto_inv (λ i ret, if u64 (addr + i * WPGROUP_SIZE) <? sd_size s
    then g ← aread (wp_groups s) (u32 (u32 (wp_group addr) + i)); Ok (if truth g then Z.lor ret (Z.shiftl 1 i) else ret) else Ok ret) (λ _, True) 32 0) as (v & E & _); [|done|by exists v].
  intros j r Hj _. change WPGROUP_SIZE with (2 ^ 21). destruct (Z.ltb_spec (u64 (addr + Z.of_nat j * 2 ^ 21)) (sd_size s)) as [Hlt|]; [|by eexists].
  change (Z.to_nat 32) with 32%nat in Hj. rewrite u64_small in Hlt by lia. pose proof (wp_group_in s _ P (conj (ltac:(lia) : 0 <= addr + Z.of_nat j * 2 ^ 21) Hlt)) as Hin.
  rewrite wp_group_div, Z.div_add in Hin by lia. rewrite (wp_group_div addr). assert (0 <= addr / 2 ^ 21 < 2 ^ 11) by (split; [apply Z.div_pos; lia|apply Z.div_lt_upper_bound; lia]).
  rewrite (u32_small (addr / 2 ^ 21)), u32_small by lia. destruct (aread_in (wp_groups s) (addr / 2 ^ 21 + Z.of_nat j)) as [g ->]; [lia|]. cbn [mbind res_bind]. by eexists.
Qed.

(** Within the card nothing is out of bounds. *)
Lemma erase_ok s : static s → wp_group (erase_end s) <= wp_group (sd_size s) → ∃ s', sd_erase s = Ok s' ∧ static s' ∧ state s' = state s.
Proof.
  intros P He. unfold sd_erase. destruct (_ || _); [exists (raise s ERASE_SEQ_ERROR); split; [done|split; [by apply static_status|done]]|].
  destruct (aread_in (csd s) 14) as [c14 ->]; [rewrite (sc_csd _ P); lia|]. cbn [mbind res_bind]. rewrite awrite_in by (rewrite (sc_csd _ P); lia). cbn [mbind res_bind].
  set (s1 := set_csd _ _). assert (static s1) as P1 by (unfold s1; pose proof P as P'; static_tac; by rewrite length_insert).
  destruct (for_upto_inv (λ i s2, g ← aread (wp_groups s2) (wp_group (erase_start s) + i); Ok (if truth g then raise s2 WP_ERASE_SKIP else s2))
    (λ s2, static s2 ∧ state s2 = state s ∧ sd_size s2 = sd_size s) (wp_group (erase_end s) - wp_group (erase_start s) + 1) s1) as (s2 & E & P2 & St & _); [|done|by exists s2].
  intros j s2 Hj (P2 & St & Sz). pose proof (wp_group_nonneg (erase_start s) (proj1 (sc_erase _ P))).
  destruct (aread_in (wp_groups s2) (wp_group (erase_start s) + Z.of_nat j)) as [g ->]; [rewrite (sc_groups _ P2), Sz; lia|]. cbn [mbind res_bind]. eexists. split; [done|].
  destruct (truth g); [|done]. split; [by apply static_status|done].
Qed.

(** A command that can fault. *)
Definition bad_command s (c a : Z) : bool :=
  (c =? 8) && (32 <=? ffs (Z.land a (u32 (Z.lnot 0xff)))) || (c =? 38) && (wp_group (sd_size s) <? wp_group (erase_end s)).

Lemma block_addr_range s a : 0 <= a < 2 ^ 32 → 0 <= block_addr s a < 2 ^ 41.
Proof.
  intros Ha. unfold block_addr. destruct (truth _); [|lia]. rewrite Z.shiftl_mul_pow2 by lia. change (2 ^ 9) with 512. rewrite u64_small by lia. lia.
Qed.

Ltac ease := first [done | by left | by right; left | by right; right].
Lemma ident_good s c a r :
  static s → at_ease s → (∃ b, bdrv s = Some b) → 0 <= c <= 8 → 0 <= a < 2 ^ 32 → bad_command s c a = false → good c (sd_identification_command s (mkReq c a) r).
Proof.
  intros P A [b Hb] Hc Ha Hbad. pose proof (sc_spi _ P) as Hsp. unfold sd_identification_command. cbn [cmd arg]. rewrite Hsp.
  assert (c = 0 ∨ c = 1 ∨ c = 8 ∨ c = 2 ∨ c = 3 ∨ c = 4 ∨ c = 5 ∨ c = 6 ∨ c = 7) as Hcs by lia.
  destruct Hcs as [-> | [-> | [-> | Hcs]]].
  - destruct (reset_good (Some b) (set_state s sd_idle_state)) as [P' St]; [apply P..|intros b' [= <-]; by apply (sc_image _ P)|].
    rewrite Hb. assert (good 0 (Ok (sd_r1, sd_reset (set_state s sd_idle_state) (Some b)))) as G by (apply good_ease; [done|by left]).
    destruct (state s); try exact G. by apply good_ease.
  - cbn [negb]. apply good_ease; [static_tac|by right; left].
  - assert (good 8 (Ok (sd_r7, set_vhs s 0))) as G by (apply good_ease; [static_tac|exact A]). unfold bad_command in Hbad. cbn [Z.eqb Pos.eqb andb orb] in Hbad. rewrite orb_false_r in Hbad.
    destruct (state s) eqn:E; try (by apply good_illegal). sd_simp. rewrite Hsp. destruct (negb (truth (Z.shiftr a 8))); [exact G|]. rewrite Hbad.
    destruct (truth (Z.shiftr a _)); [exact G|]. apply good_ease; [static_tac|by left].
  - destruct_or! Hcs; subst c; by apply good_illegal.
Qed.

Lemma register_good s c a addr r :
  static s → at_ease s → 9 <= c <= 15 → good c (sd_register_command s (mkReq c a) addr r).
Proof.
  intros P A Hc. unfold sd_register_command. cbn [cmd arg]. rewrite (sc_spi _ P).
  assert (c = 9 ∨ c = 10 ∨ c = 12 ∨ c = 13 ∨ c = 11 ∨ c = 14 ∨ c = 15) as Hcs by lia.
  destruct Hcs as [-> | [-> | [-> | [-> | Hcs]]]].
  - apply send_register_good; [done|done|apply P|lia].
  - apply send_register_good; [done|done|apply P|lia].
  - assert (good 12 (Ok (sd_r1b, set_state s sd_transfer_state))) as G by (apply good_ease; [static_tac|by right; left]).
    destruct (state s); solve [by apply good_illegal | exact G].
  - destruct (mode s); try (by apply good_illegal). destruct (negb _); by apply good_ease.
  - destruct_or! Hcs; subst c; by apply good_illegal.
Qed.

Lemma block_good s c a addr :
  static s → at_ease s → 16 <= c <= 27 → 0 <= a < 2 ^ 32 → 0 <= addr < 2 ^ 41 → good c (sd_block_command s (mkReq c a) addr).
Proof.
  intros P A Hc Ha Haddr. unfold sd_block_command. cbn [cmd arg]. rewrite (sc_spi _ P).
  assert (c = 16 ∨ c = 17 ∨ c = 18 ∨ c = 19 ∨ c = 20 ∨ c = 21 ∨ c = 22 ∨ c = 23 ∨ c = 24 ∨ c = 25 ∨ c = 26 ∨ c = 27) as Hcs by lia.
  destruct Hcs as [-> | [-> | [-> | Hcs]]].
  - apply in_transfer_good; [done|done|]. intros St. change (Z.shiftl 1 HWBLOCK_SHIFT) with 512. apply good_ease; [|destruct (_ <? _); exact A].
    destruct (Z.ltb_spec 512 a); [by apply static_status|]. static_tac. lia.
  - apply in_transfer_good; [done|done|]. intros St. by apply start_reading_good.
  - apply in_transfer_good; [done|done|]. intros St. by apply start_reading_good.
  - destruct_or! Hcs; subst c; by apply good_illegal.
Qed.

Lemma protect_good s c a addr :
  static s → at_ease s → 28 <= c <= 38 → 0 <= a < 2 ^ 32 → 0 <= addr < 2 ^ 41 → bad_command s c a = false → good c (sd_protect_command s (mkReq c a) addr).
Proof.
  intros P A Hc Ha Haddr Hbad. unfold sd_protect_command. cbn [cmd arg].
  assert (c = 28 ∨ c = 29 ∨ c = 30 ∨ c = 32 ∨ c = 33 ∨ c = 38 ∨ c = 31 ∨ c = 34 ∨ c = 35 ∨ c = 36 ∨ c = 37) as Hcs by lia.
  destruct Hcs as [-> | [-> | [-> | [-> | [-> | [-> | Hcs]]]]]].
  - apply in_transfer_good; [done|done|]. intros St. apply set_protection_good; [done|done|lia].
  - apply in_transfer_good; [done|done|]. intros St. apply set_protection_good; [done|done|lia].
  - apply in_transfer_good; [done|done|]. intros St. destruct (wpbits_ok s a P Ha) as [v ->]. cbn [mbind res_bind].
    destruct (memcpy_ok (data s) (le_word4 v) 4 (sc_data _ P)) as (d & -> & Hd); [lia|cbn; lia|lia|]. cbn [mbind res_bind]. apply good_begin; [by apply static_data|lia].
  - apply in_transfer_good; [done|done|]. intros St. apply good_ease; [static_tac; naive_solver lia|exact A].
  - apply in_transfer_good; [done|done|]. intros St. apply good_ease; [static_tac; naive_solver lia|exact A].
  - apply in_transfer_good; [done|done|]. intros St. destruct (aread_in (csd s) 14) as [c14 ->]; [rewrite (sc_csd _ P); lia|]. cbn [mbind res_bind].
    destruct (truth _); [apply good_ease; [by apply static_status|exact A]|]. unfold bad_command in Hbad. cbn [Z.eqb Pos.eqb andb orb] in Hbad. bool_to_prop.
    destruct (erase_ok (set_state s sd_programming_state)) as (s' & -> & P' & _); [static_tac|done|]. cbn [mbind res_bind]. clear P. apply good_ease; [static_tac|by right; left].
  - destruct_or! Hcs; subst c; by apply good_illegal.
Qed.

Lemma other_good s c a r : static s → at_ease s → 39 <= c < 64 → good c (sd_other_command s (mkReq c a) r).
Proof.
  intros P A Hc. unfold sd_other_command. cbn [cmd arg]. rewrite (sc_spi _ P).
  destruct (decide (c = 55)) as [-> |]; [|destruct (decide (c = 56)) as [-> |]].
  - destruct (negb _); [by apply good_ease|]. apply good_ease; [by apply static_status|exact A].
  - apply in_transfer_good; [done|done|]. intros St. assert (static (set_data_offset s 0)) as P' by static_tac. destruct (truth _).
    + eexists _, _. split; [done|]. split; [clear P; static_tac|]. right. split; [done|]. split; [done|]. lia.
    + apply good_ease; [clear P; static_tac|by right; right].
  - assert (c = 39 ∨ c = 40 ∨ c = 41 ∨ c = 42 ∨ c = 43 ∨ c = 44 ∨ c = 45 ∨ c = 46 ∨ c = 47 ∨ c = 48 ∨ c = 49 ∨ c = 50 ∨ c = 51 ∨ c = 52 ∨ c = 53 ∨ c = 54 ∨ c = 57 ∨ c = 58 ∨ c = 59 ∨ c = 60 ∨ c = 61 ∨ c = 62 ∨ c = 63) as Hcs by lia.
    destruct_or! Hcs; subst c; by apply good_illegal.
Qed.

Lemma normal_good s c a :
  static s → at_ease s → (∃ b, bdrv s = Some b) → 0 <= c < 64 → 0 <= a < 2 ^ 32 → bad_command s c a = false → good c (sd_normal_command s (mkReq c a)).
Proof.
  intros P A Hb Hc Ha Hbad. unfold sd_normal_command. cbn [cmd arg]. destruct (aread_in sd_cmd_type c) as [ty ->]; [cbn; lia|]. cbn [mbind res_bind]. pose proof (block_addr_range s a Ha).
  destruct (Z.leb_spec c 8); [apply ident_good; done || lia|]. destruct (Z.leb_spec c 15); [apply register_good; done || lia|].
  destruct (Z.leb_spec c 27); [apply block_good; done || lia|]. destruct (Z.leb_spec c 38); [apply protect_good; done || lia|]. apply other_good; done || lia.
Qed.

Lemma app_good s c a :
  static s → at_ease s → (∃ b, bdrv s = Some b) → 0 <= c < 64 → 0 <= a < 2 ^ 32 → bad_command s c a = false → good c (sd_app_command s (mkReq c a)).
Proof.
  intros P A Hb Hc Ha Hbad. pose proof (sc_spi _ P) as Hsp.
  assert (good c (sd_normal_command (mask_out s APP_CMD) (mkReq c a))) as G by (apply normal_good; [by apply static_status|done..]).
  unfold sd_app_command. cbn [cmd arg]. rewrite Hsp.
  assert (c ∈ [6; 13; 22; 23; 41; 42; 51] ∨ sd_app_command s (mkReq c a) = sd_normal_command (mask_out s APP_CMD) (mkReq c a)) as [Hin|E].
  { assert (∀ k : nat, (k < 64)%nat → Z.of_nat k ∈ [6; 13; 22; 23; 41; 42; 51] ∨
      sd_app_command s (mkReq (Z.of_nat k) a) = sd_normal_command (mask_out s APP_CMD) (mkReq (Z.of_nat k) a)) as Hall.
    { intros k Hk. do 64 (destruct k as [|k]; [first [by right | left; vm_compute; repeat first [by left | right] ; by repeat constructor]|]). lia. }
    specialize (Hall (Z.to_nat c) ltac:(lia)). by rewrite Z2Nat.id in Hall by lia. }
  2: { unfold sd_app_command in E. cbn [cmd arg] in E. rewrite Hsp in E. by rewrite E. }
  clear G. repeat (apply elem_of_cons in Hin as [-> | Hin]); [..|by apply elem_of_nil in Hin].
  - apply app_in_transfer_good; [done|done|]. intros St. destruct (aread_in (sd_status s) 0) as [v ->]; [rewrite (sc_status _ P); lia|]. cbn [mbind res_bind].
    rewrite awrite_in by (rewrite (sc_status _ P); lia). cbn [mbind res_bind]. apply good_ease; [|exact A]. static_tac. by rewrite length_insert.
  - apply app_in_transfer_good; [done|done|]. intros St. apply good_begin; [done|lia].
  - apply app_in_transfer_good; [done|done|]. intros St. destruct (memcpy_ok (data s) (le_word4 (u32 (blk_written s))) 4 (sc_data _ P)) as (d & -> & Hd); [lia|cbn; lia|lia|]. cbn [mbind res_bind].
    apply good_begin; [by apply static_data|lia].
  - apply app_in_transfer_good; [done|done|]. intros St. by apply good_ease.
  - apply good_ease; [static_tac|by right; left].
  - apply app_in_transfer_good; [done|done|]. intros St. by apply good_ease.
  - apply app_in_transfer_good; [done|done|]. intros St. apply good_begin; [done|lia].
Qed.

(** A command, and the length of its response. *)
Definition response_length (r : list Z) : Prop := length r = 0%nat ∨ length r = 4%nat ∨ length r = 16%nat.
Lemma make_response_ok r last s c : outcome c s → ∃ l v, make_response r last s = (l, set_card_status s v) ∧ response_length l.
Proof.
  intros [P _]. assert (s = set_card_status s (card_status s)) as Es by (by destruct s).
  assert (∀ l, response_length l → ∃ l' v, (l, s) = (l', set_card_status s v) ∧ response_length l') as H by (intros l Hl; exists l, (card_status s); by rewrite <- Es).
  unfold response_length in *. destruct r; cbn [make_response sd_response_r1_make].
  all: first [apply H; by auto | apply H; rewrite (sc_cid _ P); by auto | apply H; rewrite (sc_csd _ P); by auto | eexists _, _; split; [reflexivity|by auto]].
Qed.

Lemma do_command_good s c a :
  static s → at_ease s → 0 <= c < 64 → 0 <= a < 2 ^ 32 → bad_command s c a = false →
  ∃ r s', sd_do_command s (mkReq c a) = Ok (r, s') ∧ response_length r ∧ card_inv s'.
Proof.
  intros P A Hc Ha Hbad. unfold sd_do_command. destruct (absent s) eqn:Eab; [exists [], s; split; [done|]; split; [by left|]; split; [done|by left]|]. cbn [sd_req_crc_validate truth Z.eqb negb].
  assert (∃ b, bdrv s = Some b) as Hb by (unfold absent in Eab; destruct (bdrv s); [by eexists|done]).
  assert (∃ v m, sd_set_status (mask_out s CARD_STATUS_B) = Ok (set_card_status (set_mode s m) v)) as (v & m & ->).
  { unfold sd_set_status. sd_simp. destruct A as [A|[A|A]]; rewrite A; by eexists _, _. }
  cbn [mbind res_bind cmd]. set (s1 := set_card_status _ v). assert (static s1) as P1 by (apply static_status; static_tac). assert (at_ease s1) as A1 by exact A.
  assert (∃ f, lock_refuses (card_status s) c = Ok f) as [[] ->].
  { unfold lock_refuses. destruct (truth _); [|by eexists]. destruct (truth _); [by eexists|]. destruct (aread_in sd_cmd_class c) as [k ->]; [cbn; lia|]. by eexists. }
  { cbn [mbind res_bind]. exists [], (raise s1 ILLEGAL_COMMAND). split; [done|]. split; [by left|]. split; [by apply static_status|by left]. }
  cbn [mbind res_bind].
  match goal with |- ∃ r s', (?X ≫= _) = _ ∧ _ => assert (good c X) as (t & s2 & -> & O) end.
  { destruct (truth _); [|by apply normal_good]. destruct (app_good s1 c a) as (t & s2 & -> & O); [done..|]. cbn [mbind res_bind]. eexists _, _. split; [done|]. by apply outcome_status. }
  cbn [mbind res_bind].
  assert (outcome c (set_current_cmd s2 c)) as O' by (destruct O as [P2 H2]; split; [clear P P1; static_tac|exact H2]).
  destruct (make_response_ok t (card_status s) (set_current_cmd s2 c) c O') as (l & v' & -> & Hl).
  eexists _, _. split; [reflexivity|]. split; [destruct (truth _); [by left|done]|]. destruct O' as [P2 H2]. split; [by apply static_status|].
  destruct H2 as [H2|(H2 & H3 & H4)]; [by left|right]. constructor; [done|done| |].
  - sd_simp. rewrite H3. unfold limit. destruct (_ =? 13); [lia|]. destruct (_ =? 51); lia.
  - sd_simp. intros H5. specialize (H4 H5). split; [lia|]. left. lia.
Qed.

(** ** Data *)

Lemma blk_read_safe s addr len :
  static s → 0 <= addr < 2 ^ 41 → 0 <= len <= 512 → ∃ d m, sd_blk_read s addr len = Ok (set_buf (set_data s d) m) ∧ length d = 512%nat ∧ length m = 512%nat.
Proof.
  intros P Ha Hl. destruct (addr_split addr ltac:(lia)) as (El & Es & Ed). destruct (addr_split (addr + len) ltac:(lia)) as (El' & Es' & _).
  pose proof (Z.mod_pos_bound addr 512 ltac:(lia)). pose proof (Z.div_mod addr 512 ltac:(lia)). pose proof (sc_data _ P) as Ld. pose proof (sc_buf _ P) as Lb.
  unfold sd_blk_read. destruct (bdrv s) as [b|] eqn:Eb; [|exists (data s), (buf s); by destruct s]. rewrite El, Es, Ed, (u64_small (addr + len)), (u64_small (addr - _ + _)) by lia.
  pose proof (read_length b (addr / 512) (buf s) Lb) as Lm. destruct (bdrv_read b (addr / 512) (buf s)) as [r m]. cbn [snd] in Lm.
  destruct (r =? -1); [exists (data s), m; by destruct s|]. destruct (Z.ltb_spec (addr - addr mod 512 + 512) (addr + len)) as [Hx|Hx]; sd_simp.
  - destruct (memcpy (data s) 0 m (addr mod 512) (512 - addr mod 512)) as [d|] eqn:Hd; [|by rewrite memcpy_in in Hd by lia]. pose proof (memcpy_length _ _ _ _ _ _ Hd) as Ld'. sd_simp.
    rewrite El', Es'. pose proof (read_length b ((addr + len) / 512) m Lm) as Lm'. destruct (bdrv_read b ((addr + len) / 512) m) as [r' m']. cbn [snd] in Lm'.
    destruct (r' =? -1); [exists d, m'; split; [done|]; split; [lia|done]|].
    assert ((addr + len) mod 512 = addr mod 512 + len - 512) as Em by (symmetry; apply (Z.mod_unique _ _ (addr / 512 + 1)); lia). rewrite Em.
    destruct (memcpy d (512 - addr mod 512) m' 0 (addr mod 512 + len - 512)) as [d'|] eqn:Hd'; [|by rewrite memcpy_in in Hd' by lia].
    exists d', m'. split; [done|]. rewrite (memcpy_length _ _ _ _ _ _ Hd'). lia.
  - destruct (memcpy (data s) 0 m (addr mod 512) len) as [d|] eqn:Hd; [|by rewrite memcpy_in in Hd by lia].
    exists d, m. split; [done|]. rewrite (memcpy_length _ _ _ _ _ _ Hd). lia.
Qed.

Lemma limit_range c : 0 < limit c <= 512.
Proof. unfold limit. destruct (_ =? 13); [lia|]. destruct (_ =? 51); lia. Qed.

Lemma get_byte_good s l : data_out s → limit (current_cmd s) <= Z.of_nat (length l) → ∃ v, get_byte s l = Ok (v, set_data_offset s (data_offset s + 1)).
Proof.
  intros D Hl. pose proof (do_off _ D). pose proof (limit_range (current_cmd s)). unfold get_byte. destruct (aread_in l (data_offset s)) as [v ->]; [lia|]. cbn [mbind res_bind].
  rewrite u32_small by lia. by exists v.
Qed.
Lemma get_last_good s l n :
  static s → data_out s → limit (current_cmd s) <= Z.of_nat (length l) → n <= limit (current_cmd s) → ∃ v s', get_last s l n = Ok (v, s') ∧ card_inv s'.
Proof.
  intros P D Hl Hn. unfold get_last. destruct (get_byte_good s l D Hl) as [v ->]. cbn [mbind res_bind]. eexists _, _. split; [done|]. sd_simp.
  destruct (Z.leb_spec n (data_offset s + 1)).
  - split; [static_tac|]. left. by right; left.
  - split; [static_tac|]. right. destruct D as [? ? Ho Hs]. constructor; sd_simp; try done. lia.
Qed.

Definition io_length s : Z := if truth (Z.land (ocr s) (Z.shiftl 1 30)) then 512 else blk_len s.
Lemma io_length_range s : static s → 0 <= io_length s <= 512.
Proof. intros P. unfold io_length. pose proof (sc_len _ P). destruct (truth _); lia. Qed.

Lemma fetch_good s :
  static s → data_out s → current_cmd s = 11 ∨ current_cmd s = 17 ∨ current_cmd s = 18 → truth (Z.land (card_status s) ADDRESS_ERROR) = false →
  ∃ s', fetch s (io_length s) = Ok s' ∧ static s' ∧ data_out s' ∧ current_cmd s' = current_cmd s ∧ card_status s' = card_status s ∧ io_length s' = io_length s.
Proof.
  intros P D Hc Hna. pose proof (do_start _ D Hc) as [H0 Hs]. destruct Hs as [Hs|Hs]; [|congruence]. unfold fetch. destruct (data_offset s =? 0); [|by exists s].
  destruct (blk_read_safe s (data_start s) (io_length s) P ltac:(lia) (io_length_range s P)) as (d & m & -> & Ld & Lm). eexists. split; [done|].
  split; [static_tac|]. split; [|done]. destruct D. by constructor.
Qed.

Lemma read_on_good s :
  static s → data_out s → current_cmd s = 11 ∨ current_cmd s = 18 → truth (Z.land (card_status s) ADDRESS_ERROR) = false → ∃ v s', read_on s (io_length s) = Ok (v, s') ∧ card_inv s'.
Proof.
  intros P D Hc Hna. destruct (fetch_good s P D ltac:(lia) Hna) as (s1 & E1 & P1 & D1 & Hc1 & Cs1 & Ei). unfold read_on. rewrite E1. cbn [mbind res_bind].
  assert (limit (current_cmd s1) = 512) as Hlim by (rewrite Hc1; by destruct Hc as [-> | ->]).
  destruct (get_byte_good s1 (data s1) D1) as [v ->]; [rewrite (sc_data _ P1), Hlim; lia|]. cbn [mbind res_bind].
  pose proof (io_length_range s P) as Hr. pose proof (do_start _ D1 ltac:(lia)) as [H0 Hs]. rewrite Cs1 in Hs. destruct Hs as [Hs|Hs]; [|congruence]. pose proof (do_off _ D1).
  pose proof (sc_size _ P1). sd_simp. destruct (Z.leb_spec (io_length s) (data_offset s1 + 1)); (eexists _, _; split; [reflexivity|]).
  - rewrite (u64_small (data_start s1 + io_length s)) by lia. rewrite u64_small by lia. destruct (Z.ltb_spec (sd_size s1) (data_start s1 + io_length s + io_length s)) as [Hx|Hx].
    + split; [apply static_status; clear P; static_tac|]. right. destruct D1 as [? ? ? ?]. constructor; sd_simp; try done; [lia|]. intros _. split; [lia|]. right.
      change ADDRESS_ERROR with (Z.shiftl 1 30). rewrite truth_land_bit, Z.lor_spec by lia. by rewrite orb_true_r.
    + split; [clear P; static_tac|]. right. destruct D1 as [? ? ? ?]. constructor; sd_simp; try done; [lia|]. intros _. split; [lia|]. left. lia.
  - split; [clear P; static_tac|]. right. destruct D1 as [? ? ? ?]. constructor; sd_simp; try done. lia.
Qed.

Lemma read_data_good s : card_inv s → ∃ v s', sd_read_data s = Ok (v, s') ∧ card_inv s'.
Proof.
  intros [P HA]. assert (∃ v s', Ok (0, s) = Ok (v, s') ∧ card_inv s') as Same by (eexists _, _; split; [reflexivity|by split]).
  unfold sd_read_data. destruct (absent s); [exact Same|]. destruct (bool_decide_reflect (state s = sd_sendingdata_state)) as [Hst|Hst]; cbn [negb]; [|exact Same].
  destruct HA as [A|D]; [exfalso; destruct A as [A|[A|A]]; congruence|]. destruct (truth _) eqn:Hf; [exact Same|]. fold (io_length s).
  assert (truth (Z.land (card_status s) ADDRESS_ERROR) = false) as Hna.
  { apply negb_false_iff, Z.eqb_eq in Hf. unfold truth. apply negb_false_iff, Z.eqb_eq. rewrite Z.land_lor_distr_r in Hf. by apply Z.lor_eq_0_iff in Hf as [-> _]. }
  assert (∀ n, n <= 512 → limit (current_cmd s) = 512 → ∃ v s', get_last s (data s) n = Ok (v, s') ∧ card_inv s') as Glast.
  { intros n Hn Hlim. apply get_last_good; [done|done|rewrite (sc_data _ P)|]; lia. }
  assert (current_cmd s ∈ [6; 9; 10; 11; 13; 17; 18; 22; 30; 51; 56] ∨ current_cmd s ∉ [6; 9; 10; 11; 13; 17; 18; 22; 30; 51; 56]) as [Hin|Hin] by (destruct (decide (current_cmd s ∈ [6; 9; 10; 11; 13; 17; 18; 22; 30; 51; 56])); auto).
  - repeat (apply elem_of_cons in Hin as [Hc | Hin]); [..|by apply elem_of_nil in Hin]; rewrite Hc in Glast |- *.
    + by apply Glast.
    + by apply Glast.
    + by apply Glast.
    + apply read_on_good; [done|done|lia|done].
    + apply get_last_good; [done|done|rewrite Hc, (sc_status _ P); done|by rewrite Hc].
    + destruct (fetch_good s P D ltac:(lia) Hna) as (s1 & -> & P1 & D1 & Hc1 & Cs1 & Ei). cbn [mbind res_bind]. pose proof (io_length_range s P).
      apply get_last_good; [done|done|rewrite Hc1, Hc, (sc_data _ P1); done|rewrite Hc1, Hc; change (limit 17) with 512; lia].
    + apply read_on_good; [done|done|lia|done].
    + by apply Glast.
    + by apply Glast.
    + apply get_last_good; [done|done|rewrite Hc, (sc_scr _ P); done|by rewrite Hc].
    + pose proof (sc_len _ P). destruct (data_offset s =? 0); cbn [mbind res_bind]; [|apply Glast; [lia|done]]. unfold memset.
      destruct (memcpy_ok (data s) (replicate (Z.to_nat (blk_len s)) 0xec) (blk_len s) (sc_data _ P)) as (d & -> & Ld); [lia|rewrite length_replicate; lia|lia|]. cbn [mbind res_bind].
      apply get_last_good; [by apply static_data|destruct D; by constructor|sd_simp; rewrite Hc, Ld; done|sd_simp; rewrite Hc; change (limit 56) with 512; lia].
  - pose proof (do_cmd _ D) as Hr. clear Glast D. generalize dependent (current_cmd s). intros c Hin Hr.
    assert (∃ k : nat, c = Z.of_nat k ∧ (k < 64)%nat) as (k & -> & Hk) by (exists (Z.to_nat c); lia). clear Hr.
    do 64 (destruct k as [|k]; [first [exact Same | exfalso; apply Hin; vm_compute; by repeat constructor]|]). lia.
Qed.

(** ** The adapter *)

Record adapter_inv w : Prop := {
  ai_card : card_inv (card w);
  ai_args : length (cmdarg w) = 4%nat ∧ Forall (λ v, 0 <= v < 2 ^ 8) (cmdarg w);
  ai_response : length (response w) = 5%nat;
  ai_cmd : 0 <= ss_cmd w < 64;
  ai_ease : ss_mode w = SSI_SD_CMD ∨ ss_mode w = SSI_SD_CMDARG → at_ease (card w);
  ai_arglen : ss_mode w = SSI_SD_CMDARG → 0 <= arglen w <= 4;
  ai_pos : ss_mode w = SSI_SD_RESPONSE → 0 <= response_pos w ∧ arglen w <= 5;
}.
(** The argument that was collected. *)
Definition collected w : Z := match be_value (cmdarg w) with Ok a => a | Err _ => 0 end.
(** The transfers that can lead to a fault. *)
Definition hazard (v : Z) w : bool :=
  (ss_mode w =? SSI_SD_DATA_READ) && (v =? 0x4d) || (ss_mode w =? SSI_SD_CMDARG) && (arglen w =? 4) && bad_command (card w) (ss_cmd w) (collected w).

Lemma be_value_ok l : length l = 4%nat ∨ length l = 16%nat → ∃ v, be_value l = Ok v ∧ 0 <= v < 2 ^ 32.
Proof.
  intros Hl. unfold be_value. destruct (aread_in l 0) as [b0 ->]; [lia|]. destruct (aread_in l 1) as [b1 ->]; [lia|]. destruct (aread_in l 2) as [b2 ->]; [lia|]. destruct (aread_in l 3) as [b3 ->]; [lia|].
  cbn [mbind res_bind]. eexists. split; [done|]. apply u32_range.
Qed.

Lemma run_command_good w :
  adapter_inv w → ss_mode w = SSI_SD_CMDARG → bad_command (card w) (ss_cmd w) (collected w) = false →
  ∃ w', run_command w = Ok w' ∧ adapter_inv w'.
Proof.
  intros [[P C] [La Fa] Lr Hc He _ _] Hm Hbad. unfold run_command. destruct (be_value_ok (cmdarg w) ltac:(by left)) as (a & Ea & Ha). unfold collected in Hbad. rewrite Ea in Hbad |- *. cbn [mbind res_bind].
  destruct (do_command_good (card w) (ss_cmd w) a P (He (or_intror Hm)) Hc Ha Hbad) as (r & s' & -> & Hl & I). cbn [mbind res_bind]. cbv zeta. cbn [set_card response ss_cmd].
  assert (∀ resp n, length resp = 5%nat → n <= 5 → adapter_inv (set_pos (set_ss_mode (set_response (set_card w s') resp n) SSI_SD_RESPONSE) 0)) as Done.
  { intros resp n Hresp Hn. constructor; cbn; try done; try (by intros [? | ?]). }
  destruct (Z.leb_spec (Z.of_nat (length r)) 0).
  { rewrite awrite_in by lia. cbn [mbind res_bind]. eexists. split; [done|]. apply Done; [by rewrite length_insert|lia]. }
  destruct (ss_cmd w =? 58).
  { rewrite awrite_in by lia. cbn [mbind res_bind]. destruct (memcpy (<[Z.to_nat 0:=1]> (response w)) 1 r 0 4) as [m|] eqn:E; [|rewrite memcpy_in in E by (rewrite ?length_insert; destruct Hl as [Hl|[Hl|Hl]]; lia); done].
    cbn [mbind res_bind]. eexists. split; [done|]. apply Done; [by rewrite (memcpy_length _ _ _ _ _ _ E), length_insert|lia]. }
  destruct (Z.eqb_spec (Z.of_nat (length r)) 4) as [H4|H4]; cbn [negb].
  - destruct (be_value_ok r ltac:(lia)) as (cs & -> & _). cbn [mbind res_bind]. generalize (spi_status cs). intros st. rewrite awrite_in by lia. cbn [mbind res_bind]. rewrite awrite_in by (rewrite length_insert; lia). cbn [mbind res_bind].
    eexists. split; [done|]. apply Done; [by rewrite !length_insert|destruct (_ =? 13); lia].
  - rewrite awrite_in by lia. cbn [mbind res_bind]. eexists. split; [done|]. apply Done; [by rewrite length_insert|lia].
Qed.

(** One transfer. *)
Lemma transfer_keeps v w : adapter_inv w → hazard v w = false → ∃ r w', ssi_sd_transfer v w = Ok (r, w') ∧ adapter_inv w'.
Proof.
  intros I Hh. unfold hazard in Hh. apply orb_false_iff in Hh as [Hh1 Hh2]. pose proof I as [[P C] [La Fa] Lr Hc He Hal Hpos].
  destruct (Z.eq_dec (ss_mode w) SSI_SD_CMD) as [Hm|Hn0].
  { rewrite transfer_cmd by done. eexists _, _. split; [done|]. destruct (v =? 0xff); [done|]. pose proof (land_low v 6 ltac:(lia)) as Hl. change (2 ^ 6 - 1) with 0x3f in Hl. change (2 ^ 6) with 64 in Hl.
    constructor; cbn; try done; try lia. intros _. apply He. by left. }
  destruct (Z.eq_dec (ss_mode w) SSI_SD_CMDARG) as [Hm|Hn1].
  { specialize (Hal Hm). destruct (Z.eq_dec (arglen w) 4) as [H4|H4].
    - rewrite transfer_run by done. rewrite Hm, H4 in Hh2. cbn [SSI_SD_CMDARG Z.eqb Pos.eqb andb] in Hh2. destruct (run_command_good w I Hm Hh2) as (w' & -> & I'). cbn [mbind res_bind]. by eexists _, _.
    - rewrite transfer_arg by done. rewrite awrite_in by lia. cbn [mbind res_bind]. eexists _, _. split; [done|]. constructor; cbn; try done; try (by rewrite Hm); try lia.
      split; [by rewrite length_insert|]. apply Forall_insert; [done|]. unfold u8. apply Z.mod_pos_bound. lia. }
  destruct (Z.eq_dec (ss_mode w) SSI_SD_RESPONSE) as [Hm|Hn2].
  { rewrite transfer_response by done. specialize (Hpos Hm). destruct (truth (stopping w)).
    { eexists _, _. split; [done|]. constructor; cbn; try done; try (by rewrite Hm). }
    destruct (Z.ltb_spec (response_pos w) (arglen w)).
    { destruct (aread_in (response w) (response_pos w)) as [r ->]; [lia|]. cbn [mbind res_bind]. eexists _, _. split; [done|]. constructor; cbn; try done; try (by rewrite Hm); intros _; lia. }
    eexists _, _. split; [done|]. unfold sd_data_ready. destruct (bool_decide_reflect (state (card w) = sd_sendingdata_state)) as [Hst|Hst]; (constructor; cbn; try done; try (by intros [? | ?])).
    intros _. destruct C as [C|D]; [done|]. by pose proof (do_state _ D). }
  destruct (Z.eq_dec (ss_mode w) SSI_SD_DATA_START) as [Hm|Hn3].
  { rewrite transfer_start by done. eexists _, _. split; [done|]. constructor; cbn; try done; try (by intros [? | ?]). }
  destruct (Z.eq_dec (ss_mode w) SSI_SD_DATA_READ) as [Hm|Hn4].
  { rewrite Hm in Hh1. cbn [SSI_SD_DATA_READ Z.eqb Pos.eqb andb] in Hh1. apply Z.eqb_neq in Hh1. rewrite transfer_data by done.
    destruct (read_data_good (card w) (conj P C)) as (r & s' & -> & I'). cbn [mbind res_bind]. eexists _, _. split; [done|]. unfold sd_data_ready.
    destruct (bool_decide_reflect (state s' = sd_sendingdata_state)) as [Hst|Hst]; (constructor; cbn; try done; try (by rewrite Hm)); [by intros [E | E]; rewrite Hm in E|].
    intros _. destruct I' as [_ [A|D]]; [done|]. by pose proof (do_state _ D). }
  exists 0xff, w. split; [|done]. unfold ssi_sd_transfer. rewrite (proj2 (Z.eqb_neq _ _) Hn4). cbn [andb].
  by rewrite (proj2 (Z.eqb_neq _ _) Hn0), (proj2 (Z.eqb_neq _ _) Hn1), (proj2 (Z.eqb_neq _ _) Hn2), (proj2 (Z.eqb_neq _ _) Hn3), (proj2 (Z.eqb_neq _ _) Hn4).
Qed.

(** A card that was just made, with a drive or without. *)
Lemma init_good bs blk :
  (∀ b, bs = Some b → 0 <= bdrv_get_geometry b < 2 ^ 32) → length blk = 512%nat → adapter_inv (ssi_sd_init bs blk).
Proof.
  intros Hg Hb. assert (static (sd_init bs true blk) ∧ state (sd_init bs true blk) = sd_idle_state) as [P St].
  { unfold sd_init. set (s0 := mkSD _ _ _ _ _ _ _ _ _ _ _ _ _ _ _ _ _ _ _ _ _ _ _ _ _ _ _ _). by apply (reset_good bs s0). }
  assert (at_ease (sd_init bs true blk)) as A by (by left). unfold ssi_sd_init. generalize dependent (sd_init bs true blk). intros s P St A.
  constructor; cbn; try done; [by split; [|left]|split; [done|by repeat constructor]].
Qed.

(** Transfers of which none is a hazard. *)
Fixpoint harmless (vals : list Z) w : bool :=
  match vals with
  | [] => true
  | v :: vals => negb (hazard v w) && match ssi_sd_transfer v w with Ok (_, w) => harmless vals w | Err _ => true end
  end.

(** [C13]: whatever a guest sends to a fresh card over the serial bus, adapter and card give
    one byte for each and stay within their buffers, for any block layer that keeps its
    laws, also when the medium is missing or reading fails: but for the three kinds of
    transfer that are shown to fault (a CMD13 in the middle of data, a CMD8 with a voltage in
    the topmost bit, an ERASE of which the end is beyond the card). *)
Theorem ssi_sd_safe bs blk vals :
  (∀ b, bs = Some b → 0 <= bdrv_get_geometry b < 2 ^ 32) → length blk = 512%nat → harmless vals (ssi_sd_init bs blk) = true →
  ∃ rs w, transfers vals (ssi_sd_init bs blk) = Ok (rs, w) ∧ length rs = length vals ∧ adapter_inv w.
Proof.
  intros Hg Hb. pose proof (init_good bs blk Hg Hb) as I. revert I. generalize (ssi_sd_init bs blk). clear Hg Hb.
  induction vals as [|v vals IH]; intros w I Hh; cbn [transfers harmless] in *; [by exists [], w|].
  apply andb_true_iff in Hh as [Hv Hh]. apply negb_true_iff in Hv. destruct (transfer_keeps v w I Hv) as (r & w1 & E & I1). rewrite E in Hh |- *. cbn [mbind res_bind].
  destruct (IH w1 I1 Hh) as (rs & w2 & -> & Hl & I2). cbn [mbind res_bind]. eexists _, _. split; [done|]. split; [|done]. cbn. by rewrite Hl.
Qed.
End safety.

(** A guest that starts the card, asks for its registers, reads a block with a length of its
    own, and sends commands that are illegal. *)
Definition demo_traffic : list Z :=
  cmd_frame 8 0x1aa 0x87 ++ [0xff; 0xff] ++ spi_start ++ cmd_frame 9 0 0xff ++ replicate 19 0xff ++ cmd_frame 16 5 0xff ++ [0xff; 0xff] ++
  cmd_frame 17 510 0xff ++ replicate 8 0xff ++ cmd_frame 24 0 0xff ++ [0xff; 0xff] ++ cmd_frame 17 0x100000 0xff ++ replicate 20 0xff.
Lemma ssi_sd_safe_witness :
  ∃ rs w, transfers demo_traffic (ssi_sd_init (Some demo_image) (replicate 512 0)) = Ok (rs, w) ∧ length rs = length demo_traffic ∧ adapter_inv w.
Proof. apply (ssi_sd_safe (Some demo_image) (replicate 512 0) demo_traffic); [intros b [= <-]; cbn; lia|reflexivity|vm_compute; reflexivity]. Defined.

(** ** The faults

    The byte that the adapter takes for the end of a transfer of several blocks is that of
    SEND_STATUS; the card is then still sending, and the next data bytes come from behind the
    end of the 64 bytes of its status. STOP_TRANSMISSION is taken for a byte of the data:
    after it the transfer goes on. *)
Definition demo_read : list Z := spi_start ++ cmd_frame 18 0 0xff ++ replicate 103 0xff.
Theorem stop_reads_out_of_bounds :
  transfers (demo_read ++ cmd_frame 13 0 0xff ++ replicate 6 0xff) (ssi_sd_init (Some demo_image) (replicate 512 0)) = Err Out_of_bounds.
Proof. vm_compute. reflexivity. Qed.
Theorem stop_transmission_is_ignored :
  ('(rs, w) ← transfers (demo_read ++ cmd_frame 12 0 0xff ++ [0xff; 0xff]) (ssi_sd_init (Some demo_image) (replicate 512 0)); Ok (drop (length demo_read) rs, ss_mode w)) =
    Ok (replicate 8 0x11, SSI_SD_DATA_READ).
Proof. vm_compute. reflexivity. Qed.
Theorem serial_faults :
  transfers (cmd_frame 8 0x80000000 0xff) (ssi_sd_init (Some demo_image) (replicate 512 0)) = Err Bad_shift ∧
  transfers (spi_start ++ cmd_frame 32 512 0xff ++ [0xff; 0xff] ++ cmd_frame 33 0x200000 0xff ++ [0xff; 0xff] ++ cmd_frame 38 0 0xff)
    (ssi_sd_init (Some demo_image) (replicate 512 0)) = Err Out_of_bounds.
Proof. split; vm_compute; reflexivity. Qed.
